(* ===== verification/_CoqProject ===== *)
-Q . S2P
Prelude.v
RustStr.v
BTree.v
Prog.v
AuthTypes.v
SamplePlatform.v
WebPlatform.v
GatewayConfig.v
GatewayConfigProps.v
Store.v
StoreProps.v
TokenLifecycle.v
StoreWf.v
Migrations.v
ResourceRegistry.v
Redirect.v
Ssrf.v
RateLimit.v
Effects.v
AtRest.v
SqliteStore.v
Jwt.v
Scopes.v
Cimd.v
Token.v
Traces.v
Authorize.v
TokenProps.v
EndpointProps.v
AuthorizeProps.v
System.v
Middleware.v
Completeness.v
Metadata.v
Upstream.v
UpstreamProps.v
Paths.v
Fs.v
FsProps.v
Workspace.v
WorkspaceBatch.v
WorkspaceSafe.v
WorkspaceWrite.v
WorkspaceUsage.v
WorkspaceEdits.v
GitCommand.v
SpawnGuard.v
WebEffects.v
Remote.v
RemoteProps.v
UpstreamStore.v
UpstreamManager.v
OutboundProps.v
OutboundRefresh.v
CredentialProps.v
AuthLoad.v
AuthLoadProps.v
ClientCache.v
ClientCacheProps.v
RustNet.v
GatewayOps.v
GatewayOpsProps.v
RunnerPool.v
RunnerPoolProps.v
Redact.v
CodeModeCalls.v
RunnerDrive.v
RunnerDriveProps.v
RunnerLoop.v
RunnerLoopProps.v
Relay.v
RelayRegistry.v
RelaySystem.v
RelayProps.v
RelayTheorems.v
EnvMerge.v
EnvMergeProps.v
Artifacts.v
ArtifactPrune.v
Truncate.v
