(* ===== verification/Prelude.v ===== *)
(** * Labby: a verification development

    Labby is a gateway for MCP servers.  This library models seven parts of it
    and proves what makes them safe to run:

    - the authorization server in front of the gateway (crate [labby-auth],
      [src/crates/labby-auth]): who can obtain a token, for what and how often,
      and which requests a token admits, under any interleaving of concurrent
      requests and any failure of the environment;
    - the state workspace of Code Mode ([labby-codemode/src/state] and [git]):
      the file and git operations a sandboxed script may request, which must
      stay below one directory, within quotas, and must not leave half-done
      changes behind;
    - the execution of Code Mode scripts ([labby-codemode/src/pool], [runner_drive],
      [runner.rs], [artifacts.rs], [truncate.rs]): the pool of runner processes,
      the loop that serves a script's requests, what a script can make the host
      do, the files it leaves behind, and the response it gets;
    - the catalog of upstream servers of the gateway ([labby-gateway],
      [src/upstream] and [src/security]): health, quarantine, which tools are
      shown and routed, and which programs an upstream may start;
    - the outbound OAuth client ([labby-auth/src/upstream], [google.rs],
      [remote.rs]): how Labby itself signs in to upstream servers and to
      Google, where it sends secrets and how it keeps the tokens it gets;
    - the public relay of OAuth callbacks ([labby/src/oauth/public_relay],
      [labby/src/api/services/oauth_relay.rs]): what an unauthenticated callback
      can reach in the private network, and the registry of machines behind it;
    - the configuration of the server and the gateway ([labby-auth/src/config.rs],
      [labby-runtime/src/gateway_config.rs], [labby/src/config/env_merge.rs]): what
      is accepted, what a started server can rely on, and how settings and secrets
      are written.

    ** The program

    A client is registered (or names a metadata document), sends the browser
    to [/authorize], the user signs in with Google, the callback checks an
    email allowlist and issues a one-time code, and [/token] exchanges the code
    (with PKCE) for an access token and a refresh token, which it later
    rotates.  Machine clients and enterprise issuers have grants of their own.
    All state is in one SQLite database ([sqlite.rs] and [sqlite/]); the
    resources a token may be for come from an in-memory registry with leases
    ([resource_registry.rs]); remote documents and key sets are cached.  Every
    protected route is wrapped in a layer ([middleware.rs]) that admits a
    request by a static token, by an access token of this server ([jwt.rs]) or
    by a browser session.  Behind that layer the gateway routes tool calls to
    the upstream servers of its catalog, and Code Mode runs scripts whose state
    methods are served from a workspace directory.  For an upstream that wants
    OAuth itself, a manager per upstream discovers its authorization server,
    runs the authorization with PKCE, seals the tokens of each subject into the
    same database, and builds clients that a cache shares between requests.
    Clients on private machines get their OAuth callbacks through a relay, which
    forwards a public request to the machine registered under its name.

    ** How code is modelled

    Pure functions are functions.  An [async fn] is a program (file Prog): a
    tree of the effects it awaits.  Effects (file Effects) are the clock,
    randomness, one database statement or transaction, the rate limiters, the
    registry, the identity provider, remote fetches, caches and locks; the
    workspace has effects of its own (file Fs), one per system call, and the
    outbound clients theirs (file WebEffects): HTTP exchanges, name resolution,
    shared caches and locks, and the calls into the [rmcp] crate.  The
    body of each store method's SQL is a function on the tables (file Store).
    Errors are values ([result]); 64-bit arithmetic is written out where it
    can wrap or saturate.  The crates the server links against (URL parser,
    digests, base64, JSON, JWT, AEAD, header values) are the class [Platform]
    of AuthTypes, those of the workspace (JSON, regular expressions, tar,
    digests, identifiers) the class [CodePlatform] of Workspace: the
    definitions take them as arguments, no theorem assumes anything about them
    except where a hypothesis says so ([JwtContract] of Jwt states what the JWT
    library documents), and SamplePlatform and the sample platform of
    WorkspaceBatch instantiate them for the worked examples.  Log output is not
    modelled.

    ** Files

    - Prelude, RustStr, BTree: results, 64-bit integers, automation; the
      [str] methods and the ordered sets the sources use.
    - Prog: programs, their sequential execution [run], their [paths], and
      [always], which states a property of every path.
    - AuthTypes, SamplePlatform: the data of [types.rs], [error.rs],
      [config.rs] and parts of [google.rs], [jwt.rs], [token.rs].
    - Store: the tables and every statement of [sqlite.rs],
      [sqlite/tokens.rs], [sqlite/google_credentials.rs] and
      [sqlite/assertions.rs] as [exec]; [run_ops] runs a sequence of them.
      StoreProps and StoreWf prove the store's promises over every sequence of
      statements: one-time codes, one-time refresh tokens, the
      exclusive refresh lease, atomic rotation, generation-safe invalidation,
      assertion replay protection, and the schema's constraints.
      TokenLifecycle specifies the life of one refresh token as an automaton
      and proves that the store refines it.
    - Migrations: opening the store; every statement of [open_connection] and
      of the steps of [sqlite/migrations.rs] on the schema.  From any database
      of a past version the upgrade succeeds, and it can be stopped anywhere.
    - SqliteStore: the store's methods as programs around these statements.
    - ResourceRegistry: [resource_registry.rs] complete, with its invariant and
      the exact meaning of the scopes it reports.
    - Redirect: the redirect-URI policy of [authorize.rs]; the wildcard
      matcher is proved equal to the declarative meaning of its patterns.
    - Ssrf: [labby-primitives/src/ssrf.rs]; the address policy is proved equal
      to a table of CIDR blocks.
    - RateLimit: the per-address token buckets of [state.rs] with their doubles,
      shared by concurrent requests; bounded, with least-recently-seen eviction.
    - Effects: the effects, [AuthState], and the helpers of [util.rs],
      [state.rs], [metadata.rs] and [google.rs] (URL construction).
    - AtRest: encryption of provider tokens ([at_rest.rs]) and its round trip.
    - Jwt: issuing and validating access tokens ([jwt.rs]), and the contract of
      the JWT library.
    - Scopes: the allowlist, scope elevation, scope and resource validation and
      [return_to] of [authorize.rs].
    - Cimd: client resolution ([cimd.rs]).
    - Token: [token.rs] and [token/response.rs] complete: the four grants,
      client authentication, revocation, responses.
    - Authorize: the handlers of [authorize.rs] and [session.rs].
    - Metadata: the discovery documents ([metadata.rs]).
    - Traces: the database statements of a path, and the automation to bound
      them.  TokenProps, EndpointProps, AuthorizeProps prove, for every path of
      each handler, what it checked before it stored or returned anything.
    - System: the router ([routes.rs]) and all requests running concurrently
      against one database, as a step relation; codes and refresh tokens are
      exchanged at most once whatever the interleaving, and an executable
      scheduler that plays two races.
    - Middleware: [middleware.rs] and [auth_context.rs]: which requests are
      admitted and as whom, and that a token the token endpoint issued is
      admitted exactly where, and as long as, it was issued for.
    - Completeness: a well-formed exchange succeeds, and its replay is refused.
    - Upstream: the entries, exposure policies and health records of
      [upstream/types.rs], [pool/entries.rs], [pool/health.rs] and the queries
      of [pool/tools.rs].  UpstreamProps proves that the circuit breaker
      implements "failures since the last success", that only exposed tools of
      usable upstreams are shown or routed to, and that a policy exposes
      nothing beyond its patterns.
    - Paths: [Path] components, the checks of [labby-runtime]'s
      [path_safety.rs], and virtual paths ([state/path.rs]), which are proved to
      name something strictly below the root.
    - Fs: the tree at and below the workspace root, files, directories, links
      and special files, as a map from names to nodes, with one operation per
      system call; any call can fail, and a call whose resolution leaves the
      tree, through a link or by its path, sets a flag.  FsProps: the tree's
      well-formedness, and what calls on paths without links do.
    - Workspace, WorkspaceBatch: [state/quota.rs], [state/workspace.rs] and the
      dispatch of [state/provider.rs] complete.
    - WorkspaceSafe: for every sequence of requests and failures, no call goes
      through a link or outside the root.  WorkspaceWrite: what a write does to
      the tree.  WorkspaceUsage: the usage scan is exact and a write keeps the
      byte quota.  WorkspaceEdits: writes are atomic, edit plans are applied as
      a whole or not at all, and what is written is read back; it ends with
      concrete runs in which an operation leaves something behind.
    - GitCommand: [git/command.rs] and [git/provider.rs]; a script's parameters
      do not become options of git, and a process runs only in a directory of
      the workspace that was seen to be reached without a link.
    - SpawnGuard: [security/spawn_guard.rs], proved equal to its rules.
    - WebPlatform: the third-party code of the outbound clients as a class, with
      a sample instance.  WebEffects: their effects, the embedding of the
      server's own effects, and rely-guarantee triples on programs.
    - GatewayConfig: [gateway_config.rs]: upstreams, transports, Code Mode
      limits, hints and protected routes.  GatewayConfigProps: validation and
      the hint sanitizer accept exactly their declarative policies, and
      normalized routes are well formed.
    - Remote: [remote.rs] and the Google client of [google.rs].  RemoteProps:
      documents come from pinned public addresses and are bounded; the server's
      handlers, run with these clients in place of their effects, behave as the
      handlers do, with verified accounts.
    - UpstreamStore, UpstreamManager: [upstream/types.rs], [encryption.rs],
      [store.rs], [google_store.rs], [refresh.rs] and [manager.rs].
      OutboundProps: secrets only go to an authorization server bound to its
      issuer.  OutboundRefresh: one token call under the right lock, after the
      failure record was read when the token is due, with the cooldown after
      failures.  CredentialProps: stored tokens are sealed to
      their upstream, subject and client; pending authorizations are used once;
      the shared Google credential keeps its client and account.
    - AuthLoad: [config.rs], [AuthState::new] of [state.rs].  AuthLoadProps: a
      load succeeds exactly on readable and valid settings, with the fields the
      settings determine, and a loaded configuration starts.
    - ClientCache: [upstream/cache.rs] and [upstream/runtime.rs]; lookups,
      evictions and drops interleave as a step relation that records what each
      task has done and what it inserts.  ClientCacheProps: a
      weakest-precondition calculus for the lock of one key, what holds along a
      lookup, the invariant of the shared maps, and that a lookup is served a
      client that was built for it.
    - RustNet: the address parser of [std::net].  GatewayOps:
      [labby-gateway/src/gateway/config.rs], the validation and the changes of
      the gateway's configuration.  GatewayOpsProps: accepted changes keep it
      valid, and changes of upstreams leave no route behind.
    - RunnerPool: [pool.rs] and [pool/config.rs]; checkouts, releases, evictions
      and cancellations interleave at their suspension points.  RunnerPoolProps:
      who owns each process and each slot.
    - Redact: [labby-runtime/src/redact.rs], [trace.rs] and the log sanitizer of
      [agent_error.rs]; a stored trace does not depend on secrets.
    - CodeModeCalls: identifiers, callers, scopes and call errors ([types.rs],
      [local_provider.rs], [error_contract.rs]) and what a call is turned into
      ([execute.rs], [runner_drive.rs]).
    - RunnerDrive: the loop of [runner_drive.rs] with its handlers and budgets.
      RunnerDriveProps: the mandate of a script.
    - RunnerLoop: the runner process ([runner.rs]) and one pooled process with
      the host that drives it, as a step relation over the two pipes.
      RunnerLoopProps: executions on one process stay apart, and a run in which
      a script that forgets a request makes them cross.
    - Relay: machines, targets, paths and headers of the callback relay
      ([types.rs], [policy.rs], [header_filter.rs]).  RelayRegistry: the registry
      with its file ([store.rs]), the manager ([manager.rs]), the forwarder
      ([forward.rs]) and the handlers ([oauth_relay.rs]) as programs.
      RelaySystem: the running server, an executable step function over tasks,
      saves in threads of their own, which may panic, saves of other processes,
      and cancellation.  RelayProps: the registry
      as an abstract map, the order of lock, save and permits that every handler
      keeps, and the invariant of the server.  RelayTheorems: what a callback may
      send, linearizability, durability, permits and confinement, and runs that
      show where they end (an abandoned save, a failed sync, a panic, another
      process, a machine registered again).
    - EnvMerge: changes to the environment file ([config/env_merge.rs],
      [config/env_writer.rs], [dispatch/setup/draft.rs]).  EnvMergeProps: values
      survive quoting, and a merge sets what it is asked to set and nothing else.
    - Artifacts: [labby-codemode/src/artifacts.rs] on the file system of Fs, and
      what writing an artifact does.  ArtifactPrune: pruning equals a reference
      definition by the number and the bytes of the newer runs, what is left is
      within the limits, each call of a prune or a write is confined whatever
      happens between the calls, and interleaved executions keep the artifacts
      of running ones; the window in which they do not.
    - Truncate: [shape.rs], [truncate.rs] and the end of
      [execute_with_raw_response] ([execute.rs]): the binary search drops the
      least number of log lines, and the displayed metadata fits the displayed
      result.

    ** Bounds

    The programs of the authorization server are finite trees, so every handler
    terminates whatever its environment answers; there is no fuel.  The retry
    loops of the sources ([for attempt in 0..2], four attempts of an explicit
    revoke) are recursion on their own bound.  The directory walks of the
    workspace run until a stack is empty, and another process could keep adding
    directories: they take fuel, one unit per directory, and answer [Diverged]
    when it runs out.  More fuel than there are entries in the tree is enough
    ([usage_scan_exact], and [prune_exact] for the artifact store); the safety
    theorems of the workspace hold for any fuel.  The binary search over the log
    lines of a response has a turn per line and one more, and is proved to
    answer.

    ** What is not modelled

    The rows that a migration copies or fills in and the file permissions of the
    store, the
    link between the rate limiters of RateLimit and the handlers (the effect
    [TryAcquire] is answered by anything), processes, the HTTP transport (an
    exchange is one effect), the internals of the [rmcp] crate (its calls are
    effects answered by anything), request parsing and logging (the web
    framework), loading of signing keys, connections and relaying in the
    gateway, the JavaScript engine of Code Mode (a parameter of RunnerLoop) with
    the proxy generated for it and the snippet store, and the other crates of the
    repository (CLI, API, web UI, generated clients).  Two requests to the
    workspace do not interleave; the writes and prunes of the artifact store
    interleave as whole steps, with the snapshot of the running executions taken
    apart; between their calls [prune_calls] and [write_calls] bound what they
    change.  Whether a name is a ULID, and the text serde_json gives a response,
    are parameters.  The expiry of a cache entry is compared
    against one clock reading per sweep.  Replacing the managers of a running
    outbound runtime while lookups are in flight is not modelled: the theorem on
    the cache is about the managers of one runtime, from its empty cache on.  The
    registry file of the callback relay is durable as far as one server writes it
    ([faults] of RelaySystem is false); the commands of other processes that
    write it are steps of the model that the theorem on durability leaves out. *)

From stdpp Require Import base list gmap strings numbers pretty.

(** ** Results: Rust's [Result<A, E>] *)

Inductive result (A E : Type) : Type :=
| Ok (a : A)
| Err (e : E).
Arguments Ok {A E} _.
Arguments Err {A E} _.

#[global] Instance result_eq_dec {A E} `{EqDecision A, EqDecision E} :
  EqDecision (result A E).
Proof. solve_decision. Defined.

Definition is_ok {A E} (r : result A E) : bool :=
  match r with Ok _ => true | Err _ => false end.

(** [Result::ok]. *)
Definition ok {A E} (r : result A E) : option A :=
  match r with Ok a => Some a | Err _ => None end.

(** [Option::ok_or]. *)
Definition ok_or {A E} (o : option A) (e : E) : result A E :=
  match o with Some a => Ok a | None => Err e end.

(** [Result::map_err]. *)
Definition map_err {A E F} (f : E → F) (r : result A E) : result A F :=
  match r with Ok a => Ok a | Err e => Err (f e) end.

(** [Option::transpose] on [Option<Result<_, _>>]. *)
Definition transpose {A E} (o : option (result A E)) : result (option A) E :=
  match o with
  | None => Ok None
  | Some (Ok a) => Ok (Some a)
  | Some (Err e) => Err e
  end.

Declare Scope rust_scope.
Delimit Scope rust_scope with rust.
Open Scope rust_scope.

(** The [?] operator on pure results: an early return with the error. *)
Notation "'let?' x ':=' m 'in' k" :=
  (match m with Ok x => k | Err e => Err e end)
  (at level 10, x binder, m at level 100, k at level 200) : rust_scope.

(** A guard with an early return, and the [?] operator on a check. *)
Lemma guard_ok {A E} (b : bool) (e : E) (k : result A E) a : (if b then Err e else k) = Ok a ↔ b = false ∧ k = Ok a.
Proof. destruct b; naive_solver. Qed.
Lemma check_ok {A E} (m : result unit E) (k : result A E) a : (let? _ := m in k) = Ok a ↔ m = Ok () ∧ k = Ok a.
Proof. destruct m as [[]|]; naive_solver. Qed.
Lemma let_ok {A B E} (m : result A E) (k : A → result B E) b :
  (let? x := m in k x) = Ok b ↔ ∃ a, m = Ok a ∧ k a = Ok b.
Proof. destruct m; naive_solver. Qed.

(** ** Machine integers *)

Definition i64_min : Z := -9223372036854775808.
Definition i64_max : Z := 9223372036854775807.
Definition u64_max : Z := 18446744073709551615.
(** [usize] on the 64-bit targets the project builds for. *)
Definition usize_max : Z := u64_max.

(** Two's-complement [+] of a release build: the sum, wrapped to 64 bits. *)
Definition i64_add (a b : Z) : Z := (a + b + 9223372036854775808) mod 18446744073709551616 - 9223372036854775808.

(** [i64::saturating_add], [i64::saturating_sub], [i64::checked_add]. *)
Definition i64_sat (z : Z) : Z := Z.max i64_min (Z.min i64_max z).
Definition i64_saturating_add (a b : Z) : Z := i64_sat (a + b).
Definition i64_saturating_sub (a b : Z) : Z := i64_sat (a - b).
Definition i64_checked_add (a b : Z) : option Z :=
  if bool_decide (i64_min ≤ a + b ≤ i64_max)%Z then Some (a + b)%Z else None.
Definition u64_checked_add (a b : Z) : option Z :=
  if bool_decide (a + b ≤ u64_max)%Z then Some (a + b)%Z else None.

Definition is_i64 (z : Z) : Prop := (i64_min ≤ z ≤ i64_max)%Z.

Lemma i64_add_exact a b : is_i64 (a + b) → i64_add a b = (a + b)%Z.
Proof.
  unfold is_i64, i64_add, i64_min, i64_max. intros H.
  rewrite Z.mod_small by lia. lia.
Qed.

Lemma i64_add_range a b : is_i64 (i64_add a b).
Proof.
  unfold is_i64, i64_add, i64_min, i64_max.
  pose proof (Z.mod_pos_bound (a + b + 9223372036854775808) 18446744073709551616 eq_refl). lia.
Qed.

Lemma i64_sat_range z : is_i64 (i64_sat z).
Proof. unfold is_i64, i64_sat, i64_min, i64_max. lia. Qed.

Lemma i64_checked_add_Some a b c :
  i64_checked_add a b = Some c ↔ c = (a + b)%Z ∧ is_i64 (a + b).
Proof. unfold i64_checked_add, is_i64. case_bool_decide; naive_solver. Qed.

(** ** Automation *)

(** Splits the matches and conditionals of the goal and of the hypotheses of
    shape [_ = Ok _], discarding the branches that contradict. *)
Ltac inv_ok :=
  repeat match goal with
  | H : Ok _ = Ok _ |- _ => injection H as H
  | H : Err _ = Err _ |- _ => injection H as H
  | H : Ok _ = Err _ |- _ => discriminate H
  | H : Err _ = Ok _ |- _ => discriminate H
  | H : (_, _) = (_, _) |- _ => injection H as ?H ?H
  | H : Some _ = Some _ |- _ => injection H as H
  | H : None = Some _ |- _ => discriminate H
  | H : Some _ = None |- _ => discriminate H
  end; subst.

Ltac destruct_in H :=
  match type of H with
  | context [match ?x with _ => _ end] =>
      lazymatch x with
      | context [match _ with _ => _ end] => fail
      | _ => destruct x eqn:?
      end
  end.

Ltac split_bools :=
  repeat match goal with
  | H : _ && _ = true |- _ => apply andb_true_iff in H as [? ?]
  | H : _ || _ = false |- _ => apply orb_false_iff in H as [? ?]
  | H : negb _ = true |- _ => apply negb_true_iff in H
  | H : negb _ = false |- _ => apply negb_false_iff in H
  | H : bool_decide _ = true |- _ => apply bool_decide_eq_true in H
  | H : bool_decide _ = false |- _ => apply bool_decide_eq_false in H
  end.

Create HintDb labby.
#[export] Hint Resolve i64_add_range i64_sat_range : labby.

(** ** Lists *)

(** [Iterator::find] and [Iterator::any]/[all] are [list_find]-free here: the
    source only looks at the element found. *)
Definition find_first {A} (p : A → bool) : list A → option A :=
  fix go l := match l with [] => None | x :: r => if p x then Some x else go r end.

Lemma find_first_Some {A} (p : A → bool) l x :
  find_first p l = Some x → x ∈ l ∧ p x = true.
Proof.
  induction l as [|y l IH]; simpl; [done|].
  rewrite elem_of_cons. destruct (p y) eqn:E; intros H; [naive_solver|].
  apply IH in H as [? ?]. by auto.
Qed.

Lemma find_first_None {A} (p : A → bool) l : find_first p l = None → ∀ x, x ∈ l → p x = false.
Proof.
  induction l as [|y l IH]; simpl; [by intros _ x Hx%elem_of_nil|]. destruct (p y) eqn:E; [done|].
  intros Hn x [->|Hx]%elem_of_cons; [done|by apply IH].
Qed.

Lemma existsb_elem {A} (p : A → bool) l : existsb p l = true ↔ ∃ x, x ∈ l ∧ p x = true.
Proof.
  rewrite existsb_exists. setoid_rewrite <- list_elem_of_In. done.
Qed.

Lemma insert_Permutation {A} (l : list A) i x y : l !! i = Some x → <[i := y]> l ≡ₚ y :: delete i l.
Proof.
  revert i. induction l as [|z l IH]; intros [|i]; [done|done|done|]. cbn. intros Hl. rewrite (IH i Hl). constructor.
Qed.

Lemma existsb_false {A} (f : A → bool) l : existsb f l = false ↔ ∀ x, x ∈ l → f x = false.
Proof.
  rewrite <- not_true_iff_false, existsb_elem. split.
  - intros Hn x Hx. apply not_true_iff_false. intros Hf. apply Hn. eauto.
  - intros Hn (x & Hx & Hf). by rewrite Hn in Hf.
Qed.

Lemma forallb_elem {A} (p : A → bool) l : forallb p l = true ↔ ∀ x, x ∈ l → p x = true.
Proof.
  rewrite forallb_forall. setoid_rewrite <- list_elem_of_In. done.
Qed.

Lemma elem_filter_b {A} (p : A → bool) l x : x ∈ List.filter p l ↔ x ∈ l ∧ p x = true.
Proof. by rewrite !list_elem_of_In, List.filter_In. Qed.

(** Keys stay distinct when rows are filtered. *)
Lemma NoDup_fmap_filter {A B} (f : A → B) (p : A → bool) l : NoDup (f <$> l) → NoDup (f <$> List.filter p l).
Proof.
  induction l as [|x l IH]; [done|]. rewrite fmap_cons, NoDup_cons. intros [Hx Hl]. simpl.
  destruct (p x); [|auto]. rewrite fmap_cons, NoDup_cons. split; [|auto].
  intros (y & Hxy & Hy)%list_elem_of_fmap. apply Hx. rewrite Hxy. apply list_elem_of_fmap. exists y.
  split; [done|]. by apply elem_filter_b in Hy as [? _].
Qed.

(** Distinct keys identify their rows. *)
Lemma NoDup_key_inj {A B} (f : A → B) l x y : NoDup (f <$> l) → x ∈ l → y ∈ l → f x = f y → x = y.
Proof.
  induction l as [|z l IH]; [set_solver|]. rewrite fmap_cons, NoDup_cons. intros [Hz Hl] Hx Hy Heq.
  apply elem_of_cons in Hx as [->|Hx], Hy as [->|Hy]; [done| | |by apply IH]; destruct Hz.
  - rewrite Heq. by apply list_elem_of_fmap_2.
  - rewrite <- Heq. by apply list_elem_of_fmap_2.
Qed.
