(* ===== verification/RustStr.v ===== *)
(** * RustStr: the operations of Rust's [str] the sources use

    A Rust string is its UTF-8 byte sequence, a [string] of bytes here, so
    [len], [find] and slicing are byte-indexed as in Rust.  [trim] and
    [split_whitespace] follow [char::is_whitespace], including the multi-byte
    white-space characters of Unicode, recognised by their UTF-8 encoding. *)

From Stdlib Require Import Ascii.
From stdpp Require Import base list strings.
From S2P Require Import Prelude.

Module Str.

(** ** Definitions *)

Definition len (s : string) : Z := Z.of_nat (String.length s).
(** [chars().all] of a test that only ASCII characters pass. *)
Fixpoint all_bytes (f : ascii → bool) (s : string) : bool :=
  match s with EmptyString => true | String a r => f a && all_bytes f r end.
Definition is_empty (s : string) : bool := match s with EmptyString => true | _ => false end.

Fixpoint starts_with (p s : string) : bool :=
  match p, s with
  | EmptyString, _ => true
  | String a p', String b s' => Ascii.eqb a b && starts_with p' s'
  | String _ _, EmptyString => false
  end.

Fixpoint ends_with (p s : string) : bool :=
  String.eqb p s || match s with EmptyString => false | String _ s' => ends_with p s' end.

(** [str::find]: the byte index of the leftmost occurrence. *)
Fixpoint find (p s : string) : option nat :=
  if starts_with p s then Some 0
  else match s with EmptyString => None | String _ s' => S <$> find p s' end.

Definition contains (p s : string) : bool :=
  match find p s with Some _ => true | None => false end.

(** [&s[n..]] and [&s[..n]]. *)
Fixpoint drop (n : nat) (s : string) : string :=
  match n, s with S n', String _ s' => drop n' s' | _, _ => s end.
Fixpoint take (n : nat) (s : string) : string :=
  match n, s with S n', String a s' => String a (take n' s') | _, _ => EmptyString end.

Fixpoint strip_prefix (p s : string) : option string :=
  match p, s with
  | EmptyString, _ => Some s
  | String a p', String b s' => if Ascii.eqb a b then strip_prefix p' s' else None
  | String _ _, EmptyString => None
  end.

(** [trim_start_matches(c)], [trim_end_matches(c)], [strip_suffix(c)]. *)
Fixpoint trim_start_matches (c : ascii) (s : string) : string :=
  match s with
  | String a r => if Ascii.eqb a c then trim_start_matches c r else s
  | EmptyString => s
  end.
Fixpoint trim_end_matches (c : ascii) (s : string) : string :=
  match s with
  | EmptyString => EmptyString
  | String a r =>
      let r' := trim_end_matches c r in
      if is_empty r' && Ascii.eqb a c then EmptyString else String a r'
  end.
Fixpoint strip_suffix (c : ascii) (s : string) : option string :=
  match s with
  | EmptyString => None
  | String a EmptyString => if Ascii.eqb a c then Some EmptyString else None
  | String a r => String a <$> strip_suffix c r
  end.

Definition cons_head (a : ascii) (l : list string) : list string :=
  match l with h :: t => String a h :: t | [] => [String a EmptyString] end.

(** [str::split(c)], never empty. *)
Fixpoint split (c : ascii) (s : string) : list string :=
  match s with
  | EmptyString => [EmptyString]
  | String a r => if Ascii.eqb a c then EmptyString :: split c r else cons_head a (split c r)
  end.

Fixpoint split_once (c : ascii) (s : string) : option (string * string) :=
  match s with
  | EmptyString => None
  | String a r =>
      if Ascii.eqb a c then Some (EmptyString, r)
      else match split_once c r with Some (x, y) => Some (String a x, y) | None => None end
  end.

Fixpoint join (sep : string) (l : list string) : string :=
  match l with
  | [] => EmptyString
  | [x] => x
  | x :: r => x +:+ sep +:+ join sep r
  end.

(** ASCII case folding. *)
Definition lower_ascii (a : ascii) : ascii :=
  let n := Ascii.nat_of_ascii a in
  if (65 <=? n) && (n <=? 90) then Ascii.ascii_of_nat (n + 32) else a.
Fixpoint to_ascii_lowercase (s : string) : string :=
  match s with EmptyString => EmptyString | String a r => String (lower_ascii a) (to_ascii_lowercase r) end.
Definition eq_ignore_ascii_case (a b : string) : bool :=
  String.eqb (to_ascii_lowercase a) (to_ascii_lowercase b).

(** ** White space *)

Definition byte (a : ascii) : nat := Ascii.nat_of_ascii a.
Definition ws1 (a : ascii) : bool := ((9 <=? byte a) && (byte a <=? 13)) || (byte a =? 32).
(** U+0085 and U+00A0. *)
Definition ws2 (a b : ascii) : bool := (byte a =? 194) && ((byte b =? 133) || (byte b =? 160)).
(** U+1680, U+2000 to U+200A, U+2028, U+2029, U+202F, U+205F, U+3000. *)
Definition ws3 (a b c : ascii) : bool :=
  ((byte a =? 225) && (byte b =? 154) && (byte c =? 128))
  || ((byte a =? 226) && (byte b =? 128) &&
        (((128 <=? byte c) && (byte c <=? 138)) || (byte c =? 168) || (byte c =? 169) || (byte c =? 175)))
  || ((byte a =? 226) && (byte b =? 129) && (byte c =? 159))
  || ((byte a =? 227) && (byte b =? 128) && (byte c =? 128)).

(** The byte length of the white-space character at the head, 0 when the
    string does not start with one. *)
Definition ws_at (s : string) : nat :=
  match s with
  | EmptyString => 0
  | String a r =>
      if ws1 a then 1 else
      match r with
      | EmptyString => 0
      | String b r2 =>
          if ws2 a b then 2 else
          match r2 with
          | EmptyString => 0
          | String c _ => if ws3 a b c then 3 else 0
          end
      end
  end.

Fixpoint trim_start (s : string) : string :=
  match s with
  | EmptyString => EmptyString
  | String a r =>
      match ws_at s with
      | 0 => s
      | 1 => trim_start r
      | 2 => match r with String _ r2 => trim_start r2 | EmptyString => EmptyString end
      | _ => match r with
             | String _ (String _ r3) => trim_start r3
             | _ => EmptyString
             end
      end
  end.

(** The end of a string, read backwards. *)
Definition ws_at_rev (s : string) : nat :=
  match s with
  | EmptyString => 0
  | String a r =>
      if ws1 a then 1 else
      match r with
      | EmptyString => 0
      | String b r2 =>
          if ws2 b a then 2 else
          match r2 with
          | EmptyString => 0
          | String c _ => if ws3 c b a then 3 else 0
          end
      end
  end.

Fixpoint trim_rev (s : string) : string :=
  match s with
  | EmptyString => EmptyString
  | String a r =>
      match ws_at_rev s with
      | 0 => s
      | 1 => trim_rev r
      | 2 => match r with String _ r2 => trim_rev r2 | EmptyString => EmptyString end
      | _ => match r with
             | String _ (String _ r3) => trim_rev r3
             | _ => EmptyString
             end
      end
  end.

Definition trim_end (s : string) : string := String.rev (trim_rev (String.rev s)).
Definition trim (s : string) : string := trim_end (trim_start s).

(** [split(char::is_whitespace)], and [split_whitespace] that drops the empty
    pieces. *)
Fixpoint split_on_ws (s : string) : list string :=
  match s with
  | EmptyString => [EmptyString]
  | String a r =>
      match ws_at s with
      | 0 => cons_head a (split_on_ws r)
      | 1 => EmptyString :: split_on_ws r
      | 2 => match r with
             | String _ r2 => EmptyString :: split_on_ws r2
             | EmptyString => [EmptyString]
             end
      | _ => match r with
             | String _ (String _ r3) => EmptyString :: split_on_ws r3
             | _ => [EmptyString]
             end
      end
  end.
Definition split_whitespace (s : string) : list string :=
  List.filter (fun w => negb (is_empty w)) (split_on_ws s).

(** [str::lines]: a line ends with a line feed, which is dropped together with a
    carriage return before it; an empty rest after the last line feed is not a
    line. *)
Definition strip_cr (line : string) : string := default line (strip_suffix "013" line).
Fixpoint line_pieces (l : list string) : list string :=
  match l with [] => [] | [x] => if is_empty x then [] else [x] | x :: r => strip_cr x :: line_pieces r end.
Definition lines (s : string) : list string := line_pieces (split "010" s).

(** ** Appending, prefixes, suffixes and occurrences *)

Lemma app_nil_l s : "" +:+ s = s.
Proof. done. Qed.
Lemma app_cons a s t : String a s +:+ t = String a (s +:+ t).
Proof. done. Qed.
Lemma app_nil_r s : s +:+ "" = s.
Proof. induction s as [|a s IH]; [done|]. by rewrite app_cons, IH. Qed.
Lemma app_assoc s t u : (s +:+ t) +:+ u = s +:+ t +:+ u.
Proof. induction s as [|a s IH]; [done|]. by rewrite !app_cons, IH. Qed.
Lemma app_inj_l s t u : s +:+ t = s +:+ u → t = u.
Proof. induction s as [|a s IH]; [done|]. rewrite !app_cons. naive_solver. Qed.
Lemma length_app s t : String.length (s +:+ t) = String.length s + String.length t.
Proof. induction s as [|a s IH]; [done|]. rewrite app_cons. simpl. by rewrite IH. Qed.
Lemma app_eq_nil s t : s +:+ t = "" → s = "" ∧ t = "".
Proof. by destruct s, t. Qed.

Lemma starts_with_spec p s : starts_with p s = true ↔ ∃ r, s = p +:+ r.
Proof.
  revert s; induction p as [|a p IH]; intros s; simpl.
  { split; [by exists s | done]. }
  destruct s as [|b s]; [split; [done | by intros [r ?]]|].
  rewrite andb_true_iff, IH. split.
  - intros [->%Ascii.eqb_eq [r ->]]. by exists r.
  - intros [r Hr]. rewrite app_cons in Hr. injection Hr as -> ->.
    split; [apply Ascii.eqb_refl | by exists r].
Qed.

Lemma strip_prefix_spec p s r : strip_prefix p s = Some r ↔ s = p +:+ r.
Proof.
  revert s; induction p as [|a p IH]; intros s; simpl; [naive_solver|].
  destruct s as [|b s]; [done|]. rewrite app_cons.
  destruct (Ascii.eqb_spec a b); [subst; rewrite IH|]; naive_solver.
Qed.

Lemma ends_with_spec p s : ends_with p s = true ↔ ∃ r, s = r +:+ p.
Proof.
  induction s as [|a s IH]; simpl; rewrite orb_true_iff, String.eqb_eq.
  - split; [intros [->|?]; [by exists ""|done]|].
    intros [r Hr]. symmetry in Hr. apply app_eq_nil in Hr. left; naive_solver.
  - rewrite IH. split.
    + intros [->|[r ->]]; [by exists "" | by exists (String a r)].
    + intros [[|b r] Hr]; [left; by rewrite Hr|].
      rewrite app_cons in Hr. injection Hr as -> ->. right; by exists r.
Qed.

Lemma drop_app s t : drop (String.length s) (s +:+ t) = t.
Proof. induction s as [|a s IH]; [by destruct t|]. done. Qed.
Lemma take_app s t : take (String.length s) (s +:+ t) = s.
Proof. induction s as [|a s IH]; [by destruct t|]. simpl. by f_equal. Qed.
(** [find] returns the leftmost occurrence. *)
Lemma find_Some p s n :
  find p s = Some n → ∃ x y, s = x +:+ p +:+ y ∧ String.length x = n.
Proof.
  revert n; induction s as [|a s IH]; intros n; simpl;
    destruct (starts_with p _) eqn:E; intros H; simplify_eq/=.
  - apply starts_with_spec in E as [r E]. by exists "", r.
  - apply starts_with_spec in E as [r E]. by exists "", r.
  - apply fmap_Some in H as (m & H & ->). apply IH in H as (x & y & -> & <-).
    by exists (String a x), y.
Qed.

Lemma find_least p s n x y :
  find p s = Some n → s = x +:+ p +:+ y → n ≤ String.length x.
Proof.
  revert n x; induction s as [|a s IH]; intros n x H Hs; simpl in H.
  - destruct (starts_with p ""); simplify_eq. lia.
  - destruct (starts_with p (String a s)) eqn:E; simplify_eq/=; [lia|].
    apply fmap_Some in H as (m & H & ->). destruct x as [|b x].
    + rewrite app_nil_l in Hs. assert (starts_with p (String a s) = true) as Hp.
      { apply starts_with_spec. by exists y. }
      congruence.
    + rewrite app_cons in Hs. injection Hs as -> ->. simpl.
      apply le_n_S. by eapply IH.
Qed.

Lemma find_None p s x y : find p s = None → s = x +:+ p +:+ y → False.
Proof.
  revert x; induction s as [|a s IH]; intros x H Hs; simpl in H.
  - destruct (starts_with p "") eqn:E; [done|].
    symmetry in Hs. apply app_eq_nil in Hs as [-> Hs]. apply app_eq_nil in Hs as [-> ->]. done.
  - destruct (starts_with p (String a s)) eqn:E; [done|].
    apply fmap_None in H. destruct x as [|b x].
    + rewrite app_nil_l in Hs. assert (starts_with p (String a s) = true) as Hp.
      { apply starts_with_spec. by exists y. }
      congruence.
    + rewrite app_cons in Hs. injection Hs as -> ->. by eapply IH.
Qed.

Lemma contains_spec p s : contains p s = true ↔ ∃ x y, s = x +:+ p +:+ y.
Proof.
  unfold contains. destruct (find p s) eqn:E.
  - apply find_Some in E. naive_solver.
  - split; [done|]. intros (x & y & Hs). by eapply find_None in E.
Qed.

(** ** Splitting and joining *)

Lemma split_nonempty c s : split c s ≠ [].
Proof.
  destruct s as [|a s]; simpl; [done|]. destruct (Ascii.eqb a c); [done|].
  by destruct (split c s).
Qed.

(** [s.split(c)] and [join] are inverse. *)
Lemma join_split c s : join (String c "") (split c s) = s.
Proof.
  induction s as [|a s IH]; [done|]. simpl. destruct (Ascii.eqb_spec a c) as [->|].
  - destruct (split c s) as [|h t] eqn:E; [by apply split_nonempty in E|].
    change (join (String c "") ("" :: h :: t)) with ("" +:+ String c "" +:+ join (String c "") (h :: t)).
    by rewrite IH.
  - destruct (split c s) as [|h t] eqn:E; [by apply split_nonempty in E|]. simpl.
    rewrite <- IH. by destruct t.
Qed.

(** ** White space *)

(** No white-space character occurs in [s]. *)
Fixpoint no_ws (s : string) : bool :=
  match s with
  | EmptyString => true
  | String _ r => (ws_at s =? 0) && no_ws r
  end.

Definition is_token (s : string) : Prop := s ≠ "" ∧ no_ws s = true.

Lemma ws_at_app s t : ws_at (s +:+ t) = 0 → ws_at s = 0.
Proof.
  destruct s as [|a [|b [|c s]]]; rewrite ?app_cons, ?app_nil_l; simpl; try done;
    destruct (ws1 a); try done.
  destruct (ws2 a b); done.
Qed.

Lemma ws2_space a : ws2 a " " = false.
Proof. unfold ws2. by destruct (byte a =? 194). Qed.
Lemma ws3_space_2 a c : ws3 a " " c = false.
Proof. unfold ws3. change (byte " ") with 32. simpl. by rewrite !andb_false_r. Qed.
Lemma ws3_space_3 a b : ws3 a b " " = false.
Proof. unfold ws3. change (byte " ") with 32. simpl. by rewrite !andb_false_r. Qed.

Lemma ws_at_app_space s t : s ≠ "" → ws_at s = 0 → ws_at (s +:+ String " " t) = 0.
Proof.
  destruct s as [|a [|b [|c s]]]; rewrite ?app_cons, ?app_nil_l; simpl; try done; intros _;
    destruct (ws1 a); try done.
  - rewrite ws2_space. destruct t; [done|]. by rewrite ws3_space_2.
  - destruct (ws2 a b); [done|]. by rewrite ws3_space_3.
Qed.

Lemma split_on_ws_no_ws s : no_ws s = true → split_on_ws s = [s].
Proof.
  induction s as [|a s IH]; [done|]. cbn [no_ws]. intros [E H]%andb_true_iff.
  apply Nat.eqb_eq in E. cbn [split_on_ws]. rewrite E. by rewrite IH.
Qed.

Lemma split_on_ws_token s t :
  no_ws s = true → split_on_ws (s +:+ String " " t) = s :: split_on_ws t.
Proof.
  induction s as [|a s IH]; [done|]. cbn [no_ws]. intros [E H]%andb_true_iff.
  apply Nat.eqb_eq in E. rewrite app_cons. cbn [split_on_ws].
  rewrite <- app_cons, ws_at_app_space by done. by rewrite IH.
Qed.

(** [split_whitespace] undoes [join(" ")] on a list of tokens. *)
Lemma split_whitespace_join l :
  Forall is_token l → split_whitespace (join " " l) = l.
Proof.
  unfold split_whitespace. induction l as [|x l IH]; [done|].
  intros [[Hx Hw] Hl]%Forall_cons. specialize (IH Hl).
  assert (negb (is_empty x) = true) as Hne by by destruct x.
  destruct l as [|y l].
  - change (join " " [x]) with x. rewrite split_on_ws_no_ws by done.
    simpl. by rewrite Hne.
  - change (join " " (x :: y :: l)) with (x +:+ String " " (join " " (y :: l))).
    rewrite split_on_ws_token by done.
    change (List.filter (fun w => negb (is_empty w)) (x :: split_on_ws (join " " (y :: l))))
      with (if negb (is_empty x)
            then x :: List.filter (fun w => negb (is_empty w)) (split_on_ws (join " " (y :: l)))
            else List.filter (fun w => negb (is_empty w)) (split_on_ws (join " " (y :: l)))).
    by rewrite Hne, IH.
Qed.

Lemma split_on_ws_pieces s :
  ∃ h t r, split_on_ws s = h :: t ∧ s = h +:+ r ∧ Forall (fun w => no_ws w = true) (h :: t).
Proof.
  remember (String.length s) as n eqn:Hn. revert s Hn.
  induction n as [n IH] using lt_wf_ind. intros s ->.
  destruct s as [|a s]; [exists "", [], ""; by repeat constructor|].
  destruct (ws_at (String a s)) as [|[|[|k]]] eqn:E; cbn [split_on_ws]; rewrite E.
  - destruct (IH (String.length s) ltac:(simpl; lia) s eq_refl) as (h & t & r & -> & -> & Hf).
    exists (String a h), t, r. split_and!; [done|done|].
    apply Forall_cons in Hf as [Hh Ht]. constructor; [|done]. cbn [no_ws].
    rewrite <- app_cons in E. apply ws_at_app in E. by rewrite E, Hh.
  - destruct (IH (String.length s) ltac:(simpl; lia) s eq_refl) as (h & t & r & -> & -> & Hf).
    exists "", (h :: t), (String a (h +:+ r)). split_and!; [done|done|]. by constructor.
  - destruct s as [|b s]; [exists "", [], (String a ""); by repeat constructor|].
    destruct (IH (String.length s) ltac:(simpl; lia) s eq_refl) as (h & t & r & -> & -> & Hf).
    exists "", (h :: t), (String a (String b (h +:+ r))). split_and!; [done|done|]. by constructor.
  - destruct s as [|b [|c s]];
      [exists "", [], (String a ""); by repeat constructor
      |exists "", [], (String a (String b "")); by repeat constructor|].
    destruct (IH (String.length s) ltac:(simpl; lia) s eq_refl) as (h & t & r & -> & -> & Hf).
    exists "", (h :: t), (String a (String b (String c (h +:+ r)))).
    split_and!; [done|done|]. by constructor.
Qed.

Lemma split_whitespace_tokens s : Forall is_token (split_whitespace s).
Proof.
  destruct (split_on_ws_pieces s) as (h & t & r & E & _ & Hf).
  unfold split_whitespace. rewrite E. clear E. induction Hf as [|w l Hw Hl IH]; [constructor|].
  simpl. destruct w as [|a w]; [done|]. by constructor.
Qed.

(** ** Reversal and trimming *)

Lemma rev_app_spec s t : String.rev_app s t = String.rev s +:+ t.
Proof.
  unfold String.rev. revert t. induction s as [|a s IH]; intros t; [done|]. simpl.
  rewrite (IH (String a t)), (IH (String a "")), app_assoc. done.
Qed.
Lemma rev_cons a s : String.rev (String a s) = String.rev s +:+ String a "".
Proof. unfold String.rev at 1. simpl. apply rev_app_spec. Qed.
Lemma rev_app s t : String.rev (s +:+ t) = String.rev t +:+ String.rev s.
Proof.
  induction s as [|a s IH]; [by rewrite app_nil_l, app_nil_r|].
  by rewrite app_cons, !rev_cons, IH, app_assoc.
Qed.
Lemma rev_involutive s : String.rev (String.rev s) = s.
Proof. induction s as [|a s IH]; [done|]. by rewrite rev_cons, rev_app, IH. Qed.

(** What trimming leaves: a suffix that does not start with white space. *)
Lemma trim_start_spec s : (∃ p, s = p +:+ trim_start s) ∧ ws_at (trim_start s) = 0.
Proof.
  remember (String.length s) as n eqn:Hn. revert s Hn. induction n as [n IH] using lt_wf_ind. intros s ->.
  destruct s as [|a s]; [split; [by exists ""|done]|].
  cbn [trim_start]. destruct (ws_at (String a s)) as [|[|[|k]]] eqn:E.
  - split; [by exists ""|done].
  - destruct (IH (String.length s) ltac:(simpl; lia) s eq_refl) as [[p Hp] Hw]. split; [|done].
    exists (String a p). by rewrite app_cons, <- Hp.
  - destruct s as [|b s]; [split; [by exists (String a "")|done]|].
    destruct (IH (String.length s) ltac:(simpl; lia) s eq_refl) as [[p Hp] Hw]. split; [|done].
    exists (String a (String b p)). by rewrite !app_cons, <- Hp.
  - destruct s as [|b [|c s]]; [split; [by exists (String a "")|done]|split; [by exists (String a (String b ""))|done]|].
    destruct (IH (String.length s) ltac:(simpl; lia) s eq_refl) as [[p Hp] Hw]. split; [|done].
    exists (String a (String b (String c p))). by rewrite !app_cons, <- Hp.
Qed.
Lemma trim_rev_spec s : (∃ p, s = p +:+ trim_rev s) ∧ ws_at_rev (trim_rev s) = 0.
Proof.
  remember (String.length s) as n eqn:Hn. revert s Hn. induction n as [n IH] using lt_wf_ind. intros s ->.
  destruct s as [|a s]; [split; [by exists ""|done]|].
  cbn [trim_rev]. destruct (ws_at_rev (String a s)) as [|[|[|k]]] eqn:E.
  - split; [by exists ""|done].
  - destruct (IH (String.length s) ltac:(simpl; lia) s eq_refl) as [[p Hp] Hw]. split; [|done].
    exists (String a p). by rewrite app_cons, <- Hp.
  - destruct s as [|b s]; [split; [by exists (String a "")|done]|].
    destruct (IH (String.length s) ltac:(simpl; lia) s eq_refl) as [[p Hp] Hw]. split; [|done].
    exists (String a (String b p)). by rewrite !app_cons, <- Hp.
  - destruct s as [|b [|c s]]; [split; [by exists (String a "")|done]|split; [by exists (String a (String b ""))|done]|].
    destruct (IH (String.length s) ltac:(simpl; lia) s eq_refl) as [[p Hp] Hw]. split; [|done].
    exists (String a (String b (String c p))). by rewrite !app_cons, <- Hp.
Qed.
Lemma trim_start_fix s : ws_at s = 0 → trim_start s = s.
Proof. destruct s as [|a s]; [done|]. intros E. cbn [trim_start]. by rewrite E. Qed.
Lemma trim_rev_fix s : ws_at_rev s = 0 → trim_rev s = s.
Proof. destruct s as [|a s]; [done|]. intros E. cbn [trim_rev]. by rewrite E. Qed.
Lemma trim_end_prefix s : ∃ r, s = trim_end s +:+ r.
Proof.
  unfold trim_end. destruct (trim_rev_spec (String.rev s)) as [[p Hp] _]. exists (String.rev p).
  by rewrite <- rev_app, <- Hp, rev_involutive.
Qed.
Lemma trim_end_idem s : trim_end (trim_end s) = trim_end s.
Proof.
  unfold trim_end. rewrite rev_involutive. by rewrite (trim_rev_fix (trim_rev _)) by apply trim_rev_spec.
Qed.
(** Trimming is idempotent. *)
Lemma trim_idem s : trim (trim s) = trim s.
Proof.
  unfold trim. rewrite (trim_start_fix (trim_end _)); [apply trim_end_idem|].
  destruct (trim_end_prefix (trim_start s)) as [r Hr]. apply (ws_at_app _ r). rewrite <- Hr. apply trim_start_spec.
Qed.
(** The trimmed text is a contiguous part of the original. *)
Lemma trim_infix s : ∃ p r, s = p +:+ trim s +:+ r.
Proof.
  destruct (trim_start_spec s) as [[p Hp] _]. destruct (trim_end_prefix (trim_start s)) as [r Hr].
  exists p, r. unfold trim. by rewrite <- Hr.
Qed.

(** ** Case folding *)

Lemma lower_ascii_idem a : lower_ascii (lower_ascii a) = lower_ascii a.
Proof. by destruct a as [[] [] [] [] [] [] [] []]. Qed.

Lemma eq_ignore_ascii_case_spec a b :
  eq_ignore_ascii_case a b = true ↔ to_ascii_lowercase a = to_ascii_lowercase b.
Proof. apply String.eqb_eq. Qed.

Lemma eq_ignore_ascii_case_refl a : eq_ignore_ascii_case a a = true.
Proof. by apply eq_ignore_ascii_case_spec. Qed.

End Str.

(** ** [str::replace]

    Every non-overlapping occurrence, left to right.  The empty needle occurs
    at every character boundary, before the first and after the last one
    included. *)

Definition is_continuation (a : ascii) : bool :=
  let n := Ascii.nat_of_ascii a in (128 <=? n) && (n <=? 191).

Fixpoint replace_from (from to : string) (skip : nat) (s : string) : string :=
  match s with
  | EmptyString => EmptyString
  | String a r =>
      match skip with
      | S k => replace_from from to k r
      | 0 => if Str.starts_with from s then to +:+ replace_from from to (String.length from - 1) r
             else String a (replace_from from to 0 r)
      end
  end.
Fixpoint replace_boundaries (to s : string) : string :=
  match s with
  | EmptyString => EmptyString
  | String a r =>
      String a (match r with
                | String b _ => if is_continuation b then replace_boundaries to r else to +:+ replace_boundaries to r
                | EmptyString => to
                end)
  end.
Definition str_replace (from to s : string) : string :=
  match from with
  | EmptyString => to +:+ replace_boundaries to s
  | _ => replace_from from to 0 s
  end.

Example replace_overlap : str_replace "aa" "b" "aaaaa" = "bba".
Proof. reflexivity. Qed.
Example replace_empty : str_replace "" "-" "ab" = "-a-b-".
Proof. reflexivity. Qed.

#[export] Hint Resolve Str.split_whitespace_tokens Str.eq_ignore_ascii_case_refl : labby.
