(* ===== verification/BTree.v ===== *)
(** * BTree: ordered sets of strings

    [std::collections::BTreeSet<String>] as the strictly ascending list its
    iteration yields; [BTreeMap] iteration order is the same order on keys. *)

From Stdlib Require Import Sorted.
From stdpp Require Import base list gmap strings.
From S2P Require Import Prelude.

(** The order of [str]. *)
Lemma string_lt_trans a b c : String.compare a b = Lt → String.compare b c = Lt → String.compare a c = Lt.
Proof.
  revert b c. induction a as [|x a IH]; intros [|y b] [|z c]; cbn; try done. unfold Ascii.compare.
  destruct (N.compare_spec (Ascii.N_of_ascii x) (Ascii.N_of_ascii y)) as [Exy|Exy|Exy]; try done;
    destruct (N.compare_spec (Ascii.N_of_ascii y) (Ascii.N_of_ascii z)) as [Eyz|Eyz|Eyz]; try done.
  all: destruct (N.compare_spec (Ascii.N_of_ascii x) (Ascii.N_of_ascii z)); try done; try lia. apply IH.
Qed.

Module BTreeSet.

Fixpoint insert (x : string) (l : list string) : list string :=
  match l with
  | [] => [x]
  | y :: r =>
      match String.compare x y with
      | Eq => l
      | Lt => x :: l
      | Gt => y :: insert x r
      end
  end.

(** [collect::<BTreeSet<_>>()] and [BTreeSet::extend]. *)
Definition extend (l xs : list string) : list string := foldl (fun acc x => insert x acc) l xs.
Definition from_iter (xs : list string) : list string := extend [] xs.

Definition ordered (l : list string) : Prop := Sorted (fun a b => String.compare a b = Lt) l.

Lemma elem_insert x y l : y ∈ insert x l ↔ y = x ∨ y ∈ l.
Proof.
  induction l as [|z l IH]; simpl; [set_solver|].
  destruct (String.compare x z) eqn:E; [|set_solver..].
  apply String.compare_eq_iff in E as ->. set_solver.
Qed.

Lemma elem_extend xs y l : y ∈ extend l xs ↔ y ∈ l ∨ y ∈ xs.
Proof.
  unfold extend. revert l. induction xs as [|x xs IH]; intros l; simpl; [set_solver|].
  rewrite IH, elem_insert. set_solver.
Qed.

Lemma elem_from_iter xs y : y ∈ from_iter xs ↔ y ∈ xs.
Proof. unfold from_iter. rewrite elem_extend. set_solver. Qed.

Lemma compare_Gt x y : String.compare x y = Gt → String.compare y x = Lt.
Proof. rewrite String.compare_antisym. destruct (String.compare y x); done. Qed.

Lemma ordered_insert x l : ordered l → ordered (insert x l).
Proof.
  unfold ordered. induction 1 as [|y l Hs IH Hh]; simpl; [by repeat constructor|].
  destruct (String.compare x y) eqn:E; [by constructor|by repeat constructor|].
  constructor; [done|]. apply compare_Gt in E.
  destruct Hh as [|z l Hz]; simpl; [by constructor|].
  destruct (String.compare x z); by constructor.
Qed.

Lemma ordered_extend xs l : ordered l → ordered (extend l xs).
Proof.
  unfold extend. revert l. induction xs as [|x xs IH]; intros l Hl; simpl; [done|].
  by apply IH, ordered_insert.
Qed.

Lemma ordered_from_iter xs : ordered (from_iter xs).
Proof. apply ordered_extend. constructor. Qed.

End BTreeSet.

(** The values of a [BTreeMap] in key order. *)
Definition btree_entries {V} (m : gmap string V) : list (string * V) :=
  omap (fun k => (fun v => (k, v)) <$> m !! k) (BTreeSet.from_iter (fst <$> map_to_list m)).

Lemma elem_btree_entries {V} (m : gmap string V) k v :
  (k, v) ∈ btree_entries m ↔ m !! k = Some v.
Proof.
  unfold btree_entries. rewrite list_elem_of_omap. split.
  - intros (k' & _ & Hk). destruct (m !! k') eqn:E; simplify_eq/=. done.
  - intros E. exists k. rewrite E, BTreeSet.elem_from_iter. split; [|done].
    apply list_elem_of_fmap. exists (k, v). by rewrite elem_of_map_to_list.
Qed.
