(* ===== verification/Prog.v ===== *)
(** * Prog: effectful code as trees of effects

    An [async fn] of the sources is a [prog]: a finite tree whose nodes are
    the effects it awaits (a clock reading, a random draw, a database
    statement, an upstream call) and whose branches are the answers.  The same
    tree is executed sequentially by [run] under a handler of the effects, and
    [always] states what holds on every path through it, whatever the
    environment and the other requests answer: a handler is written once, and
    its behaviour under concurrency is a theorem about the same tree. *)

From stdpp Require Import base list.
From S2P Require Import Prelude.

Section Prog.

Context {E : Type} {resp : E → Type}.

Inductive prog (A : Type) : Type :=
| Ret (a : A)
| Vis (e : E) (k : resp e → prog A).

Arguments Ret {A} _.
Arguments Vis {A} _ _.

Fixpoint pbind {A B} (p : prog A) (f : A → prog B) : prog B :=
  match p with
  | Ret a => f a
  | Vis e k => Vis e (fun r => pbind (k r) f)
  end.

Definition trigger (e : E) : prog (resp e) := Vis e Ret.

(** The [?] operator after an [await]. *)
Definition try_bind {A B Er} (p : prog (result A Er)) (f : A → prog (result B Er)) :
  prog (result B Er) :=
  pbind p (fun r => match r with Ok a => f a | Err e => Ret (Err e) end).

(** ** Sequential execution under a handler of the effects *)

Context {W : Type} (h : ∀ e : E, W → resp e * W).

Fixpoint run {A} (p : prog A) (w : W) : A * W :=
  match p with
  | Ret a => (a, w)
  | Vis e k => let '(r, w') := h e w in run (k r) w'
  end.

Lemma run_bind {A B} (p : prog A) (f : A → prog B) w :
  run (pbind p f) w = let '(a, w') := run p w in run (f a) w'.
Proof.
  revert w; induction p as [a|e k IH]; intros w; simpl; [done|].
  destruct (h e w) as [r w']. apply IH.
Qed.

Lemma run_try {A B Er} (p : prog (result A Er)) (f : A → prog (result B Er)) w :
  run (try_bind p f) w =
  match run p w with
  | (Ok a, w') => run (f a) w'
  | (Err e, w') => (Err e, w')
  end.
Proof.
  unfold try_bind. rewrite run_bind. destruct (run p w) as [[a|e] w']; done.
Qed.

Lemma run_trigger e w : run (trigger e) w = h e w.
Proof. simpl. by destruct (h e w). Qed.

(** ** All executions

    A trace is the list of the effects performed with their answers.  [paths]
    are the traces of a tree under any environment at all, and [always p Q]
    says that every one of them satisfies [Q] together with the result. *)

Definition step_of : Type := {e : E & resp e}.

Inductive paths {A} : prog A → list step_of → A → Prop :=
| paths_ret a : paths (Ret a) [] a
| paths_vis e k r tr a : paths (k r) tr a → paths (Vis e k) (existT e r :: tr) a.

Fixpoint always {A} (p : prog A) (Q : list step_of → A → Prop) : Prop :=
  match p with
  | Ret a => Q [] a
  | Vis e k => ∀ r, always (k r) (fun tr a => Q (existT e r :: tr) a)
  end.

Lemma paths_inv {A} (p : prog A) tr a :
  paths p tr a →
  match p with
  | Ret a' => tr = [] ∧ a = a'
  | Vis e k => ∃ r tr', tr = existT e r :: tr' ∧ paths (k r) tr' a
  end.
Proof. destruct 1; eauto. Qed.

Lemma always_paths {A} (p : prog A) Q : always p Q ↔ ∀ tr a, paths p tr a → Q tr a.
Proof.
  revert Q. induction p as [a|e k IH]; intros Q; cbn [always]; split.
  - intros HQ tr a' Hp. by apply paths_inv in Hp as [-> ->].
  - intros HQ. apply HQ. constructor.
  - intros HQ tr a Hp. apply paths_inv in Hp as (r & tr' & -> & Hp).
    exact (proj1 (IH r _) (HQ r) tr' a Hp).
  - intros HQ r. apply IH. intros tr a Hp. apply HQ. by constructor.
Qed.

Lemma always_mono {A} (p : prog A) (Q R : list step_of → A → Prop) :
  always p Q → (∀ tr a, Q tr a → R tr a) → always p R.
Proof.
  revert Q R. induction p as [a|e k IH]; intros Q R; cbn [always]; [auto|].
  intros HQ HR r. apply (IH r _ _ (HQ r)). auto.
Qed.

Lemma always_bind {A B} (p : prog A) (f : A → prog B) Q :
  always (pbind p f) Q ↔ always p (fun tr a => always (f a) (fun tr' b => Q (tr ++ tr') b)).
Proof.
  revert Q. induction p as [a|e k IH]; intros Q; cbn [always pbind]; [done|].
  split; intros HQ r; [exact (proj1 (IH r _) (HQ r))|].
  exact (proj2 (IH r (fun tr b => Q (existT e r :: tr) b)) (HQ r)).
Qed.

(** Sequencing by a specification of the first part. *)
Lemma always_bind_spec {A B} (p : prog A) (f : A → prog B) (P : list step_of → A → Prop) Q :
  always p P → (∀ tr a, P tr a → always (f a) (fun tr' b => Q (tr ++ tr') b)) → always (pbind p f) Q.
Proof. intros Hp Hf. apply always_bind. eapply always_mono; eauto. Qed.

Lemma always_try_spec {A B Er} (p : prog (result A Er)) (f : A → prog (result B Er))
    (P : list step_of → result A Er → Prop) Q :
  always p P →
  (∀ tr a, P tr (Ok a) → always (f a) (fun tr' b => Q (tr ++ tr') b)) →
  (∀ tr e, P tr (Err e) → Q tr (Err e)) →
  always (try_bind p f) Q.
Proof.
  intros Hp Hf He. eapply always_bind_spec; [exact Hp|]. intros tr [a|e] HP; [by apply Hf|].
  cbn [always]. rewrite app_nil_r. by apply He.
Qed.

Lemma always_trivial {A} (p : prog A) : always p (fun _ _ => True).
Proof. induction p as [a|e k IH]; cbn [always]; auto. Qed.

Lemma always_and {A} (p : prog A) (Q R : list step_of → A → Prop) :
  always p Q → always p R → always p (fun tr a => Q tr a ∧ R tr a).
Proof.
  intros HQ HR. apply always_paths. intros tr a Hp.
  split; [exact (proj1 (always_paths p Q) HQ tr a Hp)|exact (proj1 (always_paths p R) HR tr a Hp)].
Qed.

(** The sequential run follows one of the paths. *)
Lemma run_paths {A} (p : prog A) w : ∃ tr, paths p tr (run p w).1.
Proof.
  revert w. induction p as [a|e k IH]; intros w; simpl; [exists []; constructor|].
  destruct (h e w) as [r w']. destruct (IH r w') as [tr Htr]. exists (existT e r :: tr). by constructor.
Qed.

End Prog.

Arguments prog {E} resp A.
Arguments Ret {E resp A} _.
Arguments Vis {E resp A} _ _.
(* The expected type of a continuation is known before it is elaborated. *)
Arguments pbind {E resp A B} & p f.
Arguments try_bind {E resp A B Er} & p f.
Arguments step_of {E} resp.
Arguments paths {E resp A} _ _ _.
Arguments always {E resp A} _ _.

(** ** Notations: [let!] awaits, [let!?] awaits and propagates the error. *)

Notation "'let!' x ':=' p 'in' k" := (pbind p (fun x => k))
  (at level 10, x pattern, p at level 100, k at level 200) : rust_scope.
Notation "'let!?' x ':=' p 'in' k" := (try_bind p (fun x => k))
  (at level 10, x pattern, p at level 100, k at level 200) : rust_scope.

Notation "'ret_ok' a" := (Ret (Ok a)) (at level 10, a at level 9) : rust_scope.
Notation "'ret_err' e" := (Ret (Err e)) (at level 10, e at level 9) : rust_scope.

(** A pure fallible step inside an effectful function. *)
Definition lift {E} {resp : E → Type} {A Er} (r : result A Er) : prog resp (result A Er) := Ret r.

#[export] Hint Rewrite @run_bind @run_try @run_trigger : run_simpl.
