(* ===== verification/AuthTypes.v ===== *)
(** * AuthTypes: the data of the authorization server

    The error type of [labby-auth/src/error.rs] with its two projections to
    the wire, the rows and requests of [labby-auth/src/types.rs], the part of
    [labby-auth/src/config.rs] the handlers read, and [Platform]: the
    third-party code (URL parser, digests, base64, JSON, JWT, AEAD) as an
    interface the definitions are parameterised by. *)

From stdpp Require Import base list gmap strings.
From S2P Require Import Prelude RustStr.

(** ** Errors (error.rs) *)

Inductive AuthError : Type :=
| Config (message : string)
| Storage (message : string)
| InvalidGrant (message : string)
| InvalidScope (message : string)
| OauthNeedsReauth (message : string)
| AuthFailed (message : string)
| Validation (message : string)
| Network (message : string)
| Server (message : string)
| Decode (message : string)
| RateLimited (message : string) (retry_after_ms : Z)
| InvalidAccessToken
| InsecurePermissions (path : string).

#[global] Instance AuthError_eq_dec : EqDecision AuthError.
Proof. solve_decision. Defined.

(** [AuthError::to_string] (the [thiserror] display strings). *)
Definition to_string (e : AuthError) : string :=
  match e with
  | Config m | Storage m | InvalidGrant m | InvalidScope m | OauthNeedsReauth m
  | AuthFailed m | Validation m | Network m | Server m | Decode m | RateLimited m _ => m
  | InvalidAccessToken => "invalid access token"
  | InsecurePermissions p => "path `" +:+ p +:+ "` has insecure permissions"
  end.

Definition kind (e : AuthError) : string :=
  match e with
  | Config _ | Storage _ | InsecurePermissions _ => "internal_error"
  | InvalidGrant _ => "invalid_grant"
  | InvalidScope _ => "invalid_scope"
  | OauthNeedsReauth _ => "oauth_needs_reauth"
  | AuthFailed _ | InvalidAccessToken => "auth_failed"
  | Validation _ => "validation_failed"
  | Network _ => "network_error"
  | Server _ => "server_error"
  | Decode _ => "decode_error"
  | RateLimited _ _ => "rate_limited"
  end.

Definition status (e : AuthError) : Z :=
  match e with
  | InvalidGrant _ | InvalidScope _ => 400
  | OauthNeedsReauth _ | AuthFailed _ | InvalidAccessToken => 401
  | Validation _ => 422
  | Network _ | Server _ => 502
  | Decode _ => 500
  | RateLimited _ _ => 429
  | Config _ | Storage _ | InsecurePermissions _ => 500
  end.

(** ** Network addresses and parsed URLs *)

Record Ipv4Addr := V4 { o0 : Z; o1 : Z; o2 : Z; o3 : Z }.
Record Ipv6Addr := V6 { g0 : Z; g1 : Z; g2 : Z; g3 : Z; g4 : Z; g5 : Z; g6 : Z; g7 : Z }.
Inductive IpAddr := IpV4 (ip : Ipv4Addr) | IpV6 (ip : Ipv6Addr).

#[global] Instance Ipv4Addr_eq_dec : EqDecision Ipv4Addr.
Proof. solve_decision. Defined.
#[global] Instance Ipv6Addr_eq_dec : EqDecision Ipv6Addr.
Proof. solve_decision. Defined.
#[global] Instance IpAddr_eq_dec : EqDecision IpAddr.
Proof. solve_decision. Defined.

Inductive Host := Domain (d : string) | HostIpv4 (ip : Ipv4Addr) | HostIpv6 (ip : Ipv6Addr).

(** What the sources observe of a [url::Url]. *)
Record Url := mkUrl {
  url_str : string;
  url_scheme : string;
  url_username : string;
  url_password : option string;
  url_host : option Host;
  url_host_str : option string;
  url_port_or_known_default : option Z;
  url_path : string;
  url_query : option string;
  url_fragment : option string;
}.

(** ** Rows and requests (types.rs) *)

Record RegisteredClient := mkRegisteredClient {
  rc_client_id : string;
  rc_redirect_uris : list string;
  rc_created_at : Z;
  rc_token_endpoint_auth_method : string;
  rc_jwks : option string;
}.

Record AuthorizationRequestRow := mkAuthorizationRequestRow {
  ar_state : string;
  ar_client_id : string;
  ar_redirect_uri : string;
  ar_client_state : string;
  ar_resource : string;
  ar_scope : string;
  ar_provider_code_verifier : string;
  ar_code_challenge : string;
  ar_code_challenge_method : string;
  ar_created_at : Z;
  ar_expires_at : Z;
}.

Record AuthorizationCodeRow := mkAuthorizationCodeRow {
  ac_code : string;
  ac_client_id : string;
  ac_subject : string;
  ac_redirect_uri : string;
  ac_resource : string;
  ac_scope : string;
  ac_code_challenge : string;
  ac_code_challenge_method : string;
  ac_provider_refresh_token : option string;
  ac_created_at : Z;
  ac_expires_at : Z;
}.

Record RefreshTokenRow := mkRefreshTokenRow {
  rt_refresh_token : string;
  rt_client_id : string;
  rt_subject : string;
  rt_resource : string;
  rt_scope : string;
  rt_provider_refresh_token : option string;
  rt_created_at : Z;
  rt_expires_at : Z;
}.

Record GoogleProviderCredentialRow := mkGoogleProviderCredentialRow {
  gp_subject : string;
  gp_email : option string;
  gp_client_id : string;
  gp_granted_scopes : list string;
  gp_access_token : option string;
  gp_refresh_token : string;
  gp_token_received_at : option Z;
  gp_access_token_expires_at : option Z;
  gp_issuer : option string;
  gp_last_refresh_at : option Z;
  gp_last_scope_upgrade_at : option Z;
  gp_generation : Z;
  gp_created_at : Z;
  gp_updated_at : Z;
}.

Record GoogleProviderCredentialUpdate := mkGoogleProviderCredentialUpdate {
  gu_subject : string;
  gu_email : option string;
  gu_client_id : string;
  gu_granted_scopes : list string;
  gu_access_token : string;
  gu_refresh_token : string;
  gu_token_received_at : Z;
  gu_access_token_expires_at : Z;
  gu_issuer : option string;
  gu_refreshed : bool;
  gu_scope_upgraded : bool;
}.

Record GoogleProviderInvalidation := mkGoogleProviderInvalidation {
  gi_invalidated : bool;
  gi_revoked_refresh_tokens : Z;
  gi_revoked_authorization_codes : Z;
}.
(** [GoogleProviderInvalidation::default()]. *)
Definition no_invalidation : GoogleProviderInvalidation := mkGoogleProviderInvalidation false 0 0.

Record BrowserSessionRow := mkBrowserSessionRow {
  bs_session_id : string;
  bs_subject : string;
  bs_email : option string;
  bs_csrf_token : string;
  bs_created_at : Z;
  bs_expires_at : Z;
}.

Record BrowserLoginStateRow := mkBrowserLoginStateRow {
  bl_state : string;
  bl_return_to : string;
  bl_provider_code_verifier : string;
  bl_created_at : Z;
  bl_expires_at : Z;
}.

Record NativeAuthorizationResultRow := mkNativeAuthorizationResultRow {
  na_state : string;
  na_code : string;
  na_created_at : Z;
  na_expires_at : Z;
}.

Record UpstreamOauthCredentialRow := mkUpstreamOauthCredentialRow {
  uc_upstream_name : string;
  uc_subject : string;
  uc_client_id : string;
  uc_granted_scopes_json : string;
  uc_token_blob : string;
  uc_token_blob_nonce : string;
  uc_token_received_at : Z;
  uc_access_token_expires_at : Z;
  uc_refresh_token_present : bool;
}.

Record UpstreamOauthStateRow := mkUpstreamOauthStateRow {
  us_upstream_name : string;
  us_subject : string;
  us_csrf_token : string;
  us_pkce_verifier : string;
  us_created_at : Z;
  us_expires_at : Z;
}.

Record AllowedUserRow := mkAllowedUserRow {
  au_email : string;
  au_added_by : string;
  au_created_at : Z;
}.

Record AuthorizeQuery := mkAuthorizeQuery {
  aq_response_type : string;
  aq_client_id : string;
  aq_redirect_uri : string;
  aq_state : string;
  aq_resource : option string;
  aq_scope : string;
  aq_code_challenge : string;
  aq_code_challenge_method : string;
}.

Record TokenRequest := mkTokenRequest {
  tq_grant_type : string;
  tq_code : option string;
  tq_client_id : option string;
  tq_resource : option string;
  tq_redirect_uri : option string;
  tq_code_verifier : option string;
  tq_refresh_token : option string;
  tq_scope : option string;
  tq_client_secret : option string;
  tq_client_assertion_type : option string;
  tq_client_assertion : option string;
  tq_assertion : option string;
}.

Record RevocationRequest := mkRevocationRequest {
  rq_token : string;
  rq_token_type_hint : option string;
  rq_client_id : option string;
  rq_client_secret : option string;
  rq_client_assertion_type : option string;
  rq_client_assertion : option string;
}.

Record TokenResponse := mkTokenResponse {
  tr_access_token : string;
  tr_token_type : string;
  tr_expires_in : Z;
  tr_refresh_token : option string;
  tr_scope : string;
}.

(** ** Upstream identity (google.rs) *)

Record GoogleExchange := mkGoogleExchange {
  ge_subject : string;
  ge_email : option string;
  ge_email_verified : option bool;
  ge_access_token : string;
  ge_refresh_token : option string;
  ge_expires_in : option Z;
  ge_granted_scopes : list string;
  ge_id_token : option string;
}.

Record AuthorizeUrlRequest := mkAuthorizeUrlRequest {
  au_state : string;
  au_scope : string;
  au_code_challenge : string;
  au_code_challenge_method : string;
  au_offline_access : bool;
  au_force_consent : bool;
}.

(** ** JWT claims (jwt.rs, token.rs) *)

Record AccessClaims := mkAccessClaims {
  cl_iss : string;
  cl_sub : string;
  cl_aud : string;
  cl_exp : Z;
  cl_nbf : option Z;
  cl_iat : Z;
  cl_jti : string;
  cl_scope : string;
  cl_azp : string;
}.

Record ClientAssertionClaims := mkClientAssertionClaims {
  ca_iss : string;
  ca_sub : string;
  ca_aud : string;
  ca_exp : Z;
  ca_iat : Z;
  ca_jti : string;
}.

Record IdJagClaims := mkIdJagClaims {
  ij_iss : string;
  ij_sub : string;
  ij_aud : string;
  ij_exp : Z;
  ij_iat : Z;
  ij_jti : string;
  ij_client_id : string;
  ij_resource : string;
  ij_scope : string;
}.

(** ** Configuration (config.rs) *)

Inductive AuthMode := Bearer | OAuth.

Record MachineClientConfig := mkMachineClientConfig {
  mc_client_id : string;
  mc_client_secret : option string;
  mc_jwks : option string;
  mc_scopes : list string;
  mc_resources : list string;
}.

Record EnterpriseIssuerConfig := mkEnterpriseIssuerConfig {
  ei_issuer : string;
  ei_jwks_uri : option Url;
  ei_jwks : option string;
  ei_allowed_client_ids : list string;
}.

(** Durations are the whole seconds [Duration::as_secs] returns; [public_url]
    is present because [AuthState::new] refuses a configuration without it. *)
Record AuthConfig := mkAuthConfig {
  cf_mode : AuthMode;
  cf_public_url : Url;
  cf_allowed_client_redirect_uris : list string;
  cf_admin_email : string;
  cf_access_token_ttl : Z;
  cf_refresh_token_ttl : Z;
  cf_auth_code_ttl : Z;
  cf_max_pending_oauth_states : Z;
  cf_codex_issuer_compatibility : bool;
  cf_env_prefix : string;
  cf_session_cookie_name : string;
  cf_scopes_supported : list string;
  cf_resource_path : string;
  cf_default_scope : string;
  cf_machine_clients : list MachineClientConfig;
  cf_enterprise_issuers : list EnterpriseIssuerConfig;
  cf_token_encryption_key : option string;
  cf_static_token_scopes : list string;
  cf_login_path : string;
  cf_enable_dynamic_registration : bool;
  cf_disable_static_token_with_oauth : bool;
}.

(** ** Third-party code

    JWT algorithms as the sources match on them; [OtherAlgorithm] stands for
    every other variant of the [jsonwebtoken] enums. *)
Inductive Algorithm := EdDSA | RS256 | ES256 | OtherAlgorithm (name : string).

#[global] Instance Algorithm_eq_dec : EqDecision Algorithm.
Proof. solve_decision. Defined.

Record JwtHeader := mkJwtHeader {
  jh_alg : Algorithm;
  jh_typ : option string;
  jh_kid : option string;
}.

Record JwtValidation := mkJwtValidation {
  jv_alg : Algorithm;
  jv_audience : list string;
  jv_issuer : list string;
  jv_required_spec_claims : list string;
  jv_validate_nbf : bool;
}.

Class Platform := {
  (* url *)
  url_parse : string → result Url string;
  url_append_pair : Url → string → string → Url;
  url_without_credentials : Url → string;
  form_urlencoded_first_value : string → option string;
  (* http: whether the string parses as a header value *)
  header_value_valid : string → bool;
  (* sha2, base64, std *)
  sha256 : string → string;
  base64url_encode : string → string;
  base64url_decode : string → option string;
  base64_decode : string → option string;
  utf8_valid : string → bool;
  str_to_lowercase : string → string;
  (* serde_json on lists of strings *)
  json_encode : list string → result string string;
  json_decode : string → result (list string) string;
  (* chacha20poly1305 *)
  aead_encrypt : string → string → string → option string;
  aead_decrypt : string → string → string → option string;
  (* jsonwebtoken *)
  Jwk : Type;
  JwkSet : Type;
  DecodingKey : Type;
  jwks_of_json : string → result JwkSet string;
  jwks_find : JwkSet → string → option Jwk;
  jwk_key_algorithm : Jwk → option Algorithm;
  decoding_key_of_jwk : Jwk → option DecodingKey;
  jwt_decode_header : string → option JwtHeader;
  jwt_insecure_client_assertion : string → option ClientAssertionClaims;
  jwt_insecure_id_jag : string → option IdJagClaims;
  jwt_decode_client_assertion : Z → string → DecodingKey → JwtValidation → option ClientAssertionClaims;
  jwt_decode_id_jag : Z → string → DecodingKey → JwtValidation → option IdJagClaims;
  (* encoding and decoding with the server's own key pair *)
  jwt_encode : AccessClaims → result string string;
  jwt_decode_access : Z → string → JwtValidation → option AccessClaims;
}.

(** The documented checks of the [jsonwebtoken] crate on decoded claims: the
    audience, the issuer when one is set, and the times with the default
    leeway of one minute. *)
Definition jwt_accepts (clock : Z) (v : JwtValidation) (c : AccessClaims) : bool :=
  bool_decide (cl_aud c ∈ jv_audience v)
  && bool_decide (jv_issuer v = [] ∨ cl_iss c ∈ jv_issuer v)
  && negb (bool_decide (cl_exp c < clock - 60)%Z)
  && match cl_nbf c with
     | Some nbf => negb (jv_validate_nbf v && bool_decide (clock + 60 < nbf)%Z)
     | None => true
     end.
