(* ===== verification/SamplePlatform.v ===== *)
(** * SamplePlatform: a concrete instance of the third-party interface

    [Platform] abstracts the crates the server links against.  This instance
    gives each of its functions a small executable definition (a URL splitter,
    an injective digest, identity base64, a separator-based list encoding), so
    that the examples of the later files can be evaluated.  Nothing is proved
    from these definitions except the examples themselves. *)

From Stdlib Require Import Ascii.
From stdpp Require Import base list strings.
From S2P Require Import Prelude RustStr AuthTypes.

(** The prefix of a string before the first of the given bytes, and the rest. *)
Fixpoint break_at (stop : list Ascii.ascii) (s : string) : string * string :=
  match s with
  | EmptyString => (EmptyString, EmptyString)
  | String c r =>
      if bool_decide (c ∈ stop) then (EmptyString, s)
      else let '(a, b) := break_at stop r in (String c a, b)
  end.

Fixpoint sample_digits (acc : Z) (s : string) : option Z :=
  match s with
  | EmptyString => Some acc
  | String c r =>
      let d := (Z.of_nat (Ascii.nat_of_ascii c) - 48)%Z in
      if bool_decide (0 <= d < 10)%Z then sample_digits (acc * 10 + d) r else None
  end.

Definition sample_default_port (scheme : string) : option Z :=
  if String.eqb scheme "http" then Some 80%Z
  else if String.eqb scheme "https" then Some 443%Z else None.

Definition sample_url_parse (s : string) : result Url string :=
  match Str.find "://" s with
  | None => Err "relative URL without a base"
  | Some n =>
      let scheme := Str.to_ascii_lowercase (Str.take n s) in
      let '(authority, rest) := break_at ["/"; "?"; "#"]%char (Str.drop (n + 3) s) in
      let '(userinfo, hostport) :=
        match Str.split_once "@" authority with Some (u, h) => (u, h) | None => ("", authority) end in
      let '(host, port) :=
        match Str.split_once ":" hostport with
        | Some (h, p) => (h, sample_digits 0 p)
        | None => (hostport, sample_default_port scheme)
        end in
      let '(path, rest) := break_at ["?"; "#"]%char rest in
      let '(query, rest) := break_at ["#"]%char rest in
      Ok {| url_str := s; url_scheme := scheme; url_username := userinfo; url_password := None;
            url_host := if Str.is_empty host then None else Some (Domain host);
            url_host_str := if Str.is_empty host then None else Some host;
            url_port_or_known_default := port;
            url_path := if Str.is_empty path then "/" else path;
            url_query := Str.strip_prefix "?" query;
            url_fragment := Str.strip_prefix "#" rest |}
  end.

Definition sample_append_pair (u : Url) (k v : string) : Url :=
  let sep := match url_query u with Some _ => "&" | None => "?" end in
  {| url_str := url_str u +:+ sep +:+ k +:+ "=" +:+ v; url_scheme := url_scheme u;
     url_username := url_username u; url_password := url_password u; url_host := url_host u;
     url_host_str := url_host_str u; url_port_or_known_default := url_port_or_known_default u;
     url_path := url_path u;
     url_query := Some (match url_query u with Some q => q +:+ "&" | None => "" end +:+ k +:+ "=" +:+ v);
     url_fragment := url_fragment u |}.

(** A signed token of the sample: its claims as fields separated by [;]. *)
Definition sample_client_assertion (t : string) : option ClientAssertionClaims :=
  match Str.split ";" t with
  | [_; iss; sub; aud; jti] => Some (mkClientAssertionClaims iss sub aud 1000060 1000000 jti)
  | _ => None
  end.
Definition sample_id_jag (t : string) : option IdJagClaims :=
  match Str.split ";" t with
  | [_; iss; sub; aud; jti; client; resource; scope] =>
      Some (mkIdJagClaims iss sub aud 1000060 1000000 jti client resource scope)
  | _ => None
  end.

(** The server's own tokens: each field of the claims as marked bytes, so that
    the encoding is invertible whatever the fields contain. *)
Fixpoint put_text (s rest : string) : string :=
  match s with
  | EmptyString => String "0" rest
  | String a r => String "1" (String a (put_text r rest))
  end.
Fixpoint get_text (s : string) : option (string * string) :=
  match s with
  | String "0" rest => Some (EmptyString, rest)
  | String "1" (String a r) =>
      match get_text r with Some (x, rest) => Some (String a x, rest) | None => None end
  | _ => None
  end.

Fixpoint put_pos (p : positive) (rest : string) : string :=
  match p with
  | xH => String "." rest
  | xO q => String "0" (put_pos q rest)
  | xI q => String "1" (put_pos q rest)
  end.
Fixpoint get_pos (s : string) : option (positive * string) :=
  match s with
  | String "." rest => Some (xH, rest)
  | String "0" r => match get_pos r with Some (p, rest) => Some (xO p, rest) | None => None end
  | String "1" r => match get_pos r with Some (p, rest) => Some (xI p, rest) | None => None end
  | _ => None
  end.
Definition put_int (z : Z) (rest : string) : string :=
  match z with
  | Z0 => String "z" rest
  | Zpos p => String "+" (put_pos p rest)
  | Zneg p => String "-" (put_pos p rest)
  end.
Definition get_int (s : string) : option (Z * string) :=
  match s with
  | String "z" rest => Some (0%Z, rest)
  | String "+" r => match get_pos r with Some (p, rest) => Some (Zpos p, rest) | None => None end
  | String "-" r => match get_pos r with Some (p, rest) => Some (Zneg p, rest) | None => None end
  | _ => None
  end.

Definition sample_jwt_encode (c : AccessClaims) : string :=
  put_text (cl_iss c) (put_text (cl_sub c) (put_text (cl_aud c) (put_text (cl_jti c) (put_text (cl_scope c)
    (put_text (cl_azp c) (put_int (cl_exp c) (put_int (cl_iat c)
      (match cl_nbf c with None => "n" | Some z => String "s" (put_int z "") end)))))))).

Definition sample_jwt_claims (t : string) : option AccessClaims :=
  '(iss, t) ← get_text t; '(sub, t) ← get_text t; '(aud, t) ← get_text t; '(jti, t) ← get_text t;
  '(scope, t) ← get_text t; '(azp, t) ← get_text t; '(exp, t) ← get_int t; '(iat, t) ← get_int t;
  match t with
  | "n" => Some (mkAccessClaims iss sub aud exp None iat jti scope azp)
  | String "s" t => '(nbf, _) ← get_int t; Some (mkAccessClaims iss sub aud exp (Some nbf) iat jti scope azp)
  | _ => None
  end.

Lemma get_put_text s rest : get_text (put_text s rest) = Some (s, rest).
Proof. induction s as [|a s IH]; [done|]. simpl. by rewrite IH. Qed.
Lemma get_put_pos p rest : get_pos (put_pos p rest) = Some (p, rest).
Proof. induction p as [p IH|p IH|]; simpl; [by rewrite IH..|done]. Qed.
Lemma get_put_int z rest : get_int (put_int z rest) = Some (z, rest).
Proof. destruct z as [|p|p]; simpl; [done|by rewrite get_put_pos..]. Qed.
Lemma sample_jwt_round_trip c : sample_jwt_claims (sample_jwt_encode c) = Some c.
Proof.
  unfold sample_jwt_claims, sample_jwt_encode. rewrite get_put_text. simpl.
  do 5 (rewrite get_put_text; simpl). do 2 (rewrite get_put_int; simpl).
  destruct c as [? ? ? ? [nbf|] ? ? ? ?]; simpl; [|done]. by rewrite get_put_int.
Qed.

Definition sample_platform : Platform := {|
  url_parse := sample_url_parse;
  url_append_pair := sample_append_pair;
  url_without_credentials := url_str;
  form_urlencoded_first_value := fun s => Some s;
  header_value_valid := fun _ => true;
  sha256 := fun s => "#" +:+ s;
  base64url_encode := fun s => s;
  base64url_decode := fun s => Some s;
  base64_decode := fun s => Some s;
  utf8_valid := fun _ => true;
  str_to_lowercase := Str.to_ascii_lowercase;
  json_encode := fun l => Ok (Str.join ";" l);
  json_decode := fun s => Ok (if Str.is_empty s then [] else Str.split ";" s);
  aead_encrypt := fun key nonce plain => Some (key +:+ nonce +:+ plain);
  aead_decrypt := fun key nonce cipher => Str.strip_prefix (key +:+ nonce) cipher;
  Jwk := string;
  JwkSet := list string;
  DecodingKey := string;
  jwks_of_json := fun s => Ok (Str.split ";" s);
  jwks_find := fun ks kid => find_first (String.eqb kid) ks;
  jwk_key_algorithm := fun _ => None;
  decoding_key_of_jwk := fun k => Some k;
  jwt_decode_header := fun t =>
    match Str.split ";" t with
    | kid :: _ => Some (mkJwtHeader ES256 (Some "oauth-id-jag+jwt") (Some kid))
    | _ => None
    end;
  jwt_insecure_client_assertion := sample_client_assertion;
  jwt_insecure_id_jag := sample_id_jag;
  jwt_decode_client_assertion := fun _ t _ _ => sample_client_assertion t;
  jwt_decode_id_jag := fun _ t _ _ => sample_id_jag t;
  jwt_encode := fun c => Ok (sample_jwt_encode c);
  jwt_decode_access := fun clock t v =>
    c ← sample_jwt_claims t; if jwt_accepts clock v c then Some c else None;
|}.

Definition sample_url (s : string) : Url :=
  match sample_url_parse s with
  | Ok u => u
  | Err _ => mkUrl s "" "" None None None None "" None None
  end.

Example sample_url_parse_ex :
  let u := sample_url "https://labby.example:8443/mcp?x=1#top" in
  (url_scheme u, url_host_str u, url_port_or_known_default u, url_path u, url_query u, url_fragment u)
  = ("https", Some "labby.example", Some 8443%Z, "/mcp", Some "x=1", Some "top").
Proof. reflexivity. Qed.
