(* ===== verification/WebPlatform.v ===== *)
(** * WebPlatform: third-party code of the outbound clients

    What the Google client, the upstream OAuth client and the configuration
    layer use beyond [Platform]: the mutating operations of [url::Url], AEAD
    with associated data, the JSON codecs of the documents they exchange, the
    data types of the [rmcp] crate's OAuth support, and the decoding of
    Google's ID tokens.  [sample_web] is a concrete instance for the examples. *)

From Stdlib Require Import Ascii SpecFloat.
From stdpp Require Import base list strings.
From S2P Require Import Prelude RustStr AuthTypes SamplePlatform.

(** [str::parse] of an unsigned integer: an optional [+], then decimal digits,
    with the value checked against the width. *)
Fixpoint parse_digits (max acc : Z) (s : string) : option Z :=
  match s with
  | EmptyString => Some acc
  | String c r =>
      let d := (Z.of_nat (Ascii.nat_of_ascii c) - 48)%Z in
      if bool_decide (0 <= d < 10)%Z then
        let acc := (acc * 10 + d)%Z in if bool_decide (acc <= max)%Z then parse_digits max acc r else None
      else None
  end.
Definition parse_uint (max : Z) (s : string) : option Z :=
  let s := match s with String "+" r => r | _ => s end in
  match s with EmptyString => None | _ => parse_digits max 0 s end.
(** [str::parse::<i64>]: a sign, then digits. *)
Definition parse_i64 (s : string) : option Z :=
  match s with
  | String "-" EmptyString => None
  | String "-" r => Z.opp <$> parse_digits 9223372036854775808 0 r
  | _ => parse_uint i64_max s
  end.

Lemma is_empty_true s : Str.is_empty s = true ↔ s = "".
Proof. by destruct s. Qed.
Lemma is_empty_false s : Str.is_empty s = false ↔ s ≠ "".
Proof. by destruct s. Qed.
Lemma existsb_eqb x l : existsb (String.eqb x) l = true ↔ x ∈ l.
Proof.
  rewrite existsb_elem. split; [intros (y & Hy & ->%String.eqb_eq); done|]. intros Hx. exists x.
  split; [done|apply String.eqb_refl].
Qed.

(** ** Data of the [rmcp] crate *)

Record OAuthTokenResponse := mkOAuthTokenResponse {
  ot_access_token : string;
  ot_refresh_token : option string;
  ot_expires_in : option Z;
  ot_scopes : option (list string);
  (* the vendor field [id_token], when it is a JSON string *)
  ot_id_token : option string;
}.

Record StoredCredentials := mkStoredCredentials {
  sc_client_id : string;
  sc_token_response : option OAuthTokenResponse;
  sc_granted_scopes : list string;
  sc_token_received_at : option Z;
  sc_issuer : option string;
}.

Record StoredAuthorizationState := mkStoredAuthorizationState {
  sa_pkce_verifier : string;
  sa_csrf_token : string;
}.

(** [rmcp::transport::AuthError]: the variants the sources match on. *)
Inductive RmcpError :=
| AuthorizationRequired
| TokenExchangeFailed (message : string)
| TokenRefreshFailed (message : string)
| TokenRefreshRejected (message : string)
| InternalError (message : string)
| OtherRmcpError (message : string).

Record AuthorizationMetadata := mkAuthorizationMetadata {
  am_issuer : option string;
  am_authorization_endpoint : string;
  am_token_endpoint : string;
  am_registration_endpoint : option string;
  am_code_challenge_methods_supported : option (list string);
}.

Record OAuthClientConfig := mkOAuthClientConfig {
  oc_client_id : string;
  oc_client_secret : option string;
  oc_scopes : list string;
  oc_redirect_uri : string;
}.

Record ProtectedResourceMetadata := mkProtectedResourceMetadata {
  pm_authorization_server : option string;
  pm_authorization_servers : option (list string);
}.

(** ** Google's token endpoint and keys (google.rs) *)

Record GoogleTokenResponse := mkGoogleTokenResponse {
  gt_access_token : string;
  gt_refresh_token : option string;
  gt_expires_in : option Z;
  gt_scope : option string;
  gt_id_token : option string;
}.
Record GoogleTokenErrorResponse := mkGoogleTokenErrorResponse { gt_error : string }.
Record GoogleIdTokenClaims := mkGoogleIdTokenClaims {
  gc_iss : string;
  gc_sub : string;
  gc_email : option string;
  gc_email_verified : option bool;
}.
Record GoogleJwk := mkGoogleJwk { gk_kid : string; gk_alg : option string; gk_n : string; gk_e : string }.
Record GoogleJwks := mkGoogleJwks { gk_keys : list GoogleJwk }.

(** [jsonwebtoken::Validation] as [verify_id_token] fills it in. *)
Record GoogleValidation := mkGoogleValidation {
  gv_algorithm : Algorithm;
  gv_validate_exp : bool;
  gv_leeway : Z;
  gv_audience : list string;
}.

Class WebPlatform `{Platform} := {
  (* url *)
  url_port : Url → option Z;
  url_set_path : Url → string → Url;
  url_clear_query : Url → Url;
  url_clear_fragment : Url → Url;
  url_join : Url → string → result Url string;
  url_query_pairs : Url → list (string * string);
  (* chacha20poly1305 with associated data: key, nonce, message, data *)
  aead_seal : string → string → string → string → option string;
  aead_open : string → string → string → string → option string;
  base64_decode_error : string → string;
  (* serde_json *)
  credentials_to_json : StoredCredentials → result string string;
  credentials_of_json : string → result StoredCredentials string;
  metadata_of_json : string → result AuthorizationMetadata string;
  resource_metadata_of_json : string → result ProtectedResourceMetadata string;
  google_token_of_json : string → result GoogleTokenResponse string;
  google_error_of_json : string → result GoogleTokenErrorResponse string;
  google_jwks_of_json : string → result GoogleJwks string;
  (* jsonwebtoken *)
  id_token_header : string → result JwtHeader string;
  decoding_key_from_rsa : string → string → result DecodingKey string;
  jwt_decode_google : Z → string → DecodingKey → GoogleValidation → result GoogleIdTokenClaims string;
  algorithm_debug : Algorithm → string;
  (* rmcp and std formatting *)
  rmcp_error_display : RmcpError → string;
  str_debug : string → string;
  strs_debug : list string → string;
  f32_display : spec_float → string;
  (* http and reqwest: a status, and the error of a response with a bad one *)
  status_display : Z → string;
  status_error : Z → Url → string;
  (* std::net *)
  ip_display : IpAddr → string;
  (* compilation target *)
  cfg_unix : bool;
  cfg_linux : bool;
}.

(** ** A concrete instance *)

Section Sample.
#[local] Existing Instance sample_platform.

Definition with_path (u : Url) (path : string) : Url :=
  {| url_str := url_scheme u +:+ "://" +:+ match url_host_str u with Some h => h | None => "" end +:+ path;
     url_scheme := url_scheme u; url_username := url_username u; url_password := url_password u;
     url_host := url_host u; url_host_str := url_host_str u;
     url_port_or_known_default := url_port_or_known_default u;
     url_path := path; url_query := url_query u; url_fragment := url_fragment u |}.

Definition put_opt (s : option string) (rest : string) : string :=
  match s with None => String "n" rest | Some s => String "s" (put_text s rest) end.
Definition get_opt (s : string) : option (option string * string) :=
  match s with
  | String "n" rest => Some (None, rest)
  | String "s" r => '(t, rest) ← get_text r; Some (Some t, rest)
  | _ => None
  end.
Definition put_optz (z : option Z) (rest : string) : string :=
  match z with None => String "n" rest | Some z => String "s" (put_int z rest) end.
Definition get_optz (s : string) : option (option Z * string) :=
  match s with
  | String "n" rest => Some (None, rest)
  | String "s" r => '(t, rest) ← get_int r; Some (Some t, rest)
  | _ => None
  end.
Fixpoint put_list (l : list string) (rest : string) : string :=
  match l with [] => String "." rest | x :: l => String "," (put_text x (put_list l rest)) end.
Fixpoint get_list (fuel : nat) (s : string) : option (list string * string) :=
  match fuel, s with
  | S _, String "." rest => Some ([], rest)
  | S fuel, String "," r => '(x, r) ← get_text r; '(l, rest) ← get_list fuel r; Some (x :: l, rest)
  | _, _ => None
  end.

Definition sample_credentials_to_json (c : StoredCredentials) : string :=
  put_text (sc_client_id c) (put_optz (sc_token_received_at c) (put_opt (sc_issuer c)
    (put_list (sc_granted_scopes c)
      (match sc_token_response c with
       | None => "n"
       | Some t => String "s" (put_text (ot_access_token t) (put_opt (ot_refresh_token t)
           (put_optz (ot_expires_in t) (put_opt (ot_id_token t)
             (match ot_scopes t with None => "n" | Some l => String "s" (put_list l "") end)))))
       end)))).
Definition sample_credentials_of_json (s : string) : option StoredCredentials :=
  let fuel := S (String.length s) in
  '(client, s) ← get_text s; '(received, s) ← get_optz s; '(issuer, s) ← get_opt s;
  '(scopes, s) ← get_list fuel s;
  match s with
  | "n" => Some (mkStoredCredentials client None scopes received issuer)
  | String "s" s =>
      '(access, s) ← get_text s; '(refresh, s) ← get_opt s; '(expires, s) ← get_optz s; '(id, s) ← get_opt s;
      match s with
      | "n" => Some (mkStoredCredentials client (Some (mkOAuthTokenResponse access refresh expires None id))
                       scopes received issuer)
      | String "s" s =>
          '(l, _) ← get_list fuel s;
          Some (mkStoredCredentials client (Some (mkOAuthTokenResponse access refresh expires (Some l) id))
                  scopes received issuer)
      | _ => None
      end
  | _ => None
  end.

Definition sample_metadata_of_json (s : string) : result AuthorizationMetadata string :=
  match Str.split ";" s with
  | [issuer; authorize; token] => Ok (mkAuthorizationMetadata (Some issuer) authorize token None (Some ["S256"]))
  | _ => Err "metadata"
  end.

Definition ok_of {A} (o : option A) : result A string := match o with Some a => Ok a | None => Err "json" end.

Definition sample_web : WebPlatform := {|
  url_port := fun u =>
    if bool_decide (url_port_or_known_default u = sample_default_port (url_scheme u)) then None
    else url_port_or_known_default u;
  url_set_path := with_path;
  url_clear_query := fun u => u;
  url_clear_fragment := fun u => u;
  url_join := fun _ s => sample_url_parse s;
  url_query_pairs := fun u =>
    match url_query u with
    | Some q => omap (Str.split_once "=") (Str.split "&" q)
    | None => []
    end;
  aead_seal := fun key nonce plain aad => Some (put_text key (put_text nonce (put_text aad plain)));
  aead_open := fun key nonce cipher aad => Str.strip_prefix (put_text key (put_text nonce (put_text aad ""))) cipher;
  base64_decode_error := fun _ => "invalid";
  credentials_to_json := fun c => Ok (sample_credentials_to_json c);
  credentials_of_json := fun s => ok_of (sample_credentials_of_json s);
  metadata_of_json := sample_metadata_of_json;
  resource_metadata_of_json := fun s => Ok (mkProtectedResourceMetadata (Some s) None);
  google_token_of_json := fun s =>
    match Str.split ";" s with
    | [access; id] => Ok (mkGoogleTokenResponse access (Some "google-refresh") (Some 3600%Z) None (Some id))
    | _ => Err "token"
    end;
  google_error_of_json := fun s => Ok (mkGoogleTokenErrorResponse s);
  google_jwks_of_json := fun s => Ok (mkGoogleJwks ((fun k => mkGoogleJwk k (Some "RS256") k "AQAB") <$> Str.split ";" s));
  id_token_header := fun t => Ok (mkJwtHeader RS256 None (Some "key-1"));
  decoding_key_from_rsa := fun n _ => Ok (n : @DecodingKey sample_platform);
  jwt_decode_google := fun _ t _ v =>
    Ok (mkGoogleIdTokenClaims "https://accounts.google.com" t (Some "admin@example.com") (Some true));
  algorithm_debug := fun _ => "";
  rmcp_error_display := fun e =>
    match e with
    | AuthorizationRequired => "OAuth authorization required"
    | TokenExchangeFailed m | TokenRefreshFailed m | TokenRefreshRejected m | InternalError m | OtherRmcpError m => m
    end;
  str_debug := fun s => s;
  strs_debug := Str.join ", ";
  f32_display := fun _ => "";
  status_display := fun _ => "status";
  status_error := fun _ _ => "status";
  ip_display := fun _ => "";
  cfg_unix := true;
  cfg_linux := true;
|}.

End Sample.

Lemma get_put_opt s rest : get_opt (put_opt s rest) = Some (s, rest).
Proof. destruct s; simpl; [by rewrite get_put_text|done]. Qed.
Lemma get_put_optz s rest : get_optz (put_optz s rest) = Some (s, rest).
Proof. destruct s; simpl; [by rewrite get_put_int|done]. Qed.
Lemma put_text_length s rest : String.length rest ≤ String.length (put_text s rest).
Proof. induction s; simpl; lia. Qed.
Lemma get_put_list l rest fuel : length l < fuel → get_list fuel (put_list l rest) = Some (l, rest).
Proof.
  revert fuel. induction l as [|x l IH]; intros [|fuel] Hf; simpl in *; try lia; [done|].
  rewrite get_put_text. simpl. rewrite IH by lia. done.
Qed.
Lemma put_list_length l rest : length l + String.length rest < String.length (put_list l rest).
Proof.
  induction l as [|x l IH]; simpl; [lia|]. pose proof (put_text_length x (put_list l rest)). lia.
Qed.
Lemma put_opt_length s rest : String.length rest ≤ String.length (put_opt s rest).
Proof. destruct s as [t|]; simpl; [pose proof (put_text_length t rest)|]; lia. Qed.
Lemma put_pos_length p rest : String.length rest ≤ String.length (put_pos p rest).
Proof. induction p; simpl; lia. Qed.
Lemma put_optz_length s rest : String.length rest ≤ String.length (put_optz s rest).
Proof.
  destruct s as [z|]; simpl; [|lia].
  destruct z as [|p|p]; simpl; try lia; pose proof (put_pos_length p rest); lia.
Qed.

Lemma sample_credentials_round_trip c : sample_credentials_of_json (sample_credentials_to_json c) = Some c.
Proof.
  unfold sample_credentials_of_json.
  set (fuel := S (String.length (sample_credentials_to_json c))).
  assert (Hs : length (sc_granted_scopes c) < fuel ∧
    ∀ t l, sc_token_response c = Some t → ot_scopes t = Some l → length l < fuel).
  { subst fuel. unfold sample_credentials_to_json.
    match goal with |- context [put_text ?a ?r] => pose proof (put_text_length a r) end.
    match goal with |- context [put_optz ?a ?r] => pose proof (put_optz_length a r) end.
    match goal with |- context [put_opt (sc_issuer c) ?r] => pose proof (put_opt_length (sc_issuer c) r) end.
    match goal with |- context [put_list (sc_granted_scopes c) ?r] =>
      pose proof (put_list_length (sc_granted_scopes c) r) end.
    split; [lia|]. intros t l Ht Hl. rewrite Ht, Hl in *. cbn [String.length] in *.
    match goal with H : context [put_text (ot_access_token t) ?r] |- _ => pose proof (put_text_length (ot_access_token t) r) end.
    match goal with H : context [put_opt (ot_refresh_token t) ?r] |- _ => pose proof (put_opt_length (ot_refresh_token t) r) end.
    match goal with H : context [put_optz (ot_expires_in t) ?r] |- _ => pose proof (put_optz_length (ot_expires_in t) r) end.
    match goal with H : context [put_opt (ot_id_token t) ?r] |- _ => pose proof (put_opt_length (ot_id_token t) r) end.
    pose proof (put_list_length l ""). cbn [String.length] in *. lia. }
  clearbody fuel. destruct Hs as [Hg Ht]. unfold sample_credentials_to_json.
  destruct c as [client [[access refresh expires [l|] id]|] scopes received issuer];
    cbn [sc_client_id sc_token_response sc_granted_scopes sc_token_received_at sc_issuer
         ot_access_token ot_refresh_token ot_expires_in ot_scopes ot_id_token] in *;
    rewrite get_put_text; cbn -[get_list]; rewrite get_put_optz; cbn -[get_list]; rewrite get_put_opt; cbn -[get_list];
    rewrite get_put_list by done; cbn -[get_list]; try done;
    rewrite get_put_text; cbn -[get_list]; rewrite get_put_opt; cbn -[get_list]; rewrite get_put_optz; cbn -[get_list];
    rewrite get_put_opt; cbn -[get_list]; [|done].
  rewrite get_put_list by eauto. done.
Qed.

Example parse_uint_ex : (parse_uint 255 "+7", parse_uint 255 "256", parse_uint 255 "", parse_i64 "-12") =
  (Some 7, None, None, Some (-12))%Z.
Proof. reflexivity. Qed.
