(* ===== verification/GatewayConfig.v ===== *)
(** * GatewayConfig: the gateway's configuration and its validation

    [labby-runtime/src/gateway_config.rs]: upstream servers, their transports
    and outbound OAuth, protected routes, Code Mode settings and the hint
    sanitizer.  A [BTreeMap] is the list of its pairs in key order, an [f32] a
    value of the Standard Library's [spec_float]. *)

From Stdlib Require Import Ascii SpecFloat.
From stdpp Require Import base strings pretty list.
From S2P Require Import Prelude RustStr AuthTypes SamplePlatform WebPlatform.

(** ** Data *)

Inductive UpstreamOauthMode := AuthorizationCodePkce.
Inductive UpstreamOauthCredentialSource := Dedicated | GoogleProvider (account : option string).
Inductive UpstreamOauthRegistration :=
| ClientMetadataDocument (url : string)
| Preregistered (client_id : string) (client_secret_env : option string)
| Dynamic.

Definition is_google_provider (c : UpstreamOauthCredentialSource) : bool :=
  match c with GoogleProvider _ => true | Dedicated => false end.
Definition account (c : UpstreamOauthCredentialSource) : option string :=
  match c with GoogleProvider account => account | Dedicated => None end.

Record UpstreamOauthConfig := mkUpstreamOauthConfig {
  uo_mode : UpstreamOauthMode;
  uo_registration : UpstreamOauthRegistration;
  uo_scopes : option (list string);
  uo_credential : UpstreamOauthCredentialSource;
  uo_prefer_client_metadata_document : option bool;
}.

Record ImportSource := mkImportSource {
  is_client : string;
  is_path : string;
  is_server_name : option string;
  is_transport_fingerprint : option string;
  is_imported_at : string;
}.

Inductive UpstreamTransport := Http | Websocket | Stdio | UnixSocket.

Record UpstreamConfig := mkUpstreamConfig {
  up_name : string;
  up_enabled : bool;
  up_priority : spec_float;
  up_url : option string;
  up_transport : option UpstreamTransport;
  up_socket_path : option string;
  up_headers : list (string * string);
  up_bearer_token_env : option string;
  up_command : option string;
  up_args : list string;
  up_env : list (string * string);
  up_proxy_resources : bool;
  up_proxy_prompts : bool;
  up_expose_tools : option (list string);
  up_expose_resources : option (list string);
  up_expose_prompts : option (list string);
  up_code_mode_hint : option string;
  up_oauth : option UpstreamOauthConfig;
  up_imported_from : option ImportSource;
}.

Inductive ConfigError :=
| InvalidName (name reason : string)
| ConflictingAuth (name : string)
| InvalidUrl (name url : string)
| MissingOauthUrl (name : string)
| InvalidOauth (name reason : string)
| InvalidTransport (name reason : string)
| InvalidCodeModeTimeout (value : Z)
| InvalidCodeModeMaxResponseBytes (value : Z)
| InvalidCodeModeMaxResponseTokens (value : Z)
| InvalidCodeModeTokenEstimateDivisor (value : Z)
| InvalidCodeModeMaxLogEntries (value : Z)
| InvalidCodeModeMaxLogBytes (value : Z)
| InvalidSemanticSearchBlendWeight (value : spec_float)
| InvalidSemanticSearchTeiUrl (value : string)
| InvalidProtectedRoute (name field value : string).

(** A text between double quotes. *)
Definition quote_char : ascii := ascii_of_nat 34.
Definition quoted (s : string) : string := String quote_char (s +:+ String quote_char "").

(** ** Code Mode settings *)

Inductive CodeModeResultShapePolicy := Off | Truncate.

Record SemanticSearchConfig := mkSemanticSearchConfig { tei_url : option string; blend_weight : spec_float }.

Record CodeModeConfig := mkCodeModeConfig {
  cm_enabled : bool;
  cm_mcp_ui_enabled : bool;
  cm_trace_params : bool;
  cm_result_shape_policy : CodeModeResultShapePolicy;
  cm_timeout_ms : Z;
  cm_max_response_bytes : Z;
  cm_max_response_tokens : Z;
  cm_token_estimate_divisor : Z;
  cm_max_log_entries : Z;
  cm_max_log_bytes : Z;
  cm_semantic_search : SemanticSearchConfig;
  cm_widget_callbacks : option bool;
  cm_artifact_retention_runs : option Z;
  cm_artifact_max_mib : option Z;
  cm_artifact_max_store_mib : option Z;
  cm_max_calls_per_run : option Z;
  cm_calltool_result_max_mib : option Z;
}.

(** 0.5, 0.0 and 1.0 in binary32. *)
Definition f32_half : spec_float := S754_finite false 8388608 (-24).
Definition f32_zero : spec_float := S754_zero false.
Definition f32_one : spec_float := S754_finite false 8388608 (-23).

Definition default_semantic_search : SemanticSearchConfig := mkSemanticSearchConfig None f32_half.
Definition default_code_mode : CodeModeConfig :=
  mkCodeModeConfig false true true Off 30000 (24 * 1024) 6000 4 1000 65536 default_semantic_search
    None None None None None None.

Definition is_configured (s : SemanticSearchConfig) : bool :=
  match tei_url s with Some url => negb (Str.is_empty (Str.trim url)) | None => false end.

(** [(lo..=hi).contains(&v)]. *)
Definition in_range (lo hi v : Z) : bool := bool_decide (lo <= v <= hi)%Z.

Section Config.
Context `{WebPlatform}.

Definition validate_code_mode (c : CodeModeConfig) : result unit ConfigError :=
  if negb (in_range 1 60000 (cm_timeout_ms c)) then Err (InvalidCodeModeTimeout (cm_timeout_ms c))
  else if negb (in_range 1024 (1024 * 1024) (cm_max_response_bytes c))
  then Err (InvalidCodeModeMaxResponseBytes (cm_max_response_bytes c))
  else if negb (in_range 256 256000 (cm_max_response_tokens c))
  then Err (InvalidCodeModeMaxResponseTokens (cm_max_response_tokens c))
  else if negb (in_range 1 64 (cm_token_estimate_divisor c))
  then Err (InvalidCodeModeTokenEstimateDivisor (cm_token_estimate_divisor c))
  else if negb (in_range 1 100000 (cm_max_log_entries c))
  then Err (InvalidCodeModeMaxLogEntries (cm_max_log_entries c))
  else if negb (in_range 1 (100 * 1024 * 1024) (cm_max_log_bytes c))
  then Err (InvalidCodeModeMaxLogBytes (cm_max_log_bytes c))
  else
    let weight := blend_weight (cm_semantic_search c) in
    if negb (SFleb f32_zero weight && SFleb weight f32_one) then Err (InvalidSemanticSearchBlendWeight weight)
    else match tei_url (cm_semantic_search c) with
         | None => Ok ()
         | Some tei_url =>
             let trimmed := Str.trim tei_url in
             if Str.is_empty trimmed then Ok ()
             else match url_parse trimmed with
                  | Err _ => Err (InvalidSemanticSearchTeiUrl tei_url)
                  | Ok parsed =>
                      if negb (String.eqb (url_scheme parsed) "http") && negb (String.eqb (url_scheme parsed) "https")
                      then Err (InvalidSemanticSearchTeiUrl tei_url) else Ok ()
                  end
         end.

(** [ConfigError::to_string]. *)
Definition config_error_display (e : ConfigError) : string :=
  let code_mode field value expected :=
    "gateway code_mode." +:+ field +:+ "=" +:+ value +:+ " is invalid — expected " +:+ expected in
  match e with
  | InvalidName name reason => "upstream '" +:+ name +:+ "' has invalid name: " +:+ reason
  | ConflictingAuth name => "upstream '" +:+ name +:+ "' has both bearer_token_env and oauth configured — pick one"
  | InvalidUrl name url => "upstream '" +:+ name +:+ "' has invalid url: " +:+ url
  | MissingOauthUrl name =>
      "upstream '" +:+ name +:+ "' has oauth configured but no url — oauth requires an HTTP url"
  | InvalidOauth name reason => "upstream '" +:+ name +:+ "' has invalid oauth configuration: " +:+ reason
  | InvalidTransport name reason => "upstream '" +:+ name +:+ "' has invalid transport configuration: " +:+ reason
  | InvalidCodeModeTimeout value => code_mode "timeout_ms" (pretty value) "1..=60000"
  | InvalidCodeModeMaxResponseBytes value => code_mode "max_response_bytes" (pretty value) "1024..=1048576"
  | InvalidCodeModeMaxResponseTokens value => code_mode "max_response_tokens" (pretty value) "256..=256000"
  | InvalidCodeModeTokenEstimateDivisor value => code_mode "token_estimate_divisor" (pretty value) "1..=64"
  | InvalidCodeModeMaxLogEntries value => code_mode "max_log_entries" (pretty value) "1..=100000"
  | InvalidCodeModeMaxLogBytes value => code_mode "max_log_bytes" (pretty value) "1..=104857600"
  | InvalidSemanticSearchBlendWeight value => code_mode "semantic_search.blend_weight" (f32_display value) "0.0..=1.0"
  | InvalidSemanticSearchTeiUrl value =>
      code_mode "semantic_search.tei_url" (str_debug value) "a well-formed http:// or https:// URL"
  | InvalidProtectedRoute name field value =>
      "protected MCP route '" +:+ name +:+ "' has invalid " +:+ field +:+ ": " +:+ value
  end.

(** ** Upstreams *)

Definition is_ascii_digit (a : ascii) : bool := let n := nat_of_ascii a in (48 <=? n) && (n <=? 57).
Definition is_ascii_alphabetic (a : ascii) : bool :=
  let n := nat_of_ascii a in ((65 <=? n) && (n <=? 90)) || ((97 <=? n) && (n <=? 122)).
Definition is_ascii_alphanumeric (a : ascii) : bool := is_ascii_digit a || is_ascii_alphabetic a.
Definition one_of (chars : list ascii) (a : ascii) : bool := existsb (Ascii.eqb a) chars.

Definition is_http_token_byte (byte : ascii) : bool :=
  is_ascii_alphanumeric byte
  || one_of ["!"; "#"; "$"; "%"; "&"; "'"; "*"; "+"; "-"; "."; "^"; "_"; "`"; "|"; "~"]%char byte.

(** The bytes a header value may not contain. *)
Definition bad_header_byte (byte : ascii) : bool :=
  let n := nat_of_ascii byte in
  (n =? 13) || (n =? 10) || (n =? 0) || ((n <? 32) && negb (n =? 9)) || (n =? 127).

Definition effective_transport (c : UpstreamConfig) : option UpstreamTransport :=
  match up_transport c with
  | Some t => Some t
  | None =>
      match up_url c with
      | Some url => if Str.starts_with "ws://" url || Str.starts_with "wss://" url then Some Websocket else Some Http
      | None => match up_command c with Some _ => Some Stdio | None => None end
      end
  end.

Definition is_some {A} (o : option A) : bool := match o with Some _ => true | None => false end.
Definition is_none {A} (o : option A) : bool := negb (is_some o).
(** [.as_deref().is_some_and(f)] and [.is_none_or(f)]. *)
Definition is_some_and {A} (f : A → bool) (o : option A) : bool := match o with Some a => f a | None => false end.
Definition is_none_or {A} (f : A → bool) (o : option A) : bool := match o with Some a => f a | None => true end.

Definition is_http_url (url : string) : bool := Str.starts_with "http://" url || Str.starts_with "https://" url.
Definition is_ws_url (url : string) : bool := Str.starts_with "ws://" url || Str.starts_with "wss://" url.

Fixpoint validate_headers (name : string) (headers : list (string * string)) : result unit ConfigError :=
  match headers with
  | [] => Ok ()
  | (header, value) :: rest =>
      if Str.is_empty header || negb (Str.all_bytes is_http_token_byte header)
      then Err (InvalidTransport name "custom header names must be valid HTTP token values")
      else if Str.eq_ignore_ascii_case header "authorization"
      then Err (InvalidTransport name "custom Authorization headers are forbidden; use bearer_token_env or OAuth")
      else if negb (Str.all_bytes (fun b => negb (bad_header_byte b)) value)
      then Err (InvalidTransport name "custom header values contain invalid control bytes")
      else validate_headers name rest
  end.

Definition validate_transport (c : UpstreamConfig) : result unit ConfigError :=
  let invalid reason : result unit ConfigError := Err (InvalidTransport (up_name c) reason) in
  let? _ := validate_headers (up_name c) (up_headers c) in
  if is_none (up_transport c) && is_some (up_socket_path c)
  then invalid ("socket_path requires transport = " +:+ quoted "unix_socket")
  else match effective_transport c with
  | None => invalid "upstream requires a url or command"
  | Some UnixSocket =>
      if negb cfg_unix then invalid "unix_socket is unsupported on this platform"
      else match Str.trim <$> up_socket_path c with
      | None | Some EmptyString => invalid "unix_socket requires a non-empty socket_path"
      | Some path =>
          if String.eqb path "@" then invalid "abstract socket_path must include a name after '@'"
          else if Str.starts_with "@" path && negb cfg_linux
          then invalid "abstract @name sockets are supported only on Linux"
          else match up_url c with
          | None => invalid "unix_socket requires an HTTP(S) url for request URI and Host authority"
          | Some url =>
              if negb (is_http_url url) then invalid "unix_socket url must use http:// or https://"
              else if is_some (up_command c) then invalid "unix_socket cannot also configure command"
              else Ok ()
          end
      end
  | Some Http =>
      if is_some (up_socket_path c) || is_some (up_command c)
      then invalid "http cannot configure socket_path or command"
      else if negb (is_some_and is_http_url (up_url c))
      then invalid "http requires an http:// or https:// url"
      else Ok ()
  | Some Websocket =>
      if is_some (up_socket_path c) || is_some (up_command c)
      then invalid "websocket cannot configure socket_path or command"
      else if negb (bool_decide (up_headers c = [])) then invalid "websocket custom headers are not supported"
      else if negb (is_some_and is_ws_url (up_url c)) then invalid "websocket requires a ws:// or wss:// url"
      else if is_some (up_oauth c) then invalid "websocket does not support outbound OAuth"
      else Ok ()
  | Some Stdio =>
      if is_some (up_url c) || is_some (up_socket_path c)
      then invalid "stdio cannot configure url or socket_path"
      else if is_none_or (fun command => Str.is_empty (Str.trim command)) (up_command c)
      then invalid "stdio requires a non-empty command"
      else if is_some (up_oauth c) || negb (bool_decide (up_headers c = []))
      then invalid "stdio cannot configure OAuth or custom HTTP headers"
      else Ok ()
  end.

Definition canonicalize_upstream_url (raw : string) : result string string :=
  let? parsed := url_parse (Str.trim raw) in Ok (url_str parsed).

Definition canonical_url (c : UpstreamConfig) : option (result string ConfigError) :=
  (fun raw => map_err (fun _ => InvalidUrl (up_name c) raw) (canonicalize_upstream_url raw)) <$> up_url c.

(** [split(SEP).next().unwrap_or_default()] with a string separator. *)
Definition before (sep s : string) : string :=
  match Str.find sep s with Some n => Str.take n s | None => s end.

Definition is_name_char (a : ascii) : bool := is_ascii_alphanumeric a || one_of ["-"; "_"; "."]%char a.

Definition validate_google_oauth (c : UpstreamConfig) (oauth : UpstreamOauthConfig) : result unit ConfigError :=
  let invalid_oauth reason : result unit ConfigError := Err (InvalidOauth (up_name c) reason) in
  if negb (is_some_and (Str.starts_with "https://") (up_url c))
  then invalid_oauth "google_provider requires an https:// Google MCP endpoint"
  else match uo_registration oauth with
  | Preregistered client_id client_secret_env =>
      if Str.is_empty (Str.trim client_id)
      then invalid_oauth "google_provider requires a non-empty preregistered client_id"
      else if is_none_or (fun var => Str.is_empty (Str.trim var)) client_secret_env
      then invalid_oauth "google_provider requires client_secret_env for the Google OAuth client"
      else if is_none_or (forallb (fun scope => Str.is_empty (Str.trim scope))) (uo_scopes oauth)
      then invalid_oauth "google_provider requires at least one Google Workspace application scope"
      else Ok ()
  | _ => invalid_oauth "google_provider requires registration.strategy = preregistered"
  end.

Definition validate_url (c : UpstreamConfig) (raw : string) : result unit ConfigError :=
  let? canonical := map_err (fun _ => InvalidUrl (up_name c) raw) (canonicalize_upstream_url raw) in
  let scheme := before "://" canonical in
  if negb (String.eqb scheme "http") && negb (String.eqb scheme "https") && negb (String.eqb scheme "ws")
     && negb (String.eqb scheme "wss")
  then Err (InvalidUrl (up_name c) raw) else Ok ().

Definition validate (c : UpstreamConfig) : result unit ConfigError :=
  if Str.is_empty (Str.trim (up_name c)) then Err (InvalidName (up_name c) "must not be empty")
  else if bool_decide (128 < Str.len (up_name c))%Z
  then Err (InvalidName (up_name c) "must not exceed 128 characters")
  else if negb (Str.all_bytes is_name_char (up_name c))
  then Err (InvalidName (up_name c) "must contain only ASCII letters, digits, hyphens, underscores, and dots")
  else if is_some (up_bearer_token_env c) && is_some (up_oauth c) then Err (ConflictingAuth (up_name c))
  else
    let? _ := validate_transport c in
    if is_some (up_oauth c) && is_none (up_url c) then Err (MissingOauthUrl (up_name c))
    else
      let? _ := match up_oauth c with
        | Some oauth => if is_google_provider (uo_credential oauth) then validate_google_oauth c oauth else Ok ()
        | None => Ok ()
        end in
      match up_url c with Some raw => validate_url c raw | None => Ok () end.

(** ** The Code Mode hint sanitizer *)

Definition CODE_MODE_HINT_MAX_CHARS : nat := 240.
Definition CODE_MODE_HINT_MAX_WORDS : nat := 24.

(** [chars().count()]: the bytes that do not continue a character. *)
Fixpoint chars_count (s : string) : nat :=
  match s with
  | EmptyString => 0
  | String a r => (if (128 <=? nat_of_ascii a) && (nat_of_ascii a <? 192) then 0 else 1) + chars_count r
  end.

(** [char::is_control] of the character at the head: C0, DEL, and C1 in UTF-8. *)
Definition control_at (s : string) : bool :=
  match s with
  | EmptyString => false
  | String a r =>
      let n := nat_of_ascii a in
      (n <? 32) || (n =? 127)
      || ((n =? 194) && match r with String b _ => (128 <=? nat_of_ascii b) && (nat_of_ascii b <=? 159) | _ => false end)
  end.
(** U+202A to U+202E and U+2066 to U+2069. *)
Definition bidi_at (s : string) : bool :=
  match s with
  | String a (String b (String c _)) =>
      (nat_of_ascii a =? 226)
      && (((nat_of_ascii b =? 128) && (170 <=? nat_of_ascii c) && (nat_of_ascii c <=? 174))
          || ((nat_of_ascii b =? 129) && (166 <=? nat_of_ascii c) && (nat_of_ascii c <=? 169)))
  | _ => false
  end.
Definition hint_forbidden (a : ascii) : bool :=
  one_of ["`"; "<"; ">"; "["; "]"; "{"; "}"; "\"; "|"; "#"; "$"; "@"; "^"; "*"; "~"; quote_char; "'"]%char a.
Definition hint_allowed (a : ascii) : bool :=
  is_ascii_alphanumeric a || one_of [" "; ","; "."; ":"; ";"; "&"; "/"; "-"; "_"; "("; ")"]%char a.

(** The character loop, [None] for the early return. *)
Fixpoint hint_chars (previous_was_space : bool) (s : string) : option string :=
  match s with
  | EmptyString => Some EmptyString
  | String a r =>
      if control_at s || hint_forbidden a || bidi_at s then None
      else
        let emit n := if previous_was_space then n else String " " <$> n in
        match Str.ws_at s with
        | 0 => if hint_allowed a then String a <$> hint_chars false r else None
        | 1 => emit (hint_chars true r)
        | 2 => match r with String _ r2 => emit (hint_chars true r2) | _ => emit (Some EmptyString) end
        | _ => match r with String _ (String _ r3) => emit (hint_chars true r3) | _ => emit (Some EmptyString) end
        end
  end.

(** [str::split] by a character test, and [trim_matches]. *)
Fixpoint split_by (p : ascii → bool) (s : string) : list string :=
  match s with
  | EmptyString => [EmptyString]
  | String a r => if p a then EmptyString :: split_by p r else Str.cons_head a (split_by p r)
  end.
Fixpoint trim_start_by (p : ascii → bool) (s : string) : string :=
  match s with String a r => if p a then trim_start_by p r else s | EmptyString => s end.
Fixpoint trim_end_by (p : ascii → bool) (s : string) : string :=
  match s with
  | EmptyString => EmptyString
  | String a r => let r' := trim_end_by p r in if Str.is_empty r' && p a then EmptyString else String a r'
  end.
Definition trim_matches (p : ascii → bool) (s : string) : string := trim_end_by p (trim_start_by p s).

Definition token_is_endpoint (raw : string) : bool :=
  let token := trim_matches (one_of [","; "."; ":"; ";"; "("; ")"]%char) raw in
  let lower := Str.to_ascii_lowercase token in
  let drive := match lower with String a (String b _) => Ascii.eqb b ":" && is_ascii_alphabetic a | _ => false end in
  let host := match Str.split_once ":" lower with
    | Some (host, port) => if negb (Str.is_empty host) && Str.all_bytes is_ascii_digit port then host else lower
    | None => lower
    end in
  let parts := Str.split "." host in
  drive
  || ((length parts =? 4) && forallb (fun part => is_some (parse_uint 255 part)) parts)
  || ((2 <=? length parts)
      && forallb (fun part => negb (Str.is_empty part)
                              && Str.all_bytes (fun ch => is_ascii_alphanumeric ch || Ascii.eqb ch "-") part) parts
      && match last parts with Some l => (2 <=? String.length l) && (String.length l <=? 63) | None => false end).

Definition looks_like_path_or_endpoint (normalized lower : string) : bool :=
  if Str.contains "://" lower || Str.contains "www." lower || Str.contains "/" normalized then true
  else existsb token_is_endpoint (Str.split_whitespace normalized).

Definition blocked_substrings : list string :=
  ["ignore"; "must"; "execute"; "run "; "system"; "developer"; "prompt"; "instruction"; "secret"; "token";
   "password"; "authorization"; "http://"; "https://"; "localhost"; "127.0.0.1"; "0.0.0.0"; ".env"; "/home/";
   "/users/"; "c:\"; "\\"; "../"; "./"; "read "; "write "; "delete "; "install "; "upload "; "download ";
   "call "; "tool "].
Definition blocked_words : list string :=
  ["you"; "your"; "yours"; "should"; "shall"; "will"; "never"; "always"; "please"; "use"; "return"; "respond";
   "act"; "obey"; "override"; "bypass"; "admin"; "root"].

Definition is_word_char (ch : ascii) : bool := is_ascii_alphanumeric ch || Ascii.eqb ch "_" || Ascii.eqb ch "-".
Definition hint_words (normalized : string) : list string :=
  List.filter (fun word => negb (Str.is_empty word)) (split_by (fun ch => negb (is_word_char ch)) normalized).

Definition normalize_code_mode_hint (raw : string) : option string :=
  let trimmed := Str.trim raw in
  if Str.is_empty trimmed || (CODE_MODE_HINT_MAX_CHARS <? chars_count trimmed) then None
  else match hint_chars false trimmed with
  | None => None
  | Some normalized =>
      let normalized := Str.trim normalized in
      if Str.is_empty normalized then None
      else
        let words := hint_words normalized in
        if bool_decide (words = []) || (CODE_MODE_HINT_MAX_WORDS <? length words) then None
        else
          let lower := Str.to_ascii_lowercase normalized in
          if looks_like_path_or_endpoint normalized lower then None
          else if existsb (fun needle => Str.contains needle lower) blocked_substrings then None
          else if existsb (fun word => existsb (String.eqb (Str.to_ascii_lowercase word)) blocked_words) words
          then None else Some normalized
  end.

(** ** Protected MCP routes *)

Record ProtectedGatewaySubsetTarget := mkSubset {
  gs_upstreams : list string;
  gs_services : list string;
  gs_expose_code_mode : bool;
}.
(** The enum has the one variant [GatewaySubset]. *)
Inductive ProtectedMcpRouteTarget := GatewaySubset (target : ProtectedGatewaySubsetTarget).

Inductive ProtectedMcpRouteEffectiveTarget :=
| BackendUrl (url : string)
| UpstreamTarget (name : string)
| GatewaySubsetTarget (target : ProtectedGatewaySubsetTarget).

Record ProtectedMcpRouteConfig := mkRoute {
  pr_name : string;
  pr_enabled : bool;
  pr_public_host : string;
  pr_public_path : string;
  pr_upstream : option string;
  pr_backend_url : string;
  pr_backend_mcp_path : string;
  pr_scopes : list string;
  pr_health_path : option string;
  pr_target : option ProtectedMcpRouteTarget;
}.

Definition default_mcp_path : string := "/mcp".
Definition default_mcp_scopes : list string := ["mcp:read"; "mcp:write"].

Definition public_resource (r : ProtectedMcpRouteConfig) : string :=
  "https://" +:+ pr_public_host r +:+ pr_public_path r.

Definition effective_target (r : ProtectedMcpRouteConfig) : ProtectedMcpRouteEffectiveTarget :=
  match pr_target r with
  | Some (GatewaySubset target) => GatewaySubsetTarget target
  | None => match pr_upstream r with
            | Some name => UpstreamTarget name
            | None => BackendUrl (pr_backend_url r)
            end
  end.
Definition is_gateway_subset (r : ProtectedMcpRouteConfig) : bool :=
  match pr_target r with Some (GatewaySubset _) => true | None => false end.
Definition gateway_subset_target (r : ProtectedMcpRouteConfig) : option ProtectedGatewaySubsetTarget :=
  match pr_target r with Some (GatewaySubset target) => Some target | None => None end.

Definition normalize_mcp_route_path (raw : string) : string :=
  let trimmed := Str.trim raw in
  let with_slash := if Str.starts_with "/" trimmed then trimmed else "/" +:+ trimmed in
  let normalized := Str.join "/" (List.filter (fun segment => negb (Str.is_empty segment)) (Str.split "/" with_slash)) in
  if Str.is_empty normalized then "/mcp" else "/" +:+ normalized.

Definition normalize_protected_backend_url (raw legacy_path : string) : result string string :=
  let? parsed := url_parse (Str.trim raw) in
  if is_some (url_query parsed) || is_some (url_fragment parsed) then Err "relative URL without a base"
  else
    let current_path := url_path parsed in
    let parsed := if Str.is_empty current_path || String.eqb current_path "/"
                  then url_set_path parsed (normalize_mcp_route_path legacy_path) else parsed in
    Ok (Str.trim_end_matches "/" (url_str parsed)).

(** The loop over the taken values, [normalized] the vector built so far. *)
Fixpoint normalize_list_from (normalized values : list string) : option (list string) :=
  match values with
  | [] => Some normalized
  | value :: rest =>
      let name := Str.trim value in
      if Str.is_empty name then None
      else normalize_list_from (if existsb (String.eqb name) normalized then normalized else normalized ++ [name]) rest
  end.
Definition normalize_string_list (values : list string) (field : string) : result (list string) string :=
  ok_or (normalize_list_from [] values) field.

Definition route_error (r : ProtectedMcpRouteConfig) (field value : string) : ConfigError :=
  InvalidProtectedRoute (pr_name r) field value.

(** The body of the loop over the routes. *)
Definition normalize_route (r : ProtectedMcpRouteConfig) : result ProtectedMcpRouteConfig ConfigError :=
  let upstream := match Str.trim <$> pr_upstream r with
    | Some name => if Str.is_empty name then None else Some name
    | None => None
    end in
  let? target := match pr_target r with
    | None => Ok None
    | Some (GatewaySubset t) =>
        let empty field := route_error r field "gateway_subset target entries must not be empty" in
        let? upstreams := map_err empty (normalize_string_list (gs_upstreams t) "target.upstreams") in
        let? services := map_err empty (normalize_string_list (gs_services t) "target.services") in
        Ok (Some (GatewaySubset (mkSubset upstreams services (gs_expose_code_mode t))))
    end in
  let update backend_url :=
    mkRoute (pr_name r) (pr_enabled r) (pr_public_host r) (pr_public_path r) upstream backend_url default_mcp_path
      (pr_scopes r) (pr_health_path r) target in
  if is_some target && (is_some upstream || negb (Str.is_empty (Str.trim (pr_backend_url r))))
  then Err (route_error r "target" "protected MCP route target cannot be combined with upstream or backend_url")
  else if is_some target then Ok (update "")
  else if is_some upstream && Str.is_empty (Str.trim (pr_backend_url r)) then Ok (update "")
  else
    let? url := map_err (fun _ => route_error r "backend_url" (pr_backend_url r))
                  (normalize_protected_backend_url (pr_backend_url r) (pr_backend_mcp_path r)) in
    Ok (update url).

Fixpoint normalize_routes (routes : list ProtectedMcpRouteConfig) : result (list ProtectedMcpRouteConfig) ConfigError :=
  match routes with
  | [] => Ok []
  | r :: rest =>
      let? r := normalize_route r in
      let? rest := normalize_routes rest in
      Ok (r :: rest)
  end.

(** [paths] is the hash set of the public paths seen. *)
Fixpoint unique_paths_from (paths : list string) (routes : list ProtectedMcpRouteConfig) : result unit ConfigError :=
  match routes with
  | [] => Ok ()
  | r :: rest =>
      if pr_enabled r && is_gateway_subset r then
        if existsb (String.eqb (pr_public_path r)) paths
        then Err (route_error r "public_path"
                    ("gateway_subset routes must use unique public_path values; `" +:+ pr_public_path r
                     +:+ "` is already mounted"))
        else unique_paths_from (pr_public_path r :: paths) rest
      else unique_paths_from paths rest
  end.
Definition validate_gateway_subset_paths_are_unique (routes : list ProtectedMcpRouteConfig) : result unit ConfigError :=
  unique_paths_from [] routes.

(** The routes after the call; on an error the caller discards them. *)
Definition normalize_protected_mcp_routes (routes : list ProtectedMcpRouteConfig) :
  result (list ProtectedMcpRouteConfig) ConfigError :=
  let? routes := normalize_routes routes in
  let? _ := validate_gateway_subset_paths_are_unique routes in
  Ok routes.

(** ** The gateway's timeouts and public addresses *)

Definition DEFAULT_UPSTREAM_REQUEST_TIMEOUT_MS : Z := 30000.
Definition DEFAULT_UPSTREAM_RELAY_TIMEOUT_MS : Z := 300000.
Definition upstream_request_timeout (ms : option Z) : Z :=
  match ms with Some ms => ms | None => DEFAULT_UPSTREAM_REQUEST_TIMEOUT_MS end.
Definition upstream_relay_timeout (ms : option Z) : Z :=
  match ms with Some ms => ms | None => DEFAULT_UPSTREAM_RELAY_TIMEOUT_MS end.

Record ResolvedPublicUrls := mkResolvedPublicUrls { pu_app : option string; pu_mcp_gateway : option string }.
Definition effective_mcp_gateway (u : ResolvedPublicUrls) : option string :=
  match pu_mcp_gateway u with Some g => Some g | None => pu_app u end.

End Config.
