(* ===== verification/Store.v ===== *)
(** * Store: the authorization server's SQLite database

    The tables of [labby-auth/src/sqlite.rs] as finite maps keyed by their
    primary keys, and the SQL of every store operation ([sqlite.rs],
    [sqlite/tokens.rs], [sqlite/google_credentials.rs],
    [sqlite/assertions.rs]) as a function of the database.  One definition is
    one statement or one transaction, the unit SQLite executes atomically; the
    Rust methods around them (clock readings, hashing, encryption) are the
    programs of the file SqliteStore. *)

From Stdlib Require Import Ascii.
From stdpp Require Import base list gmap strings sorting.
From S2P Require Import Prelude RustStr AuthTypes.

(** ** Stored rows

    Columns that are encrypted or JSON-encoded are kept as the stored text. *)

(** [registered_clients]: [(redirect_uris JSON, created_at)]. *)
Definition StoredClient : Type := string * Z.

Record StoredRefreshToken := mkStoredRefreshToken {
  sr_client_id : string;
  sr_subject : string;
  sr_resource : string;
  sr_scope : string;
  sr_provider_refresh_token : option string;
  sr_created_at : Z;
  sr_expires_at : Z;
  sr_refresh_claim_id : option string;
  sr_refresh_claim_expires_at : option Z;
}.

Record StoredGoogleCredential := mkStoredGoogleCredential {
  sg_email : option string;
  sg_client_id : string;
  sg_granted_scopes_json : string;
  sg_access_token : option string;
  sg_refresh_token : string;
  sg_token_received_at : option Z;
  sg_access_token_expires_at : option Z;
  sg_issuer : option string;
  sg_last_refresh_at : option Z;
  sg_last_scope_upgrade_at : option Z;
  sg_generation : Z;
  sg_created_at : Z;
  sg_updated_at : Z;
}.

(** [upstream_oauth_state] with the [dynamic_client_id] column migration v2 adds. *)
Definition StoredUpstreamState : Type := UpstreamOauthStateRow * option string.

Record Db := mkDb {
  registered_clients : gmap string StoredClient;
  authorization_requests : gmap string AuthorizationRequestRow;
  authorization_codes : gmap string AuthorizationCodeRow;
  refresh_tokens : gmap string StoredRefreshToken;
  google_provider_credentials : gmap string StoredGoogleCredential;
  assertion_jtis : gmap (string * string) Z;
  browser_sessions : gmap string BrowserSessionRow;
  browser_login_states : gmap string BrowserLoginStateRow;
  native_authorization_results : gmap string NativeAuthorizationResultRow;
  upstream_oauth_credentials : gmap (string * string) UpstreamOauthCredentialRow;
  upstream_oauth_state : gmap (string * string * string) StoredUpstreamState;
  upstream_oauth_dynamic_clients : gmap (string * string) (string * Z);
  allowed_users : list AllowedUserRow;
}.

Definition empty_db : Db :=
  mkDb ∅ ∅ ∅ ∅ ∅ ∅ ∅ ∅ ∅ ∅ ∅ ∅ [].

Definition set_registered_clients (f : gmap string StoredClient → gmap string StoredClient) (db : Db) : Db :=
  mkDb (f (registered_clients db)) (authorization_requests db) (authorization_codes db)
    (refresh_tokens db) (google_provider_credentials db) (assertion_jtis db)
    (browser_sessions db) (browser_login_states db) (native_authorization_results db)
    (upstream_oauth_credentials db) (upstream_oauth_state db)
    (upstream_oauth_dynamic_clients db) (allowed_users db).
Definition set_authorization_requests (f : gmap string AuthorizationRequestRow → gmap string AuthorizationRequestRow) (db : Db) : Db :=
  mkDb (registered_clients db) (f (authorization_requests db)) (authorization_codes db)
    (refresh_tokens db) (google_provider_credentials db) (assertion_jtis db)
    (browser_sessions db) (browser_login_states db) (native_authorization_results db)
    (upstream_oauth_credentials db) (upstream_oauth_state db)
    (upstream_oauth_dynamic_clients db) (allowed_users db).
Definition set_authorization_codes (f : gmap string AuthorizationCodeRow → gmap string AuthorizationCodeRow) (db : Db) : Db :=
  mkDb (registered_clients db) (authorization_requests db) (f (authorization_codes db))
    (refresh_tokens db) (google_provider_credentials db) (assertion_jtis db)
    (browser_sessions db) (browser_login_states db) (native_authorization_results db)
    (upstream_oauth_credentials db) (upstream_oauth_state db)
    (upstream_oauth_dynamic_clients db) (allowed_users db).
Definition set_refresh_tokens (f : gmap string StoredRefreshToken → gmap string StoredRefreshToken) (db : Db) : Db :=
  mkDb (registered_clients db) (authorization_requests db) (authorization_codes db)
    (f (refresh_tokens db)) (google_provider_credentials db) (assertion_jtis db)
    (browser_sessions db) (browser_login_states db) (native_authorization_results db)
    (upstream_oauth_credentials db) (upstream_oauth_state db)
    (upstream_oauth_dynamic_clients db) (allowed_users db).
Definition set_google_provider_credentials (f : gmap string StoredGoogleCredential → gmap string StoredGoogleCredential) (db : Db) : Db :=
  mkDb (registered_clients db) (authorization_requests db) (authorization_codes db)
    (refresh_tokens db) (f (google_provider_credentials db)) (assertion_jtis db)
    (browser_sessions db) (browser_login_states db) (native_authorization_results db)
    (upstream_oauth_credentials db) (upstream_oauth_state db)
    (upstream_oauth_dynamic_clients db) (allowed_users db).
Definition set_assertion_jtis (f : gmap (string * string) Z → gmap (string * string) Z) (db : Db) : Db :=
  mkDb (registered_clients db) (authorization_requests db) (authorization_codes db)
    (refresh_tokens db) (google_provider_credentials db) (f (assertion_jtis db))
    (browser_sessions db) (browser_login_states db) (native_authorization_results db)
    (upstream_oauth_credentials db) (upstream_oauth_state db)
    (upstream_oauth_dynamic_clients db) (allowed_users db).
Definition set_browser_sessions (f : gmap string BrowserSessionRow → gmap string BrowserSessionRow) (db : Db) : Db :=
  mkDb (registered_clients db) (authorization_requests db) (authorization_codes db)
    (refresh_tokens db) (google_provider_credentials db) (assertion_jtis db)
    (f (browser_sessions db)) (browser_login_states db) (native_authorization_results db)
    (upstream_oauth_credentials db) (upstream_oauth_state db)
    (upstream_oauth_dynamic_clients db) (allowed_users db).
Definition set_browser_login_states (f : gmap string BrowserLoginStateRow → gmap string BrowserLoginStateRow) (db : Db) : Db :=
  mkDb (registered_clients db) (authorization_requests db) (authorization_codes db)
    (refresh_tokens db) (google_provider_credentials db) (assertion_jtis db)
    (browser_sessions db) (f (browser_login_states db)) (native_authorization_results db)
    (upstream_oauth_credentials db) (upstream_oauth_state db)
    (upstream_oauth_dynamic_clients db) (allowed_users db).
Definition set_native_authorization_results (f : gmap string NativeAuthorizationResultRow → gmap string NativeAuthorizationResultRow) (db : Db) : Db :=
  mkDb (registered_clients db) (authorization_requests db) (authorization_codes db)
    (refresh_tokens db) (google_provider_credentials db) (assertion_jtis db)
    (browser_sessions db) (browser_login_states db) (f (native_authorization_results db))
    (upstream_oauth_credentials db) (upstream_oauth_state db)
    (upstream_oauth_dynamic_clients db) (allowed_users db).
Definition set_upstream_oauth_credentials (f : gmap (string * string) UpstreamOauthCredentialRow → gmap (string * string) UpstreamOauthCredentialRow) (db : Db) : Db :=
  mkDb (registered_clients db) (authorization_requests db) (authorization_codes db)
    (refresh_tokens db) (google_provider_credentials db) (assertion_jtis db)
    (browser_sessions db) (browser_login_states db) (native_authorization_results db)
    (f (upstream_oauth_credentials db)) (upstream_oauth_state db)
    (upstream_oauth_dynamic_clients db) (allowed_users db).
Definition set_upstream_oauth_state (f : gmap (string * string * string) StoredUpstreamState → gmap (string * string * string) StoredUpstreamState) (db : Db) : Db :=
  mkDb (registered_clients db) (authorization_requests db) (authorization_codes db)
    (refresh_tokens db) (google_provider_credentials db) (assertion_jtis db)
    (browser_sessions db) (browser_login_states db) (native_authorization_results db)
    (upstream_oauth_credentials db) (f (upstream_oauth_state db))
    (upstream_oauth_dynamic_clients db) (allowed_users db).
Definition set_upstream_oauth_dynamic_clients (f : gmap (string * string) (string * Z) → gmap (string * string) (string * Z)) (db : Db) : Db :=
  mkDb (registered_clients db) (authorization_requests db) (authorization_codes db)
    (refresh_tokens db) (google_provider_credentials db) (assertion_jtis db)
    (browser_sessions db) (browser_login_states db) (native_authorization_results db)
    (upstream_oauth_credentials db) (upstream_oauth_state db)
    (f (upstream_oauth_dynamic_clients db)) (allowed_users db).
Definition set_allowed_users (f : list AllowedUserRow → list AllowedUserRow) (db : Db) : Db :=
  mkDb (registered_clients db) (authorization_requests db) (authorization_codes db)
    (refresh_tokens db) (google_provider_credentials db) (assertion_jtis db)
    (browser_sessions db) (browser_login_states db) (native_authorization_results db)
    (upstream_oauth_credentials db) (upstream_oauth_state db)
    (upstream_oauth_dynamic_clients db) (f (allowed_users db)).

(** ** Tables *)

(** The row under [k], when it satisfies the [WHERE] clause [p]. *)
Definition select_row {K V} `{Countable K} (p : V → bool) (k : K) (t : gmap K V) : option V :=
  match t !! k with
  | Some row => if p row then Some row else None
  | None => None
  end.

(** [DELETE FROM t WHERE p]. *)
Definition delete_where {K V} `{Countable K} (p : K → V → bool) (t : gmap K V) : gmap K V :=
  filter (fun kv => p kv.1 kv.2 = false) t.

(** The rows of a table that satisfy a condition, in no particular order. *)
Definition rows_where {K V} `{Countable K} (p : K → V → bool) (t : gmap K V) : list (K * V) :=
  List.filter (fun kv => p kv.1 kv.2) (map_to_list t).

(** [expires_at > now]. *)
Definition live (expires_at now : Z) : bool := bool_decide (now < expires_at)%Z.

(** [sqlite_error]: what rusqlite's error becomes. *)
Definition sqlite_error (text : string) : AuthError := Storage ("sqlite error: " +:+ text).
Definition unique_violation (column : string) : AuthError :=
  sqlite_error ("UNIQUE constraint failed: " +:+ column).
Definition foreign_key_violation : AuthError := sqlite_error "FOREIGN KEY constraint failed".

(** [INSERT INTO t] without a conflict clause. *)
Definition insert_new {K V} `{Countable K} (column : string) (k : K) (v : V) (t : gmap K V) :
  result (gmap K V) AuthError :=
  match t !! k with
  | Some _ => Err (unique_violation column)
  | None => Ok (<[k := v]> t)
  end.

Section Operations.
Context `{Platform}.

(** ** Clients *)

Definition register_client_sql (client_id redirect_uris : string) (created_at : Z) (db : Db) :
  result unit AuthError * Db :=
  (Ok (), set_registered_clients (insert client_id (redirect_uris, created_at)) db).

Definition find_client_sql (client_id : string) (db : Db) :
  result (option RegisteredClient) AuthError * Db :=
  (match registered_clients db !! client_id with
   | None => Ok None
   | Some (redirect_uris, created_at) =>
       match json_decode redirect_uris with
       | Err error => Err (sqlite_error ("Conversion error from type Text at index: 1, " +:+ error))
       | Ok uris => Ok (Some (mkRegisteredClient client_id uris created_at "none" None))
       end
   end, db).

(** ** Authorization requests and codes *)

Definition insert_authorization_request_sql (request : AuthorizationRequestRow) (db : Db) :
  result unit AuthError * Db :=
  match insert_new "authorization_requests.state" (ar_state request) request
          (authorization_requests db) with
  | Ok t => (Ok (), set_authorization_requests (fun _ => t) db)
  | Err e => (Err e, db)
  end.

Definition take_authorization_request_sql (state : string) (now : Z) (db : Db) :
  result AuthorizationRequestRow AuthError * Db :=
  match select_row (fun r => live (ar_expires_at r) now) state (authorization_requests db) with
  | Some row => (Ok row, set_authorization_requests (delete state) db)
  | None => (Err (InvalidGrant "authorization state is missing, expired, or already used"), db)
  end.

Definition insert_auth_code_sql (code : AuthorizationCodeRow) (db : Db) :
  result unit AuthError * Db :=
  match insert_new "authorization_codes.code" (ac_code code) code (authorization_codes db) with
  | Ok t => (Ok (), set_authorization_codes (fun _ => t) db)
  | Err e => (Err e, db)
  end.

Definition redeem_auth_code_sql (code : string) (now : Z) (db : Db) :
  result AuthorizationCodeRow AuthError * Db :=
  match select_row (fun r => live (ac_expires_at r) now) code (authorization_codes db) with
  | Some row => (Ok row, set_authorization_codes (delete code) db)
  | None => (Err (InvalidGrant "authorization code is missing, expired, or already redeemed"), db)
  end.

(** ** Browser sessions and pending logins *)

Definition upsert_browser_session_sql (session : BrowserSessionRow) (db : Db) :
  result unit AuthError * Db :=
  (Ok (), set_browser_sessions (insert (bs_session_id session) session) db).

Definition find_browser_session_sql (session_id : string) (now : Z) (db : Db) :
  result (option BrowserSessionRow) AuthError * Db :=
  (Ok (select_row (fun r => live (bs_expires_at r) now) session_id (browser_sessions db)), db).

Definition revoke_browser_session_sql (session_id : string) (db : Db) :
  result unit AuthError * Db :=
  (Ok (), set_browser_sessions (delete session_id) db).

Definition insert_browser_login_state_sql (login : BrowserLoginStateRow) (db : Db) :
  result unit AuthError * Db :=
  match insert_new "browser_login_states.state" (bl_state login) login (browser_login_states db) with
  | Ok t => (Ok (), set_browser_login_states (fun _ => t) db)
  | Err e => (Err e, db)
  end.

Definition take_browser_login_state_sql (state : string) (now : Z) (db : Db) :
  result (option BrowserLoginStateRow) AuthError * Db :=
  match select_row (fun r => live (bl_expires_at r) now) state (browser_login_states db) with
  | Some row => (Ok (Some row), set_browser_login_states (delete state) db)
  | None => (Ok None, db)
  end.

(** The three tables [count_pending_oauth_states] counts. *)
Inductive PendingTable := PendingRequests | PendingLogins | PendingNative.

Definition count_pending_sql (t : PendingTable) (now : Z) (db : Db) : result Z AuthError * Db :=
  (Ok (Z.of_nat match t with
   | PendingRequests => length (rows_where (fun _ r => live (ar_expires_at r) now) (authorization_requests db))
   | PendingLogins => length (rows_where (fun _ r => live (bl_expires_at r) now) (browser_login_states db))
   | PendingNative => length (rows_where (fun _ r => live (na_expires_at r) now) (native_authorization_results db))
   end), db).

(** ** Native-flow results *)

Definition insert_native_authorization_result_sql (r : NativeAuthorizationResultRow) (db : Db) :
  result unit AuthError * Db :=
  (Ok (), set_native_authorization_results (insert (na_state r) r) db).

Definition take_native_authorization_result_sql (state : string) (now : Z) (db : Db) :
  result (option NativeAuthorizationResultRow) AuthError * Db :=
  match select_row (fun r => live (na_expires_at r) now) state (native_authorization_results db) with
  | Some row => (Ok (Some row), set_native_authorization_results (delete state) db)
  | None => (Ok None, db)
  end.

(** ** Expiry sweep: one [DELETE ... WHERE expires_at <= now] per table *)

Inductive ExpiringTable :=
| TAuthorizationRequests | TAuthorizationCodes | TRefreshTokens | TBrowserSessions
| TBrowserLoginStates | TNativeAuthorizationResults | TUpstreamOauthState
| TUpstreamOauthCredentials.

Definition delete_expired_sql (t : ExpiringTable) (now : Z) (db : Db) : result Z AuthError * Db :=
  let sweep {K V} `{Countable K} (expired : V → bool) (tbl : gmap K V) :=
    (Z.of_nat (size tbl) - Z.of_nat (size (delete_where (fun _ r => expired r) tbl)))%Z in
  match t with
  | TAuthorizationRequests =>
      let p r := negb (live (ar_expires_at r) now) in
      (Ok (sweep p (authorization_requests db)),
       set_authorization_requests (delete_where (fun _ => p)) db)
  | TAuthorizationCodes =>
      let p r := negb (live (ac_expires_at r) now) in
      (Ok (sweep p (authorization_codes db)), set_authorization_codes (delete_where (fun _ => p)) db)
  | TRefreshTokens =>
      let p r := negb (live (sr_expires_at r) now) in
      (Ok (sweep p (refresh_tokens db)), set_refresh_tokens (delete_where (fun _ => p)) db)
  | TBrowserSessions =>
      let p r := negb (live (bs_expires_at r) now) in
      (Ok (sweep p (browser_sessions db)), set_browser_sessions (delete_where (fun _ => p)) db)
  | TBrowserLoginStates =>
      let p r := negb (live (bl_expires_at r) now) in
      (Ok (sweep p (browser_login_states db)), set_browser_login_states (delete_where (fun _ => p)) db)
  | TNativeAuthorizationResults =>
      let p r := negb (live (na_expires_at r) now) in
      (Ok (sweep p (native_authorization_results db)),
       set_native_authorization_results (delete_where (fun _ => p)) db)
  | TUpstreamOauthState =>
      let p (r : StoredUpstreamState) := negb (live (us_expires_at r.1) now) in
      (Ok (sweep p (upstream_oauth_state db)), set_upstream_oauth_state (delete_where (fun _ => p)) db)
  | TUpstreamOauthCredentials =>
      let p r := negb (live (uc_access_token_expires_at r) now) && negb (uc_refresh_token_present r) in
      (Ok (sweep p (upstream_oauth_credentials db)),
       set_upstream_oauth_credentials (delete_where (fun _ => p)) db)
  end.

(** ** Upstream OAuth credentials, pending states and dynamic clients *)

Definition upsert_upstream_oauth_credentials_sql (row : UpstreamOauthCredentialRow) (db : Db) :
  result unit AuthError * Db :=
  (Ok (), set_upstream_oauth_credentials (insert (uc_upstream_name row, uc_subject row) row) db).

Definition find_upstream_oauth_credentials_sql (upstream_name subject : string) (db : Db) :
  result (option UpstreamOauthCredentialRow) AuthError * Db :=
  (Ok (upstream_oauth_credentials db !! (upstream_name, subject)), db).

Definition delete_upstream_oauth_credentials_sql (upstream_name subject : string) (db : Db) :
  result unit AuthError * Db :=
  (Ok (), set_upstream_oauth_credentials (delete (upstream_name, subject)) db).

Definition save_upstream_oauth_state_sql (row : UpstreamOauthStateRow) (db : Db) :
  result unit AuthError * Db :=
  match insert_new "upstream_oauth_state.upstream_name, upstream_oauth_state.subject, upstream_oauth_state.csrf_token"
          (us_upstream_name row, us_subject row, us_csrf_token row) (row, None) (upstream_oauth_state db) with
  | Ok t => (Ok (), set_upstream_oauth_state (fun _ => t) db)
  | Err e => (Err e, db)
  end.

Definition state_rows (upstream_name : option string) (csrf_token : string) (now : Z) (db : Db) :=
  rows_where (fun (k : string * string * string) (r : StoredUpstreamState) =>
      match upstream_name with Some u => String.eqb k.1.1 u | None => true end
      && String.eqb k.2 csrf_token && live (us_expires_at r.1) now)
    (upstream_oauth_state db).

Definition find_upstream_oauth_state_subject_sql (upstream_name csrf_token : string) (now : Z) (db : Db) :
  result (option string) AuthError * Db :=
  (Ok ((fun kv => kv.1.1.2) <$> head (state_rows (Some upstream_name) csrf_token now db)), db).

Definition find_upstream_oauth_state_owner_sql (csrf_token : string) (now : Z) (db : Db) :
  result (option (string * string)) AuthError * Db :=
  (Ok ((fun kv => kv.1.1) <$> head (state_rows None csrf_token now db)), db).

Definition delete_upstream_oauth_state_by_csrf_sql (csrf_token : string) (now : Z) (db : Db) :
  result unit AuthError * Db :=
  (Ok (), set_upstream_oauth_state (delete_where (fun (k : string * string * string) r =>
     String.eqb k.2 csrf_token && live (us_expires_at r.1) now)) db).

Definition set_upstream_oauth_state_client_id_sql (upstream_name csrf_token client_id : string) (db : Db) :
  result unit AuthError * Db :=
  (Ok (), set_upstream_oauth_state (map_imap (fun (k : string * string * string) (r : StoredUpstreamState) =>
     Some (if String.eqb k.1.1 upstream_name && String.eqb k.2 csrf_token
           then (r.1, Some client_id) else r))) db).

Definition get_upstream_oauth_state_client_id_sql (upstream_name csrf_token : string) (now : Z) (db : Db) :
  result (option string) AuthError * Db :=
  (Ok (head (state_rows (Some upstream_name) csrf_token now db) ≫= fun kv => kv.2.2), db).

Definition take_upstream_oauth_state_sql (upstream_name subject csrf_token : string) (now : Z) (db : Db) :
  result (option UpstreamOauthStateRow) AuthError * Db :=
  match select_row (fun r : StoredUpstreamState => live (us_expires_at r.1) now)
          (upstream_name, subject, csrf_token) (upstream_oauth_state db) with
  | Some r => (Ok (Some r.1), set_upstream_oauth_state (delete (upstream_name, subject, csrf_token)) db)
  | None => (Ok None, db)
  end.

Definition save_dynamic_client_registration_sql (upstream_name subject client_id : string) (now : Z) (db : Db) :
  result unit AuthError * Db :=
  (Ok (), set_upstream_oauth_dynamic_clients (insert (upstream_name, subject) (client_id, now)) db).

Definition find_dynamic_client_registration_sql (upstream_name subject : string) (db : Db) :
  result (option string) AuthError * Db :=
  (Ok (fst <$> upstream_oauth_dynamic_clients db !! (upstream_name, subject)), db).

Definition delete_dynamic_client_registration_sql (upstream_name subject : string) (db : Db) :
  result unit AuthError * Db :=
  (Ok (), set_upstream_oauth_dynamic_clients (delete (upstream_name, subject)) db).

(** ** The email allowlist

    Rows in insertion order; [ORDER BY created_at ASC] is a stable sort of
    them. *)

Definition add_allowed_user_sql (email fp added_by : string) (created_at : Z) (db : Db) :
  result unit AuthError * Db :=
  if existsb (fun r => String.eqb (au_email r) email) (allowed_users db)
  then (Err (Validation ("email fingerprint " +:+ fp +:+ " is already in the allowlist")), db)
  else (Ok (), set_allowed_users (fun t => t ++ [mkAllowedUserRow email added_by created_at]) db).

Definition remove_allowed_user_sql (email : string) (db : Db) : result unit AuthError * Db :=
  (Ok (), set_allowed_users (List.filter (fun r => negb (String.eqb (au_email r) email))) db).

Fixpoint insert_by_created_at (r : AllowedUserRow) (l : list AllowedUserRow) : list AllowedUserRow :=
  match l with
  | [] => [r]
  | x :: l' => if bool_decide (au_created_at x <= au_created_at r)%Z
               then x :: insert_by_created_at r l' else r :: l
  end.

Definition list_allowed_users_sql (db : Db) : result (list AllowedUserRow) AuthError * Db :=
  (Ok (foldl (fun acc r => insert_by_created_at r acc) [] (allowed_users db)), db).

(** ** Refresh tokens (sqlite/tokens.rs) *)

(** [refresh_claim_expires_at] compared with [now]: false on [NULL]. *)
Definition claim_expired (r : StoredRefreshToken) (now : Z) : bool :=
  match sr_refresh_claim_expires_at r with Some e => bool_decide (e <= now)%Z | None => false end.
Definition claim_live (r : StoredRefreshToken) (now : Z) : bool :=
  match sr_refresh_claim_expires_at r with Some e => bool_decide (now < e)%Z | None => false end.
Definition claimed_by (r : StoredRefreshToken) (claim_id : string) : bool :=
  match sr_refresh_claim_id r with Some c => String.eqb c claim_id | None => false end.

Definition set_claim (claim : option string) (expires : option Z) (r : StoredRefreshToken) : StoredRefreshToken :=
  mkStoredRefreshToken (sr_client_id r) (sr_subject r) (sr_resource r) (sr_scope r)
    (sr_provider_refresh_token r) (sr_created_at r) (sr_expires_at r) claim expires.

(** The row as the [SELECT]s of [sqlite/tokens.rs] return it, with the
    provider token still as stored. *)
Definition read_refresh_token (plaintext : string) (r : StoredRefreshToken) : RefreshTokenRow :=
  mkRefreshTokenRow plaintext (sr_client_id r) (sr_subject r) (sr_resource r) (sr_scope r)
    (sr_provider_refresh_token r) (sr_created_at r) (sr_expires_at r).

Definition claim_refresh_token_sql (hash plaintext claim_id : string) (lease_expires_at now : Z) (db : Db) :
  result (option RefreshTokenRow) AuthError * Db :=
  match select_row (fun r => live (sr_expires_at r) now &&
            (match sr_refresh_claim_id r with None => true | Some _ => false end || claim_expired r now))
          hash (refresh_tokens db) with
  | None => (Ok None, db)
  | Some r =>
      (Ok (Some (read_refresh_token plaintext r)),
       set_refresh_tokens (insert hash (set_claim (Some claim_id) (Some lease_expires_at) r)) db)
  end.

Definition release_refresh_claim_sql (hash claim_id : string) (db : Db) : result unit AuthError * Db :=
  (Ok (), match select_row (fun r => claimed_by r claim_id) hash (refresh_tokens db) with
          | Some r => set_refresh_tokens (insert hash (set_claim None None r)) db
          | None => db
          end).

(** The columns of an [INSERT INTO refresh_tokens]. *)
Definition stored_of_row (token : RefreshTokenRow) (provider_rt : option string) : StoredRefreshToken :=
  mkStoredRefreshToken (rt_client_id token) (rt_subject token) (rt_resource token) (rt_scope token)
    provider_rt (rt_created_at token) (rt_expires_at token) None None.

Definition upsert_refresh_token_sql (hash : string) (token : RefreshTokenRow) (provider_rt : option string)
    (db : Db) : result unit AuthError * Db :=
  match registered_clients db !! rt_client_id token with
  | None => (Err foreign_key_violation, db)
  | Some _ =>
      let fresh := stored_of_row token provider_rt in
      let row := match refresh_tokens db !! hash with
                 | Some old => set_claim (sr_refresh_claim_id old) (sr_refresh_claim_expires_at old) fresh
                 | None => fresh
                 end in
      (Ok (), set_refresh_tokens (insert hash row) db)
  end.

(** The transaction of both [rotate_*] methods: delete the old row when it
    satisfies the [WHERE] clause, then insert the new one; an insertion that
    violates a constraint rolls the deletion back. *)
Definition rotate_sql (p : StoredRefreshToken → bool) (old_hash new_hash : string)
    (new_token : RefreshTokenRow) (provider_rt : option string) (db : Db) :
  result (option RefreshTokenRow) AuthError * Db :=
  match select_row p old_hash (refresh_tokens db) with
  | None => (Ok None, db)
  | Some _ =>
      match insert_new "refresh_tokens.refresh_token_hash" new_hash
              (stored_of_row new_token provider_rt) (delete old_hash (refresh_tokens db)) with
      | Err e => (Err e, db)
      | Ok t =>
          match registered_clients db !! rt_client_id new_token with
          | None => (Err foreign_key_violation, db)
          | Some _ => (Ok (Some new_token), set_refresh_tokens (fun _ => t) db)
          end
      end
  end.

Definition rotate_refresh_token_sql (old_hash new_hash : string) (new_token : RefreshTokenRow)
    (provider_rt : option string) (now : Z) : Db → result (option RefreshTokenRow) AuthError * Db :=
  rotate_sql (fun r => live (sr_expires_at r) now) old_hash new_hash new_token provider_rt.

Definition rotate_claimed_refresh_token_sql (old_hash claim_id new_hash : string)
    (new_token : RefreshTokenRow) (provider_rt : option string) (now : Z) :
  Db → result (option RefreshTokenRow) AuthError * Db :=
  rotate_sql (fun r => claimed_by r claim_id && claim_live r now && live (sr_expires_at r) now)
    old_hash new_hash new_token provider_rt.

Definition find_refresh_token_sql (hash plaintext : string) (now : Z) (db : Db) :
  result (option RefreshTokenRow) AuthError * Db :=
  (Ok (read_refresh_token plaintext <$> select_row (fun r => live (sr_expires_at r) now) hash (refresh_tokens db)), db).

Definition revoke_refresh_token_sql (hash : string) (db : Db) : result unit AuthError * Db :=
  (Ok (), set_refresh_tokens (delete hash) db).

Definition has_refresh_token_for_client_sql (now : Z) (client_id : string) (db : Db) :
  result bool AuthError * Db :=
  (Ok (negb (bool_decide (rows_where (fun _ r => live (sr_expires_at r) now && String.eqb (sr_client_id r) client_id)
               (refresh_tokens db) = []))), db).

(** ** Google provider credentials (sqlite/tokens.rs, sqlite/google_credentials.rs) *)

(** [COALESCE(a, b)]. *)
Definition coalesce {A} (a b : option A) : option A := match a with Some _ => a | None => b end.

Definition dquote : string := String (Ascii.ascii_of_nat 34) "".
(** The column default of [granted_scopes_json]. *)
Definition default_scopes_json : string :=
  let q s := dquote +:+ s +:+ dquote in
  "[" +:+ q "email" +:+ "," +:+ q "openid" +:+ "," +:+ q "profile" +:+ "]".

Definition upsert_google_provider_credential_sql (subject : string) (email : option string)
    (refresh_token : string) (now : Z) (db : Db) : result unit AuthError * Db :=
  let row := match google_provider_credentials db !! subject with
    | None => mkStoredGoogleCredential email "" default_scopes_json None refresh_token
                None None None None None 1 now now
    | Some g => mkStoredGoogleCredential (coalesce email (sg_email g)) (sg_client_id g)
                  (sg_granted_scopes_json g) (sg_access_token g) refresh_token
                  (sg_token_received_at g) (sg_access_token_expires_at g) (sg_issuer g)
                  (sg_last_refresh_at g) (sg_last_scope_upgrade_at g)
                  (sg_generation g + 1) (sg_created_at g) now
    end in
  (Ok (), set_google_provider_credentials (insert subject row) db).

Definition associate_google_provider_email_sql (subject email : string) (now : Z) (db : Db) :
  result bool AuthError * Db :=
  match google_provider_credentials db !! subject with
  | None => (Ok false, db)
  | Some g =>
      (Ok true, set_google_provider_credentials (insert subject
         (mkStoredGoogleCredential (Some email) (sg_client_id g) (sg_granted_scopes_json g)
            (sg_access_token g) (sg_refresh_token g) (sg_token_received_at g)
            (sg_access_token_expires_at g) (sg_issuer g) (sg_last_refresh_at g)
            (sg_last_scope_upgrade_at g) (sg_generation g) (sg_created_at g) now)) db)
  end.

(** [row_from_sql]: a stored row with its key, the scopes decoded. *)
Definition row_from_sql (subject : string) (g : StoredGoogleCredential) : GoogleProviderCredentialRow :=
  mkGoogleProviderCredentialRow subject (sg_email g) (sg_client_id g)
    (match json_decode (sg_granted_scopes_json g) with Ok l => l | Err _ => [] end)
    (sg_access_token g) (sg_refresh_token g) (sg_token_received_at g)
    (sg_access_token_expires_at g) (sg_issuer g) (sg_last_refresh_at g)
    (sg_last_scope_upgrade_at g) (sg_generation g) (sg_created_at g) (sg_updated_at g).

(** [email = ?1 COLLATE NOCASE]. *)
Definition email_nocase (email : string) (g : StoredGoogleCredential) : bool :=
  match sg_email g with Some e => Str.eq_ignore_ascii_case e email | None => false end.

(** [WHERE subject = ?1]. *)
Definition select_google_by_subject_sql (subject : string) (db : Db) :
  result (option GoogleProviderCredentialRow) AuthError * Db :=
  (Ok (row_from_sql subject <$> google_provider_credentials db !! subject), db).

Definition google_rows (p : StoredGoogleCredential → bool) (db : Db) : list GoogleProviderCredentialRow :=
  (fun kv => row_from_sql kv.1 kv.2) <$> rows_where (fun _ g => p g) (google_provider_credentials db).

(** [... ORDER BY created_at ASC LIMIT 2]: the caller only distinguishes no
    row, one row and several, so the order of two rows is immaterial. *)
Definition select_google_by_email_sql (email : string) (db : Db) :
  result (list GoogleProviderCredentialRow) AuthError * Db :=
  (Ok (take 2 (google_rows (email_nocase email) db)), db).
Definition select_google_all_sql (db : Db) : result (list GoogleProviderCredentialRow) AuthError * Db :=
  (Ok (take 2 (google_rows (fun _ => true) db)), db).

Definition has_google_provider_credential_for_subject_sql (subject : string) (db : Db) :
  result bool AuthError * Db :=
  (Ok (bool_decide (is_Some (google_provider_credentials db !! subject))), db).

Definition has_google_provider_credential_for_email_sql (email : string) (db : Db) :
  result bool AuthError * Db :=
  (Ok (negb (bool_decide (google_rows (email_nocase email) db = []))), db).

Definition count_google_provider_credentials_sql (db : Db) : result Z AuthError * Db :=
  (Ok (Z.of_nat (size (google_provider_credentials db))), db).

(** The columns [upsert_google_provider_token_bundle] binds. *)
Record GoogleBundle := mkGoogleBundle {
  gb_subject : string;
  gb_email : option string;
  gb_client_id : string;
  gb_granted_scopes_json : string;
  gb_access_token : string;
  gb_refresh_token : string;
  gb_token_received_at : Z;
  gb_access_token_expires_at : Z;
  gb_issuer : option string;
  gb_refreshed : bool;
  gb_scope_upgraded : bool;
}.

Definition upsert_google_provider_token_bundle_sql (b : GoogleBundle) (now : Z) (db : Db) :
  result unit AuthError * Db :=
  let at_now (flag : bool) (old : option Z) := if flag then Some now else old in
  let row := match google_provider_credentials db !! gb_subject b with
    | None =>
        mkStoredGoogleCredential (gb_email b) (gb_client_id b) (gb_granted_scopes_json b)
          (Some (gb_access_token b)) (gb_refresh_token b) (Some (gb_token_received_at b))
          (Some (gb_access_token_expires_at b)) (gb_issuer b)
          (at_now (gb_refreshed b) None) (at_now (gb_scope_upgraded b) None) 1 now now
    | Some g =>
        mkStoredGoogleCredential (coalesce (gb_email b) (sg_email g)) (gb_client_id b)
          (gb_granted_scopes_json b) (Some (gb_access_token b)) (gb_refresh_token b)
          (Some (gb_token_received_at b)) (Some (gb_access_token_expires_at b))
          (coalesce (gb_issuer b) (sg_issuer g))
          (at_now (gb_refreshed b) (sg_last_refresh_at g))
          (at_now (gb_scope_upgraded b) (sg_last_scope_upgrade_at g))
          (sg_generation g + 1) (sg_created_at g) now
    end in
  (Ok (), set_google_provider_credentials (insert (gb_subject b) row) db).

(** Compare-and-delete on [(subject, generation)], revoking the subject's
    codes and refresh tokens in the same transaction. *)
Definition invalidate_google_provider_credential_sql (subject : string) (generation : Z) (db : Db) :
  result GoogleProviderInvalidation AuthError * Db :=
  match select_row (fun g => bool_decide (sg_generation g = generation)) subject
          (google_provider_credentials db) with
  | None => (Ok no_invalidation, db)
  | Some _ =>
      let codes := delete_where (fun _ r => String.eqb (ac_subject r) subject) (authorization_codes db) in
      let tokens := delete_where (fun _ r => String.eqb (sr_subject r) subject) (refresh_tokens db) in
      (Ok (mkGoogleProviderInvalidation true
             (Z.of_nat (size (refresh_tokens db)) - Z.of_nat (size tokens))
             (Z.of_nat (size (authorization_codes db)) - Z.of_nat (size codes))),
       set_refresh_tokens (fun _ => tokens)
         (set_authorization_codes (fun _ => codes)
            (set_google_provider_credentials (delete subject) db)))
  end.

(** ** Signed-assertion identifiers (sqlite/assertions.rs)

    The transaction: drop expired identifiers, then [INSERT OR IGNORE]. *)
Definition consume_assertion_jti_sql (issuer jti : string) (expires_at now : Z) (db : Db) :
  result bool AuthError * Db :=
  let kept := delete_where (fun _ e => bool_decide (e <= now)%Z) (assertion_jtis db) in
  match kept !! (issuer, jti) with
  | Some _ => (Ok false, set_assertion_jtis (fun _ => kept) db)
  | None => (Ok true, set_assertion_jtis (fun _ => <[(issuer, jti) := expires_at]> kept) db)
  end.

(** ** The operations as data

    [StoreOp] is one statement or transaction with its bound parameters;
    [store_resp] its result type and [exec] its execution. *)

Inductive StoreOp : Type :=
| RegisterClient (client_id redirect_uris : string) (created_at : Z)
| FindClient (client_id : string)
| InsertAuthorizationRequest (request : AuthorizationRequestRow)
| TakeAuthorizationRequest (state : string) (now : Z)
| InsertAuthCode (code : AuthorizationCodeRow)
| RedeemAuthCode (code : string) (now : Z)
| UpsertBrowserSession (session : BrowserSessionRow)
| FindBrowserSession (session_id : string) (now : Z)
| RevokeBrowserSession (session_id : string)
| InsertBrowserLoginState (login : BrowserLoginStateRow)
| TakeBrowserLoginState (state : string) (now : Z)
| CountPending (t : PendingTable) (now : Z)
| InsertNativeAuthorizationResult (r : NativeAuthorizationResultRow)
| TakeNativeAuthorizationResult (state : string) (now : Z)
| DeleteExpired (t : ExpiringTable) (now : Z)
| UpsertUpstreamOauthCredentials (row : UpstreamOauthCredentialRow)
| FindUpstreamOauthCredentials (upstream_name subject : string)
| DeleteUpstreamOauthCredentials (upstream_name subject : string)
| SaveUpstreamOauthState (row : UpstreamOauthStateRow)
| FindUpstreamOauthStateSubject (upstream_name csrf_token : string) (now : Z)
| FindUpstreamOauthStateOwner (csrf_token : string) (now : Z)
| DeleteUpstreamOauthStateByCsrf (csrf_token : string) (now : Z)
| SetUpstreamOauthStateClientId (upstream_name csrf_token client_id : string)
| GetUpstreamOauthStateClientId (upstream_name csrf_token : string) (now : Z)
| TakeUpstreamOauthState (upstream_name subject csrf_token : string) (now : Z)
| SaveDynamicClientRegistration (upstream_name subject client_id : string) (now : Z)
| FindDynamicClientRegistration (upstream_name subject : string)
| DeleteDynamicClientRegistration (upstream_name subject : string)
| AddAllowedUser (email fp added_by : string) (created_at : Z)
| RemoveAllowedUser (email : string)
| ListAllowedUsers
| ClaimRefreshToken (hash plaintext claim_id : string) (lease_expires_at now : Z)
| ReleaseRefreshClaim (hash claim_id : string)
| UpsertRefreshToken (hash : string) (token : RefreshTokenRow) (provider_rt : option string)
| RotateRefreshToken (old_hash new_hash : string) (new_token : RefreshTokenRow)
    (provider_rt : option string) (now : Z)
| RotateClaimedRefreshToken (old_hash claim_id new_hash : string) (new_token : RefreshTokenRow)
    (provider_rt : option string) (now : Z)
| FindRefreshToken (hash plaintext : string) (now : Z)
| RevokeRefreshToken (hash : string)
| HasRefreshTokenForClient (now : Z) (client_id : string)
| UpsertGoogleProviderCredential (subject : string) (email : option string) (refresh_token : string) (now : Z)
| AssociateGoogleProviderEmail (subject email : string) (now : Z)
| SelectGoogleBySubject (subject : string)
| SelectGoogleByEmail (email : string)
| SelectGoogleAll
| HasGoogleForSubject (subject : string)
| HasGoogleForEmail (email : string)
| CountGoogle
| UpsertGoogleBundle (b : GoogleBundle) (now : Z)
| InvalidateGoogle (subject : string) (generation : Z)
| ConsumeAssertionJti (issuer jti : string) (expires_at now : Z).

Definition store_resp (op : StoreOp) : Type :=
  match op with
  | RegisterClient _ _ _ | InsertAuthorizationRequest _ | InsertAuthCode _ | UpsertBrowserSession _
  | RevokeBrowserSession _ | InsertBrowserLoginState _ | InsertNativeAuthorizationResult _
  | UpsertUpstreamOauthCredentials _ | DeleteUpstreamOauthCredentials _ _ | SaveUpstreamOauthState _
  | DeleteUpstreamOauthStateByCsrf _ _ | SetUpstreamOauthStateClientId _ _ _
  | SaveDynamicClientRegistration _ _ _ _ | DeleteDynamicClientRegistration _ _
  | AddAllowedUser _ _ _ _ | RemoveAllowedUser _ | ReleaseRefreshClaim _ _
  | UpsertRefreshToken _ _ _ | RevokeRefreshToken _ | UpsertGoogleProviderCredential _ _ _ _
  | UpsertGoogleBundle _ _ => unit
  | FindClient _ => option RegisteredClient
  | TakeAuthorizationRequest _ _ => AuthorizationRequestRow
  | RedeemAuthCode _ _ => AuthorizationCodeRow
  | FindBrowserSession _ _ => option BrowserSessionRow
  | TakeBrowserLoginState _ _ => option BrowserLoginStateRow
  | CountPending _ _ | DeleteExpired _ _ | CountGoogle => Z
  | TakeNativeAuthorizationResult _ _ => option NativeAuthorizationResultRow
  | FindUpstreamOauthCredentials _ _ => option UpstreamOauthCredentialRow
  | FindUpstreamOauthStateSubject _ _ _ | GetUpstreamOauthStateClientId _ _ _
  | FindDynamicClientRegistration _ _ => option string
  | FindUpstreamOauthStateOwner _ _ => option (string * string)
  | TakeUpstreamOauthState _ _ _ _ => option UpstreamOauthStateRow
  | ListAllowedUsers => list AllowedUserRow
  | ClaimRefreshToken _ _ _ _ _ | RotateRefreshToken _ _ _ _ _ | RotateClaimedRefreshToken _ _ _ _ _ _
  | FindRefreshToken _ _ _ => option RefreshTokenRow
  | HasRefreshTokenForClient _ _ | AssociateGoogleProviderEmail _ _ _ | HasGoogleForSubject _
  | HasGoogleForEmail _ | ConsumeAssertionJti _ _ _ _ => bool
  | SelectGoogleBySubject _ => option GoogleProviderCredentialRow
  | SelectGoogleByEmail _ | SelectGoogleAll => list GoogleProviderCredentialRow
  | InvalidateGoogle _ _ => GoogleProviderInvalidation
  end.

Definition exec (op : StoreOp) (db : Db) : result (store_resp op) AuthError * Db :=
  match op with
  | RegisterClient a b c => register_client_sql a b c db
  | FindClient a => find_client_sql a db
  | InsertAuthorizationRequest r => insert_authorization_request_sql r db
  | TakeAuthorizationRequest s now => take_authorization_request_sql s now db
  | InsertAuthCode r => insert_auth_code_sql r db
  | RedeemAuthCode c now => redeem_auth_code_sql c now db
  | UpsertBrowserSession r => upsert_browser_session_sql r db
  | FindBrowserSession s now => find_browser_session_sql s now db
  | RevokeBrowserSession s => revoke_browser_session_sql s db
  | InsertBrowserLoginState r => insert_browser_login_state_sql r db
  | TakeBrowserLoginState s now => take_browser_login_state_sql s now db
  | CountPending t now => count_pending_sql t now db
  | InsertNativeAuthorizationResult r => insert_native_authorization_result_sql r db
  | TakeNativeAuthorizationResult s now => take_native_authorization_result_sql s now db
  | DeleteExpired t now => delete_expired_sql t now db
  | UpsertUpstreamOauthCredentials r => upsert_upstream_oauth_credentials_sql r db
  | FindUpstreamOauthCredentials u s => find_upstream_oauth_credentials_sql u s db
  | DeleteUpstreamOauthCredentials u s => delete_upstream_oauth_credentials_sql u s db
  | SaveUpstreamOauthState r => save_upstream_oauth_state_sql r db
  | FindUpstreamOauthStateSubject u c now => find_upstream_oauth_state_subject_sql u c now db
  | FindUpstreamOauthStateOwner c now => find_upstream_oauth_state_owner_sql c now db
  | DeleteUpstreamOauthStateByCsrf c now => delete_upstream_oauth_state_by_csrf_sql c now db
  | SetUpstreamOauthStateClientId u c i => set_upstream_oauth_state_client_id_sql u c i db
  | GetUpstreamOauthStateClientId u c now => get_upstream_oauth_state_client_id_sql u c now db
  | TakeUpstreamOauthState u s c now => take_upstream_oauth_state_sql u s c now db
  | SaveDynamicClientRegistration u s c now => save_dynamic_client_registration_sql u s c now db
  | FindDynamicClientRegistration u s => find_dynamic_client_registration_sql u s db
  | DeleteDynamicClientRegistration u s => delete_dynamic_client_registration_sql u s db
  | AddAllowedUser e f a c => add_allowed_user_sql e f a c db
  | RemoveAllowedUser e => remove_allowed_user_sql e db
  | ListAllowedUsers => list_allowed_users_sql db
  | ClaimRefreshToken h p c l now => claim_refresh_token_sql h p c l now db
  | ReleaseRefreshClaim h c => release_refresh_claim_sql h c db
  | UpsertRefreshToken h t p => upsert_refresh_token_sql h t p db
  | RotateRefreshToken o n t p now => rotate_refresh_token_sql o n t p now db
  | RotateClaimedRefreshToken o c n t p now => rotate_claimed_refresh_token_sql o c n t p now db
  | FindRefreshToken h p now => find_refresh_token_sql h p now db
  | RevokeRefreshToken h => revoke_refresh_token_sql h db
  | HasRefreshTokenForClient now c => has_refresh_token_for_client_sql now c db
  | UpsertGoogleProviderCredential s e r now => upsert_google_provider_credential_sql s e r now db
  | AssociateGoogleProviderEmail s e now => associate_google_provider_email_sql s e now db
  | SelectGoogleBySubject s => select_google_by_subject_sql s db
  | SelectGoogleByEmail e => select_google_by_email_sql e db
  | SelectGoogleAll => select_google_all_sql db
  | HasGoogleForSubject s => has_google_provider_credential_for_subject_sql s db
  | HasGoogleForEmail e => has_google_provider_credential_for_email_sql e db
  | CountGoogle => count_google_provider_credentials_sql db
  | UpsertGoogleBundle b now => upsert_google_provider_token_bundle_sql b now db
  | InvalidateGoogle s g => invalidate_google_provider_credential_sql s g db
  | ConsumeAssertionJti i j e now => consume_assertion_jti_sql i j e now db
  end.

(** A recorded execution, and the run of a sequence of operations from a
    database: the events in order and the final database. *)
Record StoreEvent := mkEvent {
  ev_op : StoreOp;
  ev_result : result (store_resp ev_op) AuthError;
}.

Fixpoint run_ops (ops : list StoreOp) (db : Db) : list StoreEvent * Db :=
  match ops with
  | [] => ([], db)
  | op :: rest =>
      let '(r, db') := exec op db in
      let '(evs, db'') := run_ops rest db' in
      (mkEvent op r :: evs, db'')
  end.

End Operations.
