(* ===== verification/StoreProps.v ===== *)
(** * StoreProps: what the database guarantees over any sequence of operations

    The theorems here quantify over every finite sequence of [StoreOp]s, that
    is over every interleaving of the statements and transactions that
    concurrent requests send to the database.  The second half is about what a
    row holds: the lease that serialises an upstream refresh
    ([sqlite/tokens.rs]), the generation that guards the invalidation of a
    provider credential, and the replay cache of signed assertions
    ([sqlite/assertions.rs]). *)

From stdpp Require Import base list gmap strings.
From S2P Require Import Prelude RustStr AuthTypes SamplePlatform Store.

(** ** Table lemmas *)

Section Tables.
Context {K V : Type} `{Countable K}.
Implicit Types (t : gmap K V) (k : K).

Lemma select_row_Some (p : V → bool) k t v :
  select_row p k t = Some v ↔ t !! k = Some v ∧ p v = true.
Proof.
  unfold select_row. destruct (t !! k) as [w|]; [destruct (p w) eqn:E|];
    (split; [intros [= <-]; done || (by split) | intros [[= <-] ?]; congruence]).
Qed.

Lemma select_row_None (p : V → bool) k t :
  select_row p k t = None ↔ ∀ v, t !! k = Some v → p v = false.
Proof.
  unfold select_row. destruct (t !! k) as [w|]; [destruct (p w) eqn:E|]; split; try done.
  - intros H'. by rewrite (H' w eq_refl) in E.
  - by intros _ v [= <-].
Qed.

Lemma lookup_delete_where (p : K → V → bool) k t :
  delete_where p t !! k = t !! k ≫= fun v => if p k v then None else Some v.
Proof.
  unfold delete_where. destruct (t !! k) as [v|] eqn:E; simpl.
  - destruct (p k v) eqn:Ep.
    + apply map_lookup_filter_None. right. intros w Hw. simpl. congruence.
    + by apply map_lookup_filter_Some.
  - apply map_lookup_filter_None. by left.
Qed.

Lemma delete_where_Some (p : K → V → bool) k t v :
  delete_where p t !! k = Some v ↔ t !! k = Some v ∧ p k v = false.
Proof.
  rewrite lookup_delete_where. destruct (t !! k) as [w|] eqn:E; simpl; [destruct (p k w) eqn:Ep|];
    (split; [intros [= <-]; done || (by split) | intros [[= <-] ?]; congruence]).
Qed.

Lemma insert_new_Ok column k v t t' :
  insert_new column k v t = Ok t' ↔ t !! k = None ∧ t' = <[k := v]> t.
Proof. unfold insert_new. destruct (t !! k); naive_solver. Qed.

Lemma insert_new_Err column k v t e :
  insert_new column k v t = Err e ↔ is_Some (t !! k) ∧ e = unique_violation column.
Proof. unfold insert_new. destruct (t !! k) eqn:E; naive_solver. Qed.

End Tables.

(** Unfolds one executed operation and splits its branches. *)
Ltac exec_cases :=
  unfold exec, register_client_sql, find_client_sql, insert_authorization_request_sql,
    take_authorization_request_sql, insert_auth_code_sql, redeem_auth_code_sql,
    upsert_browser_session_sql, find_browser_session_sql, revoke_browser_session_sql,
    insert_browser_login_state_sql, take_browser_login_state_sql, count_pending_sql,
    insert_native_authorization_result_sql, take_native_authorization_result_sql,
    delete_expired_sql, upsert_upstream_oauth_credentials_sql,
    find_upstream_oauth_credentials_sql, delete_upstream_oauth_credentials_sql,
    save_upstream_oauth_state_sql, find_upstream_oauth_state_subject_sql,
    find_upstream_oauth_state_owner_sql, delete_upstream_oauth_state_by_csrf_sql,
    set_upstream_oauth_state_client_id_sql, get_upstream_oauth_state_client_id_sql,
    take_upstream_oauth_state_sql, save_dynamic_client_registration_sql,
    find_dynamic_client_registration_sql, delete_dynamic_client_registration_sql,
    add_allowed_user_sql, remove_allowed_user_sql, list_allowed_users_sql,
    claim_refresh_token_sql, release_refresh_claim_sql, upsert_refresh_token_sql,
    rotate_refresh_token_sql, rotate_claimed_refresh_token_sql, rotate_sql,
    find_refresh_token_sql, revoke_refresh_token_sql, has_refresh_token_for_client_sql,
    upsert_google_provider_credential_sql, associate_google_provider_email_sql,
    select_google_by_subject_sql, select_google_by_email_sql, select_google_all_sql,
    has_google_provider_credential_for_subject_sql,
    has_google_provider_credential_for_email_sql, count_google_provider_credentials_sql,
    upsert_google_provider_token_bundle_sql, invalidate_google_provider_credential_sql,
    consume_assertion_jti_sql in *;
  repeat match goal with
  | |- context [select_row ?p ?k ?t] => destruct (select_row p k t) eqn:?
  | |- context [insert_new ?c ?k ?v ?t] => destruct (insert_new c k v t) eqn:?
  | |- context [match ?x with _ => _ end] =>
      lazymatch x with
      | context [match _ with _ => _ end] => fail
      | _ => destruct x eqn:?
      end
  end; simpl in *.

Section Props.
Context `{Platform}.

Definition present {A} (o : option A) : nat := match o with Some _ => 1 | None => 0 end.

(** Number of recorded events satisfying a test. *)
Fixpoint count_events (p : StoreEvent → bool) (evs : list StoreEvent) : nat :=
  match evs with [] => 0 | ev :: r => (if p ev then 1 else 0) + count_events p r end.

(** ** Authorization codes are single-use *)

Definition redeems (code : string) (ev : StoreEvent) : bool :=
  match ev with
  | mkEvent op r =>
      match op as o return result (store_resp o) AuthError → bool with
      | RedeemAuthCode c _ => fun r => String.eqb c code && is_ok r
      | _ => fun _ => false
      end r
  end.

Definition issues_code (code : string) (ev : StoreEvent) : bool :=
  match ev with
  | mkEvent op r =>
      match op as o return result (store_resp o) AuthError → bool with
      | InsertAuthCode row => fun r => String.eqb (ac_code row) code && is_ok r
      | _ => fun _ => false
      end r
  end.

(** One step: a redemption removes the row, only an issue creates it. *)
Lemma exec_code_accounting code op db :
  (if redeems code (mkEvent op (exec op db).1) then 1 else 0)
    + present (authorization_codes (exec op db).2 !! code)
  ≤ present (authorization_codes db !! code)
    + (if issues_code code (mkEvent op (exec op db).1) then 1 else 0).
Proof.
  destruct op; cbn [redeems issues_code];
    try (exec_cases; rewrite ?andb_false_r; lia).
  - (* InsertAuthCode *)
    unfold exec, insert_auth_code_sql.
    destruct (insert_new _ _ _ _) eqn:E; simpl; [|rewrite andb_false_r; lia].
    apply insert_new_Ok in E as [E ->]. rewrite andb_true_r.
    destruct (String.eqb_spec (ac_code code0) code) as [<-|Hne].
    + rewrite lookup_insert_eq, E. simpl. lia.
    + rewrite lookup_insert_ne by done. lia.
  - (* RedeemAuthCode *)
    unfold exec, redeem_auth_code_sql.
    destruct (select_row _ _ _) eqn:E; simpl; [|rewrite andb_false_r; lia].
    apply select_row_Some in E as [E _]. rewrite andb_true_r.
    destruct (String.eqb_spec code0 code) as [<-|Hne].
    + rewrite lookup_delete_eq, E. simpl. lia.
    + rewrite lookup_delete_ne by done. lia.
  - (* DeleteExpired *)
    destruct t; simpl; try lia.
    rewrite lookup_delete_where. destruct (authorization_codes db !! code); simpl; [|lia].
    destruct (negb _); simpl; lia.
  - (* InvalidateGoogle *)
    unfold exec, invalidate_google_provider_credential_sql.
    destruct (select_row _ _ _) eqn:E; simpl; [|lia].
    rewrite lookup_delete_where. destruct (authorization_codes db !! code); simpl; [|lia].
    destruct (String.eqb _ _); simpl; lia.
Qed.

(** Authorization codes are single-use: in any sequence of store
    operations, the number of successful redemptions of a code is at most the
    number of times it was issued, plus one when the row was already there;
    what is still stored afterwards counts against the same budget. *)
Theorem auth_code_single_use code ops db :
  let '(evs, db') := run_ops ops db in
  count_events (redeems code) evs + present (authorization_codes db' !! code)
  ≤ present (authorization_codes db !! code) + count_events (issues_code code) evs.
Proof.
  revert db; induction ops as [|op ops IH]; intros db; cbn [run_ops]; [simpl; lia|].
  pose proof (exec_code_accounting code op db) as Hs.
  destruct (exec op db) as [r db1]. specialize (IH db1).
  destruct (run_ops ops db1) as [evs db2]. cbn [count_events fst snd] in *. lia.
Qed.

(** ** Refresh tokens are rotated at most once per issue *)

Definition rotated {A} (r : result (option A) AuthError) : bool :=
  match r with Ok (Some _) => true | _ => false end.

(** The event consumed the refresh token stored under [h]. *)
Definition rotates_from (h : string) (ev : StoreEvent) : bool :=
  match ev with
  | mkEvent op r =>
      match op as o return result (store_resp o) AuthError → bool with
      | RotateRefreshToken o _ _ _ _ => fun r => String.eqb o h && rotated r
      | RotateClaimedRefreshToken o _ _ _ _ _ => fun r => String.eqb o h && rotated r
      | _ => fun _ => false
      end r
  end.

(** The event stored a refresh token under [h]. *)
Definition issues_refresh (h : string) (ev : StoreEvent) : bool :=
  match ev with
  | mkEvent op r =>
      match op as o return result (store_resp o) AuthError → bool with
      | UpsertRefreshToken h' _ _ => fun r => String.eqb h' h && is_ok r
      | RotateRefreshToken _ n _ _ _ => fun r => String.eqb n h && rotated r
      | RotateClaimedRefreshToken _ _ n _ _ _ => fun r => String.eqb n h && rotated r
      | _ => fun _ => false
      end r
  end.

(** What [rotate_sql] does, on every branch. *)
Lemma rotate_sql_spec p old new row prt db :
  match rotate_sql p old new row prt db with
  | (Ok (Some row'), db') =>
      row' = row ∧ is_Some (select_row p old (refresh_tokens db)) ∧
      is_Some (registered_clients db !! rt_client_id row) ∧
      delete old (refresh_tokens db) !! new = None ∧
      db' = set_refresh_tokens (fun t => <[new := stored_of_row row prt]> (delete old t)) db
  | (Ok None, db') => db' = db ∧ select_row p old (refresh_tokens db) = None
  | (Err e, db') =>
      db' = db ∧ is_Some (select_row p old (refresh_tokens db)) ∧
      (is_Some (delete old (refresh_tokens db) !! new) ∨ registered_clients db !! rt_client_id row = None)
  end.
Proof.
  unfold rotate_sql. destruct (select_row _ _ _) eqn:E; [|done].
  destruct (insert_new _ _ _ _) eqn:Ei.
  - apply insert_new_Ok in Ei as [? ->]. destruct (registered_clients db !! _); naive_solver.
  - apply insert_new_Err in Ei as [? ->]. naive_solver.
Qed.

Lemma rotate_sql_accounting p old new row prt h db :
  let '(r, db') := rotate_sql p old new row prt db in
  (if String.eqb old h && rotated r then 1 else 0) + present (refresh_tokens db' !! h)
  ≤ present (refresh_tokens db !! h) + (if String.eqb new h && rotated r then 1 else 0).
Proof.
  pose proof (rotate_sql_spec p old new row prt db) as Hs.
  destruct (rotate_sql p old new row prt db) as [[[row'|]|e] db']; simpl in *;
    rewrite ?andb_false_r, ?andb_true_r.
  2-3: destruct Hs as [-> _]; lia.
  destruct Hs as (_ & [r Hr] & _ & _ & ->). apply select_row_Some in Hr as [Hr _]. simpl.
  destruct (String.eqb_spec new h) as [->|Hn].
  - rewrite lookup_insert_eq. destruct (String.eqb_spec old h) as [->|]; [rewrite Hr|]; simpl; lia.
  - rewrite lookup_insert_ne by done. destruct (String.eqb_spec old h) as [->|Ho].
    + rewrite lookup_delete_eq, Hr. simpl. lia.
    + rewrite lookup_delete_ne by done. lia.

Qed.

Lemma exec_refresh_accounting h op db :
  (if rotates_from h (mkEvent op (exec op db).1) then 1 else 0)
    + present (refresh_tokens (exec op db).2 !! h)
  ≤ present (refresh_tokens db !! h)
    + (if issues_refresh h (mkEvent op (exec op db).1) then 1 else 0).
Proof.
  destruct op; cbn [rotates_from issues_refresh exec];
    unfold rotate_refresh_token_sql, rotate_claimed_refresh_token_sql;
    try (match goal with |- context [rotate_sql ?p ?o ?n ?t ?r ?d] =>
           pose proof (rotate_sql_accounting p o n t r h d); by destruct (rotate_sql p o n t r d) end);
    try (exec_cases; rewrite ?andb_false_r; lia).
  - (* DeleteExpired *)
    destruct t; simpl; try lia.
    rewrite lookup_delete_where. destruct (refresh_tokens db !! h); simpl; [|lia].
    destruct (negb _); simpl; lia.
  - (* ClaimRefreshToken *)
    unfold claim_refresh_token_sql. destruct (select_row _ _ _) eqn:E; simpl; [|lia].
    apply select_row_Some in E as [E _].
    destruct (decide (hash = h)) as [->|]; [rewrite lookup_insert_eq, E|rewrite lookup_insert_ne by done];
      simpl; lia.
  - (* ReleaseRefreshClaim *)
    unfold release_refresh_claim_sql. destruct (select_row _ _ _) eqn:E; simpl; [|lia].
    apply select_row_Some in E as [E _].
    destruct (decide (hash = h)) as [->|]; [rewrite lookup_insert_eq, E|rewrite lookup_insert_ne by done];
      simpl; lia.
  - (* UpsertRefreshToken *)
    unfold upsert_refresh_token_sql. destruct (registered_clients db !! _); simpl;
      [rewrite andb_true_r|rewrite andb_false_r; lia].
    destruct (String.eqb_spec hash h) as [->|];
      [rewrite lookup_insert_eq; simpl|rewrite lookup_insert_ne by done]; lia.
  - (* RevokeRefreshToken *)
    simpl. destruct (decide (hash = h)) as [->|];
      [rewrite lookup_delete_eq; simpl|rewrite lookup_delete_ne by done]; lia.
  - (* InvalidateGoogle *)
    unfold invalidate_google_provider_credential_sql. destruct (select_row _ _ _) eqn:E; simpl; [|lia].
    rewrite lookup_delete_where. destruct (refresh_tokens db !! h); simpl; [|lia].
    destruct (String.eqb _ _); simpl; lia.
Qed.

(** Refresh tokens cannot be replayed: in any sequence of store
    operations a stored token is exchanged (by either rotation) at most once
    for each time it was stored, and a token still stored afterwards counts
    against the same budget. *)
Theorem refresh_token_single_use h ops db :
  let '(evs, db') := run_ops ops db in
  count_events (rotates_from h) evs + present (refresh_tokens db' !! h)
  ≤ present (refresh_tokens db !! h) + count_events (issues_refresh h) evs.
Proof.
  revert db; induction ops as [|op ops IH]; intros db; cbn [run_ops]; [simpl; lia|].
  pose proof (exec_refresh_accounting h op db) as Hs.
  destruct (exec op db) as [r db1]. specialize (IH db1).
  destruct (run_ops ops db1) as [evs db2]. cbn [count_events fst snd] in *. lia.
Qed.

End Props.

Section Leases.
Context `{Platform}.

(** ** The refresh lease *)

(** The token stored under [h], if any, is leased to [id] until [e]. *)
Definition lease_held (h id : string) (e : Z) (db : Db) : Prop :=
  ∀ r, refresh_tokens db !! h = Some r →
       sr_refresh_claim_id r = Some id ∧ sr_refresh_claim_expires_at r = Some e.

(** Operations that may run while [id] holds the lease on [h]: any operation
    except a claim of [h] after the lease ran out, the holder's own release,
    and the storing of a new token under the very same hash. *)
Definition during_lease (h id : string) (e : Z) (op : StoreOp) : bool :=
  match op with
  | ClaimRefreshToken h' _ _ _ now => negb (String.eqb h' h) || bool_decide (now < e)%Z
  | ReleaseRefreshClaim h' id' => negb (String.eqb h' h && String.eqb id' id)
  | UpsertRefreshToken h' _ _ => negb (String.eqb h' h)
  | RotateRefreshToken _ n _ _ _ => negb (String.eqb n h)
  | RotateClaimedRefreshToken _ _ n _ _ _ => negb (String.eqb n h)
  | _ => true
  end.

(** The event is not another request getting hold of the token: a claim of
    [h] found nothing, and a claimed rotation of [h] by someone else too. *)
Definition respects_lease (h id : string) (ev : StoreEvent) : bool :=
  match ev with
  | mkEvent op r =>
      match op as o return result (store_resp o) AuthError → bool with
      | ClaimRefreshToken h' _ _ _ _ => fun r =>
          negb (String.eqb h' h) || match r with Ok None => true | _ => false end
      | RotateClaimedRefreshToken h' id' _ _ _ _ => fun r =>
          negb (String.eqb h' h) || String.eqb id' id || match r with Ok None => true | _ => false end
      | _ => fun _ => true
      end r
  end.

Lemma lease_held_frame h id e db db' :
  (∀ r, refresh_tokens db' !! h = Some r → refresh_tokens db !! h = Some r) →
  lease_held h id e db → lease_held h id e db'.
Proof. unfold lease_held. eauto. Qed.

Lemma lease_held_rotate p old new row prt h id e db :
  new ≠ h → lease_held h id e db → lease_held h id e (rotate_sql p old new row prt db).2.
Proof.
  intros Hn. apply lease_held_frame. intros r.
  pose proof (rotate_sql_spec p old new row prt db) as Hs.
  destruct (rotate_sql p old new row prt db) as [[[row'|]|er] db']; simpl in *.
  2-3: by destruct Hs as [-> _].
  destruct Hs as (_ & _ & _ & _ & ->). simpl. rewrite lookup_insert_ne by done.
  rewrite lookup_delete_Some. naive_solver.
Qed.

Lemma exec_lease h id e op db :
  lease_held h id e db → during_lease h id e op = true →
  lease_held h id e (exec op db).2 ∧ respects_lease h id (mkEvent op (exec op db).1) = true.
Proof.
  intros Hl Hd.
  destruct op; cbn [respects_lease during_lease exec] in *;
    unfold rotate_refresh_token_sql, rotate_claimed_refresh_token_sql;
    try (split; [|reflexivity]; exec_cases; exact Hl).
  - (* DeleteExpired *)
    split; [|done]. destruct t; simpl; try exact Hl.
    eapply lease_held_frame, Hl. simpl. intros r Hr. by apply delete_where_Some in Hr as [? _].
  - (* ClaimRefreshToken *)
    unfold claim_refresh_token_sql. destruct (select_row _ _ _) eqn:E; simpl; [|rewrite orb_true_r; done].
    apply select_row_Some in E as [E Hp]. destruct (String.eqb_spec hash h) as [->|Hne]; simpl in *.
    + destruct (Hl _ E) as [Hid He]. unfold claim_expired in Hp. rewrite Hid, He in Hp.
      split_bools. simpl in *. split_bools. lia.
    + split; [|done]. eapply lease_held_frame, Hl. simpl. by rewrite lookup_insert_ne.
  - (* ReleaseRefreshClaim *)
    split; [|done]. unfold release_refresh_claim_sql.
    destruct (select_row _ _ _) eqn:E; simpl; [|exact Hl].
    apply select_row_Some in E as [E Hp]. destruct (String.eqb_spec hash h) as [->|Hne]; simpl in *.
    + destruct (Hl _ E) as [Hid He]. unfold claimed_by in Hp. rewrite Hid, String.eqb_sym in Hp. by rewrite Hp in Hd.
    + eapply lease_held_frame, Hl. simpl. by rewrite lookup_insert_ne.
  - (* UpsertRefreshToken *)
    split; [|done]. unfold upsert_refresh_token_sql. destruct (registered_clients db !! _); [|exact Hl].
    split_bools. apply String.eqb_neq in Hd.
    eapply lease_held_frame, Hl. simpl. by rewrite lookup_insert_ne.
  - split_bools. apply String.eqb_neq in Hd. split; [by apply lease_held_rotate|done].
  - (* RotateClaimedRefreshToken *)
    split_bools. apply String.eqb_neq in Hd. split; [by apply lease_held_rotate|].
    unfold rotate_sql. destruct (select_row _ _ _) eqn:E; simpl; [|by rewrite orb_true_r].
    apply select_row_Some in E as [E Hp]. destruct (String.eqb_spec old_hash h) as [->|]; [|done].
    destruct (Hl _ E) as [Hid He]. unfold claimed_by in Hp. rewrite Hid, String.eqb_sym in Hp.
    split_bools. by rewrite H0.
  - (* RevokeRefreshToken *)
    split; [|done]. eapply lease_held_frame, Hl. simpl. intros r. rewrite lookup_delete_Some. naive_solver.
  - (* InvalidateGoogle *)
    split; [|done]. unfold invalidate_google_provider_credential_sql.
    destruct (select_row _ _ _); [|exact Hl].
    eapply lease_held_frame, Hl. simpl. intros r Hr. by apply delete_where_Some in Hr as [? _].
Qed.

(** The refresh lease excludes: once a claim of the token stored under
    [h] succeeded for [id] with a lease until [e], then whatever operations
    follow while the lease lasts, every other claim of the token finds
    nothing and no other claim identifier can rotate it. *)
Theorem refresh_lease_exclusive h plaintext id e now row db db' ops :
  exec (ClaimRefreshToken h plaintext id e now) db = (Ok (Some row), db') →
  forallb (during_lease h id e) ops = true →
  forallb (respects_lease h id) (run_ops ops db').1 = true.
Proof.
  intros Hc. assert (Hl : lease_held h id e db').
  { unfold exec, claim_refresh_token_sql in Hc. destruct (select_row _ _ _) eqn:E; inv_ok.
    intros r. simpl. rewrite lookup_insert_eq. by intros [= <-]. }
  clear Hc. revert db' Hl. induction ops as [|op ops IH]; intros db1 Hl Hd; [done|].
  simpl in Hd. split_bools. destruct (exec_lease h id e op db1 Hl) as [Hl' Hr]; [done|].
  cbn [run_ops]. destruct (exec op db1) as [r db2]. specialize (IH db2 Hl').
  destruct (run_ops ops db2) as [evs db3]. cbn [fst snd forallb] in *. by rewrite Hr, IH.
Qed.

(** The token stored under [old] is unexpired and leased by [id], unexpired. *)
Definition rotatable (old id : string) (now : Z) (db : Db) : Prop :=
  ∃ s e, refresh_tokens db !! old = Some s ∧ sr_refresh_claim_id s = Some id ∧
    sr_refresh_claim_expires_at s = Some e ∧ (now < e)%Z ∧ (now < sr_expires_at s)%Z.

(** The [WHERE] clause of the rotation selects exactly such a row. *)
Lemma select_rotatable old id now db :
  is_Some (select_row (fun r => claimed_by r id && claim_live r now && live (sr_expires_at r) now) old (refresh_tokens db))
  ↔ rotatable old id now db.
Proof.
  unfold rotatable, claimed_by, claim_live, live. split.
  - intros [s (Hs & Hp)%select_row_Some]. split_bools. exists s.
    destruct (sr_refresh_claim_id s) as [c|] eqn:Ec; [|done].
    destruct (sr_refresh_claim_expires_at s) as [x|] eqn:Ex; [|done]. split_bools.
    exists x. repeat match goal with H : String.eqb _ _ = true |- _ => apply String.eqb_eq in H as -> end. done.
  - intros (s & e & Hs & Hid & He & Hle & Hlive). exists s. apply select_row_Some. split; [done|].
    rewrite Hid, He, String.eqb_refl, !bool_decide_true by done. done.
Qed.

(** Rotation by the lease holder, on every branch: the new token replaces
    the old one exactly when the holder's unexpired lease on the unexpired
    token is found, its hash is free and its client registered; without the
    lease the answer is "not found", with a taken hash or an unknown client it
    is an error, and in both cases nothing of the database changes. *)
Theorem rotate_claimed_atomic old id new row prt now db :
  match exec (RotateClaimedRefreshToken old id new row prt now) db with
  | (Ok (Some row'), db') =>
      row' = row ∧ rotatable old id now db ∧ is_Some (registered_clients db !! rt_client_id row) ∧
      refresh_tokens db' !! new = Some (stored_of_row row prt) ∧
      (old ≠ new → refresh_tokens db' !! old = None) ∧
      (∀ k, k ≠ old → k ≠ new → refresh_tokens db' !! k = refresh_tokens db !! k) ∧
      db' = set_refresh_tokens (fun _ => refresh_tokens db') db
  | (Ok None, db') => db' = db ∧ ¬ rotatable old id now db
  | (Err _, db') =>
      db' = db ∧ rotatable old id now db ∧
      (is_Some (delete old (refresh_tokens db) !! new) ∨ registered_clients db !! rt_client_id row = None)
  end.
Proof.
  pose proof (select_rotatable old id now db) as Hr. cbn [exec]. unfold rotate_claimed_refresh_token_sql.
  match goal with |- context [rotate_sql ?p ?o ?n ?t ?r ?d] => pose proof (rotate_sql_spec p o n t r d) as Hs;
    destruct (rotate_sql p o n t r d) as [[[row'|]|e] db'] end.
  - destruct Hs as (-> & Hs & Hc & _ & ->). split_and!; [done|by apply Hr|done| | | |done]; simpl.
    + apply lookup_insert_eq.
    + intros. rewrite lookup_insert_ne by done. apply lookup_delete_eq.
    + intros k ??. rewrite lookup_insert_ne, lookup_delete_ne by done. done.
  - destruct Hs as [-> Hs]. split; [done|]. rewrite <-Hr, Hs. by intros [? ?].
  - destruct Hs as (-> & Hs & Hor). split_and!; [done|by apply Hr|done].
Qed.

(** ** Generations of a provider credential *)

Definition generation_of (s : string) (db : Db) : option Z :=
  sg_generation <$> google_provider_credentials db !! s.

(** A write of the provider credential of [s]. *)
Definition writes_google (s : string) (ev : StoreEvent) : bool :=
  match ev_op ev with
  | UpsertGoogleProviderCredential s' _ _ _ => String.eqb s' s
  | UpsertGoogleBundle b _ => String.eqb (gb_subject b) s
  | _ => false
  end.

(** An invalidation of [s] that deleted its credential. *)
Definition invalidates (s : string) (ev : StoreEvent) : bool :=
  match ev with
  | mkEvent op r =>
      match op as o return result (store_resp o) AuthError → bool with
      | InvalidateGoogle s' _ => fun r =>
          String.eqb s' s && match r with Ok i => gi_invalidated i | Err _ => false end
      | _ => fun _ => false
      end r
  end.

Lemma exec_generation s g op db :
  generation_of s db = Some g →
  invalidates s (mkEvent op (exec op db).1) = false →
  generation_of s (exec op db).2
  = Some (g + (if writes_google s (mkEvent op (exec op db).1) then 1 else 0))%Z.
Proof.
  unfold generation_of, writes_google. intros Hg Hi.
  destruct op; cbn [ev_op invalidates exec] in *;
    unfold rotate_refresh_token_sql, rotate_claimed_refresh_token_sql, rotate_sql;
    try (exec_cases; rewrite Hg; f_equal; lia).
  - (* UpsertGoogleProviderCredential *)
    unfold upsert_google_provider_credential_sql. simpl. destruct (String.eqb_spec subject s) as [->|].
    + rewrite lookup_insert_eq. by destruct (google_provider_credentials db !! s); simpl in *; simplify_eq.
    + rewrite lookup_insert_ne by done. rewrite Hg. f_equal; lia.
  - (* AssociateGoogleProviderEmail *)
    unfold associate_google_provider_email_sql.
    destruct (google_provider_credentials db !! subject) eqn:E; simpl; [|rewrite Hg; f_equal; lia].
    destruct (decide (subject = s)) as [->|].
    + rewrite lookup_insert_eq. rewrite E in Hg. simpl in *. simplify_eq. f_equal; lia.
    + rewrite lookup_insert_ne by done. rewrite Hg. f_equal; lia.
  - (* UpsertGoogleBundle *)
    unfold upsert_google_provider_token_bundle_sql. simpl. destruct (String.eqb_spec (gb_subject b) s) as [->|].
    + rewrite lookup_insert_eq. by destruct (google_provider_credentials db !! s); simpl in *; simplify_eq.
    + rewrite lookup_insert_ne by done. rewrite Hg. f_equal; lia.
  - (* InvalidateGoogle *)
    unfold invalidate_google_provider_credential_sql in *.
    destruct (select_row _ _ _); simpl in *; [|rewrite Hg; f_equal; lia].
    rewrite andb_true_r in Hi. apply String.eqb_neq in Hi.
    rewrite lookup_delete_ne by done. rewrite Hg. f_equal; lia.
Qed.

Lemma run_ops_generation s g ops db :
  generation_of s db = Some g →
  count_events (invalidates s) (run_ops ops db).1 = 0 →
  generation_of s (run_ops ops db).2
  = Some (g + Z.of_nat (count_events (writes_google s) (run_ops ops db).1))%Z.
Proof.
  revert g db. induction ops as [|op ops IH]; intros g db Hg Hc.
  { simpl. rewrite Hg. f_equal. lia. }
  cbn [run_ops] in *. pose proof (exec_generation s g op db Hg) as Hs.
  destruct (exec op db) as [r db1]. cbn [fst snd] in *.
  destruct (run_ops ops db1) as [evs db2] eqn:E. cbn [fst snd count_events] in *.
  destruct (invalidates s _); [lia|]. specialize (IH _ _ (Hs eq_refl)). rewrite E in IH.
  cbn [fst snd] in IH. rewrite IH by done. f_equal. destruct (writes_google _ _); lia.
Qed.

(** Invalidation is generation-safe: a request that observed generation
    [g] of a subject's credential and asks to invalidate it after other
    requests wrote the credential deletes nothing, as long as the credential
    was not deleted in between; without such writes it deletes the credential
    and exactly the codes and refresh tokens of that subject. *)
Theorem invalidation_generation_safe s g ops db :
  generation_of s db = Some g →
  count_events (invalidates s) (run_ops ops db).1 = 0 →
  let db1 := (run_ops ops db).2 in
  let '(r, db2) := exec (InvalidateGoogle s g) db1 in
  if bool_decide (count_events (writes_google s) (run_ops ops db).1 = 0)
  then (gi_invalidated <$> ok r) = Some true ∧
       google_provider_credentials db2 = delete s (google_provider_credentials db1) ∧
       (∀ c row, authorization_codes db2 !! c = Some row ↔
                 authorization_codes db1 !! c = Some row ∧ ac_subject row ≠ s) ∧
       (∀ h row, refresh_tokens db2 !! h = Some row ↔
                 refresh_tokens db1 !! h = Some row ∧ sr_subject row ≠ s)
  else r = Ok no_invalidation ∧ db2 = db1.
Proof.
  intros Hg Hc. pose proof (run_ops_generation s g ops db Hg Hc) as Hgen.
  destruct (run_ops ops db) as [evs db1]. cbn [fst snd exec] in *.
  unfold generation_of in Hgen. destruct (google_provider_credentials db1 !! s) as [row|] eqn:E; [|done].
  simpl in Hgen. injection Hgen as Hrow.
  unfold invalidate_google_provider_credential_sql, select_row. rewrite E.
  case_bool_decide as H0; case_bool_decide as H1; try lia; [|done].
  simpl. split_and!; [done|done| |]; intros; rewrite delete_where_Some, String.eqb_neq; done.
Qed.

(** The generation restarts: a credential stored for a subject that has
    none gets generation 1, so an invalidation that observed generation 1 of
    a credential deleted earlier deletes the replacement as well. *)
Theorem generation_restarts s b now db :
  google_provider_credentials db !! s = None → gb_subject b = s →
  let db1 := (exec (UpsertGoogleBundle b now) db).2 in
  generation_of s db1 = Some 1%Z ∧
  (gi_invalidated <$> ok (exec (InvalidateGoogle s 1) db1).1) = Some true ∧
  google_provider_credentials (exec (InvalidateGoogle s 1) db1).2 !! s = None.
Proof.
  intros Hn Hb. cbn [exec]. unfold upsert_google_provider_token_bundle_sql, generation_of. rewrite Hb, Hn.
  cbn [snd]. unfold invalidate_google_provider_credential_sql, select_row. simpl.
  rewrite lookup_insert_eq. simpl. split_and!; [done|done|]. apply lookup_delete_eq.
Qed.

(** ** Replay cache of signed assertions *)

(** The clock readings of the replay cache stay before [e]. *)
Definition before_expiry (e : Z) (op : StoreOp) : bool :=
  match op with ConsumeAssertionJti _ _ _ now => bool_decide (now < e)%Z | _ => true end.

(** The event did not accept the assertion [(issuer, jti)]. *)
Definition not_accepted (issuer jti : string) (ev : StoreEvent) : bool :=
  match ev with
  | mkEvent op r =>
      match op as o return result (store_resp o) AuthError → bool with
      | ConsumeAssertionJti i j _ _ => fun r =>
          negb (String.eqb i issuer && String.eqb j jti)
          || match r with Ok fresh => negb fresh | Err _ => true end
      | _ => fun _ => true
      end r
  end.

Lemma exec_jti issuer jti e op db :
  assertion_jtis db !! (issuer, jti) = Some e → before_expiry e op = true →
  assertion_jtis (exec op db).2 !! (issuer, jti) = Some e ∧
  not_accepted issuer jti (mkEvent op (exec op db).1) = true.
Proof.
  intros Hj Hb. destruct op; cbn [not_accepted exec before_expiry] in *;
    unfold rotate_refresh_token_sql, rotate_claimed_refresh_token_sql, rotate_sql;
    try (split; [|reflexivity]; exec_cases; exact Hj).
  unfold consume_assertion_jti_sql. split_bools.
  assert (Hk : delete_where (fun _ e => bool_decide (e <= now)%Z) (assertion_jtis db) !! (issuer, jti) = Some e).
  { apply delete_where_Some. split; [done|]. apply bool_decide_eq_false. lia. }
  destruct (_ !! (issuer0, jti0)) eqn:E; simpl.
  - split; [done|apply orb_true_r].
  - rewrite lookup_insert_ne by congruence. split; [done|].
    destruct (String.eqb_spec issuer0 issuer) as [->|]; [|done].
    destruct (String.eqb_spec jti0 jti) as [->|]; [congruence|done].
Qed.

(** A signed assertion is accepted once: after an identifier was accepted
    with expiry [e], every later presentation of it before [e] is refused,
    whatever other operations run in between. *)
Theorem assertion_accepted_once issuer jti e now db db' ops :
  exec (ConsumeAssertionJti issuer jti e now) db = (Ok true, db') →
  forallb (before_expiry e) ops = true →
  forallb (not_accepted issuer jti) (run_ops ops db').1 = true.
Proof.
  intros Hc. assert (Hj : assertion_jtis db' !! (issuer, jti) = Some e).
  { unfold exec, consume_assertion_jti_sql in Hc.
    destruct (delete_where _ _ !! _); simplify_eq. simpl. apply lookup_insert_eq. }
  clear Hc. revert db' Hj. induction ops as [|op ops IH]; intros db1 Hj Hd; [done|].
  simpl in Hd. split_bools. destruct (exec_jti issuer jti e op db1 Hj) as [Hj' Hr]; [done|].
  cbn [run_ops]. destruct (exec op db1) as [r db2]. specialize (IH db2 Hj').
  destruct (run_ops ops db2) as [evs db3]. cbn [fst snd forallb] in *. by rewrite Hr, IH.
Qed.

End Leases.

(** ** Witnesses *)

#[local] Existing Instance sample_platform.

Definition sample_token : RefreshTokenRow :=
  mkRefreshTokenRow "plain" "client" "alice" "https://labby.example/mcp" "lab:read" None 0 1000.
Definition sample_bundle (rt : string) : GoogleBundle :=
  mkGoogleBundle "alice" None "google" "" "access" rt 10 20 None false false.
Definition sample_db : Db :=
  (run_ops [RegisterClient "client" "https://app.example/cb" 0;
            UpsertRefreshToken "h" sample_token None;
            UpsertGoogleBundle (sample_bundle "g1") 5] empty_db).2.

Lemma refresh_lease_exclusive_witness :
  let claimed := exec (ClaimRefreshToken "h" "plain" "id1" 30 10) sample_db in
  let ops := [ClaimRefreshToken "h" "plain" "id2" 40 15;
              RotateClaimedRefreshToken "h" "id2" "h2" sample_token None 15;
              ReleaseRefreshClaim "h" "id2";
              ClaimRefreshToken "h" "plain" "id3" 60 29] in
  forallb (respects_lease "h" "id1") (run_ops ops claimed.2).1 = true.
Proof.
  intros claimed ops. eapply (refresh_lease_exclusive "h" "plain" "id1" 30 10 _ sample_db).
  - vm_compute. reflexivity.
  - vm_compute. reflexivity.
Defined.

Lemma invalidation_generation_safe_witness :
  let db1 := (run_ops [UpsertGoogleBundle (sample_bundle "g2") 8] sample_db).2 in
  (exec (InvalidateGoogle "alice" 1) db1).1 = Ok no_invalidation.
Proof.
  intros db1. subst db1.
  pose proof (invalidation_generation_safe "alice" 1 [UpsertGoogleBundle (sample_bundle "g2") 8] sample_db
                ltac:(vm_compute; reflexivity) ltac:(vm_compute; reflexivity)) as Hw.
  cbn zeta in Hw. destruct (exec (InvalidateGoogle "alice" 1) _) as [r db2].
  rewrite bool_decide_false in Hw by (vm_compute; discriminate). exact (proj1 Hw).
Defined.

Lemma generation_restarts_witness :
  generation_of "alice" (exec (UpsertGoogleBundle (sample_bundle "g") 5) empty_db).2 = Some 1%Z.
Proof. exact (proj1 (generation_restarts "alice" (sample_bundle "g") 5 empty_db eq_refl eq_refl)). Defined.

Lemma assertion_accepted_once_witness :
  forallb (not_accepted "idp" "j1")
    (run_ops [ConsumeAssertionJti "idp" "j2" 90 30; ConsumeAssertionJti "idp" "j1" 100 99]
       (exec (ConsumeAssertionJti "idp" "j1" 100 10) empty_db).2).1 = true.
Proof.
  eapply (assertion_accepted_once "idp" "j1" 100 10 empty_db).
  - vm_compute. reflexivity.
  - vm_compute. reflexivity.
Defined.
