(* ===== verification/TokenLifecycle.v ===== *)
(** * TokenLifecycle: the life of one refresh token

    An abstract specification of what the store does with a refresh token,
    as an automaton over the events that concern it, and the proof that the
    SQL of [sqlite/tokens.rs] (with the sweeps of [sqlite.rs] and the
    invalidation of a provider credential) refines it: every sequence of store
    operations, seen from one token, is a run of the automaton. *)

From stdpp Require Import base list gmap strings.
From S2P Require Import Prelude RustStr AuthTypes SamplePlatform Store StoreProps.

(** ** The specification *)

(** A stored token may be leased, by a claim and until a time. *)
Inductive TokenState :=
| Absent
| Stored (lease : option (string * option Z)).

Inductive TokenAction :=
| Issue                                     (** stored, afresh or over itself *)
| Lease (claim : string) (until now : Z)
| Release (claim : string)
| Exchange (claim : string) (now : Z)       (** consumed by the lease holder *)
| Replace                                   (** consumed without a lease *)
| Renew                                     (** consumed and stored again under the same hash *)
| Remove                                    (** revoked *)
| Sweep                                     (** a bulk deletion that may include it *)
| Nothing.

(** Nobody holds the token at [now]. *)
Definition free_at (now : Z) (lease : option (string * option Z)) : Prop :=
  match lease with
  | None => True
  | Some (_, until) => ∃ e, until = Some e ∧ (e <= now)%Z
  end.

Inductive life : TokenState → TokenAction → TokenState → Prop :=
| life_issue : life Absent Issue (Stored None)
| life_reissue l : life (Stored l) Issue (Stored l)
| life_lease l claim until now : free_at now l → life (Stored l) (Lease claim until now) (Stored (Some (claim, Some until)))
| life_release claim until : life (Stored (Some (claim, until))) (Release claim) (Stored None)
| life_release_other s claim : (∀ until, s ≠ Stored (Some (claim, until))) → life s (Release claim) s
| life_exchange claim until now : (now < until)%Z → life (Stored (Some (claim, Some until))) (Exchange claim now) Absent
| life_replace l : life (Stored l) Replace Absent
| life_renew l : life (Stored l) Renew (Stored None)
| life_remove s : life s Remove Absent
| life_swept s : life s Sweep Absent
| life_spared s : life s Sweep s
| life_nothing s : life s Nothing s.

Inductive lives : TokenState → list TokenAction → TokenState → Prop :=
| lives_nil s : lives s [] s
| lives_cons s1 a s2 actions s3 : life s1 a s2 → lives s2 actions s3 → lives s1 (a :: actions) s3.

(** ** The view of one token *)

Definition lease_of (r : StoredRefreshToken) : option (string * option Z) :=
  match sr_refresh_claim_id r with Some c => Some (c, sr_refresh_claim_expires_at r) | None => None end.

Definition view (h : string) (db : Db) : TokenState :=
  match refresh_tokens db !! h with Some r => Stored (lease_of r) | None => Absent end.

(** The action an event is for the token stored under [h]. *)
Definition action_of `{Platform} (h : string) (ev : StoreEvent) : TokenAction :=
  match ev with
  | mkEvent op r =>
      match op as o return result (store_resp o) AuthError → TokenAction with
      | UpsertRefreshToken h' _ _ => fun r => if String.eqb h' h && is_ok r then Issue else Nothing
      | ClaimRefreshToken h' _ claim until now => fun r =>
          if String.eqb h' h && rotated r then Lease claim until now else Nothing
      | ReleaseRefreshClaim h' claim => fun r => if String.eqb h' h then Release claim else Nothing
      | RotateClaimedRefreshToken old claim new _ _ now => fun r =>
          if negb (rotated r) then Nothing
          else if String.eqb old h then if String.eqb new h then Renew else Exchange claim now
          else if String.eqb new h then Issue else Nothing
      | RotateRefreshToken old new _ _ _ => fun r =>
          if negb (rotated r) then Nothing
          else if String.eqb old h then if String.eqb new h then Renew else Replace
          else if String.eqb new h then Issue else Nothing
      | RevokeRefreshToken h' => fun _ => if String.eqb h' h then Remove else Nothing
      | DeleteExpired TRefreshTokens _ => fun _ => Sweep
      | InvalidateGoogle _ _ => fun _ => Sweep
      | _ => fun _ => Nothing
      end r
  end.

Section Refinement.
Context `{Platform}.

Lemma view_insert h k r db :
  view h (set_refresh_tokens (insert k r) db) = if String.eqb k h then Stored (lease_of r) else view h db.
Proof.
  unfold view. simpl. destruct (String.eqb_spec k h) as [->|]; [by rewrite lookup_insert_eq|by rewrite lookup_insert_ne].
Qed.

(** A bulk deletion removes the token or spares it. *)
Lemma view_sweep h p db db' :
  refresh_tokens db' = delete_where p (refresh_tokens db) → life (view h db) Sweep (view h db').
Proof.
  intros Hd. unfold view. rewrite Hd, lookup_delete_where.
  destruct (refresh_tokens db !! h) as [r|]; simpl; [destruct (p h r); constructor|constructor].
Qed.

(** Rotation, for the action its old row is consumed by. *)
Lemma view_rotate h p old new row prt db (consume : TokenAction) :
  (∀ r, refresh_tokens db !! old = Some r → p r = true → life (Stored (lease_of r)) consume Absent) →
  let '(r, db') := rotate_sql p old new row prt db in
  life (view h db)
    (if negb (rotated r) then Nothing
     else if String.eqb old h then if String.eqb new h then Renew else consume
     else if String.eqb new h then Issue else Nothing)
    (view h db').
Proof.
  intros Hp. pose proof (rotate_sql_spec p old new row prt db) as Hs.
  destruct (rotate_sql p old new row prt db) as [[[row'|]|e] db']; simpl in *;
    [|destruct Hs as [-> _]; constructor..].
  destruct Hs as (_ & [r Hr] & _ & Hnew & ->). apply select_row_Some in Hr as [Hr Hpr]. unfold view. simpl.
  destruct (String.eqb_spec old h) as [->|Ho], (String.eqb_spec new h) as [->|Hn].
  - rewrite lookup_insert_eq, Hr. constructor.
  - rewrite lookup_insert_ne, lookup_delete_eq, Hr by done. by apply Hp.
  - rewrite lookup_insert_eq. rewrite lookup_delete_ne in Hnew by done. rewrite Hnew. constructor.
  - rewrite lookup_insert_ne, lookup_delete_ne by done. constructor.
Qed.

Lemma life_claim h k plaintext id until now db :
  life (view h db) (action_of h (mkEvent (ClaimRefreshToken k plaintext id until now)
                                  (exec (ClaimRefreshToken k plaintext id until now) db).1))
       (view h (exec (ClaimRefreshToken k plaintext id until now) db).2).
Proof.
  cbn [exec action_of]. unfold claim_refresh_token_sql. destruct (select_row _ _ _) as [r|] eqn:E; simpl;
    [|rewrite andb_false_r; constructor].
  apply select_row_Some in E as [E Hp]. rewrite andb_true_r, view_insert.
  destruct (String.eqb_spec k h) as [->|]; [|constructor]. unfold view. rewrite E. constructor.
  split_bools. unfold free_at, lease_of. destruct (sr_refresh_claim_id r) as [c|]; [|done]. simpl in *.
  unfold claim_expired in *. destruct (sr_refresh_claim_expires_at r) as [e|]; [|done]. split_bools. eauto.
Qed.

Lemma life_release_claim h k id db :
  life (view h db) (action_of h (mkEvent (ReleaseRefreshClaim k id) (exec (ReleaseRefreshClaim k id) db).1))
       (view h (exec (ReleaseRefreshClaim k id) db).2).
Proof.
  cbn [exec action_of]. unfold release_refresh_claim_sql. destruct (select_row _ _ _) as [r|] eqn:E; simpl.
  - apply select_row_Some in E as [E Hc]. rewrite view_insert. destruct (String.eqb_spec k h) as [->|]; [|constructor].
    unfold view. rewrite E. unfold lease_of, claimed_by in *. simpl. destruct (sr_refresh_claim_id r) as [c|]; [|done].
    apply String.eqb_eq in Hc as ->. constructor.
  - destruct (String.eqb_spec k h) as [->|]; [|constructor]. apply life_release_other. intros u.
    unfold view. destruct (refresh_tokens db !! h) as [r|] eqn:Er; [|done].
    pose proof (proj1 (select_row_None _ _ _) E r Er) as Hc. unfold lease_of, claimed_by in *.
    destruct (sr_refresh_claim_id r) as [c|]; [|done]. intros [= -> _]. by rewrite String.eqb_refl in Hc.
Qed.

Lemma life_upsert h k row prt db :
  life (view h db) (action_of h (mkEvent (UpsertRefreshToken k row prt) (exec (UpsertRefreshToken k row prt) db).1))
       (view h (exec (UpsertRefreshToken k row prt) db).2).
Proof.
  cbn [exec action_of]. unfold upsert_refresh_token_sql. destruct (registered_clients db !! _); simpl;
    [|rewrite andb_false_r; constructor].
  rewrite andb_true_r, view_insert. destruct (String.eqb_spec k h) as [->|]; [|constructor].
  unfold view. destruct (refresh_tokens db !! h) as [old|]; [|constructor].
  replace (lease_of (set_claim _ _ _)) with (lease_of old) by done. constructor.
Qed.

(** Every statement is one action of the token. *)
Lemma exec_life h op db :
  life (view h db) (action_of h (mkEvent op (exec op db).1)) (view h (exec op db).2).
Proof.
  destruct op; try (apply life_claim || apply life_release_claim || apply life_upsert);
    try (cbn [action_of]; exec_cases; constructor).
  - (* DeleteExpired *) cbn [exec action_of]. unfold delete_expired_sql. destruct t; simpl; try constructor.
    by eapply view_sweep.
  - (* RotateRefreshToken *) cbn [exec action_of]. unfold rotate_refresh_token_sql.
    match goal with |- context [rotate_sql ?p ?o ?n ?t ?r ?d] =>
      pose proof (view_rotate h p o n t r d Replace) as Hv; destruct (rotate_sql p o n t r d) end.
    apply Hv. intros. constructor.
  - (* RotateClaimedRefreshToken *) cbn [exec action_of]. unfold rotate_claimed_refresh_token_sql.
    match goal with |- context [rotate_sql ?p ?o ?n ?t ?r ?d] =>
      pose proof (view_rotate h p o n t r d (Exchange claim_id now)) as Hv; destruct (rotate_sql p o n t r d) end.
    apply Hv. intros s Hr Hp. split_bools. unfold lease_of, claimed_by, claim_live in *.
    destruct (sr_refresh_claim_id s) as [c|]; [|done]. destruct (sr_refresh_claim_expires_at s) as [e|]; [|done].
    split_bools. repeat match goal with H : String.eqb _ _ = true |- _ => apply String.eqb_eq in H as -> end. by constructor.
  - (* RevokeRefreshToken *) cbn [exec action_of]. unfold revoke_refresh_token_sql, view. simpl.
    destruct (String.eqb_spec hash h) as [->|]; [rewrite lookup_delete_eq|rewrite lookup_delete_ne by done]; constructor.
  - (* InvalidateGoogle *) cbn [exec action_of]. unfold invalidate_google_provider_credential_sql.
    destruct (select_row _ _ _); simpl; [by eapply view_sweep|constructor].
Qed.

(** (C31) The store refines the life cycle: for every token and every sequence
    of store operations from any database, the events it produced, read as
    actions of that token, are a run of the automaton from the token's state
    before to its state after.  A token is only consumed by the holder of an
    unexpired lease (or by the unleased rotation), leased only when nobody
    holds it, and once gone comes back only by being issued. *)
Theorem store_refines_lifecycle h ops db :
  lives (view h db) (action_of h <$> (run_ops ops db).1) (view h (run_ops ops db).2).
Proof.
  revert db. induction ops as [|op ops IH]; intros db; cbn [run_ops]; [constructor|].
  pose proof (exec_life h op db) as Hl. destruct (exec op db) as [r db1]. specialize (IH db1).
  destruct (run_ops ops db1) as [evs db2]. simpl in *. by econstructor.
Qed.

End Refinement.
