(* ===== verification/StoreWf.v ===== *)
(** * StoreWf: the database invariant

    What the schema of [sqlite.rs] promises of the stored rows: each row sits
    under its own primary key, every refresh token belongs to a registered
    client (the schema's only foreign key), the allowlist has no duplicate
    address, and a stored provider credential has a positive generation.
    Every operation preserves it, so it holds of every database the server can
    reach, under any interleaving. *)

From stdpp Require Import base list gmap strings.
From S2P Require Import Prelude RustStr AuthTypes SamplePlatform Store StoreProps.

(** Each row is stored under the key computed from it. *)
Definition keyed {K V} `{Countable K} (key : V → K) (t : gmap K V) : Prop :=
  map_Forall (fun k v => key v = k) t.

Section Keyed.
Context {K V : Type} `{Countable K} (key : V → K).
Implicit Types t : gmap K V.

Lemma keyed_empty : keyed key ∅.
Proof. apply map_Forall_empty. Qed.
Lemma keyed_insert v t : keyed key t → keyed key (<[key v := v]> t).
Proof. intros Ht. by apply map_Forall_insert_2. Qed.
Lemma keyed_delete k t : keyed key t → keyed key (delete k t).
Proof. apply map_Forall_delete. Qed.
Lemma delete_where_Forall (P : K → V → Prop) p t : map_Forall P t → map_Forall P (delete_where p t).
Proof. intros Ht k v Hv. apply delete_where_Some in Hv as [Hv _]. by apply Ht. Qed.
Lemma keyed_delete_where p t : keyed key t → keyed key (delete_where p t).
Proof. apply delete_where_Forall. Qed.
Lemma keyed_insert_new c v t t' : keyed key t → insert_new c (key v) v t = Ok t' → keyed key t'.
Proof. intros Ht [_ ->]%insert_new_Ok. by apply keyed_insert. Qed.
End Keyed.

#[export] Hint Resolve keyed_empty keyed_insert keyed_delete keyed_delete_where : labby.

(** Every refresh token references a registered client. *)
Definition fk_ok (clients : gmap string StoredClient) (tokens : gmap string StoredRefreshToken) : Prop :=
  map_Forall (fun _ r => is_Some (clients !! sr_client_id r)) tokens.

Record db_wf (db : Db) : Prop := {
  wf_requests : keyed ar_state (authorization_requests db);
  wf_codes : keyed ac_code (authorization_codes db);
  wf_tokens : fk_ok (registered_clients db) (refresh_tokens db);
  wf_google : map_Forall (fun _ g => (0 < sg_generation g)%Z) (google_provider_credentials db);
  wf_sessions : keyed bs_session_id (browser_sessions db);
  wf_logins : keyed bl_state (browser_login_states db);
  wf_native : keyed na_state (native_authorization_results db);
  wf_upstream : keyed (fun r => (uc_upstream_name r, uc_subject r)) (upstream_oauth_credentials db);
  wf_states : keyed (fun r : StoredUpstreamState => (us_upstream_name r.1, us_subject r.1, us_csrf_token r.1))
                (upstream_oauth_state db);
  wf_allowed : NoDup (au_email <$> allowed_users db);
}.

Section Wf.
Context `{Platform}.

Lemma empty_db_wf : db_wf empty_db.
Proof. split; simpl; eauto with labby; try apply map_Forall_empty. constructor. Qed.

Lemma fk_insert_client k c clients tokens :
  fk_ok clients tokens → fk_ok (<[k := c]> clients) tokens.
Proof.
  intros Hf h r Hr. specialize (Hf h r Hr). simpl in *.
  destruct (decide (k = sr_client_id r)) as [->|]; [rewrite lookup_insert_eq|rewrite lookup_insert_ne by done]; eauto.
Qed.

Lemma fk_insert_token h r clients tokens :
  is_Some (clients !! sr_client_id r) → fk_ok clients tokens → fk_ok clients (<[h := r]> tokens).
Proof. intros. by apply map_Forall_insert_2. Qed.

Lemma fk_rotate p old new row prt db :
  fk_ok (registered_clients db) (refresh_tokens db) →
  let db' := (rotate_sql p old new row prt db).2 in
  fk_ok (registered_clients db') (refresh_tokens db').
Proof.
  intros Hf. pose proof (rotate_sql_spec p old new row prt db) as Hs.
  destruct (rotate_sql p old new row prt db) as [[[row'|]|e] db']; simpl in *; [|by destruct Hs as [-> _]..].
  destruct Hs as (_ & _ & Hc & _ & ->). apply fk_insert_token; [done|]. by apply map_Forall_delete.
Qed.

Lemma rotate_sql_frame p old new row prt db :
  (rotate_sql p old new row prt db).2
  = set_refresh_tokens (fun _ => refresh_tokens (rotate_sql p old new row prt db).2) db.
Proof.
  pose proof (rotate_sql_spec p old new row prt db) as Hs.
  destruct (rotate_sql p old new row prt db) as [[[row'|]|e] db']; simpl in *;
    [destruct Hs as (_ & _ & _ & _ & ->)|destruct Hs as [-> _]..]; by destruct db.
Qed.

Lemma db_wf_set_refresh_tokens t db :
  db_wf db → fk_ok (registered_clients db) t → db_wf (set_refresh_tokens (fun _ => t) db).
Proof. intros [] Ht. by split. Qed.

Lemma google_insert_wf s g db :
  db_wf db → (0 < sg_generation g)%Z → db_wf (set_google_provider_credentials (insert s g) db).
Proof. intros [] Hg. split; simpl; try done. by apply map_Forall_insert_2. Qed.

Lemma google_generation_pos s g db :
  db_wf db → google_provider_credentials db !! s = Some g → (0 < sg_generation g)%Z.
Proof. intros Hw Hg. exact (wf_google db Hw s g Hg). Qed.

Lemma sweep_wf t now db : db_wf db → db_wf (delete_expired_sql t now db).2.
Proof.
  intros []; destruct t; split; simpl; try done; try by apply keyed_delete_where.
  by apply delete_where_Forall.
Qed.

Lemma allowed_wf email fp added_by created db :
  db_wf db → db_wf (add_allowed_user_sql email fp added_by created db).2.
Proof.
  intros Hw. unfold add_allowed_user_sql. destruct (existsb _ _) eqn:E; [done|].
  destruct Hw; split; simpl; try done. rewrite fmap_app. apply NoDup_app. split_and!; [done| |apply NoDup_singleton].
  intros x Hx ->%list_elem_of_singleton. apply list_elem_of_fmap in Hx as (r & Hr & Hin).
  apply not_true_iff_false in E. apply E, existsb_elem. exists r. by rewrite <- Hr, String.eqb_refl.
Qed.

Lemma state_client_wf u c i db :
  db_wf db → db_wf (set_upstream_oauth_state_client_id_sql u c i db).2.
Proof.
  intros []; split; simpl; try done. intros k r Hr.
  rewrite map_lookup_imap in Hr. destruct (upstream_oauth_state db !! k) eqn:E; simplify_eq/=.
  specialize (wf_states0 k _ E). by destruct (_ && _).
Qed.

Lemma google_upsert_wf s e rt now db :
  db_wf db → db_wf (upsert_google_provider_credential_sql s e rt now db).2.
Proof.
  intros Hw. apply google_insert_wf; [done|].
  destruct (google_provider_credentials db !! s) eqn:E; simpl; [|lia].
  pose proof (google_generation_pos _ _ _ Hw E). lia.
Qed.

Lemma google_bundle_wf b now db :
  db_wf db → db_wf (upsert_google_provider_token_bundle_sql b now db).2.
Proof.
  intros Hw. apply google_insert_wf; [done|].
  destruct (google_provider_credentials db !! _) eqn:E; simpl; [|lia].
  pose proof (google_generation_pos _ _ _ Hw E). lia.
Qed.

Lemma google_email_wf s e now db :
  db_wf db → db_wf (associate_google_provider_email_sql s e now db).2.
Proof.
  intros Hw. unfold associate_google_provider_email_sql.
  destruct (google_provider_credentials db !! s) eqn:E; [|done].
  apply google_insert_wf; [done|]. simpl. by eapply google_generation_pos.
Qed.

Lemma invalidate_wf s g db : db_wf db → db_wf (invalidate_google_provider_credential_sql s g db).2.
Proof.
  intros Hw. unfold invalidate_google_provider_credential_sql. destruct (select_row _ _ _); [|done].
  destruct Hw; split; simpl; try done.
  - by apply keyed_delete_where.
  - by apply delete_where_Forall.
  - by apply map_Forall_delete.
Qed.

Lemma token_row_wf h r db :
  db_wf db → is_Some (registered_clients db !! sr_client_id r) →
  db_wf (set_refresh_tokens (insert h r) db).
Proof. intros [] Hr. split; simpl; try done. by apply fk_insert_token. Qed.

Lemma claim_wf h p c l now db : db_wf db → db_wf (claim_refresh_token_sql h p c l now db).2.
Proof.
  intros Hw. unfold claim_refresh_token_sql. destruct (select_row _ _ _) eqn:E; [|done].
  apply select_row_Some in E as [E _]. apply token_row_wf; [done|]. exact (wf_tokens _ Hw _ _ E).
Qed.

Lemma release_wf h c db : db_wf db → db_wf (release_refresh_claim_sql h c db).2.
Proof.
  intros Hw. unfold release_refresh_claim_sql. simpl. destruct (select_row _ _ _) eqn:E; [|done].
  apply select_row_Some in E as [E _]. apply token_row_wf; [done|]. exact (wf_tokens _ Hw _ _ E).
Qed.

Lemma upsert_token_wf h t p db : db_wf db → db_wf (upsert_refresh_token_sql h t p db).2.
Proof.
  intros Hw. unfold upsert_refresh_token_sql. destruct (registered_clients db !! _) eqn:E; [|done].
  apply token_row_wf; [done|]. destruct (refresh_tokens db !! h); simpl; rewrite E; eauto.
Qed.

Lemma rotate_wf p o n t r db : db_wf db → db_wf (rotate_sql p o n t r db).2.
Proof.
  intros Hw. rewrite rotate_sql_frame. apply db_wf_set_refresh_tokens; [done|].
  pose proof (fk_rotate p o n t r db (wf_tokens _ Hw)) as Hf. simpl in Hf.
  rewrite rotate_sql_frame in Hf at 1. done.
Qed.

(** One operation preserves the invariant. *)
Lemma exec_wf op db : db_wf db → db_wf (exec op db).2.
Proof.
  intros Hw. destruct op; cbn [exec];
    unfold rotate_refresh_token_sql, rotate_claimed_refresh_token_sql;
    auto using sweep_wf, allowed_wf, state_client_wf, google_upsert_wf, google_bundle_wf, google_email_wf,
      invalidate_wf, claim_wf, release_wf, upsert_token_wf, rotate_wf;
    try (exec_cases; first [exact Hw | destruct Hw; split; simpl; eauto using keyed_insert_new with labby]).
  - by apply fk_insert_client.
  - by apply (keyed_insert (fun r => (uc_upstream_name r, uc_subject r))).
  - eapply (keyed_insert_new (fun r : StoredUpstreamState =>
      (us_upstream_name r.1, us_subject r.1, us_csrf_token r.1)) _ (row, None)); eauto.
  - by apply NoDup_fmap_filter.
  - by apply map_Forall_delete.
Qed.

(** The schema's constraints are an invariant: every database reachable
    from a freshly created one by any sequence of operations keeps each row
    under its own key, each refresh token owned by a registered client, the
    allowlist free of duplicates and provider generations positive. *)
Theorem reachable_db_wf ops : db_wf (run_ops ops empty_db).2.
Proof.
  generalize empty_db_wf. generalize empty_db. induction ops as [|op ops IH]; intros db Hw; [done|].
  cbn [run_ops]. pose proof (exec_wf op db Hw) as Hw'. destruct (exec op db) as [r db1].
  specialize (IH db1 Hw'). by destruct (run_ops ops db1).
Qed.

End Wf.
