(* ===== verification/Migrations.v ===== *)
(** * Migrations: opening the store and upgrading its schema

    The schema part of [open_connection] ([labby-auth/src/sqlite.rs]) and
    [run_migrations] ([sqlite/migrations.rs]): the statements they send, their
    effect on the tables, columns and the stored version, and what is left when
    the process stops between two of them.  Statements that only read or change
    rows are modelled by the columns they need, which is what can make them
    fail; the rows themselves, the indexes and the file permissions are not
    modelled here; a transaction is one statement. *)

From Stdlib Require Import ZArith.
From stdpp Require Import base list gmap strings sets.
From S2P Require Import Prelude.

(** ** Schemas and statements *)

Record Schema := mkSchema { tables : gmap string (gset string); user_version : Z }.

Inductive Stmt :=
| CreateTableIfNotExists (table : string) (columns : list string)
| AddColumnIfMissing (table column : string)
| RebuildTable (table : string) (columns : list string)
| UseColumns (table : string) (columns : list string)
| SetVersion (version : Z).

#[export] Instance Stmt_eq_dec : EqDecision Stmt.
Proof. solve_decision. Defined.

(** The statements fail on a missing table; [SELECT], [UPDATE] and
    [INSERT .. SELECT] also on the columns they read. *)
Definition execute (s : Stmt) (db : Schema) : option Schema :=
  match s with
  | CreateTableIfNotExists t cs =>
      Some (if decide (is_Some (tables db !! t)) then db else mkSchema (<[t := list_to_set cs]> (tables db)) (user_version db))
  | AddColumnIfMissing t c =>
      match tables db !! t with
      | Some cs => Some (mkSchema (<[t := {[c]} ∪ cs]> (tables db)) (user_version db))
      | None => None
      end
  | RebuildTable t cs =>
      match tables db !! t with
      | Some old => if decide (list_to_set cs ⊆ old) then Some (mkSchema (<[t := list_to_set cs]> (tables db)) (user_version db)) else None
      | None => None
      end
  | UseColumns t cs =>
      match tables db !! t with
      | Some old => if decide (list_to_set cs ⊆ old) then Some db else None
      | None => None
      end
  | SetVersion v => Some (mkSchema (tables db) v)
  end.

(** Statements in order, until the first one that fails. *)
Fixpoint execute_all (l : list Stmt) (db : Schema) : option Schema :=
  match l with
  | [] => Some db
  | s :: l => match execute s db with Some db => execute_all l db | None => None end
  end.

(** ** The sources' statements *)

Definition SCHEMA_VERSION : Z := 8.

Definition refresh_token_columns : list string :=
  ["refresh_token_hash"; "client_id"; "subject"; "resource"; "scope"; "provider_refresh_token"; "created_at"; "expires_at"].
Definition google_columns : list string :=
  ["subject"; "email"; "client_id"; "granted_scopes_json"; "access_token"; "refresh_token"; "token_received_at";
   "access_token_expires_at"; "issuer"; "last_refresh_at"; "last_scope_upgrade_at"; "generation"; "created_at"; "updated_at"].

Definition create_tables : list Stmt :=
  [CreateTableIfNotExists "registered_clients" ["client_id"; "redirect_uris"; "created_at"];
   CreateTableIfNotExists "authorization_requests"
     ["state"; "client_id"; "redirect_uri"; "client_state"; "resource"; "scope"; "provider_code_verifier"; "code_challenge";
      "code_challenge_method"; "created_at"; "expires_at"];
   CreateTableIfNotExists "authorization_codes"
     ["code"; "client_id"; "subject"; "redirect_uri"; "resource"; "scope"; "code_challenge"; "code_challenge_method";
      "provider_refresh_token"; "created_at"; "expires_at"; "refresh_claim_id"; "refresh_claim_expires_at"];
   CreateTableIfNotExists "refresh_tokens" refresh_token_columns;
   CreateTableIfNotExists "google_provider_credentials" google_columns;
   CreateTableIfNotExists "assertion_jtis" ["issuer"; "jti"; "expires_at"];
   CreateTableIfNotExists "browser_sessions" ["session_id"; "subject"; "email"; "csrf_token"; "created_at"; "expires_at"];
   CreateTableIfNotExists "browser_login_states" ["state"; "return_to"; "provider_code_verifier"; "created_at"; "expires_at"];
   CreateTableIfNotExists "native_authorization_results" ["state"; "code"; "created_at"; "expires_at"];
   CreateTableIfNotExists "upstream_oauth_credentials"
     ["upstream_name"; "subject"; "client_id"; "granted_scopes_json"; "token_blob"; "token_blob_nonce"; "token_received_at";
      "access_token_expires_at"; "refresh_token_present"];
   CreateTableIfNotExists "upstream_oauth_state" ["upstream_name"; "subject"; "csrf_token"; "pkce_verifier"; "created_at"; "expires_at"];
   CreateTableIfNotExists "upstream_oauth_dynamic_clients" ["upstream_name"; "subject"; "client_id"; "created_at"];
   CreateTableIfNotExists "allowed_users" ["email"; "added_by"; "created_at"];
   AddColumnIfMissing "authorization_requests" "resource";
   AddColumnIfMissing "authorization_codes" "resource";
   AddColumnIfMissing "refresh_tokens" "resource"].

(** The block of one version.  The first one looks at the columns of
    [refresh_tokens]: the hashes are filled in, from the plaintext column, only
    when their column was just added. *)
Definition backfill : Stmt := UseColumns "refresh_tokens" ["refresh_token"; "refresh_token_hash"].
Definition step_1 (has_hash : bool) : list Stmt :=
  (if has_hash then [] else [AddColumnIfMissing "refresh_tokens" "refresh_token_hash"; backfill]) ++ [SetVersion 1].
Definition step_2 : list Stmt := [AddColumnIfMissing "upstream_oauth_state" "dynamic_client_id"; SetVersion 2].
Definition step_3 : list Stmt := [SetVersion 3].
Definition step_4 : list Stmt := [RebuildTable "refresh_tokens" refresh_token_columns; SetVersion SCHEMA_VERSION].
Definition step_5 : list Stmt := [CreateTableIfNotExists "assertion_jtis" ["issuer"; "jti"; "expires_at"]; SetVersion 5].
Definition step_6 : list Stmt :=
  [AddColumnIfMissing "refresh_tokens" "refresh_claim_id"; AddColumnIfMissing "refresh_tokens" "refresh_claim_expires_at"; SetVersion 6].
Definition step_7 : list Stmt :=
  [CreateTableIfNotExists "google_provider_credentials" ["subject"; "email"; "refresh_token"; "generation"; "created_at"; "updated_at"];
   UseColumns "refresh_tokens" ["subject"; "provider_refresh_token"; "created_at"];
   SetVersion 7].
Definition step_8 : list Stmt :=
  (AddColumnIfMissing "google_provider_credentials" <$>
    ["client_id"; "granted_scopes_json"; "access_token"; "token_received_at"; "access_token_expires_at"; "issuer"; "last_refresh_at";
     "last_scope_upgrade_at"]) ++ [SetVersion 8].

(** [current] is read once; each block runs when it is below its number. *)
Definition run_migrations (has_hash : bool) (current : Z) : list Stmt :=
  let below n (l : list Stmt) := if bool_decide (current < n)%Z then l else [] in
  below 1%Z (step_1 has_hash) ++ below 2%Z step_2 ++ below 3%Z step_3 ++ below 4%Z step_4 ++
  below 5%Z step_5 ++ below 6%Z step_6 ++ below 7%Z step_7 ++ below 8%Z step_8.

(** Whether [refresh_tokens] has the hash column, once the tables are there. *)
Definition has_hash (db : Schema) : bool :=
  match tables db !! "refresh_tokens" with Some cs => bool_decide ("refresh_token_hash" ∈ cs) | None => true end.

Definition open_connection (db : Schema) : list Stmt := create_tables ++ run_migrations (has_hash db) (user_version db).

(** Opening to the end, and opening that stops after [n] statements. *)
Definition opened (db : Schema) : option Schema := execute_all (open_connection db) db.
Definition stopped (n : nat) (db : Schema) : option Schema := execute_all (take n (open_connection db)) db.

(** A new file. *)
Definition empty_schema : Schema := mkSchema ∅ 0.

(** ** What a schema promises *)

Notation Fact := (string * string)%type.

(** A column that is there. *)
Definition has (db : Schema) (f : Fact) : Prop := ∃ cs, tables db !! f.1 = Some cs ∧ f.2 ∈ cs.
Definition holds (facts : list Fact) (db : Schema) : Prop := Forall (has db) facts.

(** The columns a table has had in every version of the program. *)
Definition base (t : string) : list string :=
  if decide (t = "registered_clients") then ["client_id"; "redirect_uris"; "created_at"]
  else if decide (t = "authorization_requests") then
    ["state"; "client_id"; "redirect_uri"; "client_state"; "scope"; "provider_code_verifier"; "code_challenge"; "code_challenge_method";
     "created_at"; "expires_at"]
  else if decide (t = "authorization_codes") then
    ["code"; "client_id"; "subject"; "redirect_uri"; "scope"; "code_challenge"; "code_challenge_method"; "provider_refresh_token";
     "created_at"; "expires_at"]
  else if decide (t = "refresh_tokens") then ["client_id"; "subject"; "scope"; "provider_refresh_token"; "created_at"; "expires_at"]
  else if decide (t = "google_provider_credentials") then
    ["subject"; "email"; "refresh_token"; "generation"; "created_at"; "updated_at"]
  else if decide (t = "assertion_jtis") then ["issuer"; "jti"; "expires_at"]
  else if decide (t = "browser_sessions") then ["session_id"; "subject"; "email"; "csrf_token"; "created_at"; "expires_at"]
  else if decide (t = "browser_login_states") then ["state"; "return_to"; "provider_code_verifier"; "created_at"; "expires_at"]
  else if decide (t = "native_authorization_results") then ["state"; "code"; "created_at"; "expires_at"]
  else if decide (t = "upstream_oauth_credentials") then
    ["upstream_name"; "subject"; "client_id"; "granted_scopes_json"; "token_blob"; "token_blob_nonce"; "token_received_at";
     "access_token_expires_at"; "refresh_token_present"]
  else if decide (t = "upstream_oauth_state") then ["upstream_name"; "subject"; "csrf_token"; "pkce_verifier"; "created_at"; "expires_at"]
  else if decide (t = "upstream_oauth_dynamic_clients") then ["upstream_name"; "subject"; "client_id"; "created_at"]
  else if decide (t = "allowed_users") then ["email"; "added_by"; "created_at"]
  else [].

Definition claim_facts : list Fact := [("refresh_tokens", "refresh_claim_id"); ("refresh_tokens", "refresh_claim_expires_at")].

(** What the stored version says has been done. *)
Definition promised (v : Z) : list Fact :=
  let since n (l : list Fact) := if bool_decide (n <= v)%Z then l else [] in
  since 1%Z [("refresh_tokens", "refresh_token_hash")] ++
  since 2%Z [("upstream_oauth_state", "dynamic_client_id")] ++
  since 6%Z claim_facts ++
  since 8%Z (pair "google_provider_credentials" <$>
    ["client_id"; "granted_scopes_json"; "access_token"; "token_received_at"; "access_token_expires_at"; "issuer"; "last_refresh_at";
     "last_scope_upgrade_at"]).

(** A database a past or present version left behind; before version 1 a
    refresh token is stored itself, or already by its hash. *)
Definition honest (db : Schema) : Prop :=
  (∀ t cs, tables db !! t = Some cs → Forall (.∈ cs) (base t)) ∧ holds (promised (user_version db)) db ∧
  ((user_version db < 1)%Z → has_hash db = false → has db ("refresh_tokens", "refresh_token")).

(** What the statements of the store read and write. *)
Definition required : list Fact :=
  (["registered_clients"; "authorization_requests"; "authorization_codes"; "refresh_tokens"; "google_provider_credentials";
    "assertion_jtis"; "browser_sessions"; "browser_login_states"; "native_authorization_results"; "upstream_oauth_credentials";
    "upstream_oauth_state"; "upstream_oauth_dynamic_clients"; "allowed_users"] ≫= fun t => pair t <$> base t) ++
  [("authorization_requests", "resource"); ("authorization_codes", "resource"); ("refresh_tokens", "resource")] ++
  promised SCHEMA_VERSION.

(** ** Following the statements on known columns *)

Definition knows_table (K : list Fact) (t : string) : bool := existsb (fun f => String.eqb f.1 t) K.
Definition covers (K : list Fact) (l : list Fact) : bool := forallb (fun f => bool_decide (f ∈ K)) l.

(** The columns known to be there, the tables known not to be, the version. *)
Notation Knowledge := (list Fact * list string * Z)%type.

Definition follow (s : Stmt) (kv : Knowledge) : option Knowledge :=
  let '(K, A, v) := kv in
  match s with
  | CreateTableIfNotExists t cs =>
      if forallb (fun c => bool_decide (c ∈ cs)) (base t)
      then Some ((pair t <$> (if bool_decide (t ∈ A) then cs else base t)) ++ K, List.filter (fun t' => negb (String.eqb t' t)) A, v)
      else None
  | AddColumnIfMissing t c => if knows_table K t then Some ((t, c) :: K, A, v) else None
  | RebuildTable t cs =>
      if knows_table K t && covers K (pair t <$> cs) && forallb (fun c => bool_decide (c ∈ cs)) (base t)
      then Some ((pair t <$> cs) ++ List.filter (fun f => negb (String.eqb f.1 t)) K, A, v) else None
  | UseColumns t cs => if knows_table K t && covers K (pair t <$> cs) then Some (K, A, v) else None
  | SetVersion v => Some (K, A, v)
  end.

Definition clamp (v : Z) : Z := Z.max 0 (Z.min 8 v).

(** What is known of a database, its version up to [clamp]. *)
Definition known (kv : Knowledge) (db : Schema) : Prop :=
  (∀ t cs, tables db !! t = Some cs → Forall (.∈ cs) (base t)) ∧ holds kv.1.1 db ∧
  (∀ t, t ∈ kv.1.2 → tables db !! t = None) ∧ clamp (user_version db) = clamp kv.2.

Lemma clamp_le n v : (1 <= n <= 8)%Z → bool_decide (n <= clamp v)%Z = bool_decide (n <= v)%Z.
Proof. intros Hn. apply bool_decide_ext. unfold clamp. lia. Qed.
Lemma clamp_lt n v : (1 <= n <= 8)%Z → bool_decide (clamp v < n)%Z = bool_decide (v < n)%Z.
Proof. intros Hn. apply bool_decide_ext. unfold clamp. lia. Qed.
Lemma promised_clamp v : promised v = promised (clamp v).
Proof. unfold promised. by rewrite !clamp_le by lia. Qed.
Lemma run_migrations_clamp h v : run_migrations h v = run_migrations h (clamp v).
Proof. unfold run_migrations. by rewrite !clamp_lt by lia. Qed.

Lemma covers_spec K l : covers K l = true ↔ ∀ f, f ∈ l → f ∈ K.
Proof. unfold covers. rewrite forallb_elem. by setoid_rewrite bool_decide_eq_true. Qed.
Lemma holds_covers K l db : holds K db → covers K l = true → holds l db.
Proof. unfold holds. rewrite covers_spec, !Forall_forall. auto. Qed.

Lemma knows_table_spec K t db : holds K db → knows_table K t = true → ∃ cs, tables db !! t = Some cs.
Proof.
  unfold holds, knows_table. rewrite Forall_forall, existsb_elem. intros Hh ([t' c] & Hf & Ht).
  apply String.eqb_eq in Ht. simpl in Ht. subst t'. destruct (Hh _ Hf) as (cs & Hcs & _). by exists cs.
Qed.

(** Adding columns keeps what is known. *)
Lemma has_insert db t cs v f :
  (∀ old, tables db !! t = Some old → old ⊆ cs) → has db f → has (mkSchema (<[t := cs]> (tables db)) v) f.
Proof.
  intros Hs (old & Ho & Hf). destruct f as [t' c]. simpl in *. unfold has. simpl. destruct (decide (t = t')) as [<-|Hne].
  - exists cs. rewrite lookup_insert_eq. split; [done|]. by apply (Hs old Ho).
  - exists old. by rewrite lookup_insert_ne.
Qed.

(** One more table, or a changed one. *)
Lemma known_insert K A K' t cs db :
  known (K, A, user_version db) db → t ∉ A → Forall (.∈ cs) (base t) → K' ⊆ K →
  (∀ f, f ∈ K' → f.1 = t → f.2 ∈ cs) →
  known ((pair t <$> elements cs) ++ K', A, user_version db) (mkSchema (<[t := cs]> (tables db)) (user_version db)).
Proof.
  intros (Hb & Hh & Ha & Hv) Ht Hcs Hk Hold. split_and!; [| | |done]; cbn [fst snd tables].
  - intros t' cs'. rewrite lookup_insert_Some. intros [[<- <-]|[_ Hl]]; [done|by eapply Hb].
  - apply Forall_app. split.
    + apply Forall_fmap, Forall_forall. intros c Hc%elem_of_elements. exists cs. cbn. by rewrite lookup_insert_eq.
    + apply Forall_forall. intros [t' c] Hf. unfold has. cbn [fst snd tables]. destruct (decide (t = t')) as [<-|Hne].
      * exists cs. rewrite lookup_insert_eq. split; [done|]. by apply (Hold (t, c)).
      * unfold holds in Hh. rewrite Forall_forall in Hh. destruct (Hh (t', c)) as (cs' & Hl & Hc); [by apply Hk|].
        exists cs'. by rewrite lookup_insert_ne.
  - intros t' Ht'. rewrite lookup_insert_ne; [by apply Ha|]. by intros ->.
Qed.

Lemma known_sub K K' A v db : known (K, A, v) db → K' ⊆ K → known (K', A, v) db.
Proof.
  intros (Hb & Hh & Ha & Hv) Hk. split_and!; [done| |done..]. unfold holds in *. cbn [fst snd] in *.
  rewrite Forall_forall in *. auto.
Qed.

Lemma known_present K A v db t : known (K, A, v) db → is_Some (tables db !! t) → t ∉ A.
Proof. intros (_ & _ & Ha & _) [cs Hcs] Ht%Ha. congruence. Qed.

Lemma covers_columns K t cs old db :
  holds K db → covers K (pair t <$> cs) = true → tables db !! t = Some old → list_to_set cs ⊆ old.
Proof.
  intros Hh Hc Ho c Hin%elem_of_list_to_set. pose proof (holds_covers _ _ _ Hh Hc) as Hall. unfold holds in Hall.
  rewrite Forall_fmap, Forall_forall in Hall. destruct (Hall c Hin) as (cs' & Hl & Hin'). cbn in *. congruence.
Qed.

Lemma known_has K A v db t c old : known (K, A, v) db → (t, c) ∈ K → tables db !! t = Some old → c ∈ old.
Proof.
  intros (_ & Hh & _) Hin Ho. unfold holds in Hh. rewrite Forall_forall in Hh. destruct (Hh _ Hin) as (cs & Hl & Hc).
  cbn in *. congruence.
Qed.

Lemma known_version K A v v' db : known (K, A, v) db → clamp v = clamp v' → known (K, A, v') db.
Proof. intros (Hb & Hh & Ha & Hv) Hc. split_and!; [done..|]. cbn in *. congruence. Qed.

Lemma create_sound K A v t cs db :
  known (K, A, v) db → Forall (.∈ cs) (base t) →
  ∃ db', execute (CreateTableIfNotExists t cs) db = Some db' ∧
    known ((pair t <$> (if bool_decide (t ∈ A) then cs else base t)) ++ K, List.filter (fun t' => negb (String.eqb t' t)) A, v) db'.
Proof.
  intros Hk Hf. pose proof Hk as (Hb & Hh & Ha & Hv). cbn [fst snd] in *. cbn [execute].
  set (A' := List.filter (fun t' => negb (String.eqb t' t)) A).
  assert (HA : ∀ t', t' ∈ A' ↔ t' ≠ t ∧ t' ∈ A).
  { intros t'. unfold A'. rewrite elem_filter_b. destruct (String.eqb_spec t' t); naive_solver. }
  assert (Hk' : known (K, A', user_version db) db).
  { split_and!; [done|done| |done]. intros t' [_ Ht]%HA. by apply Ha. }
  case_decide as Hd; (eexists; split; [done|]).
  - destruct Hd as [old Ho]. rewrite bool_decide_false by by intros Ht%Ha; congruence.
    eapply known_version; [|exact Hv]. split_and!; [done| |apply Hk'|done]. apply Forall_app. split; [|done].
    apply Forall_fmap. eapply Forall_impl; [by eapply Hb|]. intros c Hc. by exists old.
  - apply eq_None_not_Some in Hd. eapply known_version; [|exact Hv].
    eapply known_sub; [apply (known_insert K A' K t (list_to_set cs) db Hk')|].
    + intros [? _]%HA. done.
    + eapply Forall_impl; [exact Hf|]. intros c. by rewrite elem_of_list_to_set.
    + done.
    + intros [t' c] Hin <-. unfold holds in Hh. rewrite Forall_forall in Hh. destruct (Hh _ Hin) as (cs' & Hl & _). cbn in *. congruence.
    + rewrite Forall_forall in Hf. intros f. rewrite !elem_of_app, !list_elem_of_fmap. intros [(c & -> & Hc)|Hin]; [left|by right].
      exists c. split; [done|]. apply elem_of_elements, elem_of_list_to_set. case_bool_decide; [done|by apply Hf].
Qed.

Lemma follow_sound s kv kv' db :
  known kv db → follow s kv = Some kv' → ∃ db', execute s db = Some db' ∧ known kv' db'.
Proof.
  destruct kv as [[K A] v]. intros Hk. pose proof Hk as (Hb & Hh & Ha & Hv). cbn [fst snd] in *.
  assert (Hkv : known (K, A, user_version db) db) by (by eapply known_version).
  destruct s as [t cs|t c|t cs|t cs|v']; cbn [follow].
  - destruct (forallb _ _) eqn:Ef; [|done]. intros [= <-]. rewrite forallb_elem in Ef. setoid_rewrite bool_decide_eq_true in Ef.
    apply create_sound; [done|by apply Forall_forall].
  - destruct (knows_table K t) eqn:Ek; [|done]. intros [= <-]. destruct (knows_table_spec _ _ _ Hh Ek) as [old Ho].
    cbn [execute]. rewrite Ho. eexists. split; [done|]. eapply known_version; [|exact Hv].
    eapply known_sub; [apply (known_insert K A K t ({[c]} ∪ old) db Hkv)|].
    + eapply known_present; eauto.
    + eapply Forall_impl; [by eapply Hb|]. set_solver.
    + done.
    + intros [t' c'] Hin <-. apply elem_of_union_r. by eapply known_has.
    + intros f [->|Hin]%elem_of_cons; apply elem_of_app; [left|by right]. apply list_elem_of_fmap. exists c.
      split; [done|]. apply elem_of_elements. set_solver.
  - destruct (knows_table K t) eqn:Ek; [|done]. destruct (covers _ _) eqn:Ec; [|done]. destruct (forallb _ _) eqn:Ef; [|done].
    intros [= <-]. destruct (knows_table_spec _ _ _ Hh Ek) as [old Ho]. cbn [execute]. rewrite Ho.
    rewrite forallb_elem in Ef. setoid_rewrite bool_decide_eq_true in Ef.
    rewrite decide_True by by eapply covers_columns. eexists. split; [done|]. eapply known_version; [|exact Hv].
    eapply known_sub; [apply (known_insert K A (List.filter (fun f => negb (String.eqb f.1 t)) K) t (list_to_set cs) db Hkv)|].
    + eapply known_present; eauto.
    + apply Forall_forall. intros c Hc. apply elem_of_list_to_set. by apply Ef.
    + intros f Hf. by apply elem_filter_b in Hf as [? _].
    + intros f. rewrite elem_filter_b. intros [_ Hne] Hf. by rewrite Hf, String.eqb_refl in Hne.
    + intros f. rewrite !elem_of_app, !list_elem_of_fmap. intros [(c & -> & Hc)|Hin]; [left|by right]. exists c.
      split; [done|]. by apply elem_of_elements, elem_of_list_to_set.
  - destruct (knows_table K t) eqn:Ek; [|done]. destruct (covers _ _) eqn:Ec; [|done]. intros [= <-].
    destruct (knows_table_spec _ _ _ Hh Ek) as [old Ho]. cbn [execute]. rewrite Ho.
    rewrite decide_True by by eapply covers_columns. by eexists.
  - intros [= <-]. eexists. split; [done|]. by split_and!.
Qed.

(** Every stop is fine, as far as [ok] tells from what is known there, and the
    end as far as [done_] tells. *)
Fixpoint audit (ok done_ : Knowledge → bool) (l : list Stmt) (kv : Knowledge) : bool :=
  ok kv && match l with [] => done_ kv | s :: l => match follow s kv with Some kv' => audit ok done_ l kv' | None => false end end.

Lemma audit_sound ok done_ l : ∀ n kv db,
  known kv db → audit ok done_ l kv = true →
  ∃ kv' db', execute_all (take n l) db = Some db' ∧ known kv' db' ∧ ok kv' = true ∧ (length l ≤ n → done_ kv' = true).
Proof.
  induction l as [|s l IH]; intros n kv db Hk; cbn [audit]; rewrite andb_true_iff; intros [Ho Ha].
  - exists kv, db. rewrite take_nil. by split_and!.
  - destruct n as [|n]; [exists kv, db; split_and!; [done|done|done|simpl; lia]|].
    destruct (follow s kv) as [kv1|] eqn:Ef; [|done]. destruct (follow_sound s kv kv1 db Hk Ef) as (db1 & Ee & Hk1).
    destruct (IH n kv1 db1 Hk1 Ha) as (kv' & db' & He & Hk' & Ho' & Hl). exists kv', db'. cbn [take execute_all]. rewrite Ee.
    split_and!; [done|done|done|]. intros Hn. apply Hl. simpl in Hn. lia.
Qed.

Definition hash_or_token (kv : Knowledge) : bool :=
  bool_decide (("refresh_tokens", "refresh_token_hash") ∈ kv.1.1) || bool_decide (("refresh_tokens", "refresh_token") ∈ kv.1.1)
  || bool_decide ("refresh_tokens" ∈ kv.1.2).
Definition promise_kept (kv : Knowledge) : bool := covers kv.1.1 (promised (clamp kv.2)) && hash_or_token kv.
Definition finished (kv : Knowledge) : bool := covers kv.1.1 required && bool_decide (clamp kv.2 = 8%Z) && promise_kept kv.

Lemma known_honest kv db : known kv db → promise_kept kv = true → honest db.
Proof.
  intros (Hb & Hh & Ha & Hv) [Hp Hq]%andb_true_iff. split_and!; [done| |].
  - rewrite promised_clamp, Hv. by eapply holds_covers.
  - intros _ Hn. unfold hash_or_token in Hq. unfold has_hash in Hn. unfold holds in Hh. rewrite Forall_forall in Hh.
    apply orb_true_iff in Hq as [Hq|Hq]; [apply orb_true_iff in Hq as [Hq|Hq]|]; apply bool_decide_eq_true in Hq.
    + destruct (Hh _ Hq) as (cs & Hcs & Hin). cbn in Hcs, Hin. rewrite Hcs in Hn. by apply bool_decide_eq_false in Hn.
    + by apply Hh.
    + rewrite (Ha _ Hq) in Hn. done.
Qed.

(** Where opening starts from. *)
Definition start (v : Z) (h : bool) (k : Knowledge) : Prop :=
  k = (promised v, [], v) ∧ (1 <= v)%Z
  ∨ v = 0%Z ∧ h = true ∧ (k = ([("refresh_tokens", "refresh_token_hash")], [], 0%Z) ∨ k = ([], ["refresh_tokens"], 0%Z))
  ∨ v = 0%Z ∧ h = false ∧ k = ([("refresh_tokens", "refresh_token")], [], 0%Z).

Lemma known_start db : honest db → ∃ k, start (clamp (user_version db)) (has_hash db) k ∧ known k db.
Proof.
  intros (Hb & Hh & Hr). destruct (decide (1 <= user_version db)%Z) as [Hge|Hlt].
  { exists (promised (clamp (user_version db)), [], clamp (user_version db)). split; [left; split; [done|unfold clamp; lia]|].
    split_and!; [done| |by intros t Ht%elem_of_nil|]; cbn [fst snd]; [by rewrite <- promised_clamp|unfold clamp; lia]. }
  assert (Hc : clamp (user_version db) = 0%Z) by (unfold clamp; lia). rewrite Hc.
  assert (Hk : ∀ K A, holds K db → (∀ t, t ∈ A → tables db !! t = None) → known (K, A, 0%Z) db) by (intros; by split_and!).
  destruct (has_hash db) eqn:Ehash.
  - unfold has_hash in Ehash. destruct (tables db !! "refresh_tokens") as [cs|] eqn:Et.
    + apply bool_decide_eq_true in Ehash. eexists. split; [right; left; split_and!; [done..|by left]|].
      apply Hk; [|by intros t Ht%elem_of_nil]. apply Forall_singleton. by exists cs.
    + eexists. split; [right; left; split_and!; [done..|by right]|].
      apply Hk; [constructor|]. by intros t ->%list_elem_of_singleton.
  - eexists. split; [right; right; by split_and!|]. apply Hk; [|by intros t Ht%elem_of_nil].
    apply Forall_singleton, Hr; [lia|done].
Qed.

(** The window of the fourth block: the version is written ahead. *)
Definition ahead_of_itself (kv : Knowledge) : bool := promise_kept kv || bool_decide (clamp kv.2 = 8%Z).

Definition plan (h : bool) (v : Z) : list Stmt := create_tables ++ run_migrations h v.

Lemma start_cases v h k :
  start v h k → v ∈ [0; 1; 2; 3; 4; 5; 6; 7; 8]%Z →
  (h, v, k) ∈ [(true, 0%Z, ([("refresh_tokens", "refresh_token_hash")], [], 0%Z)); (true, 0%Z, ([], ["refresh_tokens"], 0%Z));
               (false, 0%Z, ([("refresh_tokens", "refresh_token")], [], 0%Z))]
  ∨ v ≠ 0%Z ∧ k = (promised v, [], v).
Proof.
  intros [(-> & Hv)|[(-> & -> & [->| ->])|(-> & -> & ->)]] _; [right; split; [lia|done]|left; set_solver..].
Qed.

Lemma audits :
  (∀ v h k, start v h k → v ∈ [0; 1; 2; 3]%Z → audit ahead_of_itself finished (plan h v) k = true) ∧
  (∀ v h k, start v h k → v ∈ [4; 5; 6; 7; 8]%Z → audit promise_kept finished (plan h v) k = true).
Proof.
  split; intros v h k Hs Hv; rewrite !elem_of_cons, elem_of_nil in Hv;
    (apply start_cases in Hs as [Hs|[Hne ->]]; [rewrite !elem_of_cons, elem_of_nil in Hs; repeat destruct Hs as [[= -> -> ->]|Hs]
      |destruct h; repeat (destruct Hv as [->|Hv])|rewrite !elem_of_cons; lia]);
    try (exfalso; (done || lia)); vm_compute; reflexivity.
Qed.

Lemma clamp_cases v : clamp v ∈ [0; 1; 2; 3]%Z ∧ (v < 4)%Z ∨ clamp v ∈ [4; 5; 6; 7; 8]%Z ∧ (4 <= v)%Z.
Proof.
  unfold clamp. rewrite !elem_of_cons, !elem_of_nil. destruct (decide (v < 4)%Z); [left|right]; split; lia.
Qed.

Lemma open_connection_clamp db : open_connection db = plan (has_hash db) (clamp (user_version db)).
Proof. unfold open_connection, plan. by rewrite run_migrations_clamp. Qed.

Lemma stops_and_end db n :
  honest db →
  ∃ db1, stopped n db = Some db1 ∧ (honest db1 ∨ (user_version db < 4 ∧ 8 <= user_version db1)%Z) ∧
    (length (open_connection db) ≤ n → holds required db1 ∧ honest db1 ∧ (8 <= user_version db1)%Z).
Proof.
  intros Hh. destruct (known_start db Hh) as (K & Hstart & Hk). unfold stopped.
  rewrite open_connection_clamp. destruct audits as [Hlow Hhigh].
  assert (∀ kv db1, known kv db1 → finished kv = true → holds required db1 ∧ honest db1 ∧ (8 <= user_version db1)%Z) as Hfin.
  { intros kv db1 Hkv Hf. unfold finished in Hf. split_bools. split_and!; [by eapply holds_covers; [apply Hkv|]|by eapply known_honest|].
    destruct Hkv as (_ & _ & _ & Hv). unfold clamp in *. lia. }
  destruct (clamp_cases (user_version db)) as [[Hc Hlt]|[Hc Hge]].
  - destruct (audit_sound _ _ _ n _ _ Hk (Hlow _ _ _ Hstart Hc)) as (kv & db1 & He & Hkv & Ho & Hd). exists db1. split_and!; [done| |eauto].
    unfold ahead_of_itself in Ho. apply orb_true_iff in Ho as [Ho|Ho]; [left; by eapply known_honest|right].
    apply bool_decide_eq_true in Ho. destruct Hkv as (_ & _ & _ & Hv). split; [done|]. unfold clamp in *. lia.
  - destruct (audit_sound _ _ _ n _ _ Hk (Hhigh _ _ _ Hstart Hc)) as (kv & db1 & He & Hkv & Ho & Hd). exists db1. split_and!; [done| |eauto].
    left. by eapply known_honest.
Qed.

Lemma opened_stopped db : opened db = stopped (length (open_connection db)) db.
Proof. unfold opened, stopped. by rewrite firstn_all. Qed.

Lemma open_finishes db :
  honest db → ∃ db', opened db = Some db' ∧ holds required db' ∧ honest db' ∧ (8 <= user_version db')%Z.
Proof.
  intros Hh. rewrite opened_stopped. destruct (stops_and_end db (length (open_connection db)) Hh) as (db' & He & _ & Hd).
  exists db'. split; [exact He|exact (Hd (Nat.le_refl _))].
Qed.

(** ** Theorems *)

(** (C32) Opening the store upgrades every earlier database: from any schema a
    past version left behind, all statements succeed and every table and
    column the store uses is there at the end; and wherever the process stops,
    the database is again one that opening upgrades, except for databases
    below version 4, where the version may by then have been written ahead of
    the changes it stands for. *)
Theorem opening_upgrades db n :
  honest db →
  (∃ db', opened db = Some db' ∧ holds required db' ∧ honest db' ∧ (SCHEMA_VERSION <= user_version db')%Z) ∧
  ∃ db1, stopped n db = Some db1 ∧
    ((∃ db', opened db1 = Some db' ∧ holds required db') ∨ (user_version db < 4 ∧ SCHEMA_VERSION <= user_version db1)%Z).
Proof.
  intros Hh. split; [exact (open_finishes db Hh)|]. destruct (stops_and_end db n Hh) as (db1 & He & Hor & _).
  exists db1. split; [exact He|]. destruct Hor as [Hok|Hw]; [left|right; exact Hw].
  destruct (open_finishes db1 Hok) as (db' & Ho & Hr & _). exists db'. split; [exact Ho|exact Hr].
Qed.

Lemma empty_honest : honest empty_schema.
Proof. split_and!; [by intros t cs|constructor|done]. Qed.

Lemma opening_upgrades_witness :
  (∃ db', opened empty_schema = Some db' ∧ holds required db' ∧ honest db' ∧ (SCHEMA_VERSION <= user_version db')%Z) ∧
  ∃ db1, stopped 20 empty_schema = Some db1 ∧
    ((∃ db', opened db1 = Some db' ∧ holds required db') ∨ (user_version empty_schema < 4 ∧ SCHEMA_VERSION <= user_version db1)%Z).
Proof. apply (opening_upgrades empty_schema 20 empty_honest). Defined.

(** The exception is real: the fourth block writes the final version 8, so a
    new database whose first opening stops right after it has no claim columns,
    and no later opening adds them. *)
Definition lacks_claims (db : Schema) : bool :=
  bool_decide (user_version db = 8%Z) &&
  match tables db !! "refresh_tokens" with Some cs => bool_decide ("refresh_claim_id" ∉ cs) | None => false end.
Definition reopened (n : nat) (db : option Schema) : option Schema := Nat.iter n (fun db => db ≫= opened) db.

Lemma version_written_ahead :
  (lacks_claims <$> stopped 22 empty_schema) = Some true ∧
  (lacks_claims <$> reopened 1 (stopped 22 empty_schema)) = Some true ∧
  (lacks_claims <$> reopened 2 (stopped 22 empty_schema)) = Some true.
Proof. split_and!; vm_compute; reflexivity. Qed.

(** The hashes are filled in only by the opening that adds their column: when
    it stops between the two, no later opening fills them in, and the fourth
    block drops the plaintext column they would be computed from. *)
Definition plaintext_schema : Schema :=
  mkSchema {["refresh_tokens" := list_to_set ("refresh_token" :: base "refresh_tokens")]} 0.

Lemma backfill_skipped :
  backfill ∈ open_connection plaintext_schema ∧
  ∃ db, stopped 17 plaintext_schema = Some db ∧ backfill ∉ open_connection db ∧
    RebuildTable "refresh_tokens" refresh_token_columns ∈ open_connection db.
Proof.
  split; [apply (bool_decide_unpack _); vm_compute; exact I|]. eexists. split; [vm_compute; reflexivity|].
  split; apply (bool_decide_unpack _); vm_compute; exact I.
Qed.
