(* ===== verification/ResourceRegistry.v ===== *)
(** * ResourceRegistry: protected resources and their leases

    [labby-auth/src/resource_registry.rs]: the scopes the configuration gives
    each protected resource, and the time-limited leases that add to them.  The
    registry sits behind an [RwLock], so each method is one atomic step on
    [ResourceRegistryInner]. *)

From Stdlib Require Import Ascii.
From stdpp Require Import base list gmap strings.
From S2P Require Import Prelude RustStr AuthTypes SamplePlatform BTree.

(** [Duration] and [SystemTime] as nanoseconds, the latter since the epoch. *)
Definition nanos_per_sec : Z := 1000000000.
Definition as_secs (d : Z) : Z := d / nanos_per_sec.
Definition subsec_nanos (d : Z) : Z := d mod nanos_per_sec.
Definition from_secs (s : Z) : Z := s * nanos_per_sec.

Definition MAX_RESOURCE_LEASE_TTL : Z := from_secs (24 * 3600).
Definition MAX_RESOURCE_LEASE_OWNER_LEN : Z := 128.

Record ResourceLease := mkResourceLease {
  rl_id : string;
  rl_resource : string;
  rl_scopes : list string;
  rl_expires_at_unix : Z;
}.

Record ResourceLeaseDiagnostic := mkResourceLeaseDiagnostic {
  rd_resource : string;
  rd_scopes : list string;
  rd_owner : string;
  rd_expires_at_unix : Z;
}.

Inductive ResourceRegistryError :=
| InvalidResource | InvalidScopes | InvalidTtl | InvalidOwner
| LeaseNotFound | RandomnessUnavailable | InvalidClock.

#[global] Instance ResourceRegistryError_eq_dec : EqDecision ResourceRegistryError.
Proof. solve_decision. Defined.

Record StoredLease := mkStoredLease {
  sl_resource : string;
  sl_scopes : list string;
  sl_owner : string;
  sl_expires_at_unix : Z;
}.

Record ResourceRegistryInner := mkInner {
  configured : gmap string (list string);
  leases : gmap string StoredLease;
}.

Definition new_registry : ResourceRegistryInner := mkInner ∅ ∅.

Section Registry.
Context `{Platform}.

(** ** Validation *)

Definition canonical_resource (resource : string) : result string ResourceRegistryError :=
  let trimmed := Str.trim resource in
  let canonical := default trimmed (Str.strip_suffix "/"%char trimmed) in
  match url_parse canonical with
  | Err _ => Err InvalidResource
  | Ok parsed =>
      if negb (String.eqb (url_scheme parsed) "https")
         || bool_decide (url_host_str parsed = None)
         || negb (Str.is_empty (url_username parsed))
         || negb (bool_decide (url_password parsed = None))
         || negb (bool_decide (url_query parsed = None))
         || negb (bool_decide (url_fragment parsed = None))
      then Err InvalidResource
      else Ok canonical
  end.

(** A byte of an RFC 6749 scope token. *)
Definition scope_byte (b : Ascii.ascii) : bool :=
  let n := Ascii.nat_of_ascii b in
  (n =? 33) || ((35 <=? n) && (n <=? 91)) || ((93 <=? n) && (n <=? 126)).

Fixpoint all_bytes (p : Ascii.ascii → bool) (s : string) : bool :=
  match s with EmptyString => true | String c r => p c && all_bytes p r end.

Definition valid_scope (scope : string) : bool :=
  negb (Str.is_empty scope) && all_bytes scope_byte scope.

Definition validated_scopes (scopes : list string) : result (list string) ResourceRegistryError :=
  let scopes := BTreeSet.from_iter (Str.trim <$> scopes) in
  if bool_decide (scopes = []) || existsb (fun s => negb (valid_scope s)) scopes
  then Err InvalidScopes else Ok scopes.

Definition validate_ttl (ttl : Z) : result unit ResourceRegistryError :=
  if bool_decide (ttl = 0%Z) || bool_decide (MAX_RESOURCE_LEASE_TTL < ttl)%Z
     || negb (bool_decide (subsec_nanos ttl = 0%Z))
  then Err InvalidTtl else Ok ().

Definition unix_seconds (now : Z) : result Z ResourceRegistryError :=
  if bool_decide (now < 0)%Z then Err InvalidClock else Ok (as_secs now).

(** [random_lease_id]: the 32 random bytes, or the failure to get them. *)
Definition random_lease_id (bytes : option string) : result string ResourceRegistryError :=
  match bytes with
  | None => Err RandomnessUnavailable
  | Some bytes => Ok (base64url_encode bytes)
  end.

(** ** Operations *)

Definition prune_locked (now_unix : Z) (inner : ResourceRegistryInner) : ResourceRegistryInner :=
  mkInner (configured inner)
    (filter (fun kv => (now_unix < sl_expires_at_unix kv.2)%Z) (leases inner)).

Definition set_leases (f : gmap string StoredLease → gmap string StoredLease)
    (inner : ResourceRegistryInner) : ResourceRegistryInner :=
  mkInner (configured inner) (f (leases inner)).

Definition public_lease (id : string) (lease : StoredLease) : ResourceLease :=
  mkResourceLease id (sl_resource lease) (sl_scopes lease) (sl_expires_at_unix lease).

Fixpoint collect_configured (resources : list (string * list string)) (acc : gmap string (list string)) :
  result (gmap string (list string)) ResourceRegistryError :=
  match resources with
  | [] => Ok acc
  | (resource, scopes) :: rest =>
      let? key := canonical_resource resource in
      let? value := validated_scopes scopes in
      collect_configured rest (<[key := value]> acc)
  end.

Definition replace_configured_resource_scopes (resources : list (string * list string))
    (inner : ResourceRegistryInner) : result unit ResourceRegistryError * ResourceRegistryInner :=
  match collect_configured resources ∅ with
  | Err e => (Err e, inner)
  | Ok c => (Ok (), mkInner c (leases inner))
  end.

Definition create_resource_lease_at (resource : string) (scopes : list string) (ttl : Z)
    (owner : string) (now : Z) (bytes : option string) (inner : ResourceRegistryInner) :
  result ResourceLease ResourceRegistryError * ResourceRegistryInner :=
  let checked :=
    let? _ := validate_ttl ttl in
    let? resource := canonical_resource resource in
    let? scopes := validated_scopes scopes in
    let owner := Str.trim owner in
    if Str.is_empty owner || bool_decide (MAX_RESOURCE_LEASE_OWNER_LEN < Str.len owner)%Z
    then Err InvalidOwner else
    let? now_unix := unix_seconds now in
    let? expires_at_unix := ok_or (u64_checked_add now_unix (as_secs ttl)) InvalidTtl in
    let? id := random_lease_id bytes in
    Ok (now_unix, id, mkStoredLease resource scopes owner expires_at_unix) in
  match checked with
  | Err e => (Err e, inner)
  | Ok (now_unix, id, stored) =>
      (Ok (public_lease id stored), set_leases (insert id stored) (prune_locked now_unix inner))
  end.

Definition renew_resource_lease_at (id : string) (ttl now : Z) (inner : ResourceRegistryInner) :
  result ResourceLease ResourceRegistryError * ResourceRegistryInner :=
  let checked :=
    let? _ := validate_ttl ttl in
    let? now_unix := unix_seconds now in
    let? expires_at_unix := ok_or (u64_checked_add now_unix (as_secs ttl)) InvalidTtl in
    Ok (now_unix, expires_at_unix) in
  match checked with
  | Err e => (Err e, inner)
  | Ok (now_unix, expires_at_unix) =>
      let inner := prune_locked now_unix inner in
      match leases inner !! id with
      | None => (Err LeaseNotFound, inner)
      | Some lease =>
          let lease := mkStoredLease (sl_resource lease) (sl_scopes lease) (sl_owner lease) expires_at_unix in
          (Ok (public_lease id lease), set_leases (insert id lease) inner)
      end
  end.

Definition release_resource_lease (id : string) (now : Z) (inner : ResourceRegistryInner) :
  result unit ResourceRegistryError * ResourceRegistryInner :=
  match unix_seconds now with
  | Err e => (Err e, inner)
  | Ok now =>
      let inner := prune_locked now inner in
      match leases inner !! id with
      | None => (Err LeaseNotFound, inner)
      | Some _ => (Ok (), set_leases (delete id) inner)
      end
  end.

Definition prune_expired_resource_leases (now : Z) (inner : ResourceRegistryInner) : Z * ResourceRegistryInner :=
  match unix_seconds now with
  | Err _ => (0%Z, inner)
  | Ok now_unix =>
      let inner' := prune_locked now_unix inner in
      ((Z.of_nat (size (leases inner)) - Z.of_nat (size (leases inner')))%Z, inner')
  end.

(** The scopes of [scopes.extend(..)] over the leases of one resource. *)
Definition lease_scopes (resource : string) (inner : ResourceRegistryInner) (init : list string) : list string :=
  foldl (fun acc kv => if String.eqb (sl_resource kv.2) resource
                       then BTreeSet.extend acc (sl_scopes kv.2) else acc)
    init (btree_entries (leases inner)).

Definition effective_resource_scopes_at (resource : string) (now : Z) (inner : ResourceRegistryInner) :
  option (list string) * ResourceRegistryInner :=
  match canonical_resource resource, unix_seconds now with
  | Ok resource, Ok now_unix =>
      let inner := prune_locked now_unix inner in
      let scopes := lease_scopes resource inner (default [] (configured inner !! resource)) in
      (if bool_decide (scopes = []) then None else Some scopes, inner)
  | _, _ => (None, inner)
  end.

Definition lease_count (now : Z) (inner : ResourceRegistryInner) : Z * ResourceRegistryInner :=
  match unix_seconds now with
  | Err _ => (0%Z, inner)
  | Ok now => let inner := prune_locked now inner in (Z.of_nat (size (leases inner)), inner)
  end.

Definition lease_diagnostics (now : Z) (inner : ResourceRegistryInner) :
  list ResourceLeaseDiagnostic * ResourceRegistryInner :=
  match unix_seconds now with
  | Err _ => ([], inner)
  | Ok now =>
      let inner := prune_locked now inner in
      ((fun kv => mkResourceLeaseDiagnostic (sl_resource kv.2) (sl_scopes kv.2) (sl_owner kv.2)
                    (sl_expires_at_unix kv.2)) <$> btree_entries (leases inner), inner)
  end.

(** ** The contract: what a resource grants at a time *)

(** [scope] is granted on the canonical [resource] at second [t]: configured,
    or carried by a lease that has not expired. *)
Definition granted (inner : ResourceRegistryInner) (resource scope : string) (t : Z) : Prop :=
  scope ∈ default [] (configured inner !! resource) ∨
  ∃ id lease, leases inner !! id = Some lease ∧ sl_resource lease = resource ∧
              scope ∈ sl_scopes lease ∧ (t < sl_expires_at_unix lease)%Z.

(** Two registries no caller can tell apart from second [t] on. *)
Definition same_from (t : Z) (a b : ResourceRegistryInner) : Prop :=
  ∀ resource scope t', (t <= t')%Z → granted a resource scope t' ↔ granted b resource scope t'.

#[export] Instance same_from_equiv t : Equivalence (same_from t).
Proof.
  split; [done| |]; unfold same_from.
  - intros a b Hab r s t' Ht. symmetry. by apply Hab.
  - intros a b c Hab Hbc r s t' Ht. by rewrite (Hab r s t' Ht), (Hbc r s t' Ht).
Qed.

Lemma prune_lookup now inner id lease :
  leases (prune_locked now inner) !! id = Some lease ↔
  leases inner !! id = Some lease ∧ (now < sl_expires_at_unix lease)%Z.
Proof. unfold prune_locked. simpl. by rewrite map_lookup_filter_Some. Qed.

(** Pruning is unobservable from its own time on. *)
Lemma prune_same now inner : same_from now (prune_locked now inner) inner.
Proof.
  intros r s t Ht. unfold granted. split; (intros [Hc|(id & l & Hl & Hr & Hs & He)]; [by left|right; exists id, l]).
  - apply prune_lookup in Hl as [? _]. done.
  - split; [|done]. apply prune_lookup. split; [done|lia].
Qed.

#[export] Instance prune_proper now : Proper (same_from now ==> same_from now) (prune_locked now).
Proof. intros a b Hab. by rewrite !prune_same. Qed.

Lemma elem_lease_scopes resource inner init s :
  s ∈ lease_scopes resource inner init ↔
  s ∈ init ∨ ∃ id l, leases inner !! id = Some l ∧ sl_resource l = resource ∧ s ∈ sl_scopes l.
Proof.
  unfold lease_scopes. setoid_rewrite <- elem_btree_entries. generalize (btree_entries (leases inner)).
  intros es. revert init. induction es as [|[k l] es IH]; intros init; simpl.
  - split; [by left|]. intros [?|(? & ? & Hn & _)]; [done|]. by apply elem_of_nil in Hn.
  - rewrite IH. destruct (String.eqb_spec (sl_resource l) resource) as [He|He].
    + rewrite BTreeSet.elem_extend. split.
      * intros [[?|?]|(id & l' & ? & ?)]; [by left| |]; right.
        -- exists k, l. split; [by left|done].
        -- exists id, l'. split; [by right|done].
      * intros [?|(id & l' & Hin & Hr & Hs)]; [by left; left|].
        apply elem_of_cons in Hin as [[= -> ->]|Hin]; [by left; right|right; eauto].
    + split.
      * intros [?|(id & l' & ? & ?)]; [by left|right; exists id, l'; split; [by right|done]].
      * intros [?|(id & l' & Hin & Hr & Hs)]; [by left|right].
        apply elem_of_cons in Hin as [[= -> ->]|Hin]; [done|eauto].
Qed.

Lemma ordered_lease_scopes resource inner init :
  BTreeSet.ordered init → BTreeSet.ordered (lease_scopes resource inner init).
Proof.
  unfold lease_scopes. generalize (btree_entries (leases inner)). intros es.
  revert init. induction es as [|[k l] es IH]; intros init Hi; simpl; [done|].
  apply IH. destruct (String.eqb _ _); [by apply BTreeSet.ordered_extend|done].
Qed.

Lemma lease_scopes_prune resource now inner s :
  s ∈ lease_scopes resource (prune_locked now inner) (default [] (configured inner !! resource))
  ↔ granted inner resource s now.
Proof.
  rewrite elem_lease_scopes. unfold granted. setoid_rewrite prune_lookup. naive_solver.
Qed.

(** ** The registry's invariant *)

Lemma validated_scopes_Ok scopes l :
  validated_scopes scopes = Ok l →
  l ≠ [] ∧ BTreeSet.ordered l ∧ (∀ s, s ∈ l → valid_scope s = true) ∧ (∀ s, s ∈ l ↔ s ∈ Str.trim <$> scopes).
Proof.
  unfold validated_scopes. destruct (_ || _) eqn:E; [done|]. intros [= <-]. split_bools.
  split_and!; [done|apply BTreeSet.ordered_from_iter| |intros s; apply BTreeSet.elem_from_iter].
  intros s Hs. destruct (valid_scope s) eqn:Ev; [done|]. exfalso.
  apply not_true_iff_false in H1. apply H1, existsb_elem. exists s. by rewrite Ev.
Qed.

(** A lease as [create_resource_lease_at] builds it, seen at second [t]. *)
Definition lease_ok (t : Z) (l : StoredLease) : Prop :=
  (sl_expires_at_unix l <= t + 86400)%Z ∧ (sl_expires_at_unix l <= u64_max)%Z ∧
  sl_scopes l ≠ [] ∧ BTreeSet.ordered (sl_scopes l) ∧ (∀ s, s ∈ sl_scopes l → valid_scope s = true) ∧
  sl_owner l ≠ "" ∧ (Str.len (sl_owner l) <= MAX_RESOURCE_LEASE_OWNER_LEN)%Z ∧
  ∃ raw, canonical_resource raw = Ok (sl_resource l).

(** Invariant at second [t]: well-formed leases, non-empty configured sets. *)
Definition registry_wf (t : Z) (inner : ResourceRegistryInner) : Prop :=
  map_Forall (fun _ l => lease_ok t l) (leases inner) ∧
  map_Forall (fun r scopes => scopes ≠ [] ∧ BTreeSet.ordered scopes ∧
                (∀ s, s ∈ scopes → valid_scope s = true) ∧ ∃ raw, canonical_resource raw = Ok r)
    (configured inner).

Inductive RegistryOp :=
| ReplaceConfigured (resources : list (string * list string))
| CreateLease (resource : string) (scopes : list string) (ttl : Z) (owner : string) (now : Z) (bytes : option string)
| RenewLease (id : string) (ttl now : Z)
| ReleaseLease (id : string) (now : Z)
| PruneExpired (now : Z)
| EffectiveScopes (resource : string) (now : Z)
| LeaseCount (now : Z)
| LeaseDiagnostics (now : Z).

Definition registry_step (op : RegistryOp) (inner : ResourceRegistryInner) : ResourceRegistryInner :=
  match op with
  | ReplaceConfigured rs => (replace_configured_resource_scopes rs inner).2
  | CreateLease r s ttl o now b => (create_resource_lease_at r s ttl o now b inner).2
  | RenewLease id ttl now => (renew_resource_lease_at id ttl now inner).2
  | ReleaseLease id now => (release_resource_lease id now inner).2
  | PruneExpired now => (prune_expired_resource_leases now inner).2
  | EffectiveScopes r now => (effective_resource_scopes_at r now inner).2
  | LeaseCount now => (lease_count now inner).2
  | LeaseDiagnostics now => (lease_diagnostics now inner).2
  end.

(** The clock reading an operation makes. *)
Definition registry_now (op : RegistryOp) : option Z :=
  match op with
  | ReplaceConfigured _ => None
  | CreateLease _ _ _ _ now _ | RenewLease _ _ now | ReleaseLease _ now | PruneExpired now
  | EffectiveScopes _ now | LeaseCount now | LeaseDiagnostics now => Some now
  end.

Lemma lease_ok_mono t t' l : (t <= t')%Z → lease_ok t l → lease_ok t' l.
Proof. unfold lease_ok. naive_solver lia. Qed.

Lemma prune_wf t now inner : registry_wf t inner → registry_wf t (prune_locked now inner).
Proof.
  intros [Hl Hc]. split; [|done]. intros id l Hid. apply prune_lookup in Hid as [Hid _]. by apply (Hl id).
Qed.

Lemma set_leases_wf t f inner :
  registry_wf t inner → map_Forall (fun _ l => lease_ok t l) (f (leases inner)) →
  registry_wf t (set_leases f inner).
Proof. intros [_ Hc] Hf. by split. Qed.

Lemma validate_ttl_Ok ttl u : validate_ttl ttl = Ok u → (as_secs ttl <= 86400)%Z.
Proof.
  unfold validate_ttl, as_secs, MAX_RESOURCE_LEASE_TTL, from_secs, nanos_per_sec.
  destruct (_ || _) eqn:E; [done|]. split_bools. intros _.
  apply Z.div_le_upper_bound; lia.
Qed.

Lemma u64_checked_add_Some a b c : u64_checked_add a b = Some c ↔ c = (a + b)%Z ∧ (a + b <= u64_max)%Z.
Proof. unfold u64_checked_add. case_bool_decide; naive_solver. Qed.

Lemma unix_seconds_Ok now t : unix_seconds now = Ok t ↔ t = as_secs now ∧ (0 <= now)%Z.
Proof. unfold unix_seconds. case_bool_decide; split; try done; [lia|intros [= <-]; split; [done|lia]|by intros [-> _]]. Qed.

(** What a successful creation stores. *)
Lemma create_lease_Ok r scopes ttl owner now bytes inner lease inner' :
  create_resource_lease_at r scopes ttl owner now bytes inner = (Ok lease, inner') →
  ∃ stored, lease_ok (as_secs now) stored ∧ lease = public_lease (rl_id lease) stored ∧
    canonical_resource r = Ok (sl_resource stored) ∧ validated_scopes scopes = Ok (sl_scopes stored) ∧
    sl_expires_at_unix stored = (as_secs now + as_secs ttl)%Z ∧
    random_lease_id bytes = Ok (rl_id lease) ∧
    inner' = set_leases (insert (rl_id lease) stored) (prune_locked (as_secs now) inner).
Proof.
  unfold create_resource_lease_at.
  destruct (validate_ttl ttl) as [u|] eqn:Et; [|done].
  destruct (canonical_resource r) as [c|] eqn:Ec; [|done].
  destruct (validated_scopes scopes) as [l|] eqn:Es; [|done].
  destruct (_ || _) eqn:Eo; [done|]. split_bools.
  destruct (unix_seconds now) as [t|] eqn:En; [|done].
  destruct (u64_checked_add t (as_secs ttl)) as [x|] eqn:Ex; [|done]. simpl.
  destruct (random_lease_id bytes) as [id|] eqn:Ei; [|done].
  intros [= <- <-]. apply unix_seconds_Ok in En as [-> Hn]. apply u64_checked_add_Some in Ex as [-> Hx].
  apply validate_ttl_Ok in Et. pose proof (validated_scopes_Ok _ _ Es) as (? & ? & ? & ?).
  exists (mkStoredLease c l (Str.trim owner) (as_secs now + as_secs ttl)).
  unfold lease_ok. simpl. split_and!; eauto; try lia. by intros Hw; rewrite Hw in *.
Qed.

Lemma create_lease_Err r scopes ttl owner now bytes inner e inner' :
  create_resource_lease_at r scopes ttl owner now bytes inner = (Err e, inner') → inner' = inner.
Proof.
  unfold create_resource_lease_at.
  match goal with |- context [match ?c with Ok _ => _ | Err _ => _ end] => destruct c as [[[] ?]|] end;
    intros; by simplify_eq.
Qed.

Lemma renew_wf t id ttl now inner :
  (as_secs now <= t)%Z → registry_wf t inner → registry_wf t (renew_resource_lease_at id ttl now inner).2.
Proof.
  intros Ht Hw. unfold renew_resource_lease_at.
  destruct (validate_ttl ttl) eqn:Ev; [|done]. destruct (unix_seconds now) as [n|] eqn:En; [|done].
  destruct (u64_checked_add n (as_secs ttl)) as [x|] eqn:Ex; [|done]. cbn [ok_or].
  apply unix_seconds_Ok in En as [-> Hn]. apply u64_checked_add_Some in Ex as [-> Hx].
  apply validate_ttl_Ok in Ev. pose proof (prune_wf t (as_secs now) inner Hw) as Hp.
  destruct (leases (prune_locked _ _) !! id) as [l|] eqn:El; [|exact Hp].
  apply set_leases_wf; [exact Hp|]. apply map_Forall_insert_2; [|apply Hp].
  pose proof (proj1 Hp id l El) as Hl. unfold lease_ok in *. simpl. naive_solver lia.
Qed.

Lemma collect_configured_wf t rs acc m inner :
  registry_wf t (mkInner acc (leases inner)) → collect_configured rs acc = Ok m →
  registry_wf t (mkInner m (leases inner)).
Proof.
  revert acc. induction rs as [|[r scopes] rs IH]; intros acc Hw; simpl; [by intros [= <-]|].
  destruct (canonical_resource r) as [k|] eqn:Ec; [|done].
  destruct (validated_scopes scopes) as [v|] eqn:Es; [|done]. intros Hm. refine (IH _ _ Hm).
  destruct Hw as [Hl Hc]. split; [done|]. apply map_Forall_insert_2; [|done].
  apply validated_scopes_Ok in Es as (? & ? & ? & _). eauto.
Qed.

Lemma registry_step_wf t op inner :
  match registry_now op with Some now => (as_secs now <= t)%Z | None => True end →
  registry_wf t inner → registry_wf t (registry_step op inner).
Proof.
  destruct op; simpl; intros Ht Hw.
  - unfold replace_configured_resource_scopes. destruct (collect_configured _ _) eqn:E; [|done].
    eapply collect_configured_wf, E. split; [apply Hw|apply map_Forall_empty].
  - destruct (create_resource_lease_at _ _ _ _ _ _ _) as [[l|e] inner'] eqn:E; simpl;
      [|by apply create_lease_Err in E as ->].
    apply create_lease_Ok in E as (s & Hs & _ & _ & _ & _ & _ & ->).
    pose proof (prune_wf t (as_secs now) inner Hw) as Hp. apply set_leases_wf; [done|].
    apply map_Forall_insert_2; [by eapply lease_ok_mono|apply Hp].
  - by apply renew_wf.
  - unfold release_resource_lease. destruct (unix_seconds now); [|done].
    pose proof (prune_wf t a inner Hw) as Hp. destruct (_ !! id); simpl; [|done].
    apply set_leases_wf; [done|]. apply map_Forall_delete, Hp.
  - unfold prune_expired_resource_leases. destruct (unix_seconds now); [by apply prune_wf|done].
  - unfold effective_resource_scopes_at. destruct (canonical_resource resource), (unix_seconds now); try done.
    by apply prune_wf.
  - unfold lease_count. destruct (unix_seconds now); [by apply prune_wf|done].
  - unfold lease_diagnostics. destruct (unix_seconds now); [by apply prune_wf|done].
Qed.

Definition registry_run (ops : list RegistryOp) (inner : ResourceRegistryInner) : ResourceRegistryInner :=
  foldl (fun inner op => registry_step op inner) inner ops.

Lemma registry_run_wf t ops inner :
  registry_wf t inner →
  (∀ op now, op ∈ ops → registry_now op = Some now → (as_secs now <= t)%Z) →
  registry_wf t (registry_run ops inner).
Proof.
  revert inner. induction ops as [|op ops IH]; intros inner Hw Ht; simpl; [done|].
  apply IH; [|intros; eapply Ht; eauto; by right].
  apply registry_step_wf; [|done]. destruct (registry_now op) eqn:E; [|done].
  by apply (Ht op); [left|].
Qed.

(** The registry's invariant: after any sequence of registry calls whose
    clock readings do not exceed second [t], every lease stored has a
    canonical HTTPS resource, a non-empty sorted set of valid scopes, an owner
    of 1 to 128 bytes, and ends within 24 hours of [t]; configured resources
    are canonical with non-empty valid scopes. *)
Theorem registry_invariant t ops :
  (∀ op now, op ∈ ops → registry_now op = Some now → (as_secs now <= t)%Z) →
  registry_wf t (registry_run ops new_registry).
Proof. apply registry_run_wf. split; apply map_Forall_empty. Qed.

(** The scopes the registry reports for a resource are exactly the
    granted ones: the configured scopes and those of the leases that have not
    expired at the time of the call, sorted and without duplicates, [None]
    when there are none; and the pruning the call does is unobservable. *)
Theorem effective_scopes_exact raw resource now t inner :
  registry_wf t inner → canonical_resource raw = Ok resource → (0 <= now)%Z →
  let '(r, inner') := effective_resource_scopes_at raw now inner in
  same_from (as_secs now) inner' inner ∧
  match r with
  | Some l => l ≠ [] ∧ BTreeSet.ordered l ∧ ∀ s, s ∈ l ↔ granted inner resource s (as_secs now)
  | None => ∀ s, ¬ granted inner resource s (as_secs now)
  end.
Proof.
  intros [_ Hc] Hr Hn. unfold effective_resource_scopes_at. rewrite Hr, (proj2 (unix_seconds_Ok now _) (conj eq_refl Hn)).
  split; [apply prune_same|]. pose proof (fun s => lease_scopes_prune resource (as_secs now) inner s) as Hs.
  simpl in *. case_bool_decide as He.
  - intros s Hg. apply Hs in Hg. rewrite He in Hg. by apply elem_of_nil in Hg.
  - split_and!; [done| |done]. apply ordered_lease_scopes.
    destruct (configured inner !! resource) as [c|] eqn:E; [by apply (Hc resource c E)|constructor].
Qed.

(** A lease adds exactly its scopes for exactly its lifetime: after a
    successful creation under a fresh identifier, a scope is granted at a
    later second iff it already was, or it is one of the requested scopes of
    the canonical resource and the second is before now + ttl; a refused
    creation changes nothing. *)
Theorem create_lease_grants raw scopes ttl owner now bytes inner :
  (∀ id, random_lease_id bytes = Ok id → leases inner !! id = None) →
  let '(r, inner') := create_resource_lease_at raw scopes ttl owner now bytes inner in
  match r with
  | Err _ => inner' = inner
  | Ok lease =>
      ∀ resource s t, (as_secs now <= t)%Z →
        granted inner' resource s t ↔
        granted inner resource s t ∨
        (canonical_resource raw = Ok resource ∧ s ∈ Str.trim <$> scopes ∧ (t < as_secs now + as_secs ttl)%Z)
  end.
Proof.
  intros Hf. destruct (create_resource_lease_at _ _ _ _ _ _ _) as [[l|e] inner'] eqn:E;
    [|by apply create_lease_Err in E].
  apply create_lease_Ok in E as (st & _ & _ & Hc & Hs & He & Hid & ->).
  specialize (Hf _ Hid). apply validated_scopes_Ok in Hs as (_ & _ & _ & Hs).
  intros resource s t Ht. rewrite Hc, <- Hs, <- He. rewrite <- (prune_same (as_secs now) inner resource s t Ht).
  assert (Hp : leases (prune_locked (as_secs now) inner) !! rl_id l = None).
  { apply eq_None_not_Some. intros [x Hx]. apply prune_lookup in Hx as [Hx _]. congruence. }
  generalize dependent (prune_locked (as_secs now) inner). intros p Hp. unfold granted. simpl. split.
  - intros [?|(id & x & Hx & Hr & ?)]; [by left; left|].
    apply lookup_insert_Some in Hx as [[<- <-]|[? Hx]]; [right; by rewrite Hr|left; right; eauto].
  - intros [[?|(id & x & Hx & ?)]|([= Hr] & ? & ?)]; [by left| |]; right.
    + exists id, x. split; [|done]. rewrite lookup_insert_ne; [done|congruence].
    + exists (rl_id l), st. by rewrite lookup_insert_eq.
Qed.

End Registry.

(** ** Witnesses *)

#[local] Existing Instance sample_platform.

Definition sample_ops : list RegistryOp :=
  [ReplaceConfigured [("https://labby.example/mcp/", ["lab:read"])];
   CreateLease "https://labby.example/mcp" ["lab:write"; "lab:read"] (from_secs 60) "agent" (from_secs 100) (Some "id")].
Definition sample_registry : ResourceRegistryInner :=
  registry_run sample_ops new_registry.

Lemma registry_invariant_witness : registry_wf 100 sample_registry.
Proof.
  apply (registry_invariant 100 sample_ops). intros op now Hop Hnow.
  apply list_elem_of_In in Hop. destruct Hop as [<-|[<-|[]]]; [discriminate Hnow|].
  injection Hnow as <-. vm_compute. discriminate.
Defined.

Lemma effective_scopes_exact_witness :
  (effective_resource_scopes_at "https://labby.example/mcp" (from_secs 159) sample_registry).1
    = Some ["lab:read"; "lab:write"] ∧
  same_from 159 (effective_resource_scopes_at "https://labby.example/mcp" (from_secs 159) sample_registry).2
    sample_registry.
Proof.
  split; [vm_compute; reflexivity|].
  assert (Hw : registry_wf 100 sample_registry).
  { apply registry_run_wf; [split; apply map_Forall_empty|]. intros op now Hop Hnow.
    apply list_elem_of_In in Hop. destruct Hop as [<-|[<-|[]]]; [discriminate Hnow|].
    injection Hnow as <-. vm_compute. discriminate. }
  pose proof (effective_scopes_exact "https://labby.example/mcp" "https://labby.example/mcp"
                (from_secs 159) 100 sample_registry Hw eq_refl ltac:(vm_compute; discriminate)) as Ht.
  destruct (effective_resource_scopes_at _ _ _) as [r i]. exact (proj1 Ht).
Defined.

Lemma create_lease_grants_witness :
  let created := create_resource_lease_at "https://labby.example/mcp" ["lab:write"] (from_secs 60) "agent"
                   (from_secs 100) (Some "id") new_registry in
  granted created.2 "https://labby.example/mcp" "lab:write" 159 ∧
  ¬ granted created.2 "https://labby.example/mcp" "lab:write" 160.
Proof.
  pose proof (create_lease_grants "https://labby.example/mcp" ["lab:write"] (from_secs 60) "agent"
                (from_secs 100) (Some "id") new_registry (fun _ _ => eq_refl)) as Hg.
  assert (Hc : is_ok (create_resource_lease_at "https://labby.example/mcp" ["lab:write"] (from_secs 60) "agent"
                (from_secs 100) (Some "id") new_registry).1 = true) by (vm_compute; reflexivity).
  intros created. subst created.
  destruct (create_resource_lease_at _ _ _ _ _ _ _) as [[l|e] i]; [|discriminate Hc].
  split.
  - apply Hg; [vm_compute; discriminate|]. right. split_and!; [reflexivity|by left|vm_compute; reflexivity].
  - intros Hn. apply Hg in Hn; [|vm_compute; discriminate].
    destruct Hn as [[Hn|(id & x & Hx & _)]|(_ & _ & Hx)].
    + apply elem_of_nil in Hn. exact Hn.
    + discriminate Hx.
    + vm_compute in Hx. discriminate Hx.
Defined.
