(* ===== verification/Redirect.v ===== *)
(** * Redirect: which redirect URIs a client may register

    The pattern matcher and the redirect checks of
    [labby-auth/src/authorize.rs].  The greedy matcher [wildcard_matches] is
    proved equivalent to the declarative meaning of a glob, [glob]. *)

From Stdlib Require Import Ascii.
From stdpp Require Import base list strings.
From S2P Require Import Prelude RustStr AuthTypes SamplePlatform.

(** ** Wildcards *)

(** The loop over the non-empty parts.  [rest] is [value[cursor..]], and
    [anchored] is [index == 0 && anchored_start]. *)
Fixpoint wildcard_scan (anchored : bool) (parts : list string) (rest : string) : option string :=
  match parts with
  | [] => Some rest
  | part :: parts' =>
      if anchored then
        if Str.starts_with part rest
        then wildcard_scan false parts' (Str.drop (String.length part) rest) else None
      else
        match Str.find part rest with
        | Some found => wildcard_scan false parts' (Str.drop (found + String.length part) rest)
        | None => None
        end
  end.

Definition wildcard_matches (pattern value : string) : bool :=
  if String.eqb pattern "*" then true else
  let parts := Str.split "*" pattern in
  if length parts =? 1 then String.eqb pattern value else
  let anchored_start := negb (Str.starts_with "*" pattern) in
  let anchored_end := negb (Str.ends_with "*" pattern) in
  let non_empty_parts := List.filter (fun part => negb (Str.is_empty part)) parts in
  match non_empty_parts with
  | [] => true
  | _ =>
      match wildcard_scan anchored_start non_empty_parts value with
      | None => false
      | Some _ =>
          match last non_empty_parts with
          | Some last => if anchored_end then Str.ends_with last value else true
          | None => true
          end
      end
  end.

(** The meaning of a pattern: [*] stands for any string, every other byte for
    itself. *)
Inductive glob : string → string → Prop :=
| glob_nil : glob "" ""
| glob_star p u v : glob p v → glob (String "*" p) (u +:+ v)
| glob_char c p v : c ≠ "*"%char → glob p v → glob (String c p) (String c v).

(** [r] contains the strings [ps] in order, without overlap. *)
Fixpoint occurs_in_order (ps : list string) (r : string) : Prop :=
  match ps with
  | [] => True
  | p :: ps' => ∃ u w, r = u +:+ p +:+ w ∧ occurs_in_order ps' w
  end.

(** As [occurs_in_order], the last one ending [r]. *)
Fixpoint ends_in_order (ps : list string) (r : string) : Prop :=
  match ps with
  | [] => False
  | [p] => ∃ u, r = u +:+ p
  | p :: ps' => ∃ u w, r = u +:+ p +:+ w ∧ ends_in_order ps' w
  end.

(** The pieces of a pattern against a value: the first one starts it, the
    last one ends it. *)
Definition pieces_match (parts : list string) (v : string) : Prop :=
  match parts with
  | [] => False
  | [x] => v = x
  | x :: rest => ∃ w, v = x +:+ w ∧ ends_in_order rest w
  end.

Lemma occurs_in_order_app ps u r : occurs_in_order ps r → occurs_in_order ps (u +:+ r).
Proof.
  destruct ps as [|p ps]; simpl; [done|]. intros (x & w & -> & Hw).
  exists (u +:+ x), w. by rewrite Str.app_assoc.
Qed.

(** A star in front frees the first piece. *)
Lemma pieces_match_star parts v :
  parts ≠ [] → pieces_match ("" :: parts) v ↔ ∃ u w, v = u +:+ w ∧ pieces_match parts w.
Proof.
  intros Hp. destruct parts as [|x rest]; [done|]. simpl. split.
  - intros (w & -> & He). rewrite Str.app_nil_l. destruct rest as [|y rest].
    + destruct He as [u ->]. by exists u, x.
    + destruct He as (u & w' & -> & He). exists u, (x +:+ w'). eauto.
  - intros (u & w & -> & Hw). exists (u +:+ w). split; [done|]. destruct rest as [|y rest].
    + subst w. by exists u.
    + destruct Hw as (w' & -> & He). exists u, w'. done.
Qed.

Lemma glob_star_iff p v : glob (String "*" p) v ↔ ∃ u w, v = u +:+ w ∧ glob p w.
Proof.
  split; [|intros (u & w & -> & Hg); by constructor].
  inversion 1; subst; [eauto|done].
Qed.

Lemma glob_char_iff c p v : c ≠ "*"%char → glob (String c p) v ↔ ∃ v', v = String c v' ∧ glob p v'.
Proof.
  intros Hc. split; [|intros (v' & -> & Hg); by constructor].
  inversion 1; subst; [done|eauto].
Qed.

(** A glob is its pieces between the stars. *)
Lemma glob_pieces p v : glob p v ↔ pieces_match (Str.split "*" p) v.
Proof.
  revert v. induction p as [|c p IH]; intros v.
  { simpl. split; [by inversion 1|intros ->; constructor]. }
  cbn [Str.split]. destruct (Ascii.eqb_spec c "*") as [->|Hc].
  - rewrite glob_star_iff, (pieces_match_star _ _ (Str.split_nonempty _ _)).
    by setoid_rewrite IH.
  - rewrite (glob_char_iff _ _ _ Hc). setoid_rewrite IH.
    destruct (Str.split "*" p) as [|x [|y rest]] eqn:E; [by destruct (Str.split_nonempty _ _ E)| |]; simpl.
    + naive_solver.
    + split.
      * intros (v' & -> & w & -> & He). exists w. done.
      * intros (w & -> & He). exists (x +:+ w). eauto.
Qed.

(** Two decompositions of a string, the second one cutting later. *)
Lemma app_suffix a r z y :
  a +:+ r = z +:+ y → String.length y ≤ String.length r → ∃ u, r = u +:+ y.
Proof.
  revert z. induction a as [|c a IH]; intros z He Hl.
  - rewrite Str.app_nil_l in He. eauto.
  - destruct z as [|c' z].
    + rewrite Str.app_nil_l in He. rewrite <- He in Hl.
      rewrite Str.app_cons in Hl. simpl in Hl. rewrite Str.length_app in Hl. lia.
    + rewrite !Str.app_cons in He. injection He as _ He. by apply (IH z).
Qed.

Lemma scan_unanchored ps r : is_Some (wildcard_scan false ps r) ↔ occurs_in_order ps r.
Proof.
  revert r. induction ps as [|p ps IH]; intros r; simpl; [split; [done|by eexists]|].
  destruct (Str.find p r) as [n|] eqn:E.
  - apply Str.find_Some in E as Hx. destruct Hx as (x & y & -> & <-).
    rewrite <- Str.length_app, <- Str.app_assoc, Str.drop_app, IH. rewrite Str.app_assoc. split.
    + intros Hy. by exists x, y.
    + intros (u & w & Hr & Hw). pose proof (Str.find_least _ _ _ _ _ E Hr) as Hn.
      destruct (app_suffix (x +:+ p) y (u +:+ p) w) as [z ->]; [by rewrite !Str.app_assoc| |].
      * apply (f_equal String.length) in Hr. rewrite !Str.length_app in Hr. lia.
      * by apply occurs_in_order_app.
  - split; [by intros []|]. intros (u & w & Hr & _). destruct (Str.find_None _ _ _ _ E Hr).
Qed.

Notation non_empty := (List.filter (fun part => negb (Str.is_empty part))).

Lemma occurs_length ps y r :
  y ∈ ps → occurs_in_order ps r → String.length y ≤ String.length r.
Proof.
  revert r. induction ps as [|p ps IH]; intros r Hy; [by apply elem_of_nil in Hy|].
  intros (u & w & -> & Hw). rewrite !Str.length_app.
  apply elem_of_cons in Hy as [->|Hy]; [lia|]. specialize (IH w Hy Hw). lia.
Qed.

Lemma is_empty_spec s : Str.is_empty s = true ↔ s = "".
Proof. destruct s; done. Qed.

Lemma last_non_empty parts y : last parts = Some y → y ≠ "" → last (non_empty parts) = Some y.
Proof.
  induction parts as [|x parts IH]; [done|]. intros Hl Hy. cbn [List.filter].
  destruct parts as [|x' parts].
  - simpl in Hl. injection Hl as ->. by destruct y.
  - rewrite last_cons_cons in Hl. specialize (IH Hl Hy).
    destruct (negb _); [|done]. by rewrite last_cons, IH.
Qed.

Lemma elem_non_empty parts y : last parts = Some y → y ≠ "" → y ∈ non_empty parts.
Proof. intros Hl Hy. eapply last_Some_elem_of, last_non_empty; eauto. Qed.

Lemma occurs_suffix_app parts y x w :
  last parts = Some y → occurs_in_order (non_empty parts) w →
  (∃ u, x +:+ w = u +:+ y) → ∃ u, w = u +:+ y.
Proof.
  intros Hl Ho [u Hu]. destruct (decide (y = "")) as [->|Hy].
  - exists w. by rewrite Str.app_nil_r.
  - eapply app_suffix; [exact Hu|]. eapply occurs_length, Ho. by apply elem_non_empty.
Qed.

Lemma ends_in_order_iff parts y r :
  last parts = Some y →
  ends_in_order parts r ↔ occurs_in_order (non_empty parts) r ∧ ∃ u, r = u +:+ y.
Proof.
  revert r. induction parts as [|x parts IH]; intros r Hl; [done|].
  destruct parts as [|x' parts].
  { simpl in Hl. injection Hl as ->. simpl. destruct (Str.is_empty y) eqn:Ee; simpl; [naive_solver|].
    split; [|naive_solver]. intros [u ->]. split; [|by exists u]. exists u, "". by rewrite Str.app_nil_r. }
  rewrite last_cons_cons in Hl. change (ends_in_order (x :: x' :: parts) r) with
    (∃ u w, r = u +:+ x +:+ w ∧ ends_in_order (x' :: parts) w).
  setoid_rewrite (fun w => IH w Hl). cbn [List.filter]. set (rest := x' :: parts) in *.
  destruct (Str.is_empty x) eqn:Ee; cbn [negb].
  - apply is_empty_spec in Ee as ->. split.
    + intros (u & w & -> & Ho & u' & ->). rewrite Str.app_nil_l.
      split; [by apply occurs_in_order_app|]. exists (u +:+ u'). by rewrite Str.app_assoc.
    + intros [Ho Hs]. by exists "", r.
  - split.
    + intros (u & w & -> & Ho & u' & ->). split; [by exists u, (u' +:+ y)|].
      exists (u +:+ x +:+ u'). by rewrite !Str.app_assoc.
    + intros [(u & w & -> & Ho) Hs]. exists u, w. split_and!; [done|done|].
      eapply (occurs_suffix_app rest y (u +:+ x)); [done|done|]. by rewrite Str.app_assoc.
Qed.

Lemma ends_with_star p :
  Str.ends_with "*" p = true ↔ 2 ≤ length (Str.split "*" p) ∧ last (Str.split "*" p) = Some "".
Proof.
  induction p as [|c p IH]; [simpl; split; [done|intros [? _]; lia]|].
  cbn [Str.ends_with Str.split]. rewrite orb_true_iff, IH, String.eqb_eq.
  destruct (Str.split "*" p) as [|x rest] eqn:E; [by destruct (Str.split_nonempty _ _ E)|].
  destruct (Ascii.eqb_spec c "*") as [->|Hc].
  - simpl length. rewrite last_cons_cons. split.
    + intros [[= <-]|[? ?]]; [|split; [lia|done]]. simpl in E. injection E as <- <-. split; [simpl; lia|done].
    + intros [_ Hl]. destruct rest as [|y rest]; [|right; split; [simpl; lia|done]].
      left. simpl in Hl. injection Hl as ->. pose proof (Str.join_split "*" p) as Hj. rewrite E in Hj. by rewrite <- Hj.
  - simpl Str.cons_head. destruct rest as [|y rest]; simpl length; [split; [|lia]|rewrite !last_cons_cons].
    + intros [[= He _]|[? _]]; [by destruct Hc|lia].
    + split; [|by right]. intros [[= He _]|?]; [by destruct Hc|done].
Qed.

Lemma starts_with_star p x rest :
  Str.split "*" p = x :: rest → rest ≠ [] → Str.starts_with "*" p = Str.is_empty x.
Proof.
  destruct p as [|c p]; [intros [= <- <-]; done|]. cbn [Str.split Str.starts_with].
  destruct (Ascii.eqb_spec c "*") as [->|Hc]; [by intros [= <- _]|].
  destruct (Ascii.eqb_spec "*" c) as [<-|_]; [done|].
  destruct (Str.split "*" p); by intros [= <- _].
Qed.

(** What the matcher computes, on the pieces of the pattern. *)
Lemma scan_pieces x rest y v :
  last rest = Some y →
  (is_Some (wildcard_scan (negb (Str.is_empty x)) (non_empty (x :: rest)) v) ∧ ∃ u, v = u +:+ y)
  ↔ ∃ w, v = x +:+ w ∧ ends_in_order rest w.
Proof.
  intros Hl. setoid_rewrite (fun w => ends_in_order_iff rest y w Hl). cbn [List.filter].
  destruct (Str.is_empty x) eqn:Ee; cbn [negb].
  - apply is_empty_spec in Ee as ->. rewrite scan_unanchored. setoid_rewrite Str.app_nil_l.
    split; [intros Hv; by exists v|]. by intros (w & -> & Hw).
  - cbn [wildcard_scan]. destruct (Str.starts_with x v) eqn:Es.
    + apply Str.starts_with_spec in Es as [w ->]. rewrite Str.drop_app, scan_unanchored. split.
      * intros [Ho Hs]. exists w. split_and!; [done|done|]. by eapply occurs_suffix_app.
      * intros (w' & Hw & Ho & u & ->). apply Str.app_inj_l in Hw as ->. split; [done|].
        exists (x +:+ u). by rewrite Str.app_assoc.
    + split; [by intros [[? ?] _]|]. intros (w & -> & _).
      assert (Str.starts_with x (x +:+ w) = true) as Ht by (apply Str.starts_with_spec; by exists w). congruence.
Qed.

Lemma wildcard_exact pattern value : wildcard_matches pattern value = true ↔ glob pattern value.
Proof.
  rewrite glob_pieces. unfold wildcard_matches.
  destruct (String.eqb_spec pattern "*") as [->|Hstar].
  { split; [intros _|done]. exists value. split; [done|]. exists value. by rewrite Str.app_nil_r. }
  destruct (Str.split "*" pattern) as [|x rest] eqn:E; [by destruct (Str.split_nonempty _ _ E)|].
  pose proof (Str.join_split "*" pattern) as Hj. rewrite E in Hj.
  destruct rest as [|x' rest].
  { simpl in *. subst x. rewrite String.eqb_eq. naive_solver. }
  rewrite (starts_with_star _ _ _ E) by done.
  pose proof (ends_with_star pattern) as Hend. rewrite E in Hend.
  destruct (last (x' :: rest)) as [y|] eqn:El; [|by apply last_None in El].
  change (pieces_match (x :: x' :: rest) value) with
    (∃ w, value = x +:+ w ∧ ends_in_order (x' :: rest) w).
  rewrite <- (scan_pieces x (x' :: rest) y value El).
  assert (Hl : length (x :: x' :: rest) =? 1 = false) by done. rewrite Hl. clear Hl.
  assert (Hy : negb (Str.ends_with "*" pattern) = negb (Str.is_empty y)).
  { f_equal. rewrite last_cons_cons in Hend. rewrite El in Hend. apply eq_true_iff_eq. rewrite Hend, is_empty_spec.
    simpl length. split; [intros [_ [= ->]]; done|intros ->; split; [lia|done]]. }
  rewrite Hy. destruct (Str.is_empty y) eqn:Ey; cbn [negb].
  - apply is_empty_spec in Ey as ->.
    assert (Hs : (∃ u, value = u +:+ "") ↔ True).
    { split; [done|intros _; exists value; by rewrite Str.app_nil_r]. }
    rewrite Hs. destruct (non_empty (x :: x' :: rest)) as [|p ps] eqn:En.
    + split; [intros _; split; [|done]|done]. simpl. by eexists.
    + destruct (wildcard_scan _ _ _) as [z|]; [|split; [done|by intros [[? ?] _]]].
      destruct (last (p :: ps)); (split; [intros _; split; [by eexists|done]|done]).
  - assert (Hne : y ≠ "") by (intros ->; done).
    assert (Hlast : last (non_empty (x :: x' :: rest)) = Some y).
    { apply last_non_empty; [|done]. by rewrite last_cons_cons. }
    rewrite Hlast. destruct (non_empty (x :: x' :: rest)) as [|p ps]; [done|].
    destruct (wildcard_scan _ _ _).
    + rewrite Str.ends_with_spec. split; [intros Hu; split; [by eexists|done]|by intros [_ Hu]].
    + split; [done|]. by intros [[? ?] _].
Qed.

(** (C15) The redirect pattern matcher is exact: the greedy left-to-right scan
    of [wildcard_matches] accepts a value iff the value is an instance of the
    pattern in which each star is replaced by some string. *)
Theorem wildcard_matches_glob pattern value :
  wildcard_matches pattern value = true ↔ glob pattern value.
Proof. apply wildcard_exact. Qed.

(** ** Hosts *)

Definition label_matches (pc : string * string) : bool :=
  let '(pattern, candidate) := pc in
  String.eqb pattern "*" ||
  (negb (Str.contains "*" pattern) && Str.eq_ignore_ascii_case pattern candidate).

Definition host_pattern_matches (pattern_host candidate_host : string) : bool :=
  let pattern_labels := Str.split "." pattern_host in
  let candidate_labels := Str.split "." candidate_host in
  if negb (length pattern_labels =? length candidate_labels) then false
  else forallb label_matches (zip pattern_labels candidate_labels).

(** ** Redirect URIs *)

Section Redirects.
Context `{Platform}.

Definition is_loopback_redirect (value : string) : bool :=
  match url_parse value with
  | Err _ => false
  | Ok url =>
      if negb (String.eqb (url_scheme url) "http") then false
      else match url_host_str url with
           | Some h => String.eqb h "127.0.0.1" || String.eqb h "localhost" || String.eqb h "::1"
           | None => false
           end
  end.

Definition is_native_app_scheme_redirect (value : string) : bool :=
  match url_parse value with
  | Err _ => false
  | Ok url =>
      negb (existsb (String.eqb (url_scheme url))
              ["http"; "https"; "javascript"; "data"; "vbscript"; "file"])
  end.

Definition redirect_pattern_matches (pattern : string) (candidate : Url) : bool :=
  if String.eqb pattern "https://*" then
    String.eqb (url_scheme candidate) "https" && negb (bool_decide (url_host_str candidate = None))
  else
  match url_parse pattern with
  | Err _ => false
  | Ok pattern_url =>
      if negb (String.eqb (url_scheme pattern_url) (url_scheme candidate)) then false
      else
      match url_host_str pattern_url, url_host_str candidate with
      | Some pattern_host, Some candidate_host =>
          if negb (bool_decide (url_port_or_known_default pattern_url = url_port_or_known_default candidate))
          then false
          else if negb (host_pattern_matches pattern_host candidate_host) then false
          else if negb (wildcard_matches (url_path pattern_url) (url_path candidate)) then false
          else match url_query pattern_url, url_query candidate with
               | Some pattern_query, Some candidate_query => wildcard_matches pattern_query candidate_query
               | None, None => true
               | _, _ => false
               end
      | _, _ => wildcard_matches pattern (url_str candidate)
      end
  end.

Definition is_allowed_redirect_uri (value : string) (patterns : list string) : bool :=
  if is_loopback_redirect value || is_native_app_scheme_redirect value then true
  else match url_parse value with
       | Err _ => false
       | Ok candidate => existsb (fun pattern => redirect_pattern_matches pattern candidate) patterns
       end.

(** A pattern only ever matches URIs of its own scheme. *)
Lemma redirect_pattern_scheme pattern candidate :
  redirect_pattern_matches pattern candidate = true →
  (pattern = "https://*" ∧ url_scheme candidate = "https") ∨
  ∃ u, url_parse pattern = Ok u ∧ url_scheme u = url_scheme candidate.
Proof.
  unfold redirect_pattern_matches. destruct (String.eqb_spec pattern "https://*").
  - intros Hm. split_bools. left. split; [done|]. by apply String.eqb_eq.
  - destruct (url_parse pattern) as [u|]; [|done].
    destruct (String.eqb_spec (url_scheme u) (url_scheme candidate)); [|done]. intros _. right. eauto.
Qed.

(** An accepted redirect URI parses, and unless the operator configured a
    pattern of its own scheme it is either plain HTTP to a loopback host name
    or a private-use scheme: no HTTPS target, no HTTP target outside loopback
    and no [javascript:], [data:], [vbscript:] or [file:] URI is accepted
    without such a pattern. *)
Theorem allowed_redirect_safe value patterns :
  is_allowed_redirect_uri value patterns = true →
  ∃ u, url_parse value = Ok u ∧
    ((url_scheme u = "http" ∧ (url_host_str u = Some "127.0.0.1" ∨ url_host_str u = Some "localhost"
                               ∨ url_host_str u = Some "::1")) ∨
     url_scheme u ∉ ["http"; "https"; "javascript"; "data"; "vbscript"; "file"] ∨
     ∃ p, p ∈ patterns ∧ redirect_pattern_matches p u = true ∧
       ((p = "https://*" ∧ url_scheme u = "https") ∨
        ∃ pu, url_parse p = Ok pu ∧ url_scheme pu = url_scheme u)).
Proof.
  unfold is_allowed_redirect_uri, is_loopback_redirect, is_native_app_scheme_redirect.
  destruct (url_parse value) as [u|]; [|done]. intros Ha. exists u. split; [done|].
  destruct (String.eqb_spec (url_scheme u) "http") as [Hs|Hs]; cbn [negb] in Ha.
  - destruct (url_host_str u) as [h|] eqn:Eh.
    + destruct (String.eqb_spec h "127.0.0.1") as [->|]; [left; eauto|].
      destruct (String.eqb_spec h "localhost") as [->|]; [left; eauto|].
      destruct (String.eqb_spec h "::1") as [->|]; [left; eauto|].
      rewrite Hs in Ha. simpl in Ha. right; right. apply existsb_elem in Ha as (p & Hp & Hm).
      exists p. split_and!; [done|done|]. by apply redirect_pattern_scheme.
    + rewrite Hs in Ha. simpl in Ha. right; right. apply existsb_elem in Ha as (p & Hp & Hm).
      exists p. split_and!; [done|done|]. by apply redirect_pattern_scheme.
  - destruct (existsb _ _) eqn:Ex; simpl in Ha.
    + right; right. apply existsb_elem in Ha as (p & Hp & Hm).
      exists p. split_and!; [done|done|]. by apply redirect_pattern_scheme.
    + right; left. intros Hin. apply not_true_iff_false in Ex. apply Ex, existsb_elem.
      exists (url_scheme u). by rewrite String.eqb_refl.
Qed.

End Redirects.

Lemma lower_ascii_dot a : Str.lower_ascii a = "."%char ↔ a = "."%char.
Proof. destruct a as [[] [] [] [] [] [] [] []]; vm_compute; split; congruence. Qed.

Lemma eq_ignore_ascii_case_cons a b s t :
  Str.eq_ignore_ascii_case (String a s) (String b t) = true ↔
  Str.lower_ascii a = Str.lower_ascii b ∧ Str.eq_ignore_ascii_case s t = true.
Proof. unfold Str.eq_ignore_ascii_case. cbn [Str.to_ascii_lowercase]. rewrite !String.eqb_eq. split; [by intros [= -> ->]|by intros [-> ->]]. Qed.

(** Comparing label by label is comparing whole names. *)
Lemma labels_ignore_case d d' :
  Forall2 (fun a b => Str.eq_ignore_ascii_case a b = true) (Str.split "." d) (Str.split "." d')
  ↔ Str.eq_ignore_ascii_case d d' = true.
Proof.
  revert d'. induction d as [|a d IH]; intros [|b d']; cbn [Str.split].
  - split; [done|]. intros _. by repeat constructor.
  - split; [|done]. destruct (Ascii.eqb_spec b "."); intros Hf.
    + apply Forall2_cons in Hf as [_ Hf]. by destruct (Str.split "." d') eqn:E; [destruct (Str.split_nonempty _ _ E)|inversion Hf].
    + destruct (Str.split "." d'); inversion Hf; done.
  - split; [|done]. destruct (Ascii.eqb_spec a "."); intros Hf.
    + apply Forall2_cons in Hf as [_ Hf]. by destruct (Str.split "." d) eqn:E; [destruct (Str.split_nonempty _ _ E)|inversion Hf].
    + destruct (Str.split "." d); inversion Hf; done.
  - rewrite eq_ignore_ascii_case_cons, <- IH.
    destruct (Str.split "." d) as [|x l] eqn:E; [by destruct (Str.split_nonempty _ _ E)|].
    destruct (Str.split "." d') as [|x' l'] eqn:E'; [by destruct (Str.split_nonempty _ _ E')|].
    destruct (Ascii.eqb_spec a ".") as [->|Ha], (Ascii.eqb_spec b ".") as [->|Hb];
      cbn [Str.cons_head]; rewrite ?Forall2_cons.
    + split; [intros [_ ?]|intros [_ ?]]; done.
    + split; [intros [Hn _]; discriminate Hn|]. intros [Hn _].
      symmetry in Hn. by destruct Hb; apply lower_ascii_dot.
    + split; [intros [Hn _]|intros [Hn _]].
      * by destruct x'.
      * by destruct Ha; apply lower_ascii_dot.
    + rewrite eq_ignore_ascii_case_cons. tauto.
Qed.

Lemma split_no_dot s x rest : Str.split "." s = x :: rest → Str.contains "." x = false.
Proof.
  revert x rest. induction s as [|a s IH]; intros x rest; cbn [Str.split]; [by intros [= <- <-]|].
  destruct (Ascii.eqb_spec a ".") as [->|Ha]; [by intros [= <- _]|].
  destruct (Str.split "." s) as [|y l] eqn:E; [by destruct (Str.split_nonempty _ _ E)|].
  intros [= <- _]. apply not_true_iff_false. intros (u & v & Hc)%Str.contains_spec.
  destruct u as [|c u].
  - rewrite Str.app_nil_l, Str.app_cons in Hc. injection Hc as Hc _. done.
  - rewrite Str.app_cons in Hc. injection Hc as _ Hc. specialize (IH y l eq_refl).
    apply not_true_iff_false in IH. apply IH, Str.contains_spec. eauto.
Qed.

Lemma contains_cons_false c d : Str.contains "*" (String c d) = false → c ≠ "*"%char ∧ Str.contains "*" d = false.
Proof.
  intros Hc. apply not_true_iff_false in Hc. split.
  - intros ->. apply Hc, Str.contains_spec. by exists "", d.
  - apply not_true_iff_false. intros (u & v & ->)%Str.contains_spec. apply Hc, Str.contains_spec.
    by exists (String c u), v.
Qed.

Lemma split_no_star d : Str.contains "*" d = false → Forall (fun l => Str.contains "*" l = false) (Str.split "." d).
Proof.
  induction d as [|a d IH]; cbn [Str.split]; [by repeat constructor|].
  intros [Ha Hd]%contains_cons_false. specialize (IH Hd). destruct (Ascii.eqb_spec a "."); [by constructor|].
  destruct (Str.split "." d) as [|x l]; cbn [Str.cons_head]; [by repeat constructor; destruct a as [[] [] [] [] [] [] [] []]|].
  apply Forall_cons in IH as [Hx Hl]. constructor; [|done].
  apply not_true_iff_false. intros (u & v & Hc)%Str.contains_spec. destruct u as [|c u].
  - rewrite Str.app_nil_l, Str.app_cons in Hc. injection Hc as Hc _. done.
  - rewrite Str.app_cons in Hc. injection Hc as _ Hc. apply not_true_iff_false in Hx.
    apply Hx, Str.contains_spec. eauto.
Qed.

Lemma label_matches_no_star l l' :
  Str.contains "*" l = false → label_matches (l, l') = Str.eq_ignore_ascii_case l l'.
Proof.
  intros Hl. unfold label_matches. rewrite Hl. destruct (String.eqb_spec l "*") as [->|]; [done|].
  by rewrite andb_true_l.
Qed.

(** Zipped comparison of labels without a star. *)
Lemma labels_match_iff ls ls' :
  Forall (fun l => Str.contains "*" l = false) ls →
  (length ls = length ls' ∧ forallb label_matches (zip ls ls') = true) ↔
  Forall2 (fun a b => Str.eq_ignore_ascii_case a b = true) ls ls'.
Proof.
  intros Hn. revert ls'. induction Hn as [|l ls Hl Hn IH]; intros [|l' ls'];
    cbn [length zip_with forallb].
  - by split; [constructor|].
  - split; [by intros [? _]|by inversion 1].
  - split; [by intros [? _]|by inversion 1].
  - rewrite Forall2_cons, <- IH, andb_true_iff, <- (label_matches_no_star l l' Hl).
    split; [intros (Hlen & Ha & Hb)|intros (Ha & Hlen & Hb)]; split_and!; first [done|lia].
Qed.

Lemma split_label l d : Str.contains "." l = false → Str.split "." (l +:+ String "." d) = l :: Str.split "." d.
Proof.
  induction l as [|a l IH]; intros Hl; [done|]. rewrite Str.app_cons. cbn [Str.split].
  apply not_true_iff_false in Hl. destruct (Ascii.eqb_spec a ".") as [->|Ha].
  - destruct Hl. apply Str.contains_spec. by exists "", l.
  - rewrite IH; [done|]. apply not_true_iff_false. intros (u & v & ->)%Str.contains_spec.
    apply Hl, Str.contains_spec. by exists (String a u), v.
Qed.

(** A leading host wildcard stands for exactly one label: the pattern
    [*.d] matches a host iff the host is one dot-free label followed by a dot
    and a name equal to [d] up to ASCII case; neither [d] itself nor a deeper
    subdomain matches. *)
Theorem host_wildcard_one_label d candidate :
  Str.contains "*" d = false →
  host_pattern_matches ("*." +:+ d) candidate = true ↔
  ∃ l d', candidate = l +:+ "." +:+ d' ∧ Str.contains "." l = false ∧ Str.eq_ignore_ascii_case d d' = true.
Proof.
  intros Hd. unfold host_pattern_matches. rewrite !Str.app_cons, Str.app_nil_l.
  change (Str.split "." (String "*" (String "." d))) with ("*" :: Str.split "." d).
  setoid_rewrite <- labels_ignore_case. setoid_rewrite <- (labels_match_iff _ _ (split_no_star d Hd)).
  split.
  - destruct (Str.split "." candidate) as [|x rest] eqn:E; [by destruct (Str.split_nonempty _ _ E)|].
    cbn [length zip zip_with forallb]. change (label_matches ("*", x)) with true.
    destruct (Nat.eqb_spec (S (length (Str.split "." d))) (S (length rest))) as [Hlen|]; [|done].
    cbn [negb]. intros Hm. pose proof (Str.join_split "." candidate) as Hj. rewrite E in Hj.
    pose proof (split_no_dot _ _ _ E) as Hx. destruct rest as [|y rest].
    { destruct (Str.split "." d) eqn:Ed; [by destruct (Str.split_nonempty _ _ Ed)|done]. }
    set (d' := Str.join "." (y :: rest)). assert (Hc : candidate = x +:+ "." +:+ d') by (by rewrite <- Hj).
    exists x, d'. split; [done|]. split; [done|].
    rewrite Hc in E. change ("." +:+ d') with (String "." d') in E. rewrite (split_label _ _ Hx) in E.
    injection E as ->. split; [lia|done].
  - intros (l & d' & -> & Hl & Hlen & Hm). change ("." +:+ d') with (String "." d').
    rewrite (split_label _ _ Hl). cbn [length zip zip_with forallb]. change (label_matches ("*", l)) with true.
    by rewrite Hlen, Nat.eqb_refl.
Qed.

(** ** Witnesses *)

Lemma host_wildcard_one_label_witness : host_pattern_matches "*.example.com" "app.Example.com" = true.
Proof.
  apply (host_wildcard_one_label "example.com" "app.Example.com"); [vm_compute; reflexivity|].
  exists "app", "Example.com". split_and!; vm_compute; reflexivity.
Defined.

#[local] Existing Instance sample_platform.

Lemma allowed_redirect_safe_witness :
  ∃ u, url_parse "https://app.example.com/cb" = Ok u ∧
       redirect_pattern_matches "https://*.example.com/*" u = true.
Proof.
  destruct (allowed_redirect_safe "https://app.example.com/cb" ["https://*.example.com/*"]) as (u & Hu & Hs).
  - vm_compute. reflexivity.
  - exists u. split; [exact Hu|]. injection Hu as <-. vm_compute. reflexivity.
Defined.
