(* ===== verification/Ssrf.v ===== *)
(** * Ssrf: the preflight guard on externally supplied URLs

    [labby-primitives/src/ssrf.rs].  The octet and segment tests are proved
    equal to membership in the CIDR blocks they stand for. *)

From stdpp Require Import base list strings numbers.
From S2P Require Import Prelude RustStr AuthTypes SamplePlatform.
Local Open Scope Z_scope.

(** [SsrfError]; the text of an address rejection is a function of the two
    values its constructor carries. *)
Inductive SsrfError :=
| InvalidUrl (message : string)
| BlockedIp (context : string) (ip : IpAddr)
| BlockedHost (host : string).

Definition ssrf_kind (e : SsrfError) : string :=
  match e with InvalidUrl _ => "invalid_param" | BlockedIp _ _ | BlockedHost _ => "ssrf_blocked" end.

Definition PRIVATE_TLD_SUFFIXES : list string :=
  [".local"; ".internal"; ".lan"; ".intranet"; ".corp"; ".home"].

(** ** The standard library's address predicates *)

Definition is_private (ip : Ipv4Addr) : bool :=
  bool_decide (o0 ip = 10) || (bool_decide (o0 ip = 172) && bool_decide (16 <= o1 ip <= 31))
  || (bool_decide (o0 ip = 192) && bool_decide (o1 ip = 168)).
Definition is_loopback (ip : Ipv4Addr) : bool := bool_decide (o0 ip = 127).
Definition is_link_local (ip : Ipv4Addr) : bool := bool_decide (o0 ip = 169) && bool_decide (o1 ip = 254).
Definition is_unspecified (ip : Ipv4Addr) : bool := bool_decide (ip = V4 0 0 0 0).
Definition v6_is_loopback (ip : Ipv6Addr) : bool := bool_decide (ip = V6 0 0 0 0 0 0 0 1).
Definition v6_is_unspecified (ip : Ipv6Addr) : bool := bool_decide (ip = V6 0 0 0 0 0 0 0 0).
Definition to_ipv4_mapped (ip : Ipv6Addr) : option Ipv4Addr :=
  if bool_decide (g0 ip = 0) && bool_decide (g1 ip = 0) && bool_decide (g2 ip = 0) && bool_decide (g3 ip = 0)
     && bool_decide (g4 ip = 0) && bool_decide (g5 ip = 65535)
  then Some (V4 (Z.shiftr (g6 ip) 8) (Z.land (g6 ip) 255) (Z.shiftr (g7 ip) 8) (Z.land (g7 ip) 255))
  else None.

(** ** The guard *)

Definition is_cgnat (ip : Ipv4Addr) : bool := bool_decide (o0 ip = 100) && bool_decide (64 <= o1 ip <= 127).
Definition is_ipv6_link_local (ip : Ipv6Addr) : bool := bool_decide (Z.land (g0 ip) 65472 = 65152).
Definition is_ipv6_ula (ip : Ipv6Addr) : bool := bool_decide (Z.land (g0 ip) 65024 = 64512).

Definition normalize_ip (ip : IpAddr) : IpAddr :=
  match ip with
  | IpV6 v6 => match to_ipv4_mapped v6 with Some v4 => IpV4 v4 | None => IpV6 v6 end
  | other => other
  end.

Definition check_ip_not_private (ip : IpAddr) (context : string) : result unit SsrfError :=
  let blocked := match normalize_ip ip with
    | IpV4 v4 => is_private v4 || is_loopback v4 || is_link_local v4 || is_unspecified v4 || is_cgnat v4
    | IpV6 v6 => v6_is_loopback v6 || v6_is_unspecified v6 || is_ipv6_link_local v6 || is_ipv6_ula v6
    end in
  if blocked then Err (BlockedIp context ip) else Ok ().

Definition check_host_not_private (host : string) : result unit SsrfError :=
  let host_lower := Str.to_ascii_lowercase host in
  if String.eqb host_lower "localhost" || Str.starts_with "127." host_lower || String.eqb host_lower "::1"
     || Str.contains "::ffff:" host_lower || String.eqb host_lower "0.0.0.0"
     || existsb (fun s => Str.ends_with s host_lower) PRIVATE_TLD_SUFFIXES
  then Err (BlockedHost host) else Ok ().

Section Urls.
Context `{Platform}.

Definition redact_url (raw : string) : string :=
  match url_parse raw with Ok url => url_without_credentials url | Err _ => "<invalid-url>" end.

Definition parse_validated_https_url (url : string) : result Url SsrfError :=
  let redacted := redact_url url in
  match url_parse url with
  | Err e => Err (InvalidUrl ("invalid URL `" +:+ redacted +:+ "`: " +:+ e))
  | Ok parsed =>
      if negb (String.eqb (url_scheme parsed) "https") then
        Err (InvalidUrl ("URL `" +:+ redacted +:+ "` must use https to prevent SSRF"))
      else if negb (Str.is_empty (url_username parsed)) || negb (bool_decide (url_password parsed = None)) then
        Err (InvalidUrl ("URL `" +:+ redacted +:+ "` must not include userinfo"))
      else if negb (bool_decide (url_query parsed = None)) || negb (bool_decide (url_fragment parsed = None)) then
        Err (InvalidUrl ("URL `" +:+ redacted +:+ "` must not include query or fragment components"))
      else
        let? _ := match url_host parsed with
          | Some (Domain domain) => check_host_not_private domain
          | Some (HostIpv4 ip) => check_ip_not_private (IpV4 ip) redacted
          | Some (HostIpv6 ip) => check_ip_not_private (IpV6 ip) redacted
          | None => Err (InvalidUrl ("URL `" +:+ redacted +:+ "` must include a host"))
          end in
        Ok parsed
  end.

End Urls.

(** ** Addresses as numbers, ranges as CIDR blocks *)

Definition v4_ok (ip : Ipv4Addr) : Prop :=
  0 <= o0 ip < 256 ∧ 0 <= o1 ip < 256 ∧ 0 <= o2 ip < 256 ∧ 0 <= o3 ip < 256.
Definition v6_ok (ip : Ipv6Addr) : Prop :=
  0 <= g0 ip < 65536 ∧ 0 <= g1 ip < 65536 ∧ 0 <= g2 ip < 65536 ∧ 0 <= g3 ip < 65536 ∧
  0 <= g4 ip < 65536 ∧ 0 <= g5 ip < 65536 ∧ 0 <= g6 ip < 65536 ∧ 0 <= g7 ip < 65536.

Definition v4_num (ip : Ipv4Addr) : Z := o0 ip * 2 ^ 24 + o1 ip * 2 ^ 16 + o2 ip * 2 ^ 8 + o3 ip.
Definition v6_num (ip : Ipv6Addr) : Z :=
  g0 ip * 2 ^ 112 + g1 ip * 2 ^ 96 + g2 ip * 2 ^ 80 + g3 ip * 2 ^ 64
  + g4 ip * 2 ^ 48 + g5 ip * 2 ^ 32 + g6 ip * 2 ^ 16 + g7 ip.

(** [addr] is in the block [base/len] of [width]-bit addresses. *)
Definition in_cidr (width base len addr : Z) : bool :=
  bool_decide (addr / 2 ^ (width - len) = base / 2 ^ (width - len)).

Definition blocked_v4 : list (Z * Z) :=
  [(v4_num (V4 10 0 0 0), 8); (v4_num (V4 172 16 0 0), 12); (v4_num (V4 192 168 0 0), 16);
   (v4_num (V4 127 0 0 0), 8); (v4_num (V4 169 254 0 0), 16); (0, 32); (v4_num (V4 100 64 0 0), 10)].
Definition blocked_v6 : list (Z * Z) :=
  [(1, 128); (0, 128); (v6_num (V6 65152 0 0 0 0 0 0 0), 10); (v6_num (V6 64512 0 0 0 0 0 0 0), 7)].

(** The policy: the blocks above, and every IPv4-mapped IPv6 address whose
    embedded IPv4 address is blocked. *)
Definition v4_blocked (addr : Z) : bool := existsb (fun b => in_cidr 32 b.1 b.2 addr) blocked_v4.
Definition ip_blocked (ip : IpAddr) : bool :=
  match ip with
  | IpV4 v4 => v4_blocked (v4_num v4)
  | IpV6 v6 =>
      if in_cidr 128 (v6_num (V6 0 0 0 0 0 65535 0 0)) 96 (v6_num v6)
      then v4_blocked (v6_num v6 mod 2 ^ 32)
      else existsb (fun b => in_cidr 128 b.1 b.2 (v6_num v6)) blocked_v6
  end.
Definition ip_ok (ip : IpAddr) : Prop := match ip with IpV4 v4 => v4_ok v4 | IpV6 v6 => v6_ok v6 end.

(** [p] holds of the [2 ^ n] numbers whose leading bits are [base]. *)
Fixpoint all_below (n : nat) (base : Z) (p : Z → bool) : bool :=
  match n with
  | O => p base
  | S n' => all_below n' (2 * base) p && all_below n' (2 * base + 1) p
  end.

Lemma all_below_spec n base p x :
  all_below n base p = true → base * 2 ^ Z.of_nat n <= x < (base + 1) * 2 ^ Z.of_nat n → p x = true.
Proof.
  revert base. induction n as [|n IH]; intros base Hp Hx.
  - change (Z.of_nat 0) with 0 in Hx. replace x with base by lia. done.
  - cbn [all_below] in Hp. apply andb_true_iff in Hp as [H0 H1].
    rewrite Nat2Z.inj_succ, Z.pow_succ_r in Hx by lia.
    destruct (decide (x < (2 * base + 1) * 2 ^ Z.of_nat n)).
    + apply (IH _ H0). lia.
    + apply (IH _ H1). lia.
Qed.

Lemma all_segments_spec p x : all_below 16 0 p = true → 0 <= x < 65536 → p x = true.
Proof. intros Hp Hx. apply (all_below_spec 16 0 p x Hp). change (2 ^ Z.of_nat 16) with 65536. lia. Qed.

Lemma land_link_local x : 0 <= x < 65536 → bool_decide (Z.land x 65472 = 65152) = bool_decide (x / 64 = 1018).
Proof.
  intros Hx. apply Bool.eqb_prop.
  refine (all_segments_spec (fun x => Bool.eqb (bool_decide (Z.land x 65472 = 65152)) (bool_decide (x / 64 = 1018))) x _ Hx).
  vm_compute. reflexivity.
Qed.

Lemma land_ula x : 0 <= x < 65536 → bool_decide (Z.land x 65024 = 64512) = bool_decide (x / 512 = 126).
Proof.
  intros Hx. apply Bool.eqb_prop.
  refine (all_segments_spec (fun x => Bool.eqb (bool_decide (Z.land x 65024 = 64512)) (bool_decide (x / 512 = 126))) x _ Hx).
  vm_compute. reflexivity.
Qed.

Lemma v4_prefix ip :
  v4_ok ip →
  v4_num ip / 2 ^ 24 = o0 ip ∧ v4_num ip / 2 ^ 22 = o0 ip * 4 + o1 ip / 64 ∧
  v4_num ip / 2 ^ 20 = o0 ip * 16 + o1 ip / 16 ∧ v4_num ip / 2 ^ 16 = o0 ip * 256 + o1 ip.
Proof.
  destruct ip as [a b c d]. unfold v4_ok, v4_num. cbn [o0 o1 o2 o3]. intros Hok.
  change (2 ^ 24) with 16777216. change (2 ^ 22) with 4194304. change (2 ^ 20) with 1048576.
  change (2 ^ 16) with 65536. change (2 ^ 8) with 256.
  split_and!; symmetry;
    [apply (Z.div_unique _ _ _ (b * 65536 + c * 256 + d))
    |apply (Z.div_unique _ _ _ (b mod 64 * 65536 + c * 256 + d))
    |apply (Z.div_unique _ _ _ (b mod 16 * 65536 + c * 256 + d))
    |apply (Z.div_unique _ _ _ (c * 256 + d))];
    try lia; pose proof (Z.div_mod b 64); pose proof (Z.div_mod b 16);
    pose proof (Z.mod_pos_bound b 64); pose proof (Z.mod_pos_bound b 16); lia.
Qed.

Lemma v4_policy ip :
  v4_ok ip →
  is_private ip || is_loopback ip || is_link_local ip || is_unspecified ip || is_cgnat ip = v4_blocked (v4_num ip).
Proof.
  intros Hok. destruct (v4_prefix ip Hok) as (H8 & H10 & H12 & H16).
  unfold v4_blocked, blocked_v4, in_cidr. cbn [existsb fst snd].
  change (32 - 8) with 24. change (32 - 12) with 20. change (32 - 16) with 16.
  change (32 - 32) with 0. change (32 - 10) with 22.
  rewrite H8, H10, H12, H16. apply eq_true_iff_eq.
  unfold is_private, is_loopback, is_link_local, is_unspecified, is_cgnat.
  rewrite !orb_true_iff, !andb_true_iff, !bool_decide_eq_true.
  destruct ip as [a b c d]. unfold v4_ok, v4_num in *. cbn [o0 o1 o2 o3] in *.
  assert (He : V4 a b c d = V4 0 0 0 0 ↔ a = 0 ∧ b = 0 ∧ c = 0 ∧ d = 0) by naive_solver.
  rewrite He, Z.div_1_r. clear H8 H10 H12 H16 He.
  pose proof (Z.div_mod b 64). pose proof (Z.div_mod b 16).
  pose proof (Z.mod_pos_bound b 64). pose proof (Z.mod_pos_bound b 16).
  change (2 ^ 0) with 1. rewrite Z.div_1_r.
  repeat match goal with |- context [?x / ?y] => let v := eval vm_compute in (x / y) in
    lazymatch v with Z0 => change (x / y) with v | Zpos _ => change (x / y) with v end end.
  lia.
Qed.

(** The leading bits of an IPv6 address, and its embedded IPv4 address. *)
Definition v6_tail (ip : Ipv6Addr) : Z :=
  g1 ip * 2 ^ 96 + g2 ip * 2 ^ 80 + g3 ip * 2 ^ 64 + g4 ip * 2 ^ 48 + g5 ip * 2 ^ 32 + g6 ip * 2 ^ 16 + g7 ip.
Definition v6_high (ip : Ipv6Addr) : Z :=
  g0 ip * 2 ^ 80 + g1 ip * 2 ^ 64 + g2 ip * 2 ^ 48 + g3 ip * 2 ^ 32 + g4 ip * 2 ^ 16 + g5 ip.

Lemma v6_tail_bound ip : v6_ok ip → 0 <= v6_tail ip < 2 ^ 112.
Proof. unfold v6_ok, v6_tail. destruct ip; cbn -[Z.pow]. lia. Qed.

Lemma v6_prefix ip k :
  v6_ok ip → 0 < k → v6_num ip / (2 ^ 112 * k) = g0 ip / k.
Proof.
  intros Hok Hk. rewrite <- Z.div_div by lia. f_equal. symmetry.
  pose proof (v6_tail_bound ip Hok). apply (Z.div_unique _ _ _ (v6_tail ip)); [lia|].
  unfold v6_num, v6_tail. lia.
Qed.

Lemma v6_split ip :
  v6_ok ip → v6_num ip / 2 ^ 32 = v6_high ip ∧ v6_num ip mod 2 ^ 32 = g6 ip * 65536 + g7 ip.
Proof.
  intros Hok. assert (He : v6_num ip = 2 ^ 32 * v6_high ip + (g6 ip * 65536 + g7 ip)).
  { unfold v6_num, v6_high. lia. }
  assert (Hb : 0 <= g6 ip * 65536 + g7 ip < 2 ^ 32) by (unfold v6_ok in Hok; lia).
  split; symmetry; [eapply Z.div_unique|eapply Z.mod_unique]; eauto.
Qed.

Lemma mapped_num ip v4 :
  v6_ok ip → to_ipv4_mapped ip = Some v4 → v4_ok v4 ∧ v4_num v4 = g6 ip * 65536 + g7 ip.
Proof.
  unfold to_ipv4_mapped. intros Hok. destruct (_ && _); [|done]. intros [= <-].
  unfold v4_ok, v4_num. cbn [o0 o1 o2 o3]. rewrite !Z.shiftr_div_pow2 by lia.
  change 255 with (Z.ones 8). rewrite !Z.land_ones by lia. change (2 ^ 8) with 256.
  unfold v6_ok in Hok. destruct ip as [a b c d e f g h]. cbn [g0 g1 g2 g3 g4 g5 g6 g7] in *.
  pose proof (Z.div_mod g 256). pose proof (Z.div_mod h 256).
  pose proof (Z.mod_pos_bound g 256). pose proof (Z.mod_pos_bound h 256). lia.
Qed.

Lemma is_mapped ip :
  v6_ok ip →
  bool_decide (is_Some (to_ipv4_mapped ip)) = in_cidr 128 (v6_num (V6 0 0 0 0 0 65535 0 0)) 96 (v6_num ip).
Proof.
  intros Hok. unfold in_cidr. change (128 - 96) with 32. destruct (v6_split ip Hok) as [-> _].
  change (v6_num (V6 0 0 0 0 0 65535 0 0) / 2 ^ 32) with 65535.
  apply eq_true_iff_eq. rewrite !bool_decide_eq_true. unfold to_ipv4_mapped, v6_high.
  unfold v6_ok in Hok. destruct ip as [a b c d e f g h]. cbn [g0 g1 g2 g3 g4 g5 g6 g7] in *.
  destruct (_ && _) eqn:E.
  - split_bools. split; [intros _; lia|eauto].
  - split; [by intros [? ?]|]. intros Hn. exfalso. apply not_true_iff_false in E. apply E.
    rewrite !andb_true_iff, !bool_decide_eq_true. lia.
Qed.

Lemma v6_policy ip :
  v6_ok ip →
  v6_is_loopback ip || v6_is_unspecified ip || is_ipv6_link_local ip || is_ipv6_ula ip
  = existsb (fun b => in_cidr 128 b.1 b.2 (v6_num ip)) blocked_v6.
Proof.
  intros Hok. unfold blocked_v6, in_cidr. cbn [existsb fst snd].
  change (128 - 128) with 0. change (128 - 10) with 118. change (128 - 7) with 121.
  change (2 ^ 118) with (2 ^ 112 * 64). change (2 ^ 121) with (2 ^ 112 * 512). change (2 ^ 0) with 1.
  rewrite !v6_prefix, !Z.div_1_r by (done || lia).
  unfold is_ipv6_link_local, is_ipv6_ula. rewrite land_link_local, land_ula by apply Hok.
  change (v6_num (V6 65152 0 0 0 0 0 0 0) / (2 ^ 112 * 64)) with 1018.
  change (v6_num (V6 64512 0 0 0 0 0 0 0) / (2 ^ 112 * 512)) with 126.
  assert (Hn : ∀ n, 0 <= n < 65536 → v6_num ip = n ↔ ip = V6 0 0 0 0 0 0 0 n).
  { intros n Hn. unfold v6_ok, v6_num in *. destruct ip as [a b c d e f g h].
    cbn [g0 g1 g2 g3 g4 g5 g6 g7] in *. split; [intros; f_equal; lia|intros [= -> -> -> -> -> -> -> ->]; lia]. }
  unfold v6_is_loopback, v6_is_unspecified.
  rewrite (bool_decide_ext _ _ (Hn 1 ltac:(lia))), (bool_decide_ext _ _ (Hn 0 ltac:(lia))).
  by rewrite orb_false_r, !orb_assoc.
Qed.

(** The SSRF address policy: for every well-formed address,
    [check_ip_not_private] refuses exactly the addresses in the private,
    loopback, link-local, unspecified and CGNAT IPv4 blocks, the loopback,
    unspecified, link-local and ULA IPv6 blocks, and the IPv4-mapped IPv6
    addresses whose embedded IPv4 address is in the former. *)
Theorem ssrf_policy_exact ip context :
  ip_ok ip →
  check_ip_not_private ip context = if ip_blocked ip then Err (BlockedIp context ip) else Ok ().
Proof.
  unfold check_ip_not_private, ip_blocked, normalize_ip. destruct ip as [v4|v6]; simpl ip_ok; intros Hok.
  - by rewrite v4_policy.
  - rewrite <- is_mapped by done. destruct (v6_split v6 Hok) as [_ ->].
    destruct (to_ipv4_mapped v6) as [v4|] eqn:E.
    + destruct (mapped_num v6 v4 Hok E) as [Hok4 <-]. rewrite v4_policy by done.
      rewrite bool_decide_true by eauto. done.
    + rewrite v6_policy by done. by rewrite bool_decide_false by (by intros [? ?]).
Qed.

Lemma ssrf_policy_exact_witness :
  check_ip_not_private (IpV6 (V6 0 0 0 0 0 65535 32512 1)) "host"
  = Err (BlockedIp "host" (IpV6 (V6 0 0 0 0 0 65535 32512 1))).
Proof.
  rewrite (ssrf_policy_exact (IpV6 (V6 0 0 0 0 0 65535 32512 1)) "host");
    [vm_compute; reflexivity|unfold ip_ok, v6_ok; cbn [g0 g1 g2 g3 g4 g5 g6 g7]; lia].
Defined.
