(* ===== verification/RateLimit.v ===== *)
(** * RateLimit: token buckets per address

    [RateLimiterInner] and [PerIpRateLimiter] of [labby-auth/src/state.rs],
    behind the effect [TryAcquire].  Amounts of tokens are IEEE doubles, computed with
    the specification floats of the Standard Library.  The buckets are shared
    objects ([Arc]): the map holds references, and a request goes on with the
    bucket it found even when another request evicts it meanwhile.  Requests
    interleave at the steps the code makes under one guard: the look-up, the
    slow path under the maintenance lock, and the update under the lock of the bucket. *)

From Stdlib Require Import SpecFloat.
From stdpp Require Import base numbers list gmap.
From S2P Require Import Prelude BTree AuthTypes.

(** ** Doubles *)

Notation f64 := spec_float (only parsing).
Definition f64_of_Z (z : Z) : f64 := binary_normalize 53 1024 z 0 false.
Definition f64_add : f64 → f64 → f64 := SFadd 53 1024.
Definition f64_sub : f64 → f64 → f64 := SFsub 53 1024.
Definition f64_mul : f64 → f64 → f64 := SFmul 53 1024.
Definition f64_div : f64 → f64 → f64 := SFdiv 53 1024.
(** [f64::min]: a number is preferred to a NaN. *)
Definition f64_min (x y : f64) : f64 :=
  match SFcompare x y with
  | Some Gt => y
  | Some _ => x
  | None => match x with S754_nan => y | _ => x end
  end.
Definition f64_ge (x y : f64) : bool := SFleb y x.

(** [Duration::as_secs_f64] of a number of nanoseconds. *)
Definition as_secs_f64 (nanos : Z) : f64 :=
  f64_add (f64_of_Z (nanos / 1000000000)) (f64_div (f64_of_Z (nanos mod 1000000000)) (f64_of_Z 1000000000)).

(** ** One bucket *)

Record RateLimiterInner := mkRateLimiterInner {
  tokens : f64;
  max_tokens : f64;
  refill_rate : f64;
  last_refill : Z;
}.

(** Instants are nanoseconds of the monotonic clock. *)
Definition limiter_new (requests_per_minute now : Z) : RateLimiterInner :=
  let rate := f64_div (f64_of_Z requests_per_minute) (f64_of_Z 60) in
  let max := f64_of_Z (Z.max requests_per_minute 1) in
  mkRateLimiterInner max max rate now.

Definition limiter_try_acquire (now : Z) (l : RateLimiterInner) : bool * RateLimiterInner :=
  let elapsed := as_secs_f64 (Z.max 0 (now - last_refill l)) in
  let refilled := f64_min (f64_add (tokens l) (f64_mul elapsed (refill_rate l))) (max_tokens l) in
  if f64_ge refilled (f64_of_Z 1)
  then (true, mkRateLimiterInner (f64_sub refilled (f64_of_Z 1)) (max_tokens l) (refill_rate l) now)
  else (false, mkRateLimiterInner refilled (max_tokens l) (refill_rate l) now).

(** ** The map of buckets *)

Record RateLimitBucket := mkRateLimitBucket { limiter : RateLimiterInner; last_seen_secs : Z }.

Definition RATE_LIMIT_MAX_IP_BUCKETS : nat := 4096.
Definition RATE_LIMIT_IDLE_TTL_SECS : Z := 10 * 60.

(** The limits of [PerIpRateLimiter], fixed at construction. *)
Record PerIpLimits := mkPerIpLimits { requests_per_minute : Z; max_buckets : nat; idle_ttl_secs : Z }.
Definition new_with_limits (rpm : Z) (max : nat) (idle_ttl : Z) : PerIpLimits :=
  mkPerIpLimits rpm (Nat.max max 1) (Z.max idle_ttl 1).
Definition limiter_limits (rpm : Z) : PerIpLimits :=
  new_with_limits rpm RATE_LIMIT_MAX_IP_BUCKETS RATE_LIMIT_IDLE_TTL_SECS.

(** The shared state: the bucket objects, and the map from addresses to them
    in the order an iteration would meet them. *)
Record Shared := mkShared { heap : gmap nat RateLimitBucket; buckets : list (IpAddr * nat) }.
Definition empty_shared : Shared := mkShared ∅ [].

Definition last_seen (s : Shared) (id : nat) : Z :=
  match heap s !! id with Some b => last_seen_secs b | None => 0 end.

Definition find_bucket (ip : IpAddr) (s : Shared) : option nat :=
  snd <$> find_first (fun e => bool_decide (e.1 = ip)) (buckets s).

(** [min_by_key]: the first of the least. *)
Fixpoint oldest_of (seen : nat → Z) (best : IpAddr * nat) (l : list (IpAddr * nat)) : IpAddr * nat :=
  match l with
  | [] => best
  | e :: r => oldest_of seen (if bool_decide (seen e.2 < seen best.2)%Z then e else best) r
  end.
Definition oldest (seen : nat → Z) (l : list (IpAddr * nat)) : option (IpAddr * nat) :=
  match l with [] => None | e :: r => Some (oldest_of seen e r) end.

Definition remove_ip (ip : IpAddr) (l : list (IpAddr * nat)) : list (IpAddr * nat) :=
  List.filter (fun e => negb (bool_decide (e.1 = ip))) l.

(** The loop that makes room; each round removes one address. *)
Fixpoint evict_lru (n max : nat) (seen : nat → Z) (l : list (IpAddr * nat)) : list (IpAddr * nat) :=
  match n with
  | 0 => l
  | S n =>
      if max <=? length l then
        match oldest seen l with
        | Some e => evict_lru n max seen (remove_ip e.1 l)
        | None => l
        end
      else l
  end.

Definition evict_stale_and_lru (cfg : PerIpLimits) (now_secs : Z) (s : Shared) : Shared :=
  let stale_before := Z.max 0 (now_secs - idle_ttl_secs cfg) in
  let fresh := List.filter (fun e => bool_decide (stale_before <= last_seen s e.2)%Z) (buckets s) in
  mkShared (heap s) (evict_lru (length fresh) (max_buckets cfg) (last_seen s) fresh).

Definition touch (id : nat) (now_secs : Z) (s : Shared) : Shared :=
  mkShared (alter (fun b => mkRateLimitBucket (limiter b) now_secs) id (heap s)) (buckets s).

(** The slow path, under the maintenance lock; [id] is the new object. *)
Definition slow_path (cfg : PerIpLimits) (ip : IpAddr) (now_secs created : Z) (id : nat) (s : Shared) : nat * Shared :=
  match find_bucket ip s with
  | Some held => (held, s)
  | None =>
      let s := evict_stale_and_lru cfg now_secs s in
      (id, mkShared (<[id := mkRateLimitBucket (limiter_new (requests_per_minute cfg) created) now_secs]> (heap s))
             ((ip, id) :: buckets s))
  end.

Definition bucket_acquire (id : nat) (now : Z) (s : Shared) : bool * Shared :=
  match heap s !! id with
  | Some b =>
      let '(allowed, l) := limiter_try_acquire now (limiter b) in
      (allowed, mkShared (<[id := mkRateLimitBucket l (last_seen_secs b)]> (heap s)) (buckets s))
  | None => (false, s)
  end.

(** A whole request that is not interrupted; a new bucket reads the clock when
    it is made and again when it is used. *)
Definition try_acquire_at (cfg : PerIpLimits) (ip : IpAddr) (now_secs created now : Z) (s : Shared) : bool * Shared :=
  match find_bucket ip s with
  | Some id => bucket_acquire id now (touch id now_secs s)
  | None =>
      let id := fresh (dom (heap s)) in
      let '(held, s) := slow_path cfg ip now_secs created id s in
      bucket_acquire held now (touch held now_secs s)
  end.

(** ** Interleaved requests *)

(** A step of any request: it marks a bucket it holds as seen, runs the slow
    path with a new object, or takes a token of a bucket it holds, which may
    have left the map. *)
Inductive limiter_step (cfg : PerIpLimits) (s : Shared) : Shared → Prop :=
| step_touch id now_secs : limiter_step cfg s (touch id now_secs s)
| step_slow ip now_secs created id : heap s !! id = None → limiter_step cfg s (slow_path cfg ip now_secs created id s).2
| step_acquire id now : limiter_step cfg s (bucket_acquire id now s).2.

Record limiter_wf (cfg : PerIpLimits) (s : Shared) : Prop := {
  lw_room : length (buckets s) ≤ max_buckets cfg;
  lw_keys : NoDup (buckets s).*1;
  lw_live : Forall (fun e => is_Some (heap s !! e.2)) (buckets s);
}.

Lemma oldest_spec seen l e :
  oldest seen l = Some e → e ∈ l ∧ Forall (fun e' => (seen e.2 <= seen e'.2)%Z) l.
Proof.
  assert (∀ l best, oldest_of seen best l ∈ best :: l ∧
            Forall (fun e' => (seen (oldest_of seen best l).2 <= seen e'.2)%Z) (best :: l)) as Hgo.
  { clear l e. induction l as [|x l IH]; intros best; simpl; [by split; [constructor|constructor; [lia|]]|].
    destruct (IH (if bool_decide (seen x.2 < seen best.2)%Z then x else best)) as [Hin Hall].
    apply Forall_cons_1 in Hall as [Hb Hl]. case_bool_decide as Hlt.
    - split; [set_solver|]. repeat constructor; [lia|done|done].
    - split; [set_solver|]. repeat constructor; [done|lia|done]. }
  destruct l as [|x l]; [done|]. intros [= <-]. apply Hgo.
Qed.

Lemma elem_remove_ip ip l e : e ∈ remove_ip ip l ↔ e ∈ l ∧ e.1 ≠ ip.
Proof. unfold remove_ip. by rewrite elem_filter_b, negb_true_iff, bool_decide_eq_false. Qed.

Lemma remove_ip_length ip l : NoDup l.*1 → ip ∈ l.*1 → S (length (remove_ip ip l)) = length l.
Proof.
  unfold remove_ip. induction l as [|e l IH]; [set_solver|]. rewrite fmap_cons, NoDup_cons, elem_of_cons.
  intros [He Hl] Hin. simpl. destruct (decide (e.1 = ip)) as [<-|Hne].
  - rewrite bool_decide_true by done. simpl. f_equal. clear -He. induction l as [|x l IHl]; [done|]. simpl.
    rewrite fmap_cons in He. rewrite bool_decide_false by set_solver. simpl. f_equal. apply IHl. set_solver.
  - rewrite bool_decide_false by done. simpl. f_equal. apply IH; [done|]. by destruct Hin.
Qed.

(** Making room keeps the entries seen last, and removes nothing when there is
    room already. *)
Lemma evict_lru_spec n max seen l :
  NoDup l.*1 → length l ≤ n → 0 < max →
  let r := evict_lru n max seen l in
  length r < max ∧ NoDup r.*1 ∧ r ⊆ l ∧ (length l < max → r = l) ∧
  ∀ e e', e ∈ l → e ∉ r → e' ∈ r → (seen e.2 <= seen e'.2)%Z.
Proof.
  revert l. induction n as [|n IH]; intros l Hnd Hn Hmax; simpl.
  { assert (l = []) as -> by (apply nil_length_inv; lia). split_and!; [simpl; lia|done|done|done|set_solver]. }
  destruct (Nat.leb_spec max (length l)) as [Hfull|Hroom]; [|split_and!; [lia|done|done|done|set_solver]].
  destruct (oldest seen l) as [o|] eqn:Eo; [|by destruct l; [simpl in Hfull; lia|]].
  apply oldest_spec in Eo as [Ho Hmin].
  assert (S (length (remove_ip o.1 l)) = length l) as Hlen by (apply remove_ip_length; [done|set_solver]).
  destruct (IH (remove_ip o.1 l)) as (Hr & Hk & Hsub & _ & Hold); [by apply NoDup_fmap_filter|lia|done|].
  split_and!; [done|done| |lia|].
  - intros e He%Hsub. by apply elem_remove_ip in He as [? _].
  - intros e e' He Hne He'. destruct (decide (e.1 = o.1)) as [Heq|Hd].
    + assert (e = o) as -> by (by apply (NoDup_key_inj fst l)).
      rewrite Forall_forall in Hmin. apply Hmin. apply Hsub, elem_remove_ip in He'. tauto.
    + apply Hold; [by apply elem_remove_ip|done|done].
Qed.

Lemma find_bucket_None ip s : find_bucket ip s = None ↔ ip ∉ (buckets s).*1.
Proof.
  unfold find_bucket. rewrite fmap_None. induction (buckets s) as [|e l IH]; simpl; [set_solver|].
  case_bool_decide as He; [set_solver|]. rewrite IH. set_solver.
Qed.

(** What the slow path keeps for a new address. *)
Lemma evict_spec cfg now_secs s :
  limiter_wf cfg s → 0 < max_buckets cfg →
  let stale e := (last_seen s e < Z.max 0 (now_secs - idle_ttl_secs cfg))%Z in
  let s' := evict_stale_and_lru cfg now_secs s in
  heap s' = heap s ∧ length (buckets s') < max_buckets cfg ∧ NoDup (buckets s').*1 ∧ buckets s' ⊆ buckets s ∧
  ∀ e, e ∈ buckets s → e ∉ buckets s' →
    stale e.2 ∨ (max_buckets cfg ≤ length (buckets s) ∧
                 ∀ e', e' ∈ buckets s' → (last_seen s e.2 <= last_seen s e'.2)%Z).
Proof.
  intros [_ Hk _] Hmax. cbv zeta. unfold evict_stale_and_lru. simpl.
  set (p := fun e => bool_decide _). set (kept := List.filter p (buckets s)).
  destruct (evict_lru_spec (length kept) (max_buckets cfg) (last_seen s) kept) as (Hr & Hk' & Hsub & Hroom & Hold);
    [by apply NoDup_fmap_filter|done|done|].
  assert (kept ⊆ buckets s) as Hkept by (intros e He; by apply elem_filter_b in He as [? _]).
  split_and!; [done|done|done|set_solver|]. intros e He Hne. destruct (p e) eqn:Ep.
  - right. assert (e ∈ kept) as Hin by (by apply elem_filter_b). split.
    + destruct (decide (length kept < max_buckets cfg)) as [Hlt|Hge]; [by rewrite Hroom in Hne|].
      pose proof (List.filter_length_le p (buckets s)) as Hf. fold kept in Hf. lia.
    + intros e' He'. by apply Hold.
  - left. unfold p in Ep. apply bool_decide_eq_false in Ep. lia.
Qed.


Lemma limiter_step_wf cfg s s' : 0 < max_buckets cfg → limiter_wf cfg s → limiter_step cfg s s' → limiter_wf cfg s'.
Proof.
  intros Hmax Hwf Hstep. destruct Hstep as [id now|ip now created id Hid|id now].
  - destruct Hwf as [Hr Hk Hl]. split; [done|done|]. eapply Forall_impl; [exact Hl|]. intros e He.
    unfold touch. simpl. by rewrite lookup_alter_is_Some.
  - unfold slow_path. destruct (find_bucket ip s) as [held|] eqn:Ef; [done|]. apply find_bucket_None in Ef.
    destruct (evict_spec cfg now s Hwf Hmax) as (Hh & Hlen & Hk & Hsub & _).
    generalize dependent (evict_stale_and_lru cfg now s). intros s1 Hh Hlen Hk Hsub. split; simpl.
    + lia.
    + apply NoDup_cons. split; [|done]. intros (e & -> & He)%list_elem_of_fmap. apply Ef, list_elem_of_fmap_2. by apply Hsub.
    + constructor; [by rewrite lookup_insert_eq|]. apply Forall_forall. intros e He%Hsub.
      destruct Hwf as [_ _ Hl]. rewrite Forall_forall in Hl. destruct (decide (e.2 = id)) as [->|Hne];
        [by rewrite lookup_insert_eq|]. rewrite lookup_insert_ne by done. rewrite Hh. by apply Hl.
  - unfold bucket_acquire. destruct (heap s !! id) as [b|] eqn:Eb; [|done].
    destruct (limiter_try_acquire _ _) as [ok l]. destruct Hwf as [Hr Hk Hl]. split; [done|done|]. simpl.
    eapply Forall_impl; [exact Hl|]. intros e He. destruct (decide (e.2 = id)) as [->|Hne];
      [by rewrite lookup_insert_eq|by rewrite lookup_insert_ne].
Qed.

Lemma reachable_limiter_wf cfg s : 0 < max_buckets cfg → rtc (limiter_step cfg) empty_shared s → limiter_wf cfg s.
Proof.
  intros Hmax. apply (rtc_ind_r (limiter_wf cfg) empty_shared).
  - split; simpl; [lia|constructor|constructor].
  - intros y z _ Hst Hy. by eapply limiter_step_wf.
Qed.

(** (C39) The rate limiter is bounded and forgets the right addresses: under
    any interleaving of requests from any addresses there are never more
    buckets than the maximum and one per address; a new address always gets a
    bucket, and an address loses its bucket to it only when it was not seen
    for the idle time, or when the map was full and no bucket that is kept was
    seen before its own. *)
Theorem rate_limiter_bounded cfg s ip now_secs created id :
  0 < max_buckets cfg → rtc (limiter_step cfg) empty_shared s →
  length (buckets s) ≤ max_buckets cfg ∧ NoDup (buckets s).*1 ∧
  (find_bucket ip s = None →
   let s' := (slow_path cfg ip now_secs created id s).2 in
   find_bucket ip s' = Some id ∧ length (buckets s') ≤ max_buckets cfg ∧
   ∀ e, e ∈ buckets s → e ∉ buckets s' →
     (last_seen s e.2 < Z.max 0 (now_secs - idle_ttl_secs cfg))%Z ∨
     (length (buckets s) = max_buckets cfg ∧
      ∀ e', e' ∈ buckets s' → e' = (ip, id) ∨ (last_seen s e.2 <= last_seen s e'.2)%Z)).
Proof.
  intros Hmax Hs%reachable_limiter_wf; [|done]. split_and!; [apply Hs|apply Hs|]. intros Hnone. unfold slow_path. rewrite Hnone.
  destruct (evict_spec cfg now_secs s Hs Hmax) as (Hh & Hlen & Hk & Hsub & Hev).
  generalize dependent (evict_stale_and_lru cfg now_secs s). intros s1 Hh Hlen Hk Hsub Hev. simpl. split_and!.
  - unfold find_bucket. simpl. by rewrite bool_decide_true.
  - lia.
  - intros e He Hne. destruct (Hev e He) as [Hst|[Hfull Hlru]]; [set_solver|by left|right].
    split; [pose proof (lw_room _ _ Hs); lia|]. intros e' [->|He']%elem_of_cons; [by left|right; by apply Hlru].
Qed.

(** ** Bursts *)

(** The answers to [n] requests at one instant. *)
Fixpoint burst (n : nat) (now : Z) (l : RateLimiterInner) : list bool :=
  match n with
  | 0 => []
  | S n => let '(allowed, l) := limiter_try_acquire now l in allowed :: burst n now l
  end.

Definition burst_ok (rpm : nat) : bool :=
  bool_decide (burst (S rpm) 0 (limiter_new (Z.of_nat rpm) 0) = replicate rpm true ++ [false]).

Lemma default_bursts : forallb burst_ok (seq 1 240) = true.
Proof. vm_compute. reflexivity. Qed.

(** ** A worked example: the third address of a full map *)

Definition sample_limits : PerIpLimits := new_with_limits 60 2 10.
Definition sample_ip (n : Z) : IpAddr := IpV4 (V4 192 0 2 n).
Definition two_seen : Shared :=
  (slow_path sample_limits (sample_ip 2) 2 0 1 (slow_path sample_limits (sample_ip 1) 1 0 0 empty_shared).2).2.

Lemma two_seen_reachable : rtc (limiter_step sample_limits) empty_shared two_seen.
Proof.
  eapply rtc_l; [apply (step_slow _ _ (sample_ip 1) 1 0 0); done|]. apply rtc_once.
  apply (step_slow _ _ (sample_ip 2) 2 0 1). vm_compute. reflexivity.
Qed.

Lemma rate_limiter_bounded_witness :
  buckets (slow_path sample_limits (sample_ip 3) 3 0 2 two_seen).2 = [(sample_ip 3, 2); (sample_ip 2, 1)] ∧
  find_bucket (sample_ip 3) (slow_path sample_limits (sample_ip 3) 3 0 2 two_seen).2 = Some 2.
Proof.
  split; [vm_compute; reflexivity|].
  apply (rate_limiter_bounded sample_limits two_seen (sample_ip 3) 3 0 2).
  - vm_compute. lia.
  - apply two_seen_reachable.
  - vm_compute. reflexivity.
Defined.
