(* ===== verification/Effects.v ===== *)
(** * Effects: what the request handlers ask of their environment

    The effects of the [async fn]s of [labby-auth], the state of the server
    ([AuthState], [labby-auth/src/state.rs]) as far as it is configuration,
    and the small effectful helpers of [labby-auth/src/util.rs] and
    [state.rs].  The database statements are those of the file Store; clock,
    randomness, the identity provider and remote documents are answered by the
    environment. *)

From Stdlib Require Import Ascii.
From stdpp Require Import base list gmap strings.
From S2P Require Import Prelude RustStr Prog AuthTypes Store BTree.

(** The three per-address limiters of [AuthState]. *)
Inductive Limiter := AuthorizeLimiter | RegisterLimiter | TokenLimiter.

(** [remote::CachePolicy] and the document of [cimd.rs]. *)
Record CachePolicy := mkCachePolicy { cacheable : bool; max_age_secs : Z }.

Record ClientMetadataDocument := mkClientMetadataDocument {
  cd_client_id : string;
  cd_client_name : string;
  cd_redirect_uris : list string;
  cd_token_endpoint_auth_method : string;
  cd_jwks : option string;
}.

(** [AuthState]: the configuration and the fields of [GoogleProvider] the
    handlers read. *)
Record AuthState := mkAuthState {
  config : AuthConfig;
  google_client_id : string;
  google_redirect_uri : Url;
  google_scopes : list string;
  google_authorize_endpoint : Url;
}.

Section Effects.
Context `{Platform}.

Inductive Eff : Type :=
| Now
| RandomBytes (n : Z)
| Sql (op : StoreOp)
| TryAcquire (l : Limiter) (ip : IpAddr)
| EffectiveScopes (resource : string)
| GoogleExchangeCode (code verifier : string)
| GoogleRefreshToken (refresh_token subject : string) (email : option string)
| FetchClientDocument (url : Url)
| FetchJwks (url : Url)
| CimdGet (client_id : string)
| CimdRetain (now : Z)
| CimdEvict (max : Z)
| CimdInsert (client_id : string) (client : RegisteredClient) (expires_at : Z)
| JwksGet (key : string)
| JwksRetain (now : Z)
| JwksEvict (max : Z)
| JwksInsert (key : string) (jwks : JwkSet) (expires_at : Z)
| LockEntry (key : string)
| Acquire (lock : Z)
| Release (lock : Z)
| RemoveEntry (key : string)
| AcquirePermit
| ReleasePermit
| SubjectLock (subject : string)
| SubjectUnlock (subject : string).

Definition eresp (e : Eff) : Type :=
  match e with
  | Now => Z
  | RandomBytes _ => result string string
  | Sql op => result (store_resp op) AuthError
  | TryAcquire _ _ => bool
  | EffectiveScopes _ => option (list string)
  | GoogleExchangeCode _ _ | GoogleRefreshToken _ _ _ => result GoogleExchange AuthError
  | FetchClientDocument _ => result (ClientMetadataDocument * CachePolicy) AuthError
  | FetchJwks _ => result (JwkSet * CachePolicy) AuthError
  | CimdGet _ => option (RegisteredClient * Z)
  | JwksGet _ => option (JwkSet * Z)
  | LockEntry _ => Z
  | AcquirePermit => result unit unit
  | CimdRetain _ | CimdEvict _ | CimdInsert _ _ _ | JwksRetain _ | JwksEvict _ | JwksInsert _ _ _
  | Acquire _ | Release _ | RemoveEntry _ | ReleasePermit | SubjectLock _ | SubjectUnlock _ => unit
  end.

Notation M := (prog eresp).
Definition Trace : Type := list (step_of eresp).

Definition eff (e : Eff) : M (eresp e) := trigger e.
Definition now_unix : M Z := eff Now.
Definition sql (op : StoreOp) : M (result (store_resp op) AuthError) := eff (Sql op).

(** ** util.rs *)

Definition random_token (bytes : Z) : M (result string AuthError) :=
  let! r := eff (RandomBytes bytes) in
  match r with
  | Err error => ret_err (Storage ("generate random token: " +:+ error))
  | Ok buf => ret_ok (base64url_encode buf)
  end.

Definition hex_digit (n : nat) : ascii :=
  Ascii.ascii_of_nat (if n <? 10 then 48 + n else 87 + n).
(** The [{byte:02x}] rendering of a byte string. *)
Fixpoint hex (s : string) : string :=
  match s with
  | EmptyString => EmptyString
  | String c r =>
      let n := Ascii.nat_of_ascii c in
      String (hex_digit (n / 16)) (String (hex_digit (n mod 16)) (hex r))
  end.

Definition fingerprint (value : string) : string := hex (Str.take 6 (sha256 value)).
Definition hash_token (token : string) : string := hex (sha256 token).

Definition exceeds (field : string) : AuthError := Config (field +:+ " exceeds supported range").

(** Durations are whole seconds, an unsigned 64-bit number. *)
Definition duration_secs_i64 (duration : Z) (field : string) : result Z AuthError :=
  if bool_decide (duration <= i64_max)%Z then Ok duration else Err (exceeds field).
Definition duration_secs_usize (duration : Z) (field : string) : result Z AuthError :=
  if bool_decide (duration <= usize_max)%Z then Ok duration else Err (exceeds field).
Definition timestamp_usize (timestamp : Z) (field : string) : result Z AuthError :=
  if bool_decide (0 <= timestamp)%Z then Ok timestamp
  else Err (Storage (field +:+ " is negative or exceeds usize range")).
Definition expires_at (created_at duration : Z) (field : string) : result Z AuthError :=
  let? ttl := duration_secs_i64 duration field in
  ok_or (i64_checked_add created_at ttl) (exceeds field).

(** ** state.rs *)

Definition RATE_LIMIT_RETRY_AFTER_MS : Z := 60000.

Definition check_rate_limit (l : Limiter) (message : string) (ip : IpAddr) : M (result unit AuthError) :=
  let! allowed := eff (TryAcquire l ip) in
  if allowed then ret_ok () else ret_err (RateLimited message RATE_LIMIT_RETRY_AFTER_MS).
Definition check_authorize_rate_limit (ip : IpAddr) : M (result unit AuthError) :=
  check_rate_limit AuthorizeLimiter "authorize rate limit exceeded" ip.
Definition check_register_rate_limit (ip : IpAddr) : M (result unit AuthError) :=
  check_rate_limit RegisterLimiter "register rate limit exceeded" ip.
Definition check_token_rate_limit (ip : IpAddr) : M (result unit AuthError) :=
  check_rate_limit TokenLimiter "token rate limit exceeded" ip.

Definition allowed_resource_scopes (resource : string) : M (option (list string)) :=
  eff (EffectiveScopes resource).
Definition is_allowed_resource_url (resource : string) : M bool :=
  let! scopes := eff (EffectiveScopes resource) in
  Ret (match scopes with Some _ => true | None => false end).

(** [resolve_allowed_emails]: the administrator, then the allowlist without
    the administrator. *)
Definition resolve_allowed_emails (st : AuthState) : M (result (list string) AuthError) :=
  let!? rows := sql ListAllowedUsers in
  ret_ok (cf_admin_email (config st) ::
    (au_email <$> List.filter (fun r => negb (Str.eq_ignore_ascii_case (au_email r) (cf_admin_email (config st)))) rows)).

(** ** metadata.rs *)

Definition public_base_url (st : AuthState) : string :=
  Str.trim_end_matches "/" (url_str (cf_public_url (config st))).
Definition native_callback_endpoint (st : AuthState) : string := public_base_url st +:+ "/native/callback".
Definition native_poll_endpoint (st : AuthState) : string := public_base_url st +:+ "/native/poll".
Definition canonical_resource_url (st : AuthState) : string :=
  let base := public_base_url st in
  let suffix := Str.trim_start_matches "/" (cf_resource_path (config st)) in
  if Str.is_empty suffix then base else base +:+ "/" +:+ suffix.

(** ** google.rs *)

Definition canonical_google_scope (scope : string) : string :=
  if String.eqb scope "https://www.googleapis.com/auth/userinfo.email" then "email"
  else if String.eqb scope "https://www.googleapis.com/auth/userinfo.profile" then "profile"
  else scope.

(** [sort] then [dedup] is the iteration of the ordered set. *)
Definition merge_google_scopes (existing returned : list string) : list string :=
  BTreeSet.from_iter
    (List.filter (fun s => negb (Str.is_empty s))
       ((fun s => canonical_google_scope (Str.trim s)) <$> (existing ++ returned))).

Definition authorize_url (st : AuthState) (request : AuthorizeUrlRequest) : Url :=
  let add := url_append_pair in
  let url := google_authorize_endpoint st in
  let url := add url "client_id" (google_client_id st) in
  let url := add url "redirect_uri" (url_str (google_redirect_uri st)) in
  let url := add url "response_type" "code" in
  let url := add url "scope" (Str.join " " (google_scopes st)) in
  let url := add url "state" (au_state request) in
  let url := add url "code_challenge" (au_code_challenge request) in
  let url := add url "code_challenge_method" (au_code_challenge_method request) in
  let url := if au_offline_access request
             then add (add url "access_type" "offline") "include_granted_scopes" "true" else url in
  if au_force_consent request then add url "prompt" "consent" else url.

End Effects.

(** The programs of the server. *)
Notation M := (prog eresp).

(** Unrolls the tree of a program up to its next branch. *)
Ltac unroll := cbn [always pbind try_bind trigger eff sql now_unix lift].
Ltac unroll_in H := cbn [always pbind try_bind trigger eff sql now_unix lift] in H.
