(* ===== verification/AtRest.v ===== *)
(** * AtRest: encryption of provider tokens

    [labby-auth/src/at_rest.rs]: the key parser, and the encoding that
    distinguishes encrypted values from legacy plaintext by a prefix. *)

From Stdlib Require Import Ascii.
From stdpp Require Import base list strings pretty.
From S2P Require Import Prelude RustStr Prog AuthTypes SamplePlatform Store Effects.

Definition ENC_PREFIX : string := "enc:".

Definition hex_value (c : ascii) : option nat :=
  let n := Ascii.nat_of_ascii c in
  if (48 <=? n) && (n <=? 57) then Some (n - 48)
  else if (97 <=? n) && (n <=? 102) then Some (n - 87)
  else if (65 <=? n) && (n <=? 70) then Some (n - 55)
  else None.

(** [u8::from_str_radix(hex, 16)] on two bytes: an optional leading [+] is
    accepted. *)
Definition from_str_radix_16 (a b : ascii) : option nat :=
  if Ascii.eqb a "+" then hex_value b
  else match hex_value a, hex_value b with
       | Some x, Some y => Some (16 * x + y)
       | _, _ => None
       end.

Section AtRest.
Context `{Platform}.

Fixpoint hex_chunks (s : string) : result string AuthError :=
  match s with
  | String a (String b r) =>
      let chunk := String a (String b "") in
      if negb (utf8_valid chunk)
      then Err (Config "TOKEN_ENCRYPTION_KEY hex string contains invalid UTF-8")
      else match from_str_radix_16 a b with
           | None => Err (Config ("TOKEN_ENCRYPTION_KEY hex string contains invalid character `" +:+ chunk +:+ "`"))
           | Some n => let? rest := hex_chunks r in Ok (String (Ascii.ascii_of_nat n) rest)
           end
  | _ => Ok ""
  end.

(** [TokenEncryptionKey::from_encoded]: the 32 key bytes. *)
Definition from_encoded (s : string) : result string AuthError :=
  let s := Str.trim s in
  if String.length s =? 64 then hex_chunks s
  else match base64url_decode s with
       | None => Err (Config "TOKEN_ENCRYPTION_KEY must be 64 hex digits or 43 base64url characters")
       | Some bytes =>
           if negb (String.length bytes =? 32)
           then Err (Config ("TOKEN_ENCRYPTION_KEY base64-decoded to " +:+ pretty (String.length bytes)
                             +:+ " bytes, expected 32"))
           else Ok bytes
       end.

Definition encrypt_provider_token (key plaintext : string) : M (result string AuthError) :=
  let! nonce := eff (RandomBytes 12) in
  match nonce with
  | Err e => ret_err (Storage ("generate nonce: " +:+ e))
  | Ok nonce_bytes =>
      match aead_encrypt key nonce_bytes plaintext with
      | None => ret_err (Storage "token encryption failed")
      | Some ciphertext => ret_ok (ENC_PREFIX +:+ base64url_encode (nonce_bytes +:+ ciphertext))
      end
  end.

Definition decrypt_provider_token (key stored : string) : result string AuthError :=
  match Str.strip_prefix ENC_PREFIX stored with
  | None => Ok stored
  | Some encoded =>
      match base64url_decode encoded with
      | None => Err (Storage "provider token ciphertext is not valid base64")
      | Some blob =>
          if String.length blob <? 12 then Err (Storage "provider token ciphertext blob too short")
          else match aead_decrypt key (Str.take 12 blob) (Str.drop 12 blob) with
               | None => Err (Storage "provider token decryption failed (wrong key or corrupted data)")
               | Some plaintext_bytes =>
                   if utf8_valid plaintext_bytes then Ok plaintext_bytes
                   else Err (Storage "decrypted provider token is not valid UTF-8")
               end
      end
  end.

Definition maybe_encrypt (key : option string) (value : string) : M (result string AuthError) :=
  match key with
  | Some k => encrypt_provider_token k value
  | None => ret_ok value
  end.

Definition maybe_decrypt (key : option string) (stored : string) : result string AuthError :=
  if Str.starts_with ENC_PREFIX stored then
    match key with
    | None => Err (Config "provider token is encrypted but no TOKEN_ENCRYPTION_KEY is configured")
    | Some k => decrypt_provider_token k stored
    end
  else Ok stored.

(** ** Properties *)

(** Every answer of the random source has the length asked for. *)
Definition random_lengths (tr : Trace) : Prop :=
  ∀ n bytes, existT (RandomBytes n) (Ok bytes) ∈ tr → Z.of_nat (String.length bytes) = n.

Lemma hex_chunks_length s bytes : hex_chunks s = Ok bytes → String.length bytes = String.length s / 2.
Proof.
  revert bytes. induction s as [s IH] using (induction_ltof1 _ String.length). unfold ltof in IH.
  destruct s as [|a [|b r]]; intros bytes; cbn [hex_chunks]; [by intros [= <-]|by intros [= <-]|].
  destruct (negb _); [done|]. destruct (from_str_radix_16 a b); [|done].
  destruct (hex_chunks r) as [rest|] eqn:E; [|done]. intros [= <-]. cbn [String.length].
  rewrite (IH r) by (done || simpl; lia).
  replace (S (S (String.length r))) with (1 * 2 + String.length r) by lia.
  by rewrite Nat.div_add_l by lia.
Qed.

(** The key parser only returns 256-bit keys. *)
Lemma from_encoded_key_length s key : from_encoded s = Ok key → String.length key = 32.
Proof.
  unfold from_encoded. destruct (Nat.eqb_spec (String.length (Str.trim s)) 64) as [Hl|].
  - intros Hk. apply hex_chunks_length in Hk. rewrite Hk, Hl. done.
  - destruct (base64url_decode _) as [b|]; [|done].
    destruct (Nat.eqb_spec (String.length b) 32); simpl; [|done]. by intros [= <-].
Qed.

Section RoundTrip.
Hypothesis aead_round_trip : ∀ k n p c, aead_encrypt k n p = Some c → aead_decrypt k n c = Some p.
Hypothesis base64_round_trip : ∀ b, base64url_decode (base64url_encode b) = Some b.

(** At-rest round trip: whatever [maybe_encrypt] stores, [maybe_decrypt]
    with the same key returns the original text; without a key this holds of
    every value that does not itself start with the [enc:] marker. *)
Theorem at_rest_round_trip key value :
  utf8_valid value = true →
  (key = None → Str.starts_with ENC_PREFIX value = false) →
  always (maybe_encrypt key value) (fun tr r =>
    random_lengths tr → ∀ stored, r = Ok stored → maybe_decrypt key stored = Ok value).
Proof.
  intros Hu Hn. destruct key as [k|]; cbn [maybe_encrypt]; unfold encrypt_provider_token; unroll.
  - intros [nonce|e]; unroll; [|done]. destruct (aead_encrypt k nonce value) as [c|] eqn:Ec; unroll; [|by intros _ stored [=]].
    intros Hr stored [= <-]. unfold maybe_decrypt.
    assert (Hs : Str.starts_with ENC_PREFIX (ENC_PREFIX +:+ base64url_encode (nonce +:+ c)) = true).
    { apply Str.starts_with_spec. eauto. }
    rewrite Hs. unfold decrypt_provider_token.
    rewrite (proj2 (Str.strip_prefix_spec ENC_PREFIX _ _) eq_refl), base64_round_trip.
    assert (Hl : String.length nonce = 12).
    { apply Nat2Z.inj. apply (Hr 12%Z nonce). by left. }
    rewrite Str.length_app, Hl. change (12 + String.length c <? 12) with false.
    rewrite <- Hl, Str.take_app, Str.drop_app, (aead_round_trip _ _ _ _ Ec), Hu. done.
  - intros _ stored [= <-]. unfold maybe_decrypt. by rewrite Hn.
Qed.
End RoundTrip.

End AtRest.

(** ** Witnesses *)

#[local] Existing Instance sample_platform.


Lemma sample_strip_app k n c : Str.strip_prefix (k +:+ n) (k +:+ n +:+ c) = Some c.
Proof. apply Str.strip_prefix_spec. by rewrite Str.app_assoc. Qed.

Lemma at_rest_round_trip_witness :
  always (maybe_encrypt (Some "key") "secret") (fun tr r =>
    random_lengths tr → ∀ stored, r = Ok stored → maybe_decrypt (Some "key") stored = Ok "secret").
Proof.
  apply (at_rest_round_trip).
  - intros k n p c Hc. injection Hc as <-. apply sample_strip_app.
  - intros b. reflexivity.
  - reflexivity.
  - discriminate.
Defined.
