(* ===== verification/SqliteStore.v ===== *)
(** * SqliteStore: the methods of the store

    The methods of [SqliteStore] ([labby-auth/src/sqlite.rs],
    [sqlite/tokens.rs], [sqlite/google_credentials.rs],
    [sqlite/assertions.rs]) as programs: what each does around its SQL, the
    clock readings, hashing, encryption and argument checks.  [with_conn] is
    the effect [Sql]; a failure of the connection is an error answer of it. *)

From stdpp Require Import base list gmap strings.
From S2P Require Import Prelude RustStr Prog AuthTypes SamplePlatform Store Effects AtRest.

Section Methods.
Context `{Platform}.

(** ** Clients, requests, codes, sessions (sqlite.rs) *)

Definition register_client (client : RegisteredClient) : M (result unit AuthError) :=
  match json_encode (rc_redirect_uris client) with
  | Err error => ret_err (Storage ("serialize redirect_uris: " +:+ error))
  | Ok redirect_uris => sql (RegisterClient (rc_client_id client) redirect_uris (rc_created_at client))
  end.

Definition find_client (client_id : string) : M (result (option RegisteredClient) AuthError) :=
  sql (FindClient client_id).

Definition insert_authorization_request (request : AuthorizationRequestRow) : M (result unit AuthError) :=
  sql (InsertAuthorizationRequest request).

Definition take_authorization_request (state : string) : M (result AuthorizationRequestRow AuthError) :=
  let! now := now_unix in sql (TakeAuthorizationRequest state now).

Definition insert_auth_code (code : AuthorizationCodeRow) : M (result unit AuthError) :=
  sql (InsertAuthCode code).

Definition redeem_auth_code (code : string) : M (result AuthorizationCodeRow AuthError) :=
  let! now := now_unix in sql (RedeemAuthCode code now).

Definition upsert_browser_session (session : BrowserSessionRow) : M (result unit AuthError) :=
  sql (UpsertBrowserSession session).

Definition find_browser_session (session_id : string) : M (result (option BrowserSessionRow) AuthError) :=
  let! now := now_unix in sql (FindBrowserSession session_id now).

Definition revoke_browser_session (session_id : string) : M (result unit AuthError) :=
  sql (RevokeBrowserSession session_id).

Definition insert_browser_login_state (login : BrowserLoginStateRow) : M (result unit AuthError) :=
  sql (InsertBrowserLoginState login).

Definition take_browser_login_state (state : string) : M (result (option BrowserLoginStateRow) AuthError) :=
  let! now := now_unix in sql (TakeBrowserLoginState state now).

(** Three statements on one connection, at one clock reading. *)
Definition count_pending_oauth_states : M (result Z AuthError) :=
  let! now := now_unix in
  let!? authorization_requests := sql (CountPending PendingRequests now) in
  let!? browser_login_states := sql (CountPending PendingLogins now) in
  let!? native_authorization_results := sql (CountPending PendingNative now) in
  ret_ok (authorization_requests + browser_login_states + native_authorization_results)%Z.

Definition insert_native_authorization_result (r : NativeAuthorizationResultRow) : M (result unit AuthError) :=
  sql (InsertNativeAuthorizationResult r).

Definition take_native_authorization_result (state : string) :
  M (result (option NativeAuthorizationResultRow) AuthError) :=
  let! now := now_unix in sql (TakeNativeAuthorizationResult state now).

(** The sweep over the tables, the first error ending it. *)
Fixpoint delete_expired_from (tables : list ExpiringTable) (now total : Z) : M (result Z AuthError) :=
  match tables with
  | [] => ret_ok total
  | t :: rest =>
      let!? deleted := sql (DeleteExpired t now) in
      delete_expired_from rest now (total + deleted)%Z
  end.

Definition expiring_tables : list ExpiringTable :=
  [TAuthorizationRequests; TAuthorizationCodes; TRefreshTokens; TBrowserSessions; TBrowserLoginStates;
   TNativeAuthorizationResults; TUpstreamOauthState; TUpstreamOauthCredentials].

Definition cleanup_expired : M (result Z AuthError) :=
  let! now := now_unix in delete_expired_from expiring_tables now 0.

(** ** Upstream OAuth and the allowlist (sqlite.rs) *)

Definition UPSTREAM_OAUTH_STATE_MAX_TTL_SECS : Z := 600.

(** The subtraction is the release build's 64-bit one. *)
Definition i64_sub (a b : Z) : Z := i64_add a (- b).

Definition save_upstream_oauth_state (row : UpstreamOauthStateRow) : M (result unit AuthError) :=
  if bool_decide (us_expires_at row <= us_created_at row)%Z
     || bool_decide (UPSTREAM_OAUTH_STATE_MAX_TTL_SECS < i64_sub (us_expires_at row) (us_created_at row))%Z
  then ret_err (InvalidGrant "state TTL exceeds 600s")
  else sql (SaveUpstreamOauthState row).

Definition save_dynamic_client_registration (upstream_name subject client_id : string) : M (result unit AuthError) :=
  let! now := now_unix in sql (SaveDynamicClientRegistration upstream_name subject client_id now).

Definition add_allowed_user (email added_by : string) (created_at : Z) : M (result unit AuthError) :=
  let email := str_to_lowercase email in
  sql (AddAllowedUser email (fingerprint email) added_by created_at).

Definition remove_allowed_user (email : string) : M (result unit AuthError) :=
  sql (RemoveAllowedUser (str_to_lowercase email)).

(** ** Refresh tokens (sqlite/tokens.rs) *)

(** [row.provider_refresh_token] decrypted in place. *)
Definition decrypt_row (key : option string) (row : RefreshTokenRow) : result RefreshTokenRow AuthError :=
  match rt_provider_refresh_token row with
  | None => Ok row
  | Some raw =>
      let? plain := maybe_decrypt key raw in
      Ok (mkRefreshTokenRow (rt_refresh_token row) (rt_client_id row) (rt_subject row) (rt_resource row)
            (rt_scope row) (Some plain) (rt_created_at row) (rt_expires_at row))
  end.

Definition decrypt_opt (key : option string) (row : option RefreshTokenRow) : result (option RefreshTokenRow) AuthError :=
  match row with
  | None => Ok None
  | Some row => let? row := decrypt_row key row in Ok (Some row)
  end.

(** [.map(|raw| maybe_encrypt(..)).transpose()?] *)
Definition encrypt_opt (key : option string) (value : option string) : M (result (option string) AuthError) :=
  match value with
  | None => ret_ok None
  | Some raw => let!? stored := maybe_encrypt key raw in ret_ok (Some stored)
  end.

Definition claim_refresh_token (key : option string) (refresh_token claim_id : string) (lease_expires_at : Z) :
  M (result (option RefreshTokenRow) AuthError) :=
  let! now := now_unix in
  let!? row := sql (ClaimRefreshToken (hash_token refresh_token) refresh_token claim_id lease_expires_at now) in
  Ret (decrypt_opt key row).

Definition release_refresh_claim (refresh_token claim_id : string) : M (result unit AuthError) :=
  sql (ReleaseRefreshClaim (hash_token refresh_token) claim_id).

Definition upsert_refresh_token (key : option string) (token : RefreshTokenRow) : M (result unit AuthError) :=
  let!? encrypted_provider_rt := encrypt_opt key (rt_provider_refresh_token token) in
  sql (UpsertRefreshToken (hash_token (rt_refresh_token token)) token encrypted_provider_rt).

Definition rotate_refresh_token (key : option string) (old_token : string) (new_token : RefreshTokenRow) :
  M (result (option RefreshTokenRow) AuthError) :=
  let! now := now_unix in
  let!? encrypted_provider_rt := encrypt_opt key (rt_provider_refresh_token new_token) in
  sql (RotateRefreshToken (hash_token old_token) (hash_token (rt_refresh_token new_token)) new_token
         encrypted_provider_rt now).

Definition rotate_claimed_refresh_token (key : option string) (old_token claim_id : string) (new_token : RefreshTokenRow) :
  M (result (option RefreshTokenRow) AuthError) :=
  let! now := now_unix in
  let!? encrypted_provider_rt := encrypt_opt key (rt_provider_refresh_token new_token) in
  sql (RotateClaimedRefreshToken (hash_token old_token) claim_id (hash_token (rt_refresh_token new_token)) new_token
         encrypted_provider_rt now).

Definition find_refresh_token (key : option string) (refresh_token : string) :
  M (result (option RefreshTokenRow) AuthError) :=
  let! now := now_unix in
  let!? row := sql (FindRefreshToken (hash_token refresh_token) refresh_token now) in
  Ret (decrypt_opt key row).

Definition revoke_refresh_token (refresh_token : string) : M (result unit AuthError) :=
  sql (RevokeRefreshToken (hash_token refresh_token)).

Definition has_refresh_token_for_client (client_id : string) : M (result bool AuthError) :=
  let! now := now_unix in sql (HasRefreshTokenForClient now client_id).

(** ** Google credentials (sqlite/tokens.rs, sqlite/google_credentials.rs) *)

(** [.map(trim).filter(non-empty).map(to_ascii_lowercase)] *)
Definition normalized_email (email : option string) : option string :=
  match email with
  | None => None
  | Some e => let e := Str.trim e in if Str.is_empty e then None else Some (Str.to_ascii_lowercase e)
  end.

Definition upsert_google_provider_credential (key : option string) (subject : string) (email : option string)
    (refresh_token : string) : M (result unit AuthError) :=
  let!? encrypted := maybe_encrypt key refresh_token in
  let! now := now_unix in
  sql (UpsertGoogleProviderCredential subject (normalized_email email) encrypted now).

Definition associate_google_provider_email (subject email : string) : M (result bool AuthError) :=
  let! now := now_unix in
  sql (AssociateGoogleProviderEmail subject (Str.to_ascii_lowercase (Str.trim email)) now).

Definition has_google_provider_credential_for_subject (subject : string) : M (result bool AuthError) :=
  sql (HasGoogleForSubject subject).

Definition has_google_provider_credential_for_email (email : string) : M (result bool AuthError) :=
  sql (HasGoogleForEmail (Str.to_ascii_lowercase (Str.trim email))).

Definition invalidate_google_provider_credential (subject : string) (generation : Z) :
  M (result GoogleProviderInvalidation AuthError) :=
  sql (InvalidateGoogle subject generation).

Definition decode_row (key : option string) (row : GoogleProviderCredentialRow) :
  result GoogleProviderCredentialRow AuthError :=
  let? refresh_token := maybe_decrypt key (gp_refresh_token row) in
  let? access_token := match gp_access_token row with
    | Some t => let? plain := maybe_decrypt key t in Ok (Some plain)
    | None => Ok None
    end in
  Ok (mkGoogleProviderCredentialRow (gp_subject row) (gp_email row) (gp_client_id row) (gp_granted_scopes row)
        access_token refresh_token (gp_token_received_at row) (gp_access_token_expires_at row) (gp_issuer row)
        (gp_last_refresh_at row) (gp_last_scope_upgrade_at row) (gp_generation row) (gp_created_at row)
        (gp_updated_at row)).

Definition find_google_provider_credential_by_selector (key : option string) (selector : option string) :
  M (result (option GoogleProviderCredentialRow) AuthError) :=
  let selector := match selector with
    | Some s => let s := Str.trim s in if Str.is_empty s then None else Some s
    | None => None
    end in
  let!? rows := match selector with
    | Some selector =>
        let!? exact_subject := sql (SelectGoogleBySubject selector) in
        match exact_subject with
        | Some row => ret_ok [row]
        | None => sql (SelectGoogleByEmail selector)
        end
    | None => sql SelectGoogleAll
    end in
  Ret (match rows with
       | [] => Ok None
       | [row] => let? row := decode_row key row in Ok (Some row)
       | _ => Err (Config "multiple Google provider credentials exist; configure an account selector")
       end).

Definition find_google_provider_credential (key : option string) (subject : string) :
  M (result (option GoogleProviderCredentialRow) AuthError) :=
  find_google_provider_credential_by_selector key (Some subject).
Definition find_google_provider_credential_by_email (key : option string) (email : string) :
  M (result (option GoogleProviderCredentialRow) AuthError) :=
  find_google_provider_credential_by_selector key (Some email).

Definition count_google_provider_credentials : M (result Z AuthError) :=
  let!? count := sql CountGoogle in ret_ok (Z.max count 0).

Definition normalize_scopes (scopes : list string) : list string := merge_google_scopes [] scopes.

Definition upsert_google_provider_token_bundle (key : option string) (u : GoogleProviderCredentialUpdate) :
  M (result unit AuthError) :=
  let email := normalized_email (gu_email u) in
  let granted_scopes := normalize_scopes (gu_granted_scopes u) in
  match json_encode granted_scopes with
  | Err error => ret_err (Storage ("serialize Google scopes: " +:+ error))
  | Ok granted_scopes_json =>
      let!? encrypted_access_token := maybe_encrypt key (gu_access_token u) in
      let!? encrypted_refresh_token := maybe_encrypt key (gu_refresh_token u) in
      let! now := now_unix in
      sql (UpsertGoogleBundle
             (mkGoogleBundle (gu_subject u) email (gu_client_id u) granted_scopes_json encrypted_access_token
                encrypted_refresh_token (gu_token_received_at u) (gu_access_token_expires_at u) (gu_issuer u)
                (gu_refreshed u) (gu_scope_upgraded u)) now)
  end.

(** The loop of [revoke_google_provider_credential], four attempts. *)
Fixpoint revoke_attempts (attempts : nat) (key : option string) (selector : option string) :
  M (result GoogleProviderInvalidation AuthError) :=
  match attempts with
  | O => ret_err (Storage "Google provider credential changed repeatedly during explicit revoke")
  | S attempts' =>
      let!? row := find_google_provider_credential_by_selector key selector in
      match row with
      | None => ret_ok no_invalidation
      | Some row =>
          let!? invalidation := invalidate_google_provider_credential (gp_subject row) (gp_generation row) in
          if gi_invalidated invalidation then ret_ok invalidation else revoke_attempts attempts' key selector
      end
  end.

Definition revoke_google_provider_credential (key : option string) (selector : option string) :
  M (result GoogleProviderInvalidation AuthError) := revoke_attempts 4 key selector.

(** ** Signed assertions (sqlite/assertions.rs) *)

Definition MAX_ASSERTION_LIFETIME_SECS : Z := 300.
Definition MAX_ISSUER_BYTES : Z := 2048.
Definition MAX_JTI_BYTES : Z := 256.

Definition consume_assertion_jti (issuer jti : string) (issued_at expires_at now : Z) : M (result bool AuthError) :=
  if Str.is_empty issuer || bool_decide (MAX_ISSUER_BYTES < Str.len issuer)%Z
     || Str.is_empty jti || bool_decide (MAX_JTI_BYTES < Str.len jti)%Z
     || bool_decide (i64_saturating_add now 60 < issued_at)%Z || bool_decide (expires_at <= now)%Z
     || bool_decide (MAX_ASSERTION_LIFETIME_SECS < i64_saturating_sub expires_at issued_at)%Z
  then ret_ok false
  else sql (ConsumeAssertionJti issuer jti expires_at now).

End Methods.
