(* ===== verification/Jwt.v ===== *)
(** * Jwt: the server's own access tokens

    [SigningKeys] of [labby-auth/src/jwt.rs].  The key pair is the one the
    [Platform] encodes and decodes with; [JwtContract] is what the server
    relies on from the [jsonwebtoken] crate: a token it signed decodes to the
    claims it signed exactly when these pass the checks of the validation, and
    whatever decodes passed them. *)

From stdpp Require Import base list sets strings.
From S2P Require Import Prelude RustStr Prog AuthTypes SamplePlatform Store Effects.

Section Jwt.
Context `{Platform}.

Definition issue_access_token (claims : AccessClaims) : result string AuthError :=
  match jwt_encode claims with
  | Ok t => Ok t
  | Err e => Err (Storage ("encode access token: " +:+ e))
  end.

(** [Validation::new(EdDSA)] requires [exp] and does not look at [nbf] until
    told to. *)
Definition access_validation (audience issuer : list string) : JwtValidation :=
  mkJwtValidation EdDSA audience issuer ["exp"] true.

(** The deprecated entry point that leaves the issuer to its caller. *)
Definition validate_access_token (token expected_audience : string) : M (result AccessClaims AuthError) :=
  let! clock := now_unix in
  Ret (ok_or (jwt_decode_access clock token (access_validation [expected_audience] [])) InvalidAccessToken).

Definition validate_access_token_with_issuer (token expected_audience expected_issuer : string) :
  M (result AccessClaims AuthError) :=
  let! clock := now_unix in
  Ret (ok_or (jwt_decode_access clock token (access_validation [expected_audience] [expected_issuer]))
         InvalidAccessToken).

Class JwtContract : Prop := {
  decode_checked : ∀ clock t v c, jwt_decode_access clock t v = Some c → jwt_accepts clock v c = true;
  decode_own : ∀ clock c t v, jwt_encode c = Ok t → jv_alg v = EdDSA →
    jwt_decode_access clock t v = if jwt_accepts clock v c then Some c else None;
}.

Lemma accepts_aud_iss clock c aud iss :
  jwt_accepts clock (access_validation [aud] [iss]) c = true →
  cl_aud c = aud ∧ cl_iss c = iss ∧ (clock - 60 <= cl_exp c)%Z.
Proof.
  unfold jwt_accepts. simpl. intros Ha. split_bools.
  split_and!; [by apply list_elem_of_singleton|set_solver|lia].
Qed.

Lemma accepts_iff clock c aud iss :
  cl_nbf c = None →
  jwt_accepts clock (access_validation [aud] [iss]) c = true ↔
  cl_aud c = aud ∧ cl_iss c = iss ∧ (clock - 60 <= cl_exp c)%Z.
Proof.
  intros Hn. split; [apply accepts_aud_iss|]. intros (<- & <- & He). unfold jwt_accepts. rewrite Hn. simpl.
  rewrite (bool_decide_true (cl_aud c ∈ _)), (bool_decide_true (_ ∨ _)), (bool_decide_false (_ < _)%Z);
    [done|lia|right; by apply list_elem_of_singleton|by apply list_elem_of_singleton].
Qed.

End Jwt.

#[global] Instance sample_jwt_contract : @JwtContract sample_platform.
Proof.
  split; simpl.
  - intros clock t v c Hd. destruct (sample_jwt_claims t) as [c'|]; simpl in Hd; [|done].
    destruct (jwt_accepts clock v c') eqn:E; by simplify_eq.
  - intros clock c t v [= <-] _. by rewrite sample_jwt_round_trip.
Qed.
