(* ===== verification/Scopes.v ===== *)
(** * Scopes: who may sign in, with which scopes, on which resource

    The checks of [labby-auth/src/authorize.rs] that both the authorization
    and the token endpoint rely on. *)

From Stdlib Require Import Ascii.
From stdpp Require Import base list strings.
From S2P Require Import Prelude RustStr Prog AuthTypes SamplePlatform Store Effects Ssrf.

(** [remote_ip]: an IPv4-mapped IPv6 peer counts as its IPv4 address. *)
Definition remote_ip (ip : IpAddr) : IpAddr :=
  match ip with
  | IpV6 v6 => match to_ipv4_mapped v6 with Some v4 => IpV4 v4 | None => IpV6 v6 end
  | v4 => v4
  end.

Definition check_email_allowlist (email : option string) (email_verified : option bool)
    (allowed_emails : list string) : result unit AuthError :=
  if bool_decide (allowed_emails = []) then Ok ()
  else if negb (bool_decide (email_verified = Some true)) then
    Err (AuthFailed "google did not return a verified email address")
  else match email with
       | None => Err (AuthFailed "google did not return an email address")
       | Some e =>
           if existsb (fun a => Str.eq_ignore_ascii_case a (Str.trim e)) allowed_emails then Ok ()
           else Err (AuthFailed "google account is not permitted to access this gateway")
       end.

Definition validate_response_type (response_type : string) : result unit AuthError :=
  if String.eqb response_type "code" then Ok () else Err (Validation "response_type must be `code`").

(** [default_scope.split(':').next().unwrap_or(default_scope)], then [:admin]. *)
Definition admin_scope (default_scope : string) : string :=
  default default_scope (head (Str.split ":" default_scope)) +:+ ":admin".

Definition elevate_scope_for_allowed_user (scope default_scope : string) : string :=
  let admin := admin_scope default_scope in
  let scopes := List.filter (fun s => negb (Str.is_empty s)) (Str.split_whitespace scope) in
  let scopes := if existsb (fun s => String.eqb s admin) scopes then scopes else scopes ++ [admin] in
  Str.join " " scopes.

Section Checks.
Context `{Platform}.

Definition sanitize_return_to (st : AuthState) (requested : option string) : string :=
  let requested := match requested with
    | Some r => let r := Str.trim r in if Str.is_empty r then None else Some r
    | None => None
    end in
  match requested with
  | None => "/"
  | Some requested =>
      if Str.starts_with "/" requested && negb (Str.starts_with "//" requested) then requested
      else
        let public_url := cf_public_url (config st) in
        match url_parse requested with
        | Err _ => "/"
        | Ok url =>
            if negb (String.eqb (url_scheme url) (url_scheme public_url))
               || negb (bool_decide (url_host_str url = url_host_str public_url))
               || negb (bool_decide (url_port_or_known_default url = url_port_or_known_default public_url))
            then "/"
            else
              let normalized := url_path url in
              let normalized := match url_query url with Some q => normalized +:+ "?" +:+ q | None => normalized end in
              match url_fragment url with Some f => normalized +:+ "#" +:+ f | None => normalized end
        end
  end.

Definition not_allowed_resource (canonical : string) : AuthError :=
  Validation ("resource must be `" +:+ canonical +:+ "` or a configured protected MCP route").

Definition validate_resource (st : AuthState) (requested : option string) : M (result string AuthError) :=
  let canonical := canonical_resource_url st in
  let requested := match requested with
    | Some r => let r := Str.trim r in if Str.is_empty r then None else Some r
    | None => None
    end in
  match requested with
  | None => ret_ok canonical
  | Some requested =>
      let requested := Str.trim_end_matches "/" requested in
      if String.eqb requested canonical then ret_ok requested
      else
        let! allowed := is_allowed_resource_url requested in
        if allowed then ret_ok requested else ret_err (not_allowed_resource canonical)
  end.

(** The part of [validate_scope] after the supported scopes are known. *)
Definition pick_scope (st : AuthState) (resource scope : string) (supported : list string) : result string AuthError :=
  let canonical := canonical_resource_url st in
  let normalized := Str.trim scope in
  if Str.is_empty normalized then
    if String.eqb (Str.trim_end_matches "/" resource) canonical then Ok (cf_default_scope (config st))
    else Ok (Str.join " " supported)
  else
    let requested := Str.split_whitespace normalized in
    if forallb (fun scope => existsb (fun allowed => String.eqb allowed scope) supported) requested
    then Ok (Str.join " " requested)
    else Err (Validation ("scope must be one of: " +:+ Str.join ", " supported)).

Definition validate_scope (st : AuthState) (resource scope : string) : M (result string AuthError) :=
  let canonical := canonical_resource_url st in
  if String.eqb (Str.trim_end_matches "/" resource) canonical then
    Ret (pick_scope st resource scope (cf_scopes_supported (config st)))
  else
    let! scopes := allowed_resource_scopes resource in
    match scopes with
    | Some ((_ :: _) as supported) => Ret (pick_scope st resource scope supported)
    | _ => ret_err (not_allowed_resource canonical)
    end.

End Checks.

(** ** Scope elevation *)

Lemma filter_tokens l :
  Forall Str.is_token l → List.filter (fun s => negb (Str.is_empty s)) l = l.
Proof.
  induction 1 as [|s l [Hs _] _ IH]; [done|]. simpl. destruct s; [done|]. simpl. by rewrite IH.
Qed.

Lemma elevate_tokens scope default_scope :
  Str.is_token (admin_scope default_scope) →
  Str.split_whitespace (elevate_scope_for_allowed_user scope default_scope) =
  (if existsb (fun s => String.eqb s (admin_scope default_scope)) (Str.split_whitespace scope)
   then Str.split_whitespace scope
   else Str.split_whitespace scope ++ [admin_scope default_scope]).
Proof.
  intros Ha. pose proof (Str.split_whitespace_tokens scope) as Ht.
  unfold elevate_scope_for_allowed_user. rewrite (filter_tokens _ Ht).
  destruct (existsb _ _); rewrite Str.split_whitespace_join; [done|done|done|].
  apply Forall_app. split; [done|]. by constructor.
Qed.

(** Elevation of an allowlisted user: the elevated scope is the requested
    scopes in their order plus the brand's [admin] scope, which is added at
    most once, so elevating twice is elevating once. *)
Theorem elevation_adds_admin_once scope default_scope :
  Str.is_token (admin_scope default_scope) →
  let elevated := elevate_scope_for_allowed_user scope default_scope in
  (∀ s, s ∈ Str.split_whitespace elevated ↔
        s ∈ Str.split_whitespace scope ∨ s = admin_scope default_scope) ∧
  (∃ added, Str.split_whitespace elevated = Str.split_whitespace scope ++ added ∧ length added ≤ 1) ∧
  elevate_scope_for_allowed_user elevated default_scope = elevated.
Proof.
  intros Ha elevated. pose proof (elevate_tokens scope default_scope Ha) as He. fold elevated in He.
  destruct (existsb _ (Str.split_whitespace scope)) eqn:Ex; rewrite He.
  - apply existsb_elem in Ex as (a & Hin & ->%String.eqb_eq). split_and!; [|exists []; rewrite app_nil_r; split; [done|simpl; lia]|].
    + intros s. split; [by left|]. by intros [?| ->].
    + unfold elevated at 2, elevate_scope_for_allowed_user. rewrite He.
      pose proof (Str.split_whitespace_tokens scope) as Ht. rewrite (filter_tokens _ Ht). done.
  - split_and!; [|eexists; split; [done|simpl; lia]|].
    + intros s. rewrite elem_of_app, list_elem_of_singleton. done.
    + unfold elevated at 2, elevate_scope_for_allowed_user. rewrite He.
      pose proof (Str.split_whitespace_tokens scope) as Ht. rewrite (filter_tokens _ Ht), Ex.
      rewrite filter_tokens by (apply Forall_app; split; [done|by constructor]).
      rewrite existsb_app. simpl. rewrite String.eqb_refl, orb_true_r. done.
Qed.

(** ** The allowlist *)

Lemma eq_ignore_ascii_case_trans a b c :
  Str.eq_ignore_ascii_case a b = true → Str.eq_ignore_ascii_case a c = true →
  Str.eq_ignore_ascii_case b c = true.
Proof. unfold Str.eq_ignore_ascii_case. rewrite !String.eqb_eq. congruence. Qed.

Section Policy.
Context `{Platform}.

(** The addresses that may sign in, given the rows of the allowlist. *)
Definition may_sign_in (st : AuthState) (rows : list AllowedUserRow) (e : string) : Prop :=
  Str.eq_ignore_ascii_case (cf_admin_email (config st)) (Str.trim e) = true ∨
  ∃ row, row ∈ rows ∧ Str.eq_ignore_ascii_case (au_email row) (Str.trim e) = true.

Lemma check_allowlist_Ok email verified allowed :
  allowed ≠ [] →
  check_email_allowlist email verified allowed = Ok () ↔
  verified = Some true ∧ ∃ e, email = Some e ∧ ∃ a, a ∈ allowed ∧ Str.eq_ignore_ascii_case a (Str.trim e) = true.
Proof.
  intros Hne. unfold check_email_allowlist. rewrite bool_decide_false by done.
  case_bool_decide as Hv; simpl; [|split; [done|by intros [? _]]].
  destruct email as [e|]; [|split; [done|by intros (_ & e & [=] & _)]].
  destruct (existsb _ allowed) eqn:Ex.
  - apply existsb_elem in Ex. split; [|done]. intros _. split; [done|]. eauto.
  - split; [done|]. intros (_ & e' & [= <-] & Ha). exfalso.
    apply not_true_iff_false in Ex. apply Ex, existsb_elem, Ha.
Qed.

(** The list [resolve_allowed_emails] builds from the rows of the allowlist. *)
Definition allowed_list (st : AuthState) (rows : list AllowedUserRow) : list string :=
  cf_admin_email (config st) ::
    (au_email <$> List.filter (fun r => negb (Str.eq_ignore_ascii_case (au_email r) (cf_admin_email (config st)))) rows).

Lemma check_allowed_list st rows email verified :
  check_email_allowlist email verified (allowed_list st rows) = Ok () ↔
  verified = Some true ∧ ∃ e, email = Some e ∧ may_sign_in st rows e.
Proof.
  rewrite check_allowlist_Ok by done. unfold may_sign_in. split.
  - intros (Hv & e & -> & a & Ha & He). split; [done|]. exists e. split; [done|].
    apply elem_of_cons in Ha as [->|Ha]; [by left|]. right.
    apply list_elem_of_fmap in Ha as (row & -> & Hr). exists row. split; [|done].
    apply list_elem_of_In, List.filter_In in Hr as [Hr _]. by apply list_elem_of_In.
  - intros (Hv & e & -> & [He|(row & Hr & He)]); (split; [done|]); exists e; (split; [done|]).
    + exists (cf_admin_email (config st)). split; [by left|done].
    + destruct (Str.eq_ignore_ascii_case (au_email row) (cf_admin_email (config st))) eqn:Ea.
      * exists (cf_admin_email (config st)). split; [by left|]. by eapply eq_ignore_ascii_case_trans.
      * exists (au_email row). split; [|done]. right. apply list_elem_of_fmap. exists row. split; [done|].
        apply list_elem_of_In, List.filter_In. split; [by apply list_elem_of_In|]. by rewrite Ea.
Qed.

(** The sign-in gate fails closed: the list the callback checks is never
    empty (a database error is an error, not an empty list), and it admits a
    Google account iff Google reports a verified address which is, up to ASCII
    case and surrounding blanks, the administrator's or one in the allowlist. *)
Theorem allowlist_gate st :
  always (resolve_allowed_emails st) (fun tr r =>
    ∃ answer, tr = [existT (Sql ListAllowedUsers) answer] ∧
    match r with
    | Err e => answer = Err e
    | Ok allowed =>
        ∃ rows, answer = Ok rows ∧ allowed ≠ [] ∧
        ∀ email verified,
          check_email_allowlist email verified allowed = Ok () ↔
          verified = Some true ∧ ∃ e, email = Some e ∧ may_sign_in st rows e
    end).
Proof.
  unfold resolve_allowed_emails. unroll. intros [rows|e]; unroll; [|by eexists].
  exists (Ok rows). split; [done|]. exists rows. split_and!; [done|done|]. apply check_allowed_list.
Qed.

(** ** Requested scopes *)

Lemma pick_scope_Ok st resource scope supported s :
  pick_scope st resource scope supported = Ok s →
  (Str.is_empty (Str.trim scope) = true ∧
     s = (if String.eqb (Str.trim_end_matches "/" resource) (canonical_resource_url st)
          then cf_default_scope (config st) else Str.join " " supported)) ∨
  (Str.is_empty (Str.trim scope) = false ∧
     Str.split_whitespace s = Str.split_whitespace (Str.trim scope) ∧
     ∀ t, t ∈ Str.split_whitespace s → t ∈ supported).
Proof.
  unfold pick_scope. destruct (Str.is_empty (Str.trim scope)) eqn:Ee.
  { intros Hs. left. split; [done|]. destruct (String.eqb _ _); by injection Hs as <-. }
  destruct (forallb _ _) eqn:Ef; [|done]. intros [= <-]. right.
  pose proof (Str.split_whitespace_tokens (Str.trim scope)) as Ht.
  rewrite Str.split_whitespace_join by done. split_and!; [done|done|].
  intros t Hin. apply (proj1 (forallb_elem _ _) Ef) in Hin. apply existsb_elem in Hin as (a & Ha & Heq).
  by apply String.eqb_eq in Heq as ->.
Qed.

(** The scopes [validate_scope] accepts on a resource, given its trace. *)
Definition supported_on (st : AuthState) (resource : string) (tr : Trace) (supported : list string) : Prop :=
  if String.eqb (Str.trim_end_matches "/" resource) (canonical_resource_url st)
  then supported = cf_scopes_supported (config st) ∧ tr = []
  else tr = [existT (EffectiveScopes resource) (Some supported)] ∧ supported ≠ [].

(** No scope escapes the resource: a scope string accepted for a resource
    is the server's default (canonical resource, nothing requested), all scopes
    of the resource (other resource, nothing requested), or exactly the
    requested scopes, each supported by the canonical resource's configuration
    or currently granted on the protected resource by the registry. *)
Theorem validated_scope_supported st resource scope :
  always (validate_scope st resource scope) (fun tr r =>
    ∀ s, r = Ok s →
    ∃ supported, supported_on st resource tr supported ∧
      ((Str.is_empty (Str.trim scope) = true ∧
          s = (if String.eqb (Str.trim_end_matches "/" resource) (canonical_resource_url st)
               then cf_default_scope (config st) else Str.join " " supported)) ∨
       (Str.is_empty (Str.trim scope) = false ∧
          Str.split_whitespace s = Str.split_whitespace (Str.trim scope) ∧
          ∀ t, t ∈ Str.split_whitespace s → t ∈ supported))).
Proof.
  unfold validate_scope, supported_on, allowed_resource_scopes.
  destruct (String.eqb _ (canonical_resource_url st)) eqn:Ec.
  - intros s Hs. exists (cf_scopes_supported (config st)). split; [done|].
    apply pick_scope_Ok in Hs. by rewrite Ec in Hs.
  - unroll. intros [[|x l]|]; unroll; [done| |done]. intros s Hs. exists (x :: l).
    split; [done|]. apply pick_scope_Ok in Hs. by rewrite Ec in Hs.
Qed.

(** ** Where a browser is sent after login *)

(** A same-origin absolute [return_to] is reduced to its path, query and
    fragment exactly as the URL parser reports them.  The path is not checked
    again, so a path that starts with two slashes is returned as it is, and
    the browser reads it as a different host. *)
Theorem return_to_keeps_path st requested u :
  Str.trim requested = requested → Str.starts_with "/" requested = false → Str.is_empty requested = false →
  url_parse requested = Ok u →
  url_scheme u = url_scheme (cf_public_url (config st)) →
  url_host_str u = url_host_str (cf_public_url (config st)) →
  url_port_or_known_default u = url_port_or_known_default (cf_public_url (config st)) →
  sanitize_return_to st (Some requested) =
    url_path u +:+ match url_query u with Some q => "?" +:+ q | None => "" end
               +:+ match url_fragment u with Some f => "#" +:+ f | None => "" end.
Proof.
  intros Ht Hs He Hp Hsc Hh Hpo. unfold sanitize_return_to. rewrite Ht, He, Hs, Hp. cbn [andb].
  rewrite Hsc, Hh, Hpo, String.eqb_refl, !bool_decide_true by done. cbn [negb orb].
  destruct (url_query u), (url_fragment u); rewrite ?Str.app_nil_r, ?Str.app_nil_l, ?Str.app_assoc; done.
Qed.

End Policy.

(** ** Witnesses *)

Lemma elevation_adds_admin_once_witness :
  elevate_scope_for_allowed_user (elevate_scope_for_allowed_user "lab:read  mcp:read" "lab:read") "lab:read"
  = "lab:read mcp:read lab:admin".
Proof.
  etransitivity; [apply (elevation_adds_admin_once "lab:read  mcp:read" "lab:read")|vm_compute; reflexivity].
  split; [discriminate|vm_compute; reflexivity].
Defined.

#[local] Existing Instance sample_platform.

Definition sample_config : AuthConfig := {|
  cf_mode := OAuth;
  cf_public_url := sample_url "https://labby.example/";
  cf_allowed_client_redirect_uris := ["https://*.example.com/*"];
  cf_admin_email := "admin@example.com";
  cf_access_token_ttl := 3600; cf_refresh_token_ttl := 86400; cf_auth_code_ttl := 300;
  cf_max_pending_oauth_states := 1024; cf_codex_issuer_compatibility := false;
  cf_env_prefix := "LAB"; cf_session_cookie_name := "lab_session";
  cf_scopes_supported := ["lab:read"; "lab:admin"]; cf_resource_path := "/mcp"; cf_default_scope := "lab:read";
  cf_machine_clients := [mkMachineClientConfig "robot" (Some "s3cret") None ["lab:read"] ["https://labby.example/mcp"]];
  cf_enterprise_issuers := []; cf_token_encryption_key := None;
  cf_static_token_scopes := ["lab:read"; "lab:admin"]; cf_login_path := "/auth/login";
  cf_enable_dynamic_registration := true; cf_disable_static_token_with_oauth := true |}.

Definition sample_state : AuthState :=
  mkAuthState sample_config "google-client" (sample_url "https://labby.example/auth/google/callback")
    ["openid"; "email"] (sample_url "https://accounts.google.com/o/oauth2/v2/auth").

Lemma return_to_keeps_path_witness :
  sanitize_return_to sample_state (Some "https://labby.example//evil.example/x") = "//evil.example/x".
Proof.
  rewrite (return_to_keeps_path sample_state "https://labby.example//evil.example/x"
             (sample_url "https://labby.example//evil.example/x")); vm_compute; reflexivity.
Defined.
