(* ===== verification/Cimd.v ===== *)
(** * Cimd: clients identified by a metadata document

    [labby-auth/src/cimd.rs]: a client identifier that is an HTTPS URL names a
    document that is fetched, validated and cached; every other identifier is
    looked up in the database. *)

From stdpp Require Import base list strings.
From S2P Require Import Prelude RustStr Prog AuthTypes SamplePlatform Store Effects SqliteStore Ssrf.
From S2P Require Import Redirect Scopes.

Section Cimd.
Context `{Platform}.

Definition MAX_CACHE_ENTRIES : Z := 1024.

Definition metadata_document_url (client_id : string) : option Url :=
  match parse_validated_https_url client_id with
  | Ok url => if negb (String.eqb (url_path url) "/") && negb (Str.is_empty (url_path url)) then Some url else None
  | Err _ => None
  end.

Definition is_metadata_document_client_id (client_id : string) : bool :=
  match metadata_document_url client_id with Some _ => true | None => false end.

(** The checks of [validate_document]. *)
Definition check_document (expected_client_id : string) (document : ClientMetadataDocument)
    (allowed_redirect_patterns : list string) : result unit AuthError :=
  if negb (String.eqb (cd_client_id document) expected_client_id) then
    Err (InvalidGrant "client metadata client_id does not match document URL")
  else if Str.is_empty (Str.trim (cd_client_name document)) || bool_decide (cd_redirect_uris document = []) then
    Err (Validation "client metadata requires client_name and redirect_uris")
  else if existsb (fun uri => negb (is_allowed_redirect_uri uri allowed_redirect_patterns)) (cd_redirect_uris document) then
    Err (Validation "client metadata contains an unsafe redirect URI")
  else if negb (String.eqb (cd_token_endpoint_auth_method document) "none"
                || String.eqb (cd_token_endpoint_auth_method document) "private_key_jwt") then
    Err (Validation "client metadata token_endpoint_auth_method must be none or private_key_jwt")
  else if String.eqb (cd_token_endpoint_auth_method document) "private_key_jwt"
          && bool_decide (cd_jwks document = None) then
    Err (Validation "private_key_jwt client metadata requires inline jwks")
  else Ok ().

Definition validate_document (expected_client_id : string) (document : ClientMetadataDocument)
    (allowed_redirect_patterns : list string) : M (result RegisteredClient AuthError) :=
  match check_document expected_client_id document allowed_redirect_patterns with
  | Err e => ret_err e
  | Ok _ =>
      let! now := now_unix in
      ret_ok (mkRegisteredClient (cd_client_id document) (cd_redirect_uris document) now
                (cd_token_endpoint_auth_method document) (cd_jwks document))
  end.

(** The insertion into the bounded cache. *)
Definition cache_client (client_id : string) (client : RegisteredClient) (policy : CachePolicy) : M unit :=
  if cacheable policy then
    let! now := now_unix in
    let! _ := eff (CimdRetain now) in
    let! _ := eff (CimdEvict MAX_CACHE_ENTRIES) in
    let! now := now_unix in
    eff (CimdInsert client_id client (i64_saturating_add now (max_age_secs policy)))
  else Ret ().

(** From the miss on: the permit, the fetch, the validation, the cache.  Every
    exit gives back the permit and the lock [lk]; the exits after a fetch
    error and on success also drop the entry of the lock table. *)
Definition fetch_client (st : AuthState) (client_id : string) (url : Url) (lk : Z) (lock_key : string) :
  M (result (option RegisteredClient) AuthError) :=
  let! permit := eff AcquirePermit in
  match permit with
  | Err _ => let! _ := eff (Release lk) in ret_err (Server "remote metadata fetch limiter closed")
  | Ok _ =>
      let! fetched := eff (FetchClientDocument url) in
      match fetched with
      | Err error =>
          let! _ := eff (Release lk) in
          let! _ := eff (RemoveEntry lock_key) in
          let! _ := eff ReleasePermit in
          ret_err error
      | Ok (document, cache_policy) =>
          let! validated := validate_document client_id document (cf_allowed_client_redirect_uris (config st)) in
          match validated with
          | Err error =>
              let! _ := eff ReleasePermit in
              let! _ := eff (Release lk) in
              ret_err error
          | Ok client =>
              let! _ := cache_client client_id client cache_policy in
              let! _ := eff (Release lk) in
              let! _ := eff (RemoveEntry lock_key) in
              let! _ := eff ReleasePermit in
              ret_ok (Some client)
          end
      end
  end.

(** The second look at the cache, once the lock is held. *)
Definition resolve_locked (st : AuthState) (client_id : string) (url : Url) (lk : Z) (lock_key : string) :
  M (result (option RegisteredClient) AuthError) :=
  let! entry := eff (CimdGet client_id) in
  match entry with
  | Some (client, expires) =>
      let! now := now_unix in
      if bool_decide (now < expires)%Z then
        let! _ := eff (Release lk) in
        let! _ := eff (RemoveEntry lock_key) in
        ret_ok (Some client)
      else fetch_client st client_id url lk lock_key
  | None => fetch_client st client_id url lk lock_key
  end.

Definition resolve_client (st : AuthState) (client_id : string) : M (result (option RegisteredClient) AuthError) :=
  match metadata_document_url client_id with
  | None => find_client client_id
  | Some url =>
      let! now := now_unix in
      let lock_key := "cimd:" +:+ client_id in
      let! lk := eff (LockEntry lock_key) in
      let! _ := eff (Acquire lk) in
      let! entry := eff (CimdGet client_id) in
      match entry with
      | Some (client, expires) =>
          if bool_decide (now < expires)%Z
          then let! _ := eff (Release lk) in ret_ok (Some client)
          else resolve_locked st client_id url lk lock_key
      | None => resolve_locked st client_id url lk lock_key
      end
  end.

(** ** Properties *)

(** What a client taken from a metadata document satisfies. *)
Definition document_client (st : AuthState) (client_id : string) (c : RegisteredClient) : Prop :=
  rc_client_id c = client_id ∧ rc_redirect_uris c ≠ [] ∧
  (∀ uri, uri ∈ rc_redirect_uris c → is_allowed_redirect_uri uri (cf_allowed_client_redirect_uris (config st)) = true) ∧
  (rc_token_endpoint_auth_method c = "none" ∨
   (rc_token_endpoint_auth_method c = "private_key_jwt" ∧ rc_jwks c ≠ None)).

Lemma check_document_Ok st client_id d u now :
  check_document client_id d (cf_allowed_client_redirect_uris (config st)) = Ok u →
  document_client st client_id
    (mkRegisteredClient (cd_client_id d) (cd_redirect_uris d) now (cd_token_endpoint_auth_method d) (cd_jwks d)).
Proof.
  unfold check_document.
  destruct (String.eqb_spec (cd_client_id d) client_id) as [He|]; [|done]. cbn [negb].
  destruct (Str.is_empty _ || _) eqn:En; [done|].
  destruct (existsb _ _) eqn:Ex; [done|].
  destruct (String.eqb _ "none" || _) eqn:Em; [|done]. cbn [negb].
  destruct (_ && bool_decide (cd_jwks d = None)) eqn:Ej; [done|]. intros _.
  split_bools. split_and!; simpl; [done|done| |].
  - intros uri Hu. destruct (is_allowed_redirect_uri _ _) eqn:Ea; [done|]. exfalso.
    apply not_true_iff_false in Ex. apply Ex, existsb_elem. exists uri. by rewrite Ea.
  - apply orb_true_iff in Em as [Em|Em]; apply String.eqb_eq in Em; [by left|right]. split; [done|].
    rewrite Em, String.eqb_refl in Ej. by apply bool_decide_eq_false in Ej.
Qed.

(** Locks and permits taken minus given back. *)
Definition lock_delta (s : step_of eresp) : Z :=
  match s with
  | existT (Acquire _) _ => 1%Z
  | existT (Release _) _ => (-1)%Z
  | _ => 0%Z
  end.
Definition permit_delta (s : step_of eresp) : Z :=
  match s with
  | existT e r =>
      match e as e return eresp e → Z with
      | AcquirePermit => fun r => match r with Ok _ => 1%Z | Err _ => 0%Z end
      | ReleasePermit => fun _ => (-1)%Z
      | _ => fun _ => 0%Z
      end r
  end.
Definition total (f : step_of eresp → Z) (tr : Trace) : Z := foldr (fun s acc => f s + acc)%Z 0%Z tr.

Definition is_sql (s : step_of eresp) : bool := match s with existT (Sql _) _ => true | _ => false end.

(** The outcome of a resolution through a document: where the client came
    from, and that the database was not consulted. *)
Definition resolved_by_document (st : AuthState) (client_id : string) (tr : Trace)
    (r : result (option RegisteredClient) AuthError) : Prop :=
  forallb (fun s => negb (is_sql s)) tr = true ∧
  r ≠ Ok None ∧
  ∀ c, r = Ok (Some c) →
    (∃ expires now, existT (CimdGet client_id) (Some (c, expires)) ∈ tr ∧ existT Now now ∈ tr ∧ (now < expires)%Z) ∨
    ((∃ url d p, existT (FetchClientDocument url) (Ok (d, p)) ∈ tr) ∧ document_client st client_id c).

Lemma fetch_client_spec st client_id url lk key :
  always (fetch_client st client_id url lk key) (fun tr r =>
    resolved_by_document st client_id tr r ∧ total lock_delta tr = (-1)%Z ∧ total permit_delta tr = 0%Z).
Proof.
  unfold fetch_client, resolved_by_document. unroll. intros [[]|[]]; unroll; [|by intros []].
  intros [[d p]|e]; unroll; [|by intros [] [] []].
  unfold validate_document. destruct (check_document _ _ _) as [u|e] eqn:Ec; unroll; [|by intros [] []].
  intros now. unfold cache_client. destruct (cacheable p); unroll;
    [intros now1 [] [] now2 [] [] [] []|intros [] [] []];
    (split_and!; [done|done| |done|done]); intros c [= <-]; right;
    (split; [exists url, d, p; repeat (first [by left|right])|by eapply check_document_Ok]).
Qed.

Lemma total_app f (a b : Trace) : total f (a ++ b) = (total f a + total f b)%Z.
Proof. unfold total. induction a as [|x a IH]; simpl; [lia|]. rewrite IH. lia. Qed.

(** Steps before a part of the program do not change where its client came from. *)
Lemma resolved_prefix st client_id pre tr r :
  forallb (fun s => negb (is_sql s)) pre = true →
  resolved_by_document st client_id tr r → resolved_by_document st client_id (pre ++ tr) r.
Proof.
  intros Hs (Hsql & Hn & Hc). unfold resolved_by_document. rewrite forallb_app, Hs, Hsql.
  split_and!; [done|done|]. intros c Hr.
  destruct (Hc c Hr) as [(x & n & Hx & Hn' & Hlt)|[(x & d & p & Hx) Hd]]; [left|right; split; [|done]].
  - exists x, n. rewrite !elem_of_app. eauto.
  - exists x, d, p. apply elem_of_app. by right.
Qed.

Lemma resolved_cached st client_id c x now tr :
  forallb (fun s => negb (is_sql s)) tr = true → existT (CimdGet client_id) (Some (c, x)) ∈ tr →
  existT Now now ∈ tr → (now < x)%Z → resolved_by_document st client_id tr (Ok (Some c)).
Proof. intros Hs Hin Hn Hlt. split_and!; [done|done|]. intros c' [= <-]. left. by exists x, now. Qed.

(** The specification of a part that runs with the lock held. *)
Definition gives_back (st : AuthState) (client_id : string) (p : M (result (option RegisteredClient) AuthError)) : Prop :=
  always p (fun tr r =>
    resolved_by_document st client_id tr r ∧ total lock_delta tr = (-1)%Z ∧ total permit_delta tr = 0%Z).

Lemma gives_back_after st client_id p pre (l : Z) :
  gives_back st client_id p →
  forallb (fun s => negb (is_sql s)) pre = true → total lock_delta pre = l → total permit_delta pre = 0%Z →
  always p (fun tr r => resolved_by_document st client_id (pre ++ tr) r ∧
                        total lock_delta (pre ++ tr) = (l - 1)%Z ∧ total permit_delta (pre ++ tr) = 0%Z).
Proof.
  intros Hg Hs Hl Hp. eapply always_mono; [exact Hg|]. intros tr r (Hr & Hl' & Hp').
  rewrite !total_app. split_and!; [by apply resolved_prefix|lia|lia].
Qed.

Lemma resolve_locked_spec st client_id url lk key :
  gives_back st client_id (resolve_locked st client_id url lk key).
Proof.
  pose proof (fetch_client_spec st client_id url lk key) as Hf.
  unfold gives_back, resolve_locked. unroll. intros [[c x]|]; unroll.
  - intros now. case_bool_decide; unroll; [intros [] []|].
    + split_and!; [|done|done]. eapply resolved_cached; [done|by left|by right; left|done].
    + by apply (gives_back_after _ _ _ [_; _] 0).
  - by apply (gives_back_after _ _ _ [_] 0).
Qed.

(** A URL client is never downgraded to its database row: when the client
    identifier names a metadata document, resolution issues no SQL, never
    answers "unknown client", and returns either an unexpired cached client or one whose
    document was fetched and names this very identifier, with allowed redirect
    URIs and an authentication method the token endpoint enforces; on every
    path the lock taken is given back and so is the fetch permit. *)
Theorem cimd_no_downgrade st client_id url :
  metadata_document_url client_id = Some url →
  always (resolve_client st client_id) (fun tr r =>
    resolved_by_document st client_id tr r ∧ total lock_delta tr = 0%Z ∧ total permit_delta tr = 0%Z).
Proof.
  intros Hu. unfold resolve_client. rewrite Hu. unroll. intros now lk [].
  pose proof (resolve_locked_spec st client_id url lk ("cimd:" +:+ client_id)) as Hg.
  intros [[c x]|]; [|by apply (gives_back_after _ _ _ [_; _; _; _] 1)].
  case_bool_decide; [|by apply (gives_back_after _ _ _ [_; _; _; _] 1)].
  unroll. intros []. split_and!; [|done|done]. eapply resolved_cached; [done|do 3 right; by left|by left|done].
Qed.

End Cimd.

#[local] Existing Instance sample_platform.

Lemma cimd_no_downgrade_witness :
  always (resolve_client sample_state "https://client.example/app.json") (fun tr r => r ≠ Ok None).
Proof.
  eapply always_mono.
  - apply (cimd_no_downgrade sample_state "https://client.example/app.json" (sample_url "https://client.example/app.json")).
    vm_compute. reflexivity.
  - intros tr r ((_ & Hn & _) & _). exact Hn.
Defined.
