(* ===== verification/Token.v ===== *)
(** * Token: the token and revocation endpoints

    [labby-auth/src/token.rs] and [token/response.rs]: client authentication,
    the four grants, revocation, and the mapping of errors to OAuth responses,
    each handler as one program. *)

From Stdlib Require Import Ascii.
From stdpp Require Import base list gmap strings pretty.
From S2P Require Import Prelude RustStr Prog AuthTypes SamplePlatform Store Effects AtRest.
From S2P Require Import SqliteStore Jwt Ssrf Redirect Scopes Cimd.

(** ** Responses (token/response.rs) *)

Inductive TokenEndpointError :=
| TeAuth (e : AuthError)
| UnsupportedGrantType (grant_type : string).

Definition oauth_error (e : TokenEndpointError) : string :=
  match e with
  | TeAuth (InvalidGrant _) => "invalid_grant"
  | TeAuth (InvalidScope _) => "invalid_scope"
  | TeAuth (OauthNeedsReauth _) => "oauth_needs_reauth"
  | UnsupportedGrantType _ => "unsupported_grant_type"
  | TeAuth (AuthFailed _) | TeAuth InvalidAccessToken => "invalid_client"
  | TeAuth (RateLimited _ _) => "temporarily_unavailable"
  | TeAuth (Validation _) => "invalid_request"
  | TeAuth (Config _) | TeAuth (Storage _) | TeAuth (Network _) | TeAuth (Server _) | TeAuth (Decode _)
  | TeAuth (InsecurePermissions _) => "server_error"
  end.

Definition log_kind (e : TokenEndpointError) : string :=
  match e with TeAuth e => kind e | UnsupportedGrantType _ => "unsupported_grant_type" end.

Definition te_status (e : TokenEndpointError) : Z :=
  match e with
  | TeAuth (InvalidGrant _) | TeAuth (InvalidScope _) | TeAuth (Validation _) | UnsupportedGrantType _ => 400
  | TeAuth (OauthNeedsReauth _) | TeAuth (AuthFailed _) | TeAuth InvalidAccessToken => 401
  | TeAuth (RateLimited _ _) => 429
  | TeAuth (Config _) | TeAuth (Storage _) | TeAuth (Network _) | TeAuth (Server _) | TeAuth (Decode _)
  | TeAuth (InsecurePermissions _) => 500
  end.

Definition description (e : TokenEndpointError) : string :=
  if String.eqb (oauth_error e) "invalid_client" then "invalid client credentials"
  else match e with
       | TeAuth error => to_string error
       | UnsupportedGrantType grant_type => "unsupported grant_type `" +:+ grant_type +:+ "`"
       end.

Definition retry_after_ms (e : TokenEndpointError) : option Z :=
  match e with TeAuth (RateLimited _ ms) => Some ms | _ => None end.

Inductive Body :=
| TokenBody (r : TokenResponse)
| ErrorBody (error error_description : string)
| EmptyBody.

Record Response := mkResponse {
  rs_status : Z;
  rs_headers : list (string * string);
  rs_body : Body;
}.

Definition apply_token_cache_headers (r : Response) : Response :=
  mkResponse (rs_status r) (rs_headers r ++ [("cache-control", "no-store"); ("pragma", "no-cache")]) (rs_body r).

Definition error_response (e : TokenEndpointError) : Response :=
  let retry := match retry_after_ms e with
    | Some ms => [("retry-after", pretty (Z.max (ms / 1000) 1))]
    | None => []
    end in
  apply_token_cache_headers (mkResponse (te_status e) retry (ErrorBody (oauth_error e) (description e))).

Definition token_response (r : TokenResponse) : Response :=
  apply_token_cache_headers (mkResponse 200 [] (TokenBody r)).

Section Token.
Context `{Platform}.

(** ** Small checks (token.rs) *)

Definition invalid_client : AuthError := AuthFailed "invalid client credentials".

Definition require_field (value : option string) (field : string) : result string AuthError :=
  ok_or value (Validation ("missing `" +:+ field +:+ "` parameter")).

Definition pkce_challenge (code_verifier : string) : string := base64url_encode (sha256 code_verifier).

Definition ensure_allowed_algorithm (a : Algorithm) : result unit AuthError :=
  match a with EdDSA | RS256 | ES256 => Ok () | OtherAlgorithm _ => Err invalid_client end.

Definition ensure_jwk_algorithm (jwk : Jwk) (a : Algorithm) : result unit AuthError :=
  let matches := match jwk_key_algorithm jwk with
    | None => true
    | Some EdDSA => bool_decide (a = EdDSA)
    | Some RS256 => bool_decide (a = RS256)
    | Some ES256 => bool_decide (a = ES256)
    | Some (OtherAlgorithm _) => false
    end in
  if matches then Ok () else Err invalid_client.

Definition validate_authorization_code_row (row : AuthorizationCodeRow)
    (client_id redirect_uri code_verifier : string) : result unit AuthError :=
  if negb (String.eqb (ac_client_id row) client_id) then
    Err (InvalidGrant "client_id does not match the authorization code")
  else if negb (String.eqb (ac_redirect_uri row) redirect_uri) then
    Err (InvalidGrant "redirect_uri does not match the authorization code")
  else if negb (String.eqb (ac_code_challenge_method row) "S256") then
    Err (InvalidGrant "authorization code uses an unsupported PKCE method")
  else if negb (String.eqb (pkce_challenge code_verifier) (ac_code_challenge row)) then
    Err (InvalidGrant "code_verifier does not match the authorization code")
  else Ok ().

(** The [Authorization] header: absent, not visible ASCII, or a string. *)
Definition basic_client_credentials (authorization : option (option string)) :
  result (option (string * string)) AuthError :=
  match authorization with
  | None => Ok None
  | Some None => Err invalid_client
  | Some (Some raw) =>
      match Str.split_once " " raw with
      | None => Err invalid_client
      | Some (scheme, encoded) =>
          if negb (Str.eq_ignore_ascii_case scheme "basic") then Err invalid_client
          else
            let decoded := match base64_decode (Str.trim encoded) with
              | Some bytes => if utf8_valid bytes then Some bytes else None
              | None => None
              end in
            let? decoded := ok_or decoded invalid_client in
            let? credentials := ok_or (Str.split_once ":" decoded) invalid_client in
            let decode_component value := ok_or (form_urlencoded_first_value ("value=" +:+ value)) invalid_client in
            let? client_id := decode_component credentials.1 in
            let? client_secret := decode_component credentials.2 in
            Ok (Some (client_id, client_secret))
      end
  end.

(** [AuthError::Validation] becomes [AuthError::InvalidScope]. *)
Definition validation_to_scope (e : AuthError) : AuthError :=
  match e with Validation m => InvalidScope m | other => other end.

Definition validate_token_scope (st : AuthState) (resource scope : string) : M (result string AuthError) :=
  let! r := validate_scope st resource scope in Ret (map_err validation_to_scope r).

Definition field (st : AuthState) (name : string) : string := cf_env_prefix (config st) +:+ name.

Definition build_token_response (st : AuthState) (client_id subject resource scope : string)
    (refresh_token : option string) : M (result TokenResponse AuthError) :=
  let issuer := public_base_url st in
  let! now := now_unix in
  let!? now := lift (timestamp_usize now "current unix timestamp") in
  let!? access_token_ttl := lift (duration_secs_usize (cf_access_token_ttl (config st))
                                    (field st "_AUTH_ACCESS_TOKEN_TTL_SECS")) in
  let!? exp := lift (ok_or (u64_checked_add now access_token_ttl) (exceeds (field st "_AUTH_ACCESS_TOKEN_TTL_SECS"))) in
  let!? jti := random_token 18 in
  let!? access_token := lift (issue_access_token
    (mkAccessClaims issuer subject resource exp None now jti scope client_id)) in
  ret_ok (mkTokenResponse access_token "Bearer" (cf_access_token_ttl (config st)) refresh_token scope).

(** ** Client authentication *)

Definition jwt_bearer_type : string := "urn:ietf:params:oauth:client-assertion-type:jwt-bearer".

Definition state_consume_assertion_jti (issuer jti : string) (issued_at expires : Z) : M (result bool AuthError) :=
  let! now := now_unix in consume_assertion_jti issuer jti issued_at expires now.

Definition validate_client_assertion (st : AuthState) (assertion client_id : string) (jwks : JwkSet) :
  M (result unit AuthError) :=
  let!? header := lift (ok_or (jwt_decode_header assertion) (AuthFailed "invalid client assertion")) in
  let!? _ := lift (ensure_allowed_algorithm (jh_alg header)) in
  let!? kid := lift (ok_or (jh_kid header) (AuthFailed "client assertion is missing kid")) in
  let!? jwk := lift (ok_or (jwks_find jwks kid) (AuthFailed "unknown client assertion key")) in
  let!? _ := lift (ensure_jwk_algorithm jwk (jh_alg header)) in
  let!? key := lift (ok_or (decoding_key_of_jwk jwk) (AuthFailed "invalid client assertion key")) in
  let audience := public_base_url st +:+ "/token" in
  let validation := mkJwtValidation (jh_alg header) [audience] [client_id]
                      ["exp"; "iat"; "iss"; "sub"; "aud"; "jti"] false in
  let! clock := now_unix in
  let!? claims := lift (ok_or (jwt_decode_client_assertion clock assertion key validation)
                          (AuthFailed "invalid client assertion")) in
  let! now := now_unix in
  if negb (String.eqb (ca_iss claims) client_id) || negb (String.eqb (ca_sub claims) client_id)
     || negb (String.eqb (ca_aud claims) audience)
     || bool_decide (i64_add now 60 < ca_iat claims)%Z || bool_decide (ca_exp claims <= now)%Z
  then ret_err (AuthFailed "invalid or replayed client assertion")
  else
    let!? fresh := state_consume_assertion_jti (ca_iss claims) (ca_jti claims) (ca_iat claims) (ca_exp claims) in
    if fresh then ret_ok () else ret_err (AuthFailed "invalid or replayed client assertion").

Definition authenticate_machine_client (st : AuthState) (client : MachineClientConfig)
    (client_secret client_assertion_type client_assertion : option string) : M (result unit AuthError) :=
  match client_secret, client_assertion with
  | Some supplied_secret, None =>
      match mc_client_secret client with
      | None => ret_err invalid_client
      | Some expected_secret =>
          if String.eqb supplied_secret expected_secret then ret_ok () else ret_err invalid_client
      end
  | None, Some assertion =>
      if negb (bool_decide (client_assertion_type = Some jwt_bearer_type)) then ret_err invalid_client
      else
        match mc_jwks client with
        | None => ret_err invalid_client
        | Some json =>
            match jwks_of_json json with
            | Err error => ret_err (Config ("invalid machine client JWKS: " +:+ error))
            | Ok jwks => validate_client_assertion st assertion (mc_client_id client) jwks
            end
        end
  | _, _ => ret_err invalid_client
  end.

Definition find_machine_client (st : AuthState) (client_id : string) : option MachineClientConfig :=
  find_first (fun c => String.eqb (mc_client_id c) client_id) (cf_machine_clients (config st)).

Definition authenticate_oauth_client (st : AuthState) (client_id : string)
    (client_secret client_assertion_type client_assertion : option string) : M (result unit AuthError) :=
  match find_machine_client st client_id with
  | Some client => authenticate_machine_client st client client_secret client_assertion_type client_assertion
  | None =>
      let!? resolved := resolve_client st client_id in
      match resolved with
      | None => ret_err invalid_client
      | Some client =>
          if String.eqb (rc_token_endpoint_auth_method client) "none"
             && bool_decide (client_secret = None) && bool_decide (client_assertion = None)
          then ret_ok ()
          else if String.eqb (rc_token_endpoint_auth_method client) "private_key_jwt"
                  && bool_decide (client_secret = None)
                  && bool_decide (client_assertion_type = Some jwt_bearer_type)
          then
            match rc_jwks client with
            | None => ret_err invalid_client
            | Some json =>
                match jwks_of_json json with
                | Err _ => ret_err invalid_client
                | Ok jwks =>
                    match client_assertion with
                    | None => ret_err invalid_client
                    | Some assertion => validate_client_assertion st assertion client_id jwks
                    end
                end
            end
          else ret_err invalid_client
      end
  end.

(** ** Grants *)

(** [.map(str::trim).filter(|value| !value.is_empty())] *)
Definition non_blank (value : option string) : option string :=
  match value with
  | Some v => let v := Str.trim v in if Str.is_empty v then None else Some v
  | None => None
  end.

Definition enc_key (st : AuthState) : option string := cf_token_encryption_key (config st).

(** The part of the authorization-code grant after the code is redeemed. *)
Definition finish_code_grant (st : AuthState) (requested_resource : option string)
    (client_id redirect_uri code_verifier : string) (row : AuthorizationCodeRow) :
  M (result TokenResponse AuthError) :=
  let!? _ := lift (validate_authorization_code_row row client_id redirect_uri code_verifier) in
  if match requested_resource with Some r => negb (String.eqb r (ac_resource row)) | None => false end then
    ret_err (InvalidGrant "resource does not match the authorization code")
  else
  let!? present := has_google_provider_credential_for_subject (ac_subject row) in
  if negb present then
    ret_err (OauthNeedsReauth "google provider credential is unavailable; reauthorization required")
  else
  let!? refresh_token := random_token 24 in
  let! created_at := now_unix in
  let!? expires := lift (expires_at created_at (cf_refresh_token_ttl (config st))
                           (field st "_AUTH_REFRESH_TOKEN_TTL_SECS")) in
  let!? _ := upsert_refresh_token (enc_key st)
               (mkRefreshTokenRow refresh_token (ac_client_id row) (ac_subject row) (ac_resource row) (ac_scope row)
                  None created_at expires) in
  let resource := if Str.is_empty (Str.trim (ac_resource row)) then canonical_resource_url st else ac_resource row in
  build_token_response st (ac_client_id row) (ac_subject row) resource (ac_scope row) (Some refresh_token).

Definition authorization_code_grant (st : AuthState) (request : TokenRequest) : M (result TokenResponse AuthError) :=
  let requested_resource := Str.trim_end_matches "/" <$> non_blank (tq_resource request) in
  let!? _ := validate_resource st (tq_resource request) in
  let!? code := lift (require_field (tq_code request) "code") in
  let!? client_id := lift (require_field (tq_client_id request) "client_id") in
  let!? redirect_uri := lift (require_field (tq_redirect_uri request) "redirect_uri") in
  let!? code_verifier := lift (require_field (tq_code_verifier request) "code_verifier") in
  let!? _ := authenticate_oauth_client st client_id (tq_client_secret request)
               (tq_client_assertion_type request) (tq_client_assertion request) in
  let!? row := redeem_auth_code code in
  finish_code_grant st requested_resource client_id redirect_uri code_verifier row.

(** One successful upstream refresh: the subject is checked and the new bundle
    stored. *)
Definition accept_google_refresh (st : AuthState) (subject : string) (credential : GoogleProviderCredentialRow)
    (google : GoogleExchange) : M (result GoogleExchange AuthError) :=
  if negb (String.eqb (ge_subject google) subject) then
    let!? _ := invalidate_google_provider_credential subject (gp_generation credential) in
    ret_err (AuthFailed "google refresh returned a different account subject")
  else
    let next_provider_refresh_token := default (gp_refresh_token credential) (ge_refresh_token google) in
    let granted_scopes := merge_google_scopes (gp_granted_scopes credential) (ge_granted_scopes google) in
    let! token_received_at := now_unix in
    let expires_in := default 3600%Z (ge_expires_in google) in
    let!? _ := upsert_google_provider_token_bundle (enc_key st)
      (mkGoogleProviderCredentialUpdate (ge_subject google) (ge_email google) (google_client_id st) granted_scopes
         (ge_access_token google) next_provider_refresh_token token_received_at
         (i64_saturating_add token_received_at
            (if bool_decide (expires_in <= i64_max)%Z then expires_in else i64_max))
         (Some "https://accounts.google.com") true false) in
    ret_ok google.

(** The loop [for attempt in 0..2]; [attempts] counts down. *)
Fixpoint google_refresh_attempts (st : AuthState) (subject : string) (attempts : nat)
    (credential : GoogleProviderCredentialRow) : M (result GoogleExchange AuthError) :=
  match attempts with
  | O => ret_err (OauthNeedsReauth "google provider credential could not be refreshed; reauthorization required")
  | S attempts' =>
      let! r := eff (GoogleRefreshToken (gp_refresh_token credential) (gp_subject credential) (gp_email credential)) in
      match r with
      | Ok google => accept_google_refresh st subject credential google
      | Err (OauthNeedsReauth message) =>
          let!? invalidation := invalidate_google_provider_credential subject (gp_generation credential) in
          if gi_invalidated invalidation then ret_err (OauthNeedsReauth message)
          else if bool_decide (attempts' = 0) then ret_err (OauthNeedsReauth message)
          else
            let!? replacement := find_google_provider_credential (enc_key st) subject in
            match replacement with
            | None => ret_err (OauthNeedsReauth message)
            | Some replacement => google_refresh_attempts st subject attempts' replacement
            end
      | Err error => ret_err error
      end
  end.

(** Under the process-wide lock of the subject. *)
Definition refresh_google_provider_credential (st : AuthState) (subject : string) : M (result GoogleExchange AuthError) :=
  let! _ := eff (SubjectLock subject) in
  let! r :=
    (let!? credential := find_google_provider_credential (enc_key st) subject in
     match credential with
     | None => ret_err (OauthNeedsReauth "google provider credential is unavailable; reauthorization required")
     | Some credential => google_refresh_attempts st subject 2 credential
     end) in
  let! _ := eff (SubjectUnlock subject) in
  Ret r.

Definition complete_claimed_refresh (st : AuthState) (client_id refresh_token claim_id : string)
    (requested_resource : option string) (stored : RefreshTokenRow) : M (result TokenResponse AuthError) :=
  if negb (String.eqb (rt_client_id stored) client_id) then
    ret_err (InvalidGrant "client_id does not match the refresh token")
  else
  let stored_resource :=
    if Str.is_empty (Str.trim (rt_resource stored)) then canonical_resource_url st else rt_resource stored in
  if match requested_resource with Some r => negb (String.eqb r stored_resource) | None => false end then
    ret_err (InvalidGrant "resource does not match the refresh token")
  else
  let!? google := refresh_google_provider_credential st (rt_subject stored) in
  let! now := now_unix in
  let!? refreshed_expires_at := lift (expires_at now (cf_refresh_token_ttl (config st))
                                        (field st "_AUTH_REFRESH_TOKEN_TTL_SECS")) in
  let elevated_scope := elevate_scope_for_allowed_user (rt_scope stored) (cf_default_scope (config st)) in
  let!? replacement_refresh_token := random_token 24 in
  let replacement := mkRefreshTokenRow replacement_refresh_token (rt_client_id stored) (ge_subject google)
                       stored_resource elevated_scope None now refreshed_expires_at in
  let!? response := build_token_response st (rt_client_id stored) (ge_subject google) stored_resource elevated_scope
                      (Some replacement_refresh_token) in
  let!? rotated := rotate_claimed_refresh_token (enc_key st) refresh_token claim_id replacement in
  match rotated with
  | None => ret_err (InvalidGrant "refresh token was already used")
  | Some _ => ret_ok response
  end.

(** The end of the refresh grant: a failed completion releases the claim. *)
Definition after_claim (st : AuthState) (client_id refresh_token claim_id : string) (requested_resource : option string)
    (stored : RefreshTokenRow) : M (result TokenResponse AuthError) :=
  let! r := complete_claimed_refresh st client_id refresh_token claim_id requested_resource stored in
  match r with
  | Ok _ => Ret r
  | Err _ => let!? _ := release_refresh_claim refresh_token claim_id in Ret r
  end.

Definition refresh_token_grant (st : AuthState) (request : TokenRequest) : M (result TokenResponse AuthError) :=
  let!? requested_resource :=
    match non_blank (tq_resource request) with
    | None => ret_ok None
    | Some value => let!? r := validate_resource st (Some value) in ret_ok (Some r)
    end in
  let!? client_id := lift (require_field (tq_client_id request) "client_id") in
  let!? refresh_token := lift (require_field (tq_refresh_token request) "refresh_token") in
  let!? _ := authenticate_oauth_client st client_id (tq_client_secret request)
               (tq_client_assertion_type request) (tq_client_assertion request) in
  let!? claim_id := random_token 18 in
  let! now := now_unix in
  let claim_expires_at := i64_saturating_add now 30 in
  let!? stored := claim_refresh_token (enc_key st) refresh_token claim_id claim_expires_at in
  match stored with
  | None => ret_err (InvalidGrant "unknown refresh_token")
  | Some stored => after_claim st client_id refresh_token claim_id requested_resource stored
  end.

Definition client_credentials_grant (st : AuthState) (request : TokenRequest) : M (result TokenResponse AuthError) :=
  let!? client_id := lift (require_field (tq_client_id request) "client_id") in
  match find_machine_client st client_id with
  | None => ret_err invalid_client
  | Some client =>
      let!? _ := authenticate_machine_client st client (tq_client_secret request)
                   (tq_client_assertion_type request) (tq_client_assertion request) in
      let! resource := validate_resource st (tq_resource request) in
      let!? resource := lift (map_err validation_to_scope resource) in
      if negb (existsb (fun allowed => String.eqb (Str.trim_end_matches "/" allowed) resource) (mc_resources client)) then
        ret_err (InvalidScope "requested resource exceeds machine client grant")
      else
      let requested_scope := default (if bool_decide (mc_scopes client = [])
                                      then cf_default_scope (config st) else "") (tq_scope request) in
      let requested_scope := if Str.is_empty requested_scope then Str.join " " (mc_scopes client) else requested_scope in
      let!? scope := validate_token_scope st resource requested_scope in
      if negb (bool_decide (mc_scopes client = []))
         && negb (forallb (fun requested => existsb (fun allowed => String.eqb allowed requested) (mc_scopes client))
                    (Str.split_whitespace scope))
      then ret_err (InvalidScope "requested scope exceeds machine client grant")
      else build_token_response st client_id client_id resource scope None
  end.

(** ** Enterprise-managed authorization *)

Definition cached_jwks (entry : option (JwkSet * Z)) (now : Z) (kid : string) : option JwkSet :=
  match entry with
  | Some (jwks, expires) =>
      if bool_decide (now < expires)%Z && match jwks_find jwks kid with Some _ => true | None => false end
      then Some jwks else None
  | None => None
  end.

Definition cache_jwks (key : string) (jwks : JwkSet) (policy : CachePolicy) : M unit :=
  if cacheable policy then
    let! now := now_unix in
    let! _ := eff (JwksRetain now) in
    let! _ := eff (JwksEvict 256) in
    let! now := now_unix in
    eff (JwksInsert key jwks (i64_saturating_add now (max_age_secs policy)))
  else Ret ().

Definition fetch_jwks (uri : Url) (lk : Z) (lock_key : string) : M (result JwkSet AuthError) :=
  let! permit := eff AcquirePermit in
  match permit with
  | Err _ => let! _ := eff (Release lk) in ret_err (Server "remote metadata fetch limiter closed")
  | Ok _ =>
      let! fetched := eff (FetchJwks uri) in
      match fetched with
      | Err error =>
          let! _ := eff (Release lk) in
          let! _ := eff (RemoveEntry lock_key) in
          let! _ := eff ReleasePermit in
          ret_err error
      | Ok (jwks, cache_policy) =>
          let! _ := cache_jwks (url_str uri) jwks cache_policy in
          let! _ := eff (Release lk) in
          let! _ := eff (RemoveEntry lock_key) in
          let! _ := eff ReleasePermit in
          ret_ok jwks
      end
  end.

(** [SsrfError::to_string] of a rejected key-set URL; the address form needs
    the rendering of an address, an argument here. *)
Definition ssrf_to_string (ip_text : IpAddr → string) (e : SsrfError) : string :=
  match e with
  | InvalidUrl m => m
  | BlockedIp context ip =>
      "`" +:+ context +:+ "` resolves to a private, loopback, link-local, CGNAT, or ULA address " +:+ ip_text ip
      +:+ "; blocked to prevent SSRF"
  | BlockedHost host => "host `" +:+ host +:+ "` is a local/loopback/private address"
  end.

Context (ip_text : IpAddr → string).

Definition load_enterprise_jwks (issuer : EnterpriseIssuerConfig) (required_kid : string) :
  M (result JwkSet AuthError) :=
  match ei_jwks issuer with
  | Some value =>
      match jwks_of_json value with
      | Err error => ret_err (Config ("invalid enterprise JWKS: " +:+ error))
      | Ok jwks => ret_ok jwks
      end
  | None =>
      match ei_jwks_uri issuer with
      | None => ret_err (Config "enterprise issuer has no JWKS")
      | Some uri =>
          match parse_validated_https_url (url_str uri) with
          | Err error => ret_err (Config (ssrf_to_string ip_text error))
          | Ok _ =>
              let cache_key := url_str uri in
              let! now := now_unix in
              let! entry := eff (JwksGet cache_key) in
              match cached_jwks entry now required_kid with
              | Some jwks => ret_ok jwks
              | None =>
                  let lock_key := "jwks:" +:+ cache_key in
                  let! lk := eff (LockEntry lock_key) in
                  let! _ := eff (Acquire lk) in
                  let! entry := eff (JwksGet cache_key) in
                  match entry with
                  | None => fetch_jwks uri lk lock_key
                  | Some _ =>
                      let! now := now_unix in
                      match cached_jwks entry now required_kid with
                      | Some jwks =>
                          let! _ := eff (Release lk) in
                          let! _ := eff (RemoveEntry lock_key) in
                          ret_ok jwks
                      | None => fetch_jwks uri lk lock_key
                      end
                  end
              end
          end
      end
  end.

Definition misdirected : AuthError := InvalidGrant "expired, replayed, or misdirected ID-JAG".

(** The claims of the presented ID-JAG, verified against the issuer's keys. *)
Definition verify_id_jag (st : AuthState) (issuer : EnterpriseIssuerConfig) (header : JwtHeader) (kid assertion : string) :
  M (result IdJagClaims AuthError) :=
  let!? jwks := load_enterprise_jwks issuer kid in
  let!? jwk := lift (ok_or (jwks_find jwks kid) (InvalidGrant "unknown ID-JAG signing key")) in
  let!? _ := lift (map_err (fun _ => InvalidGrant "ID-JAG key algorithm mismatch")
                     (ensure_jwk_algorithm jwk (jh_alg header))) in
  let!? key := lift (ok_or (decoding_key_of_jwk jwk) (InvalidGrant "invalid ID-JAG signing key")) in
  let audience := public_base_url st in
  let validation := mkJwtValidation (jh_alg header) [audience] [ei_issuer issuer]
    ["exp"; "iat"; "iss"; "sub"; "aud"; "jti"; "client_id"; "resource"; "scope"] false in
  let! clock := now_unix in
  let!? claims := lift (ok_or (jwt_decode_id_jag clock assertion key validation) (InvalidGrant "invalid ID-JAG")) in
  let! now := now_unix in
  if negb (String.eqb (Str.trim_end_matches "/" (ij_aud claims)) (Str.trim_end_matches "/" audience))
     || bool_decide (i64_add now 60 < ij_iat claims)%Z || bool_decide (ij_exp claims <= now)%Z
  then ret_err misdirected
  else ret_ok claims.

Definition id_jag_grant (st : AuthState) (request : TokenRequest) (client_id : string) (claims : IdJagClaims) :
  M (result TokenResponse AuthError) :=
  let!? resource := validate_resource st (Some (ij_resource claims)) in
  if match tq_resource request with
     | Some requested => negb (String.eqb (Str.trim_end_matches "/" requested) resource)
     | None => false
     end
  then ret_err (InvalidGrant "requested resource does not match ID-JAG")
  else
  let!? scope := validate_token_scope st resource (ij_scope claims) in
  match tq_scope request with
  | Some requested =>
      let!? requested := validate_token_scope st resource requested in
      if negb (forallb (fun value => existsb (fun granted => String.eqb granted value) (Str.split_whitespace scope))
                 (Str.split_whitespace requested))
      then ret_err (InvalidScope "requested scope exceeds ID-JAG grant")
      else build_token_response st client_id (ij_sub claims) resource requested None
  | None => build_token_response st client_id (ij_sub claims) resource scope None
  end.

Definition enterprise_managed_grant (st : AuthState) (request : TokenRequest) : M (result TokenResponse AuthError) :=
  let!? assertion := lift (require_field (tq_assertion request) "assertion") in
  let!? header := lift (ok_or (jwt_decode_header assertion) (InvalidGrant "invalid ID-JAG header")) in
  let!? _ := lift (map_err (fun _ => InvalidGrant "unsupported ID-JAG algorithm")
                     (ensure_allowed_algorithm (jh_alg header))) in
  if negb (bool_decide (jh_typ header = Some "oauth-id-jag+jwt")) then
    ret_err (InvalidGrant "ID-JAG typ must be oauth-id-jag+jwt")
  else
  let!? kid := lift (ok_or (jh_kid header) (InvalidGrant "ID-JAG is missing kid")) in
  let!? unverified := lift (ok_or (jwt_insecure_id_jag assertion) (InvalidGrant "invalid ID-JAG")) in
  let!? issuer := lift (ok_or
    (find_first (fun i => String.eqb (Str.trim_end_matches "/" (ei_issuer i)) (Str.trim_end_matches "/" (ij_iss unverified)))
       (cf_enterprise_issuers (config st)))
    (InvalidGrant "untrusted ID-JAG issuer")) in
  let!? claims := verify_id_jag st issuer header kid assertion in
  let!? client_id := lift (require_field (tq_client_id request) "client_id") in
  if negb (String.eqb (ij_client_id claims) client_id)
     || (negb (bool_decide (ei_allowed_client_ids issuer = []))
         && negb (existsb (fun allowed => String.eqb allowed client_id) (ei_allowed_client_ids issuer)))
  then ret_err (InvalidGrant "ID-JAG client_id is not authorized")
  else
  let!? _ := authenticate_oauth_client st client_id (tq_client_secret request)
               (tq_client_assertion_type request) (tq_client_assertion request) in
  let!? fresh := state_consume_assertion_jti (ij_iss claims) (ij_jti claims) (ij_iat claims) (ij_exp claims) in
  if negb fresh then ret_err misdirected
  else id_jag_grant st request client_id claims.

(** ** The endpoints *)

Definition LOCALHOST : IpAddr := IpV4 (V4 127 0 0 1).

Definition with_credentials (request : TokenRequest) (client_id client_secret : string) : TokenRequest :=
  mkTokenRequest (tq_grant_type request) (tq_code request) (Some client_id) (tq_resource request)
    (tq_redirect_uri request) (tq_code_verifier request) (tq_refresh_token request) (tq_scope request)
    (Some client_secret) (tq_client_assertion_type request) (tq_client_assertion request) (tq_assertion request).

Definition with_client_id (request : TokenRequest) (client_id : option string) : TokenRequest :=
  mkTokenRequest (tq_grant_type request) (tq_code request) client_id (tq_resource request)
    (tq_redirect_uri request) (tq_code_verifier request) (tq_refresh_token request) (tq_scope request)
    (tq_client_secret request) (tq_client_assertion_type request) (tq_client_assertion request) (tq_assertion request).

(** The request after the credentials of the headers and of an assertion are
    merged into it. *)
Definition token_request (authorization : option (option string)) (request : TokenRequest) :
  result TokenRequest AuthError :=
  let? basic := basic_client_credentials authorization in
  let? request := match basic with
    | Some (client_id, client_secret) =>
        if negb (bool_decide (tq_client_id request = None)) || negb (bool_decide (tq_client_secret request = None))
           || negb (bool_decide (tq_client_assertion request = None))
        then Err invalid_client
        else Ok (with_credentials request client_id client_secret)
    | None => Ok request
    end in
  Ok (match tq_client_id request, tq_client_assertion request with
      | None, Some assertion =>
          match jwt_insecure_client_assertion assertion with
          | Some claims => with_client_id request (Some (ca_sub claims))
          | None => request
          end
      | _, _ => request
      end).

Definition grant (st : AuthState) (request : TokenRequest) : M (result TokenResponse TokenEndpointError) :=
  let auth (p : M (result TokenResponse AuthError)) : M (result TokenResponse TokenEndpointError) :=
    let! r := p in Ret (map_err TeAuth r) in
  let grant_type := tq_grant_type request in
  if String.eqb grant_type "authorization_code" then auth (authorization_code_grant st request)
  else if String.eqb grant_type "refresh_token" then auth (refresh_token_grant st request)
  else if String.eqb grant_type "client_credentials" then auth (client_credentials_grant st request)
  else if String.eqb grant_type "urn:ietf:params:oauth:grant-type:jwt-bearer"
  then auth (enterprise_managed_grant st request)
  else ret_err (UnsupportedGrantType grant_type).

Definition token (st : AuthState) (remote : option IpAddr) (authorization : option (option string))
    (request : TokenRequest) : M Response :=
  let! limited := check_token_rate_limit (default LOCALHOST remote) in
  match limited with
  | Err error => Ret (error_response (TeAuth error))
  | Ok _ =>
      match token_request authorization request with
      | Err error => Ret (error_response (TeAuth error))
      | Ok request =>
          let! r := grant st request in
          Ret (match r with Ok response => token_response response | Err error => error_response error end)
      end
  end.

Definition revocation_request (authorization : option (option string)) (request : RevocationRequest) :
  result RevocationRequest AuthError :=
  let? basic := basic_client_credentials authorization in
  match basic with
  | Some (client_id, client_secret) =>
      if negb (bool_decide (rq_client_id request = None)) || negb (bool_decide (rq_client_secret request = None))
         || negb (bool_decide (rq_client_assertion request = None))
      then Err invalid_client
      else Ok (mkRevocationRequest (rq_token request) (rq_token_type_hint request) (Some client_id)
                 (Some client_secret) (rq_client_assertion_type request) (rq_client_assertion request))
  | None => Ok request
  end.

Definition ok_response : Response := apply_token_cache_headers (mkResponse 200 [] EmptyBody).

Definition revoke (st : AuthState) (remote : option IpAddr) (authorization : option (option string))
    (request : RevocationRequest) : M Response :=
  let fail error : M Response := Ret (error_response (TeAuth error)) in
  let! limited := check_token_rate_limit (default LOCALHOST remote) in
  match limited with
  | Err error => fail error
  | Ok _ =>
      match revocation_request authorization request with
      | Err error => fail error
      | Ok request =>
          let! found := find_refresh_token (enc_key st) (rq_token request) in
          match found with
          | Err error => fail error
          | Ok None => Ret ok_response
          | Ok (Some row) =>
              match rq_client_id request with
              | None => fail invalid_client
              | Some client_id =>
                  if negb (String.eqb client_id (rt_client_id row)) then fail invalid_client
                  else
                    let! authenticated := authenticate_oauth_client st client_id (rq_client_secret request)
                                            (rq_client_assertion_type request) (rq_client_assertion request) in
                    match authenticated with
                    | Err error => fail error
                    | Ok _ =>
                        let! revoked := revoke_refresh_token (rq_token request) in
                        match revoked with
                        | Err error => fail error
                        | Ok _ => Ret ok_response
                        end
                    end
              end
          end
      end
  end.

End Token.
