(* ===== verification/Traces.v ===== *)
(** * Traces: the database statements a program sends

    The SQL events of a trace, programs that only send statements of a given
    kind, and the composition lemmas and automation the endpoint proofs use. *)

From stdpp Require Import base list gmap strings.
From S2P Require Import Prelude RustStr Prog AuthTypes Store StoreProps Effects.

Section Traces.
Context `{Platform}.

(** The statement of a step, when the step is one. *)
Definition sql_event (s : step_of eresp) : option StoreEvent :=
  match s with
  | existT e r =>
      match e as e return eresp e → option StoreEvent with
      | Sql op => fun r => Some (mkEvent op r)
      | _ => fun _ => None
      end r
  end.
Definition sql_events (tr : Trace) : list StoreEvent := omap sql_event tr.

(** Number of statements of the trace satisfying a test. *)
Definition count_sql (p : StoreEvent → bool) (tr : Trace) : nat := count_events p (sql_events tr).

Lemma sql_events_app a b : sql_events (a ++ b) = sql_events a ++ sql_events b.
Proof. apply omap_app. Qed.

Lemma count_events_app p a b : count_events p (a ++ b) = count_events p a + count_events p b.
Proof. induction a as [|x a IH]; simpl; [done|]. lia. Qed.

Lemma count_sql_app p a b : count_sql p (a ++ b) = count_sql p a + count_sql p b.
Proof. unfold count_sql. by rewrite sql_events_app, count_events_app. Qed.

(** Every step of the program satisfies [P], on every path. *)
Definition only_steps (P : step_of eresp → bool) {A} (p : M A) : Prop :=
  always p (fun tr _ => forallb P tr = true).

(** The step is not a statement, or one satisfying [P]. *)
Definition sql_step (P : StoreEvent → bool) (s : step_of eresp) : bool :=
  match sql_event s with Some ev => P ev | None => true end.

Lemma only_ret P {A} (a : A) : only_steps P (Ret a).
Proof. done. Qed.

Lemma only_bind P {A B} (p : M A) (f : A → M B) :
  only_steps P p → (∀ a, only_steps P (f a)) → only_steps P (pbind p f).
Proof.
  intros Hp Hf. eapply always_bind_spec; [exact Hp|]. intros tr a Htr. eapply always_mono; [apply Hf|].
  intros tr' b Htr'. by rewrite forallb_app, Htr, Htr'.
Qed.

Lemma only_try P {A B Er} (p : M (result A Er)) (f : A → M (result B Er)) :
  only_steps P p → (∀ a, only_steps P (f a)) → only_steps P (try_bind p f).
Proof. intros Hp Hf. apply only_bind; [done|]. intros [a|e]; [apply Hf|done]. Qed.

Lemma only_eff (P : step_of eresp → bool) e : (∀ r, P (existT e r) = true) → only_steps P (eff e).
Proof. intros HP r. unroll. simpl. by rewrite HP. Qed.

Lemma only_lift P {A Er} (r : result A Er) : only_steps P (lift (resp := eresp) r).
Proof. done. Qed.

(** The statements a trace sends, from the steps it may contain. *)
Lemma sql_events_only P tr : forallb (sql_step P) tr = forallb P (sql_events tr).
Proof.
  induction tr as [|s tr IH]; [done|]. simpl. unfold sql_step at 1. destruct (sql_event s); simpl; by rewrite IH.
Qed.

(** Statements excluded by [P] do not occur. *)
Lemma count_sql_only (P q : StoreEvent → bool) tr :
  (∀ ev, P ev = true → q ev = false) → forallb (sql_step P) tr = true → count_sql q tr = 0.
Proof.
  intros Hq. rewrite sql_events_only. unfold count_sql. induction (sql_events tr) as [|ev evs IH]; simpl; [done|].
  intros HP. split_bools. rewrite Hq by done. by apply IH.
Qed.

(** Number of steps of the trace satisfying a test. *)
Definition count_steps (p : step_of eresp → bool) (tr : Trace) : nat := length (List.filter p tr).

Lemma count_steps_app p (a b : Trace) : count_steps p (a ++ b) = count_steps p a + count_steps p b.
Proof. unfold count_steps. by rewrite List.filter_app, length_app. Qed.

Lemma count_steps_only p tr : forallb (fun s => negb (p s)) tr = true → count_steps p tr = 0.
Proof.
  unfold count_steps. induction tr as [|s tr IH]; simpl; [done|]. intros Hs. split_bools.
  rewrite H0. by apply IH.
Qed.

Lemma only_mono (P Q : step_of eresp → bool) {A} (p : M A) :
  (∀ s, P s = true → Q s = true) → only_steps P p → only_steps Q p.
Proof.
  intros HPQ Hp. eapply always_mono; [exact Hp|]. intros tr a. cbn beta. rewrite !forallb_elem. eauto.
Qed.

Lemma only_weaken (P Q : StoreEvent → bool) {A} (p : M A) :
  (∀ ev, P ev = true → Q ev = true) → only_steps (sql_step P) p → only_steps (sql_step Q) p.
Proof. intros HP. apply only_mono. intros s. unfold sql_step. destruct (sql_event s); auto. Qed.

Lemma elem_sql_events_only P tr ev : forallb (sql_step P) tr = true → ev ∈ sql_events tr → P ev = true.
Proof. rewrite sql_events_only, forallb_elem. auto. Qed.

(** The rows a trace stores, for a selection of the inserting statements. *)
Section Rows.
Context {R : Type} (sel : StoreEvent → option R).

Definition skips (ev : StoreEvent) : bool := match sel ev with Some _ => false | None => true end.
Definition rows_of (tr : Trace) : list R := omap sel (sql_events tr).

(** At most one row is stored, and it satisfies [P]. *)
Definition stores_only (P : R → Prop) (tr : Trace) : Prop :=
  length (rows_of tr) ≤ 1 ∧ ∀ row, row ∈ rows_of tr → P row.

Lemma rows_of_app a b : rows_of (a ++ b) = rows_of a ++ rows_of b.
Proof. unfold rows_of. by rewrite sql_events_app, omap_app. Qed.

Lemma rows_of_skips tr : forallb (sql_step skips) tr = true → rows_of tr = [].
Proof.
  rewrite sql_events_only. unfold rows_of. induction (sql_events tr) as [|ev evs IH]; simpl; [done|].
  intros Hb. split_bools. unfold skips in H0. destruct (sel ev); [done|auto].
Qed.

Lemma stores_only_nil P tr : rows_of tr = [] → stores_only P tr.
Proof. intros Hn. split; rewrite Hn; [simpl; lia|]. intros row Hr. by apply elem_of_nil in Hr. Qed.

Lemma stores_only_one (P : R → Prop) tr row : rows_of tr = [row] → P row → stores_only P tr.
Proof. intros Hn HP. split; rewrite Hn; [simpl; lia|]. by intros r ->%list_elem_of_singleton. Qed.

Lemma stores_only_none P tr : forallb (sql_step skips) tr = true → stores_only P tr.
Proof. intros Hn. by apply stores_only_nil, rows_of_skips. Qed.

Lemma stores_only_app (P Q : R → Prop) (pre tr : Trace) :
  forallb (sql_step skips) pre = true → stores_only P tr → (∀ row, P row → Q row) → stores_only Q (pre ++ tr).
Proof.
  intros Hn [Hc Hr] HPQ. unfold stores_only. rewrite rows_of_app, (rows_of_skips pre Hn). simpl. split; [done|eauto].
Qed.

End Rows.

(** The trace contains a complete execution of [p] that ended with [a]. *)
Definition performed {A} (p : M A) (a : A) (tr : Trace) : Prop :=
  ∃ pre mid post, tr = pre ++ mid ++ post ∧ paths p mid a.

Lemma performed_app {A} (p : M A) a (l m r : Trace) : performed p a m → performed p a (l ++ m ++ r).
Proof.
  intros (pre & mid & post & -> & Hp). exists (l ++ pre), mid, (post ++ r). split; [|done]. by rewrite <-!app_assoc.
Qed.

Lemma performed_l {A} (p : M A) a (m r : Trace) : performed p a m → performed p a (m ++ r).
Proof. apply (performed_app p a []). Qed.
Lemma performed_r {A} (p : M A) a (l m : Trace) : performed p a m → performed p a (l ++ m).
Proof. intros Hp. rewrite <-(app_nil_r m). by apply performed_app. Qed.

Lemma always_performed {A} (p : M A) : always p (fun tr a => performed p a tr).
Proof. apply always_paths. intros tr a Hp. exists [], tr, []. by rewrite app_nil_r. Qed.

End Traces.

(** Every statement of the program satisfies [P]. *)
Notation only P := (only_steps (sql_step P)).

Create HintDb only_db.
#[export] Hint Resolve only_ret only_lift : only_db.

(** Walks a program, one lemma per construct, splitting its branches. *)
Ltac solve_only :=
  repeat first
    [ solve [eauto with only_db nocore]
    | match goal with
      | |- only_steps _ (pbind _ _) => apply only_bind; [|intros ?]
      | |- only_steps _ (try_bind _ _) => apply only_try; [|intros ?]
      | |- only_steps _ (Ret _) => apply only_ret
      | |- only_steps _ (lift _) => apply only_lift
      | |- only_steps _ (eff _) => apply only_eff; intros ?; reflexivity
      | |- only_steps _ (sql _) => apply only_eff; intros ?; reflexivity
      | |- only_steps _ now_unix => apply only_eff; intros ?; reflexivity
      | |- only_steps _ (match ?x with _ => _ end) => destruct x
      end ].
