(* ===== verification/Authorize.v ===== *)
(** * Authorize: the browser-facing endpoints

    [labby-auth/src/authorize.rs] (login, client registration, authorization
    request, provider callback, the native-app hand-off) and
    [labby-auth/src/session.rs] (browser sessions and their cookies), each
    handler as one program.  Responses are recorded as what the handler hands
    to the web framework. *)

From Stdlib Require Import Ascii.
From stdpp Require Import base list gmap strings pretty.
From S2P Require Import Prelude RustStr Prog AuthTypes SamplePlatform Store Effects AtRest.
From S2P Require Import SqliteStore Ssrf Redirect Scopes Cimd Token.

(** The two static pages. *)
Inductive Page := NATIVE_SUCCESS_PAGE | NATIVE_CALLBACK_EXPIRED_PAGE.

Record ClientRegistrationResponse := mkClientRegistrationResponse {
  cr_client_id : string;
  cr_redirect_uris : list string;
  cr_token_endpoint_auth_method : string;
}.

(** What a handler answers with: a redirect with its cookies, a page, a
    polling answer or a registration. *)
Inductive Reply :=
| RedirectTo (code : Z) (location : string) (cookies : list string)
| HtmlPage (code : Z) (page : Page) (headers : list (string * string))
| PollAnswer (code : Z) (result : option string) (headers : list (string * string))
| Registered (response : ClientRegistrationResponse).

(** [Redirect::to], a 303. *)
Definition redirect_to (location : string) : Reply := RedirectTo 303 location [].
Definition found (location : string) : Reply := RedirectTo 302 location [].
Definition no_store : list (string * string) := [("cache-control", "no-store")].

Section Authorize.
Context `{Platform}.

Definition AUTH_REQUEST_TTL_SECS : Z := 300.

(** ** Sessions (session.rs) *)

(** The value of the [Cookie] header, when it is a string. *)
Fixpoint find_cookie (name : string) (cookies : list string) : option string :=
  match cookies with
  | [] => None
  | cookie :: rest =>
      match Str.split_once "=" (Str.trim cookie) with
      | Some (key, value) => if String.eqb (Str.trim key) name then Some (Str.trim value) else find_cookie name rest
      | None => find_cookie name rest
      end
  end.
Definition read_cookie (header : option string) (name : string) : option string :=
  match header with Some raw => find_cookie name (Str.split ";" raw) | None => None end.

(** A cookie that is no header value is dropped. *)
Definition append_set_cookie (r : Reply) (cookie : string) : Reply :=
  match r with
  | RedirectTo code location cookies =>
      if header_value_valid cookie then RedirectTo code location (cookies ++ [cookie]) else r
  | other => other
  end.

Definition create_browser_session (st : AuthState) (subject : string) (email : option string) :
  M (result BrowserSessionRow AuthError) :=
  let! created_at := now_unix in
  let!? session_id := random_token 24 in
  let!? csrf_token := random_token 18 in
  let!? expires := lift (expires_at created_at (cf_refresh_token_ttl (config st))
                           (field st "_AUTH_REFRESH_TOKEN_TTL_SECS")) in
  let session := mkBrowserSessionRow session_id subject email csrf_token created_at expires in
  let!? _ := upsert_browser_session session in
  ret_ok session.

Definition secure_cookie_attr (st : AuthState) : string :=
  if String.eqb (url_scheme (cf_public_url (config st))) "https" then "; Secure" else "".

Definition build_browser_session_cookie (st : AuthState) (session_id : string) : string :=
  cf_session_cookie_name (config st) +:+ "=" +:+ session_id +:+ "; Path=/; HttpOnly; SameSite=Lax; Max-Age="
  +:+ pretty (cf_refresh_token_ttl (config st)) +:+ secure_cookie_attr st.

Definition clear_browser_session_cookie (st : AuthState) : string :=
  cf_session_cookie_name (config st)
  +:+ "=; Path=/; HttpOnly; SameSite=Lax; Max-Age=0; Expires=Thu, 01 Jan 1970 00:00:00 GMT" +:+ secure_cookie_attr st.

(** ** Login and registration (authorize.rs) *)

Definition ensure_pending_oauth_state_capacity (st : AuthState) : M (result unit AuthError) :=
  let!? count := count_pending_oauth_states in
  if bool_decide (cf_max_pending_oauth_states (config st) <= count)%Z
  then ret_err (RateLimited "too many pending authorization requests" 5000)
  else ret_ok ().

Definition browser_login (st : AuthState) (addr : IpAddr) (return_to : option string) : M (result Reply AuthError) :=
  let!? _ := check_authorize_rate_limit (remote_ip addr) in
  let!? _ := ensure_pending_oauth_state_capacity st in
  let return_to := sanitize_return_to st return_to in
  let!? provider_code_verifier := random_token 32 in
  let provider_code_challenge := pkce_challenge provider_code_verifier in
  let!? request_state := random_token 24 in
  let! created_at := now_unix in
  let! now := now_unix in
  let!? _ := insert_browser_login_state
    (mkBrowserLoginStateRow request_state return_to provider_code_verifier created_at
       (i64_add now AUTH_REQUEST_TTL_SECS)) in
  let location := authorize_url st
    (mkAuthorizeUrlRequest request_state (cf_default_scope (config st)) provider_code_challenge "S256" false false) in
  ret_ok (found (url_str location)).

Definition rejected_redirect (redirect_uri : string) : AuthError :=
  Validation ("redirect URI `" +:+ redirect_uri +:+
    "` must target a loopback host, match the native callback endpoint, or match an allowed redirect pattern").

(** The loop over the redirect URIs, stopping at the first rejected one. *)
Fixpoint check_redirect_uris (st : AuthState) (uris : list string) : result unit AuthError :=
  match uris with
  | [] => Ok ()
  | uri :: rest =>
      if negb (String.eqb uri (native_callback_endpoint st))
         && negb (is_allowed_redirect_uri uri (cf_allowed_client_redirect_uris (config st)))
      then Err (rejected_redirect uri)
      else check_redirect_uris st rest
  end.

(** [register_client] of authorize.rs. *)
Definition register_endpoint (st : AuthState) (addr : IpAddr) (redirect_uris : list string) : M (result Reply AuthError) :=
  let!? _ := check_register_rate_limit (remote_ip addr) in
  if bool_decide (redirect_uris = []) then ret_err (Validation "at least one redirect URI is required")
  else
  let!? _ := lift (check_redirect_uris st redirect_uris) in
  let!? client_id := random_token 18 in
  let! created_at := now_unix in
  let!? _ := register_client (mkRegisteredClient client_id redirect_uris created_at "none" None) in
  ret_ok (Registered (mkClientRegistrationResponse client_id redirect_uris "none")).

(** ** The authorization request *)

Definition append_authorization_response_issuer (st : AuthState) (redirect : Url) : Url :=
  if cf_codex_issuer_compatibility (config st) then redirect
  else url_append_pair redirect "iss" (public_base_url st).

Definition authorization_error_redirect (st : AuthState) (query : AuthorizeQuery) (error_code : string)
    (error : AuthError) : result Reply AuthError :=
  match url_parse (aq_redirect_uri query) with
  | Err parse_error => Err (Config ("validated redirect_uri could not be parsed: " +:+ parse_error))
  | Ok redirect =>
      let redirect := url_append_pair redirect "error" error_code in
      let redirect := url_append_pair redirect "error_description" (to_string error) in
      let redirect := url_append_pair redirect "state" (aq_state query) in
      Ok (redirect_to (url_str (append_authorization_response_issuer st redirect)))
  end.

(** From the stored request on: whether to ask for consent again, and where to
    send the browser. *)
Definition redirect_to_provider (st : AuthState) (request_state scope provider_code_challenge : string) :
  M (result Reply AuthError) :=
  let!? allowed_emails := resolve_allowed_emails st in
  let!? sole_account_has_credential :=
    match allowed_emails with
    | [email] =>
        let!? credential := find_google_provider_credential_by_email (enc_key st) email in
        ret_ok (match credential with
                | Some c => String.eqb (gp_client_id c) (google_client_id st)
                | None => false
                end)
    | _ => ret_ok false
    end in
  let force_consent := negb (bool_decide (length allowed_emails = 1)) || negb sole_account_has_credential in
  let location := authorize_url st
    (mkAuthorizeUrlRequest request_state scope provider_code_challenge "S256" true force_consent) in
  ret_ok (found (url_str location)).

(** The request as validated is stored under a fresh state. *)
Definition start_authorization (st : AuthState) (query : AuthorizeQuery) (resource scope : string) :
  M (result Reply AuthError) :=
  let!? provider_code_verifier := random_token 32 in
  let provider_code_challenge := pkce_challenge provider_code_verifier in
  let!? request_state := random_token 24 in
  let! created_at := now_unix in
  let! now := now_unix in
  let!? _ := insert_authorization_request
    (mkAuthorizationRequestRow request_state (aq_client_id query) (aq_redirect_uri query) (aq_state query) resource scope
       provider_code_verifier (aq_code_challenge query) (aq_code_challenge_method query) created_at
       (i64_add now AUTH_REQUEST_TTL_SECS)) in
  redirect_to_provider st request_state scope provider_code_challenge.

(** The checks whose failure is reported to the client by a redirect. *)
Definition validate_and_start (st : AuthState) (query : AuthorizeQuery) : M (result Reply AuthError) :=
  match validate_response_type (aq_response_type query) with
  | Err error => lift (authorization_error_redirect st query "unsupported_response_type" error)
  | Ok _ =>
      let! r := validate_resource st (aq_resource query) in
      match r with
      | Err error => lift (authorization_error_redirect st query "invalid_target" error)
      | Ok resource =>
          let! r := validate_scope st resource (aq_scope query) in
          match r with
          | Err error => lift (authorization_error_redirect st query "invalid_scope" error)
          | Ok scope =>
              if negb (String.eqb (aq_code_challenge_method query) "S256")
              then lift (authorization_error_redirect st query "invalid_request"
                           (Validation "code_challenge_method must be S256"))
              else start_authorization st query resource scope
          end
      end
  end.

Definition authorize (st : AuthState) (addr : IpAddr) (query : AuthorizeQuery) : M (result Reply AuthError) :=
  let!? _ := check_authorize_rate_limit (remote_ip addr) in
  let!? _ := ensure_pending_oauth_state_capacity st in
  let!? resolved := resolve_client st (aq_client_id query) in
  let!? client := lift (ok_or resolved (InvalidGrant "unknown client_id")) in
  if negb (existsb (fun uri => String.eqb uri (aq_redirect_uri query)) (rc_redirect_uris client)) then
    ret_err (Validation "redirect_uri does not match the registered client")
  else
  let!? _ := if is_metadata_document_client_id (aq_client_id query) then register_client client else ret_ok () in
  validate_and_start st query.

(** ** The provider's callback *)

(** The redirect to the client with an error. *)
Definition callback_error_redirect (st : AuthState) (request : AuthorizationRequestRow) (error description : string) :
  result Reply AuthError :=
  match url_parse (ar_redirect_uri request) with
  | Err e => Err (Config ("failed to parse registered redirect_uri: " +:+ e))
  | Ok target =>
      let target := url_append_pair target "error" error in
      let target := url_append_pair target "error_description" description in
      let target := url_append_pair target "state" (ar_client_state request) in
      Ok (redirect_to (url_str (append_authorization_response_issuer st target)))
  end.

(** The provider's refresh token: the one just received, or the stored one of
    the same OAuth client. *)
Definition provider_token (st : AuthState) (google : GoogleExchange)
    (existing : option GoogleProviderCredentialRow) : option string :=
  match ge_refresh_token google with
  | Some refresh_token => Some refresh_token
  | None =>
      match existing with
      | Some e => if String.eqb (gp_client_id e) (google_client_id st) then Some (gp_refresh_token e) else None
      | None => None
      end
  end.

(** [expires_in] as a signed 64-bit number of seconds, an hour by default. *)
Definition google_expires_in (google : GoogleExchange) : Z :=
  let expires_in := default 3600%Z (ge_expires_in google) in
  if bool_decide (expires_in <= i64_max)%Z then expires_in else i64_max.

(** The code is stored and handed over, to the polling client or by redirect. *)
Definition deliver_code (st : AuthState) (request : AuthorizationRequestRow) (auth_code : string) :
  M (result Reply AuthError) :=
  if String.eqb (ar_redirect_uri request) (native_callback_endpoint st) then
    let! now := now_unix in
    let!? expires := lift (expires_at now (cf_auth_code_ttl (config st)) (field st "_AUTH_CODE_TTL_SECS")) in
    let!? _ := insert_native_authorization_result
                 (mkNativeAuthorizationResultRow (ar_client_state request) auth_code now expires) in
    ret_ok (HtmlPage 200 NATIVE_SUCCESS_PAGE no_store)
  else
    match url_parse (ar_redirect_uri request) with
    | Err e => ret_err (Storage ("registered redirect_uri is not a valid URL: " +:+ e))
    | Ok redirect_uri =>
        let redirect_uri := url_append_pair redirect_uri "code" auth_code in
        let redirect_uri := url_append_pair redirect_uri "state" (ar_client_state request) in
        ret_ok (redirect_to (url_str (append_authorization_response_issuer st redirect_uri)))
    end.

Definition issue_code (st : AuthState) (request : AuthorizationRequestRow) (google : GoogleExchange) :
  M (result Reply AuthError) :=
  let!? auth_code := random_token 24 in
  let elevated_scope := elevate_scope_for_allowed_user (ar_scope request) (cf_default_scope (config st)) in
  let! created_at := now_unix in
  let! now := now_unix in
  let!? expires := lift (expires_at now (cf_auth_code_ttl (config st)) (field st "_AUTH_CODE_TTL_SECS")) in
  let!? _ := insert_auth_code
    (mkAuthorizationCodeRow auth_code (ar_client_id request) (ge_subject google) (ar_redirect_uri request)
       (ar_resource request) elevated_scope (ar_code_challenge request) (ar_code_challenge_method request)
       None created_at expires) in
  deliver_code st request auth_code.

(** After the allowlist: the provider credential is stored, then the code. *)
Definition accept_account (st : AuthState) (request : AuthorizationRequestRow) (google : GoogleExchange) :
  M (result Reply AuthError) :=
  let!? verified_email := lift (ok_or (non_blank (ge_email google))
    (AuthFailed "google did not return a verified email address after allowlist validation")) in
  let!? existing := find_google_provider_credential (enc_key st) (ge_subject google) in
  let existing_scopes := match existing with Some e => gp_granted_scopes e | None => [] end in
  let granted_scopes := merge_google_scopes existing_scopes (ge_granted_scopes google) in
  let scope_upgraded := match existing with
    | None => true
    | Some e => existsb (fun scope => negb (existsb (String.eqb scope) (gp_granted_scopes e))) granted_scopes
    end in
  match provider_token st google existing with
  | None => lift (callback_error_redirect st request "server_error"
      "Google did not issue a reusable offline credential; reconnect and grant access again")
  | Some provider_refresh_token =>
      let! received_at := now_unix in
      let!? _ := upsert_google_provider_token_bundle (enc_key st)
        (mkGoogleProviderCredentialUpdate (ge_subject google) (Some verified_email) (google_client_id st) granted_scopes
           (ge_access_token google) provider_refresh_token received_at
           (i64_saturating_add received_at (google_expires_in google))
           (Some "https://accounts.google.com") false scope_upgraded) in
      issue_code st request google
  end.

(** A browser sign-in. *)
Definition finish_login (st : AuthState) (code : string) (login : BrowserLoginStateRow) : M (result Reply AuthError) :=
  let!? google := eff (GoogleExchangeCode code (bl_provider_code_verifier login)) in
  let!? allowed := resolve_allowed_emails st in
  let!? _ := lift (check_email_allowlist (ge_email google) (ge_email_verified google) allowed) in
  let!? session := create_browser_session st (ge_subject google) (ge_email google) in
  ret_ok (append_set_cookie (redirect_to (bl_return_to login))
            (build_browser_session_cookie st (bs_session_id session))).

(** A client's authorization. *)
Definition finish_authorization (st : AuthState) (code : string) (request : AuthorizationRequestRow) :
  M (result Reply AuthError) :=
  let!? google := eff (GoogleExchangeCode code (ar_provider_code_verifier request)) in
  let!? allowed := resolve_allowed_emails st in
  match check_email_allowlist (ge_email google) (ge_email_verified google) allowed with
  | Err denial => lift (callback_error_redirect st request "access_denied" (to_string denial))
  | Ok _ => accept_account st request google
  end.

Definition callback (st : AuthState) (state code : string) : M (result Reply AuthError) :=
  let!? login := take_browser_login_state state in
  match login with
  | Some login => finish_login st code login
  | None =>
      let! r := take_authorization_request state in
      let!? request := lift (map_err (fun _ => InvalidGrant "authorization state is invalid or expired") r) in
      finish_authorization st code request
  end.

(** ** The native-app hand-off *)

Definition missing_state : AuthError := Validation "missing `state` parameter".

Definition native_callback (state : string) : result Reply AuthError :=
  if Str.is_empty (Str.trim state) then Err missing_state
  else Ok (HtmlPage 410 NATIVE_CALLBACK_EXPIRED_PAGE no_store).

Definition native_poll (state : string) : M (result Reply AuthError) :=
  let state := Str.trim state in
  if Str.is_empty state then ret_err missing_state
  else
    let!? row := take_native_authorization_result state in
    ret_ok (match row with
            | Some row => PollAnswer 200 (Some (na_code row)) no_store
            | None => PollAnswer 202 None no_store
            end).

End Authorize.
