(* ===== verification/TokenProps.v ===== *)
(** * TokenProps: what the token endpoint guarantees

    Theorems about every path of the programs of the file Token: whatever the
    database, the clock, the random source, the identity provider and the
    concurrent requests answer. *)

From Stdlib Require Import Ascii.
From stdpp Require Import base list gmap strings.
From S2P Require Import Prelude RustStr Prog AuthTypes SamplePlatform Store StoreProps Effects.
From S2P Require Import Traces AtRest SqliteStore Jwt Ssrf Redirect Scopes Cimd Token.

Section TokenProps.
Context `{Platform}.

(** ** Which statements each part sends *)

(** Client authentication reads clients and consumes assertion identifiers. *)
Definition auth_event (ev : StoreEvent) : bool :=
  match ev_op ev with FindClient _ | ConsumeAssertionJti _ _ _ _ => true | _ => false end.
(** The provider refresh only touches provider credentials; its invalidation
    also deletes the subject's codes and tokens. *)
Definition google_event (ev : StoreEvent) : bool :=
  match ev_op ev with
  | SelectGoogleBySubject _ | SelectGoogleByEmail _ | SelectGoogleAll
  | UpsertGoogleBundle _ _ | InvalidateGoogle _ _ => true
  | _ => false
  end.
Definition no_event (ev : StoreEvent) : bool := false.

Lemma only_random_token P n : only P (random_token n).
Proof. unfold random_token. solve_only. Qed.

Lemma only_validate_resource P st r : only P (validate_resource st r).
Proof. unfold validate_resource, is_allowed_resource_url. solve_only. Qed.

Lemma only_validate_scope P st r s : only P (validate_scope st r s).
Proof. unfold validate_scope, allowed_resource_scopes. solve_only. Qed.

Lemma only_validate_token_scope P st r s : only P (validate_token_scope st r s).
Proof. unfold validate_token_scope. apply only_bind; [apply only_validate_scope|]. solve_only. Qed.

Lemma only_build_token_response P st c s r sc rt : only P (build_token_response st c s r sc rt).
Proof.
  unfold build_token_response. repeat (first [apply only_random_token | progress solve_only]).
Qed.

Lemma only_maybe_encrypt P key v : only P (maybe_encrypt key v).
Proof. unfold maybe_encrypt, encrypt_provider_token. solve_only. Qed.

#[local] Hint Resolve only_random_token only_validate_resource only_validate_token_scope
  only_build_token_response only_maybe_encrypt : only_db.

Lemma only_encrypt_opt P key v : only P (encrypt_opt key v).
Proof. unfold encrypt_opt. solve_only. Qed.
#[local] Hint Resolve only_encrypt_opt : only_db.

Lemma only_validate_client_assertion st a c ks : only auth_event (validate_client_assertion st a c ks).
Proof.
  unfold validate_client_assertion, state_consume_assertion_jti, consume_assertion_jti. solve_only.
Qed.
#[local] Hint Resolve only_validate_client_assertion : only_db.

Lemma only_authenticate_machine_client st c s t a : only auth_event (authenticate_machine_client st c s t a).
Proof. unfold authenticate_machine_client. solve_only. Qed.
#[local] Hint Resolve only_authenticate_machine_client : only_db.

Lemma only_resolve_client st c : only auth_event (resolve_client st c).
Proof.
  unfold resolve_client, find_client, resolve_locked, fetch_client, validate_document, cache_client. solve_only.
Qed.
#[local] Hint Resolve only_resolve_client : only_db.

Lemma only_authenticate_oauth_client st c s t a : only auth_event (authenticate_oauth_client st c s t a).
Proof. unfold authenticate_oauth_client. solve_only. Qed.
#[local] Hint Resolve only_authenticate_oauth_client : only_db.

Lemma only_find_google key s : only google_event (find_google_provider_credential key s).
Proof.
  unfold find_google_provider_credential, find_google_provider_credential_by_selector. solve_only.
Qed.
#[local] Hint Resolve only_find_google : only_db.

Lemma only_accept_google_refresh st s c g : only google_event (accept_google_refresh st s c g).
Proof.
  unfold accept_google_refresh, upsert_google_provider_token_bundle, invalidate_google_provider_credential. solve_only.
Qed.
#[local] Hint Resolve only_accept_google_refresh : only_db.

Lemma only_google_refresh_attempts st s n c : only google_event (google_refresh_attempts st s n c).
Proof.
  revert c. induction n as [|n IH]; intros c; cbn [google_refresh_attempts];
    unfold invalidate_google_provider_credential; solve_only.
Qed.
#[local] Hint Resolve only_google_refresh_attempts : only_db.

Lemma only_refresh_google st s : only google_event (refresh_google_provider_credential st s).
Proof. unfold refresh_google_provider_credential. solve_only. Qed.

(** ** Minted responses *)

(** The response carries an access token signed over exactly these claims. *)
Definition mints (st : AuthState) (resp : TokenResponse) (client_id subject resource scope : string)
    (refresh_token : option string) : Prop :=
  tr_scope resp = scope ∧ tr_refresh_token resp = refresh_token ∧ tr_expires_in resp = cf_access_token_ttl (config st) ∧
  ∃ claims, jwt_encode claims = Ok (tr_access_token resp) ∧ cl_iss claims = public_base_url st ∧
    cl_sub claims = subject ∧ cl_aud claims = resource ∧ cl_scope claims = scope ∧ cl_azp claims = client_id ∧ cl_nbf claims = None ∧
    cl_exp claims = (cl_iat claims + cf_access_token_ttl (config st))%Z.

Lemma build_token_response_spec st c s r sc rt :
  always (build_token_response st c s r sc rt) (fun tr res =>
    sql_events tr = [] ∧ ∀ resp, res = Ok resp → mints st resp c s r sc rt).
Proof.
  unfold build_token_response, timestamp_usize, duration_secs_usize, random_token. unroll. intros now.
  case_bool_decide; unroll; [|done]. case_bool_decide; unroll; [|done].
  destruct (u64_checked_add now _) as [e|] eqn:Ee; unroll; [|done].
  intros [bytes|]; unroll; [|done]. unfold issue_access_token. destruct (jwt_encode _) eqn:Ej; unroll; [|done].
  split; [done|]. intros resp [= <-]. unfold mints. split_and!; try done. eexists. split; [exact Ej|]. simpl.
  unfold u64_checked_add in Ee. case_bool_decide; [|done]. injection Ee as <-. done.
Qed.

(** ** Client authentication *)

(** A fresh assertion of the client: signed by a key of its key set with an
    accepted algorithm, issued by and about the client for this endpoint,
    within its lifetime at a clock reading, and its identifier not seen before. *)
Definition accepted_assertion (st : AuthState) (client_id assertion : string) (ks : JwkSet) (tr : Trace) : Prop :=
  ∃ header kid jwk key clock validation claims now now_db,
    jwt_decode_header assertion = Some header ∧ ensure_allowed_algorithm (jh_alg header) = Ok () ∧
    jh_kid header = Some kid ∧ jwks_find ks kid = Some jwk ∧ ensure_jwk_algorithm jwk (jh_alg header) = Ok () ∧
    decoding_key_of_jwk jwk = Some key ∧
    jwt_decode_client_assertion clock assertion key validation = Some claims ∧
    jv_alg validation = jh_alg header ∧ jv_issuer validation = [client_id] ∧
    jv_audience validation = [public_base_url st +:+ "/token"] ∧
    ca_iss claims = client_id ∧ ca_sub claims = client_id ∧ ca_aud claims = public_base_url st +:+ "/token" ∧
    existT Now now ∈ tr ∧ (ca_iat claims <= i64_add now 60)%Z ∧ (now < ca_exp claims)%Z ∧
    mkEvent (ConsumeAssertionJti client_id (ca_jti claims) (ca_exp claims) now_db) (Ok true) ∈ sql_events tr.

Lemma accepted_assertion_app st c a ks l m r :
  accepted_assertion st c a ks m → accepted_assertion st c a ks (l ++ m ++ r).
Proof.
  intros (hd & kid & jwk & key & ck & v & cl & n & n' & Hh & Ha & Hk & Hj & He & Hd & Hc & Hv & Hi & Hau & H1 & H2 & H3 & Hn & Hiat & Hexp & Hin).
  exists hd, kid, jwk, key, ck, v, cl, n, n'. split_and!; try done.
  - rewrite !elem_of_app. auto.
  - rewrite !sql_events_app, !elem_of_app. auto.
Qed.

Lemma consume_assertion_jti_spec i j iat exp now :
  always (consume_assertion_jti i j iat exp now) (fun tr r =>
    r = Ok true → mkEvent (ConsumeAssertionJti i j exp now) (Ok true) ∈ sql_events tr).
Proof.
  unfold consume_assertion_jti. destruct (_ || _); unroll; [done|]. intros r ->. by left.
Qed.

Lemma validate_client_assertion_spec st a c ks :
  always (validate_client_assertion st a c ks) (fun tr r => ∀ u, r = Ok u → accepted_assertion st c a ks tr).
Proof.
  unfold validate_client_assertion.
  destruct (jwt_decode_header a) as [hd|] eqn:Ehd; unroll; [|done]. cbn [ok_or].
  destruct (ensure_allowed_algorithm (jh_alg hd)) as [[]|] eqn:Eal; unroll; [|done].
  destruct (jh_kid hd) as [kid|] eqn:Ekid; unroll; [|done]. cbn [ok_or].
  destruct (jwks_find ks kid) as [jwk|] eqn:Ejwk; unroll; [|done]. cbn [ok_or].
  destruct (ensure_jwk_algorithm jwk (jh_alg hd)) as [[]|] eqn:Eja; unroll; [|done].
  destruct (decoding_key_of_jwk jwk) as [key|] eqn:Ekey; unroll; [|done]. cbn [ok_or]. unroll.
  intros clock. destruct (jwt_decode_client_assertion _ _ _ _) as [cl|] eqn:Ecl; unroll; [|done]. cbn [ok_or]. unroll.
  intros now. destruct (_ || _) eqn:Eb; unroll; [done|].
  rewrite !orb_false_iff, !negb_false_iff, !String.eqb_eq, !bool_decide_eq_false in Eb.
  destruct Eb as ((((Hi & Hs) & Ha) & Hiat) & Hexp).
  unfold state_consume_assertion_jti. unroll. intros now2.
  eapply always_bind_spec; [apply consume_assertion_jti_spec|].
  intros tr [[]|] Hc; unroll; [|done..]. intros u [= <-]. specialize (Hc eq_refl). rewrite Hi in Hc. rewrite app_nil_r.
  exists hd, kid, jwk, key, clock. eexists _, cl, now, now2. split_and!; try done; try lia. right. by left.
Qed.

(** How a configured machine client proved who it is: its secret, or an
    assertion under its key set. *)
Definition machine_authenticated (st : AuthState) (client : MachineClientConfig) (secret kind assertion : option string)
    (tr : Trace) : Prop :=
  (∃ s, secret = Some s ∧ mc_client_secret client = Some s ∧ assertion = None) ∨
  (∃ a json ks, secret = None ∧ assertion = Some a ∧ kind = Some jwt_bearer_type ∧
     mc_jwks client = Some json ∧ jwks_of_json json = Ok ks ∧ accepted_assertion st (mc_client_id client) a ks tr).

Lemma authenticate_machine_client_spec st client s t a :
  always (authenticate_machine_client st client s t a) (fun tr r =>
    ∀ u, r = Ok u → machine_authenticated st client s t a tr).
Proof.
  unfold authenticate_machine_client. destruct s as [s|], a as [a|]; [done| | |done].
  - destruct (mc_client_secret client) as [x|] eqn:Ex; [|done].
    destruct (String.eqb_spec s x) as [->|]; [|done]. intros u _. left. eauto.
  - case_bool_decide; cbn [negb]; [|done]. destruct (mc_jwks client) as [j|] eqn:Ej; [|done].
    destruct (jwks_of_json j) as [ks|] eqn:Eks; [|done].
    eapply always_mono; [apply validate_client_assertion_spec|]. intros tr r Hr u Hu. right. naive_solver.
Qed.

(** The client a request names: its row in the database, or, when the
    identifier is the URL of a metadata document, that document. *)
Definition resolved (st : AuthState) (client_id : string) (client : RegisteredClient) (tr : Trace) : Prop :=
  match metadata_document_url client_id with
  | None => mkEvent (FindClient client_id) (Ok (Some client)) ∈ sql_events tr
  | Some _ =>
      (∃ expires now, existT (CimdGet client_id) (Some (client, expires)) ∈ tr ∧ existT Now now ∈ tr ∧ (now < expires)%Z) ∨
      ((∃ url d p, existT (FetchClientDocument url) (Ok (d, p)) ∈ tr) ∧ document_client st client_id client)
  end.

Lemma resolve_client_spec st client_id :
  always (resolve_client st client_id) (fun tr r => ∀ client, r = Ok (Some client) → resolved st client_id client tr).
Proof.
  unfold resolved. destruct (metadata_document_url client_id) as [url|] eqn:Eu.
  - eapply always_mono; [by eapply cimd_no_downgrade|]. intros tr r ((_ & _ & Hc) & _) client Hr. by apply Hc.
  - unfold resolve_client, find_client. rewrite Eu. unroll. intros r client ->. by left.
Qed.

(** The caller is the client it names: a configured machine client that proved
    itself, or, when no machine client has the name, a resolved client that is
    public and presents no credentials, or that signed an assertion. *)
Definition authenticated (st : AuthState) (client_id : string) (secret kind assertion : option string) (tr : Trace) : Prop :=
  (∃ client, client ∈ cf_machine_clients (config st) ∧ mc_client_id client = client_id ∧
     machine_authenticated st client secret kind assertion tr) ∨
  ((∀ client, client ∈ cf_machine_clients (config st) → mc_client_id client ≠ client_id) ∧
   ∃ client, resolved st client_id client tr ∧ secret = None ∧
     (rc_token_endpoint_auth_method client = "none" ∧ assertion = None ∨
      rc_token_endpoint_auth_method client = "private_key_jwt" ∧
      ∃ a json ks, assertion = Some a ∧ kind = Some jwt_bearer_type ∧ rc_jwks client = Some json ∧
        jwks_of_json json = Ok ks ∧ accepted_assertion st client_id a ks tr)).

Lemma machine_authenticated_app st client s k a l m r :
  machine_authenticated st client s k a m → machine_authenticated st client s k a (l ++ m ++ r).
Proof.
  intros [?|(x & j & ks & ? & ? & ? & ? & ? & ?)]; [by left|right]. exists x, j, ks. split_and!; try done.
  by apply accepted_assertion_app.
Qed.

Lemma resolved_app st c client l m r : resolved st c client m → resolved st c client (l ++ m ++ r).
Proof.
  unfold resolved. destruct (metadata_document_url c).
  - setoid_rewrite elem_of_app. setoid_rewrite elem_of_app. naive_solver.
  - rewrite !sql_events_app, !elem_of_app. auto.
Qed.

Lemma authenticated_app st c s k a l m r : authenticated st c s k a m → authenticated st c s k a (l ++ m ++ r).
Proof.
  intros [(client & Hin & Hid & Ha)|(Hno & client & Hr & Hs & Ha)].
  - left. exists client. split_and!; [done|done|]. by apply machine_authenticated_app.
  - right. split; [done|]. exists client. split_and!; [by apply resolved_app|done|].
    destruct Ha as [?|(Hm & x & j & ks & ? & ? & ? & ? & ?)]; [by left|right]. split; [done|]. exists x, j, ks.
    split_and!; try done. by apply accepted_assertion_app.
Qed.

Lemma authenticate_oauth_client_spec st c s k a :
  always (authenticate_oauth_client st c s k a) (fun tr r => ∀ u, r = Ok u → authenticated st c s k a tr).
Proof.
  unfold authenticate_oauth_client. destruct (find_machine_client st c) as [client|] eqn:Ef.
  { apply find_first_Some in Ef as [Hin Hid%String.eqb_eq].
    eapply always_mono; [apply authenticate_machine_client_spec|]. intros tr r Hr u Hu. left. naive_solver. }
  assert (∀ client, client ∈ cf_machine_clients (config st) → mc_client_id client ≠ c) as Hno.
  { intros client Hin Hc. pose proof (find_first_None _ _ Ef client Hin) as Hf. cbn beta in Hf. by rewrite Hc, String.eqb_refl in Hf. }
  eapply always_try_spec; [apply resolve_client_spec|intros tr1 [client|] Hres|by intros ? ? _ ? [=]]; [|done].
  specialize (Hres client eq_refl).
  assert (resolved st c client (tr1 ++ [])) as Hres' by (apply (resolved_app st c client []), Hres).
  destruct (_ && _) eqn:Ep.
  { rewrite !andb_true_iff, String.eqb_eq, !bool_decide_eq_true in Ep. intros u _. right. split; [done|]. exists client. naive_solver. }
  clear Ep. destruct (_ && _) eqn:Ep; [|done]. rewrite !andb_true_iff, String.eqb_eq, !bool_decide_eq_true in Ep.
  destruct Ep as [[Em Hs] Hk]. destruct (rc_jwks client) as [json|] eqn:Ej; [|done].
  destruct (jwks_of_json json) as [ks|] eqn:Eks; [|done]. destruct a as [a|]; [|done].
  eapply always_mono; [apply validate_client_assertion_spec|]. intros tr2 r Hr u Hu. right. split; [done|].
  exists client. split_and!; [by apply (resolved_app st c client [])|done|right]. split; [done|]. exists a, json, ks.
  split_and!; try done. rewrite <- (app_nil_r tr2). apply accepted_assertion_app. by apply (Hr u).
Qed.

(** ** The authorization-code grant *)

Definition finish_event (ev : StoreEvent) : bool :=
  match ev_op ev with HasGoogleForSubject _ | UpsertRefreshToken _ _ _ => true | _ => false end.

Lemma only_finish_code_grant st rr c u v row : only finish_event (finish_code_grant st rr c u v row).
Proof.
  unfold finish_code_grant, has_google_provider_credential_for_subject, upsert_refresh_token. solve_only.
Qed.

(** What a successful code grant checked and issued. *)
Definition code_grant_ok (st : AuthState) (request : TokenRequest) (row : AuthorizationCodeRow)
    (resp : TokenResponse) : Prop :=
  tq_client_id request = Some (ac_client_id row) ∧
  tq_redirect_uri request = Some (ac_redirect_uri row) ∧
  ac_code_challenge_method row = "S256" ∧
  (∃ v, tq_code_verifier request = Some v ∧ pkce_challenge v = ac_code_challenge row) ∧
  (∀ r, non_blank (tq_resource request) = Some r → Str.trim_end_matches "/" r = ac_resource row) ∧
  (∃ rt, mints st resp (ac_client_id row) (ac_subject row)
     (if Str.is_empty (Str.trim (ac_resource row)) then canonical_resource_url st else ac_resource row)
     (ac_scope row) (Some rt)).

(** The refresh token of the response is the one that was stored. *)
Definition stores_refresh (tr : Trace) (row : AuthorizationCodeRow) (resp : TokenResponse) : Prop :=
  ∃ rt created expires, tr_refresh_token resp = Some rt ∧
    mkEvent (UpsertRefreshToken (hash_token rt)
      (mkRefreshTokenRow rt (ac_client_id row) (ac_subject row) (ac_resource row) (ac_scope row) None created expires)
      None) (Ok ()) ∈ sql_events tr.

Lemma validate_row_Ok row c u v res :
  validate_authorization_code_row row c u v = Ok res →
  ac_client_id row = c ∧ ac_redirect_uri row = u ∧ ac_code_challenge_method row = "S256" ∧
  pkce_challenge v = ac_code_challenge row.
Proof.
  unfold validate_authorization_code_row.
  destruct (String.eqb_spec (ac_client_id row) c); [|done].
  destruct (String.eqb_spec (ac_redirect_uri row) u); [|done].
  destruct (String.eqb_spec (ac_code_challenge_method row) "S256"); [|done].
  destruct (String.eqb_spec (pkce_challenge v) (ac_code_challenge row)); [|done]. done.
Qed.

Lemma finish_code_grant_spec st request row u v c :
  tq_client_id request = Some c → tq_redirect_uri request = Some u → tq_code_verifier request = Some v →
  always (finish_code_grant st (Str.trim_end_matches "/" <$> non_blank (tq_resource request)) c u v row)
    (fun tr r => ∀ resp, r = Ok resp → code_grant_ok st request row resp ∧ stores_refresh tr row resp).
Proof.
  intros Hc Hu Hv. unfold finish_code_grant, has_google_provider_credential_for_subject, upsert_refresh_token.
  destruct (validate_authorization_code_row row c u v) as [[]|] eqn:Ev; unroll; [|done].
  apply validate_row_Ok in Ev as (Ec & Eu & Em & Ep).
  destruct (match _ with Some r => _ | None => false end) eqn:Er; unroll; [done|].
  intros [[]|]; unroll; [|done..]. unfold random_token. unroll. intros [bytes|]; unroll; [|done].
  intros created. destruct (expires_at created _ _) as [expires|]; unroll; [|done].
  cbn [encrypt_opt rt_provider_refresh_token]. unroll.
  intros [[]|]; unroll; [|done]. eapply always_mono; [apply build_token_response_spec|].
  intros tr r [_ Hm] resp Hr. specialize (Hm resp Hr). split.
  - unfold code_grant_ok. subst c u. split_and!; eauto.
    intros rr Hrr. rewrite Hrr in Er. simpl in Er. apply negb_false_iff in Er. by apply String.eqb_eq in Er.
  - destruct Hm as (_ & Hrt & _). eexists _, created, expires. split; [exact Hrt|]. simpl.
    right. by left.
Qed.


(** ** The provider refresh *)

Definition is_google_refresh (s : step_of eresp) : bool :=
  match s with existT (GoogleRefreshToken _ _ _) _ => true | _ => false end.

(** A step that does not call the provider. *)
Definition offline (s : step_of eresp) : bool := negb (is_google_refresh s).

Lemma offline_maybe_encrypt key v : only_steps offline (maybe_encrypt key v).
Proof. unfold maybe_encrypt, encrypt_provider_token. solve_only. Qed.
#[local] Hint Resolve offline_maybe_encrypt : only_db.

Lemma offline_accept st s c g : only_steps offline (accept_google_refresh st s c g).
Proof.
  unfold accept_google_refresh, upsert_google_provider_token_bundle, invalidate_google_provider_credential. solve_only.
Qed.

Lemma offline_find_google key s : only_steps offline (find_google_provider_credential key s).
Proof.
  unfold find_google_provider_credential, find_google_provider_credential_by_selector. solve_only.
Qed.

Lemma accept_subject st s c g :
  always (accept_google_refresh st s c g) (fun _ r => ∀ g', r = Ok g' → g' = g ∧ ge_subject g = s).
Proof.
  unfold accept_google_refresh. destruct (String.eqb_spec (ge_subject g) s) as [He|Hn]; cbn [negb].
  - unroll. intros now. eapply always_try_spec; [apply always_trivial| |by intros ? ? _ ? [=]].
    intros tr [] _. unroll. by intros g' [= <-].
  - eapply always_try_spec; [apply always_trivial| |by intros ? ? _ ? [=]]. intros tr a _. unroll. by intros g' [=].
Qed.

(** At most [n] calls to the provider; a success is for the asked subject. *)
Lemma google_refresh_attempts_spec st s n c :
  always (google_refresh_attempts st s n c) (fun tr r =>
    count_steps is_google_refresh tr ≤ n ∧ ∀ g, r = Ok g → ge_subject g = s).
Proof.
  revert c. induction n as [|n IH]; intros c; cbn [google_refresh_attempts]; unroll; [split; [unfold count_steps; simpl; lia|by intros ? [=]]|].
  intros [g|e]; unroll.
  { eapply always_mono; [apply always_and; [apply offline_accept|apply accept_subject]|].
    intros tr r [Ho Hs]. split; [|intros g' Hg; by destruct (Hs g' Hg) as [-> ?]].
    change (?x :: tr) with ([x] ++ tr). rewrite count_steps_app, (count_steps_only _ tr Ho). unfold count_steps. simpl. lia. }
  destruct e; unroll; try (split; [unfold count_steps; simpl; lia|by intros ? [=]]).
  unfold invalidate_google_provider_credential. unroll. intros [i|e]; unroll; [|split; [unfold count_steps; simpl; lia|by intros ? [=]]].
  destruct (gi_invalidated i); unroll; [split; [unfold count_steps; simpl; lia|by intros ? [=]]|].
  case_bool_decide; unroll; [split; [unfold count_steps; simpl; lia|by intros ? [=]]|].
  eapply always_try_spec; [apply offline_find_google| |].
  - intros tr [c'|] Ho; unroll.
    + eapply always_mono; [apply IH|]. intros tr' r [Hn Hs]. split; [|done].
      change (?x :: ?y :: tr ++ tr') with ([x; y] ++ tr ++ tr').
      rewrite !count_steps_app, (count_steps_only _ tr Ho). unfold count_steps in *. simpl in *. lia.
    + split; [|by intros ? [=]]. change (?x :: ?y :: tr ++ []) with ([x; y] ++ tr ++ []).
      rewrite !count_steps_app, (count_steps_only _ tr Ho). unfold count_steps. simpl. lia.
  - intros tr e Ho. split; [|by intros ? [=]]. change (?x :: ?y :: tr) with ([x; y] ++ tr).
    rewrite !count_steps_app, (count_steps_only _ tr Ho). unfold count_steps. simpl. lia.
Qed.

(** One provider refresh calls Google at most twice, within the lock of
    its subject: the lock is the first step and its release the last one on
    every path, errors included; and it never succeeds with another account's
    identity. *)
Theorem provider_refresh_bounded st subject :
  always (refresh_google_provider_credential st subject) (fun tr r =>
    (∃ mid, tr = existT (SubjectLock subject) () :: mid ++ [existT (SubjectUnlock subject) ()] ∧
            count_steps is_google_refresh mid ≤ 2) ∧
    ∀ g, r = Ok g → ge_subject g = subject).
Proof.
  unfold refresh_google_provider_credential. unroll. intros [].
  eapply always_bind_spec.
  { eapply (always_try_spec _ _ _ (fun tr r => count_steps is_google_refresh tr ≤ 2 ∧
                                    ∀ g, r = Ok g → ge_subject g = subject));
      [apply offline_find_google| |].
    - intros tr [c|] Ho; unroll.
      + eapply always_mono; [apply (google_refresh_attempts_spec st subject 2 c)|].
        intros tr' r [Hn Hs]. rewrite count_steps_app, (count_steps_only _ tr Ho). done.
      + rewrite app_nil_r, (count_steps_only _ tr Ho). split; [lia|by intros ? [=]].
    - intros tr e Ho. rewrite (count_steps_only _ tr Ho). split; [lia|by intros ? [=]]. }
  intros tr r [Hn Hs]. unroll. intros []. split; [|done]. exists tr. done.
Qed.

Lemma refresh_google_spec st subject :
  always (refresh_google_provider_credential st subject) (fun tr r =>
    forallb (sql_step google_event) tr = true ∧ ∀ g, r = Ok g → ge_subject g = subject).
Proof.
  apply always_and; [apply only_refresh_google|].
  unfold refresh_google_provider_credential. unroll. intros [].
  eapply (always_bind_spec _ _ (fun _ r => ∀ g, r = Ok g → ge_subject g = subject)).
  - eapply always_try_spec; [apply always_trivial| |by intros ? ? _ ? [=]]. intros tr [c|] _; unroll; [|done].
    eapply always_mono; [apply google_refresh_attempts_spec|]. by intros tr' r [_ Hs].
  - intros tr r Hs. unroll. by intros [].
Qed.

(** ** The refresh-token grant *)

(** The resource a refresh token is for. *)
Definition resource_of (st : AuthState) (row : RefreshTokenRow) : string :=
  if Str.is_empty (Str.trim (rt_resource row)) then canonical_resource_url st else rt_resource row.

(** The provider credential of the subject was refreshed: under the lock of the
    subject its stored credential was read, Google exchanged that credential's
    refresh token and answered for the same subject, and the new tokens were
    stored for it. *)
Definition refreshed_with (st : AuthState) (subject : string) (mid : Trace) : Prop :=
  ∃ credential g b now,
    performed (find_google_provider_credential (enc_key st) subject) (Ok (Some credential)) mid ∧
    existT (GoogleRefreshToken (gp_refresh_token credential) (gp_subject credential) (gp_email credential)) (Ok g) ∈ mid ∧
    ge_subject g = subject ∧
    mkEvent (UpsertGoogleBundle b now) (Ok ()) ∈ sql_events mid ∧
    gb_subject b = subject ∧ gb_client_id b = google_client_id st ∧ gb_refreshed b = true.
Definition provider_refreshed (st : AuthState) (subject : string) (tr : Trace) : Prop :=
  ∃ pre mid post,
    tr = pre ++ (existT (SubjectLock subject) () :: mid ++ [existT (SubjectUnlock subject) ()]) ++ post ∧
    refreshed_with st subject mid.

Lemma provider_refreshed_app st s l m r : provider_refreshed st s m → provider_refreshed st s (l ++ m ++ r).
Proof.
  intros (pre & mid & post & -> & Hm). exists (l ++ pre), mid, (post ++ r). split; [|done]. by rewrite <- !app_assoc.
Qed.

Lemma refreshed_after st s l m : refreshed_with st s m → refreshed_with st s (l ++ m).
Proof.
  intros (c & g & b & now & Hp & Hg & Hs & Hb & Hrest). exists c, g, b, now.
  split_and!; try apply Hrest; [by apply performed_r|apply elem_of_app; by right|done|].
  rewrite sql_events_app, elem_of_app. by right.
Qed.

Lemma accept_stores st s c g :
  always (accept_google_refresh st s c g) (fun tr r => ∀ g', r = Ok g' →
    ge_subject g = s ∧ ∃ b now, mkEvent (UpsertGoogleBundle b now) (Ok ()) ∈ sql_events tr ∧
      gb_subject b = s ∧ gb_client_id b = google_client_id st ∧ gb_refreshed b = true).
Proof.
  unfold accept_google_refresh. destruct (String.eqb_spec (ge_subject g) s) as [He|Hn]; cbn [negb].
  - unroll. intros now. eapply always_try_spec.
    { eapply (always_mono _ (fun tr r => ∀ u, r = Ok u → ∃ b now, mkEvent (UpsertGoogleBundle b now) (Ok ()) ∈ sql_events tr ∧
        gb_subject b = s ∧ gb_client_id b = google_client_id st ∧ gb_refreshed b = true)); [|intros tr r Hr; exact Hr].
      unfold upsert_google_provider_token_bundle. destruct (json_encode _) as [js|]; unroll; [|done].
      eapply always_try_spec; [apply always_trivial|intros tr1 e1 _|by intros ? ? _ ? [=]].
      eapply always_try_spec; [apply always_trivial|intros tr2 e2 _|by intros ? ? _ ? [=]].
      unroll. intros now2 [[]|e] u [= <-]. eexists _, now2. rewrite !sql_events_app, !elem_of_app. split; [right; right; by left|done]. }
    + intros tr u Hu. unroll. intros g' [= <-]. split; [done|]. destruct (Hu u eq_refl) as (b & n & Hin & Hb). exists b, n.
      rewrite app_nil_r. by split.
    + by intros ? ? _ ? [=].
  - eapply always_try_spec; [apply always_trivial| |by intros ? ? _ ? [=]]. intros tr a _. unroll. by intros g' [=].
Qed.

Lemma google_attempts_refresh st s n : ∀ c pre,
  performed (find_google_provider_credential (enc_key st) s) (Ok (Some c)) pre →
  always (google_refresh_attempts st s n c) (fun tr r => ∀ g, r = Ok g → refreshed_with st s (pre ++ tr)).
Proof.
  induction n as [|n IH]; intros c pre Hpre; cbn [google_refresh_attempts]; unroll; [done|].
  intros [g|e]; unroll.
  { eapply always_mono; [apply accept_stores|]. intros tr r Hr g' Hg. destruct (Hr g' Hg) as (Hs & b & now & Hin & Hb).
    exists c, g, b, now. split_and!; try apply Hb; [by apply performed_l|apply elem_of_app; right; by left|done|].
    rewrite sql_events_app, elem_of_app. by right. }
  destruct e; unroll; try done.
  unfold invalidate_google_provider_credential. unroll. intros [i|e]; unroll; [|done].
  destruct (gi_invalidated i); unroll; [done|]. case_bool_decide; unroll; [done|].
  eapply always_try_spec; [apply always_performed| |by intros ? ? _ ? [=]].
  intros tr [c'|] Hp; unroll; [|done].
  eapply always_mono; [by apply (IH c' tr)|]. intros tr' r Hr g Hg.
  apply refreshed_after. change (?x :: ?y :: tr ++ tr') with ([x; y] ++ tr ++ tr'). apply refreshed_after. by apply (Hr g).
Qed.

Lemma refresh_google_refreshes st subject :
  always (refresh_google_provider_credential st subject) (fun tr r => ∀ g, r = Ok g → provider_refreshed st subject tr).
Proof.
  unfold refresh_google_provider_credential. unroll. intros [].
  eapply (always_bind_spec _ _ (fun tr r => ∀ g, r = Ok g → refreshed_with st subject tr)).
  - eapply always_try_spec; [apply always_performed| |by intros ? ? _ ? [=]]. intros tr [c|] Hp; unroll; [|done].
    by apply google_attempts_refresh.
  - intros tr r Hr. unroll. intros [] g Hg. exists [], tr, []. rewrite app_nil_r. eauto.
Qed.

(** What a completed refresh checked and replaced. *)
Definition refreshed (st : AuthState) (tr : Trace) (client_id token claim_id : string)
    (requested : option string) (stored : RefreshTokenRow) (resp : TokenResponse) : Prop :=
  rt_client_id stored = client_id ∧
  (∀ r, requested = Some r → r = resource_of st stored) ∧
  provider_refreshed st (rt_subject stored) tr ∧
  count_sql (rotates_from (hash_token token)) tr = 1 ∧
  let scope := elevate_scope_for_allowed_user (rt_scope stored) (cf_default_scope (config st)) in
  ∃ new created expires now row,
    mints st resp client_id (rt_subject stored) (resource_of st stored) scope (Some new) ∧
    mkEvent (RotateClaimedRefreshToken (hash_token token) claim_id (hash_token new)
      (mkRefreshTokenRow new client_id (rt_subject stored) (resource_of st stored) scope None created expires)
      None now) (Ok (Some row)) ∈ sql_events tr.

Lemma complete_claimed_refresh_spec st client_id token claim_id requested stored :
  always (complete_claimed_refresh st client_id token claim_id requested stored) (fun tr r =>
    ∀ resp, r = Ok resp → refreshed st tr client_id token claim_id requested stored resp).
Proof.
  unfold complete_claimed_refresh. destruct (String.eqb_spec (rt_client_id stored) client_id) as [Hc|];
    cbn [negb]; [|done].
  fold (resource_of st stored). destruct (match requested with Some r => _ | None => false end) eqn:Er; [done|].
  eapply always_try_spec; [apply always_and; [apply refresh_google_spec|apply refresh_google_refreshes]| |by intros ? ? _ ? [=]].
  intros tr1 g [[H1 Hg] Hpr]. specialize (Hg g eq_refl). specialize (Hpr g eq_refl). unroll. intros now.
  destruct (expires_at now _ _) as [expires|]; unroll; [|done].
  unfold random_token. unroll. intros [bytes|]; unroll; [|done].
  eapply always_try_spec; [apply build_token_response_spec| |by intros ? ? _ ? [=]].
  intros tr2 resp' [H2 Hm]. specialize (Hm resp' eq_refl).
  unfold rotate_claimed_refresh_token. unroll. intros now2. cbn [encrypt_opt rt_provider_refresh_token]. unroll.
  intros [[row|]|]; unroll; [|done..]. intros resp [= <-]. rewrite Hg, Hc in *.
  assert (Hn : count_sql (rotates_from (hash_token token)) tr1 = 0).
  { eapply (count_sql_only google_event); [|exact H1]. by intros [[] ?]. }
  split_and!; [done| |by apply (provider_refreshed_app st _ [])| |].
  - intros r ->. apply negb_false_iff, String.eqb_eq in Er. done.
  - change (?a :: ?b :: tr2 ++ ?c) with ([a; b] ++ tr2 ++ c).
    rewrite !count_sql_app, Hn. unfold count_sql. rewrite H2. simpl. by rewrite String.eqb_refl.
  - eexists _, now, expires, now2, row. split; [exact Hm|].
    change (?a :: ?b :: tr2 ++ ?c) with ([a; b] ++ tr2 ++ c).
    rewrite !sql_events_app, H2, elem_of_app. right. by left.
Qed.

Lemma decrypt_row_fields key raw d :
  decrypt_row key raw = Ok d →
  rt_client_id d = rt_client_id raw ∧ rt_subject d = rt_subject raw ∧
  rt_resource d = rt_resource raw ∧ rt_scope d = rt_scope raw.
Proof.
  unfold decrypt_row. destruct (rt_provider_refresh_token raw) as [p|]; [|by intros [= <-]].
  destruct (maybe_decrypt key p); by intros [= <-].
Qed.

Lemma refreshed_raw st tr c t id rr raw d resp key :
  decrypt_row key raw = Ok d → refreshed st tr c t id rr d resp → refreshed st tr c t id rr raw resp.
Proof.
  intros (Hc & Hs & Hr & Hsc)%decrypt_row_fields. unfold refreshed, resource_of. by rewrite Hc, Hs, Hr, Hsc.
Qed.

(** Steps around a completed refresh that do not rotate its token. *)
Lemma refreshed_around st tr c t id rr row resp pre :
  refreshed st tr c t id rr row resp → count_sql (rotates_from (hash_token t)) pre = 0 →
  refreshed st (pre ++ tr) c t id rr row resp.
Proof.
  intros (Hc & Hr & Hg & Hn & new & cr & ex & now & row' & Hm & Hin) Hp. split_and!; [done|done| | |].
  - rewrite <- (app_nil_r tr). by apply provider_refreshed_app.
  - by rewrite count_sql_app, Hp, Hn.
  - exists new, cr, ex, now, row'. split; [done|]. rewrite sql_events_app, elem_of_app. by right.
Qed.

Lemma validate_resource_Ok st value :
  always (validate_resource st (Some value)) (fun tr r =>
    forallb (sql_step no_event) tr = true ∧
    ∀ q, r = Ok q → Str.is_empty (Str.trim value) = false → q = Str.trim_end_matches "/" (Str.trim value)).
Proof.
  apply always_and; [apply only_validate_resource|]. unfold validate_resource, is_allowed_resource_url.
  destruct (Str.is_empty (Str.trim value)); [done|]. destruct (String.eqb _ _); unroll; [by intros q [= <-]|].
  intros [l|]; unroll; [by intros q [= <-]|done].
Qed.

(** The requested resource of a refresh, validated. *)
Lemma requested_resource_spec st (res : option string) :
  always (match non_blank res with
          | None => ret_ok None
          | Some value => let!? r := validate_resource st (Some value) in ret_ok (Some r)
          end : M (result (option string) AuthError)) (fun tr r =>
    forallb (sql_step no_event) tr = true ∧
    ∀ q, r = Ok q → ∀ v, non_blank res = Some v → Str.is_empty (Str.trim v) = false →
                         q = Some (Str.trim_end_matches "/" (Str.trim v))).
Proof.
  destruct (non_blank res) as [v|]; [|done].
  eapply always_try_spec; [apply validate_resource_Ok| |].
  - intros tr r [Ho Hr]. unroll. rewrite app_nil_r. split; [done|]. intros q [= <-] v' [= <-] He.
    by rewrite (Hr r eq_refl He).
  - intros tr e [Ho _]. by split.
Qed.


Definition refresh_event (ev : StoreEvent) : bool :=
  google_event ev || match ev_op ev with RotateClaimedRefreshToken _ _ _ _ _ _ => true | _ => false end.

Lemma only_complete_claimed_refresh st c t id rr row : only refresh_event (complete_claimed_refresh st c t id rr row).
Proof.
  unfold complete_claimed_refresh, rotate_claimed_refresh_token.
  repeat (first [ eapply only_mono; [|apply only_refresh_google];
                  intros s; unfold sql_step, refresh_event; destruct (sql_event s); [by intros ->|done]
                | progress solve_only ]).
Qed.

Lemma after_claim_releases st c t id rr row :
  always (after_claim st c t id rr row) (fun tr r =>
    (∀ ev, ev ∈ sql_events tr → refresh_event ev = true ∨ ∃ a, ev = mkEvent (ReleaseRefreshClaim (hash_token t) id) a) ∧
    ∀ e, r = Err e → ∃ answer, last (sql_events tr) = Some (mkEvent (ReleaseRefreshClaim (hash_token t) id) answer)).
Proof.
  unfold after_claim, release_refresh_claim. eapply always_bind_spec; [apply only_complete_claimed_refresh|].
  intros tr [resp|e] Ho; unroll; cbn beta in Ho.
  - rewrite app_nil_r. split; [|by intros ? [=]]. intros ev Hin. left. by eapply elem_sql_events_only.
  - intros answer. assert (Hgoal : ∀ r : result TokenResponse AuthError,
      (∀ ev, ev ∈ sql_events (tr ++ [existT (Sql (ReleaseRefreshClaim (hash_token t) id)) answer]) →
        refresh_event ev = true ∨ ∃ a, ev = mkEvent (ReleaseRefreshClaim (hash_token t) id) a) ∧
      ∀ e, r = Err e → ∃ a, last (sql_events (tr ++ [existT (Sql (ReleaseRefreshClaim (hash_token t) id)) answer]))
                            = Some (mkEvent (ReleaseRefreshClaim (hash_token t) id) a)).
    { intros r. rewrite sql_events_app. change (sql_events [?x]) with [mkEvent (ReleaseRefreshClaim (hash_token t) id) answer].
      split; [|intros e' _; exists answer; by rewrite last_snoc].
      intros ev [Hin|Hin]%elem_of_app; [left; by eapply elem_sql_events_only|right].
      apply list_elem_of_singleton in Hin as ->. by eexists. }
    destruct answer as [[]|]; unroll; apply Hgoal.
Qed.

Definition not_claim (ev : StoreEvent) : bool :=
  match ev_op ev with ClaimRefreshToken _ _ _ _ _ => false | _ => true end.

(** The row a claim returned. *)
Definition claimed_row (ev : StoreEvent) : option RefreshTokenRow :=
  match ev with
  | mkEvent op r =>
      match op as o return result (store_resp o) AuthError → option RefreshTokenRow with
      | ClaimRefreshToken _ _ _ _ _ => fun r => match r with Ok x => x | Err _ => None end
      | _ => fun _ => None
      end r
  end.

(** The claim that succeeded, if the grant failed, is released last. *)
Definition releases (tr : Trace) (r : result TokenResponse AuthError) : Prop :=
  ∀ e h plaintext id lease now raw, r = Err e →
    mkEvent (ClaimRefreshToken h plaintext id lease now) (Ok (Some raw)) ∈ sql_events tr →
    rt_provider_refresh_token raw = None →
    ∃ answer, last (sql_events tr) = Some (mkEvent (ReleaseRefreshClaim h id) answer).

Lemma releases_app pre tr r : forallb (sql_step not_claim) pre = true → releases tr r → releases (pre ++ tr) r.
Proof.
  intros Hp Hr e h p id l now raw He Hin Hraw. rewrite sql_events_app in *. apply elem_of_app in Hin as [Hin|Hin].
  - by pose proof (elem_sql_events_only not_claim _ _ Hp Hin).
  - destruct (Hr e h p id l now raw He Hin Hraw) as [a Ha]. exists a. by rewrite last_app, Ha.
Qed.

Lemma releases_none tr r : forallb (sql_step not_claim) tr = true → releases tr r.
Proof.
  intros Ht e h p id l now raw _ Hin. by pose proof (elem_sql_events_only not_claim _ _ Ht Hin).
Qed.

Lemma releases_bind {A} (p : M A) f :
  only not_claim p → (∀ a, always (f a) releases) → always (pbind p f) releases.
Proof.
  intros Hp Hf. eapply always_bind_spec; [exact Hp|]. intros tr a Htr. eapply always_mono; [apply Hf|].
  intros tr' r. by apply releases_app.
Qed.

Lemma releases_try {A} (p : M (result A AuthError)) f :
  only not_claim p → (∀ a, always (f a) releases) → always (try_bind p f) releases.
Proof. intros Hp Hf. apply releases_bind; [done|]. intros [a|e]; [apply Hf|]. by apply releases_none. Qed.

(** A failed refresh gives its lease back: on every path on which the
    claim of a token succeeded and the grant then failed, the last statement
    sent is the release of that very claim.  (Rows that still carry an
    encrypted provider token, which the server no longer writes, are excluded:
    a decryption error there leaves the lease to expire.) *)
Theorem failed_refresh_releases st request : always (refresh_token_grant st request) releases.
Proof.
  unfold refresh_token_grant. apply releases_try; [|intros requested].
  { destruct (non_blank _); solve_only. }
  apply releases_try; [solve_only|intros c]. apply releases_try; [solve_only|intros t].
  apply releases_try; [|intros _].
  { eapply only_weaken; [|apply only_authenticate_oauth_client]. by intros [[] ?]. }
  apply releases_try; [solve_only|intros claim_id]. apply releases_bind; [solve_only|intros now0].
  unfold claim_refresh_token. unroll. intros now [row|e]; unroll; [|intros ? ? ? ? ? ? ? _ Hin; apply list_elem_of_singleton in Hin; by apply (f_equal claimed_row) in Hin].
  destruct row as [raw|]; cbn [decrypt_opt]; unroll; [|intros ? ? ? ? ? ? ? _ Hin; apply list_elem_of_singleton in Hin; by apply (f_equal claimed_row) in Hin].
  destruct (decrypt_row (enc_key st) raw) as [d|] eqn:Ed; unroll.
  - eapply always_mono; [apply after_claim_releases|]. intros tr r [Hev Hlast] e h p id l n raw' He Hin Hraw.
    destruct (Hlast e He) as [a Ha]. exists a. simpl in *. apply elem_of_cons in Hin as [Hin|Hin].
    + apply (f_equal ev_op) in Hin. injection Hin as -> -> -> -> ->. rewrite last_cons, Ha. done.
    + destruct (Hev _ Hin) as [Hx|[a' Hx]]; [done|]. by apply (f_equal ev_op) in Hx.
  - intros e0 h p id l n raw' _ Hin Hraw. exfalso. apply list_elem_of_singleton in Hin.
    apply (f_equal claimed_row) in Hin. injection Hin as ->.
    unfold decrypt_row in Ed. by rewrite Hraw in Ed.
Qed.

End TokenProps.
