(* ===== verification/EndpointProps.v ===== *)
(** * EndpointProps: machine clients, revocation, enterprise grants, responses

    The remaining guarantees of the token endpoint, again on every path. *)

From Stdlib Require Import Ascii.
From stdpp Require Import base list gmap strings.
From S2P Require Import Prelude RustStr Prog AuthTypes SamplePlatform Store StoreProps Effects.
From S2P Require Import Traces AtRest SqliteStore Ssrf Redirect Scopes Cimd Token TokenProps.

Section Endpoints.
Context `{Platform} (ip_text : IpAddr → string).

#[local] Hint Resolve only_random_token only_validate_resource only_validate_token_scope
  only_build_token_response only_maybe_encrypt only_encrypt_opt : only_db.

(** ** Refresh and the allowlist *)

Definition not_allowlist (ev : StoreEvent) : bool := match ev_op ev with ListAllowedUsers => false | _ => true end.

Lemma only_refresh_token_grant st request : only not_allowlist (refresh_token_grant st request).
Proof.
  unfold refresh_token_grant, claim_refresh_token, after_claim, release_refresh_claim.
  repeat (first [ solve [eapply only_weaken; [|apply only_authenticate_oauth_client]; by intros [[] ?]]
                | solve [eapply only_weaken; [|apply only_complete_claimed_refresh]; by intros [[] ?]]
                | progress solve_only ]).
Qed.

(** A refresh is decided without the allowlist: no path of the refresh
    grant reads it, and every successful refresh answers with the brand's
    admin scope.  An address removed from the allowlist therefore keeps its
    refresh tokens working, with administrator scope, until they expire or its
    provider credential is invalidated. *)
Theorem refresh_ignores_allowlist st request :
  Str.is_token (admin_scope (cf_default_scope (config st))) →
  always (refresh_token_grant st request) (fun tr r =>
    forallb not_allowlist (sql_events tr) = true ∧
    ∀ resp, r = Ok resp → admin_scope (cf_default_scope (config st)) ∈ Str.split_whitespace (tr_scope resp)).
Proof.
  intros Ha. apply always_and.
  { eapply always_mono; [apply only_refresh_token_grant|]. intros tr r. cbn beta. by rewrite sql_events_only. }
  unfold refresh_token_grant.
  eapply always_try_spec; [apply always_trivial|intros ? requested _|by intros ? ? _ ? [=]].
  eapply always_try_spec; [apply always_trivial|intros ? c _|by intros ? ? _ ? [=]].
  eapply always_try_spec; [apply always_trivial|intros ? t _|by intros ? ? _ ? [=]].
  eapply always_try_spec; [apply always_trivial|intros ? [] _|by intros ? ? _ ? [=]].
  eapply always_try_spec; [apply always_trivial|intros ? id _|by intros ? ? _ ? [=]].
  unroll. intros now. eapply always_try_spec; [apply always_trivial|intros ? [row|] _|by intros ? ? _ ? [=]]; [|done].
  unfold after_claim. eapply always_bind_spec; [apply complete_claimed_refresh_spec|].
  intros trc [resp|e] Hc; unroll.
  - intros resp' [= <-]. destruct (Hc resp eq_refl) as (_ & _ & _ & _ & new & cr & ex & n & r & (Hs & _) & _).
    rewrite Hs, (elevate_tokens _ _ Ha). destruct (existsb _ _) eqn:Ex.
    + by apply existsb_elem in Ex as (a & Hin & ->%String.eqb_eq).
    + apply elem_of_app. right. by left.
  - unfold release_refresh_claim. unroll. intros [[]|]; unroll; by intros ? [=].
Qed.

(** ** Machine clients *)

(** The client-credentials grant is bounded by the client's
    configuration: it only answers for a configured machine client that
    presented its secret or a fresh assertion it signed, the token is for one
    of the client's resources, carries only scopes of the client when the
    client lists any, names the client as subject, and comes without a refresh
    token. *)
Theorem client_credentials_bounded st request :
  always (client_credentials_grant st request) (fun tr r =>
    ∀ resp, r = Ok resp →
    ∃ client_id client resource scope,
      tq_client_id request = Some client_id ∧
      client ∈ cf_machine_clients (config st) ∧ mc_client_id client = client_id ∧
      machine_authenticated st client (tq_client_secret request) (tq_client_assertion_type request)
        (tq_client_assertion request) tr ∧
      (∃ allowed, allowed ∈ mc_resources client ∧ Str.trim_end_matches "/" allowed = resource) ∧
      (mc_scopes client ≠ [] → ∀ t, t ∈ Str.split_whitespace scope → t ∈ mc_scopes client) ∧
      mints st resp client_id client_id resource scope None).
Proof.
  unfold client_credentials_grant, require_field. destruct (tq_client_id request) as [id|]; unroll; [|done].
  cbn [ok_or]. destruct (find_machine_client st id) as [client|] eqn:Ef; [|done].
  apply find_first_Some in Ef as [Hin Hid%String.eqb_eq].
  eapply always_try_spec; [apply authenticate_machine_client_spec|intros tr1 u Hauth|by intros ? ? _ ? [=]].
  specialize (Hauth u eq_refl). eapply always_bind_spec; [apply always_trivial|intros tr2 rr _].
  destruct (map_err _ rr) as [resource|]; unroll; [|done].
  destruct (existsb _ (mc_resources client)) eqn:Er; cbn [negb]; [|done].
  apply existsb_elem in Er as (allowed & Hall & Hres%String.eqb_eq).
  eapply always_try_spec; [apply always_trivial|intros tr3 scope _|by intros ? ? _ ? [=]].
  destruct (negb (bool_decide (mc_scopes client = [])) && _) eqn:Es; [done|].
  eapply always_mono; [apply build_token_response_spec|]. intros tr4 r [_ Hm] resp Hr.
  exists id, client, resource, scope. split_and!; eauto.
  - by apply (machine_authenticated_app st client _ _ _ []).
  - intros Hne t Ht. rewrite bool_decide_false in Es by done. cbn [negb andb] in Es. apply negb_false_iff in Es.
    apply (proj1 (forallb_elem _ _) Es) in Ht. apply existsb_elem in Ht as (x & Hx & ->%String.eqb_eq). done.
Qed.

(** ** Revocation *)

Definition is_revocation (ev : StoreEvent) : bool :=
  match ev_op ev with RevokeRefreshToken _ => true | _ => false end.

Lemma find_refresh_token_spec key t :
  always (find_refresh_token key t) (fun tr r =>
    ∃ now answer, sql_events tr = [mkEvent (FindRefreshToken (hash_token t) t now) answer] ∧
    (∀ d, r = Ok (Some d) → ∃ raw, answer = Ok (Some raw) ∧ rt_client_id d = rt_client_id raw)).
Proof.
  unfold find_refresh_token. unroll. intros now [[raw|]|e]; unroll; cbn [decrypt_opt].
  - destruct (decrypt_row key raw) as [d|] eqn:Ed; exists now, (Ok (Some raw)); (split; [done|]);
      [|done]. intros d' [= <-]. exists raw. split; [done|]. by apply decrypt_row_fields in Ed as [? _].
  - exists now, (Ok None). split; [done|]. done.
  - exists now, (Err e). split; [done|]. done.
Qed.

(** Every token deleted was found stored for the client the request names. *)
Definition revokes_own (rq : RevocationRequest) (tr : Trace) : Prop :=
  ∀ ev, ev ∈ sql_events tr → is_revocation ev = true →
    ev_op ev = RevokeRefreshToken (hash_token (rq_token rq)) ∧
    ∃ now raw, rq_client_id rq = Some (rt_client_id raw) ∧
      mkEvent (FindRefreshToken (hash_token (rq_token rq)) (rq_token rq) now) (Ok (Some raw)) ∈ sql_events tr.

Definition not_revocation (ev : StoreEvent) : bool := negb (is_revocation ev).

Lemma revokes_own_quiet rq tr : forallb not_revocation (sql_events tr) = true → revokes_own rq tr.
Proof.
  rewrite forallb_elem. intros Hq ev Hin Hr. specialize (Hq ev Hin). unfold not_revocation in Hq. by rewrite Hr in Hq.
Qed.

(** From the lookup of the presented token on. *)
Lemma revoke_found rq now raw pre tr2 answer :
  forallb not_revocation (sql_events pre) = true →
  mkEvent (FindRefreshToken (hash_token (rq_token rq)) (rq_token rq) now) (Ok (Some raw)) ∈ sql_events pre →
  rq_client_id rq = Some (rt_client_id raw) → forallb (sql_step auth_event) tr2 = true →
  revokes_own rq (pre ++ tr2 ++ [existT (Sql (RevokeRefreshToken (hash_token (rq_token rq)))) answer]).
Proof.
  intros Hq Hf Hc H2 ev Hin Hr. split.
  - rewrite !sql_events_app in Hin. apply elem_of_app in Hin as [Hin|Hin];
      [|apply elem_of_app in Hin as [Hin|Hin]].
    + apply (proj1 (forallb_elem _ _) Hq) in Hin. unfold not_revocation in Hin. by rewrite Hr in Hin.
    + pose proof (elem_sql_events_only _ _ _ H2 Hin) as Ha. by destruct ev as [[] ?].
    + by apply list_elem_of_singleton in Hin as ->.
  - exists now, raw. split; [done|]. rewrite sql_events_app, elem_of_app. by left.
Qed.

(** Only the owner revokes: the revocation endpoint deletes a token only
    when the presented token was found stored for the very client the request
    names (and that client passed authentication, which sends no deletion);
    the token deleted is the presented one, and no other. *)
Theorem revocation_by_owner st remote authorization request :
  always (revoke st remote authorization request) (fun tr _ =>
    match revocation_request authorization request with
    | Ok rq => revokes_own rq tr
    | Err _ => sql_events tr = []
    end).
Proof.
  unfold revoke, check_token_rate_limit, check_rate_limit. unroll.
  destruct (revocation_request authorization request) as [rq|]; intros []; unroll;
    [|by apply revokes_own_quiet|done..].
  eapply always_bind_spec; [apply find_refresh_token_spec|]. intros tr1 r (now & answer & Hev & Hd).
  set (pre := existT (TryAcquire TokenLimiter (default LOCALHOST remote)) true :: tr1).
  assert (Hpre : sql_events pre = sql_events tr1) by done.
  assert (Hq : forallb not_revocation (sql_events pre) = true) by (rewrite Hpre, Hev; done).
  assert (Hstop : revokes_own rq (pre ++ [])) by (apply revokes_own_quiet; by rewrite app_nil_r).
  destruct r as [[d|]|e]; [|exact Hstop..]. destruct (rq_client_id rq) as [c|] eqn:Ec; [|exact Hstop].
  destruct (String.eqb_spec c (rt_client_id d)) as [->|]; cbn [negb]; [|exact Hstop].
  destruct (Hd d eq_refl) as (raw & -> & Hraw). rewrite Hraw in Ec.
  eapply always_bind_spec; [apply only_authenticate_oauth_client|]. intros tr2 r2 H2. cbn beta in H2.
  destruct r2 as [u|e]; unroll.
  - unfold revoke_refresh_token. unroll. intros [x|x]; unroll; apply (revoke_found rq now raw pre tr2); try done;
      rewrite Hpre, Hev; by left.
  - apply (revokes_own_quiet rq (pre ++ tr2 ++ [])). rewrite app_nil_r, sql_events_app, forallb_app, Hq. simpl.
    rewrite sql_events_only in H2. rewrite forallb_elem in *. intros ev Hin. specialize (H2 ev Hin). by destruct ev as [[] ?].
Qed.

(** ** Enterprise-managed grants *)

(** The scope accepted for a resource: the requested one, within what the
    resource supports; or, when none is requested, the server's default on the
    canonical resource and every supported scope on another. *)
Definition accepted_scope (st : AuthState) (resource scope s : string) (tr : Trace) : Prop :=
  let canonical := String.eqb (Str.trim_end_matches "/" resource) (canonical_resource_url st) in
  ∃ supported,
    (if canonical then supported = cf_scopes_supported (config st)
     else existT (EffectiveScopes resource) (Some supported) ∈ tr ∧ supported ≠ []) ∧
    if Str.is_empty (Str.trim scope) then s = (if canonical then cf_default_scope (config st) else Str.join " " supported)
    else Str.split_whitespace s = Str.split_whitespace (Str.trim scope) ∧
         ∀ t, t ∈ Str.split_whitespace s → t ∈ supported.

Lemma accepted_scope_app st resource scope s l m r :
  accepted_scope st resource scope s m → accepted_scope st resource scope s (l ++ m ++ r).
Proof.
  intros (sup & Hs & Hrest). exists sup. split; [|done]. destruct (String.eqb _ _); [done|]. rewrite !elem_of_app. naive_solver.
Qed.

Lemma validate_token_scope_spec st resource scope :
  always (validate_token_scope st resource scope) (fun tr r => ∀ s, r = Ok s → accepted_scope st resource scope s tr).
Proof.
  unfold validate_token_scope. eapply always_bind_spec; [apply validated_scope_supported|].
  intros tr r Hr. unroll. intros s Hs. destruct r as [s'|]; [|done]. injection Hs as <-. rewrite app_nil_r.
  destruct (Hr s' eq_refl) as (sup & Hsup & Hcase). exists sup. unfold supported_on in Hsup. split.
  - destruct (String.eqb _ _); [by destruct Hsup|]. destruct Hsup as [-> Hne]. split; [by left|done].
  - destruct Hcase as [[-> ->]|(-> & Hx & Ht)]; [done|by split].
Qed.

(** The resource accepted for a request: the canonical one when none is named,
    else the named one, canonical or known to the registry. *)
Definition accepted_resource (st : AuthState) (named resource : string) (tr : Trace) : Prop :=
  if Str.is_empty (Str.trim named) then resource = canonical_resource_url st
  else resource = Str.trim_end_matches "/" (Str.trim named) ∧
       (resource = canonical_resource_url st ∨ ∃ scopes, existT (EffectiveScopes resource) (Some scopes) ∈ tr).

Lemma validate_resource_spec st named :
  always (validate_resource st (Some named)) (fun tr r => ∀ q, r = Ok q → accepted_resource st named q tr).
Proof.
  unfold validate_resource, is_allowed_resource_url, accepted_resource.
  destruct (Str.is_empty (Str.trim named)); [by intros q [= <-]|].
  destruct (String.eqb_spec (Str.trim_end_matches "/" (Str.trim named)) (canonical_resource_url st)) as [E|];
    unroll; [intros q [= <-]; auto|].
  intros [l|]; unroll; [|done]. intros q [= <-]. split; [done|]. right. exists l. by left.
Qed.

(** Where the issuer's keys came from: its configuration, its key-set URL, or
    an unexpired cache entry of that URL that knows the key. *)
Definition keys_of (issuer : EnterpriseIssuerConfig) (kid : string) (ks : JwkSet) (tr : Trace) : Prop :=
  (∃ value, ei_jwks issuer = Some value ∧ jwks_of_json value = Ok ks) ∨
  (∃ uri, ei_jwks_uri issuer = Some uri ∧
    ((∃ policy, existT (FetchJwks uri) (Ok (ks, policy)) ∈ tr) ∨
     (∃ expires now, existT (JwksGet (url_str uri)) (Some (ks, expires)) ∈ tr ∧ existT Now now ∈ tr ∧
        (now < expires)%Z ∧ is_Some (jwks_find ks kid)))).

Lemma keys_of_app issuer kid ks a b : keys_of issuer kid ks a ∨ keys_of issuer kid ks b → keys_of issuer kid ks (a ++ b).
Proof. unfold keys_of. setoid_rewrite elem_of_app. naive_solver. Qed.

Lemma cached_jwks_Some entry now kid ks :
  cached_jwks entry now kid = Some ks → ∃ expires, entry = Some (ks, expires) ∧ (now < expires)%Z ∧ is_Some (jwks_find ks kid).
Proof.
  unfold cached_jwks. destruct entry as [[ks' ex]|]; [|done]. case_bool_decide; [|done].
  destruct (jwks_find ks' kid) eqn:E; [|done]. intros [= <-]. exists ex. rewrite E. eauto.
Qed.

Lemma fetch_jwks_spec uri lk lock_key :
  always (fetch_jwks uri lk lock_key) (fun tr r =>
    ∀ ks, r = Ok ks → ∃ policy, existT (FetchJwks uri) (Ok (ks, policy)) ∈ tr).
Proof.
  unfold fetch_jwks. unroll. intros [[]|[]]; unroll; [|by intros []].
  intros [[ks policy]|e]; unroll; [|by intros [] [] []].
  eapply always_bind_spec; [apply always_trivial|]. intros tr [] _. unroll. intros [] [] [] ks' [= <-].
  exists policy. right. left.
Qed.

Lemma load_enterprise_jwks_spec issuer kid :
  always (load_enterprise_jwks ip_text issuer kid) (fun tr r => ∀ ks, r = Ok ks → keys_of issuer kid ks tr).
Proof.
  unfold load_enterprise_jwks. destruct (ei_jwks issuer) as [value|] eqn:Ev.
  { destruct (jwks_of_json value) as [ks|] eqn:Ej; unroll; [|done]. intros ks' [= <-]. left. eauto. }
  destruct (ei_jwks_uri issuer) as [uri|] eqn:Eu; unroll; [|done].
  destruct (parse_validated_https_url _); unroll; [|done]. intros now entry.
  destruct (cached_jwks entry now kid) as [ks|] eqn:Ec; unroll.
  { apply cached_jwks_Some in Ec as (ex & -> & Hlt & Hk). intros ks' [= <-]. right. exists uri. split; [done|].
    right. exists ex, now. split_and!; [right; left|left|done|done]. }
  intros lk []. assert (Hfetch : ∀ pre, always (fetch_jwks uri lk ("jwks:" +:+ url_str uri)) (fun tr r =>
      ∀ ks, r = Ok ks → keys_of issuer kid ks (pre ++ tr))).
  { intros pre. eapply always_mono; [apply fetch_jwks_spec|]. intros tr r Hr ks Hks. apply keys_of_app. right.
    right. exists uri. eauto. }
  intros [[ks2 ex]|]; unroll; [|by apply (Hfetch [_; _; _; _; _])].
  intros now2. destruct (cached_jwks _ now2 kid) as [ks|] eqn:Ec2; [|by apply (Hfetch [_; _; _; _; _; _])].
  apply cached_jwks_Some in Ec2 as (ex' & [= -> ->] & Hlt & Hk). unroll. intros [] [] ks' [= <-].
  right. exists uri. split; [done|]. right. exists ex', now2.
  split_and!; [do 4 right; left|do 5 right; left|done|done].
Qed.

(** The identity assertion as verified: the signature by a key of the issuer,
    for this server, within its lifetime at a clock reading of the request. *)
Definition verified_id_jag (st : AuthState) (assertion : string) (issuer : EnterpriseIssuerConfig)
    (header : JwtHeader) (claims : IdJagClaims) (tr : Trace) : Prop :=
  (∃ kid ks jwk key clock validation,
     jh_kid header = Some kid ∧ keys_of issuer kid ks tr ∧ jwks_find ks kid = Some jwk ∧
     ensure_jwk_algorithm jwk (jh_alg header) = Ok () ∧ decoding_key_of_jwk jwk = Some key ∧
     jwt_decode_id_jag clock assertion key validation = Some claims ∧ jv_alg validation = jh_alg header ∧
     jv_issuer validation = [ei_issuer issuer] ∧ jv_audience validation = [public_base_url st]) ∧
  Str.trim_end_matches "/" (ij_aud claims) = Str.trim_end_matches "/" (public_base_url st) ∧
  ∃ now, existT Now now ∈ tr ∧ (ij_iat claims <= i64_add now 60)%Z ∧ (now < ij_exp claims)%Z.

Lemma verified_id_jag_app st a i h c tr tr' : verified_id_jag st a i h c tr → verified_id_jag st a i h c (tr ++ tr').
Proof.
  intros ((kid & ks & jwk & key & ck & v & ? & ? & Hrest) & ? & n & ? & ? & ?). split_and!; [|done|].
  - exists kid, ks, jwk, key, ck, v. split_and!; try apply Hrest; [done|]. apply keys_of_app. by left.
  - exists n. rewrite elem_of_app. eauto.
Qed.

Lemma verify_id_jag_spec st issuer header kid assertion :
  jh_kid header = Some kid →
  always (verify_id_jag ip_text st issuer header kid assertion) (fun tr r =>
    ∀ claims, r = Ok claims → verified_id_jag st assertion issuer header claims tr).
Proof.
  intros Hkid. unfold verify_id_jag.
  eapply always_try_spec; [apply load_enterprise_jwks_spec|intros tr ks Hks|by intros ? ? _ ? [=]].
  destruct (jwks_find ks kid) as [jwk|] eqn:Ejwk; unroll; [|done]. cbn [ok_or].
  destruct (ensure_jwk_algorithm jwk (jh_alg header)) as [[]|] eqn:Ealg; unroll; [|done]. cbn [map_err].
  destruct (decoding_key_of_jwk jwk) as [key|] eqn:Ekey; unroll; [|done]. cbn [ok_or]. unroll.
  intros clock. destruct (jwt_decode_id_jag _ _ _ _) as [cl|] eqn:Ed; unroll; [|done]. cbn [ok_or]. unroll.
  intros now. destruct (_ || _) eqn:Eb; unroll; [done|]. split_bools. intros claims [= <-]. split_and!.
  - exists kid, ks, jwk, key, clock. eexists. split_and!; [done| |done|exact Ealg|done|exact Ed|done|done|done].
    apply keys_of_app. left. by apply Hks.
  - by apply String.eqb_eq.
  - exists now. split_and!; [|lia|lia]. rewrite elem_of_app. right. right. left.
Qed.

(** What an enterprise grant may answer: a token for the verified subject, at
    the asserted resource and with no scope beyond the asserted one; an
    assertion without a resource or scope stands for the server's defaults. *)
Definition id_jag_bounded (st : AuthState) (request : TokenRequest) (client_id : string) (claims : IdJagClaims)
    (resp : TokenResponse) (tr : Trace) : Prop :=
  ∃ resource granted scope,
    mints st resp client_id (ij_sub claims) resource scope None ∧
    accepted_resource st (ij_resource claims) resource tr ∧
    (∀ r, tq_resource request = Some r → Str.trim_end_matches "/" r = resource) ∧
    accepted_scope st resource (ij_scope claims) granted tr ∧
    match tq_scope request with
    | None => scope = granted
    | Some requested => accepted_scope st resource requested scope tr ∧
        ∀ t, t ∈ Str.split_whitespace scope → t ∈ Str.split_whitespace granted
    end.

Lemma id_jag_grant_spec st request client_id claims pre :
  always (id_jag_grant st request client_id claims) (fun tr r =>
    ∀ resp, r = Ok resp → id_jag_bounded st request client_id claims resp (pre ++ tr)).
Proof.
  unfold id_jag_grant. eapply always_try_spec; [apply validate_resource_spec| |by intros ? ? _ ? [=]].
  intros tr1 resource Hres. specialize (Hres resource eq_refl).
  assert (∀ tr, accepted_resource st (ij_resource claims) resource (pre ++ tr1 ++ tr)) as Hres'.
  { intros tr. unfold accepted_resource in *. destruct (Str.is_empty _); [done|]. setoid_rewrite elem_of_app.
    setoid_rewrite elem_of_app. naive_solver. }
  destruct (match tq_resource request with Some _ => _ | None => _ end) eqn:Er; [done|].
  eapply always_try_spec; [apply validate_token_scope_spec| |by intros ? ? _ ? [=]].
  intros tr2 granted Hg. specialize (Hg granted eq_refl).
  assert (Hr : ∀ r, tq_resource request = Some r → Str.trim_end_matches "/" r = resource).
  { intros r Hr. rewrite Hr in Er. by apply negb_false_iff, String.eqb_eq in Er. }
  assert (∀ tr, accepted_scope st resource (ij_scope claims) granted (pre ++ tr1 ++ tr2 ++ tr)) as Hg'.
  { intros tr. rewrite app_assoc. by apply accepted_scope_app. }
  destruct (tq_scope request) as [rs|] eqn:Ers.
  - eapply always_try_spec; [apply validate_token_scope_spec|intros tr3 scope Hsc|by intros ? ? _ ? [=]].
    specialize (Hsc scope eq_refl). destruct (negb (forallb _ _)) eqn:Ef; [done|]. apply negb_false_iff in Ef.
    eapply always_mono; [apply build_token_response_spec|]. intros tr4 r [_ Hm] resp Hresp.
    exists resource, granted, scope. rewrite Ers. split_and!; [by apply Hm|apply Hres'|done|apply Hg'| |].
    + rewrite !app_assoc, <- (app_assoc _ tr3). by apply accepted_scope_app.
    + intros t Ht. apply (proj1 (forallb_elem _ _) Ef) in Ht. by apply existsb_elem in Ht as (x & Hx & ->%String.eqb_eq).
  - eapply always_mono; [apply build_token_response_spec|]. intros tr4 r [_ Hm] resp Hresp.
    exists resource, granted, granted. rewrite Ers. split_and!; [by apply Hm|apply Hres'|done|apply Hg'|done].
Qed.


(** ** Responses *)

(** Neither the response nor a copy of it may be kept by a cache. *)
Definition uncacheable (resp : Response) : Prop :=
  ("cache-control", "no-store") ∈ rs_headers resp ∧ ("pragma", "no-cache") ∈ rs_headers resp.

Definition has_retry_after (resp : Response) : Prop := ∃ v, ("retry-after", v) ∈ rs_headers resp.

(** The shape of an OAuth answer. *)
Definition oauth_shape (resp : Response) : Prop :=
  uncacheable resp ∧
  match rs_body resp with
  | TokenBody _ | EmptyBody => rs_status resp = 200%Z
  | ErrorBody error description =>
      rs_status resp ∈ [400; 401; 429; 500]%Z ∧
      (rs_status resp = 429%Z ↔ has_retry_after resp) ∧
      (error = "invalid_client" → rs_status resp = 401%Z ∧ description = "invalid client credentials")
  end.

Lemma error_response_shape e : oauth_shape (error_response e).
Proof.
  split; [split; cbn [error_response apply_token_cache_headers rs_headers]; rewrite elem_of_app; right;
          [left|right; left]|].
  cbn [error_response apply_token_cache_headers rs_headers rs_body rs_status]. unfold has_retry_after.
  split_and!.
  - destruct e as [[]|]; cbn [te_status]; set_solver.
  - cbn [rs_headers]. destruct e as [[]|]; cbn [te_status Token.retry_after_ms];
      (split; [try done|intros [v Hv]; set_solver]). intros _. eexists. left.
  - unfold description. destruct e as [[]|]; by cbn.
Qed.

Lemma token_response_ok r : oauth_shape (token_response r).
Proof. split; [split; cbn; set_solver|done]. Qed.

(** The token endpoint answers in OAuth's terms on every path: the answer
    may not be cached, tokens come with status 200, errors with 400, 401, 429
    or 500, only a throttled request carries a retry hint, and every failed
    client authentication reads the same, whatever its cause.  The request is
    charged to the caller's address before anything else, and a throttled
    request has no further effect. *)
Theorem token_endpoint_answers st remote authorization request :
  always (token ip_text st remote authorization request) (fun tr resp =>
    oauth_shape resp ∧ rs_body resp ≠ EmptyBody ∧
    ∃ allowed rest, tr = existT (TryAcquire TokenLimiter (default LOCALHOST remote)) allowed :: rest ∧
      (allowed = false → rest = [] ∧ rs_status resp = 429%Z)).
Proof.
  unfold token, check_token_rate_limit, check_rate_limit. unroll. intros [|]; unroll.
  - destruct (token_request authorization request) as [rq|e]; unroll.
    + eapply always_bind_spec; [apply always_trivial|]. intros tr [r|e] _; unroll; (split_and!; [|done|by eexists _, _]).
      * apply token_response_ok.
      * apply error_response_shape.
    + split_and!; [apply error_response_shape|done|by eexists _, _].
  - split_and!; [apply error_response_shape|done|]. by eexists _, _.
Qed.

End Endpoints.

#[local] Existing Instance sample_platform.

(** A refresh request of a public client. *)
Definition sample_refresh : TokenRequest :=
  mkTokenRequest "refresh_token" None (Some "client-1") None None None (Some "rt-1") None None None None None.

Lemma refresh_ignores_allowlist_witness :
  Str.is_token (admin_scope (cf_default_scope (config sample_state))) ∧
  always (refresh_token_grant sample_state sample_refresh) (fun tr r =>
    forallb not_allowlist (sql_events tr) = true ∧
    ∀ resp, r = Ok resp → admin_scope (cf_default_scope (config sample_state)) ∈ Str.split_whitespace (tr_scope resp)).
Proof.
  assert (Ht : Str.is_token (admin_scope (cf_default_scope (config sample_state)))) by (split; [done|reflexivity]).
  split; [exact Ht|]. exact (refresh_ignores_allowlist sample_state sample_refresh Ht).
Defined.
