(* ===== verification/AuthorizeProps.v ===== *)
(** * AuthorizeProps: what the browser-facing endpoints guarantee

    Theorems about every path of the programs of the file Authorize: which
    authorization requests, sessions, clients and codes they can create, and
    under which checks. *)

From Stdlib Require Import Ascii.
From stdpp Require Import base list gmap strings.
From S2P Require Import Prelude RustStr Prog AuthTypes SamplePlatform Store StoreProps Effects.
From S2P Require Import Traces AtRest SqliteStore Ssrf Redirect Scopes Cimd Token TokenProps.
From S2P Require Import Authorize.

Section AuthorizeProps.
Context `{Platform}.

#[local] Hint Resolve only_random_token only_validate_resource only_validate_scope only_maybe_encrypt : only_db.

(** ** Authorization requests *)

(** The request a statement stores. *)
Definition request_row (ev : StoreEvent) : option AuthorizationRequestRow :=
  match ev_op ev with InsertAuthorizationRequest row => Some row | _ => None end.

(** The fields of a stored request, from the query it answers. *)
Definition request_of (query : AuthorizeQuery) (resource scope : string) (row : AuthorizationRequestRow) : Prop :=
  ar_client_id row = aq_client_id query ∧ ar_redirect_uri row = aq_redirect_uri query ∧
  ar_client_state row = aq_state query ∧ ar_code_challenge row = aq_code_challenge query ∧
  ar_code_challenge_method row = aq_code_challenge_method query ∧ ar_resource row = resource ∧ ar_scope row = scope.

Lemma only_redirect_to_provider st s sc ch : only (skips request_row) (redirect_to_provider st s sc ch).
Proof.
  unfold redirect_to_provider, resolve_allowed_emails, find_google_provider_credential_by_email,
    find_google_provider_credential_by_selector. solve_only.
Qed.

Lemma start_authorization_spec st query resource scope :
  always (start_authorization st query resource scope) (fun tr _ => stores_only request_row (request_of query resource scope) tr).
Proof.
  unfold start_authorization, random_token, insert_authorization_request. unroll.
  intros [verifier|]; unroll; [|by apply stores_only_none]. intros [state|]; unroll; [|by apply stores_only_none].
  intros created now [[]|]; unroll; [|by eapply stores_only_one].
  eapply always_mono; [apply only_redirect_to_provider|]. intros tr r Ho. cbn beta in Ho.
  eapply stores_only_one; [cbn; f_equal; by apply (rows_of_skips request_row tr)|done].
Qed.

(** The request was validated: what is stored is what the checks returned. *)
Definition validated_request (st : AuthState) (query : AuthorizeQuery) (tr : Trace) (row : AuthorizationRequestRow) : Prop :=
  request_of query (ar_resource row) (ar_scope row) row ∧
  aq_response_type query = "code" ∧ aq_code_challenge_method query = "S256" ∧
  performed (validate_resource st (aq_resource query)) (Ok (ar_resource row)) tr ∧
  performed (validate_scope st (ar_resource row) (aq_scope query)) (Ok (ar_scope row)) tr.

Lemma validate_and_start_spec st query :
  always (validate_and_start st query) (fun tr _ => stores_only request_row (validated_request st query tr) tr).
Proof.
  unfold validate_and_start, validate_response_type.
  destruct (String.eqb_spec (aq_response_type query) "code") as [Hrt|]; [|by apply stores_only_none].
  eapply always_bind_spec; [apply always_and; [apply always_performed|apply (only_validate_resource (skips request_row))]|].
  intros tr1 [resource|e] [Hp1 Ho1]; [|apply stores_only_none; by rewrite app_nil_r].
  eapply always_bind_spec; [apply always_and; [apply always_performed|apply (only_validate_scope (skips request_row))]|].
  intros tr2 [scope|e] [Hp2 Ho2]; [|apply stores_only_none; by rewrite app_nil_r, forallb_app, Ho1, Ho2].
  destruct (String.eqb_spec (aq_code_challenge_method query) "S256") as [Hm|]; cbn [negb];
    [|apply stores_only_none; by rewrite app_nil_r, forallb_app, Ho1, Ho2].
  eapply always_mono; [apply start_authorization_spec|]. intros tr3 r Hs.
  rewrite app_assoc. eapply stores_only_app; [by rewrite forallb_app, Ho1, Ho2|exact Hs|].
  intros row Hrow. unfold validated_request. assert (Hrow' := Hrow). destruct Hrow' as (_ & _ & _ & _ & _ & -> & ->).
  split_and!; [done|done|done| |].
  - rewrite <-app_assoc. by apply performed_l.
  - apply performed_l. by apply performed_r.
Qed.

(** Room for one more pending sign-in was found. *)
Definition had_capacity (st : AuthState) (tr : Trace) : Prop :=
  ∃ count, performed count_pending_oauth_states (Ok count) tr ∧ (count < cf_max_pending_oauth_states (config st))%Z.

Lemma capacity_spec st :
  always (ensure_pending_oauth_state_capacity st) (fun tr r =>
    forallb (sql_step (skips request_row)) tr = true ∧ (∀ u, r = Ok u → had_capacity st tr)).
Proof.
  apply always_and.
  { change (only (skips request_row) (ensure_pending_oauth_state_capacity st)).
    unfold ensure_pending_oauth_state_capacity, count_pending_oauth_states. solve_only. }
  unfold ensure_pending_oauth_state_capacity.
  eapply always_try_spec; [apply always_performed| |by intros ? ? _ ? [=]].
  intros tr count Hp. case_bool_decide; [done|]. intros u _. exists count. rewrite app_nil_r. split; [done|lia].
Qed.

Lemma only_authorize_rate ip : only (skips request_row) (check_authorize_rate_limit ip).
Proof. unfold check_authorize_rate_limit, check_rate_limit. solve_only. Qed.

Lemma only_resolve st c : only (skips request_row) (resolve_client st c).
Proof. eapply only_weaken; [|apply only_resolve_client]. by intros [[] ?]. Qed.

(** (C14) Authorization requests are validated before they are stored: on every
    path of the authorization endpoint at most one request is stored, only
    while fewer sign-ins are pending than configured, for a client that was
    resolved and whose registered redirect URIs contain the requested one
    literally, with response type [code] and an S256 challenge; its resource
    and scope are what the resource and scope checks returned in this request,
    and client, redirect URI, state and challenge are the query's. *)
Theorem authorize_request_valid st addr query :
  always (authorize st addr query) (fun tr _ =>
    stores_only request_row (fun row =>
      validated_request st query tr row ∧ had_capacity st tr ∧
      ∃ client, performed (resolve_client st (aq_client_id query)) (Ok (Some client)) tr ∧
                aq_redirect_uri query ∈ rc_redirect_uris client) tr).
Proof.
  unfold authorize.
  eapply always_try_spec; [apply only_authorize_rate|intros tr1 [] H1; cbn beta in H1|by intros; apply stores_only_none].
  eapply always_try_spec; [apply capacity_spec|intros tr2 [] [H2 Hcap]|
    intros tr2 e [H2 _]; apply stores_only_none; by rewrite forallb_app, H1, H2].
  specialize (Hcap () eq_refl).
  eapply always_try_spec; [apply always_and; [apply always_performed|apply only_resolve]|intros tr3 [client|] [Hp3 H3]|
    intros tr3 e [_ H3]; apply stores_only_none; by rewrite !forallb_app, H1, H2, H3];
    cbn [ok_or]; unroll; [|apply stores_only_none; by rewrite !app_nil_r, !forallb_app, H1, H2, H3].
  destruct (existsb _ _) eqn:Ex; cbn [negb];
    [|apply stores_only_none; by rewrite !app_nil_r, !forallb_app, H1, H2, H3].
  apply existsb_elem in Ex as (uri & Huri & ->%String.eqb_eq).
  eapply (always_try_spec _ _ (fun tr _ => forallb (sql_step (skips request_row)) tr = true)).
  { change (only (skips request_row) (if is_metadata_document_client_id (aq_client_id query)
              then register_client client else ret_ok ())). unfold register_client. solve_only. }
  2:{ intros tr4 e H4. apply stores_only_none. by rewrite !forallb_app, H1, H2, H3, H4. }
  intros tr4 _ H4. eapply always_mono; [apply validate_and_start_spec|]. intros tr5 r Hs.
  rewrite !app_assoc. eapply stores_only_app; [by rewrite !forallb_app, H1, H2, H3, H4|exact Hs|].
  intros row (Hrow & Hrt & Hm & Hpr & Hps). split_and!.
  - split_and!; try done; by apply performed_r.
  - destruct Hcap as (count & Hp & Hlt). exists count. split; [|done].
    do 3 apply performed_l. by apply performed_r.
  - exists client. split; [|done]. do 2 apply performed_l. by apply performed_r.
Qed.

(** ** The provider's callback *)

(** The code a statement stores. *)
Definition code_row (ev : StoreEvent) : option AuthorizationCodeRow :=
  match ev_op ev with InsertAuthCode row => Some row | _ => None end.

(** The provider identified an account that may sign in. *)
Definition admitted (st : AuthState) (users : list AllowedUserRow) (google : GoogleExchange) : Prop :=
  ge_email_verified google = Some true ∧ ∃ e, ge_email google = Some e ∧ may_sign_in st users e.

(** The trace exchanged the provider's code with the stored verifier and
    found the account admitted by the allowlist it read. *)
Definition identified (st : AuthState) (code verifier : string) (google : GoogleExchange) (tr : Trace) : Prop :=
  existT (GoogleExchangeCode code verifier) (Ok google) ∈ tr ∧
  ∃ users, mkEvent ListAllowedUsers (Ok users) ∈ sql_events tr ∧ admitted st users google.

(** The code is bound to the request it answers and to the account. *)
Definition code_for (st : AuthState) (request : AuthorizationRequestRow) (google : GoogleExchange)
    (row : AuthorizationCodeRow) : Prop :=
  ac_client_id row = ar_client_id request ∧ ac_redirect_uri row = ar_redirect_uri request ∧
  ac_resource row = ar_resource request ∧ ac_code_challenge row = ar_code_challenge request ∧
  ac_code_challenge_method row = ar_code_challenge_method request ∧ ac_subject row = ge_subject google ∧
  ac_scope row = elevate_scope_for_allowed_user (ar_scope request) (cf_default_scope (config st)) ∧
  ac_provider_refresh_token row = None.

(** The code goes to the request's redirect URI, or to the polling client when
    that URI is the server's own. *)
Definition delivered (st : AuthState) (request : AuthorizationRequestRow) (code : string) (reply : Reply) (tr : Trace) : Prop :=
  if String.eqb (ar_redirect_uri request) (native_callback_endpoint st) then
    reply = HtmlPage 200 NATIVE_SUCCESS_PAGE no_store ∧
    ∃ created expires,
      mkEvent (InsertNativeAuthorizationResult
                 (mkNativeAuthorizationResultRow (ar_client_state request) code created expires)) (Ok ()) ∈ sql_events tr
  else
    ∃ u, url_parse (ar_redirect_uri request) = Ok u ∧
      reply = redirect_to (url_str (append_authorization_response_issuer st
                (url_append_pair (url_append_pair u "code" code) "state" (ar_client_state request)))).

Lemma deliver_code_spec st request code :
  always (deliver_code st request code) (fun tr r =>
    forallb (sql_step (skips code_row)) tr = true ∧ ∀ reply, r = Ok reply → delivered st request code reply tr).
Proof.
  unfold deliver_code, delivered, insert_native_authorization_result. destruct (String.eqb _ _); unroll.
  - intros now. destruct (expires_at now _ _) as [expires|]; unroll; [|done].
    intros [[]|]; unroll; [|done]. split; [done|]. intros reply [= <-]. split; [done|]. exists now, expires. by left.
  - destruct (url_parse _) as [u|] eqn:Eu; unroll; [|done]. split; [done|]. intros reply [= <-]. eauto.
Qed.

(** What a program that may issue a code guarantees. *)
Definition issues_for (st : AuthState) (request : AuthorizationRequestRow) (google : GoogleExchange) (tr : Trace)
    (r : result Reply AuthError) : Prop :=
  stores_only code_row (fun row => code_for st request google row ∧
    ∀ reply, r = Ok reply → delivered st request (ac_code row) reply tr) tr.

Lemma issue_code_spec st request google :
  always (issue_code st request google) (fun tr r => issues_for st request google tr r).
Proof.
  unfold issue_code, issues_for, random_token, insert_auth_code. unroll.
  intros [bytes|]; unroll; [|by apply stores_only_none].
  intros created now. destruct (expires_at now _ _) as [expires|]; unroll; [|by apply stores_only_none].
  intros [[]|]; unroll; [|by eapply stores_only_one].
  eapply always_mono; [apply deliver_code_spec|]. intros tr r [Ho Hd].
  eapply stores_only_one; [cbn; f_equal; by apply (rows_of_skips code_row tr)|]. cbn [ac_code].
  split; [done|]. intros reply Hr. specialize (Hd reply Hr). revert Hd. unfold delivered.
  destruct (String.eqb _ _); [|done]. intros (? & c & e & Hin). split; [done|]. exists c, e. by do 1 right.
Qed.

Lemma delivered_r st request code reply pre tr :
  delivered st request code reply tr → delivered st request code reply (pre ++ tr).
Proof.
  unfold delivered. destruct (String.eqb _ _); [|done]. intros (? & c & e & Hin). split; [done|].
  exists c, e. rewrite sql_events_app, elem_of_app. by right.
Qed.

Lemma issues_for_app st request google pre tr r :
  forallb (sql_step (skips code_row)) pre = true → issues_for st request google tr r →
  issues_for st request google (pre ++ tr) r.
Proof.
  intros Hp Hi. eapply stores_only_app; [done|exact Hi|]. intros row [Hc Hd]. split; [done|].
  intros reply Hr. by apply delivered_r, Hd.
Qed.

Lemma only_upsert_bundle key u : only (skips code_row) (upsert_google_provider_token_bundle key u).
Proof. unfold upsert_google_provider_token_bundle. solve_only. Qed.

Lemma only_find_google_code key s : only (skips code_row) (find_google_provider_credential key s).
Proof. eapply only_weaken; [|apply only_find_google]. by intros [[] ?]. Qed.

Lemma accept_account_spec st request google :
  always (accept_account st request google) (fun tr r => issues_for st request google tr r).
Proof.
  unfold accept_account. destruct (non_blank (ge_email google)) as [email|]; cbn [ok_or]; unroll;
    [|by apply stores_only_none].
  eapply always_try_spec; [apply only_find_google_code|intros tr1 existing H1; cbn beta in H1|by intros; apply stores_only_none].
  destruct (provider_token st google existing) as [token|]; unroll;
    [|apply stores_only_none; by rewrite app_nil_r]. intros now.
  eapply always_try_spec; [apply only_upsert_bundle|intros tr2 [] H2; cbn beta in H2|
    intros tr2 e H2; apply (issues_for_app st request google tr1 _ _ H1); by apply stores_only_none].
  eapply always_mono; [apply issue_code_spec|]. intros tr3 r Hi. apply issues_for_app; [done|].
  by apply (issues_for_app st request google (_ :: tr2)).
Qed.

Lemma identified_app st code v g a b : identified st code v g a → identified st code v g (a ++ b).
Proof.
  intros (He & users & Hu & Ha). split; [rewrite elem_of_app; by left|].
  exists users. rewrite sql_events_app, elem_of_app. eauto.
Qed.

Lemma finish_authorization_spec st code request :
  always (finish_authorization st code request) (fun tr r =>
    stores_only code_row (fun row => ∃ google,
      identified st code (ar_provider_code_verifier request) google tr ∧ code_for st request google row ∧
      ∀ reply, r = Ok reply → delivered st request (ac_code row) reply tr) tr).
Proof.
  unfold finish_authorization. unroll. intros [google|]; unroll; [|by apply stores_only_none].
  unfold resolve_allowed_emails. unroll. intros [users|]; unroll; [|by apply stores_only_none].
  change (_ :: (au_email <$> _)) with (allowed_list st users).
  destruct (check_email_allowlist _ _ _) as [[]|] eqn:Ec; unroll; [|by apply stores_only_none].
  apply check_allowed_list in Ec. eapply always_mono; [apply accept_account_spec|]. intros tr r Hi.
  set (pre := [existT (GoogleExchangeCode code (ar_provider_code_verifier request)) (Ok google);
               existT (Sql ListAllowedUsers) (Ok users)] : Trace).
  eapply (stores_only_app code_row _ _ pre); [done|exact Hi|]. intros row [Hc Hd]. exists google. split_and!; [|done|].
  - apply (identified_app _ _ _ _ pre tr). split; [by left|]. exists users. split; [by left|exact Ec].
  - intros reply Hr. apply (delivered_r _ _ _ _ pre). by apply Hd.
Qed.

Lemma only_finish_login st code login : only (skips code_row) (finish_login st code login).
Proof.
  unfold finish_login, resolve_allowed_emails, create_browser_session, upsert_browser_session. solve_only.
Qed.

(** (C5) A code is only issued to an admitted account, for the request it
    answers: on every path of the callback at most one code is stored, after
    the pending request was taken from the database under the presented state,
    the provider's code was exchanged with that request's verifier, and the
    account had a verified address the allowlist admits.  The code carries the
    request's client, redirect URI, resource and challenge and the account's
    subject, its scope is the request's with the brand's admin scope, and it is
    delivered to the request's redirect URI (or stored for the polling client
    when that is the server's own) and nowhere else. *)
Theorem callback_code_sound st state code :
  always (callback st state code) (fun tr r =>
    stores_only code_row (fun row => ∃ now request google,
      mkEvent (TakeAuthorizationRequest state now) (Ok request) ∈ sql_events tr ∧
      identified st code (ar_provider_code_verifier request) google tr ∧ code_for st request google row ∧
      ∀ reply, r = Ok reply → delivered st request (ac_code row) reply tr) tr).
Proof.
  unfold callback, take_browser_login_state, take_authorization_request. unroll.
  intros now [[login|]|]; unroll; [| |by apply stores_only_none].
  { eapply always_mono; [apply only_finish_login|]. intros tr r Ho. apply stores_only_none. by cbn. }
  intros now2 [request|]; unroll; [|by apply stores_only_none].
  eapply always_mono; [apply finish_authorization_spec|]. intros tr r Hs.
  eapply (stores_only_app code_row _ _ [_; _; _; _]); [done|exact Hs|].
  intros row (google & (He & users & Hu & Ha) & Hc & Hd). exists now2, request, google. split_and!; [| |done|].
  - do 1 right. by left.
  - split; [by do 4 right|]. exists users. split; [by do 2 right|done].
  - intros reply Hr. apply (delivered_r _ _ _ _ [_; _; _; _]). by apply Hd.
Qed.

(** ** Browser sessions *)

(** The session a statement stores. *)
Definition session_row (ev : StoreEvent) : option BrowserSessionRow :=
  match ev_op ev with UpsertBrowserSession row => Some row | _ => None end.

Lemma only_finish_authorization st code request :
  only (skips session_row) (finish_authorization st code request).
Proof.
  assert (Hf : ∀ key s, only (skips session_row) (find_google_provider_credential key s)).
  { intros key s. eapply only_weaken; [|apply only_find_google]. by intros [[] ?]. }
  unfold finish_authorization, resolve_allowed_emails, accept_account, issue_code, deliver_code, insert_auth_code,
    insert_native_authorization_result, upsert_google_provider_token_bundle.
  repeat (first [apply Hf | progress solve_only]).
Qed.

(** A browser session is only created for an admitted account: on every
    path of the callback at most one session is stored, after the pending login
    was taken under the presented state, its provider code was exchanged with
    that login's verifier and the allowlist admitted the account; the session
    is for that account, and the browser is sent to the login's [return_to]
    with the cookie of that session. *)
Theorem callback_session_sound st state code :
  always (callback st state code) (fun tr r =>
    stores_only session_row (fun row => ∃ now login google,
      mkEvent (TakeBrowserLoginState state now) (Ok (Some login)) ∈ sql_events tr ∧
      identified st code (bl_provider_code_verifier login) google tr ∧
      bs_subject row = ge_subject google ∧ bs_email row = ge_email google ∧
      ∀ reply, r = Ok reply →
        reply = append_set_cookie (redirect_to (bl_return_to login)) (build_browser_session_cookie st (bs_session_id row))) tr).
Proof.
  unfold callback, take_browser_login_state, take_authorization_request. unroll.
  intros now [[login|]|]; unroll; [| |by apply stores_only_none].
  2:{ intros now2 [request|]; unroll; [|by apply stores_only_none].
      eapply always_mono; [apply only_finish_authorization|]. intros tr r Ho. apply stores_only_none. by cbn. }
  unfold finish_login. unroll. intros [google|]; unroll; [|by apply stores_only_none].
  unfold resolve_allowed_emails. unroll. intros [users|]; unroll; [|by apply stores_only_none].
  change (_ :: (au_email <$> _)) with (allowed_list st users).
  destruct (check_email_allowlist _ _ _) as [[]|] eqn:Ec; unroll; [|by apply stores_only_none].
  apply check_allowed_list in Ec.
  assert (Hid : ∀ pre post, identified st code (bl_provider_code_verifier login) google
    (pre ++ [existT (GoogleExchangeCode code (bl_provider_code_verifier login)) (Ok google);
             existT (Sql ListAllowedUsers) (Ok users)] ++ post)).
  { intros pre post. split; [rewrite !elem_of_app; right; left; by left|]. exists users. split; [|exact Ec].
    rewrite !sql_events_app, !elem_of_app. right. left. by left. }
  unfold create_browser_session, random_token, upsert_browser_session. unroll. intros created.
  intros [id|]; unroll; [|by apply stores_only_none]. intros [csrf|]; unroll; [|by apply stores_only_none].
  destruct (expires_at created _ _) as [expires|]; unroll; [|by apply stores_only_none].
  intros [[]|]; unroll; (eapply stores_only_one; [done|]); exists now, login, google;
    (split_and!; [by left|apply (Hid [_; _])|done|done|]); by intros reply [= <-].
Qed.

(** ** Client registration *)

(** The identifier and the encoded redirect URIs a statement registers. *)
Definition client_row (ev : StoreEvent) : option (string * string) :=
  match ev_op ev with RegisterClient id uris _ => Some (id, uris) | _ => None end.

Lemma check_redirect_uris_Ok st uris :
  check_redirect_uris st uris = Ok () →
  ∀ uri, uri ∈ uris →
    uri = native_callback_endpoint st ∨ is_allowed_redirect_uri uri (cf_allowed_client_redirect_uris (config st)) = true.
Proof.
  induction uris as [|u uris IH]; cbn [check_redirect_uris]; intros Hok uri; [by intros ?%elem_of_nil|].
  destruct (String.eqb_spec u (native_callback_endpoint st)) as [->|]; cbn [negb andb] in Hok;
    [|destruct (is_allowed_redirect_uri u _) eqn:Ea; [|done]]; intros [->|Hin]%elem_of_cons; auto.
Qed.

(** Dynamic registration only stores clients whose every redirect URI is
    the server's native callback or passes the redirect policy, under a fresh
    random identifier; the stored list is the encoding of the requested one,
    and the answer reports that client as a public one. *)
Theorem registration_safe st addr uris :
  always (register_endpoint st addr uris) (fun tr r =>
    stores_only client_row (fun '(id, encoded) =>
      uris ≠ [] ∧ json_encode uris = Ok encoded ∧ (∃ bytes, existT (RandomBytes 18) (Ok bytes) ∈ tr ∧ id = base64url_encode bytes) ∧
      (∀ uri, uri ∈ uris → uri = native_callback_endpoint st ∨
                           is_allowed_redirect_uri uri (cf_allowed_client_redirect_uris (config st)) = true) ∧
      ∀ reply, r = Ok reply → reply = Registered (mkClientRegistrationResponse id uris "none")) tr).
Proof.
  unfold register_endpoint, check_register_rate_limit, check_rate_limit. unroll.
  intros []; unroll; [|by apply stores_only_none]. case_bool_decide as Hne; unroll; [by apply stores_only_none|].
  destruct (check_redirect_uris st uris) as [[]|] eqn:Ec; unroll; [|by apply stores_only_none].
  unfold random_token, register_client. unroll. intros [bytes|]; unroll; [|by apply stores_only_none]. intros created.
  cbn [rc_redirect_uris]. destruct (json_encode uris) as [encoded|] eqn:Ej; unroll; [|by apply stores_only_none].
  intros [[]|]; unroll; (eapply stores_only_one; [done|]); cbn;
    (split_and!; [done|done|exists bytes; split; [right; left|done]|by apply check_redirect_uris_Ok|]); by intros reply [= <-].
Qed.

End AuthorizeProps.
