(* ===== verification/System.v ===== *)
(** * System: the server as concurrent requests

    [labby-auth/src/routes.rs]: the router sends each request to its handler.
    Requests run concurrently: the state is the database and one program per
    request in flight, and a step lets one of them perform its next effect.
    Each statement or transaction of the store takes effect at one moment
    (SQLite's transactions are serialisable; the store pools connections to one
    database file); every other effect may be answered by anything the
    environment likes, a statement may fail without effect, and other parts of
    the process may execute statements of their own at any moment. *)

From stdpp Require Import base list gmap strings relations pretty.
From S2P Require Import Prelude RustStr Prog AuthTypes SamplePlatform Store StoreProps Effects.
From S2P Require Import Traces AtRest SqliteStore Ssrf Redirect Scopes Cimd Token TokenProps.
From S2P Require Import Authorize.

Section System.
Context `{Platform} (ip_text : IpAddr → string) (st : AuthState).

(** ** Requests and their handlers *)

Inductive Request :=
| GetAuthorize (addr : IpAddr) (query : AuthorizeQuery)
| GetLogin (addr : IpAddr) (return_to : option string)
| GetCallback (state code : string)
| GetNativeCallback (state : string)
| GetNativePoll (state : string)
| PostRegister (addr : IpAddr) (redirect_uris : list string)
| PostToken (remote : option IpAddr) (authorization : option (option string)) (form : TokenRequest)
| PostRevoke (remote : option IpAddr) (authorization : option (option string)) (form : RevocationRequest).

Inductive Answer :=
| Replied (r : result Reply AuthError)
| Responded (r : Response)
| NoRoute.

Definition replying (p : M (result Reply AuthError)) : M Answer := let! r := p in Ret (Replied r).
Definition responding (p : M Response) : M Answer := let! r := p in Ret (Responded r).

(** The routes that have effects, each with its handler; the registration is
    mounted only when the configuration enables it. *)
Definition router (request : Request) : M Answer :=
  match request with
  | GetAuthorize addr query => replying (authorize st addr query)
  | GetLogin addr return_to => replying (browser_login st addr return_to)
  | GetCallback state code => replying (callback st state code)
  | GetNativeCallback state => replying (Ret (native_callback state))
  | GetNativePoll state => replying (native_poll state)
  | PostRegister addr uris =>
      if cf_enable_dynamic_registration (config st) then replying (register_endpoint st addr uris) else Ret NoRoute
  | PostToken remote authorization form => responding (token ip_text st remote authorization form)
  | PostRevoke remote authorization form => responding (revoke st remote authorization form)
  end.

(** ** Interleavings *)

Record Thread := mkThread {
  th_request : Request;
  th_done : Trace;
  th_rest : M Answer;
}.

Record Server := mkServer {
  sv_db : Db;
  sv_threads : list Thread;
  sv_log : list StoreEvent;
}.

Definition boot (db : Db) : Server := mkServer db [] [].

Definition advance (t : Thread) (s : step_of eresp) (rest : M Answer) : Thread :=
  mkThread (th_request t) (th_done t ++ [s]) rest.

Inductive step : Server → Server → Prop :=
| step_accept db ts log request :
    step (mkServer db ts log) (mkServer db (ts ++ [mkThread request [] (router request)]) log)
| step_sql db ts log i t op k :
    ts !! i = Some t → th_rest t = Vis (Sql op) k →
    step (mkServer db ts log)
         (mkServer (exec op db).2
                   (<[i := advance t (existT (Sql op) (exec op db).1) (k (exec op db).1)]> ts)
                   (log ++ [mkEvent op (exec op db).1]))
| step_fault db ts log i t op k e :
    ts !! i = Some t → th_rest t = Vis (Sql op) k →
    step (mkServer db ts log)
         (mkServer db (<[i := advance t (existT (Sql op) (Err e)) (k (Err e))]> ts) log)
| step_env db ts log i t e k r :
    ts !! i = Some t → th_rest t = Vis e k → is_sql (existT e r) = false →
    step (mkServer db ts log) (mkServer db (<[i := advance t (existT e r) (k r)]> ts) log)
| step_other db ts log op :
    step (mkServer db ts log) (mkServer (exec op db).2 ts (log ++ [mkEvent op (exec op db).1])).

Definition reachable (db : Db) : Server → Prop := rtc step (boot db).

(** ** The invariant *)

(** What a thread has done so far is the beginning of a path of its handler. *)
Definition on_path (t : Thread) : Prop :=
  ∀ tr a, paths (th_rest t) tr a → paths (router (th_request t)) (th_done t ++ tr) a.

(** Statements of the threads satisfying [p], a test that failed statements
    do not pass, are all in the log. *)
Definition total_sql (p : StoreEvent → bool) (ts : list Thread) : nat :=
  sum_list_with (fun t => count_sql p (th_done t)) ts.

Definition counts_success (p : StoreEvent → bool) : Prop := ∀ op e, p (mkEvent op (Err e)) = false.

Lemma total_sql_app p a b : total_sql p (a ++ b) = total_sql p a + total_sql p b.
Proof. apply sum_list_with_app. Qed.

Lemma total_sql_insert p ts i t t' n :
  ts !! i = Some t → count_sql p (th_done t') = count_sql p (th_done t) + n →
  total_sql p (<[i := t']> ts) = total_sql p ts + n.
Proof.
  intros Hi Hn. revert i Hi. induction ts as [|x ts IH]; intros [|i] Hi; simplify_eq/=; [lia|].
  rewrite (IH i Hi). lia.
Qed.

Lemma on_path_advance t e k r : th_rest t = Vis e k → on_path t → on_path (advance t (existT e r) (k r)).
Proof.
  intros Hr Hp tr a Htr. unfold advance. simpl. rewrite <-app_assoc. apply (Hp (existT e r :: tr)).
  rewrite Hr. by constructor.
Qed.

Record server_inv (p : StoreEvent → bool) (s : Server) : Prop := {
  inv_paths : Forall on_path (sv_threads s);
  inv_log : total_sql p (sv_threads s) ≤ count_events p (sv_log s);
}.

Lemma count_sql_step p tr op r : count_sql p (tr ++ [existT (Sql op) r]) = count_sql p tr + (if p (mkEvent op r) then 1 else 0).
Proof. rewrite count_sql_app. unfold count_sql. simpl. lia. Qed.

Lemma count_sql_env p tr e r : is_sql (existT e r) = false → count_sql p (tr ++ [existT e r]) = count_sql p tr.
Proof. intros He. rewrite count_sql_app. destruct e; try done; unfold count_sql; simpl; lia. Qed.

Lemma reachable_inv p db s : counts_success p → reachable db s → server_inv p s.
Proof.
  intros Hp. unfold reachable. intros Hr. remember (boot db) as s0 eqn:Hs0.
  assert (Hinv : server_inv p s0) by (subst; by split).
  clear Hs0. induction Hr as [|s1 s2 s3 Hstep _ IH]; [done|]. apply IH. clear IH.
  destruct Hinv as [Hpath Hlog]. destruct Hstep; simpl in *.
  - split; simpl; [|rewrite total_sql_app; unfold count_sql; simpl; unfold count_sql; simpl; lia].
    apply Forall_app. split; [done|]. constructor; [|done]. by intros tr a.
  - assert (Ht := Forall_lookup_1 _ _ _ _ Hpath H0). split; simpl.
    + apply Forall_insert; [done|]. by apply on_path_advance.
    + rewrite count_events_app. simpl. erewrite (total_sql_insert p ts i t); [|done|apply count_sql_step]. lia.
  - assert (Ht := Forall_lookup_1 _ _ _ _ Hpath H0). split; simpl.
    + apply Forall_insert; [done|]. by apply on_path_advance.
    + erewrite (total_sql_insert p ts i t); [|done|apply count_sql_step]. rewrite Hp. lia.
  - assert (Ht := Forall_lookup_1 _ _ _ _ Hpath H0). split; simpl.
    + apply Forall_insert; [done|]. by apply on_path_advance.
    + rewrite (total_sql_insert p ts i t _ 0); [lia|done|]. simpl. rewrite count_sql_env by done. lia.
  - split; simpl; [done|]. rewrite count_events_app. lia.
Qed.

(** An accounting that every statement respects holds of the whole log. *)
Lemma reachable_accounting (p q : StoreEvent → bool) (stock : Db → nat) db s :
  (∀ op d, (if p (mkEvent op (exec op d).1) then 1 else 0) + stock (exec op d).2
           ≤ stock d + (if q (mkEvent op (exec op d).1) then 1 else 0)) →
  reachable db s →
  count_events p (sv_log s) + stock (sv_db s) ≤ stock db + count_events q (sv_log s).
Proof.
  intros Hop. unfold reachable. intros Hr. remember (boot db) as s0 eqn:Hs0.
  assert (Hinv : count_events p (sv_log s0) + stock (sv_db s0) ≤ stock db + count_events q (sv_log s0)) by (subst; simpl; lia).
  clear Hs0. induction Hr as [|s1 s2 s3 Hstep _ IH]; [done|]. apply IH. clear IH.
  destruct Hstep; simpl in *; rewrite ?count_events_app; simpl; try done; specialize (Hop op db0); lia.
Qed.

(** Threads that finished with a property their handler's paths only end in
    after a statement satisfying [p] are no more than those statements. *)
Lemma finished_bounded (p : StoreEvent → bool) (done_with : Thread → bool) db s :
  counts_success p → reachable db s →
  (∀ t, done_with t = true → on_path t → 1 ≤ count_sql p (th_done t)) →
  length (List.filter done_with (sv_threads s)) ≤ count_events p (sv_log s).
Proof.
  intros Hp Hr Hd. destruct (reachable_inv p db s Hp Hr) as [Hpath Hlog]. etrans; [|exact Hlog]. clear Hlog.
  induction Hpath as [|t ts Ht _ IH]; [done|]. simpl. destruct (done_with t) eqn:Ed; simpl; [|lia].
  specialize (Hd t Ed Ht). lia.
Qed.

(** ** Tokens for a code, tokens for a refresh token *)

Lemma code_grant_redeems request code :
  tq_code request = Some code →
  always (authorization_code_grant st request) (fun tr r => is_ok r = true → 1 ≤ count_sql (redeems code) tr).
Proof.
  intros Hcode. unfold authorization_code_grant, require_field. rewrite Hcode.
  eapply always_try_spec; [apply always_trivial|intros tr1 x1 _|done]. cbn [ok_or]. unroll.
  destruct (tq_client_id request) as [c|]; cbn [ok_or]; unroll; [|done].
  destruct (tq_redirect_uri request) as [u|]; cbn [ok_or]; unroll; [|done].
  destruct (tq_code_verifier request) as [v|]; cbn [ok_or]; unroll; [|done].
  eapply always_try_spec; [apply always_trivial|intros tr5 x _|done].
  unfold redeem_auth_code. unroll. intros now [row|e]; unroll; [|done].
  eapply always_mono; [apply always_trivial|]. intros tr6 r _ _. rewrite !count_sql_app.
  change (?a :: ?b :: tr6) with ([a; b] ++ tr6). rewrite count_sql_app.
  unfold count_sql at 3. simpl. rewrite String.eqb_refl. simpl. lia.
Qed.

Lemma refresh_grant_rotates request t :
  tq_refresh_token request = Some t →
  always (refresh_token_grant st request) (fun tr r => is_ok r = true → 1 ≤ count_sql (rotates_from (hash_token t)) tr).
Proof.
  intros Ht. unfold refresh_token_grant, require_field. rewrite Ht.
  eapply always_try_spec; [apply always_trivial|intros tr1 x1 _|done].
  destruct (tq_client_id request) as [c|]; cbn [ok_or]; unroll; [|done].
  eapply always_try_spec; [apply always_trivial|intros tr3 u _|done].
  eapply always_try_spec; [apply always_trivial|intros tr4 v _|done]. intros now.
  eapply always_try_spec; [apply always_trivial|intros tr5 [stored|] _|done]; unroll; [|done].
  unfold after_claim. eapply always_bind_spec; [apply complete_claimed_refresh_spec|].
  intros tr6 [resp|e] Hc; unroll.
  - destruct (Hc resp eq_refl) as (_ & _ & _ & Hn & _). intros _.
    change (existT Now now :: ?x) with ([existT Now now] ++ x : Trace). rewrite !count_sql_app, Hn. lia.
  - unfold release_refresh_claim. unroll. intros [[]|]; unroll; done.
Qed.

(** The credentials merged into a request leave its grant alone. *)
Lemma token_request_grant authorization form rq :
  token_request authorization form = Ok rq →
  tq_grant_type rq = tq_grant_type form ∧ tq_code rq = tq_code form ∧ tq_refresh_token rq = tq_refresh_token form.
Proof.
  unfold token_request. destruct (basic_client_credentials authorization) as [[[id secret]|]|]; [| |done].
  - destruct (_ || _); [done|]. cbn. intros [= <-]. done.
  - intros [= <-]. destruct (tq_client_id form), (tq_client_assertion form); try done.
    by destruct (jwt_insecure_client_assertion _).
Qed.

(** The tokens of a response. *)
Definition gave_tokens (a : M Answer) : bool :=
  match a with Ret (Responded r) => match rs_body r with TokenBody _ => true | _ => false end | _ => false end.

(** Tokens only leave the token endpoint through the grant the form names. *)
Lemma token_via_grant remote authorization form (Q : Trace → Prop) :
  (∀ pre tr, Q tr → Q (pre ++ tr)) →
  (∀ rq, token_request authorization form = Ok rq → always (grant ip_text st rq) (fun tr r => is_ok r = true → Q tr)) →
  always (responding (token ip_text st remote authorization form)) (fun tr a => gave_tokens (Ret a) = true → Q tr).
Proof.
  intros Happ Hgrant. unfold responding, token, check_token_rate_limit, check_rate_limit. unroll.
  intros []; unroll; [|done]. destruct (token_request authorization form) as [rq|e]; unroll; [|done].
  apply always_bind. eapply always_bind_spec; [by apply Hgrant|]. intros tr [resp|e] Hq; unroll; [|done].
  intros _. rewrite !app_nil_r. apply (Happ [_]), Hq. done.
Qed.

Lemma always_map_err {A} (p : M (result A AuthError)) (Q : Trace → Prop) :
  always p (fun tr r => is_ok r = true → Q tr) →
  always (let! r := p in Ret (map_err TeAuth r)) (fun tr r => is_ok r = true → Q tr).
Proof.
  intros Hp. eapply always_bind_spec; [exact Hp|]. intros tr [a|e] Hq; unroll; [|done]. rewrite app_nil_r. auto.
Qed.

(** The request exchanged [code] for tokens. *)
Definition exchanged_code (code : string) (t : Thread) : bool :=
  match th_request t with
  | PostToken _ _ form =>
      String.eqb (tq_grant_type form) "authorization_code" && bool_decide (tq_code form = Some code)
      && gave_tokens (th_rest t)
  | _ => false
  end.

(** The request exchanged the refresh token [token] for tokens. *)
Definition exchanged_refresh (token : string) (t : Thread) : bool :=
  match th_request t with
  | PostToken _ _ form =>
      String.eqb (tq_grant_type form) "refresh_token" && bool_decide (tq_refresh_token form = Some token)
      && gave_tokens (th_rest t)
  | _ => false
  end.

Lemma finished_path t : gave_tokens (th_rest t) = true → on_path t →
  ∃ a, gave_tokens (Ret a) = true ∧ paths (router (th_request t)) (th_done t) a.
Proof.
  intros Hg Hp. destruct (th_rest t) as [a|e k] eqn:Er; [|done]. exists a. split; [done|].
  specialize (Hp [] a). rewrite app_nil_r, Er in Hp. apply Hp. constructor.
Qed.

Lemma exchanged_code_redeems code t :
  exchanged_code code t = true → on_path t → 1 ≤ count_sql (redeems code) (th_done t).
Proof.
  unfold exchanged_code. destruct (th_request t) eqn:Erq; try done. intros Hx Hp. split_bools.
  destruct (finished_path t) as (a & Ha & Hpath); [done..|]. rewrite Erq in Hpath. simpl in Hpath.
  revert a Ha Hpath. generalize (th_done t). intros tr a Ha Hpath. revert Ha.
  refine (proj1 (always_paths _ _) (token_via_grant remote authorization form
    (fun tr => 1 ≤ count_sql (redeems code) tr) _ _) tr a Hpath).
  - intros pre tr' Hq. rewrite count_sql_app. lia.
  - intros rq (Hg & Hc & _)%token_request_grant. unfold grant. rewrite Hg, H0.
    apply always_map_err, code_grant_redeems. congruence.
Qed.

Lemma exchanged_refresh_rotates token t :
  exchanged_refresh token t = true → on_path t → 1 ≤ count_sql (rotates_from (hash_token token)) (th_done t).
Proof.
  unfold exchanged_refresh. destruct (th_request t) eqn:Erq; try done. intros Hx Hp. split_bools.
  destruct (finished_path t) as (a & Ha & Hpath); [done..|]. rewrite Erq in Hpath. simpl in Hpath.
  revert a Ha Hpath. generalize (th_done t). intros tr a Ha Hpath. revert Ha.
  refine (proj1 (always_paths _ _) (token_via_grant remote authorization form
    (fun tr => 1 ≤ count_sql (rotates_from (hash_token token)) tr) _ _) tr a Hpath).
  - intros pre tr' Hq. rewrite count_sql_app. lia.
  - intros rq (Hg & _ & Hc)%token_request_grant. unfold grant. rewrite Hg.
    apply String.eqb_eq in H0. rewrite H0. simpl. apply always_map_err, refresh_grant_rotates. congruence.
Qed.

(** (C1) Whatever requests run concurrently, and however their effects
    interleave and fail, an authorization code is exchanged for tokens at most
    once per time it was issued: the requests that got tokens for a code are no
    more than the times a callback stored it (counting a code already stored at
    startup). *)
Theorem code_exchanged_once db s code :
  reachable db s →
  length (List.filter (exchanged_code code) (sv_threads s))
  ≤ present (authorization_codes db !! code) + count_events (issues_code code) (sv_log s).
Proof.
  intros Hr. pose proof (reachable_accounting (redeems code) (issues_code code)
    (fun d => present (authorization_codes d !! code)) db s (exec_code_accounting code) Hr) as Hacc.
  cbn beta in Hacc.
  pose proof (finished_bounded (redeems code) (exchanged_code code) db s) as Hfin.
  enough (length (List.filter (exchanged_code code) (sv_threads s)) ≤ count_events (redeems code) (sv_log s)) by lia.
  apply Hfin; [|done|apply exchanged_code_redeems]. intros [] e; try done. simpl. apply andb_false_r.
Qed.

(** (C2) Refresh tokens are not replayed either: concurrent refreshes with one token,
    including a replay racing the legitimate client, yield new tokens at most
    once per time the token was stored. *)
Theorem refresh_exchanged_once db s token :
  reachable db s →
  length (List.filter (exchanged_refresh token) (sv_threads s))
  ≤ present (refresh_tokens db !! hash_token token) + count_events (issues_refresh (hash_token token)) (sv_log s).
Proof.
  intros Hr. pose proof (reachable_accounting (rotates_from (hash_token token)) (issues_refresh (hash_token token))
    (fun d => present (refresh_tokens d !! hash_token token)) db s (exec_refresh_accounting (hash_token token)) Hr) as Hacc.
  cbn beta in Hacc.
  pose proof (finished_bounded (rotates_from (hash_token token)) (exchanged_refresh token) db s) as Hfin.
  enough (length (List.filter (exchanged_refresh token) (sv_threads s))
          ≤ count_events (rotates_from (hash_token token)) (sv_log s)) by lia.
  apply Hfin; [|done|apply exchanged_refresh_rotates]. intros [] e; try done; simpl; apply andb_false_r.
Qed.

End System.

(** ** An executable scheduler

    One interleaving, chosen by a list of actions; the effects other than
    statements are answered by an oracle that may depend on the time. *)

Section Scheduler.
Context `{Platform} (ip_text : IpAddr → string) (st : AuthState) (oracle : nat → ∀ e : Eff, eresp e).

Inductive Action :=
| Accept (request : Request)
| Turn (i : nat)
| Other (op : StoreOp).

(** The next effect of a thread, performed. *)
Definition turn (time i : nat) (s : Server) : option Server :=
  match sv_threads s !! i with
  | None => None
  | Some t =>
      match th_rest t with
      | Ret _ => None
      | Vis e k =>
          let env (e : Eff) (k : eresp e → M Answer) :=
            Some (mkServer (sv_db s) (<[i := advance t (existT e (oracle time e)) (k (oracle time e))]> (sv_threads s)) (sv_log s)) in
          match e as e return (eresp e → M Answer) → option Server with
          | Sql op => fun k =>
              let '(r, db) := exec op (sv_db s) in
              Some (mkServer db (<[i := advance t (existT (Sql op) r) (k r)]> (sv_threads s)) (sv_log s ++ [mkEvent op r]))
          | e => env e
          end k
      end
  end.

Definition act (time : nat) (a : Action) (s : Server) : option Server :=
  match a with
  | Accept request =>
      Some (mkServer (sv_db s) (sv_threads s ++ [mkThread request [] (router ip_text st request)]) (sv_log s))
  | Turn i => turn time i s
  | Other op =>
      let '(r, db) := exec op (sv_db s) in Some (mkServer db (sv_threads s) (sv_log s ++ [mkEvent op r]))
  end.

(** Actions that are not enabled are skipped. *)
Fixpoint schedule (time : nat) (actions : list Action) (s : Server) : Server :=
  match actions with
  | [] => s
  | a :: rest => schedule (S time) rest (default s (act time a s))
  end.

Lemma turn_step time i s s' : turn time i s = Some s' → step ip_text st s s'.
Proof.
  destruct s as [db ts log]. unfold turn. simpl. destruct (ts !! i) as [t|] eqn:Ei; [|done].
  destruct (th_rest t) as [a|e k] eqn:Er; [done|].
  destruct e; try (intros [= <-]; by eapply step_env).
  destruct (exec op db) as [r db'] eqn:Ex. intros [= <-].
  pose proof (step_sql ip_text st db ts log i t op k Ei Er) as Hs. by rewrite Ex in Hs.
Qed.

Lemma act_step time a s s' : act time a s = Some s' → step ip_text st s s'.
Proof.
  destruct s as [db ts log], a as [request|i|op]; simpl; [intros [= <-]; constructor|apply turn_step|].
  destruct (exec op db) as [r db'] eqn:Ex. intros [= <-]. pose proof (step_other ip_text st db ts log op) as Hs.
  by rewrite Ex in Hs.
Qed.

Lemma schedule_steps time actions s : rtc (step ip_text st) s (schedule time actions s).
Proof.
  revert time s. induction actions as [|a actions IH]; intros time s; simpl; [done|].
  destruct (act time a s) as [s'|] eqn:Ea; simpl; [|apply IH]. eapply rtc_l; [by eapply act_step|apply IH].
Qed.

End Scheduler.

(** ** Two requests race for one code, two for one refresh token *)

#[local] Existing Instance sample_platform.

(** A clock that stands still, a limiter that admits everyone, random bytes
    that differ at every step, and a provider that confirms the account. *)
Definition sample_oracle (time : nat) (e : Eff) : eresp e :=
  match e return eresp e with
  | Now => 1000%Z
  | RandomBytes n => Ok ("random-" +:+ pretty time)
  | Sql op => Err (Storage "not asked")
  | TryAcquire _ _ => true
  | EffectiveScopes _ => None
  | GoogleExchangeCode _ _ | GoogleRefreshToken _ _ _ =>
      Ok (mkGoogleExchange "alice" (Some "admin@example.com") (Some true) "at" None (Some 3600%Z) ["email"] None)
  | FetchClientDocument _ => Err (Network "offline")
  | FetchJwks _ => Err (Network "offline")
  | CimdGet _ => None
  | JwksGet _ => None
  | LockEntry _ => 0%Z
  | AcquirePermit => Ok ()
  | CimdRetain _ | CimdEvict _ | CimdInsert _ _ _ | JwksRetain _ | JwksEvict _ | JwksInsert _ _ _
  | Acquire _ | Release _ | RemoveEntry _ | ReleasePermit | SubjectLock _ | SubjectUnlock _ => ()
  end.

Definition sample_code : AuthorizationCodeRow :=
  mkAuthorizationCodeRow "c1" "client-1" "alice" "https://app.example.com/cb" "https://labby.example/mcp"
    "lab:read" (pkce_challenge "verifier") "S256" None 900 1100.

(** A registered client, a provider credential and an issued code. *)
Definition sample_setup : list Action :=
  [Other (RegisterClient "client-1" "https://app.example.com/cb" 900);
   Other (UpsertGoogleBundle (mkGoogleBundle "alice" (Some "admin@example.com") "google-client" "email" "at" "rt" 900 4500
            None false true) 900);
   Other (InsertAuthCode sample_code)].

Definition code_request : TokenRequest :=
  mkTokenRequest "authorization_code" (Some "c1") (Some "client-1") None (Some "https://app.example.com/cb")
    (Some "verifier") None None None None None None.

Definition alternate (n : nat) : list Action := concat (replicate n [Turn 0; Turn 1]).

Definition no_ip (ip : IpAddr) : string := "".

Definition code_race : Server :=
  schedule no_ip sample_state sample_oracle 0
    (sample_setup ++ [Accept (PostToken None None code_request); Accept (PostToken None None code_request)] ++ alternate 12)
    (boot empty_db).

Lemma code_exchanged_once_witness :
  length (List.filter (exchanged_code "c1") (sv_threads code_race)) = 1 ∧ length (sv_threads code_race) = 2 ∧
  length (List.filter (exchanged_code "c1") (sv_threads code_race)) ≤ 1.
Proof.
  split; [vm_compute; reflexivity|]. split; [vm_compute; reflexivity|].
  etransitivity; [apply (code_exchanged_once no_ip sample_state empty_db code_race "c1"); apply schedule_steps|].
  vm_compute. reflexivity.
Defined.

Definition stored_refresh : RefreshTokenRow :=
  mkRefreshTokenRow "rt-1" "client-1" "alice" "https://labby.example/mcp" "lab:read" None 900 5000.

Definition refresh_request : TokenRequest :=
  mkTokenRequest "refresh_token" None (Some "client-1") None None None (Some "rt-1") None None None None None.

Definition refresh_race : Server :=
  schedule no_ip sample_state sample_oracle 0
    (sample_setup ++ [Other (UpsertRefreshToken (hash_token "rt-1") stored_refresh None)]
     ++ [Accept (PostToken None None refresh_request); Accept (PostToken None None refresh_request)] ++ alternate 24)
    (boot empty_db).

Lemma refresh_exchanged_once_witness :
  length (List.filter (exchanged_refresh "rt-1") (sv_threads refresh_race)) = 1 ∧ length (sv_threads refresh_race) = 2 ∧
  length (List.filter (exchanged_refresh "rt-1") (sv_threads refresh_race)) ≤ 1.
Proof.
  split; [vm_compute; reflexivity|]. split; [vm_compute; reflexivity|].
  etransitivity; [apply (refresh_exchanged_once no_ip sample_state empty_db refresh_race "rt-1"); apply schedule_steps|].
  vm_compute. reflexivity.
Defined.
