(* ===== verification/Middleware.v ===== *)
(** * Middleware: the resource-server side

    [AuthLayer] of [labby-auth/src/middleware.rs] with the [AuthContext] of
    [auth_context.rs]: the layer every protected route is wrapped in.  A
    request is admitted by the static bearer token, by an access token of this
    server, or by a browser session with its CSRF token; everything else is
    answered with a challenge, a redirect to the login page, or a scope
    error.  [authenticate] is one program; the file ends with the exact
    conditions under which a token the token endpoint issued is admitted. *)

From Stdlib Require Import Ascii.
From stdpp Require Import base list gmap strings.
From S2P Require Import Prelude RustStr BTree Prog AuthTypes SamplePlatform Store Effects.
From S2P Require Import Traces SqliteStore Jwt Scopes Token Authorize TokenProps System.

(** ** Data *)

Record AuthContext := mkAuthContext {
  ctx_sub : string;
  ctx_actor_key : option string;
  ctx_scopes : list string;
  ctx_issuer : string;
  ctx_via_session : bool;
  ctx_csrf_token : option string;
  ctx_email : option string;
}.

(** [RequiredScopes::new]: sorted, without duplicates. *)
Definition required_scopes_new (scopes : list string) : list string := BTreeSet.from_iter scopes.

Record AuthLayerInner := mkAuthLayerInner {
  al_static_token : option string;
  al_auth_state : option AuthState;
  al_actor_key_deriver : option (string → option string);
  al_resource_url : option string;
  al_protected_resource_metadata_url : option string;
  al_required_scopes : list string;
  al_allow_session_cookie : bool;
  al_static_token_scopes : list string;
  al_login_path : string;
  al_session_cookie_name : string;
}.

Definition DEFAULT_LOGIN_PATH : string := "/auth/login".
Definition DEFAULT_SESSION_COOKIE_NAME : string := "lab_session".

(** What the layer reads of a request: the headers are present when their
    value is a string; the context is the extension it writes. *)
Record Request := mkRequest {
  req_method : string;
  req_authorization : option string;
  req_cookie : option string;
  req_csrf_token : option string;
  req_accept : option string;
  req_path_and_query : option string;
  req_auth : option AuthContext;
}.
Definition insert_auth (auth : AuthContext) (r : Request) : Request :=
  mkRequest (req_method r) (req_authorization r) (req_cookie r) (req_csrf_token r) (req_accept r)
    (req_path_and_query r) (Some auth).

(** A finished response: an error body or the scope error, with the challenge
    when there is one, or a redirect. *)
Inductive Rejection :=
| ErrorResponse (e : AuthError) (www_authenticate : option string)
| Forbidden (www_authenticate : option string)
| LoginRedirect (location : string).

Definition rejection_status (r : Rejection) : Z :=
  match r with ErrorResponse e _ => status e | Forbidden _ => 403 | LoginRedirect _ => 303 end.

(** ** The builders of the layer *)

Definition auth_layer_new : AuthLayerInner :=
  mkAuthLayerInner None None None None None [] false [] DEFAULT_LOGIN_PATH DEFAULT_SESSION_COOKIE_NAME.
Definition from_state (st : AuthState) : AuthLayerInner :=
  mkAuthLayerInner None (Some st) None None None [] false (cf_static_token_scopes (config st))
    (cf_login_path (config st)) (cf_session_cookie_name (config st)).

Definition with_static_token (token : option string) (l : AuthLayerInner) : AuthLayerInner :=
  mkAuthLayerInner token (al_auth_state l) (al_actor_key_deriver l) (al_resource_url l)
    (al_protected_resource_metadata_url l) (al_required_scopes l) (al_allow_session_cookie l)
    (al_static_token_scopes l) (al_login_path l) (al_session_cookie_name l).
Definition with_auth_state (state : option AuthState) (l : AuthLayerInner) : AuthLayerInner :=
  match state with
  | Some st =>
      mkAuthLayerInner (al_static_token l) state (al_actor_key_deriver l) (al_resource_url l)
        (al_protected_resource_metadata_url l) (al_required_scopes l) (al_allow_session_cookie l)
        (cf_static_token_scopes (config st)) (cf_login_path (config st)) (cf_session_cookie_name (config st))
  | None =>
      mkAuthLayerInner (al_static_token l) None (al_actor_key_deriver l) (al_resource_url l)
        (al_protected_resource_metadata_url l) (al_required_scopes l) (al_allow_session_cookie l)
        (al_static_token_scopes l) (al_login_path l) (al_session_cookie_name l)
  end.
Definition with_actor_key_deriver (deriver : option (string → option string)) (l : AuthLayerInner) : AuthLayerInner :=
  mkAuthLayerInner (al_static_token l) (al_auth_state l) deriver (al_resource_url l)
    (al_protected_resource_metadata_url l) (al_required_scopes l) (al_allow_session_cookie l)
    (al_static_token_scopes l) (al_login_path l) (al_session_cookie_name l).
Definition with_resource_url (url : option string) (l : AuthLayerInner) : AuthLayerInner :=
  mkAuthLayerInner (al_static_token l) (al_auth_state l) (al_actor_key_deriver l) url
    (al_protected_resource_metadata_url l) (al_required_scopes l) (al_allow_session_cookie l)
    (al_static_token_scopes l) (al_login_path l) (al_session_cookie_name l).
Definition with_protected_resource_metadata_url (url : option string) (l : AuthLayerInner) : AuthLayerInner :=
  mkAuthLayerInner (al_static_token l) (al_auth_state l) (al_actor_key_deriver l) (al_resource_url l)
    url (al_required_scopes l) (al_allow_session_cookie l)
    (al_static_token_scopes l) (al_login_path l) (al_session_cookie_name l).
Definition with_required_scopes (scopes : list string) (l : AuthLayerInner) : AuthLayerInner :=
  mkAuthLayerInner (al_static_token l) (al_auth_state l) (al_actor_key_deriver l) (al_resource_url l)
    (al_protected_resource_metadata_url l) (required_scopes_new scopes) (al_allow_session_cookie l)
    (al_static_token_scopes l) (al_login_path l) (al_session_cookie_name l).
Definition with_allow_session_cookie (allow : bool) (l : AuthLayerInner) : AuthLayerInner :=
  mkAuthLayerInner (al_static_token l) (al_auth_state l) (al_actor_key_deriver l) (al_resource_url l)
    (al_protected_resource_metadata_url l) (al_required_scopes l) allow
    (al_static_token_scopes l) (al_login_path l) (al_session_cookie_name l).
Definition with_static_token_scopes (scopes : list string) (l : AuthLayerInner) : AuthLayerInner :=
  mkAuthLayerInner (al_static_token l) (al_auth_state l) (al_actor_key_deriver l) (al_resource_url l)
    (al_protected_resource_metadata_url l) (al_required_scopes l) (al_allow_session_cookie l)
    scopes (al_login_path l) (al_session_cookie_name l).
Definition with_login_path (path : string) (l : AuthLayerInner) : AuthLayerInner :=
  mkAuthLayerInner (al_static_token l) (al_auth_state l) (al_actor_key_deriver l) (al_resource_url l)
    (al_protected_resource_metadata_url l) (al_required_scopes l) (al_allow_session_cookie l)
    (al_static_token_scopes l) path (al_session_cookie_name l).
Definition with_session_cookie_name (name : string) (l : AuthLayerInner) : AuthLayerInner :=
  mkAuthLayerInner (al_static_token l) (al_auth_state l) (al_actor_key_deriver l) (al_resource_url l)
    (al_protected_resource_metadata_url l) (al_required_scopes l) (al_allow_session_cookie l)
    (al_static_token_scopes l) (al_login_path l) name.

(** ** Helpers *)

(** [subtle::ct_eq] on the bytes. *)
Definition tokens_equal (a b : string) : bool := String.eqb a b.

Definition parse_bearer_token (header_value : string) : option string :=
  match Str.split_whitespace header_value with
  | [scheme; token] => if Str.eq_ignore_ascii_case scheme "bearer" then Some token else None
  | _ => None
  end.

Definition derive_actor_key (deriver : option (string → option string)) (subject : string) : option string :=
  match deriver with Some d => d subject | None => None end.

Definition quoted (s : string) : string := String "034" (s +:+ String "034" EmptyString).
Definition well_known : string := "/.well-known/oauth-protected-resource".
Definition www_authenticate_value (resource_url : string) : string :=
  "Bearer resource_metadata=" +:+ quoted (Str.trim_end_matches "/" resource_url +:+ well_known).
Definition metadata_url_for_resource (resource : string) : string :=
  Str.trim_end_matches "/" resource +:+ well_known.

Definition challenge_scopes (l : AuthLayerInner) : list string :=
  match al_required_scopes l with
  | [] => match al_auth_state l with
          | Some st => cf_scopes_supported (config st)
          | None => al_static_token_scopes l
          end
  | required => required
  end.

(** Upper-case hexadecimal escapes of every byte that is not unreserved. *)
Definition is_unreserved (a : ascii) : bool :=
  let n := Ascii.nat_of_ascii a in
  ((48 <=? n) && (n <=? 57)) || ((65 <=? n) && (n <=? 90)) || ((97 <=? n) && (n <=? 122))
  || (n =? 45) || (n =? 95) || (n =? 46) || (n =? 126) || (n =? 47).
Definition hex_upper (n : nat) : ascii := Ascii.ascii_of_nat (if n <? 10 then 48 + n else 55 + n).
Fixpoint percent_encode_path (s : string) : string :=
  match s with
  | EmptyString => EmptyString
  | String a r =>
      if is_unreserved a then String a (percent_encode_path r)
      else let n := Ascii.nat_of_ascii a in
           String "%" (String (hex_upper (n / 16)) (String (hex_upper (n mod 16)) (percent_encode_path r)))
  end.

(** Strict percent-decoding, the inverse the login route's query parser
    applies; used only to state the round trip. *)
Definition hex_value (a : ascii) : option nat :=
  let n := Ascii.nat_of_ascii a in
  if (48 <=? n) && (n <=? 57) then Some (n - 48)
  else if (65 <=? n) && (n <=? 70) then Some (n - 55)
  else if (97 <=? n) && (n <=? 102) then Some (n - 87) else None.
Fixpoint percent_decode (s : string) : string :=
  match s with
  | EmptyString => EmptyString
  | String "%" (String h (String l r)) =>
      match hex_value h, hex_value l with
      | Some a, Some b => String (Ascii.ascii_of_nat (a * 16 + b)) (percent_decode r)
      | _, _ => String "%" (String h (String l (percent_decode r)))
      end
  | String a r => String a (percent_decode r)
  end.

Section Middleware.
Context `{Platform}.

Definition challenge_header (value : string) : option string :=
  if header_value_valid value then Some value else None.

Definition auth_error_response (message : string) (l : AuthLayerInner) : Rejection :=
  let challenge :=
    match al_protected_resource_metadata_url l with
    | Some url => Some ("Bearer resource_metadata=" +:+ quoted url)
    | None => www_authenticate_value <$> al_resource_url l
    end in
  ErrorResponse (AuthFailed message)
    (c ← challenge; challenge_header (c +:+ ", scope=" +:+ quoted (Str.join " " (challenge_scopes l)))).

Definition insufficient_scope_response (l : AuthLayerInner) (granted : list string) : option Rejection :=
  let required := al_required_scopes l in
  if forallb (fun scope => existsb (fun g => String.eqb g scope) granted) required then None
  else
    let metadata_url :=
      match al_protected_resource_metadata_url l with
      | Some url => Some url
      | None => metadata_url_for_resource <$> al_resource_url l
      end in
    Some (Forbidden
      (url ← metadata_url;
       challenge_header ("Bearer error=" +:+ quoted "insufficient_scope" +:+ ", scope="
         +:+ quoted (Str.join " " required) +:+ ", resource_metadata=" +:+ quoted url))).

Definition csrf_error_response (message : string) : Rejection := ErrorResponse (Validation message) None.

(** The common end of the three successful branches. *)
Definition let_in (l : AuthLayerInner) (request : Request) (auth : AuthContext) : result Request Rejection :=
  match insufficient_scope_response l (ctx_scopes auth) with
  | Some response => Err response
  | None => Ok (insert_auth auth request)
  end.

Definition static_token_blocked (l : AuthLayerInner) : bool :=
  match al_auth_state l with
  | Some st => cf_disable_static_token_with_oauth (config st)
               && match cf_mode (config st) with OAuth => true | Bearer => false end
  | None => false
  end.

Definition safe_method (m : string) : bool :=
  String.eqb m "GET" || String.eqb m "HEAD" || String.eqb m "OPTIONS".

Definition bearer_of (request : Request) : option string :=
  raw ← req_authorization request; parse_bearer_token raw.

Definition expected_aud (l : AuthLayerInner) (st : AuthState) : string :=
  match al_resource_url l with Some url => url | None => canonical_resource_url st end.

Definition static_context (l : AuthLayerInner) : AuthContext :=
  mkAuthContext "static-bearer" (derive_actor_key (al_actor_key_deriver l) "static-bearer")
    (al_static_token_scopes l) "local" false None None.
Definition jwt_context (l : AuthLayerInner) (claims : AccessClaims) : AuthContext :=
  mkAuthContext (cl_sub claims) (derive_actor_key (al_actor_key_deriver l) (cl_sub claims))
    (Str.split_whitespace (cl_scope claims)) (cl_iss claims) false None None.
Definition session_context (l : AuthLayerInner) (session : BrowserSessionRow) : AuthContext :=
  mkAuthContext (bs_subject session) (derive_actor_key (al_actor_key_deriver l) (bs_subject session))
    (al_static_token_scopes l) "browser-session" true (Some (bs_csrf_token session)) (bs_email session).

(** A request that presents a bearer token: the static token, then an access
    token, and never the session cookie.  The answer for a server without a
    public URL has no counterpart: [AuthState::new] refuses such a
    configuration, and [AuthConfig] holds the URL itself. *)
Definition authenticate_bearer (l : AuthLayerInner) (request : Request) (token : string) :
  M (result Request Rejection) :=
  let static_match :=
    negb (static_token_blocked l)
    && match al_static_token l with Some expected => tokens_equal token expected | None => false end in
  if static_match then Ret (let_in l request (static_context l))
  else
    match al_auth_state l with
    | Some st =>
        let! claims := validate_access_token_with_issuer token (expected_aud l st) (public_base_url st) in
        match claims with
        | Ok claims => Ret (let_in l request (jwt_context l claims))
        | Err _ => ret_err (auth_error_response "invalid bearer token" l)
        end
    | None => ret_err (auth_error_response "invalid bearer token" l)
    end.

(** The answer to a request without any accepted credential. *)
Definition unauthenticated (l : AuthLayerInner) (request : Request) : Rejection :=
  if al_allow_session_cookie l && bool_decide (is_Some (al_auth_state l))
     && String.eqb (req_method request) "GET"
     && match req_accept request with Some accept => Str.contains "text/html" accept | None => false end
  then
    let return_to := default "/" (req_path_and_query request) in
    LoginRedirect (al_login_path l +:+ "?return_to=" +:+ percent_encode_path return_to)
  else
    auth_error_response
      (if al_allow_session_cookie l then "missing bearer token or session cookie" else "missing bearer token") l.

(** The cookie that is looked up, when sessions are enabled. *)
Definition session_cookie (l : AuthLayerInner) (request : Request) : option string :=
  if al_allow_session_cookie l && bool_decide (is_Some (al_auth_state l))
  then read_cookie (req_cookie request) (al_session_cookie_name l) else None.

Definition authenticate (l : AuthLayerInner) (request : Request) : M (result Request Rejection) :=
  match bearer_of request with
  | Some token => authenticate_bearer l request token
  | None =>
      match session_cookie l request with
      | None => ret_err (unauthenticated l request)
      | Some session_id =>
          let! found := find_browser_session session_id in
          match found with
          | Ok (Some session) =>
              if negb (safe_method (req_method request))
                 && negb (bool_decide (req_csrf_token request = Some (bs_csrf_token session)))
              then ret_err (csrf_error_response "missing or invalid csrf token")
              else Ret (let_in l request (session_context l session))
          | Ok None | Err _ => ret_err (unauthenticated l request)
          end
      end
  end.

(** The service: the inner one is called exactly on an admitted request. *)
Definition authenticate_and_forward {Resp : Type} (finish : Rejection → Resp) (l : AuthLayerInner)
    (inner : Request → M Resp) (request : Request) : M Resp :=
  let! r := authenticate l request in
  match r with Ok request => inner request | Err response => Ret (finish response) end.

(** ** Admission *)

Lemma insufficient_scope_None l granted :
  insufficient_scope_response l granted = None ↔ al_required_scopes l ⊆ granted.
Proof.
  unfold insufficient_scope_response. destruct (forallb _ _) eqn:E.
  - split; [intros _ s Hs|done]. rewrite forallb_elem in E. apply E, existsb_elem in Hs as (g & Hg & Heq).
    by apply String.eqb_eq in Heq as <-.
  - split; [done|]. intros Hsub. apply not_true_iff_false in E. destruct E. apply forallb_elem.
    intros s Hs. apply existsb_elem. exists s. split; [by apply Hsub|apply String.eqb_refl].
Qed.

Lemma let_in_Ok l request auth r :
  let_in l request auth = Ok r ↔ al_required_scopes l ⊆ ctx_scopes auth ∧ r = insert_auth auth request.
Proof.
  unfold let_in. rewrite <- insufficient_scope_None.
  destruct (insufficient_scope_response l (ctx_scopes auth)); naive_solver.
Qed.

(** How a request may be authenticated, given the effects that were performed. *)
Inductive credential (l : AuthLayerInner) (request : Request) : Trace → AuthContext → Prop :=
| by_static token :
    bearer_of request = Some token → al_static_token l = Some token →
    (∀ st, al_auth_state l = Some st → cf_disable_static_token_with_oauth (config st) = true →
       cf_mode (config st) ≠ OAuth) →
    credential l request [] (static_context l)
| by_jwt token st clock claims :
    bearer_of request = Some token → al_auth_state l = Some st →
    jwt_decode_access clock token (access_validation [default (canonical_resource_url st) (al_resource_url l)]
      [public_base_url st]) = Some claims →
    credential l request [existT Now clock] (jwt_context l claims)
| by_session id now session :
    bearer_of request = None → al_allow_session_cookie l = true →
    read_cookie (req_cookie request) (al_session_cookie_name l) = Some id →
    (req_method request ∈ ["GET"; "HEAD"; "OPTIONS"] ∨ req_csrf_token request = Some (bs_csrf_token session)) →
    credential l request [existT Now now; existT (Sql (FindBrowserSession id now)) (Ok (Some session))]
      (session_context l session).

Lemma not_blocked l :
  static_token_blocked l = false →
  ∀ st, al_auth_state l = Some st → cf_disable_static_token_with_oauth (config st) = true → cf_mode (config st) ≠ OAuth.
Proof. unfold static_token_blocked. intros Hb st Hst Hd Hm. by rewrite Hst, Hd, Hm in Hb. Qed.

Lemma safe_method_elem m : safe_method m = true → m ∈ ["GET"; "HEAD"; "OPTIONS"].
Proof. unfold safe_method. rewrite !orb_true_iff, !String.eqb_eq. set_solver. Qed.

Lemma session_cookie_Some l request id :
  session_cookie l request = Some id →
  al_allow_session_cookie l = true ∧ read_cookie (req_cookie request) (al_session_cookie_name l) = Some id.
Proof. unfold session_cookie. by destruct (al_allow_session_cookie l), (bool_decide _). Qed.

Lemma admit_admitted l request auth tr r :
  credential l request tr auth → let_in l request auth = Ok r →
  ∃ auth, r = insert_auth auth request ∧ al_required_scopes l ⊆ ctx_scopes auth ∧ credential l request tr auth.
Proof. intros Hc [Hs ->]%let_in_Ok. by exists auth. Qed.

(** (C3) A request reaches the protected service only with a credential the
    layer verified on that path: the configured static token (when it is not
    disabled for OAuth mode), an access token that decodes for this audience
    and this issuer, or, for a request without a bearer token, a live session
    of the store whose CSRF token accompanies every unsafe method; and in each
    case the principal holds every scope the route requires. *)
Theorem admitted_request_sound l request :
  always (authenticate l request) (fun tr res => ∀ r, res = Ok r →
    ∃ auth, r = insert_auth auth request ∧ al_required_scopes l ⊆ ctx_scopes auth ∧ credential l request tr auth).
Proof.
  unfold authenticate. destruct (bearer_of request) as [token|] eqn:Eb.
  - unfold authenticate_bearer. destruct (negb (static_token_blocked l) && _) eqn:Es; unroll.
    + intros r. apply admit_admitted. split_bools. destruct (al_static_token l) as [expected|] eqn:Et; [|done].
      apply String.eqb_eq in H1 as <-. apply (by_static _ _ token); [done|done|by apply not_blocked].
    + destruct (al_auth_state l) as [st|] eqn:Est; unroll; [|done].
      unfold validate_access_token_with_issuer. unroll. intros clock.
      destruct (jwt_decode_access _ _ _) as [claims|] eqn:Ed; unroll; [|done].
      intros r. apply admit_admitted. by apply (by_jwt _ _ token st clock claims).
  - destruct (session_cookie l request) as [id|] eqn:Ec; unroll; [|done].
    unfold find_browser_session. unroll. intros now [[session|]|e]; unroll; [|done..].
    destruct (_ && _) eqn:Ecsrf; unroll; [done|]. intros r. apply admit_admitted.
    apply session_cookie_Some in Ec as [Ha Hc]. apply (by_session _ _ id now session); [done..|].
    apply andb_false_iff in Ecsrf as [E|E]; split_bools; auto using safe_method_elem.
Qed.

(** The only statement the layer sends is the session lookup. *)
Definition session_lookup (ev : StoreEvent) : bool :=
  match ev_op ev with FindBrowserSession _ _ => true | _ => false end.

(** A bearer header is never combined with the cookie, and the database is at
    most read. *)
Lemma bearer_no_lookup l request token :
  bearer_of request = Some token → always (authenticate l request) (fun tr _ => sql_events tr = []).
Proof.
  intros Hb. unfold authenticate. rewrite Hb. unfold authenticate_bearer. destruct (_ && _); unroll; [done|].
  destruct (al_auth_state l); unroll; [|done]. unfold validate_access_token_with_issuer. unroll.
  intros clock. by destruct (jwt_decode_access _ _ _).
Qed.

Lemma only_authenticate l request : only session_lookup (authenticate l request).
Proof.
  unfold authenticate, authenticate_bearer, validate_access_token_with_issuer, find_browser_session. solve_only.
Qed.

(** ** The tokens the token endpoint issues *)

(** The claims of an issued token, from the clock reading of its issue. *)
Lemma build_token_claims st client subject resource scope rt :
  always (build_token_response st client subject resource scope rt) (fun tr res => ∀ resp, res = Ok resp →
    ∃ issued tail jti, tr = existT Now issued :: tail ∧
      jwt_encode (mkAccessClaims (public_base_url st) subject resource (issued + cf_access_token_ttl (config st))
                    None issued jti scope client) = Ok (tr_access_token resp)).
Proof.
  unfold build_token_response, timestamp_usize, duration_secs_usize, random_token. unroll. intros now.
  case_bool_decide; unroll; [|done]. case_bool_decide; unroll; [|done].
  destruct (u64_checked_add now _) as [e|] eqn:Ee; unroll; [|done].
  intros [bytes|]; unroll; [|done]. unfold issue_access_token. destruct (jwt_encode _) eqn:Ej; unroll; [|done].
  intros resp [= <-]. unfold u64_checked_add in Ee. case_bool_decide; [|done]. injection Ee as <-. eauto.
Qed.

(** (C10) Between the two halves of the server: an access token that a grant
    returned for [resource] with [scope], presented as a bearer token, is
    admitted by a layer of the same server exactly when the layer protects
    that very resource, the lifetime counted from the clock reading of the
    issue has not passed (with the minute of leeway), and the token's scopes
    cover the required ones; the context then names the subject and the scopes
    the grant gave. *)
Theorem minted_token_admitted_iff `{!JwtContract} st l request client subject resource scope rt :
  al_auth_state l = Some st →
  always (build_token_response st client subject resource scope rt) (fun tr0 issue => ∀ resp, issue = Ok resp →
    bearer_of request = Some (tr_access_token resp) →
    al_static_token l ≠ Some (tr_access_token resp) →
    ∃ issued tail, tr0 = existT Now issued :: tail ∧
    always (authenticate l request) (fun tr res => ∃ clock, tr = [existT Now clock] ∧
      (is_ok res = true ↔
         default (canonical_resource_url st) (al_resource_url l) = resource ∧ (clock - 60 <= issued + cf_access_token_ttl (config st))%Z ∧
         al_required_scopes l ⊆ Str.split_whitespace scope) ∧
      ∀ r, res = Ok r → ∃ auth, req_auth r = Some auth ∧ ctx_sub auth = subject ∧
        ctx_scopes auth = Str.split_whitespace scope ∧ ctx_via_session auth = false)).
Proof.
  intros Hst. eapply always_mono; [apply build_token_claims|]. intros tr0 issue Hm resp -> Hb Hs.
  destruct (Hm resp eq_refl) as (issued & tail & jti & -> & Henc). clear Hm. exists issued, tail. split; [done|].
  set (c := mkAccessClaims _ _ _ _ _ _ _ _ _) in Henc.
  unfold authenticate, authenticate_bearer. rewrite Hb, Hst.
  assert (match al_static_token l with Some expected => tokens_equal (tr_access_token resp) expected | None => false end
          = false) as ->.
  { destruct (al_static_token l) as [t|]; [|done]. apply String.eqb_neq. congruence. }
  rewrite andb_false_r. unfold validate_access_token_with_issuer. unroll. intros clock.
  rewrite (decode_own clock c (tr_access_token resp)) by done.
  pose proof (accepts_iff clock c (expected_aud l st) (public_base_url st) eq_refl) as Ha.
  assert (∀ r, let_in l request (jwt_context l c) = Ok r ↔
            al_required_scopes l ⊆ Str.split_whitespace scope ∧ r = insert_auth (jwt_context l c) request) as Had
    by (intros r; apply let_in_Ok).
  destruct (jwt_accepts _ _ c) eqn:E; unroll; exists clock; (split; [done|]).
  - destruct (proj1 Ha eq_refl) as (Ha1 & _ & Ha2). destruct (let_in _ _ _) as [r|e].
    + destruct (proj1 (Had r) eq_refl) as [Hreq ->].
      split; [split; [intros _; by split_and!|done]|]. intros r [= <-]. by eexists.
    + split; [split; [done|]|done]. intros (_ & _ & Hreq).
      by pose proof (proj2 (Had _) (conj Hreq eq_refl)).
  - split; [split; [done|]|done]. intros (Hr & Hexp & _). destruct Ha as [_ Ha]. by discriminate Ha.
Qed.

End Middleware.

(** ** The login redirect *)

Lemma hex_value_upper n : n < 16 → hex_value (hex_upper n) = Some n.
Proof. intros Hn. do 16 (destruct n as [|n]; [done|]). lia. Qed.

Lemma unreserved_not_percent a : is_unreserved a = true → a ≠ "%"%char.
Proof. intros Ha ->. done. Qed.

Lemma percent_decode_other a r : a ≠ "%"%char → percent_decode (String a r) = String a (percent_decode r).
Proof. intros Ha. destruct a as [[] [] [] [] [] [] [] []]; try done. Qed.

(** The location of the login redirect carries the requested path without
    loss: percent-decoding the parameter gives back the path and query byte
    for byte, and the encoded text contains neither a delimiter of a query
    string nor a byte outside the unreserved set, so it cannot add a
    parameter. *)
Theorem login_return_to_round_trip s :
  percent_decode (percent_encode_path s) = s ∧
  Forall (fun a => is_unreserved a = true ∨ a = "%"%char) (String.list_ascii_of_string (percent_encode_path s)).
Proof.
  assert (∀ n, n < 16 → is_unreserved (hex_upper n) = true) as Hhex.
  { intros n Hn. do 16 (destruct n as [|n]; [done|]). lia. }
  induction s as [|a s [IH1 IH2]]; [by repeat constructor|]. cbn [percent_encode_path].
  destruct (is_unreserved a) eqn:Ea.
  - split; [by rewrite percent_decode_other, IH1 by by apply unreserved_not_percent|]. constructor; auto.
  - pose proof (Ascii.nat_ascii_bounded a) as Hb. cbv zeta.
    assert (Ascii.nat_of_ascii a / 16 < 16) as H1 by (apply Nat.Div0.div_lt_upper_bound; lia).
    assert (Ascii.nat_of_ascii a mod 16 < 16) as H2 by (apply Nat.mod_upper_bound; lia).
    split.
    + cbn [percent_decode]. rewrite !hex_value_upper by done.
      rewrite (Nat.mul_comm _ 16), <- Nat.div_mod_eq, Ascii.ascii_nat_embedding. by rewrite IH1.
    + simpl. constructor; [by right|]. constructor; [left; by apply Hhex|].
      constructor; [left; by apply Hhex|done].
Qed.

(** ** Witnesses *)

#[local] Existing Instance sample_platform.

Definition sample_layer : AuthLayerInner :=
  with_required_scopes ["lab:read"] (with_resource_url (Some "https://labby.example/mcp") (from_state sample_state)).

(** A token issued for the protected resource at time 1000 is admitted until
    it expires at 4600, through the signed text and the bearer header. *)
Definition sample_bearer (token : string) : Request :=
  mkRequest "POST" (Some ("Bearer " +:+ token)) None None None None None.
Definition sample_issuer : M (result TokenResponse AuthError) :=
  build_token_response sample_state "client" "user" "https://labby.example/mcp" "lab:read" None.
Definition sample_environment (e : Eff) (_ : unit) : eresp e * unit := (sample_oracle 0 e, tt).
Definition sample_token : string :=
  match (run sample_environment sample_issuer tt).1 with Ok resp => tr_access_token resp | Err _ => "" end.

Lemma minted_token_admitted_iff_witness :
  ∃ issued, always (authenticate sample_layer (sample_bearer sample_token)) (fun tr res =>
    ∃ clock, tr = [existT Now clock] ∧ (is_ok res = true ↔ (clock - 60 <= issued + 3600)%Z)).
Proof.
  destruct (run_paths sample_environment sample_issuer tt) as [tr Htr].
  pose proof (proj1 (always_paths _ _)
    (minted_token_admitted_iff sample_state sample_layer (sample_bearer sample_token) "client" "user"
       "https://labby.example/mcp" "lab:read" None eq_refl) tr _ Htr) as Hm.
  destruct (Hm _ eq_refl eq_refl ltac:(discriminate)) as (issued & tail & _ & Ha). exists issued.
  eapply always_mono; [exact Ha|]. cbv beta. intros tr' res (clock & -> & [Hiff _]). exists clock. split; [done|].
  rewrite Hiff. split; [intros (_ & Hc & _); exact Hc|]. intros Hc. split; [vm_compute; reflexivity|].
  split; [exact Hc|]. vm_compute. intros x Hx. exact Hx.
Defined.
