(* ===== verification/Completeness.v ===== *)
(** * Completeness: a well-formed exchange succeeds

    The other files bound what the server may do; this one shows that it does
    it.  A request is run to its end alone, against the database, in an
    environment that is up: the clock runs within range, the random source and
    the signer work, and the limiter admits the caller. *)

From stdpp Require Import base list gmap strings.
From S2P Require Import Prelude RustStr Prog AuthTypes SamplePlatform Store StoreProps Effects.
From S2P Require Import AtRest SqliteStore Jwt Ssrf Redirect Scopes Cimd Token System.

Section Completeness.
Context `{Platform} (ip_text : IpAddr → string) (st : AuthState) (oracle : ∀ e : Eff, eresp e).

(** Statements are executed, other effects answered by the oracle. *)
Definition sequential (e : Eff) (db : Db) : eresp e * Db :=
  match e as e return eresp e * Db with
  | Sql op => exec op db
  | e => (oracle e, db)
  end.

Record healthy (now : Z) : Prop := {
  clock_now : oracle Now = now;
  clock_range : (0 <= now)%Z;
  random_works : ∀ n, ∃ bytes, oracle (RandomBytes n) = Ok bytes;
  limiter_admits : ∀ l ip, oracle (TryAcquire l ip) = true;
  signer_works : ∀ claims, ∃ jwt, jwt_encode claims = Ok jwt;
  refresh_ttl_range : (0 <= cf_refresh_token_ttl (config st) ∧ now + cf_refresh_token_ttl (config st) <= i64_max)%Z;
  access_ttl_range : (0 <= cf_access_token_ttl (config st) ∧ now + cf_access_token_ttl (config st) <= usize_max)%Z;
}.

(** The form presents a stored, unexpired code, the redirect URI it was issued
    for, and the verifier of its challenge, for a public client of the
    database whose account still has a provider credential. *)
Record code_ready (form : TokenRequest) (code : string) (row : AuthorizationCodeRow) (now : Z) (db : Db) : Prop := {
  grant_is_code : tq_grant_type form = "authorization_code";
  presents_code : tq_code form = Some code;
  presents_client : tq_client_id form = Some (ac_client_id row);
  presents_redirect : tq_redirect_uri form = Some (ac_redirect_uri row);
  presents_verifier : ∃ v, tq_code_verifier form = Some v ∧ pkce_challenge v = ac_code_challenge row;
  no_resource : tq_resource form = None;
  no_secret : tq_client_secret form = None;
  no_assertion : tq_client_assertion form = None;
  code_stored : authorization_codes db !! code = Some row;
  code_live : (now < ac_expires_at row)%Z;
  code_s256 : ac_code_challenge_method row = "S256";
  client_public : find_machine_client st (ac_client_id row) = None;
  client_local : metadata_document_url (ac_client_id row) = None;
  client_known : ∃ uris created decoded, registered_clients db !! ac_client_id row = Some (uris, created) ∧
    json_decode uris = Ok decoded;
  account_known : is_Some (google_provider_credentials db !! ac_subject row);
}.

Notation run_alone := (run sequential).

Lemma run_now now : oracle Now = now → ∀ db, run_alone now_unix db = (now, db).
Proof. intros Hn db. simpl. by rewrite Hn. Qed.

Lemma run_random now n : healthy now → ∃ t, ∀ db, run_alone (random_token n) db = (Ok t, db).
Proof.
  intros Hh. destruct (random_works now Hh n) as [bytes Hb]. exists (base64url_encode bytes). intros db.
  unfold random_token. rewrite run_bind. unfold eff. rewrite run_trigger. simpl. by rewrite Hb.
Qed.

(** The client authenticates against any database with the same clients. *)
Lemma run_authenticate now form code row db d :
  code_ready form code row now db → registered_clients d = registered_clients db →
  run_alone (authenticate_oauth_client st (ac_client_id row) (tq_client_secret form) (tq_client_assertion_type form)
               (tq_client_assertion form)) d = (Ok (), d).
Proof.
  intros Hc Hd. destruct (client_known _ _ _ _ _ Hc) as (uris & created & decoded & Hr & Hdec).
  unfold authenticate_oauth_client. rewrite (client_public _ _ _ _ _ Hc), run_try.
  unfold resolve_client. rewrite (client_local _ _ _ _ _ Hc). unfold find_client.
  cbn [run sql eff trigger sequential]. simpl. unfold find_client_sql. rewrite Hd, Hr, Hdec. simpl.
  by rewrite (no_secret _ _ _ _ _ Hc), (no_assertion _ _ _ _ _ Hc).
Qed.

Lemma run_build now c s r sc rt db :
  healthy now → ∃ resp, run_alone (build_token_response st c s r sc rt) db = (Ok resp, db) ∧
    tr_scope resp = sc ∧ tr_refresh_token resp = rt.
Proof.
  intros Hh. destruct (run_random now 18 Hh) as [jti Hj]. destruct (access_ttl_range now Hh) as [Ha0 Ha].
  pose proof (clock_range now Hh) as H0. unfold build_token_response. rewrite run_bind, (run_now now) by apply Hh.
  unfold timestamp_usize, duration_secs_usize, u64_checked_add. unfold usize_max in *.
  rewrite !bool_decide_true by lia. rewrite run_try. cbn [run lift]. rewrite run_try. cbn [run lift].
  rewrite bool_decide_true by lia. rewrite run_try. cbn [run lift ok_or]. rewrite run_try, Hj.
  destruct (signer_works now Hh (mkAccessClaims (public_base_url st) s r (now + cf_access_token_ttl (config st)) None now jti sc c))
    as [jwt Hjwt]. rewrite run_try. unfold issue_access_token. rewrite Hjwt. by eexists.
Qed.

(** A refresh token for the account is stored under the digest of [rt]. *)
Definition refresh_stored (db : Db) (rt : string) (row : AuthorizationCodeRow) : Prop :=
  ∃ stored, refresh_tokens db !! hash_token rt = Some stored ∧ sr_client_id stored = ac_client_id row ∧
    sr_subject stored = ac_subject row ∧ sr_resource stored = ac_resource row ∧ sr_scope stored = ac_scope row.

Lemma run_finish now form code row v db db1 :
  healthy now → code_ready form code row now db → pkce_challenge v = ac_code_challenge row →
  registered_clients db1 = registered_clients db → google_provider_credentials db1 = google_provider_credentials db →
  ∃ resp rt db2,
    run_alone (finish_code_grant st None (ac_client_id row) (ac_redirect_uri row) v row) db1 = (Ok resp, db2) ∧
    tr_scope resp = ac_scope row ∧ tr_refresh_token resp = Some rt ∧ refresh_stored db2 rt row ∧
    authorization_codes db2 = authorization_codes db1 ∧ registered_clients db2 = registered_clients db1.
Proof.
  intros Hh Hc Hv Hreg Hgoo. unfold finish_code_grant, validate_authorization_code_row.
  rewrite !String.eqb_refl, (code_s256 _ _ _ _ _ Hc), Hv, !String.eqb_refl. cbn [negb]. rewrite run_try. cbn [lift run].
  unfold has_google_provider_credential_for_subject. rewrite run_try. cbn [run sql eff trigger sequential exec].
  unfold has_google_provider_credential_for_subject_sql. rewrite Hgoo, bool_decide_true by apply Hc. cbn [negb].
  destruct (run_random now 24 Hh) as [rt Hrt]. rewrite run_try, Hrt, run_bind, (run_now now) by apply Hh.
  destruct (refresh_ttl_range now Hh) as [Hr0 Hr]. pose proof (clock_range now Hh) as Hn.
  unfold expires_at, duration_secs_i64. rewrite bool_decide_true by lia.
  unfold i64_checked_add. rewrite bool_decide_true by (unfold i64_min; lia). rewrite run_try. cbn [lift run ok_or].
  unfold upsert_refresh_token. cbn [encrypt_opt rt_provider_refresh_token]. rewrite !run_try. cbn [run]. cbn [sql eff trigger run sequential exec].
  unfold upsert_refresh_token_sql. cbn [rt_client_id]. rewrite Hreg.
  destruct (client_known _ _ _ _ _ Hc) as (uris & created & decoded & Hcl & _).
  destruct (registered_clients db !! ac_client_id row) as [cl|]; [|discriminate Hcl].
  match goal with |- context [run _ (build_token_response ?a ?b ?c ?d ?e ?f) ?db'] =>
    destruct (run_build now b c d e f db' Hh) as (resp & -> & Hs & Ht) end.
  eexists resp, rt, _. split_and!; [done|done|done| |done|done].
  eexists. cbn [refresh_tokens set_refresh_tokens rt_refresh_token]. rewrite lookup_insert_eq. split; [done|].
  by destruct (refresh_tokens db1 !! _).
Qed.

(** Up to the redemption, the grant only looks the client up. *)
Lemma run_code_grant now form code row v db d :
  healthy now → code_ready form code row now db → tq_code_verifier form = Some v →
  registered_clients d = registered_clients db →
  run_alone (authorization_code_grant st form) d =
  match select_row (fun r => live (ac_expires_at r) now) code (authorization_codes d) with
  | Some r => run_alone (finish_code_grant st None (ac_client_id row) (ac_redirect_uri row) v r)
                (set_authorization_codes (delete code) d)
  | None => (Err (InvalidGrant "authorization code is missing, expired, or already redeemed"), d)
  end.
Proof.
  intros Hh Hc Hv Hd. unfold authorization_code_grant, require_field.
  rewrite (no_resource _ _ _ _ _ Hc), (presents_code _ _ _ _ _ Hc), (presents_client _ _ _ _ _ Hc),
    (presents_redirect _ _ _ _ _ Hc), Hv. cbn [validate_resource ok_or non_blank fmap option_fmap option_map].
  do 5 (rewrite run_try; cbn [run lift]).
  rewrite run_try, (run_authenticate now form code row db d), run_try by done.
  unfold redeem_auth_code. rewrite run_bind, (run_now now) by apply Hh. cbn [run sql eff trigger sequential exec].
  unfold redeem_auth_code_sql. by destruct (select_row _ _ _).
Qed.

(** The endpoint answers with the outcome of the grant. *)
Lemma run_token now form code row remote db d :
  healthy now → code_ready form code row now db →
  run_alone (token ip_text st remote None form) d =
  let '(r, d') := run_alone (authorization_code_grant st form) d in
  (match r with Ok resp => token_response resp | Err e => error_response (TeAuth e) end, d').
Proof.
  intros Hh Hc. unfold token, check_token_rate_limit, check_rate_limit. rewrite !run_bind.
  cbn [eff trigger run sequential]. rewrite (limiter_admits now Hh). cbn [run].
  unfold token_request, basic_client_credentials. rewrite (presents_client _ _ _ _ _ Hc). cbn [with_credentials].
  unfold grant. rewrite (grant_is_code _ _ _ _ _ Hc). simpl. rewrite !run_bind.
  by destruct (run_alone (authorization_code_grant st form) d) as [[resp|e] d'].
Qed.

(** (C12) A well-formed exchange succeeds, once: in a healthy environment a
    public client that presents a live code with its redirect URI and verifier
    gets a response with tokens of the code's scope, whose refresh token is
    stored for the code's client, account, resource and scope; the code is gone
    afterwards, and presenting it again is refused as an invalid grant, leaving
    the database unchanged. *)
Theorem code_grant_completes now form code row remote db :
  healthy now → code_ready form code row now db →
  ∃ resp rt db', run_alone (token ip_text st remote None form) db = (token_response resp, db') ∧
    tr_scope resp = ac_scope row ∧ tr_refresh_token resp = Some rt ∧ refresh_stored db' rt row ∧
    authorization_codes db' !! code = None ∧
    ∃ message, run_alone (token ip_text st remote None form) db' = (error_response (TeAuth (InvalidGrant message)), db').
Proof.
  intros Hh Hc. destruct (presents_verifier _ _ _ _ _ Hc) as (v & Hv & Hch).
  destruct (run_finish now form code row v db (set_authorization_codes (delete code) db))
    as (resp & rt & db2 & Hf & Hs & Ht & Hst & Hac & Hreg); [done..|].
  exists resp, rt, db2. rewrite !(run_token now form code row remote db) by done.
  rewrite !(run_code_grant now form code row v db) by done.
  assert (Hsel : select_row (fun r => live (ac_expires_at r) now) code (authorization_codes db) = Some row).
  { apply select_row_Some. split; [apply Hc|]. apply bool_decide_eq_true, Hc. }
  assert (Hgone : authorization_codes db2 !! code = None) by (rewrite Hac; simpl; apply lookup_delete_eq).
  assert (Hno : select_row (fun r => live (ac_expires_at r) now) code (authorization_codes db2) = None).
  { apply select_row_None. intros r. by rewrite Hgone. }
  rewrite Hsel, Hno, Hf. split_and!; [done..|]. by eexists.
Qed.

End Completeness.

#[local] Existing Instance sample_platform.

(** The database of the sample: client, credential and code. *)
Definition sample_db : Db :=
  sv_db (schedule no_ip sample_state sample_oracle 0 sample_setup (boot empty_db)).

Lemma sample_healthy : healthy sample_state (sample_oracle 0) 1000.
Proof. constructor; try done; try (by intros; eexists); by vm_compute. Qed.

Lemma sample_ready : code_ready sample_state code_request "c1" sample_code 1000 sample_db.
Proof.
  constructor; try done; try (by vm_compute).
  - exists "verifier". done.
  - eexists _, _, _. split; by vm_compute.
Qed.

Lemma code_grant_completes_witness :
  ∃ resp db', run (sequential (sample_oracle 0)) (token no_ip sample_state None None code_request) sample_db
              = (token_response resp, db') ∧ tr_scope resp = "lab:read".
Proof.
  destruct (code_grant_completes no_ip sample_state (sample_oracle 0) 1000 code_request "c1" sample_code None sample_db
              sample_healthy sample_ready) as (resp & rt & db' & Hrun & Hscope & _).
  exists resp, db'. split; [exact Hrun|exact Hscope].
Defined.
