(* ===== verification/Metadata.v ===== *)
(** * Metadata: the discovery documents

    [labby-auth/src/metadata.rs]: what the server advertises about itself, and
    that the token endpoint agrees with it. *)

From stdpp Require Import base list gmap sets strings.
From S2P Require Import Prelude RustStr Prog AuthTypes SamplePlatform Store Effects AtRest.
From S2P Require Import SqliteStore Ssrf Redirect Scopes Cimd Token.

Record AuthorizationServerMetadata := mkAuthorizationServerMetadata {
  md_issuer : string;
  md_authorization_endpoint : string;
  md_token_endpoint : string;
  md_revocation_endpoint : string;
  md_registration_endpoint : string;
  md_native_callback_endpoint : option string;
  md_native_poll_endpoint : option string;
  md_jwks_uri : string;
  md_response_types_supported : list string;
  md_scopes_supported : list string;
  md_grant_types_supported : list string;
  md_code_challenge_methods_supported : list string;
  md_token_endpoint_auth_methods_supported : list string;
  md_token_endpoint_auth_signing_alg_values_supported : list string;
  md_authorization_response_iss_parameter_supported : bool;
  md_client_id_metadata_document_supported : bool;
  md_authorization_grant_profiles_supported : list string;
}.

Record ProtectedResourceMetadata := mkProtectedResourceMetadata {
  pm_resource : string;
  pm_authorization_servers : list string;
  pm_scopes_supported : list string;
  pm_bearer_methods_supported : list string;
}.

Definition authorization_server_metadata (st : AuthState) : AuthorizationServerMetadata :=
  let base := public_base_url st in
  let has_machine_clients := negb (bool_decide (cf_machine_clients (config st) = [])) in
  let has_enterprise_issuers := negb (bool_decide (cf_enterprise_issuers (config st) = [])) in
  let grant_types_supported := ["authorization_code"; "refresh_token"] in
  let grant_types_supported :=
    if has_machine_clients then grant_types_supported ++ ["client_credentials"] else grant_types_supported in
  let grant_types_supported :=
    if has_enterprise_issuers then grant_types_supported ++ ["urn:ietf:params:oauth:grant-type:jwt-bearer"]
    else grant_types_supported in
  let token_auth_methods := ["none"] in
  let token_auth_methods :=
    if has_machine_clients then token_auth_methods ++ ["client_secret_basic"; "private_key_jwt"] else token_auth_methods in
  {| md_issuer := base;
     md_authorization_endpoint := base +:+ "/authorize";
     md_token_endpoint := base +:+ "/token";
     md_revocation_endpoint := base +:+ "/revoke";
     md_registration_endpoint := base +:+ "/register";
     md_native_callback_endpoint := Some (native_callback_endpoint st);
     md_native_poll_endpoint := Some (native_poll_endpoint st);
     md_jwks_uri := base +:+ "/jwks";
     md_response_types_supported := ["code"];
     md_scopes_supported := cf_scopes_supported (config st);
     md_grant_types_supported := grant_types_supported;
     md_code_challenge_methods_supported := ["S256"];
     md_token_endpoint_auth_methods_supported := token_auth_methods;
     md_token_endpoint_auth_signing_alg_values_supported :=
       if has_machine_clients then ["EdDSA"; "RS256"; "ES256"] else [];
     md_authorization_response_iss_parameter_supported := negb (cf_codex_issuer_compatibility (config st));
     md_client_id_metadata_document_supported := true;
     md_authorization_grant_profiles_supported :=
       if has_enterprise_issuers then ["urn:ietf:params:oauth:grant-profile:id-jag"] else [] |}.

Definition protected_resource_metadata (st : AuthState) : ProtectedResourceMetadata :=
  mkProtectedResourceMetadata (canonical_resource_url st) [public_base_url st] (cf_scopes_supported (config st)) ["header"].

Section Advertised.
Context `{Platform} (ip_text : IpAddr → string) (st : AuthState).

Definition advertised (grant_type : string) : Prop :=
  grant_type ∈ md_grant_types_supported (authorization_server_metadata st).

Lemma advertised_machine : cf_machine_clients (config st) ≠ [] → advertised "client_credentials".
Proof.
  intros Hne. unfold advertised. cbn [md_grant_types_supported authorization_server_metadata].
  rewrite (bool_decide_false (cf_machine_clients (config st) = [])) by done. cbn [negb].
  destruct (negb _); set_solver.
Qed.

Lemma advertised_enterprise :
  cf_enterprise_issuers (config st) ≠ [] → advertised "urn:ietf:params:oauth:grant-type:jwt-bearer".
Proof.
  intros Hne. unfold advertised. cbn [md_grant_types_supported authorization_server_metadata].
  rewrite (bool_decide_false (cf_enterprise_issuers (config st) = [])) by done. cbn [negb]. set_solver.
Qed.

Lemma advertised_user g : g = "authorization_code" ∨ g = "refresh_token" → advertised g.
Proof.
  intros Hg. unfold advertised. cbn [md_grant_types_supported authorization_server_metadata].
  destruct Hg as [->| ->]; destruct (negb _), (negb _); set_solver.
Qed.

Lemma advertised_inv g :
  advertised g → g ∈ ["authorization_code"; "refresh_token"; "client_credentials"; "urn:ietf:params:oauth:grant-type:jwt-bearer"].
Proof.
  unfold advertised. cbn [md_grant_types_supported authorization_server_metadata]. destruct (negb _), (negb _); set_solver.
Qed.

(** Grants of one kind end in the error type of the endpoint. *)
Lemma grant_outcome {A} (p : M (result A AuthError)) (P : Prop) :
  always p (fun _ r => is_ok r = true → P) →
  always (let! r := p in Ret (map_err TeAuth r)) (fun _ r =>
    (is_ok r = true → P) ∧ ∀ g, r ≠ Err (UnsupportedGrantType g)).
Proof. intros Hp. eapply always_bind_spec; [exact Hp|]. intros tr [a|e] HP; unroll; split; auto; done. Qed.

Lemma client_credentials_needs_clients request :
  always (client_credentials_grant st request) (fun _ r => is_ok r = true → cf_machine_clients (config st) ≠ []).
Proof.
  unfold client_credentials_grant, require_field. destruct (tq_client_id request) as [id|]; cbn [ok_or]; unroll; [|done].
  destruct (find_machine_client st id) as [client|] eqn:Ef; [|done].
  eapply always_mono; [apply always_trivial|]. intros tr r _ _ Hnil. unfold find_machine_client in Ef. by rewrite Hnil in Ef.
Qed.

Lemma enterprise_needs_issuers request :
  always (enterprise_managed_grant ip_text st request) (fun _ r => is_ok r = true → cf_enterprise_issuers (config st) ≠ []).
Proof.
  unfold enterprise_managed_grant, require_field. destruct (tq_assertion request) as [a|]; cbn [ok_or]; unroll; [|done].
  destruct (jwt_decode_header a) as [hd|]; cbn [ok_or]; unroll; [|done].
  destruct (ensure_allowed_algorithm _); cbn [map_err]; unroll; [|done]. destruct (negb _); [done|].
  destruct (jh_kid hd) as [kid|]; cbn [ok_or]; unroll; [|done].
  destruct (jwt_insecure_id_jag a) as [unverified|]; cbn [ok_or]; unroll; [|done].
  destruct (find_first _ _) as [issuer|] eqn:Ef; cbn [ok_or]; unroll; [|done].
  eapply always_mono; [apply always_trivial|]. intros tr r _ _ Hnil. by rewrite Hnil in Ef.
Qed.

(** The discovery document is honest about grants: the token endpoint
    only ever issues tokens for a grant type the server advertises, and it
    never rejects an advertised one as unsupported. *)
Theorem advertised_grants_exact request :
  always (grant ip_text st request) (fun _ r =>
    (is_ok r = true → advertised (tq_grant_type request)) ∧
    (advertised (tq_grant_type request) → ∀ g, r ≠ Err (UnsupportedGrantType g))).
Proof.
  unfold grant.
  destruct (String.eqb_spec (tq_grant_type request) "authorization_code") as [E|N1].
  { eapply always_mono; [apply (grant_outcome _ True), always_mono with (fun _ _ => True); [apply always_trivial|done]|].
    intros tr r [_ Hr]. split; [|done]. intros _. apply advertised_user. auto. }
  destruct (String.eqb_spec (tq_grant_type request) "refresh_token") as [E|N2].
  { eapply always_mono; [apply (grant_outcome _ True), always_mono with (fun _ _ => True); [apply always_trivial|done]|].
    intros tr r [_ Hr]. split; [|done]. intros _. apply advertised_user. auto. }
  destruct (String.eqb_spec (tq_grant_type request) "client_credentials") as [E|N3].
  { eapply always_mono; [apply grant_outcome, client_credentials_needs_clients|].
    intros tr r [Hp Hr]. split; [|done]. intros Hok. rewrite E. by apply advertised_machine, Hp. }
  destruct (String.eqb_spec (tq_grant_type request) "urn:ietf:params:oauth:grant-type:jwt-bearer") as [E|N4].
  { eapply always_mono; [apply grant_outcome, enterprise_needs_issuers|].
    intros tr r [Hp Hr]. split; [|done]. intros Hok. rewrite E. by apply advertised_enterprise, Hp. }
  unroll. split; [done|]. intros Ha%advertised_inv. exfalso. set_solver.
Qed.

End Advertised.
