(* ===== verification/Upstream.v ===== *)
(** * Upstream: the gateway's catalog of upstream MCP servers

    [labby-gateway/src/upstream/types.rs] (health states, exposure policies,
    the quarantine interval), [pool/entries.rs] (catalog entries),
    [pool/health.rs] (the circuit breaker) and [pool/tools.rs] (the queries the
    gateway lists and routes tools with).

    A [HashMap] is the list of its pairs in its iteration order, which the
    sources leave open: the theorems hold for every order.  Instants and
    durations are nanoseconds; each method takes the catalog's lock once, so it
    is one step. *)

From Stdlib Require Import Ascii.
From stdpp Require Import base list strings.
From S2P Require Import Prelude RustStr.

(** ** Data *)

(** [serde_json::Value], as far as the queries look into it. *)
Inductive Value :=
| VNull | VBool (b : bool) | VNumber (z : Z) | VString (s : string)
| VArray (l : list Value) | VObject (l : list (string * Value)).

(** A map by its pairs. *)
Definition get {A} (key : string) (m : list (string * A)) : option A :=
  match find_first (fun kv => String.eqb kv.1 key) m with Some kv => Some kv.2 | None => None end.

Definition value_get (key : string) (v : Value) : option Value := match v with VObject l => get key l | _ => None end.
Definition as_str (v : Value) : option string := match v with VString s => Some s | _ => None end.
Definition as_array (v : Value) : option (list Value) := match v with VArray l => Some l | _ => None end.
Definition as_bool (v : Value) : option bool := match v with VBool b => Some b | _ => None end.

(** The fields of [rmcp::model::Tool] the catalog reads. *)
Record Tool := mkTool { tool_name : string; tool_description : option string; tool_meta : option (list (string * Value)) }.

Record UpstreamTool := mkUpstreamTool {
  ut_tool : Tool;
  ut_input_schema : option Value;
  ut_output_schema : option Value;
  ut_upstream_name : string;
  ut_destructive : bool;
}.

Record UpstreamToolExposureRow := mkRow {
  row_name : string; row_description : option string; row_exposed : bool; row_matched_by : option string }.

Record UpstreamEnrichmentCatalogEntry := mkEnrichment {
  en_upstream : string; en_tool_rows : list UpstreamToolExposureRow; en_resource_count : Z; en_prompt_count : Z }.

Inductive ToolPattern := Exact (s : string) | Wildcard (s : string).
Inductive ToolExposurePolicy := All | AllowList (patterns : list ToolPattern).

Inductive UpstreamCapability := Tools | Prompts | Resources.
#[global] Instance UpstreamCapability_eq_dec : EqDecision UpstreamCapability.
Proof. solve_decision. Defined.

Inductive UpstreamHealth := Healthy | Unhealthy (consecutive_failures : Z).

Record UpstreamEntry := mkUpstreamEntry {
  e_name : string;
  e_tools : list (string * UpstreamTool);
  e_exposure_policy : ToolExposurePolicy;
  e_proxy_resources : bool;
  e_prompt_count : Z;
  e_resource_count : Z;
  e_prompt_names : list string;
  e_resource_uris : list string;
  tool_health : UpstreamHealth;
  prompt_health : UpstreamHealth;
  resource_health : UpstreamHealth;
  tool_unhealthy_since : option Z;
  prompt_unhealthy_since : option Z;
  resource_unhealthy_since : option Z;
  tool_last_error : option string;
  prompt_last_error : option string;
  resource_last_error : option string;
}.

Notation Catalog := (list (string * UpstreamEntry)) (only parsing).

(** ** The quarantine interval *)

Definition secs (n : Z) : Z := (n * 1000000000)%Z.
Definition CIRCUIT_BREAKER_THRESHOLD : Z := 3.
Definition REPROBE_INTERVAL : Z := secs 30.
Definition MAX_REPROBE_INTERVAL : Z := secs (30 * 60).
Definition u32_max : Z := 4294967295.
(** [Duration::MAX], in nanoseconds. *)
Definition duration_max : Z := (u64_max * 1000000000 + 999999999)%Z.

Definition reprobe_interval_for_failures (consecutive_failures : Z) : Z :=
  let exponent := Z.min (Z.max 0 (consecutive_failures - CIRCUIT_BREAKER_THRESHOLD)) 16 in
  Z.min (Z.min duration_max (REPROBE_INTERVAL * Z.shiftl 1 exponent)) MAX_REPROBE_INTERVAL.

(** ** Exposure policies *)

(** [str::match_indices]: the matches do not overlap. *)
Fixpoint match_indices_from (part : string) (index skip : nat) (s : string) : list nat :=
  match s with
  | EmptyString => []
  | String _ r =>
      match skip with
      | S k => match_indices_from part (S index) k r
      | 0 => if Str.starts_with part s
             then index :: match_indices_from part (S index) (String.length part - 1) r
             else match_indices_from part (S index) 0 r
      end
  end.
Definition match_indices (part s : string) : list nat := match_indices_from part 0 0 s.

(** The loop over the non-empty parts: the cursor after the last one. *)
Fixpoint index_scan (candidate : string) (anchored : bool) (parts : list string) (cursor : nat) : option nat :=
  match parts with
  | [] => Some cursor
  | part :: parts =>
      if anchored then
        if Str.starts_with part candidate then index_scan candidate false parts (String.length part) else None
      else
        match find_first (fun idx => cursor <=? idx) (match_indices part candidate) with
        | Some idx => index_scan candidate false parts (idx + String.length part)
        | None => None
        end
  end.

Definition tool_wildcard_matches (pattern candidate : string) : bool :=
  if String.eqb pattern "*" then true else
  let parts := Str.split "*" pattern in
  if length parts =? 1 then String.eqb pattern candidate else
  let anchored_start := negb (Str.starts_with "*" pattern) in
  let anchored_end := negb (Str.ends_with "*" pattern) in
  let non_empty_parts := List.filter (fun part => negb (Str.is_empty part)) parts in
  match non_empty_parts with
  | [] => true
  | _ =>
      match index_scan candidate anchored_start non_empty_parts 0 with
      | None => false
      | Some _ =>
          match last non_empty_parts with
          | Some last => if anchored_end then Str.ends_with last candidate else true
          | None => true
          end
      end
  end.

Definition pattern_str (p : ToolPattern) : string := match p with Exact s | Wildcard s => s end.
Definition pattern_matches (p : ToolPattern) (candidate : string) : bool :=
  match p with
  | Exact value => String.eqb value candidate
  | Wildcard pattern => tool_wildcard_matches pattern candidate
  end.

Fixpoint compile_patterns (patterns : list string) : result (list ToolPattern) string :=
  match patterns with
  | [] => Ok []
  | pattern :: rest =>
      let trimmed := Str.trim pattern in
      if Str.is_empty trimmed then Err "expose_tools entries must not be empty"
      else
        let? rest := compile_patterns rest in
        Ok ((if Str.contains "*" trimmed then Wildcard trimmed else Exact trimmed) :: rest)
  end.
Definition from_patterns (patterns : list string) : result ToolExposurePolicy string :=
  let? compiled := compile_patterns patterns in Ok (AllowList compiled).
Definition from_optional (patterns : option (list string)) : result ToolExposurePolicy string :=
  match patterns with None => Ok All | Some patterns => from_patterns patterns end.

Definition matched_by (policy : ToolExposurePolicy) (tool_name : string) : option string :=
  match policy with
  | All => Some "*"
  | AllowList patterns =>
      match find_first (fun p => pattern_matches p tool_name) patterns with
      | Some p => Some (pattern_str p)
      | None => None
      end
  end.
Definition policy_matches (policy : ToolExposurePolicy) (tool_name : string) : bool :=
  match matched_by policy tool_name with Some _ => true | None => false end.

(** ** Entries *)

Definition is_open (h : UpstreamHealth) : bool :=
  match h with Healthy => false | Unhealthy n => bool_decide (CIRCUIT_BREAKER_THRESHOLD <= n)%Z end.
Definition is_routable (h : UpstreamHealth) : bool := negb (is_open h).
Definition health_str (h : UpstreamHealth) : string :=
  match h with
  | Healthy => "healthy"
  | Unhealthy n => if bool_decide (CIRCUIT_BREAKER_THRESHOLD <= n)%Z then "open" else "degraded"
  end.

Definition resolve_exposure_policy (expose_tools : option (list string)) : ToolExposurePolicy :=
  match from_optional expose_tools with Ok policy => policy | Err _ => AllowList [] end.

Definition lazy_upstream_entry (expose_tools : option (list string)) (proxy_resources : bool) (name : string) : UpstreamEntry :=
  mkUpstreamEntry name [] (resolve_exposure_policy expose_tools) proxy_resources 0 0 [] []
    Healthy Healthy Healthy None None None None None None.
Definition healthy_in_process_entry (name : string) (tools : list (string * UpstreamTool)) : UpstreamEntry :=
  mkUpstreamEntry name tools All true 0 0 [] [] Healthy Healthy Healthy None None None None None None.
Definition failed_in_process_entry (now : Z) (name error_message : string) : UpstreamEntry :=
  mkUpstreamEntry name [] All true 0 0 [] [] (Unhealthy 1) (Unhealthy 1) (Unhealthy 1)
    (Some now) (Some now) (Some now) (Some error_message) (Some error_message) (Some error_message).
Definition failed_in_process_entry_from_existing (now : Z) (e : UpstreamEntry) (error_message : string) : UpstreamEntry :=
  mkUpstreamEntry (e_name e) (e_tools e) (e_exposure_policy e) (e_proxy_resources e) (e_prompt_count e) (e_resource_count e)
    (e_prompt_names e) (e_resource_uris e) (Unhealthy 1) (Unhealthy 1) (Unhealthy 1)
    (Some now) (Some now) (Some now) (Some error_message) (Some error_message) (Some error_message).

Definition health_for (c : UpstreamCapability) (e : UpstreamEntry) : UpstreamHealth :=
  match c with Tools => tool_health e | Prompts => prompt_health e | Resources => resource_health e end.
Definition unhealthy_since_for (c : UpstreamCapability) (e : UpstreamEntry) : option Z :=
  match c with Tools => tool_unhealthy_since e | Prompts => prompt_unhealthy_since e | Resources => resource_unhealthy_since e end.
Definition last_error_for (c : UpstreamCapability) (e : UpstreamEntry) : option string :=
  match c with Tools => tool_last_error e | Prompts => prompt_last_error e | Resources => resource_last_error e end.

Definition pick {A} (c c' : UpstreamCapability) (new old : A) : A := if decide (c = c') then new else old.

Definition set_health_for (c : UpstreamCapability) (h : UpstreamHealth) (e : UpstreamEntry) : UpstreamEntry :=
  mkUpstreamEntry (e_name e) (e_tools e) (e_exposure_policy e) (e_proxy_resources e) (e_prompt_count e) (e_resource_count e)
    (e_prompt_names e) (e_resource_uris e)
    (pick c Tools h (tool_health e)) (pick c Prompts h (prompt_health e)) (pick c Resources h (resource_health e))
    (tool_unhealthy_since e) (prompt_unhealthy_since e) (resource_unhealthy_since e)
    (tool_last_error e) (prompt_last_error e) (resource_last_error e).
Definition set_unhealthy_since_for (c : UpstreamCapability) (t : option Z) (e : UpstreamEntry) : UpstreamEntry :=
  mkUpstreamEntry (e_name e) (e_tools e) (e_exposure_policy e) (e_proxy_resources e) (e_prompt_count e) (e_resource_count e)
    (e_prompt_names e) (e_resource_uris e) (tool_health e) (prompt_health e) (resource_health e)
    (pick c Tools t (tool_unhealthy_since e)) (pick c Prompts t (prompt_unhealthy_since e))
    (pick c Resources t (resource_unhealthy_since e))
    (tool_last_error e) (prompt_last_error e) (resource_last_error e).
Definition set_last_error_for (c : UpstreamCapability) (m : option string) (e : UpstreamEntry) : UpstreamEntry :=
  mkUpstreamEntry (e_name e) (e_tools e) (e_exposure_policy e) (e_proxy_resources e) (e_prompt_count e) (e_resource_count e)
    (e_prompt_names e) (e_resource_uris e) (tool_health e) (prompt_health e) (resource_health e)
    (tool_unhealthy_since e) (prompt_unhealthy_since e) (resource_unhealthy_since e)
    (pick c Tools m (tool_last_error e)) (pick c Prompts m (prompt_last_error e)) (pick c Resources m (resource_last_error e)).
Definition set_tools (tools : list (string * UpstreamTool)) (e : UpstreamEntry) : UpstreamEntry :=
  mkUpstreamEntry (e_name e) tools (e_exposure_policy e) (e_proxy_resources e) (e_prompt_count e) (e_resource_count e)
    (e_prompt_names e) (e_resource_uris e) (tool_health e) (prompt_health e) (resource_health e)
    (tool_unhealthy_since e) (prompt_unhealthy_since e) (resource_unhealthy_since e)
    (tool_last_error e) (prompt_last_error e) (resource_last_error e).

(** ** The circuit breaker *)

(** [catalog.get_mut(name)], then [f] on the entry. *)
Definition update (name : string) (f : UpstreamEntry → UpstreamEntry) (catalog : Catalog) : Catalog :=
  (fun ne => if String.eqb ne.1 name then (ne.1, f ne.2) else ne) <$> catalog.

Definition next_failures (previous : UpstreamHealth) : Z :=
  match previous with Healthy => 1 | Unhealthy n => Z.min u32_max (n + 1) end.

Definition fail_entry (c : UpstreamCapability) (now : Z) (error : string) (e : UpstreamEntry) : UpstreamEntry :=
  set_last_error_for c (Some error)
    (set_unhealthy_since_for c (Some now)
      (set_health_for c (Unhealthy (next_failures (health_for c e))) e)).
Definition succeed_entry (c : UpstreamCapability) (e : UpstreamEntry) : UpstreamEntry :=
  set_last_error_for c None (set_unhealthy_since_for c None (set_health_for c Healthy e)).

Definition record_failure_for (name : string) (c : UpstreamCapability) (error : string) (now : Z) (catalog : Catalog) : Catalog :=
  update name (fail_entry c now error) catalog.
Definition record_failure (name error : string) (now : Z) (catalog : Catalog) : Catalog :=
  record_failure_for name Tools error now catalog.
Definition record_success_for (name : string) (c : UpstreamCapability) (catalog : Catalog) : Catalog :=
  update name (succeed_entry c) catalog.
Definition record_success (name : string) (catalog : Catalog) : Catalog := record_success_for name Tools catalog.

Definition upstream_last_error (name : string) (catalog : Catalog) : option string :=
  match get name catalog with
  | None => None
  | Some e =>
      match last_error_for Tools e with
      | Some m => Some m
      | None => match last_error_for Resources e with Some m => Some m | None => last_error_for Prompts e end
      end
  end.
Definition upstream_tool_last_error (name : string) (catalog : Catalog) : option string :=
  match get name catalog with Some e => last_error_for Tools e | None => None end.

Definition elapsed (since now : Z) : Z := Z.max 0 (now - since).
Definition should_reprobe_for (name : string) (c : UpstreamCapability) (now : Z) (catalog : Catalog) : bool :=
  match get name catalog with
  | Some e =>
      match health_for c e, unhealthy_since_for c e with
      | Unhealthy n, Some since =>
          bool_decide (CIRCUIT_BREAKER_THRESHOLD <= n)%Z && bool_decide (reprobe_interval_for_failures n <= elapsed since now)%Z
      | _, _ => false
      end
  | None => false
  end.
Definition should_reprobe (name : string) (now : Z) (catalog : Catalog) : bool := should_reprobe_for name Tools now catalog.

Definition filter_collisions (builtin_names : list string) (catalog : Catalog) : Catalog :=
  (fun ne => (ne.1, set_tools (List.filter (fun kt => negb (existsb (String.eqb kt.1) builtin_names)) (e_tools ne.2)) ne.2))
    <$> catalog.
Definition upstream_count (catalog : Catalog) : Z := Z.of_nat (length catalog).
Definition upstream_status (catalog : Catalog) : list (string * UpstreamHealth) :=
  (fun ne => (e_name ne.2, tool_health ne.2)) <$> catalog.

(** ** Queries *)

Definition MAX_UPSTREAM_TOOLS : nat := 1000.

Definition upstream_allowed (allowed : option (list string)) (upstream : string) : bool :=
  match allowed with None => true | Some names => existsb (String.eqb upstream) names end.

Definition tool_mcp_app_ui_resource_uri (t : UpstreamTool) : option string :=
  match tool_meta (ut_tool t) with
  | Some meta =>
      match get "ui" meta with
      | Some ui =>
          match value_get "resourceUri" ui with
          | Some v => match as_str v with
                      | Some uri => if Str.starts_with "ui://" uri then Some uri else None
                      | None => None
                      end
          | None => None
          end
      | None => None
      end
  | None => None
  end.
Definition tool_has_mcp_app_ui_resource (t : UpstreamTool) : bool :=
  match tool_mcp_app_ui_resource_uri t with Some _ => true | None => false end.

Definition is_app (v : Value) : bool := match as_str v with Some s => String.eqb s "app" | None => false end.
Definition tool_is_mcp_app_host_visible (t : UpstreamTool) : bool :=
  if tool_has_mcp_app_ui_resource t then true else
  match tool_meta (ut_tool t) with
  | None => false
  | Some meta =>
      let app_visible :=
        match get "ui" meta with
        | Some ui =>
            match value_get "visibility" ui with
            | Some v => match as_array v with Some l => existsb is_app l | None => false end
            | None => false
            end
        | None => false
        end in
      let openai_widget_callback :=
        match get "openai/widgetAccessible" meta with
        | Some v => match as_bool v with Some true => true | _ => false end
        | None => false
        end in
      app_visible || openai_widget_callback
  end.

(** The tools of an entry its policy exposes, in the order of the map. *)
Definition exposed (e : UpstreamEntry) (t : UpstreamTool) : bool := policy_matches (e_exposure_policy e) (tool_name (ut_tool t)).
Definition exposed_tools (keep : UpstreamTool → bool) (e : UpstreamEntry) : list UpstreamTool :=
  List.filter (fun t => exposed e t && keep t) (snd <$> e_tools e).

(** [take(MAX + 1)], then [truncate(MAX)]. *)
Definition capped {A} (l : list A) : list A := take MAX_UPSTREAM_TOOLS (take (MAX_UPSTREAM_TOOLS + 1) l).

Definition select (allowed : option (list string)) (wanted : UpstreamEntry → bool) (catalog : Catalog) : list UpstreamEntry :=
  snd <$> List.filter (fun ne => upstream_allowed allowed ne.1 && is_routable (tool_health ne.2) && wanted ne.2) catalog.

Definition healthy_tools_allowed (allowed : option (list string)) (catalog : Catalog) : list UpstreamTool :=
  capped (select allowed (fun _ => true) catalog ≫= exposed_tools (fun _ => true)).
Definition healthy_tools (catalog : Catalog) : list UpstreamTool := healthy_tools_allowed None catalog.
Definition healthy_ui_tools_allowed (allowed : option (list string)) (catalog : Catalog) : list UpstreamTool :=
  capped (select allowed e_proxy_resources catalog ≫= exposed_tools tool_is_mcp_app_host_visible).
Definition healthy_tool_names_allowed (allowed : option (list string)) (catalog : Catalog) : list string :=
  capped (select allowed (fun _ => true) catalog ≫= fun e => (tool_name ∘ ut_tool) <$> exposed_tools (fun _ => true) e).
Definition healthy_tool_names (catalog : Catalog) : list string := healthy_tool_names_allowed None catalog.
Definition healthy_ui_tool_names_allowed (allowed : option (list string)) (catalog : Catalog) : list string :=
  capped (select allowed e_proxy_resources catalog ≫= fun e =>
            (tool_name ∘ ut_tool) <$> exposed_tools tool_is_mcp_app_host_visible e).

Definition healthy_tools_for_upstream (upstream : string) (catalog : Catalog) : list UpstreamTool :=
  match get upstream catalog with
  | Some e => if is_routable (tool_health e) then exposed_tools (fun _ => true) e else []
  | None => []
  end.
Definition has_healthy_tools_for_upstream (upstream : string) (catalog : Catalog) : bool :=
  match get upstream catalog with
  | Some e => is_routable (tool_health e) && existsb (exposed e) (snd <$> e_tools e)
  | None => false
  end.

(** The stable sort by upstream name. *)
Fixpoint insert_named {A} (x : string * A) (l : list (string * A)) : list (string * A) :=
  match l with
  | [] => [x]
  | y :: r => match String.compare x.1 y.1 with Gt => y :: insert_named x r | _ => x :: l end
  end.
Definition sort_named {A} (l : list (string * A)) : list (string * A) := foldr insert_named [] l.

(** The tool of that name in an entry that may be routed to. *)
Definition candidate (allowed : option (list string)) (tool : string) (ne : string * UpstreamEntry) : option (string * UpstreamTool) :=
  if negb (upstream_allowed allowed ne.1) || negb (is_routable (tool_health ne.2)) then None
  else match get tool (e_tools ne.2) with
       | Some t => if exposed ne.2 t then Some (ne.1, t) else None
       | None => None
       end.
Definition find_exposed_tool_candidates_allowed (tool : string) (allowed : option (list string)) (catalog : Catalog) :
    list (string * UpstreamTool) := sort_named (omap (candidate allowed tool) catalog).
Definition find_tool_candidates (tool : string) (catalog : Catalog) : list (string * UpstreamTool) :=
  sort_named (omap (candidate None tool) catalog).

Definition sibling_candidate (allowed : option (list string)) (tool : string) (ne : string * UpstreamEntry) :
    option (string * UpstreamTool) :=
  match candidate allowed tool ne with
  | Some c => if existsb (fun t => exposed ne.2 t && tool_has_mcp_app_ui_resource t) (snd <$> e_tools ne.2) then Some c else None
  | None => None
  end.
Definition find_mcp_app_sibling_tool_candidates (tool : string) (allowed : option (list string)) (catalog : Catalog) :
    list (string * UpstreamTool) := sort_named (omap (sibling_candidate allowed tool) catalog).

Fixpoint find_map {A B} (f : A → option B) (l : list A) : option B :=
  match l with [] => None | x :: r => match f x with Some y => Some y | None => find_map f r end end.

Definition find_tool_allowed (tool : string) (allowed : option (list string)) (catalog : Catalog) : option (string * UpstreamTool) :=
  find_map (fun e => match get tool (e_tools e) with
                     | Some t => if policy_matches (e_exposure_policy e) tool then Some (e_name e, t) else None
                     | None => None
                     end) (select allowed (fun _ => true) catalog).
Definition find_tool (tool : string) (catalog : Catalog) : option (string * UpstreamTool) := find_tool_allowed tool None catalog.

Definition tool_schema (tool : string) (catalog : Catalog) : option Value :=
  find_map (fun ne => match get tool (e_tools ne.2) with
                      | Some t => if policy_matches (e_exposure_policy ne.2) tool then ut_input_schema t else None
                      | None => None
                      end) catalog.

Definition shown_description (t : UpstreamTool) : option string :=
  match tool_description (ut_tool t) with
  | Some text => if Str.is_empty (Str.trim text) then None else Some text
  | None => None
  end.
Definition exposure_row (e : UpstreamEntry) (t : UpstreamTool) : UpstreamToolExposureRow :=
  let matched := matched_by (e_exposure_policy e) (tool_name (ut_tool t)) in
  mkRow (tool_name (ut_tool t)) (shown_description t) (match matched with Some _ => true | None => false end) matched.

Fixpoint insert_row (row : UpstreamToolExposureRow) (rows : list UpstreamToolExposureRow) : list UpstreamToolExposureRow :=
  match rows with
  | [] => [row]
  | r :: rest => match String.compare (row_name row) (row_name r) with Gt => r :: insert_row row rest | _ => row :: rows end
  end.
Definition sort_rows (rows : list UpstreamToolExposureRow) : list UpstreamToolExposureRow := foldr insert_row [] rows.

Definition tool_exposure_rows (upstream : string) (catalog : Catalog) : list UpstreamToolExposureRow :=
  match get upstream catalog with
  | Some e => sort_rows (exposure_row e <$> (snd <$> e_tools e))
  | None => []
  end.

(** [binary_search_by] on sorted rows: the place of the first row not before
    the new one. *)
Fixpoint insert_place (name : string) (rows : list UpstreamToolExposureRow) : nat :=
  match rows with
  | [] => 0
  | r :: rest => match String.compare (row_name r) name with Lt => S (insert_place name rest) | _ => 0 end
  end.
Definition insert_bounded_tool_row (rows : list UpstreamToolExposureRow) (row : UpstreamToolExposureRow) (limit : nat) :
    list UpstreamToolExposureRow :=
  if limit =? 0 then rows
  else
    let insert_at := insert_place (row_name row) rows in
    if insert_at <? limit then
      let rows := take insert_at rows ++ row :: drop insert_at rows in
      if limit <? length rows then removelast rows else rows
    else rows.

Definition enrichment_entry (row_limit : nat) (ne : string * UpstreamEntry) : UpstreamEnrichmentCatalogEntry :=
  let e := ne.2 in
  mkEnrichment ne.1
    (if is_routable (tool_health e)
     then foldl (fun rows t => insert_bounded_tool_row rows (exposure_row e t) row_limit) []
            (List.filter (exposed e) (snd <$> e_tools e))
     else [])
    (if is_routable (resource_health e) then e_resource_count e else 0%Z)
    (if is_routable (prompt_health e) then e_prompt_count e else 0%Z).

Fixpoint insert_enrichment (x : UpstreamEnrichmentCatalogEntry) (l : list UpstreamEnrichmentCatalogEntry) :
    list UpstreamEnrichmentCatalogEntry :=
  match l with
  | [] => [x]
  | y :: r => match String.compare (en_upstream x) (en_upstream y) with Gt => y :: insert_enrichment x r | _ => x :: l end
  end.
(** [saturating_add(1)] on a [usize] list bound: no list is that long. *)
Definition cached_enrichment_snapshot (allowed : option (list string)) (per_upstream_tool_limit : nat) (catalog : Catalog) :
    list UpstreamEnrichmentCatalogEntry :=
  foldr insert_enrichment []
    (enrichment_entry (S per_upstream_tool_limit) <$> List.filter (fun ne => upstream_allowed allowed ne.1) catalog).

Record UpstreamCachedSummary := mkSummary {
  discovered_tool_count : nat; exposed_tool_count : nat; discovered_resource_count : Z; exposed_resource_count : Z;
  discovered_prompt_count : Z; exposed_prompt_count : Z }.
Definition cached_upstream_summary (upstream : string) (catalog : Catalog) : option UpstreamCachedSummary :=
  match get upstream catalog with
  | None => None
  | Some e => Some (mkSummary (length (e_tools e)) (length (List.filter (exposed e) (snd <$> e_tools e)))
      (e_resource_count e) (if is_routable (resource_health e) then e_resource_count e else 0)
      (e_prompt_count e) (if is_routable (prompt_health e) then e_prompt_count e else 0))%Z
  end.
Definition upstream_tool_health (upstream : string) (catalog : Catalog) : option UpstreamHealth :=
  match get upstream catalog with Some e => Some (tool_health e) | None => None end.

Fixpoint insert_name (x : string) (l : list string) : list string :=
  match l with
  | [] => [x]
  | y :: r => match String.compare x y with Gt => y :: insert_name x r | Eq => l | Lt => x :: l end
  end.
(** [sort_unstable] and [dedup]. *)
Definition sorted_names (l : list string) : list string := foldr insert_name [] l.
Definition routable_upstream_names (c : UpstreamCapability) (resource_upstreams : list string) (catalog : Catalog) : list string :=
  sorted_names
    match c with
    | Resources => List.filter (fun name => match get name catalog with
                                            | Some e => is_routable (health_for c e)
                                            | None => false
                                            end) resource_upstreams
    | Tools | Prompts => fst <$> List.filter (fun ne => is_routable (health_for c ne.2)) catalog
    end.

