(* ===== verification/UpstreamProps.v ===== *)
(** * UpstreamProps: exposure, routing and quarantine of upstream servers

    What the gateway lists and routes to is exposed by the configuration, in
    the declarative meaning of its patterns, and not quarantined; the breaker
    counts the failures since the last success. *)

From Stdlib Require Import Ascii.
From stdpp Require Import base list strings.
From S2P Require Import Prelude RustStr Redirect Upstream.

(** ** Patterns *)

(** An index found is a place where the part occurs. *)
Lemma match_indices_from_spec part index skip s i :
  i ∈ match_indices_from part index skip s → ∃ u w, s = u +:+ part +:+ w ∧ i = index + String.length u.
Proof.
  revert index skip. induction s as [|a s IH]; intros index skip; cbn [match_indices_from]; [by intros Hi%elem_of_nil|].
  assert (∀ skip, i ∈ match_indices_from part (S index) skip s →
    ∃ u w, String a s = u +:+ part +:+ w ∧ i = index + String.length u) as Hrec.
  { intros k Hi. destruct (IH _ _ Hi) as (u & w & -> & ->). exists (String a u), w. rewrite Str.app_cons. simpl. split; [done|lia]. }
  destruct skip as [|k]; [|apply Hrec]. destruct (Str.starts_with part (String a s)) eqn:E; [|apply Hrec].
  rewrite elem_of_cons. intros [->|Hi]; [|by eapply Hrec]. apply Str.starts_with_spec in E as [w ->].
  exists "", w. rewrite Str.app_nil_l. simpl. split; [done|lia].
Qed.

Lemma index_scan_occurs v parts : ∀ u w,
  v = u +:+ w → is_Some (index_scan v false parts (String.length u)) → occurs_in_order parts w.
Proof.
  induction parts as [|part parts IH]; intros u w Hv Hs; [done|]. cbn [index_scan] in Hs. simpl.
  destruct (find_first _ _) as [idx|] eqn:E; [|by destruct Hs]. apply find_first_Some in E as [Hi Hc].
  apply match_indices_from_spec in Hi as (x & y & Hx & ->). simpl in *. apply Nat.leb_le in Hc.
  assert (∃ z, x = u +:+ z) as [z ->].
  { rewrite Hv in Hx. clear - Hx Hc. revert x Hx Hc. induction u as [|a u IH]; intros x Hx Hc; [exists x; done|].
    destruct x as [|b x]; simpl in Hc; [lia|]. rewrite !Str.app_cons in Hx. injection Hx as <- Hx.
    destruct (IH x Hx) as [z ->]; [lia|]. exists z. by rewrite Str.app_cons. }
  exists z, y. split.
  - rewrite Hv in Hx. rewrite Str.app_assoc in Hx. by apply Str.app_inj_l in Hx.
  - apply (IH ((u +:+ z) +:+ part) y); [by rewrite Hx, !Str.app_assoc|]. by rewrite Str.length_app.
Qed.

(** The scan over indices finds no more than the greedy one. *)
Lemma index_scan_sound v anchored parts :
  is_Some (index_scan v anchored parts 0) → is_Some (wildcard_scan anchored parts v).
Proof.
  destruct anchored; [|intros Hs; apply scan_unanchored, (index_scan_occurs v parts "" v); by rewrite ?Str.app_nil_l].
  destruct parts as [|part parts]; cbn [index_scan wildcard_scan]; [by eexists|].
  destruct (Str.starts_with part v) eqn:E; [|by intros []]. apply Str.starts_with_spec in E as [w ->].
  rewrite Str.drop_app. intros Hs. apply scan_unanchored. by eapply index_scan_occurs.
Qed.

Lemma tool_wildcard_sound pattern v : tool_wildcard_matches pattern v = true → glob pattern v.
Proof.
  intros Hm. apply wildcard_exact. revert Hm. unfold tool_wildcard_matches, wildcard_matches.
  destruct (String.eqb pattern "*"); [done|]. destruct (length _ =? 1); [done|].
  destruct (List.filter _ _) as [|p ps]; [done|].
  destruct (index_scan _ _ _ _) as [c|] eqn:E; [|done].
  destruct (index_scan_sound v (negb (Str.starts_with "*" pattern)) (p :: ps)) as [r ->]; [by rewrite E|done].
Qed.

(** A pattern without a star means itself. *)
Lemma glob_self s : Str.contains "*" s = false → glob s s.
Proof.
  intros Hc. assert (¬ ∃ x y, s = x +:+ "*" +:+ y) as Hn by (rewrite <- Str.contains_spec; congruence). clear Hc.
  induction s as [|a s IH]; constructor.
  - intros ->. apply Hn. by exists "", s.
  - apply IH. intros (x & y & ->). apply Hn. exists (String a x), y. by rewrite Str.app_cons.
Qed.

(** ** Policies *)

Lemma compile_patterns_Ok patterns compiled :
  compile_patterns patterns = Ok compiled →
  compiled = (fun p => if Str.contains "*" (Str.trim p) then Wildcard (Str.trim p) else Exact (Str.trim p)) <$> patterns ∧
  Forall (fun p => Str.trim p ≠ "") patterns.
Proof.
  revert compiled. induction patterns as [|p patterns IH]; intros compiled; cbn [compile_patterns]; [by intros [= <-]|].
  destruct (Str.is_empty (Str.trim p)) eqn:E; [done|]. destruct (compile_patterns patterns) as [rest|e]; [|done].
  simpl. intros [= <-]. destruct (IH rest eq_refl) as [-> Hf]. split; [done|]. constructor; [|done]. intros Ht. by rewrite Ht in E.
Qed.

Lemma policy_matches_glob patterns name :
  policy_matches (resolve_exposure_policy (Some patterns)) name = true →
  Forall (fun p => Str.trim p ≠ "") patterns ∧ ∃ p, p ∈ patterns ∧ glob (Str.trim p) name.
Proof.
  unfold resolve_exposure_policy, from_optional, from_patterns.
  destruct (compile_patterns patterns) as [compiled|e] eqn:E; [|done]. apply compile_patterns_Ok in E as [-> Hf].
  unfold policy_matches, matched_by. simpl. destruct (find_first _ _) as [q|] eqn:Eq; [|done]. intros _. split; [done|].
  apply find_first_Some in Eq as [Hq Hm]. apply list_elem_of_fmap in Hq as (p & -> & Hp). exists p. split; [done|].
  destruct (Str.contains "*" (Str.trim p)) eqn:Ec; simpl in Hm; [by apply tool_wildcard_sound|].
  apply String.eqb_eq in Hm as <-. by apply glob_self.
Qed.

(** ** Listing and routing *)

(** The upstream may be used: allowed, and not quarantined for tools. *)
Definition usable (allowed : option (list string)) (ne : string * UpstreamEntry) : Prop :=
  upstream_allowed allowed ne.1 = true ∧ is_routable (tool_health ne.2) = true.

Lemma elem_select allowed wanted catalog e :
  e ∈ select allowed wanted catalog → ∃ n, (n, e) ∈ catalog ∧ usable allowed (n, e) ∧ wanted e = true.
Proof.
  unfold select. intros ([n e'] & -> & Hin)%list_elem_of_fmap. apply list_elem_of_In, filter_In in Hin as [Hin Hb].
  simpl in *. split_bools. exists n. split_and!; try done. by apply list_elem_of_In.
Qed.

Lemma elem_exposed_tools keep e t :
  t ∈ exposed_tools keep e → t ∈ (e_tools e).*2 ∧ exposed e t = true ∧ keep t = true.
Proof.
  unfold exposed_tools. rewrite list_elem_of_In, filter_In, andb_true_iff, <- list_elem_of_In. tauto.
Qed.

Lemma capped_take {A} (l : list A) : capped l = take MAX_UPSTREAM_TOOLS l.
Proof. unfold capped. rewrite take_take. f_equal. Qed.

Lemma elem_listed allowed wanted keep catalog t :
  t ∈ capped (select allowed wanted catalog ≫= exposed_tools keep) →
  ∃ n e, (n, e) ∈ catalog ∧ usable allowed (n, e) ∧ t ∈ (e_tools e).*2 ∧ exposed e t = true.
Proof.
  rewrite capped_take. intros (i & Hi & _)%elem_of_take. apply list_elem_of_lookup_2, list_elem_of_bind in Hi as (e & Ht & He).
  apply elem_select in He as (n & Hin & Hu & _). apply elem_exposed_tools in Ht as (? & ? & _). by exists n, e.
Qed.

Lemma bind_fmap {A B C} (f : A → list B) (g : B → C) l : (l ≫= fun x => g <$> f x) = g <$> (l ≫= f).
Proof. induction l as [|x l IH]; simpl; [done|]. rewrite fmap_app. f_equal. exact IH. Qed.

Lemma get_elem {A} key (m : list (string * A)) x : get key m = Some x → (key, x) ∈ m.
Proof.
  unfold get. destruct (find_first _ m) as [[k y]|] eqn:E; [|done]. intros [= <-].
  apply find_first_Some in E as [Hin Hk]. apply String.eqb_eq in Hk. simpl in *. by subst.
Qed.

Lemma elem_sort_named {A} (x : string * A) l : x ∈ sort_named l ↔ x ∈ l.
Proof.
  induction l as [|y l IH]; simpl; [done|]. rewrite elem_of_cons, <- IH. generalize (sort_named l). clear IH.
  intros m. induction m as [|z m IH]; simpl; [by rewrite elem_of_cons|].
  destruct (String.compare _ _); rewrite ?elem_of_cons, ?IH; tauto.
Qed.

Lemma elem_candidates tool allowed catalog n t :
  (n, t) ∈ find_exposed_tool_candidates_allowed tool allowed catalog ↔
  ∃ e, (n, e) ∈ catalog ∧ usable allowed (n, e) ∧ get tool (e_tools e) = Some t ∧ exposed e t = true.
Proof.
  unfold find_exposed_tool_candidates_allowed. rewrite elem_sort_named, list_elem_of_omap. unfold candidate, usable. split.
  - intros ([n' e] & Hin & Hc). simpl in Hc. destruct (upstream_allowed _ _) eqn:Ea; [|done].
    destruct (is_routable _) eqn:Er; [|done]. simpl in Hc. destruct (get tool _) as [t'|] eqn:Eg; [|done].
    destruct (exposed e t') eqn:Ee; [|done]. injection Hc as -> ->. by exists e.
  - intros (e & Hin & (Ha & Hr) & Hg & He). exists (n, e). split; [done|]. simpl in *. by rewrite Ha, Hr, Hg, He.
Qed.

(** ** The breaker *)

Inductive Event :=
| Failed (name : string) (c : UpstreamCapability) (error : string) (now : Z)
| Succeeded (name : string) (c : UpstreamCapability).

Definition observe (catalog : list (string * UpstreamEntry)) (ev : Event) : list (string * UpstreamEntry) :=
  match ev with
  | Failed name c error now => record_failure_for name c error now catalog
  | Succeeded name c => record_success_for name c catalog
  end.

(** The failures of one capability since its last success, oldest first. *)
Definition streak_step (name : string) (c : UpstreamCapability) (acc : list (Z * string)) (ev : Event) : list (Z * string) :=
  match ev with
  | Failed name' c' error now => if decide (name' = name ∧ c' = c) then acc ++ [(now, error)] else acc
  | Succeeded name' c' => if decide (name' = name ∧ c' = c) then [] else acc
  end.
Definition streak (name : string) (c : UpstreamCapability) (events : list Event) : list (Z * string) :=
  foldl (streak_step name c) [] events.

(** An entry that agrees with a streak. *)
Definition agrees (c : UpstreamCapability) (fs : list (Z * string)) (e : UpstreamEntry) : Prop :=
  health_for c e = (match fs with [] => Healthy | _ => Unhealthy (Z.min u32_max (Z.of_nat (length fs))) end) ∧
  unhealthy_since_for c e = fst <$> last fs ∧ last_error_for c e = snd <$> last fs.

Lemma get_update name name' f (catalog : list (string * UpstreamEntry)) :
  get name (update name' f catalog) = (if decide (name' = name) then f else id) <$> get name catalog.
Proof.
  unfold get, update. induction catalog as [|[k e] catalog IH]; [by case_decide|].
  rewrite fmap_cons. simpl. destruct (String.eqb_spec k name') as [->|Hne]; simpl.
  - destruct (String.eqb_spec name' name) as [->|]; [by rewrite decide_True|exact IH].
  - destruct (String.eqb_spec k name) as [->|]; [by rewrite decide_False by congruence|exact IH].
Qed.

Lemma set_other c c' fs e now error :
  c' ≠ c → agrees c fs e → agrees c fs (fail_entry c' now error e) ∧ agrees c fs (succeed_entry c' e).
Proof. intros Hne (Hh & Hs & Hl). destruct c, c'; try done; split; split_and!; done. Qed.

Lemma fail_agrees c fs e now error : agrees c fs e → agrees c (fs ++ [(now, error)]) (fail_entry c now error e).
Proof.
  intros (Hh & _ & _).
  assert (health_for c (fail_entry c now error e) = Unhealthy (next_failures (health_for c e))) as Hn by by destruct c.
  split_and!; [|rewrite last_snoc; by destruct c..]. rewrite Hn, Hh. destruct fs as [|x fs]; [done|]. simpl.
  rewrite length_app. simpl. f_equal. unfold u32_max. lia.
Qed.

Lemma succeed_agrees c fs e : agrees c fs e → agrees c [] (succeed_entry c e).
Proof. intros _. by destruct c. Qed.

Lemma streak_agrees name c events : ∀ catalog fs e,
  get name catalog = Some e → agrees c fs e →
  ∃ e', get name (foldl observe catalog events) = Some e' ∧ agrees c (foldl (streak_step name c) fs events) e'.
Proof.
  induction events as [|ev events IH]; intros catalog fs e Hg Ha; simpl; [by exists e|].
  destruct ev as [n c' error now|n c']; simpl; unfold record_failure_for, record_success_for;
    (eapply IH; [rewrite get_update, Hg; done|]);
    (destruct (decide (n = name)) as [->|Hn]; [|rewrite decide_False by naive_solver; exact Ha]);
    (destruct (decide (c' = c)) as [->|Hc]; [rewrite decide_True by done|rewrite decide_False by naive_solver]).
  - by apply fail_agrees.
  - by apply set_other.
  - by eapply succeed_agrees.
  - by apply (set_other c c' fs e 0 "").
Qed.

(** The interval in closed form: 30 seconds doubled for every failure after
    the third, at most 30 minutes. *)
Lemma reprobe_interval_closed n :
  3 ≤ n →
  reprobe_interval_for_failures (Z.min u32_max (Z.of_nat n)) = Z.min (secs 30 * 2 ^ (Z.of_nat n - 3)) (secs 1800).
Proof.
  intros Hn. unfold reprobe_interval_for_failures, CIRCUIT_BREAKER_THRESHOLD, MAX_REPROBE_INTERVAL, REPROBE_INTERVAL.
  change (30 * 60)%Z with 1800%Z.
  destruct (decide (n < 19)) as [Hs|Hs].
  - do 19 (destruct n as [|n]; [try lia; try reflexivity|]). lia.
  - replace (Z.min (Z.max 0 (Z.min u32_max (Z.of_nat n) - 3)) 16) with 16%Z by (unfold u32_max; lia).
    assert (2 ^ 6 <= 2 ^ (Z.of_nat n - 3))%Z by (apply Z.pow_le_mono_r; lia).
    change (Z.shiftl 1 16) with 65536%Z. unfold secs, duration_max, u64_max. lia.
Qed.

(** ** Bounded rows *)

Lemma compare_flip a b : String.compare a b = CompOpp (String.compare b a).
Proof. apply String.compare_antisym. Qed.

Lemma insert_row_place row rows :
  insert_row row rows = take (insert_place (row_name row) rows) rows ++ row :: drop (insert_place (row_name row) rows) rows.
Proof.
  induction rows as [|r rows IH]; simpl; [done|]. rewrite compare_flip.
  destruct (String.compare (row_name r) (row_name row)); simpl; [done|by rewrite IH|done].
Qed.

Lemma insert_place_le name rows : insert_place name rows ≤ length rows.
Proof. induction rows as [|r rows IH]; simpl; [done|]. destruct (String.compare _ _); simpl; lia. Qed.

Lemma insert_bounded_take rows row limit :
  length rows ≤ limit → insert_bounded_tool_row rows row limit = take limit (insert_row row rows).
Proof.
  intros Hl. unfold insert_bounded_tool_row. destruct (Nat.eqb_spec limit 0) as [->|Hne].
  { destruct rows; simpl in *; [done|lia]. }
  rewrite insert_row_place. pose proof (insert_place_le (row_name row) rows) as Hp. set (i := insert_place _ rows) in *.
  assert (length (take i rows ++ row :: drop i rows) = S (length rows)) as Hlen
    by (rewrite length_app; simpl; rewrite length_take, length_drop; lia).
  destruct (Nat.ltb_spec i limit) as [Hi|Hi].
  - destruct (Nat.ltb_spec limit (length (take i rows ++ row :: drop i rows))) as [Hb|Hb].
    + rewrite removelast_firstn_len, Hlen. by replace limit with (pred (S (length rows))) by lia.
    + by rewrite (take_ge (take i rows ++ _)) by lia.
  - assert (i = length rows) as -> by lia. rewrite take_app_le by (rewrite length_take; lia).
    rewrite take_take, take_ge by lia. done.
Qed.

Lemma take_insert n x rows : take n (insert_row x (take n rows)) = take n (insert_row x rows).
Proof.
  revert n. induction rows as [|r rows IH]; intros n; [by destruct n|]. destruct n as [|n]; [done|]. cbn [take insert_row].
  assert (take n (r :: take n rows) = take n (r :: rows)) as Ht.
  { destruct n as [|n]; [done|]. cbn [take]. f_equal. rewrite take_take. f_equal. lia. }
  destruct (String.compare _ _); cbn [take]; [by rewrite Ht|by rewrite Ht|by rewrite IH].
Qed.

(** The bounded insertion keeps the first rows of the sorted list of all. *)
Lemma bounded_rows limit rows :
  foldl (fun acc row => insert_bounded_tool_row acc row limit) [] rows = take limit (sort_rows (rev rows)).
Proof.
  induction rows as [|row rows IH] using rev_ind; [by destruct limit|].
  rewrite foldl_app, rev_app_distr. simpl. rewrite IH, insert_bounded_take by (rewrite length_take; lia). apply take_insert.
Qed.

(** ** Theorems *)

(** (C11) The circuit breaker implements "failures since the last success":
    after any sequence of recorded successes and failures, of any upstreams
    and capabilities, an upstream that started healthy is routable for a
    capability iff fewer than three failures of it followed its last success;
    it is due for a probe iff there were at least three and the quarantine,
    30 seconds doubled for each further failure and at most 30 minutes, has
    passed since the last one; and its last error is that failure's. *)
Theorem breaker_counts_streak name c events catalog e now :
  get name catalog = Some e → health_for c e = Healthy → unhealthy_since_for c e = None → last_error_for c e = None →
  let catalog' := foldl observe catalog events in
  let fs := streak name c events in
  ∃ e', get name catalog' = Some e' ∧
    (is_routable (health_for c e') = true ↔ length fs < 3) ∧
    (should_reprobe_for name c now catalog' = true ↔
       3 ≤ length fs ∧ ∃ t m, last fs = Some (t, m) ∧ (Z.min (secs 30 * 2 ^ (Z.of_nat (length fs) - 3)) (secs 1800) <= now - t)%Z) ∧
    last_error_for c e' = snd <$> last fs.
Proof.
  intros Hg Hh Hs Hl catalog' fs. destruct (streak_agrees name c events catalog [] e Hg) as (e' & Hg' & Hh' & Hs' & Hl');
    [by split_and!|]. exists e'. fold catalog' in Hg'. fold (streak name c events) fs in Hh', Hs', Hl'.
  assert (∀ n, bool_decide (CIRCUIT_BREAKER_THRESHOLD <= Z.min u32_max (Z.of_nat n))%Z = true ↔ 3 ≤ n) as Hb
    by (intros n; rewrite bool_decide_eq_true; unfold CIRCUIT_BREAKER_THRESHOLD, u32_max; lia).
  split_and!; [done| | |done].
  - rewrite Hh'. unfold is_routable, is_open. destruct fs as [|x fs']; [simpl; split; [lia|done]|].
    rewrite negb_true_iff, <- not_true_iff_false, Hb. lia.
  - unfold should_reprobe_for. rewrite Hg', Hh', Hs'. destruct fs as [|x fs'] eqn:Ef; [simpl; split; [done|lia]|].
    destruct (last (x :: fs')) as [[t m]|] eqn:El; [|by apply last_None in El]. cbn [fmap option_fmap option_map fst].
    rewrite andb_true_iff, Hb, bool_decide_eq_true. split; (intros [Hn Hi]; split; [done|]).
    + rewrite reprobe_interval_closed in Hi by done. exists t, m. split; [done|]. revert Hi. unfold elapsed.
      assert (0 < Z.min (secs 30 * 2 ^ (Z.of_nat (length (x :: fs')) - 3)) (secs 1800))%Z by (unfold secs; lia). lia.
    + destruct Hi as (t' & m' & [= <- <-] & Hi). rewrite reprobe_interval_closed by done. unfold elapsed. lia.
Qed.

(** What the gateway lists and routes to is exposed and healthy: every
    tool listed belongs to an upstream of the route's scope that is not
    quarantined and is admitted by that upstream's policy, at most 1,000 are
    listed, the list of names is that of the tools, and the candidates for a
    call are exactly the usable upstreams that expose a tool of the name. *)
Theorem listed_and_routed_tools allowed catalog tool :
  Forall (fun t => ∃ n e, (n, e) ∈ catalog ∧ usable allowed (n, e) ∧ t ∈ (e_tools e).*2 ∧
                   policy_matches (e_exposure_policy e) (tool_name (ut_tool t)) = true)
    (healthy_tools_allowed allowed catalog ++ healthy_ui_tools_allowed allowed catalog) ∧
  length (healthy_tools_allowed allowed catalog) ≤ 1000 ∧
  healthy_tool_names_allowed allowed catalog = (tool_name ∘ ut_tool) <$> healthy_tools_allowed allowed catalog ∧
  ∀ n t, (n, t) ∈ find_exposed_tool_candidates_allowed tool allowed catalog ↔
    ∃ e, (n, e) ∈ catalog ∧ usable allowed (n, e) ∧ get tool (e_tools e) = Some t ∧
      policy_matches (e_exposure_policy e) (tool_name (ut_tool t)) = true.
Proof.
  split_and!.
  - apply Forall_app. split; apply Forall_forall; intros t; apply elem_listed.
  - unfold healthy_tools_allowed. rewrite capped_take, length_take. unfold MAX_UPSTREAM_TOOLS. lia.
  - unfold healthy_tool_names_allowed, healthy_tools_allowed. by rewrite bind_fmap, !capped_take, fmap_take.
  - intros n t. apply elem_candidates.
Qed.

(** A configured list of patterns exposes no tool beyond its meaning: a
    tool of an upstream with a list is exposed only if every entry of the list
    is a pattern and the name is an instance of one of them, each star
    standing for some string; a list with a blank entry exposes nothing. *)
Theorem exposure_policy_sound patterns proxy name tool :
  policy_matches (e_exposure_policy (lazy_upstream_entry (Some patterns) proxy name)) tool = true →
  Forall (fun p => Str.trim p ≠ "") patterns ∧ ∃ p, p ∈ patterns ∧ glob (Str.trim p) tool.
Proof. apply policy_matches_glob. Qed.

Lemma exposure_policy_sound_witness : ∃ p, p ∈ ["search_repos"; "github_*"] ∧ glob (Str.trim p) "github_create".
Proof.
  apply (exposure_policy_sound ["search_repos"; "github_*"] true "gh" "github_create"). vm_compute. reflexivity.
Defined.

(** The converse fails: the matches searched do not overlap, so a part that
    overlaps the one before it is not found. *)
Lemma overlapping_parts_missed :
  glob "a*aa" "aaa" ∧
  policy_matches (e_exposure_policy (lazy_upstream_entry (Some ["a*aa"]) true "u")) "aaa" = false.
Proof. split; [by apply wildcard_exact|by vm_compute]. Qed.

(** Three failures, then a probe 31 seconds after the last. *)
Lemma breaker_counts_streak_witness :
  let events := [Failed "u" Tools "down" 0; Failed "u" Prompts "no" 1; Failed "u" Tools "down" (secs 1); Failed "u" Tools "gone" (secs 2)] in
  ∃ e', get "u" (foldl observe [("u", lazy_upstream_entry None true "u")] events) = Some e' ∧
    (is_routable (health_for Tools e') = true ↔ length (streak "u" Tools events) < 3) ∧
    (should_reprobe_for "u" Tools (secs 33) (foldl observe [("u", lazy_upstream_entry None true "u")] events) = true ↔
       3 ≤ length (streak "u" Tools events) ∧ ∃ t m, last (streak "u" Tools events) = Some (t, m) ∧
         (Z.min (secs 30 * 2 ^ (Z.of_nat (length (streak "u" Tools events)) - 3)) (secs 1800) <= secs 33 - t)%Z) ∧
    last_error_for Tools e' = snd <$> last (streak "u" Tools events).
Proof.
  intros events.
  apply (breaker_counts_streak "u" Tools events [("u", lazy_upstream_entry None true "u")] (lazy_upstream_entry None true "u") (secs 33));
    reflexivity.
Defined.
