(* ===== verification/Paths.v ===== *)
(** * Paths: host paths, virtual paths and path safety

    [std::path::Path] as the sources use it (components, join, push, pop,
    prefixes), the lexical and symlink guards of
    [labby-runtime/src/path_safety.rs], the error type of
    [labby-runtime/src/error.rs], and the virtual paths of
    [labby-codemode/src/state/path.rs]: what a caller of Code Mode may name.
    Paths are Unix paths. *)

From Stdlib Require Import Ascii.
From stdpp Require Import base list gmap strings.
From S2P Require Import Prelude RustStr.

(** ** Errors (labby-runtime/src/error.rs) *)

Inductive ToolError : Type :=
| UnknownAction (message : string) (valid : list string) (hint : option string)
| MissingParam (message param : string)
| InvalidParam (message param : string)
| UnknownInstance (message : string) (valid : list string)
| AmbiguousTool (message : string) (valid : list string)
| ConfirmationRequired (message : string)
| Conflict (message existing_id : string)
| ForbiddenScopes (message : string) (required_scopes : list string)
| Sdk (sdk_kind message : string).

#[global] Instance ToolError_eq_dec : EqDecision ToolError.
Proof. solve_decision. Defined.

Definition tool_kind (e : ToolError) : string :=
  match e with
  | UnknownAction _ _ _ => "unknown_action"
  | MissingParam _ _ => "missing_param"
  | InvalidParam _ _ => "invalid_param"
  | UnknownInstance _ _ => "unknown_instance"
  | AmbiguousTool _ _ => "ambiguous_tool"
  | ConfirmationRequired _ => "confirmation_required"
  | Conflict _ _ => "conflict"
  | ForbiddenScopes _ _ => "forbidden"
  | Sdk k _ => k
  end.

(** ** Host paths *)

Inductive Component := RootDir | CurDir | ParentDir | Normal (name : string).

#[global] Instance Component_eq_dec : EqDecision Component.
Proof. solve_decision. Defined.

(** A path is the list of its components. *)
Notation PathBuf := (list Component) (only parsing).

Definition component_of (piece : string) : option Component :=
  if Str.is_empty piece then None
  else if String.eqb piece "." then None
  else if String.eqb piece ".." then Some ParentDir
  else Some (Normal piece).

(** [Path::components]: separators are collapsed, and [.] is kept only at the
    start of a relative path. *)
Definition components (s : string) : PathBuf :=
  match Str.split "/" s with
  | [] => []
  | first :: rest =>
      let head :=
        if Str.starts_with "/" s then [RootDir]
        else if String.eqb first "." then [CurDir]
        else match component_of first with Some c => [c] | None => [] end in
      head ++ omap component_of rest
  end.

Definition as_os_str (c : Component) : string :=
  match c with RootDir => "/" | CurDir => "." | ParentDir => ".." | Normal s => s end.

(** [PathBuf::push] of one component and [PathBuf::join] of a relative path. *)
Definition push (p : PathBuf) (c : Component) : PathBuf :=
  match c with RootDir => [RootDir] | CurDir => p | other => p ++ [other] end.
Definition join_path (p rel : PathBuf) : PathBuf := foldl push p rel.

(** [PathBuf::pop]: the root and the empty path have no parent. *)
Definition parent (p : PathBuf) : option PathBuf :=
  match reverse p with
  | [] => None
  | RootDir :: _ => None
  | _ :: r => Some (reverse r)
  end.
Definition pop (p : PathBuf) : PathBuf := default p (parent p).

(** [Path::strip_prefix], and [starts_with] by components. *)
Fixpoint strip_prefix_path (base p : PathBuf) : option PathBuf :=
  match base, p with
  | [], _ => Some p
  | c :: base', d :: p' => if bool_decide (c = d) then strip_prefix_path base' p' else None
  | _ :: _, [] => None
  end.
Definition starts_with_path (base p : PathBuf) : bool := bool_decide (is_Some (strip_prefix_path base p)).

(** ** path_safety.rs *)

Definition reject_path_traversal (rel_path : string) : result unit ToolError :=
  if existsb (fun c => match c with ParentDir | RootDir => true | _ => false end) (components rel_path)
  then Err (Sdk "path_traversal" ("path traversal rejected: `" +:+ rel_path
                +:+ "` must be a relative path with only normal components"))
  else Ok ().

Definition normalize_lexical (path : PathBuf) : PathBuf :=
  foldl (fun out c => match c with ParentDir => pop out | CurDir => out | other => push out other end) [] path.

Definition rel_to_unix_string (path : PathBuf) : string := Str.join "/" (as_os_str <$> path).

(** [/etc] and the other roots that are never read or written. *)
Definition SENSITIVE_READ_PATH_DENYLIST : list string :=
  ["/etc"; "/usr"; "/bin"; "/sbin"; "/lib"; "/lib64"; "/boot"; "/dev"; "/proc"; "/sys"; "/var"; "/run"; "/root";
   "/opt"; "/srv"; "/app"; "/data"; "/config"; "/mnt"; "/media"; "/storage"].
Definition SENSITIVE_WRITE_PATH_DENYLIST : list string := SENSITIVE_READ_PATH_DENYLIST.

Fixpoint reject_path_against_denylist (canonical original : string) (denylist : list string) : result unit ToolError :=
  match denylist with
  | [] => Ok ()
  | system :: rest =>
      if String.eqb canonical system || Str.starts_with (system +:+ "/") canonical
      then Err (Sdk "path_traversal" ("path `" +:+ original +:+ "` resolves to a sensitive system path (`"
                    +:+ system +:+ "`) and is not allowed"))
      else reject_path_against_denylist canonical original rest
  end.

(** ** Virtual paths (state/path.rs) *)

Notation VirtualPath := string (only parsing).

(** [str::replace] of one character by another. *)
Fixpoint replace_char (a b : ascii) (s : string) : string :=
  match s with
  | EmptyString => EmptyString
  | String c r => String (if Ascii.eqb c a then b else c) (replace_char a b r)
  end.

Definition is_ascii_alphabetic (a : ascii) : bool :=
  let n := Ascii.nat_of_ascii a in ((65 <=? n) && (n <=? 90)) || ((97 <=? n) && (n <=? 122)).

Definition has_windows_drive_prefix (path : string) : bool :=
  match path with
  | String a (String ":" _) => is_ascii_alphabetic a
  | _ => false
  end.

Definition path_traversal (raw : string) : ToolError :=
  Sdk "path_traversal" ("state path `" +:+ raw +:+ "` escapes the workspace").

Definition is_reserved_metadata_path (path : string) : bool :=
  existsb (fun part => Str.eq_ignore_ascii_case part ".git" || Str.eq_ignore_ascii_case part ".labby-state")
    (Str.split "/" path).

Definition denied_needles : list string :=
  [".env"; ".ssh/"; ".aws/"; ".config/gcloud/"; ".netrc"; "id_rsa"; "id_ed25519"].

Definition reject_credential_like_path (path : string) : result unit ToolError :=
  let lower := Str.to_ascii_lowercase path in
  if is_reserved_metadata_path lower
  then Err (Sdk "permission_denied" "state path is denied because runtime metadata is managed by Labby")
  else if existsb (fun needle => String.eqb lower needle || Str.contains needle lower) denied_needles
  then Err (Sdk "permission_denied" "state path is denied because it looks credential-related")
  else Ok ().

Definition must_name : ToolError :=
  InvalidParam "state path must name a file or directory inside the workspace" "path".

(** The names of the components, or the refusal of the first one that escapes. *)
Fixpoint normal_parts (raw : string) (cs : PathBuf) : result (list string) ToolError :=
  match cs with
  | [] => Ok []
  | Normal part :: rest =>
      let? parts := normal_parts raw rest in Ok (if Str.is_empty part then parts else part :: parts)
  | CurDir :: rest => normal_parts raw rest
  | ParentDir :: _ | RootDir :: _ => Err (path_traversal raw)
  end.

Definition parse (raw : string) : result VirtualPath ToolError :=
  let trimmed := Str.trim raw in
  if Str.is_empty trimmed || String.eqb trimmed "/" then Err must_name
  else
    let normalized := replace_char "\" "/" trimmed in
    if has_windows_drive_prefix normalized then Err (path_traversal raw)
    else
      let stripped := Str.trim_start_matches "/" normalized in
      let? parts := normal_parts raw (components stripped) in
      match parts with
      | [] => Err must_name
      | _ =>
          let value := Str.join "/" parts in
          let? _ := reject_credential_like_path value in Ok value
      end.

Definition parse_read_scope (raw : string) : result VirtualPath ToolError :=
  let trimmed := Str.trim raw in
  if Str.is_empty trimmed || String.eqb trimmed "." || String.eqb trimmed "/" then Ok "" else parse raw.

Example parse_ex1 : parse "/src\\app.rs" = Ok "src/app.rs".
Proof. vm_compute. reflexivity. Qed.
Example parse_ex2 : is_ok (parse "/../secret") = false ∧ is_ok (parse "C:relative") = false
  ∧ is_ok (parse "src/.git/config") = false ∧ parse "docs/foo.gitkeep" = Ok "docs/foo.gitkeep".
Proof. vm_compute. done. Qed.

(** ** Splitting and joining at a separator *)

Fixpoint lacks (c : ascii) (s : string) : bool :=
  match s with EmptyString => true | String a r => negb (Ascii.eqb a c) && lacks c r end.

Lemma split_lacks c s : lacks c s = true → Str.split c s = [s].
Proof.
  induction s as [|a s IH]; [done|]. simpl. intros Hs. split_bools. by rewrite H, IH.
Qed.

Lemma split_app c s t : lacks c s = true → Str.split c (s +:+ String c t) = s :: Str.split c t.
Proof.
  induction s as [|a s IH]; intros Hs; rewrite ?Str.app_cons, ?Str.app_nil_l; simpl in *.
  - by rewrite Ascii.eqb_refl.
  - split_bools. by rewrite H, IH.
Qed.

(** Splitting undoes joining when no piece contains the separator. *)
Lemma split_join c l :
  l ≠ [] → Forall (fun s => lacks c s = true) l → Str.split c (Str.join (String c "") l) = l.
Proof.
  intros Hne Hl. induction Hl as [|s l Hs Hl IH]; [done|]. destruct l as [|t l].
  - by apply split_lacks.
  - change (Str.join (String c "") (s :: t :: l)) with (s +:+ String c (Str.join (String c "") (t :: l))).
    rewrite split_app by done. by rewrite IH.
Qed.

Lemma split_pieces c s : Forall (fun p => lacks c p = true) (Str.split c s).
Proof.
  induction s as [|a s IH]; simpl; [by constructor|].
  destruct (Ascii.eqb a c) eqn:E; [by constructor|].
  destruct IH as [|h t Hh Ht]; simpl; [constructor; [simpl; by rewrite E|constructor]|].
  constructor; [simpl; by rewrite E|done].
Qed.

(** ** Proper names *)

(** A name a directory entry can have. *)
Definition proper (s : string) : Prop := component_of s = Some (Normal s) ∧ lacks "/" s = true.

Lemma component_of_Normal s n : component_of s = Some (Normal n) → s = n ∧ n ≠ "" ∧ n ≠ "." ∧ n ≠ "..".
Proof.
  unfold component_of. destruct (Str.is_empty s) eqn:E1; [done|].
  destruct (String.eqb_spec s "."); [done|]. destruct (String.eqb_spec s ".."); [done|].
  intros [= <-]. split_and!; [done|by intros ->|done|done].
Qed.

Lemma proper_neq s : proper s → s ≠ "" ∧ s ≠ "." ∧ s ≠ "..".
Proof. intros [Hc _]. by apply component_of_Normal in Hc as (_ & ? & ? & ?). Qed.

(** The names among the components of any string are proper. *)
Lemma components_proper s n : Normal n ∈ components s → proper n.
Proof.
  unfold components. pose proof (split_pieces "/" s) as Hp. destruct (Str.split "/" s) as [|first rest]; [set_solver|].
  apply Forall_cons in Hp as [Hf Hr]. rewrite elem_of_app. intros [Hn|Hn].
  - destruct (Str.starts_with "/" s); [set_solver|]. destruct (String.eqb first "."); [set_solver|].
    destruct (component_of first) eqn:E; [|set_solver]. apply list_elem_of_singleton in Hn as <-.
    pose proof (component_of_Normal _ _ E) as [<- _]. by split.
  - apply list_elem_of_omap in Hn as (p & Hp & E). rewrite Forall_forall in Hr.
    pose proof (component_of_Normal _ _ E) as [<- _]. split; [done|by apply Hr].
Qed.

Lemma starts_with_slash s : lacks "/" s = true → s ≠ "" → ∀ t, Str.starts_with "/" (s +:+ t) = false.
Proof.
  destruct s as [|a s]; [done|]. intros Hs _ t. rewrite Str.app_cons. cbn [Str.starts_with lacks] in *. split_bools.
  rewrite Ascii.eqb_sym, H. done.
Qed.

Lemma join_head sep x l : ∃ t, Str.join sep (x :: l) = x +:+ t.
Proof. destruct l; [exists ""; by rewrite Str.app_nil_r|by eexists]. Qed.

(** A path made of proper names has exactly these components. *)
Lemma components_join parts :
  parts ≠ [] → Forall proper parts → components (Str.join "/" parts) = Normal <$> parts.
Proof.
  intros Hne Hp. unfold components.
  rewrite (split_join "/" parts Hne) by (eapply Forall_impl; [exact Hp|by intros ? []]).
  destruct Hp as [|x l Hx Hl]; [done|]. destruct (join_head "/" x l) as [t ->].
  rewrite starts_with_slash by (apply Hx || by apply proper_neq).
  destruct (proper_neq x Hx) as (_ & Hdot & _). apply String.eqb_neq in Hdot as ->.
  destruct Hx as [-> _]. simpl. f_equal.
  induction Hl as [|y l [Hy _] _ IH]; [done|]. cbn. rewrite Hy. f_equal. by apply IH.
Qed.

Lemma join_path_normal root parts : join_path root (Normal <$> parts) = root ++ (Normal <$> parts).
Proof.
  unfold join_path. revert root. induction parts as [|x l IH]; intros root; simpl; [by rewrite app_nil_r|].
  rewrite IH. by rewrite <- app_assoc.
Qed.

Lemma strip_prefix_app base p : strip_prefix_path base (base ++ p) = Some p.
Proof. induction base as [|c base IH]; simpl; [done|]. by rewrite bool_decide_true. Qed.

Lemma strip_prefix_Some base p r : strip_prefix_path base p = Some r ↔ p = base ++ r.
Proof.
  split; [|intros ->; apply strip_prefix_app]. revert p. induction base as [|c base IH]; intros p; simpl; [congruence|].
  destruct p as [|d p]; [done|]. case_bool_decide; [subst|done]. intros ->%IH. done.
Qed.

(** A normalised path: what [normalize_lexical] returns unchanged. *)
Definition plain (p : PathBuf) : bool :=
  match p with
  | RootDir :: r => forallb (fun c => match c with Normal _ => true | _ => false end) r
  | r => forallb (fun c => match c with Normal _ => true | _ => false end) r
  end.

Lemma normalize_normals acc l :
  forallb (fun c => match c with Normal _ => true | _ => false end) l = true →
  foldl (fun out c => match c with ParentDir => pop out | CurDir => out | other => push out other end) acc l = acc ++ l.
Proof.
  revert acc. induction l as [|c l IH]; intros acc Hl; simpl in *; [by rewrite app_nil_r|].
  split_bools. destruct c; try done. rewrite IH by done. simpl. by rewrite <- app_assoc.
Qed.

Lemma normalize_plain p : plain p = true → normalize_lexical p = p.
Proof.
  unfold normalize_lexical. destruct p as [|[] p]; simpl; intros Hp; try done.
  - by rewrite normalize_normals.
  - by rewrite normalize_normals.
Qed.

Lemma plain_app p parts : plain p = true → plain (p ++ (Normal <$> parts)) = true.
Proof.
  assert (forallb (fun c => match c with Normal _ => true | _ => false end) (Normal <$> parts) = true) as Hn
    by (induction parts; done).
  destruct p as [|[] p]; simpl; intros Hp; try done.
  - destruct parts; done.
  - by rewrite forallb_app, Hp, Hn.
  - by rewrite forallb_app, Hp, Hn.
Qed.

(** ** What a virtual path can name *)

Lemma normal_parts_Ok raw cs parts :
  normal_parts raw cs = Ok parts → (∀ n, n ∈ parts → Normal n ∈ cs) ∧ Forall (fun c => c ≠ ParentDir ∧ c ≠ RootDir) cs.
Proof.
  revert parts. induction cs as [|c cs IH]; intros parts; simpl; [intros [= <-]; split; [set_solver|constructor]|].
  destruct c as [| | |part]; try done.
  - intros [Hm Hf]%IH. split; [set_solver|by constructor].
  - destruct (normal_parts raw cs) as [ps|e]; [|done]. intros [= <-]. destruct (IH ps eq_refl) as [Hm Hf].
    split; [|by constructor]. intros n. destruct (Str.is_empty part); set_solver.
Qed.

Lemma split_lowercase c s :
  Str.lower_ascii c = c → (∀ a, Str.lower_ascii a = c → a = c) →
  Str.split c (Str.to_ascii_lowercase s) = Str.to_ascii_lowercase <$> Str.split c s.
Proof.
  intros Hc Hinv. induction s as [|a s IH]; simpl; [done|].
  destruct (Ascii.eqb_spec a c) as [->|Hn].
  - rewrite Hc, Ascii.eqb_refl. simpl. by rewrite IH.
  - destruct (Ascii.eqb_spec (Str.lower_ascii a) c) as [E|_]; [by apply Hinv in E|].
    rewrite IH. by destruct (Str.split c s).
Qed.

Lemma lower_slash a : Str.lower_ascii a = "/"%char → a = "/"%char.
Proof. by destruct a as [[] [] [] [] [] [] [] []]. Qed.

Lemma lowercase_idem s : Str.to_ascii_lowercase (Str.to_ascii_lowercase s) = Str.to_ascii_lowercase s.
Proof. induction s as [|a s IH]; simpl; [done|]. by rewrite Str.lower_ascii_idem, IH. Qed.

(** The metadata test does not depend on the case of the path. *)
Lemma reserved_lowercase s : is_reserved_metadata_path (Str.to_ascii_lowercase s) = is_reserved_metadata_path s.
Proof.
  unfold is_reserved_metadata_path. rewrite (split_lowercase "/") by (done || apply lower_slash).
  induction (Str.split "/" s) as [|p l IH]; [done|]. rewrite fmap_cons. cbn [existsb]. rewrite IH. f_equal.
  unfold Str.eq_ignore_ascii_case. by rewrite lowercase_idem.
Qed.

Lemma virtual_path_confined_parts raw v root :
  parse raw = Ok v →
  ∃ parts, parts ≠ [] ∧ v = Str.join "/" parts ∧ Forall proper parts ∧
    join_path root (components v) = root ++ (Normal <$> parts) ∧
    is_reserved_metadata_path v = false ∧
    ∀ needle, needle ∈ denied_needles → Str.contains needle (Str.to_ascii_lowercase v) = false.
Proof.
  unfold parse. destruct (_ || _); [done|]. destruct (has_windows_drive_prefix _); [done|].
  destruct (normal_parts raw _) as [parts|e] eqn:E; [|done]. destruct parts as [|p ps] eqn:Ep; [done|].
  rewrite <- Ep in *. unfold reject_credential_like_path.
  destruct (is_reserved_metadata_path _) eqn:Er; [done|]. destruct (existsb _ _) eqn:En; [done|]. intros [= <-].
  apply normal_parts_Ok in E as [Hm _]. exists parts.
  assert (parts ≠ []) as Hne by by rewrite Ep.
  assert (Forall proper parts) as Hp by (apply Forall_forall; intros n Hn; by eapply components_proper, Hm).
  split_and!; [done|done|done|by rewrite components_join, join_path_normal|by rewrite <- reserved_lowercase|].
  intros needle Hn. apply not_true_iff_false. intros Hc. apply not_true_iff_false in En. destruct En.
  apply existsb_elem. exists needle. split; [done|]. by rewrite Hc, orb_true_r.
Qed.

(** (C36) Every virtual path names something strictly inside the workspace:
    its components are one or more proper names (no empty name, no [.] or
    [..], no separator), joining it to a root appends exactly these names, and
    it is neither in the metadata directories nor credential-like.  Whatever
    the caller wrote (roots, dots, backslashes, white space) is resolved or
    refused here. *)
Theorem virtual_path_confined raw v root :
  parse raw = Ok v →
  ∃ parts, parts ≠ [] ∧ v = Str.join "/" parts ∧ Forall proper parts ∧
    join_path root (components v) = root ++ (Normal <$> parts) ∧
    is_reserved_metadata_path v = false ∧
    ∀ needle, needle ∈ denied_needles → Str.contains needle (Str.to_ascii_lowercase v) = false.
Proof. apply virtual_path_confined_parts. Qed.

Lemma virtual_path_confined_witness :
  ∃ parts, parts ≠ [] ∧ "src/app.rs" = Str.join "/" parts ∧ Forall proper parts ∧
    join_path [RootDir; Normal "ws"] (components "src/app.rs") = [RootDir; Normal "ws"] ++ (Normal <$> parts) ∧
    is_reserved_metadata_path "src/app.rs" = false ∧
    ∀ needle, needle ∈ denied_needles → Str.contains needle (Str.to_ascii_lowercase "src/app.rs") = false.
Proof. apply (virtual_path_confined " /./src//app.rs "). vm_compute. reflexivity. Defined.
