(* ===== verification/Fs.v ===== *)
(** * Fs: the host file system under a workspace

    The [std::fs] and [tokio::fs] calls of Code Mode's workspace as effects,
    and their execution on a file system: the entries at and below the
    workspace root, keyed by their names.  A call whose resolution would leave
    that tree (through a symbolic link, or by a path outside the root) sets
    [w_escaped]: nothing is said of what it does out there.  Any call may fail
    at any time ([w_faults]); a failing call that works in steps may have
    completed some of them. *)

From Stdlib Require Import Ascii.
From stdpp Require Import base list gmap strings fin_maps.
From S2P Require Import Prelude RustStr Prog Paths.

(** ** Nodes and keys *)

Inductive Node := NFile (content : string) | NDir | NSymlink | NSpecial.

#[global] Instance Node_eq_dec : EqDecision Node.
Proof. solve_decision. Defined.

Notation Key := (list string) (only parsing).
Notation FS := (gmap (list string) Node) (only parsing).

(** The part of [std::io::ErrorKind] the sources distinguish. *)
Inductive IoError := NotFound | AlreadyExists | OtherIo (message : string).

Record Metadata := mkMetadata { md_node : Node; md_len : Z }.
Definition is_file (m : Metadata) : bool := match md_node m with NFile _ => true | _ => false end.
Definition is_dir (m : Metadata) : bool := match md_node m with NDir => true | _ => false end.
Definition is_symlink (m : Metadata) : bool := match md_node m with NSymlink => true | _ => false end.

(** ** Effects

    [CreateNew] is [open] with [O_CREAT | O_EXCL].  [CreateNewDir] is the same
    call on a path spelled as a directory's, with a trailing [/] or [/.]
    ([dot]): it never creates anything. *)

Inductive FsEff :=
| SymlinkMetadata (p : list Component)
| FollowMetadata (p : list Component)
| CreateDirAll (p : list Component)
| CreateNew (p : list Component)
| CreateNewDir (dot : bool) (p : list Component)
| WriteAll (p : list Component) (content : string)
| Flush (p : list Component)
| Rename (from to : list Component)
| RemoveFile (p : list Component)
| RemoveDir (p : list Component)
| RemoveDirAll (p : list Component)
| ReadDir (p : list Component)
| OpenFile (p : list Component)
| ReadTake (p : list Component) (n : Z)
| WriteFile (p : list Component) (content : string)
| NewUlid.

Definition fresp (e : FsEff) : Type :=
  match e with
  | SymlinkMetadata _ | FollowMetadata _ => result Metadata IoError
  | ReadDir _ => result (list (result string IoError)) IoError
  | ReadTake _ _ => result string IoError
  | NewUlid => string
  | _ => result unit IoError
  end.

Notation F := (prog fresp).

(** ** The world the effects act on *)

Record World := mkWorld {
  w_root : list Component;
  w_fs : FS;
  w_escaped : bool;
  w_faults : list (option nat);
  w_ulids : list string;
  w_dir_len : Z;
}.

Definition set_fs (fs : FS) (w : World) : World :=
  mkWorld (w_root w) fs (w_escaped w) (w_faults w) (w_ulids w) (w_dir_len w).
Definition escape (w : World) : World :=
  mkWorld (w_root w) (w_fs w) true (w_faults w) (w_ulids w) (w_dir_len w).

(** The names below the root, when the path is one. *)
Fixpoint names_of (p : list Component) : option Key :=
  match p with
  | [] => Some []
  | Normal n :: r => match names_of r with Some k => Some (n :: k) | None => None end
  | _ => None
  end.
Definition key_of (root p : list Component) : option Key :=
  match strip_prefix_path root p with Some r => names_of r | None => None end.

(** Resolution of the directories leading to an entry. *)
Inductive Walk := At (n : option Node) | Missing | NotADirectory | Escapes.
Fixpoint walk (fs : FS) (pre rest : Key) : Walk :=
  match rest with
  | [] => At (fs !! pre)
  | c :: r =>
      match fs !! pre with
      | Some NDir => walk fs (pre ++ [c]) r
      | None => Missing
      | Some NSymlink => Escapes
      | Some _ => NotADirectory
      end
  end.

Definition io (message : string) : IoError := OtherIo message.

(** One call on the entry at [p]; [follow] for the calls that follow a link in
    the last position. *)
Definition at_path {X} (w : World) (follow : bool) (p : list Component)
    (k : Key → option Node → result X IoError * FS) : result X IoError * World :=
  match key_of (w_root w) p with
  | None => (Err (io "outside the root"), escape w)
  | Some key =>
      match walk (w_fs w) [] key with
      | At n =>
          if follow && bool_decide (n = Some NSymlink) then (Err (io "followed a link"), escape w)
          else let '(r, fs) := k key n in (r, set_fs fs w)
      | Missing => (Err NotFound, w)
      | NotADirectory => (Err (io "not a directory"), w)
      | Escapes => (Err (io "followed a link"), escape w)
      end
  end.

(** [create_dir_all]: the missing directories, outermost first; it fails after
    creating [limit] of them. *)
Fixpoint mkdirs (limit : option nat) (fs : FS) (pre rest : Key) : (result unit IoError * FS) * bool :=
  let next fs limit := match rest with [] => (Ok (), fs, false) | c :: r => mkdirs limit fs (pre ++ [c]) r end in
  match fs !! pre with
  | Some NDir => next fs limit
  | Some NSymlink => (Err (io "followed a link"), fs, true)
  | Some _ => (Err (io "file exists"), fs, false)
  | None =>
      match limit with
      | Some 0 => (Err (io "fault"), fs, false)
      | Some (S n) => next (<[pre := NDir]> fs) (Some n)
      | None => next (<[pre := NDir]> fs) None
      end
  end.

(** The entry is [d] itself or below it. *)
Definition under (d k : Key) : Prop := d `prefix_of` k.
#[global] Instance under_dec d k : Decision (under d k).
Proof. unfold under. apply _. Defined.

Definition child_name (d k : Key) : option string :=
  match reverse k with
  | c :: r => if bool_decide (reverse r = d) then Some c else None
  | [] => None
  end.
(** The names in a directory, in the order of the map. *)
Definition children (fs : FS) (d : Key) : list string := omap (fun kv => child_name d kv.1) (map_to_list fs).

Definition remove_tree (d : Key) (fs : FS) : FS := filter (fun kv => ¬ under d kv.1) fs.

(** The exchange of two subtrees; [rename] applies it after removing the
    destination. *)
Definition exchange (a b k : Key) : Key :=
  if decide (under a k) then b ++ drop (length a) k
  else if decide (under b k) then a ++ drop (length b) k
  else k.

Definition rename_keys (a b : Key) (fs : FS) : FS := kmap (exchange a b) (remove_tree b fs).

(** [rename(2)]: a file replaces a file, a directory only an empty directory. *)
Definition rename_at (a b : Key) (src dst : option Node) (fs : FS) : result unit IoError * FS :=
  match src with
  | None => (Err NotFound, fs)
  | Some node =>
      if bool_decide (a = b) then (Ok (), fs)
      else if bool_decide (under a b) then (Err (io "invalid argument"), fs)
      else
        match node, dst with
        | NDir, None => (Ok (), rename_keys a b fs)
        | NDir, Some NDir =>
            match children fs b with
            | [] => (Ok (), rename_keys a b fs)
            | _ => (Err (io "directory not empty"), fs)
            end
        | NDir, Some _ => (Err (io "not a directory"), fs)
        | _, Some NDir => (Err (io "is a directory"), fs)
        | _, _ => (Ok (), rename_keys a b fs)
        end
  end.

Definition metadata_of (w : World) (n : Node) : Metadata :=
  mkMetadata n (match n with NFile c => Str.len c | NDir => w_dir_len w | _ => 0 end).

Definition lookup_metadata (w : World) (n : option Node) : result Metadata IoError :=
  match n with Some n => Ok (metadata_of w n) | None => Err NotFound end.

(** [AsyncReadExt::take]: at most [n] bytes. *)
Definition take_bytes (n : Z) (s : string) : string :=
  if bool_decide (Str.len s <= n)%Z then s else Str.take (Z.to_nat n) s.

(** A call without a fault. *)
Definition host_ok (e : FsEff) (w : World) : fresp e * World :=
  match e as e return fresp e * World with
  | SymlinkMetadata p => at_path w false p (fun _ n => (lookup_metadata w n, w_fs w))
  | FollowMetadata p => at_path w true p (fun _ n => (lookup_metadata w n, w_fs w))
  | CreateDirAll p =>
      match key_of (w_root w) p with
      | None => (Err (io "outside the root"), escape w)
      | Some key =>
          let '(r, fs, esc) := mkdirs None (w_fs w) [] key in
          (r, if esc then escape (set_fs fs w) else set_fs fs w)
      end
  | CreateNew p => at_path w false p (fun key n =>
      match n with
      | None => (Ok (), <[key := NFile EmptyString]> (w_fs w))
      | Some _ => (Err AlreadyExists, w_fs w)
      end)
  | CreateNewDir dot p => at_path w dot p (fun _ n =>
      (Err (if dot then match n with Some NDir => AlreadyExists | Some _ => io "not a directory" | None => NotFound end
            else io "is a directory"), w_fs w))
  | WriteAll p content => at_path w true p (fun key n =>
      match n with
      | Some (NFile c) => (Ok (), <[key := NFile (c +:+ content)]> (w_fs w))
      | _ => (Err (io "bad descriptor"), w_fs w)
      end)
  | Flush _ => (Ok (), w)
  | Rename a b =>
      match key_of (w_root w) a, key_of (w_root w) b with
      | Some ka, Some kb =>
          match walk (w_fs w) [] ka, walk (w_fs w) [] kb with
          | Escapes, _ | _, Escapes => (Err (io "followed a link"), escape w)
          | Missing, _ | _, Missing => (Err NotFound, w)
          | NotADirectory, _ | _, NotADirectory => (Err (io "not a directory"), w)
          | At src, At dst => let '(r, fs) := rename_at ka kb src dst (w_fs w) in (r, set_fs fs w)
          end
      | _, _ => (Err (io "outside the root"), escape w)
      end
  | RemoveFile p => at_path w false p (fun key n =>
      match n with
      | None => (Err NotFound, w_fs w)
      | Some NDir => (Err (io "is a directory"), w_fs w)
      | Some _ => (Ok (), delete key (w_fs w))
      end)
  | RemoveDir p => at_path w false p (fun key n =>
      match n with
      | None => (Err NotFound, w_fs w)
      | Some NDir =>
          match children (w_fs w) key with
          | [] => (Ok (), delete key (w_fs w))
          | _ => (Err (io "directory not empty"), w_fs w)
          end
      | Some _ => (Err (io "not a directory"), w_fs w)
      end)
  | RemoveDirAll p => at_path w false p (fun key n =>
      match n with
      | None => (Err NotFound, w_fs w)
      | Some NDir => (Ok (), remove_tree key (w_fs w))
      | Some _ => (Err (io "not a directory"), w_fs w)
      end)
  | ReadDir p => at_path w true p (fun key n =>
      match n with
      | Some NDir => (Ok (Ok <$> children (w_fs w) key), w_fs w)
      | Some _ => (Err (io "not a directory"), w_fs w)
      | None => (Err NotFound, w_fs w)
      end)
  | OpenFile p => at_path w true p (fun _ n =>
      match n with
      | None => (Err NotFound, w_fs w)
      | Some NSpecial => (Err (io "special file"), w_fs w)
      | Some _ => (Ok (), w_fs w)
      end)
  | ReadTake p n => at_path w true p (fun _ node =>
      match node with
      | Some (NFile c) => (Ok (take_bytes n c), w_fs w)
      | _ => (Err (io "is a directory"), w_fs w)
      end)
  | WriteFile p content => at_path w true p (fun key n =>
      match n with
      | None | Some (NFile _) => (Ok (), <[key := NFile content]> (w_fs w))
      | Some _ => (Err (io "is a directory"), w_fs w)
      end)
  | NewUlid =>
      match w_ulids w with
      | [] => ("", w)
      | u :: us => (u, mkWorld (w_root w) (w_fs w) (w_escaped w) (w_faults w) us (w_dir_len w))
      end
  end.

(** A call that fails after [n] of its steps. *)
Definition host_fault (n : nat) (e : FsEff) (w : World) : fresp e * World :=
  let fault := io "fault" in
  match e as e return fresp e * World with
  | CreateDirAll p =>
      match key_of (w_root w) p with
      | None => (Err fault, escape w)
      | Some key =>
          let '(r, fs, esc) := mkdirs (Some n) (w_fs w) [] key in
          (Err fault, if esc then escape (set_fs fs w) else set_fs fs w)
      end
  | WriteAll p content => at_path w true p (fun key node =>
      match node with
      | Some (NFile c) => (Err fault, <[key := NFile (c +:+ Str.take n content)]> (w_fs w))
      | _ => (Err fault, w_fs w)
      end)
  | WriteFile p content => at_path w true p (fun key node =>
      match node with
      | None | Some (NFile _) => (Err fault, <[key := NFile (Str.take n content)]> (w_fs w))
      | Some _ => (Err fault, w_fs w)
      end)
  | RemoveDirAll p => at_path w false p (fun key node =>
      (Err fault, foldr (fun c fs => remove_tree (key ++ [c]) fs) (w_fs w) (take n (children (w_fs w) key))))
  | ReadDir p => at_path w true p (fun key node =>
      match node with
      | Some NDir => (Ok ((Ok <$> take n (children (w_fs w) key)) ++ [Err fault]), w_fs w)
      | _ => (Err fault, w_fs w)
      end)
  | NewUlid => host_ok NewUlid w
  | SymlinkMetadata _ | FollowMetadata _ => (Err fault, w)
  | ReadTake _ _ => (Err fault, w)
  | CreateNew _ | CreateNewDir _ _ | Flush _ | Rename _ _ | RemoveFile _ | RemoveDir _ | OpenFile _ => (Err fault, w)
  end.

Definition take_fault (w : World) : option nat * World :=
  match w_faults w with
  | [] => (None, w)
  | f :: r => (f, mkWorld (w_root w) (w_fs w) (w_escaped w) r (w_ulids w) (w_dir_len w))
  end.

Definition host (e : FsEff) (w : World) : fresp e * World :=
  match take_fault w with
  | (None, w) => host_ok e w
  | (Some n, w) => host_fault n e w
  end.
