(* ===== verification/FsProps.v ===== *)
(** * FsProps: programs over the file system

    What each call does to a world, and the facts about links, resolution and
    renaming the workspace proofs share. *)

From Stdlib Require Import Ascii.
From stdpp Require Import base list gmap strings fin_maps.
From S2P Require Import Prelude RustStr Prog Paths Fs.

(** ** Keys *)

Lemma names_of_normal k : names_of (Normal <$> k) = Some k.
Proof. induction k as [|n k IH]; [done|]. cbn. change (list_fmap _ _ Normal k) with (Normal <$> k). by rewrite IH. Qed.

Lemma key_of_app root k : key_of root (root ++ (Normal <$> k)) = Some k.
Proof. unfold key_of. rewrite strip_prefix_app. apply names_of_normal. Qed.

Lemma push_key root k c : push (root ++ (Normal <$> k)) (Normal c) = root ++ (Normal <$> (k ++ [c])).
Proof. simpl. by rewrite fmap_app, app_assoc. Qed.

(** ** Links and resolution *)

(** No link on the way to [k], nor at [k]. *)
Definition clear (fs : FS) (k : Key) : Prop := ∀ q, q `prefix_of` k → fs !! q ≠ Some NSymlink.

Lemma clear_prefix fs k q : clear fs k → q `prefix_of` k → clear fs q.
Proof. intros Hc Hq r Hr. apply Hc. by etransitivity. Qed.

Lemma walk_app fs pre k c :
  walk fs pre k = At (Some NDir) → walk fs pre (k ++ [c]) = At (fs !! (pre ++ k ++ [c])).
Proof.
  revert pre. induction k as [|x k IH]; intros pre; simpl.
  - intros [= ->]. done.
  - destruct (fs !! pre) as [[]|]; try done. intros E. rewrite (IH _ E). by rewrite <- app_assoc.
Qed.

Lemma walk_At fs pre k n : walk fs pre k = At n → n = fs !! (pre ++ k).
Proof.
  revert pre. induction k as [|x k IH]; intros pre; simpl; [rewrite app_nil_r; congruence|].
  destruct (fs !! pre) as [[]|]; try done. intros E%IH. by rewrite E, <- app_assoc.
Qed.

Lemma walk_clear fs pre k :
  (∀ q, q `prefix_of` k → fs !! (pre ++ q) ≠ Some NSymlink) → walk fs pre k ≠ Escapes.
Proof.
  revert pre. induction k as [|x k IH]; intros pre Hc; simpl; [done|].
  pose proof (Hc [] (prefix_nil _)) as H0. rewrite app_nil_r in H0.
  destruct (fs !! pre) as [[]|]; try done. apply IH. intros q Hq.
  rewrite <- app_assoc. apply (Hc (x :: q)). by apply prefix_cons.
Qed.

Lemma walk_not_escapes fs k : clear fs k → walk fs [] k ≠ Escapes.
Proof. intros Hc. apply walk_clear. auto. Qed.

(** The last step of a resolution needs no link above it only. *)
Lemma walk_parent_clear fs k c : clear fs k → walk fs [] (k ++ [c]) ≠ Escapes.
Proof.
  intros Hc. assert (∀ pre r, (∀ q, q `prefix_of` r → fs !! (pre ++ q) ≠ Some NSymlink) → walk fs pre (r ++ [c]) ≠ Escapes)
    as Hw; [|by apply Hw].
  clear k Hc. intros pre r. revert pre. induction r as [|x r IH]; intros pre Hc.
  - simpl. pose proof (Hc [] (prefix_nil _)) as H0. rewrite app_nil_r in H0. by destruct (fs !! pre) as [[]|].
  - simpl. pose proof (Hc [] (prefix_nil _)) as H0. rewrite app_nil_r in H0.
    destruct (fs !! pre) as [[]|]; try done. apply IH. intros q Hq. rewrite <- app_assoc.
    apply (Hc (x :: q)). by apply prefix_cons.
Qed.

(** ** Worlds that differ in the pending faults only *)

Definition same (w w' : World) : Prop :=
  w_root w' = w_root w ∧ w_fs w' = w_fs w ∧ w_escaped w' = w_escaped w ∧ w_dir_len w' = w_dir_len w ∧
  w_ulids w' `suffix_of` w_ulids w.

Lemma same_refl w : same w w.
Proof. done. Qed.
Lemma same_trans w1 w2 w3 : same w1 w2 → same w2 w3 → same w1 w3.
Proof. unfold same. intros (? & ? & ? & ? & ?) (? & ? & ? & ? & ?). split_and!; [congruence..|by etransitivity]. Qed.

Lemma take_fault_same w : same w (take_fault w).2.
Proof. unfold take_fault. by destruct (w_faults w). Qed.

Lemma set_fs_same w : same w (set_fs (w_fs w) w).
Proof. done. Qed.

(** Calls that only look. *)
Lemma at_path_same {X} w follow p k key (f : Key → option Node → result X IoError) :
  key_of (w_root w) p = Some key → k = (fun key n => (f key n, w_fs w)) →
  walk (w_fs w) [] key ≠ Escapes → (follow = true → walk (w_fs w) [] key ≠ At (Some NSymlink)) →
  same w (at_path w follow p k).2 ∧
  (at_path w follow p k).1 = match walk (w_fs w) [] key with
    | At n => f key n | Missing => Err NotFound | NotADirectory => Err (io "not a directory")
    | Escapes => Err (io "followed a link") end.
Proof.
  intros Hk -> He Hf. unfold at_path. rewrite Hk. destruct (walk (w_fs w) [] key) as [n| | |] eqn:E; try done.
  destruct follow; simpl; [|done]. rewrite bool_decide_false; [done|]. intros ->. by destruct (Hf eq_refl).
Qed.

Lemma host_cases e w :
  ∃ w1, same w w1 ∧ (host e w = host_ok e w1 ∨ ∃ n, host e w = host_fault n e w1).
Proof.
  unfold host. pose proof (take_fault_same w) as Hs. destruct (take_fault w) as [[n|] w1]; simpl in Hs; eauto.
Qed.

(** A resolution that stays inside, at a path that is not a link. *)
Definition inside (w : World) (p : list Component) (k : Key) : Prop :=
  p = w_root w ++ (Normal <$> k) ∧ walk (w_fs w) [] k ≠ Escapes.
Definition settled (w : World) (p : list Component) (k : Key) : Prop :=
  p = w_root w ++ (Normal <$> k) ∧ clear (w_fs w) k.

Lemma settled_inside w p k : settled w p k → inside w p k.
Proof. intros [-> Hc]. split; [done|by apply walk_not_escapes]. Qed.
Lemma settled_not_link w p k : settled w p k → walk (w_fs w) [] k ≠ At (Some NSymlink).
Proof. intros [_ Hc] E. apply walk_At in E. by apply (Hc k). Qed.
Lemma settled_child w p k c : settled w p k → inside w (push p (Normal c)) (k ++ [c]).
Proof. intros [-> Hc]. split; [apply push_key|by apply walk_parent_clear]. Qed.

Lemma inside_key w p k : inside w p k → key_of (w_root w) p = Some k.
Proof. intros [-> _]. apply key_of_app. Qed.

Lemma same_inside w w' p k : same w w' → inside w p k → inside w' p k.
Proof. intros (Hr & Hf & _) [-> ?]. unfold inside. by rewrite Hr, Hf. Qed.
Lemma same_settled w w' p k : same w w' → settled w p k → settled w' p k.
Proof. intros (Hr & Hf & _) [-> ?]. unfold settled. by rewrite Hr, Hf. Qed.

Lemma lookup_metadata_node w n md : lookup_metadata w n = Ok md → n = Some (md_node md).
Proof. destruct n; simpl; [by intros [= <-]|done]. Qed.

(** ** Well-formed trees *)

(** The root is a directory, so is the parent of every entry, and the names
    are names. *)
Definition wf (fs : FS) : Prop :=
  fs !! [] = Some NDir ∧ (∀ k c, is_Some (fs !! (k ++ [c])) → fs !! k = Some NDir) ∧
  ∀ k, is_Some (fs !! k) → Forall proper k.

Lemma wf_above fs k r : wf fs → is_Some (fs !! (k ++ r)) → r ≠ [] → fs !! k = Some NDir.
Proof.
  intros (H0 & Hwf & _). revert k. induction r as [|c r IH] using rev_ind; intros k Hs Hr; [done|].
  rewrite app_assoc in Hs. apply Hwf in Hs. destruct r as [|x r]; [by rewrite app_nil_r in Hs|].
  apply IH; [by rewrite Hs|done].
Qed.

(** In a well-formed tree every entry is reached. *)
Lemma wf_walk fs k : wf fs → is_Some (fs !! k) → walk fs [] k = At (fs !! k).
Proof.
  intros Hwf Hk. assert (∀ pre r, is_Some (fs !! (pre ++ r)) → walk fs pre r = At (fs !! (pre ++ r))) as Hw;
    [|by apply Hw].
  clear k Hk. intros pre r. revert pre. induction r as [|c r IH]; intros pre Hs; simpl; [by rewrite app_nil_r|].
  rewrite (wf_above fs pre (c :: r)) by done. rewrite IH by by rewrite <- app_assoc. by rewrite <- app_assoc.
Qed.

Lemma wf_walk_None fs k : wf fs → fs !! k = None → walk fs [] k ≠ Escapes → ∀ n, walk fs [] k ≠ At (Some n).
Proof. intros Hwf Hk _ n E. apply walk_At in E. simpl in E. congruence. Qed.

(** The directory above a resolved entry. *)
Lemma walk_parent fs k c n : walk fs [] (k ++ [c]) = At n → fs !! k = Some NDir.
Proof.
  assert (∀ pre r, walk fs pre (r ++ [c]) = At n → fs !! (pre ++ r) = Some NDir) as Hw; [|by apply Hw].
  intros pre r. revert pre. induction r as [|x r IH]; intros pre; simpl; rewrite ?app_nil_r.
  - by destruct (fs !! pre) as [[]|].
  - destruct (fs !! pre) as [[]|]; try done. intros E%IH. by rewrite <- app_assoc in E.
Qed.

Lemma wf_childless fs k n c : wf fs → fs !! k = Some n → n ≠ NDir → fs !! (k ++ [c]) = None.
Proof.
  intros (_ & Hwf & _) Hk Hn. destruct (fs !! (k ++ [c])) eqn:E; [|done]. rewrite (Hwf k c) in Hk; [congruence|done].
Qed.

Lemma wf_insert fs k n node :
  wf fs → walk fs [] k = At n → n ≠ Some NDir → Forall proper k → wf (<[k := node]> fs).
Proof.
  intros Hw E Hn Hpk. pose proof Hw as (H0 & Hwf & Hpr). pose proof (walk_At _ _ _ _ E) as En. simpl in En. split_and!.
  - rewrite lookup_insert_ne; [done|]. intros ->. congruence.
  - intros q c. rewrite lookup_insert. case_decide as Hq.
    + subst k. intros _. rewrite lookup_insert_ne by (intros Hq; by apply (f_equal length) in Hq; rewrite length_app in Hq; simpl in Hq; lia).
      by eapply walk_parent.
    + intros Hs. rewrite lookup_insert_ne; [by apply Hwf in Hs|]. intros ->. apply Hwf in Hs. congruence.
  - intros q. rewrite lookup_insert. case_decide; [by subst|apply Hpr].
Qed.

Lemma wf_delete fs k : wf fs → k ≠ [] → (∀ c, fs !! (k ++ [c]) = None) → wf (delete k fs).
Proof.
  intros (H0 & Hwf & Hpr) Hk Hc. split_and!; [by rewrite lookup_delete_ne| |].
  - intros q c. rewrite lookup_delete. case_decide; [by intros []|]. intros Hs.
    rewrite lookup_delete_ne; [by apply Hwf in Hs|]. intros ->. rewrite Hc in Hs. by destruct Hs.
  - intros q. rewrite lookup_delete. case_decide; [by intros []|apply Hpr].
Qed.

Lemma wf_remove_tree fs d : wf fs → d ≠ [] → wf (remove_tree d fs).
Proof.
  intros (H0 & Hwf & Hpr) Hd. unfold remove_tree. split_and!.
  - apply map_lookup_filter_Some. split; [done|]. simpl. unfold under. intros Hp. by apply prefix_nil_inv in Hp.
  - intros k c [n Hs]. apply map_lookup_filter_Some in Hs as [Hs Hu]. apply map_lookup_filter_Some.
    split; [apply (Hwf k c); by rewrite Hs|]. simpl in *. intros Hk. apply Hu. unfold under in *.
    by apply prefix_app_r.
  - intros k [n Hs]. apply map_lookup_filter_Some in Hs as [Hs _]. apply Hpr. by rewrite Hs.
Qed.

Lemma child_name_Some d k c : child_name d k = Some c ↔ k = d ++ [c].
Proof.
  unfold child_name. destruct k as [|x k _] using rev_ind; simpl.
  - split; [done|]. intros E. by apply (f_equal length) in E; rewrite length_app in E; simpl in E; lia.
  - rewrite reverse_snoc. rewrite reverse_involutive. case_bool_decide as Hk.
    + subst. split; [by intros [= ->]|]. intros E. by apply app_inj_tail in E as [_ ->].
    + split; [done|]. intros E. by apply app_inj_tail in E as [-> _].
Qed.

Lemma elem_children fs d c : c ∈ children fs d ↔ is_Some (fs !! (d ++ [c])).
Proof.
  unfold children. rewrite list_elem_of_omap. split.
  - intros ([k n] & Hk & E). apply child_name_Some in E. simpl in E. subst k.
    apply elem_of_map_to_list in Hk. by rewrite Hk.
  - intros [n Hn]. exists (d ++ [c], n). rewrite elem_of_map_to_list. split; [done|]. by apply child_name_Some.
Qed.

Lemma children_nil fs d c : children fs d = [] → fs !! (d ++ [c]) = None.
Proof.
  intros Hn. destruct (fs !! (d ++ [c])) eqn:E; [|done]. assert (c ∈ children fs d) as Hc by (apply elem_children; by rewrite E).
  rewrite Hn in Hc. by apply elem_of_nil in Hc.
Qed.

(** ** Reading *)

(** The reading calls leave the world as it is, and report its entries. *)
Lemma lstat_reads w p k :
  wf (w_fs w) → inside w p k →
  same w (host (SymlinkMetadata p) w).2 ∧
  match (host (SymlinkMetadata p) w).1 with
  | Ok md => w_fs w !! k = Some (md_node md)
  | Err NotFound => w_fs w !! k = None
  | Err _ => True
  end.
Proof.
  intros Hwf Hi. destruct (host_cases (SymlinkMetadata p) w) as (w1 & Hs & [->|(n & ->)]); [|by simpl].
  apply (same_inside _ _ _ _ Hs) in Hi. pose proof (inside_key _ _ _ Hi) as Hk. destruct Hi as [_ Hw].
  destruct (at_path_same w1 false p _ k (fun _ n => lookup_metadata w1 n) Hk eq_refl Hw) as [Hs' Hr]; [done|].
  cbn [host_ok]. split; [by eapply same_trans|]. destruct Hs as (_ & Hf & _). rewrite <- Hf in *.
  pose proof Hr as Hr'. destruct (at_path _ _ _ _) as [r w2]. simpl in *. subst r.
  destruct (walk (w_fs w1) [] k) as [n| | |] eqn:E; [| |done|done].
  - pose proof (walk_At _ _ _ _ E) as ->. simpl in *. by destruct (w_fs w1 !! k).
  - destruct (w_fs w1 !! k) eqn:Ek; [|done]. rewrite wf_walk in E; [done|done|by rewrite Ek].
Qed.

(** The reading calls that follow a link in the last position. *)
Definition follow_read (e : FsEff) : option (list Component) :=
  match e with
  | FollowMetadata p | ReadDir p | OpenFile p => Some p
  | ReadTake p _ => Some p
  | _ => None
  end.

Lemma follow_reads w e p k : follow_read e = Some p → settled w p k → same w (host e w).2.
Proof.
  intros He Hi. destruct (host_cases e w) as (w1 & Hs & Hh). apply (same_settled _ _ _ _ Hs) in Hi.
  eapply same_trans; [exact Hs|]. clear Hs. pose proof (settled_not_link _ _ _ Hi) as Hl.
  pose proof (settled_inside _ _ _ Hi) as Hin. pose proof (inside_key _ _ _ Hin) as Hk. destruct Hin as [_ Hw].
  destruct e; try done; injection He as ->;
    destruct Hh as [->|(f & ->)]; cbn [host_ok host_fault]; try done; unfold at_path; rewrite Hk;
    (destruct (walk (w_fs w1) [] k) as [nd| | |]; try done; rewrite bool_decide_false by congruence; simpl;
     destruct nd as [[]|]; done).
Qed.

(** ** Changes that add no link *)

Definition no_new_links (fs fs' : FS) : Prop := ∀ k, fs' !! k = Some NSymlink → fs !! k = Some NSymlink.

Definition quiet (w w' : World) : Prop :=
  w_root w' = w_root w ∧ w_escaped w' = w_escaped w ∧ no_new_links (w_fs w) (w_fs w') ∧
  (wf (w_fs w) → wf (w_fs w')) ∧ w_ulids w' `suffix_of` w_ulids w.

Lemma quiet_refl w : quiet w w.
Proof. split_and!; [done..|by intros k|done|done]. Qed.
Lemma quiet_trans w1 w2 w3 : quiet w1 w2 → quiet w2 w3 → quiet w1 w3.
Proof.
  intros (? & ? & Ha & ? & ?) (? & ? & Hb & ? & ?). split_and!; [congruence..| |by auto|by etransitivity].
  intros k Hk. by apply Ha, Hb.
Qed.
Lemma same_quiet w w' : same w w' → quiet w w'.
Proof. intros (? & Hf & ? & _ & ?). split_and!; [done..| |by rewrite Hf|done]. intros k. by rewrite Hf. Qed.

Lemma quiet_clear w w' k : quiet w w' → clear (w_fs w) k → clear (w_fs w') k.
Proof. intros (_ & _ & Hn & _) Hc q Hq Hl. by apply (Hc q Hq), Hn. Qed.
Lemma quiet_settled w w' p k : quiet w w' → settled w p k → settled w' p k.
Proof. intros Hq [-> Hc]. split; [by destruct Hq as (-> & _)|by eapply quiet_clear]. Qed.

Lemma insert_no_links fs k n : n ≠ NSymlink → no_new_links fs (<[k := n]> fs).
Proof. intros Hn q. rewrite lookup_insert. case_decide; [congruence|done]. Qed.
Lemma delete_no_links fs k : no_new_links fs (delete k fs).
Proof. intros q. rewrite lookup_delete. by case_decide. Qed.
Lemma remove_tree_no_links fs d : no_new_links fs (remove_tree d fs).
Proof. intros q. unfold remove_tree. intros Hq%map_lookup_filter_Some. apply Hq. Qed.
Lemma no_new_links_refl fs : no_new_links fs fs.
Proof. by intros k. Qed.
Lemma no_new_links_trans fs1 fs2 fs3 : no_new_links fs1 fs2 → no_new_links fs2 fs3 → no_new_links fs1 fs3.
Proof. intros H1 H2 k Hk. by apply H1, H2. Qed.
Lemma remove_trees_no_links fs key cs : no_new_links fs (foldr (fun c fs => remove_tree (key ++ [c]) fs) fs cs).
Proof.
  induction cs as [|c cs IH]; simpl; [apply no_new_links_refl|].
  eapply no_new_links_trans; [exact IH|apply remove_tree_no_links].
Qed.

#[local] Hint Resolve insert_no_links delete_no_links remove_tree_no_links no_new_links_refl remove_trees_no_links : fs_db.

Lemma mkdirs_quiet limit fs pre rest :
  (∀ q, q `prefix_of` rest → fs !! (pre ++ q) ≠ Some NSymlink) →
  no_new_links fs (mkdirs limit fs pre rest).1.2 ∧ (mkdirs limit fs pre rest).2 = false.
Proof.
  revert limit fs pre. induction rest as [|c rest IH]; intros limit fs pre Hc;
    pose proof (Hc [] (prefix_nil _)) as H0; rewrite app_nil_r in H0; cbn [mkdirs].
  - destruct (fs !! pre) as [[]|]; try done; try (split; [apply no_new_links_refl|done]).
    destruct limit as [[|n]|]; (split; [first [apply no_new_links_refl|apply insert_no_links; done]|done]).
  - assert (∀ limit fs', no_new_links fs fs' →
      no_new_links fs (mkdirs limit fs' (pre ++ [c]) rest).1.2 ∧ (mkdirs limit fs' (pre ++ [c]) rest).2 = false) as Hn.
    { intros l fs' Hfs. destruct (IH l fs' (pre ++ [c])) as [Hl He].
      - intros q Hq Hs. apply Hfs in Hs. rewrite <- app_assoc in Hs. apply (Hc (c :: q)); [by apply prefix_cons|done].
      - split; [by eapply no_new_links_trans|done]. }
    destruct (fs !! pre) as [[]|]; try done; try (split; [apply no_new_links_refl|done]);
      [apply Hn, no_new_links_refl|].
    destruct limit as [[|n]|]; [split; [apply no_new_links_refl|done]|apply Hn, insert_no_links; done..].
Qed.

Lemma mkdirs_wf limit fs k : Forall proper k → wf fs → wf (mkdirs limit fs [] k).1.2.
Proof.
  assert (∀ pre rest limit fs, Forall proper (pre ++ rest) → wf fs → walk fs [] pre = At (fs !! pre) →
    wf (mkdirs limit fs pre rest).1.2) as Hm;
    [|intros Hp Hwf; apply Hm; [done|done|by simpl]].
  clear. intros pre rest. revert pre. induction rest as [|c rest IH]; intros pre limit fs Hpr Hwf Hp; cbn [mkdirs];
    destruct (fs !! pre) as [[]|] eqn:E; try done.
  - rewrite app_nil_r in Hpr. destruct limit as [[|n]|]; [done|by eapply wf_insert..].
  - apply IH; [by rewrite <- app_assoc|done|]. exact (walk_app fs [] pre c Hp).
  - assert (∀ l, wf (mkdirs l (<[pre:=NDir]> fs) (pre ++ [c]) rest).1.2) as Hn.
    { intros l. assert (wf (<[pre:=NDir]> fs)) as Hwf'
        by (eapply wf_insert; [done|done|done|by apply Forall_app in Hpr as [? _]]). apply IH; [by rewrite <- app_assoc|done|].
      assert (walk (<[pre:=NDir]> fs) [] pre = At (Some NDir)) as Hw
        by (rewrite wf_walk, lookup_insert_eq; [done|done|by rewrite lookup_insert_eq]).
      exact (walk_app _ [] pre c Hw). }
    by destruct limit as [[|n]|].
Qed.

Lemma at_path_quiet {X} (w : World) (follow : bool) (p : list Component)
    (k : Key → option Node → result X IoError * FS) (key : Key) :
  inside w p key → (follow = true → walk (w_fs w) [] key ≠ At (Some NSymlink)) →
  (∀ n, walk (w_fs w) [] key = At n →
     no_new_links (w_fs w) (k key n).2 ∧ (wf (w_fs w) → wf (k key n).2)) → quiet w (at_path w follow p k).2.
Proof.
  intros Hi Hf Hk. unfold at_path. rewrite (inside_key _ _ _ Hi). destruct Hi as [_ Hw].
  destruct (walk (w_fs w) [] key) as [n| | |] eqn:E; try done.
  - assert (follow && bool_decide (n = Some NSymlink) = false) as ->.
    { destruct follow; [|done]. simpl. apply bool_decide_false. intros ->. by destruct (Hf eq_refl). }
    specialize (Hk n eq_refl). destruct (k key n) as [r fs]. split_and!; try done; apply Hk.
  - apply quiet_refl.
  - apply quiet_refl.
Qed.

(** The path a changing call acts on, and whether it follows a link there. *)
Definition change_at (e : FsEff) : option (list Component * bool) :=
  match e with
  | CreateDirAll p => Some (p, true)
  | WriteAll p _ | WriteFile p _ => Some (p, true)
  | CreateNew p | RemoveFile p | RemoveDir p | RemoveDirAll p => Some (p, false)
  | _ => None
  end.

Lemma wf_remove_trees fs key cs : wf fs → wf (foldr (fun c fs => remove_tree (key ++ [c]) fs) fs cs).
Proof. intros Hwf. induction cs as [|c cs IH]; simpl; [done|]. apply wf_remove_tree; [done|by destruct key]. Qed.

(** A change of the entry [k], where [walk] found [n]. *)
Lemma change_insert fs k n node :
  walk fs [] k = At n → n ≠ Some NDir → node ≠ NSymlink → Forall proper k →
  no_new_links fs (<[k := node]> fs) ∧ (wf fs → wf (<[k := node]> fs)).
Proof. intros E Hn Hl Hp. split; [by apply insert_no_links|]. intros Hwf. by eapply wf_insert. Qed.
Lemma change_none fs : no_new_links fs fs ∧ (wf fs → wf fs).
Proof. split; [apply no_new_links_refl|done]. Qed.

Lemma change_quiet w e p follow k :
  change_at e = Some (p, follow) → (match e with CreateDirAll _ => True | _ => k ≠ [] end) → Forall proper k →
  (if follow then settled w p k else inside w p k) → quiet w (host e w).2.
Proof.
  intros He Hne Hpr Hi. destruct (host_cases e w) as (w1 & Hs & Hh). eapply quiet_trans; [by apply same_quiet|].
  assert (if follow then settled w1 p k else inside w1 p k) as Hi1
    by (destruct follow; [by eapply same_settled|by eapply same_inside]). clear Hi Hs.
  destruct e; try done; injection He as -> <-.
  1: { pose proof (inside_key _ _ _ (settled_inside _ _ _ Hi1)) as Hk. destruct Hi1 as [_ Hc].
       destruct Hh as [->|(n & ->)]; cbn [host_ok host_fault]; rewrite Hk.
       - destruct (mkdirs_quiet None (w_fs w1) [] k Hc) as [Hm He]. pose proof (mkdirs_wf None (w_fs w1) k Hpr) as Hw.
         destruct (mkdirs None (w_fs w1) [] k) as [[r fs] esc]. simpl in *. subst esc. by split_and!.
       - destruct (mkdirs_quiet (Some n) (w_fs w1) [] k Hc) as [Hm He]. pose proof (mkdirs_wf (Some n) (w_fs w1) k Hpr) as Hw.
         destruct (mkdirs (Some n) (w_fs w1) [] k) as [[r fs] esc]. simpl in *. subst esc. by split_and!. }
  all: destruct Hh as [->|(m & ->)]; cbn [host_ok host_fault]; try apply quiet_refl;
    (apply at_path_quiet with k;
      [first [exact Hi1|by apply settled_inside]|intros; first [done|by eapply settled_not_link]|]);
    intros nd E; pose proof (walk_At _ _ _ _ E) as En; simpl in En;
    destruct nd as [[]|]; simpl; try apply change_none; try (eapply change_insert; [exact E|done|done|done]).
  all: try (split; [apply delete_no_links|intros Hwf; apply wf_delete; [done|done|]];
            intros c; eapply wf_childless; [done|by symmetry|done]).
  all: try (split; [apply remove_tree_no_links|intros Hwf; by apply wf_remove_tree]).
  all: try (split; [apply remove_trees_no_links|intros Hwf; by apply wf_remove_trees]).
  destruct (children (w_fs w1) k) eqn:Ec; simpl; [|apply change_none].
  split; [apply delete_no_links|intros Hwf; apply wf_delete; [done|done|]]. intros c. by apply children_nil.
Qed.

Lemma ulid_same w : same w (host NewUlid w).2.
Proof.
  destruct (host_cases NewUlid w) as (w1 & Hs & [->|(n & ->)]); eapply same_trans; [exact Hs| |exact Hs|];
    cbn [host_ok host_fault]; unfold same; destruct (w_ulids w1) as [|u us] eqn:E; simpl; rewrite ?E;
    split_and!; try done; by exists [u].
Qed.
Lemma flush_same w p : same w (host (Flush p) w).2.
Proof. destruct (host_cases (Flush p) w) as (w1 & Hs & [->|(n & ->)]); done. Qed.

(** ** Motions: ways the world may change that keep links out *)

Class Motion (R : World → World → Prop) := {
  motion_refl w : R w w;
  motion_trans w1 w2 w3 : R w1 w2 → R w2 w3 → R w1 w3;
  motion_quiet w w' : R w w' → quiet w w';
  same_motion w w' : same w w' → R w w';
}.

#[export] Instance quiet_Motion : Motion quiet.
Proof. split; [apply quiet_refl|apply quiet_trans|done|apply same_quiet]. Qed.
#[export] Instance same_Motion : Motion same.
Proof. split; [apply same_refl|apply same_trans|apply same_quiet|done]. Qed.

(** ** Renaming *)

(** Neither of two entries is above the other. *)
Definition apart (a b : Key) : Prop := ¬ under a b ∧ ¬ under b a.

Lemma apart_sym a b : apart a b → apart b a.
Proof. unfold apart. tauto. Qed.
Lemma apart_under a b k : apart a b → under a k → under b k → False.
Proof. intros [H1 H2] Ha Hb. destruct (prefix_weak_total _ _ _ Ha Hb); auto. Qed.

Lemma under_app a r : under a (a ++ r).
Proof. by exists r. Qed.
Lemma under_app_l a r k : under (a ++ r) k → under a k.
Proof. intros [s ->]. exists (r ++ s). by rewrite app_assoc. Qed.
Lemma under_not_app a b r : apart a b → ¬ under b (a ++ r).
Proof. intros Hap Hu. eapply apart_under; [exact Hap|apply under_app|exact Hu]. Qed.

Lemma exchange_l a b r : exchange a b (a ++ r) = b ++ r.
Proof. unfold exchange. rewrite decide_True by apply under_app. by rewrite drop_app_length. Qed.
Lemma exchange_r a b r : apart a b → exchange a b (b ++ r) = a ++ r.
Proof.
  intros Hap. unfold exchange. rewrite decide_False by by apply under_not_app, apart_sym.
  rewrite decide_True by apply under_app. by rewrite drop_app_length.
Qed.
Lemma exchange_other a b k : ¬ under a k → ¬ under b k → exchange a b k = k.
Proof. intros. unfold exchange. by rewrite !decide_False. Qed.

Lemma exchange_involutive a b k : apart a b → exchange a b (exchange a b k) = k.
Proof.
  intros Hap. destruct (decide (under a k)) as [[r ->]|Ha]; [by rewrite exchange_l, exchange_r|].
  destruct (decide (under b k)) as [[r ->]|Hb]; [by rewrite exchange_r, exchange_l|].
  rewrite (exchange_other a b k) by done. by apply exchange_other.
Qed.

Lemma exchange_inj a b : apart a b → Inj (=) (=) (exchange a b).
Proof. intros Hap x y E. by rewrite <- (exchange_involutive a b x), E, exchange_involutive. Qed.

Lemma lookup_remove_tree d fs k : remove_tree d fs !! k = if decide (under d k) then None else fs !! k.
Proof.
  unfold remove_tree. case_decide.
  - apply map_lookup_filter_None. right. intros n _. simpl. tauto.
  - destruct (fs !! k) eqn:E; [by apply map_lookup_filter_Some|]. apply map_lookup_filter_None. by left.
Qed.

(** What is found at each key after a rename. *)
Lemma lookup_rename a b fs k :
  apart a b →
  rename_keys a b fs !! k =
    if decide (under b k) then fs !! (a ++ drop (length b) k) else if decide (under a k) then None else fs !! k.
Proof.
  intros Hap. pose proof (exchange_inj a b Hap) as Hinj. unfold rename_keys.
  rewrite <- (exchange_involutive a b k Hap) at 1. rewrite lookup_kmap by done. rewrite lookup_remove_tree.
  destruct (decide (under b k)) as [[r ->]|Hb].
  - rewrite exchange_r, drop_app_length by done. rewrite decide_False by by apply under_not_app. done.
  - destruct (decide (under a k)) as [[r ->]|Ha].
    + rewrite exchange_l. by rewrite decide_True by apply under_app.
    + rewrite exchange_other by done. by rewrite decide_False.
Qed.

Lemma not_under_snoc k c : ¬ under (k ++ [c]) k.
Proof. intros Hu%prefix_length. rewrite length_app in Hu. simpl in Hu. lia. Qed.

Lemma wf_rename a b fs :
  wf fs → apart a b → (∀ k c, b = k ++ [c] → fs !! k = Some NDir) → b ≠ [] → Forall proper b →
  wf (rename_keys a b fs).
Proof.
  intros Hw Hap Hp Hb Hpb. pose proof Hw as (H0 & Hwf & Hpr). split_and!.
  - rewrite lookup_rename, !decide_False; [done| | |done].
    + intros Ha%prefix_nil_inv. subst a. destruct Hap as [Hap _]. apply Hap. by exists b.
    + intros Hb'%prefix_nil_inv. by subst b.
  - intros k c. rewrite !lookup_rename by done. destruct (decide (under b (k ++ [c]))) as [Hu|Hu].
    + destruct (decide (under b k)) as [[r ->]|Hk].
      * rewrite <- app_assoc, !drop_app_length, app_assoc. apply Hwf.
      * intros _. assert (b = k ++ [c]) as ->.
        { destruct Hu as [r Hr]. destruct r as [|x r _] using rev_ind; [by rewrite app_nil_r in Hr|].
          rewrite app_assoc in Hr. apply app_inj_tail in Hr as [-> _]. destruct Hk. apply under_app. }
        rewrite decide_False; [by eapply Hp|]. intros Ha. destruct Hap as [Hap _]. apply Hap.
        destruct Ha as [r ->]. exists (r ++ [c]). by rewrite app_assoc.
    + destruct (decide (under a (k ++ [c]))) as [Ha|Ha]; [by intros []|]. intros Hs.
      rewrite !decide_False; [by apply Hwf in Hs| |]; intros [r ->]; [apply Ha|apply Hu]; rewrite <- app_assoc; apply under_app.
  - intros k. rewrite lookup_rename by done. destruct (decide (under b k)) as [[r ->]|].
    + rewrite drop_app_length. intros Hs%Hpr. apply Forall_app in Hs as [_ Hs]. by apply Forall_app.
    + case_decide; [by intros []|apply Hpr].
Qed.

(** The conditions [rename_at] establishes when it renames. *)
Lemma rename_at_cases a b fs :
  wf fs →
  ((rename_at a b (fs !! a) (fs !! b) fs).2 = fs ∧ ((rename_at a b (fs !! a) (fs !! b) fs).1 = Ok () → a = b)) ∨
  ((rename_at a b (fs !! a) (fs !! b) fs) = (Ok (), rename_keys a b fs) ∧ apart a b ∧
   is_Some (fs !! a) ∧ (∀ c, fs !! (b ++ [c]) = None) ∧ (fs !! a ≠ Some NDir → fs !! b ≠ Some NDir)).
Proof.
  intros Hwf. unfold rename_at. destruct (fs !! a) as [node|] eqn:Ea; [|by left].
  case_bool_decide; [by left|]. case_bool_decide as Hab; [by left|].
  assert (∀ n, fs !! b = n → n ≠ Some NDir → apart a b ∧ ∀ c, fs !! (b ++ [c]) = None) as Hb.
  { intros n Hn Hd. assert (∀ c, fs !! (b ++ [c]) = None) as Hc.
    { intros c. destruct (fs !! (b ++ [c])) eqn:E; [|done]. destruct Hwf as (_ & Hwf & _). rewrite (Hwf b c) in Hn; [congruence|by rewrite E]. }
    split; [|done]. split; [done|]. intros [[|x r] ->]; [by rewrite app_nil_r in *|].
    rewrite (wf_above fs b (x :: r)) in Hn; [congruence|done|by rewrite Ea|done]. }
  assert (children fs b = [] → apart a b ∧ ∀ c, fs !! (b ++ [c]) = None) as Hd.
  { intros Hc. split; [|intros c; by apply children_nil]. split; [done|]. intros [[|x r] ->]; [by rewrite app_nil_r in *|].
    assert (is_Some (fs !! (b ++ [x]))) as Hx.
    { destruct r as [|y r]; [by rewrite Ea|]. rewrite (wf_above fs (b ++ [x]) (y :: r)); [done|done| |done].
      rewrite <- app_assoc. simpl. by rewrite Ea. }
    rewrite children_nil in Hx by done. by destruct Hx. }
  destruct node, (fs !! b) as [[]|] eqn:Eb; try (by left);
    try (right; destruct (Hb _ eq_refl) as [? ?]; [done|]; split_and!; done).
  destruct (children fs b) eqn:Ec; [|by left]. right. destruct (Hd eq_refl). by split_and!.
Qed.

Lemma rename_host w pa pb a b :
  wf (w_fs w) → inside w pa a → inside w pb b → b ≠ [] → Forall proper b →
  let w' := (host (Rename pa pb) w).2 in
  w_ulids w' `suffix_of` w_ulids w ∧ w_root w' = w_root w ∧ w_escaped w' = w_escaped w ∧ w_dir_len w' = w_dir_len w ∧ wf (w_fs w') ∧
  ((w_fs w' = w_fs w ∧ ((host (Rename pa pb) w).1 = Ok () → a = b)) ∨
   (w_fs w' = rename_keys a b (w_fs w) ∧ (host (Rename pa pb) w).1 = Ok () ∧ apart a b ∧ is_Some (w_fs w !! a) ∧
    (∀ c, w_fs w !! (b ++ [c]) = None) ∧ (w_fs w !! a ≠ Some NDir → w_fs w !! b ≠ Some NDir))).
Proof.
  intros Hwf Ha Hb Hne Hpb. destruct (host_cases (Rename pa pb) w) as (w1 & Hs & [->|(n & ->)]);
    [|destruct Hs as (Hr & Hf & He & Hl & Hu); cbn [host_fault snd fst]; cbv zeta; rewrite Hr, Hf, He, Hl;
       split_and!; try done; left; by split].
  apply (same_inside _ _ _ _ Hs) in Ha, Hb. destruct Hs as (Hr & Hf & He & Hl & Hu). rewrite <- Hf in Hwf. rewrite <- Hr, <- He, <- Hl, <- Hf.
  clear Hr Hf He Hl. pose proof (inside_key _ _ _ Ha) as Ka. pose proof (inside_key _ _ _ Hb) as Kb. destruct Ha as [_ Ha], Hb as [_ Hb].
  cbn [host_ok]. rewrite Ka, Kb.
  destruct (walk (w_fs w1) [] a) as [na| | |] eqn:Ea; try done; destruct (walk (w_fs w1) [] b) as [nb| | |] eqn:Eb; try done;
    try (simpl; split_and!; try done; left; by split).
  pose proof (walk_At _ _ _ _ Ea) as Ena. pose proof (walk_At _ _ _ _ Eb) as Enb. simpl in Ena, Enb. subst na nb.
  destruct (rename_at_cases a b (w_fs w1) Hwf) as [[E Eab]|(E & Hap & Hs & Hc & Hd)].
  - destruct (rename_at _ _ _ _ _) as [r fs]. simpl in *. subst fs. split_and!; try done. by left.
  - rewrite E. simpl. split_and!; try done; [|right; by split_and!]. apply wf_rename; [done|done| |done|done].
    intros k c ->. by eapply walk_parent.
Qed.
