(* ===== verification/Workspace.v ===== *)
(** * Workspace: Code Mode's state workspace

    [labby-codemode/src/state/workspace.rs] with its limits ([quota.rs]), the
    symlink guards of [labby-runtime/src/path_safety.rs] that need the file
    system, and the dispatcher of [state/provider.rs].  Each method is a
    program over the file-system effects.  The [while let] loops over a stack
    of directories run on [fuel]; [Diverged] marks its exhaustion. *)

From Stdlib Require Import Ascii.
From stdpp Require Import base list gmap strings pretty.
From S2P Require Import Prelude RustStr Prog Paths Fs FsProps.

(** ** Data *)

Record StateWorkspaceLimits := mkStateWorkspaceLimits {
  max_file_bytes : Z;
  max_total_bytes : Z;
  max_entries : Z;
  max_result_bytes : Z;
}.
Definition default_limits : StateWorkspaceLimits :=
  mkStateWorkspaceLimits (1024 * 1024) (64 * 1024 * 1024) 10000 (1024 * 1024).

Record StateWorkspace := mkStateWorkspace { ws_root : list Component; ws_limits : StateWorkspaceLimits }.

Record ReadFileResult := mkReadFileResult { rf_path : string; rf_content : string; rf_bytes : Z }.
Record MutationResult := mkMutationResult { mr_ok : bool; mr_path : string }.
Record ExistsResult := mkExistsResult { er_path : string; er_exists : bool }.
Record StatResult := mkStatResult { st_path : string; st_kind : string; st_bytes : Z }.
Record WalkEntry := mkWalkEntry { we_path : string; we_kind : string; we_bytes : Z }.
Record WalkTreeResult := mkWalkTreeResult { wt_entries : list WalkEntry; wt_truncated : bool }.
Record WalkFilesResult := mkWalkFilesResult { wf_files : list string; wf_truncated : bool }.
Record HashFileResult := mkHashFileResult { hf_path : string; hf_algorithm : string; hf_hex : string; hf_bytes : Z }.
Record DetectFileResult := mkDetectFileResult {
  df_path : string; df_extension : string; df_text : bool; df_json : bool; df_bytes : Z }.
Record ArchiveCreateResult := mkArchiveCreateResult { acr_ok : bool; acr_destination : string; acr_entries : Z }.
Record ArchiveListResult := mkArchiveListResult { alr_path : string; alr_entries : list string; alr_truncated : bool }.
Record GlobResult := mkGlobResult { gr_matches : list string; gr_truncated : bool }.
Record SearchMatch := mkSearchMatch { sm_path : string; sm_line : Z; sm_text : string }.
Record SearchFilesResult := mkSearchFilesResult { sf_matches : list SearchMatch; sf_truncated : bool }.
Record ReplaceInFilesResult := mkReplaceInFilesResult { ri_changed : list string; ri_dry_run : bool }.
Record FileEdit := mkFileEdit { fe_path : string; fe_search : string; fe_replace : string }.
Record EditPlanResult := mkEditPlanResult { ep_plan_id : string; ep_edits : list FileEdit }.
Record ApplyEditPlanResult := mkApplyEditPlanResult { ap_ok : bool; ap_changed : list string }.
Record WorkspaceUsage := mkWorkspaceUsage { wu_bytes : Z; wu_entries : Z }.

(** The crates the workspace links against. *)
Class CodePlatform := {
  (* sha2 and hex: the hexadecimal digest *)
  sha256_hex : string → string;
  (* serde_json *)
  Json : Type;
  json_parse : string → result Json string;
  json_print : bool → Json → result string string;
  edits_to_json : list FileEdit → result string string;
  edits_of_json : string → result (list FileEdit) string;
  matches_json_len : list SearchMatch → result Z string;
  (* regex *)
  Regex : Type;
  regex_escape : string → string;
  regex_new : string → result Regex string;
  is_match : Regex → string → bool;
  (* tar: the bytes of an entry, of the end of an archive, and its paths *)
  tar_entry : string → string → string;
  tar_trailer : string;
  tar_paths : string → list (result string string);
}.

(** Failures of the model: an error of the source, or exhausted fuel. *)
Inductive WErr := Tool (e : ToolError) | Diverged.

Definition lift_tool {A} (r : result A ToolError) : result A WErr := map_err Tool r.

(** ** Text helpers *)

Definition io_text (e : IoError) : string :=
  match e with NotFound => "No such file or directory" | AlreadyExists => "File exists" | OtherIo m => m end.
Definition internal_io (action : string) (e : IoError) : WErr :=
  Tool (Sdk "internal_error" ("failed to " +:+ action +:+ ": " +:+ io_text e)).
Definition not_found_or_internal (action : string) (e : IoError) : WErr :=
  Tool (Sdk (match e with NotFound => "not_found" | _ => "internal_error" end)
          ("failed to " +:+ action +:+ ": " +:+ io_text e)).
Definition serialize_error (e : string) : WErr :=
  Tool (Sdk "internal_error" ("failed to serialize state value: " +:+ e)).

Definition err_kind (e : WErr) : string := match e with Tool e => tool_kind e | Diverged => "diverged" end.

Definition display (p : list Component) : string :=
  match p with
  | RootDir :: r => "/" +:+ Str.join "/" (as_os_str <$> r)
  | r => Str.join "/" (as_os_str <$> r)
  end.

(** [std::str::from_utf8]: [need] continuation bytes are due, the next one in
    [lo..=hi]. *)
Fixpoint utf8_go (need lo hi : nat) (s : string) : bool :=
  match s with
  | EmptyString => need =? 0
  | String a r =>
      let n := Ascii.nat_of_ascii a in
      match need with
      | 0 =>
          if n <=? 127 then utf8_go 0 128 191 r
          else if (194 <=? n) && (n <=? 223) then utf8_go 1 128 191 r
          else if n =? 224 then utf8_go 2 160 191 r
          else if n =? 237 then utf8_go 2 128 159 r
          else if (225 <=? n) && (n <=? 239) then utf8_go 2 128 191 r
          else if n =? 240 then utf8_go 3 144 191 r
          else if (241 <=? n) && (n <=? 243) then utf8_go 3 128 191 r
          else if n =? 244 then utf8_go 3 128 143 r
          else false
      | S k => if (lo <=? n) && (n <=? hi) then utf8_go k 128 191 r else false
      end
  end.
Definition from_utf8_ok (s : string) : bool := utf8_go 0 128 191 s.

(** [chars().take(n)]. *)
Fixpoint take_chars (n : nat) (s : string) : string :=
  match s with
  | EmptyString => EmptyString
  | String a r =>
      if is_continuation a then String a (take_chars n r)
      else match n with 0 => EmptyString | S k => String a (take_chars k r) end
  end.
Definition cap_line_preview (line : string) : string := take_chars 512 line.

(** [str::lines]. *)
Definition newline : ascii := "010".
Definition lines : string → list string := Str.lines.

(** [Path::file_name] and [Path::extension] of a virtual path. *)
Definition file_name (p : list Component) : option string :=
  match last p with Some (Normal n) => Some n | _ => None end.
Fixpoint rsplit_dot (s : string) : option (string * string) :=
  match s with
  | EmptyString => None
  | String a r =>
      match rsplit_dot r with
      | Some (x, y) => Some (String a x, y)
      | None => if Ascii.eqb a "." then Some (EmptyString, r) else None
      end
  end.
Definition extension (p : list Component) : option string :=
  match file_name p with
  | Some n =>
      match rsplit_dot n with
      | Some (stem, ext) => if Str.is_empty stem then None else Some ext
      | None => None
      end
  | None => None
  end.

(** The stable sorts of the sources, by insertion. *)
Fixpoint insert_by {A} (key : A → string) (x : A) (l : list A) : list A :=
  match l with
  | [] => [x]
  | y :: r => match String.compare (key x) (key y) with
              | Gt => y :: insert_by key x r
              | _ => x :: l
              end
  end.
Definition sort_by {A} (key : A → string) (l : list A) : list A := foldr (insert_by key) [] l.
Definition sort_strings : list string → list string := sort_by id.

Definition u64_saturating_add (a b : Z) : Z := Z.min u64_max (a + b).
Definition u64_saturating_sub (a b : Z) : Z := Z.max 0 (a - b).

Definition normalize_limit (limit : Z) : Z := Z.max 1 (Z.min 10000 limit).
Definition default_search_limit : Z := 200.

(** ** Symlink guards (path_safety.rs) *)

Definition lstat (p : list Component) : F (result Metadata IoError) := trigger (SymlinkMetadata p).

Definition reject_existing_symlink (p : list Component) : F (result unit WErr) :=
  let! m := lstat p in
  match m with
  | Ok md =>
      if is_symlink md
      then ret_err (Tool (Sdk "symlink_rejected" ("refusing to write through symlinked path `" +:+ display p +:+ "`")))
      else ret_ok ()
  | Err NotFound => ret_ok ()
  | Err e => ret_err (Tool (Sdk "internal_error" ("lstat `" +:+ display p +:+ "` failed: " +:+ io_text e)))
  end.

Definition escapes_root (target root : list Component) : WErr :=
  Tool (Sdk "path_traversal" ("target path `" +:+ display target +:+ "` escapes write root `" +:+ display root +:+ "`")).

Fixpoint reject_each (current : list Component) (relative : list Component) : F (result unit WErr) :=
  match relative with
  | [] => ret_ok ()
  | c :: rest =>
      let current := push current c in
      let!? _ := reject_existing_symlink current in
      reject_each current rest
  end.

Definition reject_existing_symlink_ancestors (write_root target : list Component) : F (result unit WErr) :=
  let root := normalize_lexical write_root in
  let target := normalize_lexical target in
  if negb (starts_with_path root target) then ret_err (escapes_root target root)
  else
    let!? _ := reject_existing_symlink root in
    match strip_prefix_path root target with
    | None => ret_err (escapes_root target root)
    | Some relative => reject_each root relative
    end.

Definition reject_symlink (p : list Component) : F (result unit WErr) :=
  let! m := lstat p in
  match m with
  | Err NotFound => ret_err (Tool (Sdk "not_found" "path is missing"))
  | Err e => ret_err (Tool (Sdk "internal_error" ("lstat failed: " +:+ io_text e)))
  | Ok md =>
      if is_symlink md
      then ret_err (Tool (Sdk "symlink_rejected" ("refusing to operate on symlinked path `" +:+ display p +:+ "`")))
      else ret_ok ()
  end.

Definition reject_existing_symlinks_in_path (path : list Component) : F (result unit WErr) :=
  reject_each [] (normalize_lexical path).

(** A call whose error is mapped by [f]. *)
Definition try_io {A} (p : F (result A IoError)) (f : IoError → WErr) : F (result A WErr) :=
  let! r := p in Ret (map_err f r).

Section Workspace.
Context `{CodePlatform} (fuel : nat) (ws : StateWorkspace).

Definition resolve (path : string) : list Component := join_path (ws_root ws) (components path).

Definition denied (message : string) : WErr := Tool (Sdk "permission_denied" message).

Definition reject_existing_symlink_path (path : list Component) : F (result unit WErr) :=
  let! m := lstat path in
  match m with
  | Ok md => if is_symlink md then ret_err (denied "state path is denied because it is a symlink") else ret_ok ()
  | Err NotFound => ret_ok ()
  | Err e => ret_err (internal_io "read state path metadata" e)
  end.

(** Both guards, as every method applies them to its path. *)
Definition guard_path (destination : list Component) : F (result unit WErr) :=
  let!? _ := reject_existing_symlink_ancestors (ws_root ws) destination in
  reject_existing_symlink_path destination.

(** ** Usage and quotas *)

(** The entries of one directory: what is pushed on the stack, and the totals. *)
Fixpoint usage_entries (dir : list Component) (entries : list (result string IoError))
    (stack : list (list Component)) (u : WorkspaceUsage) : F (result (list (list Component) * WorkspaceUsage) WErr) :=
  match entries with
  | [] => ret_ok (stack, u)
  | Err e :: _ => ret_err (internal_io "scan state workspace entry" e)
  | Ok name :: rest =>
      let path := push dir (Normal name) in
      let!? metadata := try_io (lstat path) (internal_io "read state workspace metadata") in
      if is_symlink metadata then usage_entries dir rest stack u
      else
        let u := if starts_with_path (ws_root ws) path
                 then mkWorkspaceUsage (wu_bytes u) (u64_saturating_add (wu_entries u) 1) else u in
        if is_dir metadata then usage_entries dir rest (path :: stack) u
        else if is_file metadata
        then usage_entries dir rest stack
               (mkWorkspaceUsage (u64_saturating_add (wu_bytes u) (md_len metadata)) (wu_entries u))
        else usage_entries dir rest stack u
  end.

Fixpoint usage_loop (n : nat) (stack : list (list Component)) (u : WorkspaceUsage) : F (result WorkspaceUsage WErr) :=
  match n with
  | 0 => ret_err Diverged
  | S n =>
      match stack with
      | [] => ret_ok u
      | dir :: stack =>
          let! rd := trigger (ReadDir dir) in
          match rd with
          | Err NotFound => usage_loop n stack u
          | Err e => ret_err (internal_io "scan state workspace" e)
          | Ok entries =>
              let!? next := usage_entries dir entries stack u in
              usage_loop n next.1 next.2
          end
      end
  end.

Definition workspace_usage : F (result WorkspaceUsage WErr) := usage_loop fuel [ws_root ws] (mkWorkspaceUsage 0 0).

(** The names still to be created: the count stops at the first one missing. *)
Fixpoint count_missing (current : list Component) (parts : list string) : F (result Z WErr) :=
  match parts with
  | [] => ret_ok 0%Z
  | part :: rest =>
      let current := push current (Normal part) in
      let! m := lstat current in
      match m with
      | Ok _ => count_missing current rest
      | Err NotFound => ret_ok (Z.of_nat (length parts))
      | Err e => ret_err (internal_io "read state path metadata" e)
      end
  end.

Definition normal_names (p : list Component) : list string :=
  omap (fun c => match c with Normal n => Some n | _ => None end) p.

Definition missing_entry_count (destination : list Component) : F (result Z WErr) :=
  match strip_prefix_path (ws_root ws) destination with
  | None => ret_err (Tool (Sdk "path_traversal" "state path escapes the workspace"))
  | Some relative =>
      if is_reserved_metadata_path (rel_to_unix_string relative) then ret_ok 0%Z
      else count_missing (ws_root ws) (normal_names relative)
  end.

Definition quota_exceeded (message : string) : WErr := Tool (Sdk "quota_exceeded" message).

Definition check_write_quota (destination : list Component) (next_file_bytes : Z) : F (result unit WErr) :=
  let! m := trigger (FollowMetadata destination) in
  let current_file_bytes := match m with Ok md => if is_file md then md_len md else 0%Z | Err _ => 0%Z end in
  let!? usage := workspace_usage in
  let projected := u64_saturating_add (u64_saturating_sub (wu_bytes usage) current_file_bytes) next_file_bytes in
  if bool_decide (max_total_bytes (ws_limits ws) < projected)%Z
  then ret_err (quota_exceeded ("state workspace would be " +:+ pretty projected +:+ " bytes; maximum is "
                  +:+ pretty (max_total_bytes (ws_limits ws))))
  else
    let!? missing := missing_entry_count destination in
    let projected_entries := u64_saturating_add (wu_entries usage) missing in
    if bool_decide (max_entries (ws_limits ws) < projected_entries)%Z
    then ret_err (quota_exceeded ("state workspace would have " +:+ pretty projected_entries
                    +:+ " entries; maximum is " +:+ pretty (max_entries (ws_limits ws))))
    else ret_ok ().

Definition enforce_total_limits : F (result unit WErr) :=
  let!? usage := workspace_usage in
  if bool_decide (max_total_bytes (ws_limits ws) < wu_bytes usage)%Z
  then ret_err (quota_exceeded ("state workspace is " +:+ pretty (wu_bytes usage) +:+ " bytes; maximum is "
                  +:+ pretty (max_total_bytes (ws_limits ws))))
  else if bool_decide (max_entries (ws_limits ws) < wu_entries usage)%Z
  then ret_err (quota_exceeded ("state workspace has " +:+ pretty (wu_entries usage) +:+ " entries; maximum is "
                  +:+ pretty (max_entries (ws_limits ws))))
  else ret_ok ().
Definition enforce_total_bytes : F (result unit WErr) := enforce_total_limits.

Definition check_entry_quota_for_path (destination : list Component) : F (result unit WErr) :=
  let!? usage := workspace_usage in
  let!? missing := missing_entry_count destination in
  let projected := u64_saturating_add (wu_entries usage) missing in
  if bool_decide (max_entries (ws_limits ws) < projected)%Z
  then ret_err (quota_exceeded ("state workspace would have " +:+ pretty projected +:+ " entries; maximum is "
                  +:+ pretty (max_entries (ws_limits ws))))
  else ret_ok ().

Definition cleanup_file_after_quota_error (path : list Component) (original : WErr) (label : string) : F (result unit WErr) :=
  let! r := trigger (RemoveFile path) in
  match r with
  | Ok _ | Err NotFound => ret_err original
  | Err e => ret_err (Tool (Sdk "quota_cleanup_failed" (label +:+ " exceeded quota and cleanup failed: " +:+ io_text e)))
  end.

(** ** Files *)

Definition create_dir_all (p : list Component) (action : string) : F (result unit WErr) :=
  try_io (trigger (CreateDirAll p)) (internal_io action).
Definition create_parent (p : list Component) (action : string) : F (result unit WErr) :=
  match parent p with Some dir => create_dir_all dir action | None => ret_ok () end.

Definition create_temp_path : F (result (list Component) WErr) :=
  let dir := push (push (ws_root ws) (Normal ".labby-state")) (Normal "tmp") in
  let!? _ := create_dir_all dir "create state temp directory" in
  let!? _ := reject_existing_symlink_ancestors (ws_root ws) dir in
  let!? metadata := try_io (lstat dir) (internal_io "inspect state temp directory") in
  if negb (is_dir metadata) || is_symlink metadata then ret_err (denied "state temp directory is not a directory")
  else
    let! id := trigger NewUlid in
    ret_ok (push dir (Normal (id +:+ ".tmp"))).

Definition write_file (path content : string) : F (result unit WErr) :=
  if bool_decide (max_file_bytes (ws_limits ws) < Str.len content)%Z
  then ret_err (Tool (InvalidParam ("state file content is " +:+ pretty (Str.len content) +:+ " bytes; maximum is "
                        +:+ pretty (max_file_bytes (ws_limits ws))) "content"))
  else
    let destination := resolve path in
    let!? _ := guard_path destination in
    let!? _ := check_write_quota destination (Str.len content) in
    let!? _ := create_parent destination "create state directory" in
    let!? _ := guard_path destination in
    let!? tmp := create_temp_path in
    let!? _ := try_io (trigger (CreateNew tmp)) (internal_io "create state temp file") in
    let!? _ := try_io (trigger (WriteAll tmp content)) (internal_io "write state temp file") in
    let!? _ := try_io (trigger (Flush tmp)) (internal_io "flush state temp file") in
    let!? tmp_metadata := try_io (lstat tmp) (internal_io "inspect state temp file") in
    if negb (is_file tmp_metadata) || is_symlink tmp_metadata
    then
      let! _ := trigger (RemoveFile tmp) in
      ret_err (denied "state temp path is not a regular file")
    else
      let!? _ := guard_path destination in
      try_io (trigger (Rename tmp destination)) (internal_io "move state temp file").

Definition response_too_large (message : string) : WErr := Tool (Sdk "response_too_large" message).

Definition read_file (path : string) : F (result ReadFileResult WErr) :=
  let destination := resolve path in
  let!? _ := guard_path destination in
  let!? _ := try_io (trigger (OpenFile destination)) (not_found_or_internal "open state file") in
  let!? content := try_io (trigger (ReadTake destination (max_result_bytes (ws_limits ws) + 1)))
                     (internal_io "read state file") in
  if negb (from_utf8_ok content)
  then ret_err (internal_io "read state file" (OtherIo "stream did not contain valid UTF-8"))
  else if bool_decide (max_result_bytes (ws_limits ws) < Str.len content)%Z
  then ret_err (response_too_large "state read result exceeded max result bytes")
  else ret_ok (mkReadFileResult path content (Str.len content)).

Definition append_file (path content : string) : F (result MutationResult WErr) :=
  let! r := read_file path in
  let continue existing :=
    let next := existing +:+ content in
    let!? _ := write_file path next in
    ret_ok (mkMutationResult true path) in
  match r with
  | Ok file => continue (rf_content file)
  | Err e => if String.eqb (err_kind e) "not_found" then continue "" else ret_err e
  end.

Definition exists_path (path : string) : F (result ExistsResult WErr) :=
  let destination := resolve path in
  let!? _ := guard_path destination in
  let! m := trigger (FollowMetadata destination) in
  match m with
  | Ok _ => ret_ok (mkExistsResult path true)
  | Err NotFound => ret_ok (mkExistsResult path false)
  | Err e => ret_err (internal_io "read state path metadata" e)
  end.

Definition stat (path : string) : F (result StatResult WErr) :=
  let destination := resolve path in
  let!? _ := guard_path destination in
  let!? metadata := try_io (trigger (FollowMetadata destination)) (not_found_or_internal "read state path metadata") in
  if is_file metadata then ret_ok (mkStatResult path "file" (md_len metadata))
  else if is_dir metadata then ret_ok (mkStatResult path "directory" (md_len metadata))
  else ret_err (denied "state path kind is not supported").

Definition mkdir (path : string) : F (result MutationResult WErr) :=
  let destination := resolve path in
  let!? _ := guard_path destination in
  let!? _ := check_entry_quota_for_path destination in
  let!? _ := create_dir_all destination "create state directory" in
  let!? _ := guard_path destination in
  ret_ok (mkMutationResult true path).

Definition remove (path : string) (recursive : bool) : F (result MutationResult WErr) :=
  if is_reserved_metadata_path path then ret_err (denied "state metadata paths cannot be removed")
  else
    let destination := resolve path in
    let!? _ := guard_path destination in
    let!? metadata := try_io (trigger (FollowMetadata destination)) (not_found_or_internal "read state path metadata") in
    let!? _ :=
      (if is_file metadata then try_io (trigger (RemoveFile destination)) (internal_io "remove state file")
       else if is_dir metadata then
         if recursive then try_io (trigger (RemoveDirAll destination)) (internal_io "remove state directory tree")
         else try_io (trigger (RemoveDir destination)) (internal_io "remove state directory")
       else ret_err (denied "state path kind is not supported")) in
    ret_ok (mkMutationResult true path).

Definition copy (from to : string) : F (result MutationResult WErr) :=
  let!? source := read_file from in
  let!? _ := write_file to (rf_content source) in
  ret_ok (mkMutationResult true to).

Definition move_path (from to : string) : F (result MutationResult WErr) :=
  let source := resolve from in
  let destination := resolve to in
  let!? _ := reject_existing_symlink_ancestors (ws_root ws) source in
  let!? _ := reject_existing_symlink_ancestors (ws_root ws) destination in
  let!? _ := reject_existing_symlink_path source in
  let!? _ := reject_existing_symlink_path destination in
  let!? _ := check_entry_quota_for_path destination in
  let!? _ := create_parent destination "create state move directory" in
  let!? _ := try_io (trigger (Rename source destination)) (not_found_or_internal "move state path") in
  ret_ok (mkMutationResult true to).

Definition read_file_bytes (path : string) : F (result string WErr) :=
  let destination := resolve path in
  let!? _ := guard_path destination in
  let!? _ := try_io (trigger (OpenFile destination)) (not_found_or_internal "open state file") in
  let!? bytes := try_io (trigger (ReadTake destination (max_file_bytes (ws_limits ws) + 1)))
                   (internal_io "read state file") in
  if bool_decide (max_file_bytes (ws_limits ws) < Str.len bytes)%Z
  then ret_err (response_too_large "state file exceeded max readable bytes")
  else ret_ok bytes.

Definition read_json (path : string) : F (result (string * Json) WErr) :=
  let!? file := read_file path in
  match json_parse (rf_content file) with
  | Ok v => ret_ok (path, v)
  | Err e => ret_err (Tool (InvalidParam ("state file is not valid JSON: " +:+ e) "path"))
  end.

Definition write_json (path : string) (value : Json) (pretty_print : bool) : F (result unit WErr) :=
  match json_print pretty_print value with
  | Err e => ret_err (serialize_error e)
  | Ok content => write_file path (content +:+ String newline "")
  end.

Definition hash_file (path algorithm : string) : F (result HashFileResult WErr) :=
  if negb (String.eqb algorithm "sha256")
  then ret_err (Tool (InvalidParam "state hashFile only supports sha256" "algorithm"))
  else
    let!? bytes := read_file_bytes path in
    ret_ok (mkHashFileResult path algorithm (sha256_hex bytes) (Str.len bytes)).

Definition detect_file (path : string) : F (result DetectFileResult WErr) :=
  let!? bytes := read_file_bytes path in
  let ext := match extension (components path) with Some e => Str.to_ascii_lowercase e | None => "" end in
  let json := String.eqb ext "json" || is_ok (json_parse bytes) in
  ret_ok (mkDetectFileResult path ext (from_utf8_ok bytes) json (Str.len bytes)).

End Workspace.

(** ** The symlink guards on a file system

    [reject_existing_symlink] and [reject_existing_symlink_ancestors] only look,
    and when they accept a path no link is on it.  The clients are the
    workspace, whose write root is the root of the modelled tree, and the
    artifact store, whose write root is a directory below it. *)

(** The host path of a key. *)
Definition host_path (w : World) (k : Key) : list Component := w_root w ++ (Normal <$> k).

Lemma same_host_path w w' k : same w w' → host_path w' k = host_path w k.
Proof. intros (Hr & _). unfold host_path. by rewrite Hr. Qed.
Lemma push_host_path w k c : push (host_path w k) (Normal c) = host_path w (k ++ [c]).
Proof. apply push_key. Qed.
Lemma settled_host_path w k : clear (w_fs w) k → settled w (host_path w k) k.
Proof. by split. Qed.
Lemma inside_host_path w k c : clear (w_fs w) k → inside w (host_path w (k ++ [c])) (k ++ [c]).
Proof. intros Hk. rewrite <- push_host_path. by apply settled_child, settled_host_path. Qed.

Lemma clear_extend fs k c : clear fs k → fs !! (k ++ [c]) ≠ Some NSymlink → clear fs (k ++ [c]).
Proof.
  intros Hk Hn q Hq. destruct (decide (q = k ++ [c])) as [->|Hne]; [done|]. apply Hk.
  destruct Hq as [r Hq]. destruct r as [|x r _] using rev_ind; [by rewrite app_nil_r in Hq|].
  rewrite app_assoc in Hq. apply app_inj_tail in Hq as [-> _]. by exists r.
Qed.

Definition reject_ok (m : result Metadata IoError) : bool :=
  match m with Ok md => negb (is_symlink md) | Err NotFound => true | Err _ => false end.

Lemma run_lstat w p : run host (lstat p) w = host (SymlinkMetadata p) w.
Proof. exact (run_trigger host (SymlinkMetadata p) w). Qed.

Lemma run_reject w p :
  (run host (reject_existing_symlink p) w).2 = (host (SymlinkMetadata p) w).2 ∧
  is_ok (run host (reject_existing_symlink p) w).1 = reject_ok (host (SymlinkMetadata p) w).1.
Proof.
  unfold reject_existing_symlink. rewrite run_bind, run_lstat.
  destruct (host (SymlinkMetadata p) w) as [[md|[| |m]] w']; simpl; [by destruct (is_symlink md)|done..].
Qed.

(** An accepted answer for the next name of a clear path. *)
Lemma lstat_next w k c :
  wf (w_fs w) → clear (w_fs w) k → reject_ok (host (SymlinkMetadata (host_path w (k ++ [c]))) w).1 = true →
  clear (w_fs w) (k ++ [c]).
Proof.
  intros Hwf Hk Hr. apply clear_extend; [done|].
  destruct (lstat_reads w _ _ Hwf (inside_host_path w k c Hk)) as [_ Hl].
  destruct (host _ w).1 as [md|[| |m]]; simpl in *; [|by rewrite Hl|done..].
  rewrite Hl. intros [= E]. unfold is_symlink in Hr. by rewrite E in Hr.
Qed.

(** Checking one path whose resolution stays inside. *)
Lemma reject_at w p k :
  wf (w_fs w) → inside w p k →
  same w (run host (reject_existing_symlink p) w).2 ∧
  (is_ok (run host (reject_existing_symlink p) w).1 = true → w_fs w !! k ≠ Some NSymlink).
Proof.
  intros Hwf Hi. destruct (lstat_reads w p k Hwf Hi) as [Hs Hl]. destruct (run_reject w p) as [-> ->].
  split; [done|]. destruct (host _ w).1 as [md|[| |m]]; simpl; [|by rewrite Hl|done..].
  rewrite Hl. intros Hr [= E]. unfold is_symlink in Hr. by rewrite E in Hr.
Qed.

(** Checking one more name, from a clear path. *)
Lemma reject_next w k c :
  wf (w_fs w) → clear (w_fs w) k →
  same w (run host (reject_existing_symlink (host_path w (k ++ [c]))) w).2 ∧
  (is_ok (run host (reject_existing_symlink (host_path w (k ++ [c]))) w).1 = true → clear (w_fs w) (k ++ [c])).
Proof.
  intros Hwf Hk. destruct (reject_at w _ _ Hwf (inside_host_path w k c Hk)) as [Hs Hok].
  split; [done|]. intros E. apply clear_extend; auto.
Qed.

Lemma reject_names w k r :
  wf (w_fs w) → clear (w_fs w) k →
  same w (run host (reject_each (host_path w k) (Normal <$> r)) w).2 ∧
  (is_ok (run host (reject_each (host_path w k) (Normal <$> r)) w).1 = true → clear (w_fs w) (k ++ r)).
Proof.
  revert w k. induction r as [|c r IH]; intros w k Hwf Hk; [rewrite app_nil_r; by split|].
  rewrite fmap_cons. cbn [reject_each]. rewrite push_host_path, run_try. destruct (reject_next w k c Hwf Hk) as [Hs Hok].
  destruct (run host (reject_existing_symlink (host_path w (k ++ [c]))) w) as [[u|e] w']; simpl in *; [|done].
  specialize (Hok eq_refl). assert (w_fs w' = w_fs w) as Hf by by destruct Hs as (_ & ? & _).
  destruct (IH w' (k ++ [c])) as [Hs' Hok']; [by rewrite Hf|by rewrite Hf|].
  rewrite (same_host_path w w') in Hs', Hok' by done. rewrite <- app_assoc, Hf in Hok'.
  split; [by eapply same_trans|done].
Qed.

Lemma host_path_plain w k : plain (w_root w) = true → plain (host_path w k) = true.
Proof. intros. by apply plain_app. Qed.

(** The guard of a write root at [d] and a target below it, when the parent of
    the write root is clear or the write root is the root of the tree. *)
Lemma ancestors_guard w d k :
  wf (w_fs w) → plain (w_root w) = true → inside w (host_path w d) d →
  (w_fs w !! d ≠ Some NSymlink → clear (w_fs w) d) →
  same w (run host (reject_existing_symlink_ancestors (host_path w d) (host_path w (d ++ k))) w).2 ∧
  (is_ok (run host (reject_existing_symlink_ancestors (host_path w d) (host_path w (d ++ k))) w).1 = true →
   clear (w_fs w) (d ++ k)).
Proof.
  intros Hwf Hp Hi Hd. unfold reject_existing_symlink_ancestors. rewrite !normalize_plain by by apply host_path_plain.
  assert (strip_prefix_path (host_path w d) (host_path w (d ++ k)) = Some (Normal <$> k)) as Hst.
  { unfold host_path. rewrite fmap_app, app_assoc. apply strip_prefix_app. }
  unfold starts_with_path. rewrite Hst, bool_decide_true by done. cbn [negb]. rewrite run_try.
  destruct (reject_at w _ _ Hwf Hi) as [Hs Hok].
  destruct (run host (reject_existing_symlink (host_path w d)) w) as [[u|e] w']; simpl in *; [|done].
  specialize (Hd (Hok eq_refl)). assert (w_fs w' = w_fs w) as Hf by by destruct Hs as (_ & ? & _).
  destruct (reject_names w' d k) as [Hs' Hok']; [by rewrite Hf|by rewrite Hf|].
  rewrite (same_host_path w w') in Hs', Hok' by done. rewrite Hf in Hok'. split; [by eapply same_trans|done].
Qed.
