(* ===== verification/WorkspaceBatch.v ===== *)
(** * WorkspaceBatch: trees, archives, search and batch edits

    The rest of [labby-codemode/src/state/workspace.rs] (walking, archives,
    globs, search, replacement, edit plans with their rollback) and the
    dispatcher of [state/provider.rs], on requests whose parameters are
    decoded. *)

From Stdlib Require Import Ascii.
From stdpp Require Import base list gmap strings pretty.
From S2P Require Import Prelude RustStr Prog Paths Fs Workspace.

Section Batch.
Context `{CodePlatform} (fuel : nat) (ws : StateWorkspace).

Notation guard := (guard_path ws).

(** ** Walking *)

(** The entries of one directory; [inr] is the early return on the limit. *)
Fixpoint walk_tree_entries (limit : Z) (dir : list Component) (names : list (result string IoError))
    (stack : list (list Component)) (acc : list WalkEntry) :
    F (result ((list (list Component) * list WalkEntry) + WalkTreeResult) WErr) :=
  match names with
  | [] => ret_ok (inl (stack, acc))
  | Err e :: _ => ret_err (internal_io "read state directory entry" e)
  | Ok name :: rest =>
      let path := push dir (Normal name) in
      match strip_prefix_path (ws_root ws) path with
      | None => walk_tree_entries limit dir rest stack acc
      | Some relative =>
          let virtual_path := rel_to_unix_string relative in
          if is_reserved_metadata_path virtual_path then walk_tree_entries limit dir rest stack acc
          else
            let!? metadata := try_io (lstat path) (internal_io "read state workspace metadata") in
            if is_symlink metadata then ret_err (denied "state walk rejected a symlink")
            else if negb (is_dir metadata) && negb (is_file metadata)
            then ret_err (denied "state path kind is not supported")
            else
              let stack := if is_dir metadata then path :: stack else stack in
              let kind := if is_dir metadata then "directory" else "file" in
              let acc := acc ++ [mkWalkEntry virtual_path kind (md_len metadata)] in
              if bool_decide (limit < Z.of_nat (length acc))%Z
              then ret_ok (inr (mkWalkTreeResult (take (Z.to_nat limit) (sort_by we_path acc)) true))
              else walk_tree_entries limit dir rest stack acc
      end
  end.

Fixpoint walk_tree_loop (n : nat) (limit : Z) (stack : list (list Component)) (acc : list WalkEntry) :
    F (result WalkTreeResult WErr) :=
  match n with
  | 0 => ret_err Diverged
  | S n =>
      match stack with
      | [] => ret_ok (mkWalkTreeResult (sort_by we_path acc) false)
      | dir :: stack =>
          let!? names := try_io (trigger (ReadDir dir)) (not_found_or_internal "read state directory") in
          let!? next := walk_tree_entries limit dir names stack acc in
          match next with
          | inl (stack, acc) => walk_tree_loop n limit stack acc
          | inr r => ret_ok r
          end
      end
  end.

Definition walk_tree (path : string) (limit : Z) : F (result WalkTreeResult WErr) :=
  let limit := normalize_limit limit in
  let start := resolve ws path in
  let!? _ := guard start in
  walk_tree_loop fuel limit [start] [].

(** [walk_files] skips what it does not list, and stops at the limit. *)
Fixpoint walk_files_entries (limit : Z) (dir : list Component) (names : list (result string IoError))
    (stack : list (list Component)) (acc : list string) : F (result (list (list Component) * list string * bool) WErr) :=
  match names with
  | [] => ret_ok (stack, acc, false)
  | Err e :: _ => ret_err (internal_io "walk state workspace entry" e)
  | Ok name :: rest =>
      let path := push dir (Normal name) in
      match strip_prefix_path (ws_root ws) path with
      | None => walk_files_entries limit dir rest stack acc
      | Some relative =>
          let virtual_path := rel_to_unix_string relative in
          if is_reserved_metadata_path virtual_path then walk_files_entries limit dir rest stack acc
          else
            let!? metadata := try_io (lstat path) (internal_io "read state workspace metadata") in
            if is_symlink metadata then walk_files_entries limit dir rest stack acc
            else if is_dir metadata then walk_files_entries limit dir rest (path :: stack) acc
            else if is_file metadata then
              let acc := acc ++ [virtual_path] in
              if bool_decide (limit < Z.of_nat (length acc))%Z then ret_ok (stack, acc, true)
              else walk_files_entries limit dir rest stack acc
            else walk_files_entries limit dir rest stack acc
      end
  end.

Fixpoint walk_files_loop (n : nat) (limit : Z) (stack : list (list Component)) (acc : list string) :
    F (result WalkFilesResult WErr) :=
  match n with
  | 0 => ret_err Diverged
  | S n =>
      match stack with
      | [] => ret_ok (mkWalkFilesResult (sort_strings acc) false)
      | dir :: stack =>
          let! rd := trigger (ReadDir dir) in
          match rd with
          | Err NotFound => walk_files_loop n limit stack acc
          | Err e => ret_err (internal_io "walk state workspace" e)
          | Ok names =>
              let!? next := walk_files_entries limit dir names stack acc in
              let '(stack, acc, truncated) := next in
              if truncated : bool
              then ret_ok (mkWalkFilesResult (take (Z.to_nat limit) (sort_strings acc)) true)
              else walk_files_loop n limit stack acc
          end
      end
  end.
Definition walk_files (limit : Z) : F (result WalkFilesResult WErr) := walk_files_loop fuel limit [ws_root ws] [].

Fixpoint list_entries (path : string) (names : list (result string IoError)) (acc : list string) :
    F (result (list string) WErr) :=
  match names with
  | [] => ret_ok acc
  | Err e :: _ => ret_err (internal_io "read state directory entry" e)
  | Ok name :: rest =>
      let child_path := if Str.is_empty path then name else path +:+ "/" +:+ name in
      if is_reserved_metadata_path child_path then list_entries path rest acc
      else
        let acc := acc ++ [name] in
        if bool_decide (max_entries (ws_limits ws) < Z.of_nat (length acc))%Z
        then ret_err (response_too_large "state list exceeded max entries")
        else list_entries path rest acc
  end.

Definition list_dir (path : string) : F (result (list string) WErr) :=
  let dir := resolve ws path in
  let!? _ := guard dir in
  let!? names := try_io (trigger (ReadDir dir)) (not_found_or_internal "read state directory") in
  let!? entries := list_entries path names [] in
  ret_ok (sort_strings entries).

(** ** Archives *)

Definition member_escapes : WErr := Tool (Sdk "path_traversal" "state archive member path escapes the workspace").

Definition validate_archive_member_path (path : string) : result unit WErr :=
  if Str.is_empty (Str.trim path) || Str.starts_with "/" path || has_windows_drive_prefix path then Err member_escapes
  else if existsb (fun c => match c with ParentDir | RootDir => true | _ => false end) (components path)
  then Err member_escapes
  else Ok ().

Definition archive_entry_name (source_virtual virtual_path : string) : result string WErr :=
  let? relative :=
    if String.eqb virtual_path source_virtual then
      ok_or (file_name (components virtual_path))
        (Tool (InvalidParam "state archive source must have a file name" "source"))
    else
      ok_or (r ← Str.strip_prefix source_virtual virtual_path; Str.strip_prefix "/" r)
        (Tool (Sdk "internal_error" "state archive entry escaped source")) in
  let? _ := validate_archive_member_path relative in Ok relative.

Definition reject_sync_symlink (path : list Component) : F (result unit WErr) :=
  let!? metadata := try_io (lstat path) (not_found_or_internal "read state path metadata") in
  if is_symlink metadata then ret_err (denied "state archive rejected a symlink") else ret_ok ().

(** [append_path_with_name]: the whole file, then the entry it becomes. *)
Definition append_path_with_name (destination host_path : list Component) (name : string) : F (result unit WErr) :=
  let f := internal_io "append state archive entry" in
  let!? _ := try_io (trigger (OpenFile host_path)) f in
  let!? content := try_io (trigger (ReadTake host_path u64_max)) f in
  try_io (trigger (WriteAll destination (tar_entry name content))) f.

Fixpoint append_files (source_virtual destination_virtual : string) (destination : list Component)
    (files : list string) (entries : Z) : F (result Z WErr) :=
  match files with
  | [] => ret_ok entries
  | virtual_path :: rest =>
      if String.eqb virtual_path destination_virtual
      then append_files source_virtual destination_virtual destination rest entries
      else
        let host_path := join_path (ws_root ws) (components virtual_path) in
        let!? _ := reject_sync_symlink host_path in
        let!? entry_name := lift (archive_entry_name source_virtual virtual_path) in
        if Str.is_empty entry_name then append_files source_virtual destination_virtual destination rest entries
        else
          let!? _ := append_path_with_name destination host_path entry_name in
          append_files source_virtual destination_virtual destination rest (entries + 1)
  end.

(** The builder writes the trailer, also when it is dropped after an error. *)
Definition create_tar_archive (source_virtual destination_virtual : string) (destination : list Component)
    (files : list string) : F (result Z WErr) :=
  let!? _ := try_io (trigger (WriteFile destination "")) (internal_io "create state archive") in
  let! appended := append_files source_virtual destination_virtual destination files 0 in
  match appended with
  | Ok entries =>
      let!? _ := try_io (trigger (WriteAll destination tar_trailer)) (internal_io "finish state archive") in
      ret_ok entries
  | Err e =>
      let! _ := trigger (WriteAll destination tar_trailer) in
      ret_err e
  end.

Definition archive_create (source destination : string) : F (result ArchiveCreateResult WErr) :=
  if negb (Str.ends_with ".tar" destination)
  then ret_err (Tool (InvalidParam "state archiveCreate only supports .tar destinations" "destination"))
  else
    let source_path := resolve ws source in
    let destination_path := resolve ws destination in
    let!? _ := reject_existing_symlink_ancestors (ws_root ws) source_path in
    let!? _ := reject_existing_symlink_ancestors (ws_root ws) destination_path in
    let!? _ := reject_existing_symlink_path source_path in
    let!? _ := reject_existing_symlink_path destination_path in
    let!? _ := check_entry_quota_for_path fuel ws destination_path in
    let!? _ := create_parent destination_path "create state archive directory" in
    let!? source_metadata := try_io (trigger (FollowMetadata source_path))
                               (not_found_or_internal "read state archive source metadata") in
    let!? files :=
      (if is_file source_metadata then ret_ok [source]
       else if is_dir source_metadata then
         let!? tree := walk_tree source (max_entries (ws_limits ws)) in
         if wt_truncated tree then ret_err (response_too_large "state archive source exceeded max entries")
         else ret_ok (we_path <$> List.filter (fun e => String.eqb (we_kind e) "file") (wt_entries tree))
       else ret_err (denied "state archive source kind is not supported")) in
    let!? entries := create_tar_archive source destination destination_path files in
    let! limits := enforce_total_limits fuel ws in
    let!? _ := (match limits with
                | Ok _ => ret_ok ()
                | Err e => cleanup_file_after_quota_error destination_path e "state archive"
                end) in
    ret_ok (mkArchiveCreateResult true destination entries).

Fixpoint collect_members (limit : Z) (paths : list (result string string)) (acc : list string) :
    result (list string * bool) WErr :=
  match paths with
  | [] => Ok (sort_strings acc, false)
  | Err e :: _ => Err (internal_io "read state archive entry" (OtherIo e))
  | Ok p :: rest =>
      let value := rel_to_unix_string (components p) in
      let? _ := validate_archive_member_path value in
      let acc := acc ++ [value] in
      if bool_decide (limit < Z.of_nat (length acc))%Z then Ok (take (Z.to_nat limit) (sort_strings acc), true)
      else collect_members limit rest acc
  end.

Definition archive_list (path : string) (limit : Z) : F (result ArchiveListResult WErr) :=
  let limit := normalize_limit limit in
  let archive_path := resolve ws path in
  let!? _ := guard archive_path in
  let!? _ := try_io (trigger (OpenFile archive_path)) (not_found_or_internal "open state archive") in
  let!? content := try_io (trigger (ReadTake archive_path u64_max)) (internal_io "read state archive entries") in
  let!? members := lift (collect_members limit (tar_paths content) []) in
  ret_ok (mkArchiveListResult path members.1 members.2).

(** ** Globs and search *)

(** The next Unicode character of a string, by its leading byte. *)
Fixpoint take_continuation (s : string) : string * string :=
  match s with
  | String a r => if is_continuation a then let '(x, y) := take_continuation r in (String a x, y) else (EmptyString, s)
  | EmptyString => (EmptyString, EmptyString)
  end.

(** The translation of a glob, from left to right: [skip] bytes belong to a
    token that is already translated. *)
Fixpoint glob_regex_go (skip : nat) (s : string) : string :=
  match s with
  | EmptyString => EmptyString
  | String a r =>
      match skip with
      | S k => glob_regex_go k r
      | 0 =>
          if Str.starts_with "**/" s then "(?:.*/)?" +:+ glob_regex_go 2 r
          else if Str.starts_with "**" s then ".*" +:+ glob_regex_go 1 r
          else if Ascii.eqb a "*" then "[^/]*" +:+ glob_regex_go 0 r
          else if Ascii.eqb a "?" then "[^/]" +:+ glob_regex_go 0 r
          else let c := String a (take_continuation r).1 in
               regex_escape c +:+ glob_regex_go (String.length c - 1) r
      end
  end.

Definition glob_pattern_regex (pattern : string) : result Regex WErr :=
  if Str.is_empty (Str.trim pattern)
  then Err (Tool (InvalidParam "state glob pattern must not be empty" "pattern"))
  else if Str.contains ".." pattern || Str.starts_with "/" pattern || Str.contains ":" pattern
  then Err (Tool (Sdk "path_traversal" "state glob pattern must stay inside the workspace"))
  else
    map_err (fun e => Tool (InvalidParam ("invalid state glob pattern: " +:+ e) "pattern"))
      (regex_new ("^" +:+ glob_regex_go 0 pattern +:+ "$")).

(** The files that match, up to the limit. *)
Fixpoint glob_collect (matcher : Regex) (limit : Z) (files : list string) (acc : list string) : list string * bool :=
  match files with
  | [] => (acc, false)
  | file :: rest =>
      if is_match matcher file then
        let acc := acc ++ [file] in
        if bool_decide (limit < Z.of_nat (length acc))%Z then (take (Z.to_nat limit) acc, true)
        else glob_collect matcher limit rest acc
      else glob_collect matcher limit rest acc
  end.

Definition glob (pattern : string) (limit : Z) : F (result GlobResult WErr) :=
  let limit := normalize_limit limit in
  let!? matcher := lift (glob_pattern_regex pattern) in
  let!? walked := walk_files (max_entries (ws_limits ws)) in
  let '(matches, hit) := glob_collect matcher limit (sort_strings (wf_files walked)) [] in
  ret_ok (mkGlobResult matches (if hit : bool then true else wf_truncated walked)).

Definition ensure_serialized_result_fits (matches : list SearchMatch) (max : Z) : result unit WErr :=
  match matches_json_len matches with
  | Err e => Err (serialize_error e)
  | Ok len => if bool_decide (max < len)%Z
              then Err (response_too_large "state search result exceeded max result bytes") else Ok ()
  end.

(** The matching lines of one file; [inr] is the early return on the limit. *)
Fixpoint search_lines (limit : Z) (path query : string) (index : Z) (ls : list string) (acc : list SearchMatch) :
    result (list SearchMatch + list SearchMatch) WErr :=
  match ls with
  | [] => Ok (inl acc)
  | line :: rest =>
      if Str.contains query line then
        let acc := acc ++ [mkSearchMatch path (index + 1) (cap_line_preview line)] in
        if bool_decide (limit < Z.of_nat (length acc))%Z then Ok (inr (take (Z.to_nat limit) acc))
        else
          let? _ := ensure_serialized_result_fits acc (max_result_bytes (ws_limits ws)) in
          search_lines limit path query (index + 1) rest acc
      else search_lines limit path query (index + 1) rest acc
  end.

Fixpoint search_paths (limit : Z) (query : string) (paths : list string) (acc : list SearchMatch) :
    F (result (list SearchMatch * bool) WErr) :=
  match paths with
  | [] => ret_ok (acc, false)
  | path :: rest =>
      let!? virtual_path := lift (lift_tool (parse path)) in
      let!? file := read_file ws virtual_path in
      let!? found := lift (search_lines limit path query 0 (lines (rf_content file)) acc) in
      match found with
      | inl acc => search_paths limit query rest acc
      | inr acc => ret_ok (acc, true)
      end
  end.

Definition search_files (pattern query : string) (limit : Z) : F (result SearchFilesResult WErr) :=
  if Str.is_empty query then ret_err (Tool (InvalidParam "state search query must not be empty" "query"))
  else
    let limit := normalize_limit limit in
    let!? globbed := glob pattern (max_entries (ws_limits ws)) in
    let!? found := search_paths limit query (gr_matches globbed) [] in
    ret_ok (mkSearchFilesResult found.1 (if found.2 : bool then true else gr_truncated globbed)).

(** ** Batch edits *)

Fixpoint restore_each (originals : list (string * string)) (original_error : WErr) : F WErr :=
  match originals with
  | [] => Ret original_error
  | (path, content) :: rest =>
      let! r := write_file fuel ws path content in
      match r with
      | Ok _ => restore_each rest original_error
      | Err rollback_error =>
          Ret (Tool (Sdk "rollback_failed" ("state batch mutation failed with `" +:+ err_kind original_error
                 +:+ "` and rollback of `" +:+ path +:+ "` failed with `" +:+ err_kind rollback_error +:+ "`")))
      end
  end.
Definition restore_originals_after_failure (originals : list (string * string)) (original_error : WErr) : F WErr :=
  restore_each (rev originals) original_error.

Fixpoint changed_paths (search : string) (paths : list string) (acc : list string) : F (result (list string) WErr) :=
  match paths with
  | [] => ret_ok acc
  | path :: rest =>
      let!? virtual_path := lift (lift_tool (parse path)) in
      let!? file := read_file ws virtual_path in
      changed_paths search rest (if Str.contains search (rf_content file) then acc ++ [virtual_path] else acc)
  end.

Definition edit_conflict (message : string) : WErr := Tool (Sdk "edit_conflict" message).

Fixpoint replace_each (search replace : string) (paths : list string) (originals : list (string * string)) :
    F (result unit WErr) :=
  match paths with
  | [] => ret_ok ()
  | path :: rest =>
      let!? file := read_file ws path in
      if negb (Str.contains search (rf_content file)) then
        let! e := restore_originals_after_failure originals
                    (edit_conflict ("state replace input no longer matches `" +:+ path +:+ "`")) in
        ret_err e
      else
        let original := rf_content file in
        let! r := write_file fuel ws path (str_replace search replace original) in
        match r with
        | Err err => let! e := restore_originals_after_failure originals err in ret_err e
        | Ok _ => replace_each search replace rest (originals ++ [(path, original)])
        end
  end.

Definition replace_in_files (pattern search replace : string) (dry_run : bool) : F (result ReplaceInFilesResult WErr) :=
  if Str.is_empty search then ret_err (Tool (InvalidParam "state replace search must not be empty" "search"))
  else
    let!? globbed := glob pattern (max_entries (ws_limits ws)) in
    if gr_truncated globbed then ret_err (response_too_large "state replace input exceeded max entries")
    else
      let!? changed := changed_paths search (gr_matches globbed) [] in
      if dry_run then ret_ok (mkReplaceInFilesResult changed dry_run)
      else
        let!? _ := replace_each search replace changed [] in
        ret_ok (mkReplaceInFilesResult changed dry_run).

Fixpoint normalize_edits_each (edits : list FileEdit) : result (list FileEdit) WErr :=
  match edits with
  | [] => Ok []
  | edit :: rest =>
      if Str.is_empty (fe_search edit) then Err (Tool (InvalidParam "state edit search must not be empty" "search"))
      else
        let? path := lift_tool (parse (fe_path edit)) in
        let? rest := normalize_edits_each rest in
        Ok (mkFileEdit path (fe_search edit) (fe_replace edit) :: rest)
  end.
Definition normalize_edits (edits : list FileEdit) : result (list FileEdit) WErr :=
  match edits with
  | [] => Err (Tool (InvalidParam "state edit plan must include at least one edit" "edits"))
  | _ => normalize_edits_each edits
  end.

Definition plan_path (plan_id : string) : list Component :=
  push (push (push (ws_root ws) (Normal ".labby-state")) (Normal "plans")) (Normal (plan_id +:+ ".json")).

Definition plan_edits (edits : list FileEdit) : F (result EditPlanResult WErr) :=
  let!? edits := lift (normalize_edits edits) in
  let!? canonical := lift (map_err serialize_error (edits_to_json edits)) in
  let plan_id := sha256_hex canonical in
  let path := plan_path plan_id in
  let!? _ :=
    (match parent path with
     | Some dir =>
         let!? _ := check_entry_quota_for_path fuel ws dir in
         create_dir_all dir "create state edit plan directory"
     | None => ret_ok ()
     end) in
  let!? _ := check_entry_quota_for_path fuel ws path in
  let!? _ := try_io (trigger (WriteFile path canonical)) (internal_io "write state edit plan") in
  let! limits := enforce_total_limits fuel ws in
  let!? _ := (match limits with
              | Ok _ => ret_ok ()
              | Err e => cleanup_file_after_quota_error path e "state edit plan"
              end) in
  ret_ok (mkEditPlanResult plan_id edits).

Definition is_ascii_hexdigit (a : ascii) : bool :=
  let n := Ascii.nat_of_ascii a in
  ((48 <=? n) && (n <=? 57)) || ((65 <=? n) && (n <=? 70)) || ((97 <=? n) && (n <=? 102)).
Definition validate_plan_id (plan_id : string) : result unit WErr :=
  if (String.length plan_id =? 64) && forallb is_ascii_hexdigit (String.list_ascii_of_string plan_id) then Ok ()
  else Err (Tool (InvalidParam "state edit plan id must be a sha256 hex string" "planId")).

(** Every edit is checked and computed before the first write. *)
Fixpoint plan_writes (edits : list FileEdit) : F (result (list (string * string * string)) WErr) :=
  match edits with
  | [] => ret_ok []
  | edit :: rest =>
      let!? path := lift (lift_tool (parse (fe_path edit))) in
      let!? original := read_file ws path in
      if negb (Str.contains (fe_search edit) (rf_content original))
      then ret_err (edit_conflict ("state edit plan no longer matches `" +:+ path +:+ "`"))
      else
        let next := str_replace (fe_search edit) (fe_replace edit) (rf_content original) in
        let!? rest := plan_writes rest in
        ret_ok ((path, rf_content original, next) :: rest)
  end.

Fixpoint apply_writes (planned : list (string * string * string)) (originals : list (string * string))
    (changed : list string) : F (result (list string) WErr) :=
  match planned with
  | [] => ret_ok changed
  | (path, original, next) :: rest =>
      let! r := write_file fuel ws path next in
      match r with
      | Err err => let! e := restore_originals_after_failure originals err in ret_err e
      | Ok _ => apply_writes rest (originals ++ [(path, original)]) (changed ++ [path])
      end
  end.

Definition apply_edit_plan (plan_id : string) : F (result ApplyEditPlanResult WErr) :=
  let!? _ := lift (validate_plan_id plan_id) in
  let path := plan_path plan_id in
  let!? _ := try_io (trigger (OpenFile path)) (not_found_or_internal "read state edit plan") in
  let!? plan := try_io (trigger (ReadTake path u64_max)) (not_found_or_internal "read state edit plan") in
  let!? edits := lift (map_err (fun e => Tool (Sdk "internal_error" ("failed to parse state edit plan: " +:+ e)))
                         (edits_of_json plan)) in
  let!? planned := plan_writes edits in
  let!? changed := apply_writes planned [] [] in
  ret_ok (mkApplyEditPlanResult true changed).

(** ** The dispatcher (provider.rs) *)

Inductive StateRequest :=
| ReadFileReq (path : string)
| WriteFileReq (path content : string)
| AppendFileReq (path content : string)
| ExistsReq (path : string)
| StatReq (path : string)
| MkdirReq (path : string)
| RmReq (path : string) (recursive : bool)
| CpReq (from to : string)
| MvReq (from to : string)
| WalkTreeReq (path : string) (limit : option Z)
| ReadJsonReq (path : string)
| WriteJsonReq (path : string) (value : Json) (pretty_print : bool)
| HashFileReq (path algorithm : string)
| DetectFileReq (path : string)
| ArchiveCreateReq (source destination : string)
| ArchiveListReq (path : string) (limit : option Z)
| ListReq (path : string)
| GlobReq (pattern : string) (limit : option Z)
| SearchFilesReq (pattern query : string) (limit : option Z)
| ReplaceInFilesReq (pattern search replace : string) (dry_run : bool)
| PlanEditsReq (edits : list FileEdit)
| ApplyEditPlanReq (plan_id : string)
| UnknownReq (method : string).

Inductive StateResponse :=
| RRead (r : ReadFileResult) | ROk (path : string) | RMutation (r : MutationResult) | RExists (r : ExistsResult)
| RStat (r : StatResult) | RWalk (r : WalkTreeResult) | RJson (r : string * Json) | RHash (r : HashFileResult)
| RDetect (r : DetectFileResult) | RArchive (r : ArchiveCreateResult) | RMembers (r : ArchiveListResult)
| RList (r : list string) | RGlob (r : GlobResult) | RSearch (r : SearchFilesResult)
| RReplace (r : ReplaceInFilesResult) | RPlan (r : EditPlanResult) | RApply (r : ApplyEditPlanResult).

Definition answer {A} (f : A → StateResponse) (p : F (result A WErr)) : F (result StateResponse WErr) :=
  let!? a := p in ret_ok (f a).

(** The virtual path of a parameter, then the method. *)
Definition on_path {A} (raw : string) (k : string → F (result A WErr)) : F (result A WErr) :=
  let!? p := lift (lift_tool (parse raw)) in k p.
Definition on_scope {A} (raw : string) (k : string → F (result A WErr)) : F (result A WErr) :=
  let!? p := lift (lift_tool (parse_read_scope raw)) in k p.

Definition dispatch_state_method (request : StateRequest) : F (result StateResponse WErr) :=
  match request with
  | ReadFileReq path => answer RRead (on_path path (read_file ws))
  | WriteFileReq path content => answer (fun _ => ROk path) (on_path path (fun p => write_file fuel ws p content))
  | AppendFileReq path content => answer RMutation (on_path path (fun p => append_file fuel ws p content))
  | ExistsReq path => answer RExists (on_path path (exists_path ws))
  | StatReq path => answer RStat (on_path path (stat ws))
  | MkdirReq path => answer RMutation (on_path path (mkdir fuel ws))
  | RmReq path recursive => answer RMutation (on_path path (fun p => remove ws p recursive))
  | CpReq from to => answer RMutation (on_path from (fun f => on_path to (fun t => copy fuel ws f t)))
  | MvReq from to => answer RMutation (on_path from (fun f => on_path to (fun t => move_path fuel ws f t)))
  | WalkTreeReq path limit =>
      answer RWalk (on_scope path (fun p => walk_tree p (default default_search_limit limit)))
  | ReadJsonReq path => answer RJson (on_path path (read_json ws))
  | WriteJsonReq path value pp => answer (fun _ => ROk path) (on_path path (fun p => write_json fuel ws p value pp))
  | HashFileReq path algorithm => answer RHash (on_path path (fun p => hash_file ws p algorithm))
  | DetectFileReq path => answer RDetect (on_path path (detect_file ws))
  | ArchiveCreateReq source destination =>
      answer RArchive (on_path source (fun s => on_path destination (fun d => archive_create s d)))
  | ArchiveListReq path limit =>
      answer RMembers (on_scope path (fun p => archive_list p (default default_search_limit limit)))
  | ListReq path => answer RList (on_scope path list_dir)
  | GlobReq pattern limit => answer RGlob (glob pattern (default default_search_limit limit))
  | SearchFilesReq pattern query limit =>
      answer RSearch (search_files pattern query (default default_search_limit limit))
  | ReplaceInFilesReq pattern search replace dry_run => answer RReplace (replace_in_files pattern search replace dry_run)
  | PlanEditsReq edits => answer RPlan (plan_edits edits)
  | ApplyEditPlanReq plan_id => answer RApply (apply_edit_plan plan_id)
  | UnknownReq other => ret_err (Tool (Sdk "unknown_tool" ("unknown state method `" +:+ other +:+ "`")))
  end.

End Batch.

(** Methods one after the other. *)
Definition serve `{CodePlatform} (fuel : nat) (ws : StateWorkspace) (requests : list StateRequest) (w : World) : World :=
  foldl (fun w request => (run host (dispatch_state_method fuel ws request) w).2) w requests.

(** ** A concrete instance of the crates, for the examples *)

Fixpoint sample_edits (l : list string) : list FileEdit :=
  match l with
  | p :: s :: r :: rest => mkFileEdit p s r :: sample_edits rest
  | _ => []
  end.

Definition sample_code_platform : CodePlatform := {|
  sha256_hex := fun _ => "00000000000000000000000000000000000000000000000000000000000000aa";
  Json := string;
  json_parse := fun s => Ok s;
  json_print := fun _ v => Ok v;
  edits_to_json := fun es => Ok (Str.join ";" (es ≫= fun e => [fe_path e; fe_search e; fe_replace e]));
  edits_of_json := fun s => Ok (sample_edits (Str.split ";" s));
  matches_json_len := fun l => Ok (Z.of_nat (length l));
  Regex := string;
  regex_escape := fun s => s;
  regex_new := fun s => Ok s;
  is_match := fun _ _ => true;
  tar_entry := fun name content => name +:+ content;
  tar_trailer := ".";
  tar_paths := fun _ => [];
|}.

Definition sample_root : list Component := [RootDir; Normal "ws"].
Definition sample_world (entries : list (Key * Node)) : World :=
  mkWorld sample_root (list_to_map (([], NDir) :: entries)) false [] ["01A"; "01B"; "01C"; "01D"; "01E"] 4096.
Definition sample_ws (bytes : Z) : StateWorkspace :=
  mkStateWorkspace sample_root (mkStateWorkspaceLimits 100 bytes 20 100).

#[local] Existing Instance sample_code_platform.

Example write_then_read :
  let w := serve 30 (sample_ws 100) [WriteFileReq "/src/a.rs" "fn a"; CpReq "src/a.rs" "b.rs"] (sample_world []) in
  (run host (dispatch_state_method 30 (sample_ws 100) (ReadFileReq "b.rs")) w).1 = Ok (RRead (mkReadFileResult "b.rs" "fn a" 4))
  ∧ w_fs w !! ["src"; "a.rs"] = Some (NFile "fn a") ∧ w_escaped w = false.
Proof. vm_compute. done. Qed.
