(* ===== verification/WorkspaceSafe.v ===== *)
(** * WorkspaceSafe: the workspace stays inside its root

    No method of the workspace resolves a path through a symbolic link or
    outside the root, whatever links the tree contains and whichever calls
    fail, as long as the metadata directory itself has none; and no method
    ever puts one there. *)

From Stdlib Require Import Ascii.
From stdpp Require Import base list gmap strings.
From S2P Require Import Prelude RustStr Prog Paths Fs FsProps Workspace WorkspaceBatch.

Definition meta : string := ".labby-state".

(** The root is a path without [.] and [..]. *)
Class PlainRoot (ws : StateWorkspace) := plain_root : plain (ws_root ws) = true.

Section Safe.
Context `{CodePlatform} {fuel : nat} {ws : StateWorkspace} `{!PlainRoot ws}.

(** The state between two methods. *)
Definition confined (w : World) : Prop :=
  w_root w = ws_root ws ∧ w_escaped w = false ∧ wf (w_fs w) ∧
  (∀ k, under [meta] k → w_fs w !! k ≠ Some NSymlink) ∧
  Forall (fun id => lacks "/" id = true) (w_ulids w).

Lemma quiet_confined w w' : quiet w w' → confined w → confined w'.
Proof.
  intros (Hr & He & Hn & Hw & [us Hu]) (? & ? & ? & Hm & Hid). split_and!; [congruence..|by apply Hw| |].
  - intros k Hk Hl. by apply (Hm k Hk), Hn.
  - rewrite Hu in Hid. by apply Forall_app in Hid as [_ ?].
Qed.

Lemma confined_wf w : confined w → wf (w_fs w).
Proof. by intros (_ & _ & ? & _). Qed.
Lemma confined_root_clear w : confined w → clear (w_fs w) [].
Proof. intros (_ & _ & (H0 & _) & _) q Hq%prefix_nil_inv. by rewrite Hq, H0. Qed.
Lemma confined_meta_clear w k : confined w → under [meta] k → clear (w_fs w) k.
Proof.
  intros Hc [r ->] q Hq. destruct q as [|x q]; [by apply (confined_root_clear w Hc)|].
  destruct Hq as [s Hs]. simpl in Hs. injection Hs as <- ->. destruct Hc as (_ & _ & _ & Hm & _).
  apply Hm. by exists q.
Qed.

(** The host path of a key. *)
Definition at_key (k : Key) : list Component := ws_root ws ++ (Normal <$> k).

Lemma settled_at w k : confined w → clear (w_fs w) k → settled w (at_key k) k.
Proof. intros (Hr & _) Hc. split; [by rewrite Hr|done]. Qed.
Lemma push_at k c : push (at_key k) (Normal c) = at_key (k ++ [c]).
Proof. apply push_key. Qed.

(** ** Programs that move the world in a given way

    A motion is a way the world may change: not at all, or without a new link.
    [moves R P p]: from every confined world that satisfies [P], the program
    makes a change of [R].  The lemmas on programs that only look hold for
    every motion. *)

Definition moves (R : World → World → Prop) {A} (P : World → Prop) (p : F A) : Prop :=
  ∀ w, confined w → P w → R w (run host p w).2.

Notation any := (fun _ : World => True).

Section Reads.
Context {R : World → World → Prop} {HR : Motion R}.
#[local] Notation calm := (moves R).

Definition stable (P : World → Prop) : Prop := ∀ w w', quiet w w' → P w → P w'.
Lemma stable_clear k : stable (fun w => clear (w_fs w) k).
Proof. intros w w' Hq. by apply quiet_clear. Qed.
Lemma stable_and P Q : stable P → stable Q → stable (fun w => P w ∧ Q w).
Proof. intros HP HQ w w' Hq [? ?]. split; eauto. Qed.
Lemma stable_true : stable (fun _ => True).
Proof. done. Qed.

Lemma motion_confined w w' : R w w' → confined w → confined w'.
Proof. intros Hm. by eapply quiet_confined, motion_quiet. Qed.

Lemma calm_ret {A} P (a : A) : calm P (Ret a).
Proof. intros w _ _. apply motion_refl. Qed.

Lemma calm_bind {A B} P (p : F A) (f : A → F B) :
  stable P → calm P p → (∀ a, calm P (f a)) → calm P (pbind p f).
Proof.
  intros HP Hp Hf w Hc Hw. rewrite run_bind. specialize (Hp w Hc Hw). destruct (run host p w) as [a w']. simpl in Hp.
  eapply motion_trans; [exact Hp|]. apply Hf; [by eapply motion_confined|by eapply HP; [eapply motion_quiet|]].
Qed.

Lemma calm_try {A B Er} P (p : F (result A Er)) (f : A → F (result B Er)) :
  stable P → calm P p → (∀ a, calm P (f a)) → calm P (try_bind p f).
Proof. intros HP Hp Hf. apply calm_bind; [done|done|]. intros [a|e]; [apply Hf|apply calm_ret]. Qed.

(** What a successful first part established holds in the second. *)
Lemma calm_learn {A B Er} P (Q : World → Prop) (p : F (result A Er)) (f : A → F (result B Er)) :
  calm P p →
  (∀ w, confined w → P w → is_ok (run host p w).1 = true → Q (run host p w).2) →
  stable P → (∀ a, calm (fun w => P w ∧ Q w) (f a)) → calm P (try_bind p f).
Proof.
  intros Hp HQ HP Hf w Hc Hw. rewrite run_try. specialize (Hp w Hc Hw). specialize (HQ w Hc Hw).
  destruct (run host p w) as [[a|e] w']; simpl in *; [|done]. eapply motion_trans; [exact Hp|].
  apply Hf; [by eapply motion_confined|]. split; [by eapply HP; [eapply motion_quiet|]|by apply HQ].
Qed.

Lemma calm_weaken {A} (P Q : World → Prop) (p : F A) : calm Q p → (∀ w, confined w → P w → Q w) → calm P p.
Proof. intros Hp HPQ w Hc Hw. apply Hp; auto. Qed.

Lemma calm_eff P e : (∀ w, confined w → P w → R w (host e w).2) → calm P (trigger e).
Proof. intros He w Hc Hw. rewrite run_trigger. auto. Qed.

Lemma calm_try_io {A} P (p : F (result A IoError)) f : calm P p → calm P (try_io p f).
Proof.
  intros Hp w Hc Hw. unfold try_io. rewrite run_bind. specialize (Hp w Hc Hw). by destruct (run host p w) as [r w'].
Qed.

Lemma calm_follow P e k :
  follow_read e = Some (at_key k) → (∀ w, confined w → P w → clear (w_fs w) k) → calm P (trigger e).
Proof.
  intros He HP. apply calm_eff. intros w Hc Hw. apply same_motion, (follow_reads w e (at_key k) k He).
  apply settled_at; auto.
Qed.

Lemma calm_lstat P k c : (∀ w, confined w → P w → clear (w_fs w) k) → calm P (lstat (at_key (k ++ [c]))).
Proof.
  intros HP. apply (calm_eff P (SymlinkMetadata _)). intros w Hc Hw. apply same_motion. rewrite <- push_at.
  apply (lstat_reads w _ (k ++ [c])); [by apply confined_wf|]. apply settled_child, settled_at; auto.
Qed.

Lemma calm_lstat_clear P k : (∀ w, confined w → P w → clear (w_fs w) k) → calm P (lstat (at_key k)).
Proof.
  intros HP. apply (calm_eff P (SymlinkMetadata _)). intros w Hc Hw. apply same_motion. apply (lstat_reads w _ k); [by apply confined_wf|].
  apply settled_inside, settled_at; auto.
Qed.

(** One call, named so that its answer type is the expected one. *)
Ltac by_follow k :=
  match goal with |- calm ?P (trigger ?e) => eapply (calm_follow P e k) end; [reflexivity|assumption].

(** ** The guards *)

Lemma at_key_path w k : confined w → at_key k = host_path w k.
Proof. intros (Hr & _). unfold at_key, host_path. by rewrite Hr. Qed.

Lemma same_confined w w' : same w w' → confined w → confined w'.
Proof. intros Hs. by apply quiet_confined, same_quiet. Qed.

Lemma lstat_clear w k c :
  confined w → clear (w_fs w) k → reject_ok (host (SymlinkMetadata (at_key (k ++ [c]))) w).1 = true →
  clear (w_fs w) (k ++ [c]).
Proof. intros Hc Hk. rewrite (at_key_path w) by done. apply lstat_next; [by apply confined_wf|done]. Qed.
Lemma at_key_plain k : plain (at_key k) = true.
Proof. by apply plain_app. Qed.

(** Checking one more name, from a clear path. *)
Lemma reject_step w k c :
  confined w → clear (w_fs w) k →
  same w (run host (reject_existing_symlink (at_key (k ++ [c]))) w).2 ∧
  (is_ok (run host (reject_existing_symlink (at_key (k ++ [c]))) w).1 = true → clear (w_fs w) (k ++ [c])).
Proof. intros Hc Hk. rewrite (at_key_path w) by done. apply reject_next; [by apply confined_wf|done]. Qed.

Lemma ancestors_spec w k :
  confined w →
  same w (run host (reject_existing_symlink_ancestors (ws_root ws) (at_key k)) w).2 ∧
  (is_ok (run host (reject_existing_symlink_ancestors (ws_root ws) (at_key k)) w).1 = true → clear (w_fs w) k).
Proof.
  intros Hc. pose proof (confined_root_clear w Hc) as H0. rewrite (at_key_path w) by done.
  assert (ws_root ws = host_path w []) as -> by (destruct Hc as (<- & _); symmetry; apply app_nil_r).
  apply (ancestors_guard w [] k); [by apply confined_wf| |by apply settled_inside|done].
  by destruct Hc as (-> & _).
Qed.

Lemma calm_ancestors P k : calm P (reject_existing_symlink_ancestors (ws_root ws) (at_key k)).
Proof. intros w Hc _. by apply same_motion, ancestors_spec. Qed.

Lemma symlink_path_same w k :
  confined w → clear (w_fs w) k → same w (run host (reject_existing_symlink_path (at_key k)) w).2.
Proof.
  intros Hc Hk. unfold reject_existing_symlink_path. rewrite run_bind, run_lstat.
  assert (same w (host (SymlinkMetadata (at_key k)) w).2) as Hs.
  { apply (lstat_reads w _ k); [by apply confined_wf|]. apply settled_inside, settled_at; auto. }
  destruct (host (SymlinkMetadata (at_key k)) w) as [[md|[| |m]] w']; simpl in *; try done. by destruct (is_symlink md).
Qed.

Lemma guard_spec w k :
  confined w →
  same w (run host (guard_path ws (at_key k)) w).2 ∧
  (is_ok (run host (guard_path ws (at_key k)) w).1 = true → clear (w_fs w) k).
Proof.
  intros Hc. unfold guard_path. rewrite run_try. destruct (ancestors_spec w k Hc) as [Hs Hok].
  destruct (run host (reject_existing_symlink_ancestors _ _) w) as [[u|e] w']; simpl in *; [|done].
  specialize (Hok eq_refl). assert (w_fs w' = w_fs w) as Hf by by destruct Hs as (_ & ? & _).
  split; [|done]. eapply same_trans; [exact Hs|]. apply symlink_path_same; [by eapply same_confined|by rewrite Hf].
Qed.

(** A guarded continuation may rely on the path being clear. *)
Lemma calm_guard {A} P k (f : unit → F (result A WErr)) :
  stable P → (∀ u, calm (fun w => P w ∧ clear (w_fs w) k) (f u)) → calm P (try_bind (guard_path ws (at_key k)) f).
Proof.
  intros HP Hf. apply (calm_learn P (fun w => clear (w_fs w) k)); [| |done|done].
  - intros w Hc _. by apply same_motion, guard_spec.
  - intros w Hc _ Hok. destruct (guard_spec w k Hc) as [(_ & -> & _) Hk]. by apply Hk.
Qed.

Lemma calm_ancestors_then {A} P k (f : unit → F (result A WErr)) :
  stable P → (∀ u, calm (fun w => P w ∧ clear (w_fs w) k) (f u)) →
  calm P (try_bind (reject_existing_symlink_ancestors (ws_root ws) (at_key k)) f).
Proof.
  intros HP Hf. apply (calm_learn P (fun w => clear (w_fs w) k)); [apply calm_ancestors| |done|done].
  intros w Hc _ Hok. destruct (ancestors_spec w k Hc) as [(_ & -> & _) Hk]. by apply Hk.
Qed.

Lemma calm_symlink_path P k :
  (∀ w, confined w → P w → clear (w_fs w) k) → calm P (reject_existing_symlink_path (at_key k)).
Proof. intros HP w Hc Hw. apply same_motion, symlink_path_same; auto. Qed.

(** ** The loops over directories *)

Definition in_tree (fs : FS) (p : list Component) : Prop := ∃ k, p = at_key k ∧ clear fs k.

(** The common step of the three loops: looking at one entry. *)
Lemma entry_lstat w k name :
  confined w → clear (w_fs w) k →
  same w (run host (lstat (push (at_key k) (Normal name))) w).2 ∧
  match (run host (lstat (push (at_key k) (Normal name))) w).1 with
  | Ok md => is_symlink md = false → in_tree (w_fs w) (push (at_key k) (Normal name))
  | Err _ => True
  end.
Proof.
  intros Hc Hk. rewrite run_lstat, push_at.
  assert (inside w (at_key (k ++ [name])) (k ++ [name])) as Hi
    by (rewrite <- push_at; apply settled_child, settled_at; auto).
  split; [apply (lstat_reads w _ (k ++ [name]) (confined_wf w Hc) Hi)|].
  pose proof (lstat_clear w k name Hc Hk) as Hl.
  destruct (host (SymlinkMetadata (at_key (k ++ [name]))) w) as [[md|e] w']; simpl in *; [|done].
  intros Hs. exists (k ++ [name]). split; [done|]. apply Hl. simpl. by rewrite Hs.
Qed.

Lemma run_try_io {A} (p : F (result A IoError)) f w :
  run host (try_io p f) w = (map_err f (run host p w).1, (run host p w).2).
Proof. unfold try_io. rewrite run_bind. by destruct (run host p w). Qed.

Lemma usage_entries_safe entries : ∀ w k stack u,
  confined w → clear (w_fs w) k → Forall (in_tree (w_fs w)) stack →
  same w (run host (usage_entries ws (at_key k) entries stack u) w).2 ∧
  ∀ next, (run host (usage_entries ws (at_key k) entries stack u) w).1 = Ok next → Forall (in_tree (w_fs w)) next.1.
Proof.
  induction entries as [|[name|e] entries IH]; intros w k stack u Hc Hk Hs; cbn [usage_entries].
  - split; [apply same_refl|]. by intros next [= <-].
  - rewrite run_try, run_try_io. destruct (entry_lstat w k name Hc Hk) as [Hsm Hmd].
    destruct (run host (lstat _) w) as [[md|e] w']; simpl in *; [|done].
    assert (w_fs w' = w_fs w) as Hf by by destruct Hsm as (_ & ? & _).
    assert (∀ stack u, Forall (in_tree (w_fs w)) stack →
      same w (run host (usage_entries ws (at_key k) entries stack u) w').2 ∧
      ∀ next, (run host (usage_entries ws (at_key k) entries stack u) w').1 = Ok next → Forall (in_tree (w_fs w)) next.1)
      as Hrec.
    { intros st u' Hst. rewrite <- Hf in Hk, Hst. destruct (IH w' k st u') as [? ?]; [by eapply same_confined|done|done|].
      rewrite <- Hf. split; [by eapply same_trans|done]. }
    destruct (is_symlink md); [by apply Hrec|]. destruct (is_dir md); [apply Hrec; constructor; auto|].
    destruct (is_file md); by apply Hrec.
  - split; [apply same_refl|done].
Qed.

(** Reading a directory of the tree. *)
Lemma read_dir_same w k : confined w → clear (w_fs w) k → same w (host (ReadDir (at_key k)) w).2.
Proof. intros Hc Hk. eapply follow_reads; [done|]. by apply settled_at. Qed.

Lemma usage_loop_safe n : ∀ w stack u,
  confined w → Forall (in_tree (w_fs w)) stack → same w (run host (usage_loop ws n stack u) w).2.
Proof.
  induction n as [|n IH]; intros w stack u Hc Hs; cbn [usage_loop]; [apply same_refl|].
  destruct Hs as [|dir stack (k & -> & Hk) Hs]; [apply same_refl|].
  rewrite run_bind, run_trigger. pose proof (read_dir_same w k Hc Hk) as Hsm.
  destruct (host (ReadDir (at_key k)) w) as [rd w']. simpl in Hsm.
  assert (w_fs w' = w_fs w) as Hf by by destruct Hsm as (_ & ? & _). rewrite <- Hf in Hk, Hs.
  assert (confined w') as Hc' by by eapply same_confined.
  eapply same_trans; [exact Hsm|]. destruct rd as [entries|[| |m]]; [|by apply IH|apply same_refl..].
  rewrite run_try. destruct (usage_entries_safe entries w' k stack u Hc' Hk Hs) as [Hsm' Hn].
  destruct (run host (usage_entries _ _ _ _ _) w') as [[next|e] w'']; simpl in *; [|done].
  assert (w_fs w'' = w_fs w') as Hf' by by destruct Hsm' as (_ & ? & _).
  eapply same_trans; [exact Hsm'|]. apply IH; [by eapply same_confined|]. rewrite Hf'. by apply Hn.
Qed.

Lemma root_in_tree w : confined w → Forall (in_tree (w_fs w)) [ws_root ws].
Proof.
  intros Hc. constructor; [|done]. exists []. split; [symmetry; apply app_nil_r|by apply confined_root_clear].
Qed.

Lemma calm_usage P : calm P (workspace_usage fuel ws).
Proof. intros w Hc _. apply same_motion, usage_loop_safe; [done|]. by apply root_in_tree. Qed.

Lemma strip_child k name : strip_prefix_path (ws_root ws) (push (at_key k) (Normal name)) = Some (Normal <$> (k ++ [name])).
Proof. rewrite push_at. apply strip_prefix_app. Qed.

Lemma walk_tree_entries_safe limit names : ∀ w k stack acc,
  confined w → clear (w_fs w) k → Forall (in_tree (w_fs w)) stack →
  same w (run host (walk_tree_entries ws limit (at_key k) names stack acc) w).2 ∧
  ∀ st ac, (run host (walk_tree_entries ws limit (at_key k) names stack acc) w).1 = Ok (inl (st, ac)) →
    Forall (in_tree (w_fs w)) st.
Proof.
  induction names as [|[name|e] names IH]; intros w k stack acc Hc Hk Hs; cbn [walk_tree_entries].
  - split; [apply same_refl|]. by intros st ac [= <- <-].
  - rewrite strip_child. destruct (is_reserved_metadata_path _); [by apply IH|].
    rewrite run_try, run_try_io. destruct (entry_lstat w k name Hc Hk) as [Hsm Hmd].
    destruct (run host (lstat _) w) as [[md|e] w']; simpl in *; [|done].
    assert (w_fs w' = w_fs w) as Hf by by destruct Hsm as (_ & ? & _).
    destruct (is_symlink md); [done|]. destruct (_ && _); [done|]. case_bool_decide; [done|].
    rewrite <- Hf in *. destruct (IH w' k (if is_dir md then push (at_key k) (Normal name) :: stack else stack)
      (acc ++ [mkWalkEntry (rel_to_unix_string (Normal <$> (k ++ [name]))) (if is_dir md then "directory" else "file") (md_len md)]))
      as [? ?]; [by eapply same_confined|done| |split; [by eapply same_trans|done]].
    destruct (is_dir md); [|done]. constructor; auto.
  - split; [apply same_refl|done].
Qed.

Lemma walk_tree_loop_safe n limit : ∀ w stack acc,
  confined w → Forall (in_tree (w_fs w)) stack → same w (run host (walk_tree_loop ws n limit stack acc) w).2.
Proof.
  induction n as [|n IH]; intros w stack acc Hc Hs; cbn [walk_tree_loop]; [apply same_refl|].
  destruct Hs as [|dir stack (k & -> & Hk) Hs]; [apply same_refl|].
  rewrite run_try, run_try_io, (run_trigger host (ReadDir (at_key k))). pose proof (read_dir_same w k Hc Hk) as Hsm.
  destruct (host (ReadDir (at_key k)) w) as [[names|e] w']; simpl in *; [|done].
  assert (w_fs w' = w_fs w) as Hf by by destruct Hsm as (_ & ? & _). rewrite <- Hf in Hk, Hs.
  assert (confined w') as Hc' by by eapply same_confined. eapply same_trans; [exact Hsm|].
  rewrite run_try. destruct (walk_tree_entries_safe limit names w' k stack acc Hc' Hk Hs) as [Hsm' Hn].
  destruct (run host (walk_tree_entries _ _ _ _ _ _) w') as [[[[st ac]|r]|e] w'']; simpl in *; [|done|done].
  assert (w_fs w'' = w_fs w') as Hf' by by destruct Hsm' as (_ & ? & _).
  eapply same_trans; [exact Hsm'|]. apply IH; [by eapply same_confined|]. rewrite Hf'. by eapply Hn.
Qed.

Lemma walk_files_entries_safe limit names : ∀ w k stack acc,
  confined w → clear (w_fs w) k → Forall (in_tree (w_fs w)) stack →
  same w (run host (walk_files_entries ws limit (at_key k) names stack acc) w).2 ∧
  ∀ next, (run host (walk_files_entries ws limit (at_key k) names stack acc) w).1 = Ok next →
    Forall (in_tree (w_fs w)) next.1.1.
Proof.
  induction names as [|[name|e] names IH]; intros w k stack acc Hc Hk Hs; cbn [walk_files_entries].
  - split; [apply same_refl|]. by intros next [= <-].
  - rewrite strip_child. destruct (is_reserved_metadata_path _); [by apply IH|].
    rewrite run_try, run_try_io. destruct (entry_lstat w k name Hc Hk) as [Hsm Hmd].
    destruct (run host (lstat _) w) as [[md|e] w']; simpl in *; [|done].
    assert (w_fs w' = w_fs w) as Hf by by destruct Hsm as (_ & ? & _).
    assert (∀ stack acc, Forall (in_tree (w_fs w)) stack →
      same w (run host (walk_files_entries ws limit (at_key k) names stack acc) w').2 ∧
      ∀ next, (run host (walk_files_entries ws limit (at_key k) names stack acc) w').1 = Ok next →
        Forall (in_tree (w_fs w)) next.1.1) as Hrec.
    { intros st ac Hst. rewrite <- Hf in Hk, Hst. destruct (IH w' k st ac) as [? ?]; [by eapply same_confined|done|done|].
      rewrite <- Hf. split; [by eapply same_trans|done]. }
    destruct (is_symlink md); [by apply Hrec|]. destruct (is_dir md); [apply Hrec; constructor; auto|].
    destruct (is_file md); [|by apply Hrec]. case_bool_decide; [|by apply Hrec].
    split; [done|]. by intros next [= <-].
  - split; [apply same_refl|done].
Qed.

Lemma walk_files_loop_safe n limit : ∀ w stack acc,
  confined w → Forall (in_tree (w_fs w)) stack → same w (run host (walk_files_loop ws n limit stack acc) w).2.
Proof.
  induction n as [|n IH]; intros w stack acc Hc Hs; cbn [walk_files_loop]; [apply same_refl|].
  destruct Hs as [|dir stack (k & -> & Hk) Hs]; [apply same_refl|].
  rewrite run_bind, run_trigger. pose proof (read_dir_same w k Hc Hk) as Hsm.
  destruct (host (ReadDir (at_key k)) w) as [rd w']. simpl in Hsm.
  assert (w_fs w' = w_fs w) as Hf by by destruct Hsm as (_ & ? & _). rewrite <- Hf in Hk, Hs.
  assert (confined w') as Hc' by by eapply same_confined.
  eapply same_trans; [exact Hsm|]. destruct rd as [names|[| |m]]; [|by apply IH|apply same_refl..].
  rewrite run_try. destruct (walk_files_entries_safe limit names w' k stack acc Hc' Hk Hs) as [Hsm' Hn].
  destruct (run host (walk_files_entries _ _ _ _ _ _) w') as [[[[st ac] []]|e] w'']; simpl in *; [done| |done].
  assert (w_fs w'' = w_fs w') as Hf' by by destruct Hsm' as (_ & ? & _).
  eapply same_trans; [exact Hsm'|]. apply IH; [by eapply same_confined|]. rewrite Hf'. exact (Hn _ eq_refl).
Qed.

Lemma calm_walk_files P limit : calm P (walk_files fuel ws limit).
Proof. intros w Hc _. apply same_motion, walk_files_loop_safe; [done|]. by apply root_in_tree. Qed.

Lemma calm_walk_tree_loop P limit k :
  (∀ w, confined w → P w → clear (w_fs w) k) → calm P (walk_tree_loop ws fuel limit [at_key k] []).
Proof.
  intros HP w Hc Hw. apply same_motion, walk_tree_loop_safe; [done|]. constructor; [|done].
  exists k. split; [done|]. by apply HP.
Qed.

(** ** Quotas *)

Lemma calm_count_missing P pre rest :
  stable P → (∀ w, confined w → P w → clear (w_fs w) (pre ++ rest)) → calm P (count_missing (at_key pre) rest).
Proof.
  intros HP. revert pre. induction rest as [|c rest IH]; intros pre Hk; cbn [count_missing]; [apply calm_ret|].
  apply calm_bind; [done| |].
  - rewrite push_at. apply calm_lstat. intros w Hc Hw. eapply clear_prefix; [by apply Hk|by eexists].
  - intros [md|[| |m]]; [|apply calm_ret..]. rewrite push_at. apply IH. by rewrite <- app_assoc.
Qed.

Lemma normal_names_fmap k : normal_names (Normal <$> k) = k.
Proof. induction k as [|n k IH]; [done|]. cbn. f_equal. exact IH. Qed.

Lemma calm_missing P k :
  stable P → (∀ w, confined w → P w → clear (w_fs w) k) → calm P (missing_entry_count ws (at_key k)).
Proof.
  intros HP Hk. unfold missing_entry_count, at_key. rewrite strip_prefix_app.
  destruct (is_reserved_metadata_path _); [apply calm_ret|]. rewrite normal_names_fmap.
  replace (ws_root ws) with (at_key []) at 1 by apply app_nil_r. by apply calm_count_missing.
Qed.

Lemma calm_check_write_quota P k n :
  stable P → (∀ w, confined w → P w → clear (w_fs w) k) → calm P (check_write_quota fuel ws (at_key k) n).
Proof.
  intros HP Hk. unfold check_write_quota. apply calm_bind; [done|by eapply calm_follow|]. intros m.
  apply calm_try; [done|apply calm_usage|]. intros u. case_bool_decide; [apply calm_ret|].
  apply calm_try; [done|by apply calm_missing|]. intros mi. case_bool_decide; apply calm_ret.
Qed.

Lemma calm_check_entry_quota P k :
  stable P → (∀ w, confined w → P w → clear (w_fs w) k) → calm P (check_entry_quota_for_path fuel ws (at_key k)).
Proof.
  intros HP Hk. unfold check_entry_quota_for_path. apply calm_try; [done|apply calm_usage|]. intros u.
  apply calm_try; [done|by apply calm_missing|]. intros mi. case_bool_decide; apply calm_ret.
Qed.

Lemma calm_enforce P : stable P → calm P (enforce_total_limits fuel ws).
Proof.
  intros HP. unfold enforce_total_limits. apply calm_try; [done|apply calm_usage|]. intros u.
  case_bool_decide; [apply calm_ret|]. case_bool_decide; apply calm_ret.
Qed.

(** ** Looking *)

(** What a virtual path stands for: names below the root, outside the metadata. *)
Definition names (path : string) (k : Key) : Prop :=
  resolve ws path = at_key k ∧ k ≠ [] ∧ head k ≠ Some meta ∧ Forall proper k.

(** A path to look at: a virtual path or the root. *)
Definition scope (path : string) (k : Key) : Prop := resolve ws path = at_key k.

Lemma reserved_part k : is_reserved_metadata_path (Str.join "/" k) = false → k ≠ [] → Forall proper k → head k ≠ Some meta.
Proof.
  intros Hr Hne Hp. unfold is_reserved_metadata_path in Hr.
  rewrite split_join in Hr by (done || (eapply Forall_impl; [exact Hp|by intros ? []])).
  destruct k as [|x k]; [done|]. simpl in *. intros [= ->]. done.
Qed.

Lemma parse_names raw p : parse raw = Ok p → ∃ k, names p k.
Proof.
  intros Hp. destruct (virtual_path_confined_parts raw p (ws_root ws) Hp) as (k & Hne & -> & Hpr & Hj & Hr & _).
  exists k. split_and!; [exact Hj|done|by apply reserved_part|done].
Qed.

Lemma parse_scope raw p : parse_read_scope raw = Ok p → ∃ k, scope p k.
Proof.
  unfold parse_read_scope. destruct (_ || _).
  - intros [= <-]. exists []. unfold scope, at_key. simpl. by rewrite app_nil_r.
  - intros (k & Hk & _)%parse_names. by exists k.
Qed.

Lemma stable_any_clear k : stable (fun w => True ∧ clear (w_fs w) k).
Proof. apply stable_and; [apply stable_true|apply stable_clear]. Qed.

Lemma any_clear k w : confined w → True ∧ clear (w_fs w) k → clear (w_fs w) k.
Proof. by intros _ [_ ?]. Qed.

(** A method that guards its path and then looks at it. *)
Lemma calm_guarded {A} path k (f : unit → F (result A WErr)) :
  scope path k → (∀ u, calm (fun w => True ∧ clear (w_fs w) k) (f u)) →
  calm any (try_bind (guard_path ws (resolve ws path)) f).
Proof. intros -> Hf. apply calm_guard; [apply stable_true|done]. Qed.

Ltac guarded k := eapply (calm_guarded _ k); [eassumption|]; intros [].

Ltac step := apply calm_try; [apply stable_any_clear| |intros ?].

Lemma calm_read_file path k : scope path k → calm any (read_file ws path).
Proof.
  intros Hp. unfold read_file. guarded k. rewrite Hp. pose proof (any_clear k) as Hk.
  step; [apply calm_try_io; by_follow k|]. step; [apply calm_try_io; by_follow k|].
  destruct (negb _); [apply calm_ret|]. case_bool_decide; apply calm_ret.
Qed.

Lemma calm_read_file_bytes path k : scope path k → calm any (read_file_bytes ws path).
Proof.
  intros Hp. unfold read_file_bytes. guarded k. rewrite Hp. pose proof (any_clear k) as Hk.
  step; [apply calm_try_io; by_follow k|]. step; [apply calm_try_io; by_follow k|]. case_bool_decide; apply calm_ret.
Qed.

Lemma calm_exists path k : scope path k → calm any (exists_path ws path).
Proof.
  intros Hp. unfold exists_path. guarded k. rewrite Hp. pose proof (any_clear k) as Hk.
  apply calm_bind; [apply stable_any_clear|by_follow k|]. intros [?|[| |m]]; apply calm_ret.
Qed.

Lemma calm_stat path k : scope path k → calm any (stat ws path).
Proof.
  intros Hp. unfold stat. guarded k. rewrite Hp. pose proof (any_clear k) as Hk.
  step; [apply calm_try_io; by_follow k|]. destruct (is_file _); [apply calm_ret|].
  destruct (is_dir _); apply calm_ret.
Qed.

Lemma calm_walk_tree path limit k : scope path k → calm any (walk_tree fuel ws path limit).
Proof.
  intros Hp. unfold walk_tree. guarded k. rewrite Hp. apply calm_walk_tree_loop. apply any_clear.
Qed.

Lemma calm_list_entries P path ns acc : calm P (list_entries ws path ns acc).
Proof.
  revert acc. induction ns as [|[n|e] ns IH]; intros acc; cbn [list_entries]; [apply calm_ret| |apply calm_ret].
  destruct (is_reserved_metadata_path _); [apply IH|]. case_bool_decide; [apply calm_ret|apply IH].
Qed.

Lemma calm_list path k : scope path k → calm any (list_dir ws path).
Proof.
  intros Hp. unfold list_dir. guarded k. rewrite Hp. pose proof (any_clear k) as Hk.
  step; [apply calm_try_io; by_follow k|]. step; [apply calm_list_entries|apply calm_ret].
Qed.

Lemma calm_glob P pattern limit : stable P → calm P (glob fuel ws pattern limit).
Proof.
  intros HP. unfold glob. apply calm_try; [done|apply calm_ret|]. intros re.
  apply calm_try; [done|apply calm_walk_files|]. intros wk. destruct (glob_collect _ _ _ _). apply calm_ret.
Qed.

Lemma calm_any {A} P (p : F A) : calm any p → calm P p.
Proof. intros Hp. by eapply calm_weaken. Qed.

Lemma calm_lifted {A B} (r : result A ToolError) (f : A → F (result B WErr)) :
  (∀ a, r = Ok a → calm any (f a)) → calm any (try_bind (lift (lift_tool r)) f).
Proof. intros Hf w Hc _. rewrite run_try. destruct r as [a|e]; simpl; [by apply Hf|apply motion_refl]. Qed.

Lemma calm_search_paths limit query paths : ∀ acc, calm any (search_paths ws limit query paths acc).
Proof.
  induction paths as [|p paths IH]; intros acc; cbn [search_paths]; [apply calm_ret|].
  apply calm_lifted. intros v (k & Hk & _)%parse_names. apply calm_try; [apply stable_true|by eapply calm_read_file|].
  intros file. apply calm_try; [apply stable_true|apply calm_ret|]. intros [a|a]; [apply IH|apply calm_ret].
Qed.

Lemma calm_search pattern query limit : calm any (search_files fuel ws pattern query limit).
Proof.
  unfold search_files. destruct (Str.is_empty query); [apply calm_ret|].
  apply calm_try; [apply stable_true|by apply calm_glob|]. intros g.
  apply calm_try; [apply stable_true|apply calm_search_paths|]. intros. apply calm_ret.
Qed.

Lemma calm_changed search paths : ∀ acc,
  calm any (changed_paths ws search paths acc).
Proof.
  induction paths as [|p paths IH]; intros acc; cbn [changed_paths]; [apply calm_ret|].
  apply calm_lifted. intros v (k & Hk & _)%parse_names. apply calm_try; [apply stable_true|by eapply calm_read_file|].
  intros file. apply IH.
Qed.

Lemma calm_plan_writes edits : calm any (plan_writes ws edits).
Proof.
  induction edits as [|e edits IH]; cbn [plan_writes]; [apply calm_ret|].
  apply calm_lifted. intros v (k & Hk & _)%parse_names. apply calm_try; [apply stable_true|by eapply calm_read_file|].
  intros file. destruct (negb _); [apply calm_ret|]. apply calm_try; [apply stable_true|apply IH|]. intros; apply calm_ret.
Qed.

Lemma calm_archive_list path limit k : scope path k → calm any (archive_list ws path limit).
Proof.
  intros Hp. unfold archive_list. guarded k. rewrite Hp. pose proof (any_clear k) as Hk.
  step; [apply calm_try_io; by_follow k|]. step; [apply calm_try_io; by_follow k|]. step; [apply calm_ret|apply calm_ret].
Qed.

End Reads.
Notation calm := (moves quiet).
Notation still := (moves same).

(** ** Changing *)

(** Programs that end in a confined world, by changes that may not be quiet. *)
Definition good {A} (P : World → Prop) (p : F A) : Prop := ∀ w, confined w → P w → confined (run host p w).2.

Lemma calm_good {A} P (p : F A) : calm P p → good P p.
Proof. intros Hp w Hc Hw. eapply quiet_confined; [by apply Hp|done]. Qed.

Lemma good_calm_try {A B Er} P (p : F (result A Er)) (f : A → F (result B Er)) :
  stable P → calm P p → (∀ a, good P (f a)) → good P (try_bind p f).
Proof.
  intros HP Hp Hf w Hc Hw. rewrite run_try. specialize (Hp w Hc Hw).
  destruct (run host p w) as [[a|e] w']; simpl in *; [|by eapply quiet_confined].
  apply Hf; [by eapply quiet_confined|by eapply HP].
Qed.

Lemma good_learn {A B Er} P (R : A → World → Prop) (p : F (result A Er)) (f : A → F (result B Er)) :
  calm P p →
  (∀ w a, confined w → P w → (run host p w).1 = Ok a → R a (run host p w).2) →
  stable P → (∀ a, good (fun w => P w ∧ R a w) (f a)) → good P (try_bind p f).
Proof.
  intros Hp HR HP Hf w Hc Hw. rewrite run_try. specialize (Hp w Hc Hw). specialize (HR w).
  destruct (run host p w) as [[a|e] w']; simpl in *; [|by eapply quiet_confined].
  apply Hf; [by eapply quiet_confined|]. split; [by eapply HP|by apply HR].
Qed.

(** A fact about the value of the first part. *)
Lemma good_result {A B Er} P (R : A → Prop) (p : F (result A Er)) (f : A → F (result B Er)) :
  calm P p → (∀ w a, confined w → (run host p w).1 = Ok a → R a) → stable P → (∀ a, R a → good P (f a)) → good P (try_bind p f).
Proof.
  intros Hp HR HP Hf w Hc Hw. rewrite run_try. specialize (Hp w Hc Hw). specialize (HR w).
  destruct (run host p w) as [[a|e] w']; simpl in *; [|by eapply quiet_confined].
  apply Hf; [by apply HR|by eapply quiet_confined|by eapply HP].
Qed.

Lemma good_ret {A} P (a : A) : good P (Ret a).
Proof. by intros w Hc _. Qed.

Lemma good_bind {A B} P (p : F A) (f : A → F B) :
  good P p → (∀ a, good (fun _ => True) (f a)) → good P (pbind p f).
Proof.
  intros Hp Hf w Hc Hw. rewrite run_bind. specialize (Hp w Hc Hw). destruct (run host p w) as [a w']. by apply Hf.
Qed.

Lemma good_try {A B Er} P (p : F (result A Er)) (f : A → F (result B Er)) :
  good P p → (∀ a, good (fun _ => True) (f a)) → good P (try_bind p f).
Proof. intros Hp Hf. apply good_bind; [done|]. intros [a|e]; [apply Hf|apply good_ret]. Qed.

Lemma calm_change P e k follow :
  change_at e = Some (at_key k, follow) → (match e with CreateDirAll _ => True | _ => k ≠ [] end) → Forall proper k →
  (∀ w, confined w → P w → clear (w_fs w) k) → calm P (trigger e).
Proof.
  intros He Hk Hpr HP. apply calm_eff. intros w Hc Hw. eapply (change_quiet w e _ follow k He Hk Hpr).
  assert (settled w (at_key k) k) as Hs by (apply settled_at; auto). destruct follow; [done|by apply settled_inside].
Qed.

(** One call, named so that its answer type is the expected one. *)
Ltac by_change k :=
  match goal with |- calm ?P (trigger ?e) => eapply (calm_change P e k) end; [reflexivity|done|assumption|assumption].
Ltac by_follow k :=
  match goal with |- calm ?P (trigger ?e) => eapply (calm_follow P e k) end; [reflexivity|assumption].
Ltac step := apply calm_try; [apply stable_any_clear| |intros ?].

Lemma calm_create_dir_all P k a :
  Forall proper k → (∀ w, confined w → P w → clear (w_fs w) k) → calm P (create_dir_all (at_key k) a).
Proof. intros Hpr Hk. apply calm_try_io. by_change k. Qed.

Lemma parent_at k c : parent (at_key (k ++ [c])) = Some (at_key k).
Proof.
  unfold parent, at_key. rewrite fmap_app, app_assoc. simpl. rewrite reverse_snoc. simpl. by rewrite reverse_involutive.
Qed.

Lemma calm_create_parent P k a :
  k ≠ [] → Forall proper k → (∀ w, confined w → P w → clear (w_fs w) k) → calm P (create_parent (at_key k) a).
Proof.
  intros Hne Hpr Hk. destruct k as [|c k _] using rev_ind; [done|]. unfold create_parent. rewrite parent_at.
  apply calm_create_dir_all; [by apply Forall_app in Hpr as [? _]|]. intros w Hc Hw. eapply clear_prefix; [by apply Hk|by eexists].
Qed.

(** ** Writing a file *)

Definition tmp_key : Key := [meta; "tmp"].
Lemma tmp_under r : under [meta] (tmp_key ++ r).
Proof. by eexists. Qed.

Lemma proper_meta : proper meta.
Proof. by split. Qed.
Lemma tmp_proper : Forall proper tmp_key.
Proof. repeat constructor. Qed.

Lemma calm_create_temp P : stable P → calm P (create_temp_path ws).
Proof.
  intros HP. unfold create_temp_path.
  replace (push (push (ws_root ws) (Normal ".labby-state")) (Normal "tmp")) with (at_key tmp_key)
    by (unfold at_key; simpl; by rewrite <- app_assoc).
  assert (∀ w, confined w → P w → clear (w_fs w) tmp_key) as Hk
    by (intros w Hc _; apply confined_meta_clear; [done|apply (tmp_under [])]).
  apply calm_try; [done|by apply calm_create_dir_all; [apply tmp_proper|]|]. intros [].
  apply calm_try; [done|apply calm_ancestors|]. intros [].
  apply calm_try; [done|by apply calm_try_io, calm_lstat_clear|]. intros md.
  destruct (_ || _); [apply calm_ret|]. apply calm_bind; [done| |intros; apply calm_ret].
  apply calm_eff. intros w _ _. by apply same_quiet, ulid_same.
Qed.

Lemma lacks_app c a b : lacks c (a +:+ b) = lacks c a && lacks c b.
Proof. induction a as [|x a IH]; [done|]. rewrite Str.app_cons. simpl. by rewrite IH, andb_assoc. Qed.

(** A name with an extension is a name. *)
Lemma proper_ext s e : lacks "/" s = true → lacks "/" e = true → 2 < String.length e → proper (s +:+ e).
Proof.
  intros Hs He Hl. split; [|by rewrite lacks_app, Hs, He]. unfold component_of.
  assert (2 < String.length (s +:+ e)) as Hn by (rewrite Str.length_app; lia).
  destruct (s +:+ e) as [|x [|y [|z r]]]; simpl in Hn; try lia. simpl.
  by rewrite !andb_false_r || (destruct (Ascii.eqb x _); [destruct (Ascii.eqb y _)|]; done).
Qed.

(** The name of the temporary file, when the identifiers have no separator. *)
Lemma ulid_proper w id w' : confined w → host NewUlid w = (id, w') → proper (id +:+ ".tmp").
Proof.
  intros (_ & _ & _ & _ & Hid) E. apply proper_ext; [|done|simpl; lia].
  destruct (host_cases NewUlid w) as (w1 & (_ & _ & _ & _ & [us Hu]) & Hh). rewrite Hu in Hid.
  apply Forall_app in Hid as [_ Hid]. assert (host_ok NewUlid w1 = (id, w')) as Ho by (destruct Hh as [?|(? & ?)]; cbn in *; congruence).
  simpl in Ho. destruct Hid as [|u l Hx _]; simplify_eq/=; done.
Qed.

Lemma create_temp_name w p :
  confined w → (run host (create_temp_path ws) w).1 = Ok p → ∃ name, p = at_key (tmp_key ++ [name]) ∧ proper name.
Proof.
  intros Hc. unfold create_temp_path.
  replace (push (push (ws_root ws) (Normal ".labby-state")) (Normal "tmp")) with (at_key tmp_key)
    by (unfold at_key; simpl; by rewrite <- app_assoc).
  assert (∀ w, confined w → True → clear (w_fs w) tmp_key) as Hk
    by (intros w' Hc' _; apply confined_meta_clear; [done|apply (tmp_under [])]).
  pose proof (calm_create_dir_all (fun _ => True) tmp_key "create state temp directory" tmp_proper Hk w Hc I) as Hq.
  rewrite run_try. destruct (run host (create_dir_all _ _) w) as [[?|?] w1]; [|done]. simpl in Hq.
  assert (confined w1) as Hc1 by by eapply quiet_confined.
  rewrite run_try. destruct (ancestors_spec w1 tmp_key Hc1) as [Hs2 _].
  destruct (run host (reject_existing_symlink_ancestors _ _) w1) as [[?|?] w2]; [|done]. simpl in Hs2.
  assert (confined w2) as Hc2 by by eapply same_confined.
  pose proof (calm_try_io (R:=quiet) (fun _ => True) _ (internal_io "inspect state temp directory") (calm_lstat_clear (fun _ => True) tmp_key Hk) w2 Hc2 I) as Hq3.
  rewrite run_try. destruct (run host (try_io _ _) w2) as [[md|?] w3]; [|done]. simpl in Hq3.
  destruct (_ || _); [done|]. rewrite run_bind, run_trigger. destruct (host NewUlid w3) as [id w4] eqn:E. intros [= <-].
  exists (id +:+ ".tmp"). split; [apply (push_at tmp_key)|]. eapply ulid_proper; [|exact E]. by eapply quiet_confined.
Qed.

Lemma good_rename P a b :
  (∀ w, confined w → P w → clear (w_fs w) a ∧ clear (w_fs w) b) → b ≠ [] → head b ≠ Some meta →
  Forall proper b → good P (trigger (Rename (at_key a) (at_key b))).
Proof.
  intros HP Hb Hh Hpb w Hc Hw. rewrite run_trigger. destruct (HP w Hc Hw) as [Ha Hcb].
  destruct (rename_host w (at_key a) (at_key b) a b) as ([us Hu] & Hr & He & _ & Hwf & Hfs);
    [by apply confined_wf|by apply settled_inside, settled_at|by apply settled_inside, settled_at|done|done|].
  destruct Hc as (? & ? & _ & Hm & Hid). split_and!; [congruence..|done| |rewrite Hu in Hid; by apply Forall_app in Hid as [_ ?]].
  intros k Hk.
  destruct Hfs as [[-> _]|(-> & _ & Hap & _)]; [by apply Hm|]. rewrite lookup_rename by done.
  destruct (decide (under b k)) as [[r ->]|]; [|case_decide; [done|by apply Hm]].
  destruct b as [|x b]; [done|]. destruct Hk as [s Hs]. simpl in Hs. injection Hs as -> _. by destruct Hh.
Qed.

Lemma good_guard {A} P k (f : unit → F (result A WErr)) :
  stable P → (∀ u, good (fun w => P w ∧ clear (w_fs w) k) (f u)) → good P (try_bind (guard_path ws (at_key k)) f).
Proof.
  intros HP Hf. apply (good_learn P (fun _ w => clear (w_fs w) k)); [| |done|done].
  - intros w Hc _. by apply same_quiet, guard_spec.
  - intros w u Hc _ Hok. destruct (guard_spec w k Hc) as [(_ & -> & _) Hk]. apply Hk. by rewrite Hok.
Qed.

Lemma good_weaken {A} (P Q : World → Prop) (p : F A) : good Q p → (∀ w, confined w → P w → Q w) → good P p.
Proof. intros Hp HPQ w Hc Hw. apply Hp; auto. Qed.

Lemma good_try_io {A} P (p : F (result A IoError)) f : good P p → good P (try_io p f).
Proof. intros Hp w Hc Hw. rewrite run_try_io. by apply Hp. Qed.

Lemma good_write_file path content k : names path k → good (fun _ => True) (write_file fuel ws path content).
Proof.
  intros (Hp & Hk & Hh & Hpr). unfold write_file. case_bool_decide; [apply good_ret|]. rewrite Hp.
  apply good_guard; [apply stable_true|]. intros []. set (P := fun w => True ∧ clear (w_fs w) k).
  assert (stable P) as HP by (apply stable_and; [apply stable_true|apply stable_clear]).
  assert (∀ w, confined w → P w → clear (w_fs w) k) as Hcl by by intros w _ [_ ?].
  apply good_calm_try; [done|by apply calm_check_write_quota|]. intros [].
  apply good_calm_try; [done|by apply calm_create_parent|]. intros [].
  apply good_calm_try; [done| |].
  { intros w Hc _. by apply same_quiet, guard_spec. }
  intros []. apply (good_result P (fun tmp => ∃ name, tmp = at_key (tmp_key ++ [name]) ∧ proper name));
    [by apply calm_create_temp|by apply create_temp_name|done|].
  intros tmp (name & -> & Hnm). assert (Forall proper (tmp_key ++ [name])) as Htp
    by (apply Forall_app; split; [apply tmp_proper|by constructor]).
  assert (∀ w, confined w → P w → clear (w_fs w) (tmp_key ++ [name])) as Ht
    by (intros w Hc _; apply confined_meta_clear; [done|apply tmp_under]).
  apply good_calm_try; [done|apply calm_try_io; by_change (tmp_key ++ [name])|]. intros [].
  apply good_calm_try; [done|apply calm_try_io; by_change (tmp_key ++ [name])|]. intros [].
  apply good_calm_try; [done|apply calm_try_io, (calm_eff P (Flush _)); intros w _ _; by apply same_quiet, flush_same|]. intros [].
  apply good_calm_try; [done|by apply calm_try_io, calm_lstat_clear|]. intros md.
  destruct (_ || _).
  - apply calm_good, calm_bind; [done|by_change (tmp_key ++ [name])|]. intros; apply calm_ret.
  - apply good_calm_try; [done| |].
    { intros w Hc _. by apply same_quiet, guard_spec. }
    intros []. apply good_try_io. apply (good_rename P (tmp_key ++ [name]) k); [|done..]. intros w Hc Hw. auto.
Qed.

(** ** The methods *)

Lemma calm_mkdir path k : names path k → calm any (mkdir fuel ws path).
Proof.
  intros (Hp & Hk & Hh & Hpr). unfold mkdir. eapply (calm_guarded _ k); [done|]. intros []. rewrite Hp.
  pose proof (any_clear k) as Hcl. step; [apply calm_check_entry_quota; [apply stable_any_clear|done]|].
  step; [by apply calm_create_dir_all|]. apply calm_guard; [apply stable_any_clear|]. intros []. apply calm_ret.
Qed.

Lemma calm_remove path recursive k : names path k → calm any (remove ws path recursive).
Proof.
  intros (Hp & Hne & Hh & Hpr). unfold remove. destruct (is_reserved_metadata_path path); [apply calm_ret|].
  eapply (calm_guarded _ k); [done|]. intros []. rewrite Hp. pose proof (any_clear k) as Hk.
  step; [apply calm_try_io; by_follow k|]. step; [|apply calm_ret].
  destruct (is_file _); [apply calm_try_io; by_change k|]. destruct (is_dir _); [|apply calm_ret].
  destruct recursive; apply calm_try_io; by_change k.
Qed.

(** The paths it collects are virtual paths. *)
Lemma changed_paths_named search paths : ∀ acc w l,
  Forall (fun p => ∃ k, names p k) acc → (run host (changed_paths ws search paths acc) w).1 = Ok l →
  Forall (fun p => ∃ k, names p k) l.
Proof.
  induction paths as [|p paths IH]; intros acc w l Ha; cbn [changed_paths]; [by intros [= <-]|].
  rewrite run_try. destruct (parse p) as [v|e] eqn:Ev; simpl; [|done]. rewrite run_try.
  destruct (run host (read_file ws v) w) as [[file|e] w']; [|done]. apply IH.
  destruct (Str.contains _ _); [|done]. apply Forall_app. split; [done|]. constructor; [by eapply parse_names|done].
Qed.

Lemma good_any_try {A B Er} (p : F (result A Er)) (f : A → F (result B Er)) :
  calm any p → (∀ a, good any (f a)) → good any (try_bind p f).
Proof. intros Hp Hf. apply good_calm_try; [apply stable_true|done|done]. Qed.

Lemma good_restore originals e :
  Forall (fun pc : string * string => ∃ k, names pc.1 k) originals →
  good any (restore_originals_after_failure fuel ws originals e).
Proof.
  intros Ho. unfold restore_originals_after_failure. apply Forall_rev in Ho. revert Ho.
  generalize (rev originals). intros l Hl. induction Hl as [|[p c] l (k & Hk) Hl IH]; cbn [restore_each]; [apply good_ret|].
  apply good_bind; [by eapply good_write_file|]. intros [[]|e']; [apply IH|apply good_ret].
Qed.

Lemma good_fail {A} (p : F WErr) : good any p → good any (pbind p (fun e => ret_err e) : F (result A WErr)).
Proof. intros Hp. apply good_bind; [done|]. intros; apply good_ret. Qed.

Lemma good_replace_each search replace paths : ∀ originals,
  Forall (fun p => ∃ k, names p k) paths → Forall (fun pc : string * string => ∃ k, names pc.1 k) originals →
  good any (replace_each fuel ws search replace paths originals).
Proof.
  induction paths as [|p paths IH]; intros originals Hp Ho; cbn [replace_each]; [apply good_ret|].
  apply Forall_cons in Hp as [(k & Hk) Hp]. apply good_any_try; [eapply calm_read_file; apply Hk|].
  intros file. destruct (negb _); [by apply good_fail, good_restore|].
  apply good_bind; [by eapply good_write_file|]. intros [[]|e]; [|by apply good_fail, good_restore].
  apply IH; [done|]. apply Forall_app. split; [done|]. constructor; [by exists k|done].
Qed.

Lemma good_replace pattern search replace dry_run : good any (replace_in_files fuel ws pattern search replace dry_run).
Proof.
  unfold replace_in_files. destruct (Str.is_empty search); [apply good_ret|].
  apply good_any_try; [by apply calm_glob|]. intros g. destruct (gr_truncated g); [apply good_ret|].
  apply (good_result any (Forall (fun p => ∃ k, names p k))); [apply calm_changed| |apply stable_true|].
  { intros w l _. apply changed_paths_named. constructor. }
  intros l Hl. destruct dry_run; [apply good_ret|]. apply good_try; [by apply good_replace_each|]. intros; apply good_ret.
Qed.

Lemma plan_writes_named edits : ∀ w l,
  (run host (plan_writes ws edits) w).1 = Ok l → Forall (fun pc : string * string * string => ∃ k, names pc.1.1 k) l.
Proof.
  induction edits as [|e edits IH]; intros w l; cbn [plan_writes]; [intros [= <-]; constructor|].
  rewrite run_try. destruct (parse (fe_path e)) as [v|err] eqn:Ev; simpl; [|done]. rewrite run_try.
  destruct (run host (read_file ws v) w) as [[file|err] w1]; [|done]. destruct (negb _); [done|].
  rewrite run_try. specialize (IH w1). destruct (run host (plan_writes ws edits) w1) as [[rest|err] w2]; [|done].
  intros [= <-]. constructor; [by eapply parse_names|by apply IH].
Qed.

Lemma good_apply_writes planned : ∀ originals changed,
  Forall (fun pc : string * string * string => ∃ k, names pc.1.1 k) planned →
  Forall (fun pc : string * string => ∃ k, names pc.1 k) originals →
  good any (apply_writes fuel ws planned originals changed).
Proof.
  induction planned as [|[[p o] n] planned IH]; intros originals changed Hp Ho; cbn [apply_writes]; [apply good_ret|].
  apply Forall_cons in Hp as [(k & Hk) Hp]. apply good_bind; [by eapply good_write_file|].
  intros [[]|e]; [|by apply good_fail, good_restore].
  apply IH; [done|]. apply Forall_app. split; [done|]. constructor; [by exists k|done].
Qed.

(** ** Archives *)

(** A file name that stands for an entry reached without a link. *)
Definition listed (fs : FS) (p : string) : Prop :=
  ∃ k, p = Str.join "/" k ∧ k ≠ [] ∧ Forall proper k ∧ clear fs k.

Lemma listed_resolve fs p : listed fs p → ∃ k, join_path (ws_root ws) (components p) = at_key k ∧ k ≠ [] ∧ clear fs k.
Proof.
  intros (k & -> & Hne & Hp & Hc). exists k. split_and!; [|done|done]. by rewrite components_join, join_path_normal.
Qed.

Lemma stable_listed files : stable (fun w => Forall (listed (w_fs w)) files).
Proof.
  intros w w' Hq Hf. eapply Forall_impl; [exact Hf|]. intros p (k & ? & ? & ? & ?). exists k. split_and!; try done.
  by eapply quiet_clear.
Qed.

Lemma rel_names k : rel_to_unix_string (Normal <$> k) = Str.join "/" k.
Proof. unfold rel_to_unix_string. f_equal. rewrite <- list_fmap_compose. by rewrite list_fmap_id. Qed.

(** Looking at an entry that is there and is no link lists it. *)
Lemma entry_listed w k name md :
  confined w → clear (w_fs w) k → (run host (lstat (push (at_key k) (Normal name))) w).1 = Ok md → is_symlink md = false →
  listed (w_fs w) (rel_to_unix_string (Normal <$> (k ++ [name]))).
Proof.
  intros Hc Hk. rewrite run_lstat, push_at, rel_names. intros Hm Hs.
  destruct (lstat_reads w (at_key (k ++ [name])) (k ++ [name])) as [_ Hl]; [by apply confined_wf| |].
  { rewrite <- push_at. apply settled_child, settled_at; auto. }
  exists (k ++ [name]). split_and!; [done|by destruct k| |].
  - destruct (confined_wf w Hc) as (_ & _ & Hp). apply Hp.
    destruct (host (SymlinkMetadata (at_key (k ++ [name]))) w) as [[?|?] ?]; simpl in *; [by rewrite Hl|done].
  - apply (lstat_clear w k name Hc Hk).
    destruct (host (SymlinkMetadata (at_key (k ++ [name]))) w) as [[?|?] ?]; simpl in *; [|done].
    injection Hm as <-. by rewrite Hs.
Qed.

Definition entries_listed (fs : FS) (es : list WalkEntry) : Prop := Forall (fun e => listed fs (we_path e)) es.

Lemma Forall_insert_by {A} (Q : A → Prop) key x l : Q x → Forall Q l → Forall Q (insert_by key x l).
Proof.
  intros Hx Hl. induction Hl as [|y l Hy Hl IH]; simpl; [by constructor|].
  destruct (String.compare _ _); by repeat constructor.
Qed.
Lemma Forall_sort_by {A} (Q : A → Prop) key l : Forall Q l → Forall Q (sort_by key l).
Proof. induction 1; simpl; [constructor|]. by apply Forall_insert_by. Qed.

Lemma walk_tree_entries_listed limit ns : ∀ w k stack acc,
  confined w → clear (w_fs w) k → entries_listed (w_fs w) acc →
  match (run host (walk_tree_entries ws limit (at_key k) ns stack acc) w).1 with
  | Ok (inl (_, ac)) => entries_listed (w_fs w) ac
  | Ok (inr r) => entries_listed (w_fs w) (wt_entries r)
  | Err _ => True
  end.
Proof.
  induction ns as [|[name|e] ns IH]; intros w k stack acc Hc Hk Ha; cbn [walk_tree_entries]; [done| |done].
  rewrite strip_child. destruct (is_reserved_metadata_path _); [by apply IH|].
  rewrite run_try, run_try_io. destruct (entry_lstat w k name Hc Hk) as [Hsm _].
  pose proof (entry_listed w k name) as He.
  destruct (run host (lstat _) w) as [[md|e] w']; simpl in *; [|done].
  assert (w_fs w' = w_fs w) as Hf by by destruct Hsm as (_ & ? & _).
  destruct (is_symlink md) eqn:Es; [done|]. specialize (He md Hc Hk eq_refl Es). destruct (_ && _); [done|].
  assert (entries_listed (w_fs w) (acc ++ [mkWalkEntry (rel_to_unix_string (Normal <$> (k ++ [name])))
    (if is_dir md then "directory" else "file") (md_len md)])) as Hacc by (apply Forall_app; split; [done|by constructor]).
  case_bool_decide; simpl.
  - apply Forall_take. by apply Forall_sort_by.
  - rewrite <- Hf in *. apply IH; [by eapply same_confined|done|done].
Qed.

Lemma walk_tree_loop_listed n limit : ∀ w stack acc,
  confined w → Forall (in_tree (w_fs w)) stack → entries_listed (w_fs w) acc →
  ∀ r, (run host (walk_tree_loop ws n limit stack acc) w).1 = Ok r → entries_listed (w_fs w) (wt_entries r).
Proof.
  induction n as [|n IH]; intros w stack acc Hc Hs Ha r; cbn [walk_tree_loop]; [done|].
  destruct Hs as [|dir stack (k & -> & Hk) Hs]; [intros [= <-]; by apply Forall_sort_by|].
  rewrite run_try, run_try_io, (run_trigger host (ReadDir (at_key k))). pose proof (read_dir_same w k Hc Hk) as Hsm.
  destruct (host (ReadDir (at_key k)) w) as [[ns|e] w']; simpl in *; [|done].
  assert (w_fs w' = w_fs w) as Hf by by destruct Hsm as (_ & ? & _). rewrite <- Hf in Hk, Hs, Ha. rewrite <- Hf.
  assert (confined w') as Hc' by by eapply same_confined. rewrite run_try.
  destruct (walk_tree_entries_safe limit ns w' k stack acc Hc' Hk Hs) as [Hsm' Hn].
  pose proof (walk_tree_entries_listed limit ns w' k stack acc Hc' Hk Ha) as Hl.
  destruct (run host (walk_tree_entries _ _ _ _ _ _) w') as [[[[st ac]|r']|e] w'']; simpl in *; [|by intros [= <-]|done].
  assert (w_fs w'' = w_fs w') as Hf' by by destruct Hsm' as (_ & ? & _). specialize (Hn st ac eq_refl).
  rewrite <- Hf' in *. apply IH; [by eapply same_confined|done|done].
Qed.

Lemma calm_then {A B Er} P (R : A → World → Prop) (p : F (result A Er)) (f : A → F (result B Er)) :
  calm P p →
  (∀ w a, confined w → P w → (run host p w).1 = Ok a → R a (run host p w).2) →
  stable P → (∀ a, calm (fun w => P w ∧ R a w) (f a)) → calm P (try_bind p f).
Proof.
  intros Hp HR HP Hf w Hc Hw. rewrite run_try. specialize (Hp w Hc Hw). specialize (HR w).
  destruct (run host p w) as [[a|e] w']; simpl in *; [|done]. eapply quiet_trans; [exact Hp|].
  apply Hf; [by eapply quiet_confined|]. split; [by eapply HP|by apply HR].
Qed.

(** The keys behind a list of file names. *)
Lemma listed_keys fs files :
  Forall (listed fs) files →
  ∃ keys, files = Str.join "/" <$> keys ∧ Forall (fun k => k ≠ [] ∧ Forall proper k) keys ∧ Forall (clear fs) keys.
Proof.
  induction 1 as [|p files (k & -> & Hne & Hp & Hc) _ (keys & -> & Hk & Hck)]; [by exists []|].
  exists (k :: keys). split_and!; [done|by constructor|by constructor].
Qed.

Definition reading (kd : Key) (keys : list Key) (w : World) : Prop :=
  clear (w_fs w) kd ∧ Forall (clear (w_fs w)) keys.
Lemma stable_reading kd keys : stable (reading kd keys).
Proof.
  apply stable_and; [apply stable_clear|]. intros w w' Hq Hf. eapply Forall_impl; [exact Hf|].
  intros k. by apply quiet_clear.
Qed.

Lemma calm_append_files kd sv dv keys : ∀ n,
  kd ≠ [] → Forall proper kd → Forall (fun k => k ≠ [] ∧ Forall proper k) keys →
  calm (reading kd keys) (append_files ws sv dv (at_key kd) (Str.join "/" <$> keys) n).
Proof.
  induction keys as [|k keys IH]; intros n Hne Hpr Hks; [apply calm_ret|].
  apply Forall_cons in Hks as [[Hk0 Hkp] Hks]. rewrite fmap_cons. cbn [append_files].
  pose proof (stable_reading kd (k :: keys)) as HP.
  assert (∀ n, calm (reading kd (k :: keys)) (append_files ws sv dv (at_key kd) (Str.join "/" <$> keys) n)) as Hrest.
  { intros m. eapply calm_weaken; [by apply IH|]. intros w _ [? Hl]. split; [done|]. by apply Forall_cons in Hl as [_ ?]. }
  destruct (String.eqb _ dv); [apply Hrest|].
  rewrite components_join, join_path_normal by done. change (ws_root ws ++ (Normal <$> k)) with (at_key k).
  assert (∀ w, confined w → reading kd (k :: keys) w → clear (w_fs w) k) as Hck
    by (intros w _ [_ Hl]; by apply Forall_cons in Hl as [? _]).
  assert (∀ w, confined w → reading kd (k :: keys) w → clear (w_fs w) kd) as Hcd by by intros w _ [? _].
  apply calm_try; [done| |intros []].
  { unfold reject_sync_symlink. apply calm_try; [done|by apply calm_try_io, calm_lstat_clear|]. intros md.
    destruct (is_symlink md); apply calm_ret. }
  apply calm_try; [done|apply calm_ret|intros name]. destruct (Str.is_empty name); [apply Hrest|].
  apply calm_try; [done| |intros []; apply Hrest]. unfold append_path_with_name.
  apply calm_try; [done|apply calm_try_io; by_follow k|intros []].
  apply calm_try; [done|apply calm_try_io; by_follow k|intros content].
  apply calm_try_io. by_change kd.
Qed.

Lemma calm_create_tar kd sv dv keys :
  kd ≠ [] → Forall proper kd → Forall (fun k => k ≠ [] ∧ Forall proper k) keys →
  calm (reading kd keys) (create_tar_archive ws sv dv (at_key kd) (Str.join "/" <$> keys)).
Proof.
  intros Hne Hpr Hks. pose proof (stable_reading kd keys) as HP. unfold create_tar_archive.
  assert (∀ w, confined w → reading kd keys w → clear (w_fs w) kd) as Hcd by by intros w _ [? _].
  apply calm_try; [done|apply calm_try_io; by_change kd|intros []].
  apply calm_bind; [done|by apply calm_append_files|]. intros [n|e].
  - apply calm_try; [done|apply calm_try_io; by_change kd|]. intros; apply calm_ret.
  - apply calm_bind; [done|by_change kd|]. intros; apply calm_ret.
Qed.

(** Files of the source, listed in the world the archive is created in. *)
Lemma calm_archive_from kd sv dv (files : F (result (list string) WErr)) P :
  kd ≠ [] → Forall proper kd → stable P → (∀ w, confined w → P w → clear (w_fs w) kd) →
  calm P files →
  (∀ w l, confined w → P w → (run host files w).1 = Ok l → Forall (listed (w_fs (run host files w).2)) l) →
  ∀ {A} (f : Z → F (result A WErr)), (∀ n, calm P (f n)) →
  calm P (let!? l := files in let!? n := create_tar_archive ws sv dv (at_key kd) l in f n).
Proof.
  intros Hne Hpr HP Hcd Hfiles Hl A f Hf.
  apply (calm_then P (fun l w => Forall (listed (w_fs w)) l)); [done|done|done|]. intros l w Hc [Hw Hll].
  destruct (listed_keys _ _ Hll) as (keys & -> & Hks & Hck).
  assert (calm (fun w => P w ∧ reading kd keys w)
    (let!? n := create_tar_archive ws sv dv (at_key kd) (Str.join "/" <$> keys) in f n)) as Hg.
  { apply calm_try; [apply stable_and; [done|apply stable_reading]| |].
    - eapply calm_weaken; [by apply calm_create_tar|]. by intros ? _ [_ ?].
    - intros n. eapply calm_weaken; [apply Hf|]. by intros ? _ [? _]. }
  apply Hg; [done|]. split; [done|]. split; [by apply Hcd|done].
Qed.

Lemma calm_cleanup P k e label :
  k ≠ [] → Forall proper k → (∀ w, confined w → P w → clear (w_fs w) k) → stable P →
  calm P (cleanup_file_after_quota_error (at_key k) e label).
Proof.
  intros Hne Hpr Hk HP. unfold cleanup_file_after_quota_error. apply calm_bind; [done|by_change k|].
  intros [?|[| |m]]; apply calm_ret.
Qed.

(** A path that names a listed file, when it is clear. *)
Lemma names_listed p k w : names p k → p = Str.join "/" k → clear (w_fs w) k → listed (w_fs w) p.
Proof. intros (_ & ? & _ & ?) -> ?. by exists k. Qed.

Lemma same_run_fs {A} (p : F A) w : same w (run host p w).2 → w_fs (run host p w).2 = w_fs w.
Proof. by intros (_ & ? & _). Qed.

Lemma walk_tree_run w path limit k :
  confined w → scope path k →
  same w (run host (walk_tree fuel ws path limit) w).2 ∧
  ∀ r, (run host (walk_tree fuel ws path limit) w).1 = Ok r → entries_listed (w_fs w) (wt_entries r).
Proof.
  intros Hc Hp. unfold walk_tree. cbv zeta. unfold scope in Hp. rewrite !Hp, !run_try.
  destruct (guard_spec w k Hc) as [Hs Hok].
  destruct (run host (guard_path ws (at_key k)) w) as [[[]|e] w']; simpl in *; [|by split].
  assert (w_fs w' = w_fs w) as Hf by by destruct Hs as (_ & ? & _). rewrite <- Hf in *. specialize (Hok eq_refl).
  assert (confined w') as Hc' by by eapply same_confined.
  assert (Forall (in_tree (w_fs w')) [at_key k]) as Hin by (constructor; [exists k; auto|done]).
  split; [by eapply same_trans; [|apply walk_tree_loop_safe]|].
  intros r. apply walk_tree_loop_listed; [done|done|constructor].
Qed.

Lemma calm_archive_create source destination ks kd :
  names source ks → source = Str.join "/" ks → names destination kd →
  calm any (archive_create fuel ws source destination).
Proof.
  intros (Hs & Hsn & Hsh & Hsp) Hsj (Hd & Hdn & Hdh & Hdp). unfold archive_create. destruct (negb _); [apply calm_ret|].
  rewrite Hs, Hd. set (P := fun w => (True ∧ clear (w_fs w) ks) ∧ clear (w_fs w) kd).
  assert (stable P) as HP by (apply stable_and; [apply stable_any_clear|apply stable_clear]).
  assert (∀ w, confined w → P w → clear (w_fs w) ks) as Hcs by by intros w _ [[_ ?] _].
  assert (∀ w, confined w → P w → clear (w_fs w) kd) as Hcd by by intros w _ [_ ?].
  apply calm_ancestors_then; [apply stable_true|intros []].
  apply calm_ancestors_then; [apply stable_any_clear|intros []]. fold P.
  apply calm_try; [done|by apply calm_symlink_path|intros []].
  apply calm_try; [done|by apply calm_symlink_path|intros []].
  apply calm_try; [done|by apply calm_check_entry_quota|intros []].
  apply calm_try; [done|by apply calm_create_parent|intros []].
  apply calm_try; [done|apply calm_try_io; by_follow ks|intros md].
  apply calm_archive_from; [done|done|done|done| | |].
  - destruct (is_file md); [apply calm_ret|]. destruct (is_dir md); [|apply calm_ret].
    apply calm_try; [done|by eapply calm_any, calm_walk_tree|]. intros t. destruct (wt_truncated t); apply calm_ret.
  - intros w l Hc Hw. destruct (is_file md).
    { simpl. intros [= <-]. constructor; [|done]. exists ks. auto. }
    destruct (is_dir md); [|done]. rewrite run_try.
    destruct (walk_tree_run w source (max_entries (ws_limits ws)) ks Hc Hs) as [Hsm Hl].
    destruct (run host (walk_tree _ _ _ _) w) as [[t|e] w']; simpl in *; [|done].
    assert (w_fs w' = w_fs w) as Hf by by destruct Hsm as (_ & ? & _).
    destruct (wt_truncated t); [done|]. simpl. intros [= <-]. rewrite Hf. apply Forall_fmap, Forall_forall.
    intros e He. apply list_elem_of_In, filter_In in He as [He _]. specialize (Hl t eq_refl).
    unfold entries_listed in Hl. rewrite Forall_forall in Hl. apply Hl. by apply list_elem_of_In.
  - intros n. apply calm_bind; [done|by apply calm_enforce|]. intros [?|e].
    + apply calm_try; [done|apply calm_ret|]. intros; apply calm_ret.
    + apply calm_try; [done|by apply calm_cleanup|]. intros; apply calm_ret.
Qed.

(** ** Edit plans and moves *)

Definition plan_key (id : string) : Key := [meta; "plans"; id +:+ ".json"].
Lemma plan_path_at id : plan_path ws id = at_key (plan_key id).
Proof. unfold plan_path, at_key, plan_key. simpl. by rewrite <- !app_assoc. Qed.
Lemma plan_clear id w : confined w → True → clear (w_fs w) (plan_key id).
Proof. intros Hc _. apply confined_meta_clear; [done|by eexists]. Qed.

Lemma good_apply_plan id : good any (apply_edit_plan fuel ws id).
Proof.
  unfold apply_edit_plan. apply good_any_try; [apply calm_ret|intros []]. rewrite plan_path_at.
  pose proof (plan_clear id) as Hk.
  apply good_any_try; [apply calm_try_io; by_follow (plan_key id)|intros []].
  apply good_any_try; [apply calm_try_io; by_follow (plan_key id)|intros plan].
  apply good_any_try; [apply calm_ret|intros edits].
  apply (good_result any (Forall (fun pc : string * string * string => ∃ k, names pc.1.1 k)));
    [apply calm_plan_writes|intros w l _; apply plan_writes_named|apply stable_true|].
  intros l Hl. apply good_try; [by apply good_apply_writes|]. intros; apply good_ret.
Qed.

Lemma calm_plan_edits edits : (∀ s, lacks "/" (sha256_hex s) = true) → calm any (plan_edits fuel ws edits).
Proof.
  intros Hhex. unfold plan_edits. pose proof stable_true as HP.
  apply calm_try; [done|apply calm_ret|intros es]. apply calm_try; [done|apply calm_ret|intros canonical].
  set (id := sha256_hex canonical). rewrite plan_path_at. pose proof (plan_clear id) as Hk.
  assert (Forall proper (plan_key id)) as Hpr.
  { constructor; [apply proper_meta|]. constructor; [by split|]. constructor; [|constructor].
    apply proper_ext; [apply Hhex|done|simpl; lia]. }
  apply calm_try; [done| |intros []].
  { change (plan_key id) with ([meta; "plans"] ++ [id +:+ ".json"]). rewrite parent_at.
    assert (∀ w, confined w → True → clear (w_fs w) [meta; "plans"]) as Hk2
      by (intros w Hc _; apply confined_meta_clear; [done|by eexists]).
    apply calm_try; [done|by apply calm_check_entry_quota|intros []]. apply calm_create_dir_all; [by repeat constructor|done]. }
  apply calm_try; [done|by apply calm_check_entry_quota|intros []].
  apply calm_try; [done|apply calm_try_io; by_change (plan_key id)|intros []].
  apply calm_bind; [done|by apply calm_enforce|]. intros [?|e].
  - apply calm_try; [done|apply calm_ret|]. intros; apply calm_ret.
  - apply calm_try; [done|by apply calm_cleanup|]. intros; apply calm_ret.
Qed.

Lemma good_ancestors_then {A} P k (f : unit → F (result A WErr)) :
  stable P → (∀ u, good (fun w => P w ∧ clear (w_fs w) k) (f u)) →
  good P (try_bind (reject_existing_symlink_ancestors (ws_root ws) (at_key k)) f).
Proof.
  intros HP Hf. apply (good_learn P (fun _ w => clear (w_fs w) k)); [apply calm_ancestors| |done|done].
  intros w u Hc _ Hok. destruct (ancestors_spec w k Hc) as [(_ & -> & _) Hk]. apply Hk. by rewrite Hok.
Qed.

Lemma good_move from to kf kt : names from kf → names to kt → good any (move_path fuel ws from to).
Proof.
  intros (Hs & Hsn & Hsh & Hsp) (Hd & Hdn & Hdh & Hdp). unfold move_path. rewrite Hs, Hd.
  set (P := fun w => (True ∧ clear (w_fs w) kf) ∧ clear (w_fs w) kt).
  assert (stable P) as HP by (apply stable_and; [apply stable_any_clear|apply stable_clear]).
  assert (∀ w, confined w → P w → clear (w_fs w) kf) as Hcs by by intros w _ [[_ ?] _].
  assert (∀ w, confined w → P w → clear (w_fs w) kt) as Hcd by by intros w _ [_ ?].
  apply good_ancestors_then; [apply stable_true|intros []].
  apply good_ancestors_then; [apply stable_any_clear|intros []]. fold P.
  apply good_calm_try; [done|by apply calm_symlink_path|intros []].
  apply good_calm_try; [done|by apply calm_symlink_path|intros []].
  apply good_calm_try; [done|by apply calm_check_entry_quota|intros []].
  apply good_calm_try; [done|by apply calm_create_parent|intros []].
  apply good_try; [|intros; apply good_ret]. apply good_try_io. apply (good_rename P kf kt); auto.
Qed.

(** ** The dispatcher *)

Lemma good_on_path {A} raw (f : string → F (result A WErr)) :
  (∀ p k, names p k → p = Str.join "/" k → good any (f p)) → good any (on_path raw f).
Proof.
  intros Hf w Hc _. unfold on_path. rewrite run_try. destruct (parse raw) as [p|e] eqn:Ep; simpl; [|done].
  destruct (virtual_path_confined_parts raw p (ws_root ws) Ep) as (k & Hne & Hj & Hpr & Hr & Hres & _).
  apply (Hf p k); [|done|done|done]. split_and!; [exact Hr|done| |done]. apply reserved_part; [by rewrite <- Hj|done|done].
Qed.

Lemma good_on_scope {A} raw (f : string → F (result A WErr)) :
  (∀ p k, scope p k → good any (f p)) → good any (on_scope raw f).
Proof.
  intros Hf w Hc _. unfold on_scope. rewrite run_try. destruct (parse_read_scope raw) as [p|e] eqn:Ep; simpl; [|done].
  destruct (parse_scope raw p Ep) as [k Hk]. by apply (Hf p k).
Qed.

Lemma good_answer {A} (f : A → StateResponse) (p : F (result A WErr)) : good any p → good any (answer f p).
Proof. intros Hp. apply good_try; [done|]. intros; apply good_ret. Qed.

Lemma good_append path content k : names path k → good any (append_file fuel ws path content).
Proof.
  intros Hn. unfold append_file. apply good_bind; [eapply calm_good, calm_read_file; apply Hn|].
  assert (∀ c, good any (let!? _ := write_file fuel ws path c in ret_ok (mkMutationResult true path))) as Hw.
  { intros c. apply good_try; [by eapply good_write_file|]. intros; apply good_ret. }
  intros [file|e]; [apply Hw|]. destruct (String.eqb _ _); [apply Hw|apply good_ret].
Qed.

Lemma dispatch_confined request :
  (∀ s, lacks "/" (sha256_hex s) = true) → good any (dispatch_state_method fuel ws request).
Proof.
  intros Hhex. destruct request; cbn [dispatch_state_method]; try (apply good_answer);
    try (apply good_on_path; intros p k Hn Hj); try (apply good_on_scope; intros p k Hn); try apply good_ret.
  - eapply calm_good, calm_read_file, Hn.
  - by eapply good_write_file.
  - by eapply good_append.
  - eapply calm_good, calm_exists, Hn.
  - eapply calm_good, calm_stat, Hn.
  - by eapply calm_good, calm_mkdir.
  - by eapply calm_good, calm_remove.
  - apply good_on_path. intros t kt Ht _. unfold copy. apply good_any_try; [eapply calm_read_file, Hn|].
    intros file. apply good_try; [by eapply good_write_file|]. intros; apply good_ret.
  - apply good_on_path. intros t kt Ht _. by eapply good_move.
  - by eapply calm_good, calm_walk_tree.
  - apply calm_good. unfold read_json. apply calm_try; [apply stable_true|eapply calm_read_file, Hn|].
    intros file. destruct (json_parse _); apply calm_ret.
  - unfold write_json. destruct (json_print _ _); [by eapply good_write_file|apply good_ret].
  - apply calm_good. unfold hash_file. destruct (negb _); [apply calm_ret|].
    apply calm_try; [apply stable_true|eapply calm_read_file_bytes, Hn|]. intros; apply calm_ret.
  - apply calm_good. unfold detect_file. apply calm_try; [apply stable_true|eapply calm_read_file_bytes, Hn|].
    intros; apply calm_ret.
  - apply good_on_path. intros t kt Ht _. by eapply calm_good, calm_archive_create.
  - by eapply calm_good, calm_archive_list.
  - by eapply calm_good, calm_list.
  - by apply calm_good, calm_glob.
  - apply calm_good, calm_search.
  - apply good_replace.
  - by apply calm_good, calm_plan_edits.
  - apply good_apply_plan.
Qed.

End Safe.
Arguments confined ws w : clear implicits.
Arguments at_key ws k : clear implicits.
Arguments names ws path k : clear implicits.
Arguments scope ws path k : clear implicits.
Arguments moves ws R {A} P p.

Lemma serve_confined `{CodePlatform} fuel ws requests w :
  plain (ws_root ws) = true → (∀ s, lacks "/" (sha256_hex s) = true) → confined ws w →
  confined ws (serve fuel ws requests w).
Proof.
  intros Hr Hhex. unfold serve. revert w. induction requests as [|request requests IH]; intros w Hc; simpl; [done|].
  apply IH. by apply (dispatch_confined (PlainRoot0 := Hr) request Hhex).
Qed.

(** (C4) In a workspace whose metadata directory [.labby-state] holds no link at
    the start ([confined]; a link there is followed, see [metadata_link_followed])
    and with digests that are file names: whatever sequence of requests a caller
    of Code Mode sends, whatever links the tree holds outside the metadata
    directory and whichever system calls fail, no call resolves a path through a
    symbolic link or outside the workspace root; the tree stays well formed, and
    no link ever appears in the metadata directory. *)
Theorem workspace_confined `{CodePlatform} fuel ws requests w :
  plain (ws_root ws) = true → (∀ s, lacks "/" (sha256_hex s) = true) → confined ws w →
  confined ws (serve fuel ws requests w).
Proof. apply serve_confined. Qed.

(** ** Witnesses *)

#[local] Existing Instance sample_code_platform.

Lemma sample_confined : confined (sample_ws 100) (sample_world [(["link"], NSymlink); (["d"], NDir)]).
Proof.
  assert (∀ k n, w_fs (sample_world [(["link"], NSymlink); (["d"], NDir)]) !! k = Some n →
    k = [] ∧ n = NDir ∨ k = ["link"] ∧ n = NSymlink ∨ k = ["d"] ∧ n = NDir) as Hk.
  { intros k n Hn. apply elem_of_list_to_map_2 in Hn. rewrite !elem_of_cons in Hn. set_solver. }
  split_and!; [done|done| | |].
  - split_and!; [done| |].
    + intros k c [n Hn]. apply Hk in Hn as [[E _]|[[E _]|[E _]]]; destruct k as [|x [|y k]]; simplify_eq/=; done.
    + intros k [n Hn]. apply Hk in Hn as [[-> _]|[[-> _]|[-> _]]]; repeat constructor.
  - intros k [r ->] Hn. apply Hk in Hn as [[E _]|[[E _]|[E _]]]; done.
  - repeat constructor.
Qed.

(** A write next to a link succeeds, one through it is refused, and neither
    leaves the root. *)
Lemma workspace_confined_witness :
  w_escaped (serve 30 (sample_ws 100) [WriteFileReq "d/a" "x"; WriteFileReq "link/b" "y"; RmReq "link" true]
    (sample_world [(["link"], NSymlink); (["d"], NDir)])) = false.
Proof.
  apply (workspace_confined 30 (sample_ws 100) [WriteFileReq "d/a" "x"; WriteFileReq "link/b" "y"; RmReq "link" true]
           (sample_world [(["link"], NSymlink); (["d"], NDir)]));
    [reflexivity|intros s; vm_compute; reflexivity|apply sample_confined].
Defined.

(** ** The metadata directory is not checked

    [plan_edits] creates and writes below [.labby-state] without looking for
    links there, and [create_temp_path] looks after it has created the
    directories: with a link in that place the call leaves the root. *)
Theorem metadata_link_followed :
  w_escaped (serve 30 (sample_ws 100) [PlanEditsReq [mkFileEdit "a" "x" "y"]] (sample_world [([meta], NSymlink)])) = true ∧
  w_escaped (serve 30 (sample_ws 100) [WriteFileReq "a" "x"] (sample_world [([meta], NSymlink)])) = true.
Proof. vm_compute. done. Qed.
