(* ===== verification/WorkspaceWrite.v ===== *)
(** * WorkspaceWrite: a write replaces one file or nothing

    The user's part of the tree is everything outside the metadata directory.
    Up to its last call, [write_file] changes the user's part only by creating
    the missing directories above its destination; the rename of the temporary
    file then replaces the destination at once.  So whichever call fails, the
    destination holds the old content or all of the new one, and no other file
    is touched. *)

From Stdlib Require Import Ascii.
From stdpp Require Import base list gmap strings.
From S2P Require Import Prelude RustStr Prog Paths Fs FsProps Workspace WorkspaceBatch WorkspaceSafe.

(** ** Growing: new directories above one key *)

Definition user (q : Key) : Prop := ¬ under [meta] q.

(** Outside the metadata, nothing changes but missing directories on the way
    to [k]. *)
Definition grown (k : Key) (w w' : World) : Prop :=
  quiet w w' ∧
  ∀ q, user q → w_fs w' !! q = w_fs w !! q ∨
    (w_fs w !! q = None ∧ w_fs w' !! q = Some NDir ∧ q `prefix_of` k ∧ q ≠ k).

#[export] Instance grown_Motion k : Motion (grown k).
Proof.
  split.
  - intros w. split; [apply quiet_refl|auto].
  - intros w1 w2 w3 [Hq1 H1] [Hq2 H2]. split; [by eapply quiet_trans|]. intros q Hq.
    destruct (H1 q Hq) as [E1|(? & ? & ? & ?)], (H2 q Hq) as [E2|(? & ? & ? & ?)]; [left; congruence|right..];
      split_and!; congruence.
  - by intros w w' [? _].
  - intros w w' Hs. split; [by apply same_quiet|]. destruct Hs as (_ & -> & _). auto.
Qed.

(** The stronger motion of the steps before the temporary file exists: new
    directories only, inside the metadata too. *)
Definition expanded (k : Key) (w w' : World) : Prop :=
  grown k w w' ∧ ∀ q, w_fs w' !! q = w_fs w !! q ∨ (w_fs w !! q = None ∧ w_fs w' !! q = Some NDir).

#[export] Instance expanded_Motion k : Motion (expanded k).
Proof.
  split.
  - intros w. split; [apply motion_refl|auto].
  - intros w1 w2 w3 [Hg1 H1] [Hg2 H2]. split; [by eapply motion_trans|]. intros q.
    destruct (H1 q) as [?|[? ?]], (H2 q) as [?|[? ?]]; [left; congruence|right; split; congruence..].
  - intros w w' [Hg _]. by eapply motion_quiet.
  - intros w w' Hs. split; [by apply same_motion|]. destruct Hs as (_ & -> & _). auto.
Qed.

Lemma grown_at k w w' : grown k w w' → user k → w_fs w' !! k = w_fs w !! k.
Proof. intros [_ Hg] Hk. by destruct (Hg k Hk) as [?|(_ & _ & _ & ?)]. Qed.

Lemma mkdirs_new limit fs pre rest q :
  (mkdirs limit fs pre rest).1.2 !! q = fs !! q ∨
  (fs !! q = None ∧ (mkdirs limit fs pre rest).1.2 !! q = Some NDir ∧ q `prefix_of` pre ++ rest).
Proof.
  revert limit fs pre. induction rest as [|c rest IH]; intros limit fs pre; cbn [mkdirs].
  - rewrite app_nil_r. assert (∀ n, fs !! pre = None → <[pre := n]> fs !! q = fs !! q ∨ fs !! q = None ∧ <[pre := n]> fs !! q = Some n ∧ q `prefix_of` pre) as Hi.
    { intros n Hn. rewrite lookup_insert. case_decide; [subst q; right; by split_and!|by left]. }
    destruct (fs !! pre) as [[]|] eqn:E; auto. destruct limit as [[|n]|]; simpl; auto.
  - assert (∀ l, fs !! pre = None → (mkdirs l (<[pre := NDir]> fs) (pre ++ [c]) rest).1.2 !! q = fs !! q ∨
      fs !! q = None ∧ (mkdirs l (<[pre := NDir]> fs) (pre ++ [c]) rest).1.2 !! q = Some NDir ∧ q `prefix_of` pre ++ c :: rest) as Hi.
    { intros l Hn. destruct (IH l (<[pre := NDir]> fs) (pre ++ [c])) as [E|(E & E' & Hp)].
      - rewrite E, lookup_insert. case_decide; [|by left]. subst q. right. split_and!; [done|done|by eexists].
      - rewrite lookup_insert in E. case_decide; [done|]. right. by rewrite <- app_assoc in Hp. }
    destruct (fs !! pre) as [[]|] eqn:E; auto; [|destruct limit as [[|n]|]; simpl; auto].
    destruct (IH limit fs (pre ++ [c])) as [E'|(E' & E'' & Hp)]; [by left|]. right. by rewrite <- app_assoc in Hp.
Qed.

Lemma create_dirs_new w k q :
  settled w (w_root w ++ (Normal <$> k)) k →
  let w' := (host (CreateDirAll (w_root w ++ (Normal <$> k))) w).2 in
  w_fs w' !! q = w_fs w !! q ∨ (w_fs w !! q = None ∧ w_fs w' !! q = Some NDir ∧ q `prefix_of` k).
Proof.
  intros Hi. destruct (host_cases (CreateDirAll (w_root w ++ (Normal <$> k))) w) as (w1 & Hs & Hh).
  apply (same_settled _ _ _ _ Hs) in Hi. pose proof (inside_key _ _ _ (settled_inside _ _ _ Hi)) as Hk.
  destruct Hs as (_ & <- & _). destruct Hh as [->|(n & ->)]; cbn [host_ok host_fault]; rewrite Hk; cbv zeta;
    match goal with |- context [mkdirs ?l _ _ _] => pose proof (mkdirs_new l (w_fs w1) [] k q) as Hm;
      destruct (mkdirs l (w_fs w1) [] k) as [[r fs] []] end; exact Hm.
Qed.

(** The calls that change one entry only. *)
Definition one_entry (e : FsEff) : bool :=
  match e with CreateNew _ | RemoveFile _ | RemoveDir _ => true | WriteAll _ _ | WriteFile _ _ => true | _ => false end.

Lemma at_path_only {X} (w : World) (follow : bool) (p : list Component)
    (f : Key → option Node → result X IoError * FS) (k q : Key) :
  inside w p k → (∀ n, (f k n).2 !! q = w_fs w !! q) → w_fs (at_path w follow p f).2 !! q = w_fs w !! q.
Proof.
  intros Hi Hf. unfold at_path. rewrite (inside_key _ _ _ Hi). destruct (walk _ _ _) as [n| | |]; try done.
  destruct (_ && _); [done|]. specialize (Hf n). by destruct (f k n).
Qed.

Lemma change_only w e p follow k q :
  one_entry e = true → change_at e = Some (p, follow) → inside w p k → q ≠ k → w_fs (host e w).2 !! q = w_fs w !! q.
Proof.
  intros Ho He Hi Hq. destruct (host_cases e w) as (w1 & Hs & Hh). apply (same_inside _ _ _ _ Hs) in Hi.
  destruct Hs as (_ & <- & _). destruct e; try done; injection He as -> <-;
    destruct Hh as [->|(m & ->)]; cbn [host_ok host_fault]; try done; apply (at_path_only _ _ _ _ k); try done;
    intros [[]|]; simpl; rewrite ?lookup_insert_ne, ?lookup_delete_ne by done; try done.
  destruct (children _ _); simpl; by rewrite ?lookup_delete_ne.
Qed.

(** What the two steps that fill a new file leave in it. *)
Lemma create_new_Ok w p k w' :
  inside w p k → host (CreateNew p) w = (Ok (), w') → w_fs w !! k = None ∧ w_fs w' !! k = Some (NFile "").
Proof.
  intros Hi. destruct (host_cases (CreateNew p) w) as (w1 & Hs & [->|(n & ->)]); [|done].
  apply (same_inside _ _ _ _ Hs) in Hi. destruct Hs as (_ & <- & _). cbn [host_ok]. unfold at_path.
  rewrite (inside_key _ _ _ Hi). destruct (walk _ _ _) as [[n|]| | |] eqn:E; try done. apply walk_At in E. simpl in E.
  intros [= <-]. simpl. by rewrite lookup_insert_eq.
Qed.

Lemma write_all_Ok w p k c content w' :
  inside w p k → w_fs w !! k = Some (NFile c) → host (WriteAll p content) w = (Ok (), w') →
  w_fs w' !! k = Some (NFile (c +:+ content)).
Proof.
  intros Hi Hc. destruct (host_cases (WriteAll p content) w) as (w1 & Hs & Hh).
  apply (same_inside _ _ _ _ Hs) in Hi. destruct Hs as (_ & Hf & _). rewrite <- Hf in Hc.
  destruct Hh as [->|(n & ->)]; cbn [host_ok host_fault]; unfold at_path; rewrite (inside_key _ _ _ Hi);
    destruct (walk _ _ _) as [nd| | |] eqn:E; try done; apply walk_At in E; simpl in E; subst nd; rewrite Hc; simpl; [|done].
  intros [= <-]. simpl. by rewrite lookup_insert_eq.
Qed.

Section Write.
Context `{CodePlatform} {fuel : nat} {ws : StateWorkspace} `{!PlainRoot ws}.
Notation confined := (confined ws).
Notation at_key := (at_key ws).
Notation names := (names ws).
Notation moves := (moves ws).

(** ** The steps of a write *)

Lemma grows_create_dirs P k d a :
  Forall proper d → (∀ w, confined w → P w → clear (w_fs w) d) →
  (∀ q, user q → q `prefix_of` d → q = [] ∨ (q `prefix_of` k ∧ q ≠ k)) →
  moves (expanded k) P (create_dir_all (at_key d) a).
Proof.
  intros Hpr Hcl Hd w Hc Hw. unfold create_dir_all. rewrite run_try_io. cbn [snd].
  assert (quiet w (run host (trigger (CreateDirAll (at_key d))) w).2) as Hq
    by by apply (calm_change (ws:=ws) P (CreateDirAll (at_key d)) d true).
  rewrite (run_trigger host (CreateDirAll (at_key d))) in *.
  pose proof (settled_at w d Hc (Hcl w Hc Hw)) as Hs. pose proof (confined_wf w Hc) as (H0 & _).
  destruct Hc as (Hr & _). unfold WorkspaceSafe.at_key in *. rewrite <- Hr in *.
  split; [split; [done|]; intros q Hu|intros q];
    (destruct (create_dirs_new w d q Hs) as [E|(E & E' & Hp)]; [by left|]; right); [|done].
  destruct (Hd q Hu Hp) as [->|[? ?]]; [congruence|]. by split_and!.
Qed.

Lemma grows_create_parent P k a :
  k ≠ [] → Forall proper k → (∀ w, confined w → P w → clear (w_fs w) k) →
  moves (expanded k) P (create_parent (at_key k) a).
Proof.
  intros Hne Hpr Hk. destruct k as [|c k _] using rev_ind; [done|]. unfold create_parent. rewrite parent_at.
  apply grows_create_dirs; [by apply Forall_app in Hpr as [? _]| |].
  - intros w Hc Hw. eapply clear_prefix; [by apply Hk|by eexists].
  - intros q _ Hq. right. split; [by apply prefix_app_r|]. intros ->. by eapply not_under_snoc.
Qed.

(** Steps on the metadata leave the user's part as it is. *)
Lemma grows_meta_change P k e d follow :
  one_entry e = true → change_at e = Some (at_key d, follow) → under [meta] d → Forall proper d →
  moves (grown k) P (trigger e).
Proof.
  intros Ho He Hd Hpr w Hc _. rewrite run_trigger. pose proof (confined_meta_clear w d Hc Hd) as Hcl.
  pose proof (settled_at w d Hc Hcl) as Hs. split.
  - eapply (change_quiet w e _ follow d); [done| |done|destruct follow; [done|by apply settled_inside]].
    destruct e; try done; by destruct Hd as [r ->].
  - intros q Hq. left. eapply change_only; [done|done|by apply settled_inside|]. by intros ->.
Qed.

Lemma grows_create_temp P k : stable P → moves (expanded k) P (create_temp_path ws).
Proof.
  intros HP. unfold create_temp_path.
  replace (push (push (ws_root ws) (Normal ".labby-state")) (Normal "tmp")) with (at_key tmp_key)
    by (unfold WorkspaceSafe.at_key; simpl; by rewrite <- app_assoc).
  assert (∀ w, confined w → P w → clear (w_fs w) tmp_key) as Hk
    by (intros w Hc _; apply (confined_meta_clear (ws:=ws)); [done|apply (tmp_under [])]).
  apply calm_try; [done| |intros []].
  { apply grows_create_dirs; [apply tmp_proper|done|]. intros q Hq Hp. left.
    destruct q as [|x q]; [done|]. destruct Hp as [r Hr]. simpl in Hr. injection Hr as <- _. destruct Hq. by exists q. }
  apply calm_try; [done|by apply calm_ancestors|intros []].
  apply calm_try; [done|by apply calm_try_io, calm_lstat_clear|]. intros md.
  destruct (_ || _); [apply calm_ret|]. apply calm_bind; [done| |intros; apply calm_ret].
  apply calm_eff. intros w _ _. by apply same_motion, ulid_same.
Qed.

(** ** Outcomes *)

(** A write from [w] to the entry [k]: growth only, or the temporary file [t]
    renamed to it. *)
Definition wrote (k : Key) (content : string) (w : World) (r : result unit WErr) (w' : World) : Prop :=
  match r with
  | Err _ => grown k w w'
  | Ok _ => ∃ w1 t, grown k w w1 ∧ confined w1 ∧ under [meta] t ∧ w_fs w1 !! t = Some (NFile content) ∧ apart t k ∧
      (∀ c, w_fs w1 !! (k ++ [c]) = None) ∧ w_fs w1 !! k ≠ Some NDir ∧ w_fs w' = rename_keys t k (w_fs w1) ∧
      w_fs w !! t = None ∧
      ∀ q, q ≠ t → w_fs w1 !! q = w_fs w !! q ∨ (w_fs w !! q = None ∧ w_fs w1 !! q = Some NDir)
  end.

Definition reached (R : World → World → Prop) (k : Key) (w0 w : World) : Prop :=
  confined w ∧ R w0 w ∧ clear (w_fs w) k.

Section Steps.
Context {R : World → World → Prop} {HM : Motion R} {k : Key} {content : string}.
Context (R_grown : ∀ w w', R w w' → grown k w w').

Lemma wrote_by {A} (R' : World → World → Prop) w0 w (p : F (result A WErr)) (f : A → F (result unit WErr)) :
  (∀ w w', R' w w' → R w w') → reached R k w0 w → moves R' (fun w => True ∧ clear (w_fs w) k) p →
  (∀ a w', reached R k w0 w' → R' w w' → run host p w = (Ok a, w') →
     wrote k content w0 (run host (f a) w').1 (run host (f a) w').2) →
  wrote k content w0 (run host (try_bind p f) w).1 (run host (try_bind p f) w).2.
Proof.
  intros HR (Hc & Hg & Hk) Hp Hf. specialize (Hp w Hc (conj I Hk)). rewrite run_try.
  destruct (run host p w) as [[a|e] w'] eqn:E; simpl in Hp; pose proof (HR _ _ Hp) as Hm;
    [|simpl; apply R_grown; by eapply motion_trans].
  apply Hf; [|done|done]. split_and!; [by eapply motion_confined|by eapply motion_trans|].
  eapply quiet_clear; [by eapply motion_quiet|done].
Qed.

Lemma wrote_step {A} w0 w (p : F (result A WErr)) (f : A → F (result unit WErr)) :
  reached R k w0 w → moves R (fun w => True ∧ clear (w_fs w) k) p →
  (∀ a w', reached R k w0 w' → R w w' → run host p w = (Ok a, w') →
     wrote k content w0 (run host (f a) w').1 (run host (f a) w').2) →
  wrote k content w0 (run host (try_bind p f) w).1 (run host (try_bind p f) w).2.
Proof. intros Hr Hp Hf. by eapply (wrote_by R). Qed.

(** A step that only looks. *)
Lemma wrote_look {A} w0 w (p : F (result A WErr)) (f : A → F (result unit WErr)) :
  reached R k w0 w → moves same (fun w => True ∧ clear (w_fs w) k) p →
  (∀ a w', reached R k w0 w' → w_fs w' = w_fs w → run host p w = (Ok a, w') →
     wrote k content w0 (run host (f a) w').1 (run host (f a) w').2) →
  wrote k content w0 (run host (try_bind p f) w).1 (run host (try_bind p f) w).2.
Proof.
  intros Hr Hp Hf. eapply (wrote_by same); [apply same_motion|done|done|]. intros a w' Hr' (_ & Hfs & _). by apply Hf.
Qed.
End Steps.

Lemma grown_grown k w w' : grown k w w' → grown k w w'.
Proof. done. Qed.
Lemma expanded_grown k w w' : expanded k w w' → grown k w w'.
Proof. by intros [? _]. Qed.

Lemma still_guard P k : moves same P (guard_path ws (at_key k)).
Proof. intros w Hc _. by apply guard_spec. Qed.

(** The temporary file after the two steps that fill it. *)
Lemma filled t content w w1 w2 f1 f2 :
  confined w → confined w1 → under [meta] t →
  run host (try_io (trigger (CreateNew (at_key t))) f1) w = (Ok (), w1) →
  run host (try_io (trigger (WriteAll (at_key t) content)) f2) w1 = (Ok (), w2) →
  w_fs w !! t = None ∧ w_fs w2 !! t = Some (NFile content) ∧ ∀ q, q ≠ t → w_fs w2 !! q = w_fs w !! q.
Proof.
  intros Hc Hc1 Ht. rewrite !run_try_io, (run_trigger host (CreateNew _)), (run_trigger host (WriteAll _ _)).
  assert (∀ w, confined w → inside w (at_key t) t) as Hin
    by (intros w' Hc'; apply settled_inside, settled_at; [done|by apply (confined_meta_clear (ws:=ws))]).
  pose proof (change_only w (CreateNew (at_key t)) (at_key t) false t) as Ho1.
  pose proof (change_only w1 (WriteAll (at_key t) content) (at_key t) true t) as Ho2.
  destruct (host (CreateNew (at_key t)) w) as [[[]|] ?] eqn:Ec; [|done]. intros [= ->].
  destruct (host (WriteAll (at_key t) content) w1) as [[[]|] ?] eqn:Ew; [|done]. intros [= ->].
  destruct (create_new_Ok w (at_key t) t w1) as [Hn He]; [by apply Hin|done|]. split_and!; [done| |].
  - by apply (write_all_Ok w1 (at_key t) t "" content w2); [apply Hin| |].
  - intros q Hq. rewrite Ho2, Ho1; auto.
Qed.

(** The last part: the temporary file is renamed to the destination. *)
Lemma rename_temp k t content w0 w :
  reached (grown k) k w0 w → k ≠ [] → Forall proper k → user k → under [meta] t →
  w_fs w !! t = Some (NFile content) → w_fs w0 !! t = None →
  (∀ q, q ≠ t → w_fs w !! q = w_fs w0 !! q ∨ (w_fs w0 !! q = None ∧ w_fs w !! q = Some NDir)) →
  let p := try_io (trigger (Rename (at_key t) (at_key k))) (internal_io "move state temp file") in
  wrote k content w0 (run host p w).1 (run host p w).2.
Proof.
  intros (Hc & Hg & Hk) Hne Hpr Hu Htm Ht Ht0 Hq p. subst p. rewrite run_try_io, (run_trigger host (Rename _ _)).
  destruct (rename_host w (at_key t) (at_key k) t k) as (Hul & Hrt & Hes & Hdl & Hwf & Hfs);
    [by eapply confined_wf| |by apply settled_inside, settled_at|done|done|].
  { apply settled_inside, settled_at; [done|by apply (confined_meta_clear (ws:=ws))]. }
  assert (t ≠ k) as Htk by by intros ->. destruct (host (Rename _ _) w) as [[[]|e] w']; simpl in *.
  - destruct Hfs as [[_ Hab]|(Hfs & _ & Hap & _ & Hch & Hd)]; [by destruct Htk; apply Hab|].
    exists w, t. split_and!; try done. apply Hd. by rewrite Ht.
  - destruct Hfs as [[Hfs _]|(_ & ? & _)]; [|done]. eapply motion_trans; [exact Hg|]. split.
    + split_and!; [done|done|rewrite Hfs; apply no_new_links_refl|by rewrite Hfs|done].
    + intros q _. left. by rewrite Hfs.
Qed.

Lemma fill_and_rename k content w0 w name :
  reached (expanded k) k w0 w → k ≠ [] → Forall proper k → user k → proper name →
  let tmp := at_key (tmp_key ++ [name]) in
  let p :=
    let!? _ := try_io (trigger (CreateNew tmp)) (internal_io "create state temp file") in
    let!? _ := try_io (trigger (WriteAll tmp content)) (internal_io "write state temp file") in
    let!? _ := try_io (trigger (Flush tmp)) (internal_io "flush state temp file") in
    let!? tmp_metadata := try_io (lstat tmp) (internal_io "inspect state temp file") in
    if negb (is_file tmp_metadata) || is_symlink tmp_metadata
    then
      let! _ := trigger (RemoveFile tmp) in
      ret_err (denied "state temp path is not a regular file")
    else
      let!? _ := guard_path ws (at_key k) in
      try_io (trigger (Rename tmp (at_key k))) (internal_io "move state temp file") in
  wrote k content w0 (run host p w).1 (run host p w).2.
Proof.
  intros (Hc & [Hg Hx] & Hk) Hne Hpr Hu Hn tmp p. set (t := tmp_key ++ [name]) in *.
  assert (under [meta] t) as Htm by apply tmp_under.
  assert (Forall proper t) as Htp by (apply Forall_app; split; [apply tmp_proper|by constructor]).
  subst p. pose proof (grown_grown k) as HR. eapply (wrote_step (R:=grown k)); [done|by split_and!|by apply calm_try_io, (grows_meta_change _ k (CreateNew tmp) t false)|].
  intros [] w1 Hr1 _ E1.
  eapply (wrote_step (R:=grown k)); [done|done|by apply calm_try_io, (grows_meta_change _ k (WriteAll tmp content) t true)|].
  intros [] w2 Hr2 _ E2. destruct (filled t content w w1 w2 _ _ Hc (proj1 Hr1) Htm E1 E2) as (Ht0 & Ht & Hq).
  eapply (wrote_look (R:=grown k)); [done|done|apply calm_try_io, (calm_eff _ (Flush _)); intros ? _ _; apply flush_same|].
  intros [] w3 Hr3 Hf3 _. eapply (wrote_look (R:=grown k)); [done|done| |].
  { apply calm_try_io, calm_lstat_clear. intros ? Hc' _. by apply (confined_meta_clear (ws:=ws)). }
  intros md w4 Hr4 Hf4 _. rewrite Hf3 in Hf4. destruct (_ || _).
  - rewrite run_bind. pose proof (grows_meta_change (fun _ => True) k (RemoveFile tmp) t false eq_refl eq_refl Htm Htp w4) as Hg4.
    destruct (run host (trigger (RemoveFile tmp)) w4) as [r w5]. simpl in *. eapply motion_trans; [apply Hr4|].
    apply Hg4; [apply Hr4|done].
  - eapply (wrote_look (R:=grown k)); [done|done|apply still_guard|]. intros [] w5 Hr5 Hf5 _. rewrite Hf4 in Hf5. rewrite <- Hf5 in *.
    apply rename_temp; try done.
    + by destruct (Hx t) as [E|[E E']]; [rewrite <- E|rewrite E' in Ht0].
    + intros q Hqt. rewrite Hq by done. apply Hx.
Qed.

Lemma names_user path k : names path k → user k.
Proof. intros (_ & _ & Hh & _) [r ->]. by apply Hh. Qed.

Lemma write_file_wrote w path content k :
  confined w → names path k →
  wrote k content w (run host (write_file fuel ws path content) w).1 (run host (write_file fuel ws path content) w).2.
Proof.
  intros Hc Hn. pose proof (names_user _ _ Hn) as Hu. destruct Hn as (Hp & Hne & Hh & Hpr).
  unfold write_file. case_bool_decide; [simpl; apply motion_refl|]. cbv zeta. rewrite Hp.
  pose proof (guard_spec (ws:=ws) w k Hc) as [Hs Hok]. rewrite run_try.
  destruct (run host (guard_path ws (at_key k)) w) as [[[]|e] w1]; simpl in Hs, Hok; [|simpl; by apply same_motion].
  assert (reached (expanded k) k w w1) as Hr1.
  { split_and!; [by eapply same_confined|by apply same_motion|]. destruct Hs as (_ & -> & _). by apply Hok. }
  clear Hs Hok. set (P := fun w => True ∧ clear (w_fs w) k). pose proof (expanded_grown k) as HR.
  assert (stable P) as HP by (apply stable_and; [apply stable_true|apply stable_clear]).
  assert (∀ w, confined w → P w → clear (w_fs w) k) as Hcl by by intros ? _ [_ ?].
  eapply (wrote_look (R:=expanded k)); [done|done|by apply calm_check_write_quota|]. intros [] w2 Hr2 _ _.
  eapply (wrote_step (R:=expanded k)); [done|done|by apply grows_create_parent|]. intros [] w3 Hr3 _ _.
  eapply (wrote_look (R:=expanded k)); [done|done|apply still_guard|]. intros [] w4 Hr4 _ _.
  eapply (wrote_step (R:=expanded k)); [done|done|by apply grows_create_temp|]. intros tmp w5 Hr5 _ E5.
  destruct (create_temp_name w4 tmp) as (name & -> & Hnm); [apply Hr4|by rewrite E5|].
  by apply fill_and_rename.
Qed.

(** What a write leaves at every key of the user. *)
Lemma wrote_view k content w r w' :
  wrote k content w r w' → user k →
  w_fs w' !! k = (match r with Ok _ => Some (NFile content) | Err _ => w_fs w !! k end) ∧
  ∀ q, user q → q ≠ k → w_fs w' !! q = w_fs w !! q ∨
    (w_fs w !! q = None ∧ w_fs w' !! q = Some NDir ∧ q `prefix_of` k).
Proof.
  intros Hw Hk. destruct r as [u|e]; simpl in Hw.
  2: { split; [by apply grown_at|]. intros q Hq _. destruct Hw as [_ Hw]. destruct (Hw q Hq) as [?|(? & ? & ? & _)]; auto. }
  destruct Hw as (w1 & t & [_ Hg] & Hc & Htm & Ht & Hap & Hch & Hd & -> & _). split.
  { rewrite lookup_rename by done. rewrite decide_True by done. by rewrite drop_all, app_nil_r. }
  intros q Hq Hne. rewrite lookup_rename by done. pose proof (confined_wf _ Hc) as Hwf.
  assert (∀ fs x r, wf fs → fs !! x ≠ Some NDir → r ≠ [] → fs !! (x ++ r) = None) as Hleaf.
  { intros fs x r Hfs Hx Hr. destruct (fs !! (x ++ r)) eqn:E; [|done]. destruct Hx. by eapply wf_above. }
  destruct (decide (under k q)) as [[r ->]|Hkq].
  - destruct r as [|c r]; [by rewrite app_nil_r in Hne|]. left. rewrite drop_app_length.
    rewrite Hleaf by (done || by rewrite Ht). specialize (Hg _ Hq). rewrite (Hleaf (w_fs w1) k) in Hg by done.
    by destruct Hg as [?|(_ & ? & _)].
  - rewrite decide_False by (intros Ht'; apply Hq; by etransitivity).
    destruct (Hg q Hq) as [?|(? & ? & ? & _)]; auto.
Qed.

(** Overwriting a file changes nothing else of the user's. *)
Definition user_same (fs fs' : FS) : Prop := ∀ q, user q → fs' !! q = fs !! q.

Lemma overwrite w path content k old :
  confined w → names path k → w_fs w !! k = Some (NFile old) →
  let o := run host (write_file fuel ws path content) w in
  confined o.2 ∧
  user_same (match o.1 with Ok _ => <[k := NFile content]> (w_fs w) | Err _ => w_fs w end) (w_fs o.2).
Proof.
  intros Hc Hn Hk o. split; [by apply (good_write_file path content k Hn)|].
  destruct (wrote_view k content w o.1 o.2) as [Hv Hq]; [by apply write_file_wrote|by eapply names_user|].
  assert (∀ q, user q → q ≠ k → w_fs o.2 !! q = w_fs w !! q) as Hq'.
  { intros q Hu Hne. destruct (Hq q Hu Hne) as [?|(E & _ & [r Hr])]; [done|]. subst k.
    destruct r as [|c r]; [by rewrite app_nil_r in Hne|].
    rewrite (wf_above (w_fs w) q (c :: r)) in E; [done|by eapply confined_wf|by rewrite Hk|done]. }
  intros q Hu. destruct (decide (q = k)) as [->|Hne].
  - rewrite Hv. destruct o.1; [by rewrite lookup_insert_eq|done].
  - destruct o.1; [rewrite lookup_insert_ne by done|]; by apply Hq'.
Qed.

(** ** Reading *)

Lemma str_length_take n s : String.length (Str.take n s) = n `min` String.length s.
Proof. revert s. induction n as [|n IH]; intros [|a s]; simpl; [done..|]. by rewrite IH. Qed.

Lemma take_whole n s : (Str.len (take_bytes (n + 1) s) <= n)%Z → take_bytes (n + 1) s = s.
Proof.
  unfold take_bytes. case_bool_decide as Hl; [done|]. intros Ht. exfalso. revert Hl Ht.
  unfold Str.len. rewrite str_length_take. lia.
Qed.

Lemma open_same w k : confined w → clear (w_fs w) k → same w (host (OpenFile (at_key k)) w).2.
Proof. intros Hc Hk. eapply follow_reads; [done|]. by apply settled_at. Qed.

Lemma read_take_Ok w k n s w' :
  confined w → clear (w_fs w) k → host (ReadTake (at_key k) n) w = (Ok s, w') →
  ∃ c, w_fs w !! k = Some (NFile c) ∧ s = take_bytes n c.
Proof.
  intros Hc Hk. pose proof (settled_at w k Hc Hk) as Hs.
  destruct (host_cases (ReadTake (at_key k) n) w) as (w1 & Hsm & [->|(f & ->)]); [|done].
  apply (same_settled _ _ _ _ Hsm) in Hs. destruct Hsm as (_ & <- & _).
  pose proof (settled_not_link _ _ _ Hs) as Hl. apply settled_inside, inside_key in Hs.
  cbn [host_ok]. unfold at_path. rewrite Hs. destruct (walk _ _ _) as [nd| | |] eqn:E; try done.
  rewrite bool_decide_false by congruence. apply walk_At in E. simpl in E. subst nd. cbn [andb].
  destruct (w_fs w1 !! k) as [[]|]; try done. intros [= <- <-]. by eexists.
Qed.

(** A file that is read is read whole. *)
Lemma read_file_Ok w path k r w' :
  confined w → scope ws path k → run host (read_file ws path) w = (Ok r, w') →
  same w w' ∧ w_fs w !! k = Some (NFile (rf_content r)).
Proof.
  intros Hc Hp E. pose proof (calm_read_file (R:=same) path k Hp w Hc I) as Hs. rewrite E in Hs. split; [done|].
  revert E. unfold read_file. cbv zeta. unfold scope in Hp. rewrite Hp, run_try.
  destruct (guard_spec w k Hc) as [Hs1 Hok]. destruct (run host (guard_path _ _) w) as [[[]|e] w1]; [|done]. simpl in Hs1, Hok.
  specialize (Hok eq_refl). assert (w_fs w1 = w_fs w) as Hf1 by by destruct Hs1 as (_ & ? & _). rewrite <- Hf1 in *.
  assert (confined w1) as Hc1 by by eapply same_confined. rewrite run_try, run_try_io, (run_trigger host (OpenFile _)).
  pose proof (open_same w1 k Hc1 Hok) as Hs2. destruct (host (OpenFile _) w1) as [[[]|e] w2]; [|done]. simpl in Hs2.
  cbn [map_err fst snd]. assert (w_fs w2 = w_fs w1) as Hf2 by by destruct Hs2 as (_ & ? & _). rewrite <- Hf2 in *.
  assert (confined w2) as Hc2 by by eapply same_confined. rewrite run_try, run_try_io, (run_trigger host (ReadTake _ _)).
  pose proof (read_take_Ok w2 k (max_result_bytes (ws_limits ws) + 1)) as Hr.
  destruct (host (ReadTake _ _) w2) as [[s|e] w3]; [|done]. cbn [map_err fst snd].
  destruct (Hr s w3 Hc2 Hok eq_refl) as (c & Hcn & ->). destruct (negb _); [done|].
  case_bool_decide as Hl; [done|]. intros [= <- <-]. simpl. rewrite take_whole; [done|lia].
Qed.

End Write.
