(* ===== verification/WorkspaceUsage.v ===== *)
(** * WorkspaceUsage: the usage scan and the quotas built on it

    In a world without failing calls, [workspace_usage] terminates and returns
    the exact totals of the tree, and the quota checks decide exactly the
    limits on them. *)

From Stdlib Require Import Ascii ZArith Lia.
From stdpp Require Import base list gmap strings.
From S2P Require Import Prelude RustStr Prog Paths Fs FsProps Workspace WorkspaceBatch WorkspaceSafe WorkspaceWrite.

(** ** Totals of a tree *)

Definition tot {A} (f : A → Z) (l : list A) : Z := foldr (fun x acc => f x + acc)%Z 0%Z l.

Lemma tot_ext {A} (f g : A → Z) l : (∀ x, x ∈ l → f x = g x) → tot f l = tot g l.
Proof.
  induction l as [|x l IH]; intros He; simpl; [done|]. rewrite He by by left. f_equal. apply IH. intros y Hy. apply He. by right.
Qed.
Lemma tot_cons {A} (f : A → Z) x l : tot f (x :: l) = (f x + tot f l)%Z.
Proof. done. Qed.
Lemma tot_le_length {A} (f : A → Z) l : (∀ x, f x <= 1)%Z → (tot f l <= Z.of_nat (length l))%Z.
Proof. intros Hf. induction l as [|x l IH]; cbn [tot foldr length]; [lia|]. specialize (Hf x). unfold tot in IH. lia. Qed.
Lemma tot_plus {A} (f g : A → Z) l : tot (fun x => f x + g x)%Z l = (tot f l + tot g l)%Z.
Proof. induction l as [|x l IH]; simpl; [done|]. rewrite IH. lia. Qed.
Lemma tot_app {A} (f : A → Z) l l' : tot f (l ++ l') = (tot f l + tot f l')%Z.
Proof. induction l as [|x l IH]; simpl; [done|]. rewrite IH. lia. Qed.
Lemma tot_zero {A} (l : list A) : tot (fun _ => 0%Z) l = 0%Z.
Proof. induction l; simpl; lia. Qed.
Lemma tot_nonneg {A} (f : A → Z) l : (∀ x, 0 <= f x)%Z → (0 <= tot f l)%Z.
Proof. intros Hf. induction l as [|x l IH]; simpl; [lia|]. specialize (Hf x). lia. Qed.

Lemma tot_swap {A B} (f : A → B → Z) (l : list A) (m : list B) :
  tot (fun x => tot (f x) m) l = tot (fun y => tot (fun x => f x y) l) m.
Proof.
  induction l as [|x l IH]; simpl; [by rewrite tot_zero|]. rewrite IH, <- tot_plus. done.
Qed.

(** At most one element of the list counts. *)
Lemma tot_one {A} (f : A → Z) l x : NoDup l → x ∈ l → (∀ y, y ∈ l → y ≠ x → f y = 0%Z) → tot f l = f x.
Proof.
  induction 1 as [|y l Hy _ IH]; intros Hx Hz; [by apply elem_of_nil in Hx|]. simpl.
  apply elem_of_cons in Hx as [->|Hx].
  - rewrite (tot_ext f (fun _ => 0%Z) l), tot_zero; [lia|]. intros z Hzl. apply Hz; [by right|]. by intros ->.
  - rewrite (Hz y), IH; [lia|done| |by left|by intros ->]. intros z Hzl. apply Hz. by right.
Qed.
Lemma tot_none {A} (f : A → Z) l : (∀ y, y ∈ l → f y = 0%Z) → tot f l = 0%Z.
Proof. intros Hz. rewrite (tot_ext f (fun _ => 0%Z)), tot_zero; done. Qed.

Definition strictly (d k : Key) : Prop := under d k ∧ k ≠ d.
#[global] Instance strictly_dec d k : Decision (strictly d k).
Proof. unfold strictly. apply _. Defined.

(** A weight summed over the entries strictly below [d], and at one entry. *)
Definition below (f : Node → Z) (fs : FS) (d : Key) : Z :=
  tot (fun kn => if decide (strictly d kn.1) then f kn.2 else 0%Z) (map_to_list fs).
Definition weight_at (f : Node → Z) (fs : FS) (k : Key) : Z := match fs !! k with Some n => f n | None => 0%Z end.

Lemma weight_at_tot f fs k :
  weight_at f fs k = tot (fun kn => if decide (kn.1 = k) then f kn.2 else 0%Z) (map_to_list fs).
Proof.
  unfold weight_at. destruct (fs !! k) as [n|] eqn:E.
  - rewrite (tot_one _ _ (k, n)); [by rewrite decide_True|apply NoDup_map_to_list|by apply elem_of_map_to_list|].
    intros [k' n'] Hk%elem_of_map_to_list Hne. case_decide as Hd; [|done]. simpl in *. subst k'. congruence.
  - rewrite tot_none; [done|]. intros [k' n'] Hk%elem_of_map_to_list. rewrite decide_False; [done|]. simpl. intros ->. congruence.
Qed.

Lemma NoDup_children fs d : NoDup (children fs d).
Proof.
  unfold children. pose proof (NoDup_fst_map_to_list fs) as Hn. revert Hn. generalize (map_to_list fs).
  induction l as [|[k n] l IH]; simpl; [constructor|]. intros [Hk Hl]%NoDup_cons.
  destruct (child_name d k) as [c|] eqn:E; [|by apply IH]. constructor; [|by apply IH].
  rewrite list_elem_of_omap. intros ([k' n'] & Hin & E'). apply child_name_Some in E, E'. simpl in E'. subst k k'.
  apply Hk. apply list_elem_of_fmap. by exists (d ++ [c], n').
Qed.

(** The child of [d] an entry strictly below [d] is in. *)
Lemma strictly_child fs d k : wf fs → is_Some (fs !! k) → strictly d k → ∃ c, c ∈ children fs d ∧ under (d ++ [c]) k.
Proof.
  intros Hwf Hk [[r ->] Hne]. destruct r as [|c r]; [by rewrite app_nil_r in Hne|]. exists c. split.
  - apply elem_children. destruct r as [|c' r]; [done|]. rewrite (wf_above fs (d ++ [c]) (c' :: r)); [done|done| |done].
    by rewrite <- app_assoc.
  - exists r. by rewrite <- app_assoc.
Qed.

Lemma under_child_eq d c c' k : under (d ++ [c]) k → under (d ++ [c']) k → c = c'.
Proof. intros [r ->] [r' E]. rewrite <- !app_assoc in E. apply app_inv_head in E. simpl in E. by injection E. Qed.
Lemma under_child_strictly d c k : under (d ++ [c]) k → strictly d k.
Proof. intros Hu. split; [by eapply under_app_l|]. intros ->. by eapply not_under_snoc. Qed.

Lemma below_children f fs d :
  wf fs → below f fs d = tot (fun c => weight_at f fs (d ++ [c]) + below f fs (d ++ [c]))%Z (children fs d).
Proof.
  intros Hwf. rewrite (tot_ext _ (fun c => tot (fun kn => if decide (under (d ++ [c]) kn.1) then f kn.2 else 0%Z) (map_to_list fs))).
  2: { intros c _. rewrite weight_at_tot. unfold below. rewrite <- tot_plus. apply tot_ext. intros [k n] _. simpl.
       destruct (decide (under (d ++ [c]) k)) as [Hu|Hu].
       - destruct (decide (k = d ++ [c])) as [->|Hne]; [rewrite decide_False by (by intros []); lia|].
         rewrite decide_True by done. lia.
       - rewrite (decide_False (P := k = _)) by (by intros ->). rewrite decide_False by (by intros []). done. }
  rewrite tot_swap. unfold below. apply tot_ext. intros [k n] Hk%elem_of_map_to_list. simpl.
  destruct (decide (strictly d k)) as [Hs|Hs].
  - destruct (strictly_child fs d k Hwf) as (c & Hc & Hu); [by rewrite Hk|done|].
    rewrite (tot_one _ _ c); [by rewrite decide_True|apply NoDup_children|done|].
    intros c' _ Hne. rewrite decide_False; [done|]. intros Hu'. destruct Hne. by eapply under_child_eq.
  - rewrite tot_none; [done|]. intros c _. rewrite decide_False; [done|]. intros Hu. destruct Hs. by eapply under_child_strictly.
Qed.

(** Nothing is below an entry that is no directory. *)
Lemma below_leaf f fs k : wf fs → fs !! k ≠ Some NDir → below f fs k = 0%Z.
Proof.
  intros Hwf Hk. unfold below. apply tot_none. intros [q n] Hq%elem_of_map_to_list. rewrite decide_False; [done|].
  simpl. intros [[r ->] Hne]. destruct r as [|c r]; [by rewrite app_nil_r in Hne|]. apply Hk.
  eapply wf_above; [done|by rewrite Hq|done].
Qed.

Definition node_bytes (n : Node) : Z := match n with NFile c => Str.len c | _ => 0%Z end.
Definition node_entry (n : Node) : Z := match n with NSymlink => 0%Z | _ => 1%Z end.
Definition node_dir (n : Node) : Z := match n with NDir => 1%Z | _ => 0%Z end.

(** There are fewer directories below an entry than entries. *)
Lemma below_dirs_size fs d : is_Some (fs !! d) → (below node_dir fs d < Z.of_nat (size fs))%Z.
Proof.
  intros [n Hn]. assert (weight_at (fun _ => 1%Z) fs d = 1%Z) as Hw by (unfold weight_at; by rewrite Hn).
  rewrite weight_at_tot in Hw. unfold below. rewrite <- length_map_to_list.
  assert (tot (fun kn => (if decide (kn.1 = d) then 1 else 0) + (if decide (strictly d kn.1) then node_dir kn.2 else 0))
    (map_to_list fs) <= Z.of_nat (length (map_to_list fs)))%Z as Hle.
  { apply tot_le_length. intros [q nd]. simpl. destruct (decide (q = d)) as [->|]; [rewrite decide_False by (by intros []); lia|].
    case_decide; [|lia]. destruct nd; simpl; lia. }
  rewrite tot_plus in Hle. cbv beta in Hw. lia.
Qed.

(** The bytes of all files, and the number of entries other than links, below
    the root. *)
Definition total_bytes (fs : FS) : Z := below node_bytes fs [].
Definition total_entries (fs : FS) : Z := below node_entry fs [].

(** ** Calls that do not fail *)

Definition healthy (w : World) : Prop := w_faults w = [].

Lemma host_healthy e w : healthy w → host e w = host_ok e w.
Proof. unfold healthy, host, take_fault. by intros ->. Qed.

Lemma at_path_faults {X} (w : World) (follow : bool) (p : list Component) (f : Key → option Node → result X IoError * FS) :
  w_faults (at_path w follow p f).2 = w_faults w.
Proof.
  unfold at_path. destruct (key_of _ _) as [k|]; [|done]. destruct (walk _ _ _) as [n| | |]; try done.
  destruct (_ && _); [done|]. by destruct (f k n).
Qed.

Lemma host_ok_faults e w : w_faults (host_ok e w).2 = w_faults w.
Proof.
  destruct e; cbn [host_ok]; try apply at_path_faults; try done.
  - destruct (key_of _ _); [|done]. by destruct (mkdirs _ _ _ _) as [[r fs] []].
  - destruct (key_of (w_root w) from) as [a|], (key_of (w_root w) to) as [b|]; try done.
    destruct (walk (w_fs w) [] a), (walk (w_fs w) [] b); try done. by destruct (rename_at _ _ _ _ _).
  - by destruct (w_ulids w).
Qed.

Lemma run_healthy {A} (p : F A) w : healthy w → healthy (run host p w).2.
Proof.
  revert w. induction p as [a|e k IH]; intros w Hw; simpl; [done|]. rewrite host_healthy by done.
  pose proof (host_ok_faults e w) as Hf. destruct (host_ok e w) as [r w']. simpl in Hf. apply IH. unfold healthy. congruence.
Qed.

Lemma set_fs_id w : set_fs (w_fs w) w = w.
Proof. by destruct w. Qed.

(** ** Totals over a change *)

(** The bytes of a tree, summed over any list of keys that covers it. *)
Lemma tot_cover (f : Node → Z) (fs : FS) (l : list Key) :
  NoDup l → (∀ k, is_Some (fs !! k) → k ∈ l) →
  tot (fun kn => f kn.2) (map_to_list fs) = tot (weight_at f fs) l.
Proof.
  intros Hl Hk. rewrite (tot_ext (weight_at f fs) (fun k => tot (fun kn => if decide (kn.1 = k) then f kn.2 else 0%Z) (map_to_list fs)))
    by (intros; apply weight_at_tot).
  rewrite tot_swap. apply tot_ext. intros [k n] Hin%elem_of_map_to_list. simpl.
  rewrite (tot_one _ _ k); [by rewrite decide_True|done|apply Hk; by rewrite Hin|].
  intros y _ Hy. by rewrite decide_False.
Qed.

Lemma total_bytes_all fs : fs !! [] = Some NDir → total_bytes fs = tot (fun kn => node_bytes kn.2) (map_to_list fs).
Proof.
  intros H0. unfold total_bytes, below. apply tot_ext. intros [k n] Hk%elem_of_map_to_list. simpl. case_decide as Hs; [done|].
  destruct k as [|c k]; [by rewrite H0 in Hk; injection Hk as <-|]. destruct Hs. split; [by exists (c :: k)|done].
Qed.

(** Trees that differ in bytes at one key only. *)
Lemma total_bytes_change fs fs' k :
  fs !! [] = Some NDir → fs' !! [] = Some NDir →
  (∀ q, q ≠ k → weight_at node_bytes fs' q = weight_at node_bytes fs q) →
  total_bytes fs' = (total_bytes fs - weight_at node_bytes fs k + weight_at node_bytes fs' k)%Z.
Proof.
  intros H0 H0' Hq. rewrite !total_bytes_all by done. set (l := elements (dom fs ∪ dom fs' ∪ {[k]} : gset Key)).
  assert (NoDup l) as Hl by apply NoDup_elements. assert (∀ q, is_Some (fs !! q) ∨ is_Some (fs' !! q) ∨ q = k → q ∈ l) as Hin.
  { intros q Hor. unfold l. rewrite elem_of_elements, !elem_of_union, !elem_of_dom, elem_of_singleton. tauto. }
  rewrite !(tot_cover _ _ l) by auto.
  rewrite (tot_ext (weight_at node_bytes fs')
    (fun q => weight_at node_bytes fs q + (if decide (q = k) then weight_at node_bytes fs' k - weight_at node_bytes fs k else 0))%Z).
  2: { intros q _. case_decide as E; [subst; lia|]. rewrite Hq by done. lia. }
  rewrite tot_plus, (tot_one (fun q => if decide (q = k) then _ else 0%Z) l k); [|done|apply Hin; auto|].
  - rewrite decide_True by done. lia.
  - intros y _ Hy. by rewrite decide_False.
Qed.

Section Exact.
Context `{CodePlatform} {fuel : nat} {ws : StateWorkspace} `{!PlainRoot ws}.
Notation confined := (confined ws).
Notation at_key := (at_key ws).

Lemma at_path_exact {X} (w : World) (follow : bool) (f : Key → option Node → result X IoError * FS) k :
  confined w → clear (w_fs w) k → is_Some (w_fs w !! k) →
  at_path w follow (at_key k) f = (let '(r, fs) := f k (w_fs w !! k) in (r, set_fs fs w)).
Proof.
  intros Hc Hk Hs. unfold at_path. rewrite (inside_key w _ k) by by apply settled_inside, settled_at.
  rewrite wf_walk by (done || by eapply confined_wf).
  assert (follow && bool_decide (w_fs w !! k = Some NSymlink) = false) as ->; [|done].
  apply andb_false_iff. right. apply bool_decide_false. by apply Hk.
Qed.

Lemma lstat_exact w k n :
  healthy w → confined w → walk (w_fs w) [] k ≠ Escapes → w_fs w !! k = Some n →
  run host (lstat (at_key k)) w = (Ok (metadata_of w n), w).
Proof.
  intros Hh Hc Hw Hn. rewrite run_lstat, host_healthy by done. cbn [host_ok]. unfold at_path.
  assert (key_of (w_root w) (at_key k) = Some k) as ->.
  { destruct Hc as (-> & _). apply key_of_app. }
  rewrite wf_walk by (by eapply confined_wf || by rewrite Hn). rewrite Hn. simpl. by rewrite set_fs_id.
Qed.

Lemma read_dir_exact w k :
  healthy w → confined w → clear (w_fs w) k → w_fs w !! k = Some NDir →
  host (ReadDir (at_key k)) w = (Ok (Ok <$> children (w_fs w) k), w).
Proof.
  intros Hh Hc Hk Hn. rewrite host_healthy by done. cbn [host_ok]. rewrite at_path_exact by (done || by rewrite Hn).
  rewrite Hn. by rewrite set_fs_id.
Qed.

(** ** The scan *)

Definition sat (z : Z) : Z := Z.min u64_max z.
Lemma sat_add a b : (0 <= b)%Z → u64_saturating_add (sat a) b = sat (a + b).
Proof. unfold u64_saturating_add, sat. lia. Qed.

Lemma node_bytes_nonneg n : (0 <= node_bytes n)%Z.
Proof. destruct n; simpl; unfold Str.len; lia. Qed.

(** What remains to be visited from a stack. *)
Definition ahead (f : Node → Z) (fs : FS) (ks : list Key) : Z := tot (below f fs) ks.

Lemma starts_at k : starts_with_path (ws_root ws) (at_key k) = true.
Proof. unfold starts_with_path, WorkspaceSafe.at_key. by rewrite strip_prefix_app, bool_decide_true. Qed.

Lemma clear_snoc fs k c n : clear fs k → fs !! (k ++ [c]) = Some n → n ≠ NSymlink → clear fs (k ++ [c]).
Proof. intros Hk Hn Hs. apply clear_extend; [done|congruence]. Qed.

Lemma usage_entries_exact w k cs : ∀ ks b e,
  healthy w → confined w → clear (w_fs w) k → (∀ c, c ∈ cs → is_Some (w_fs w !! (k ++ [c]))) →
  Forall (fun q => clear (w_fs w) q ∧ w_fs w !! q = Some NDir) ks →
  let sum f := tot (fun c => weight_at f (w_fs w) (k ++ [c])) cs in
  let rest f := tot (fun c => below f (w_fs w) (k ++ [c])) cs in
  ∃ ks', run host (usage_entries ws (at_key k) (Ok <$> cs) (at_key <$> ks) (mkWorkspaceUsage (sat b) (sat e))) w
    = (Ok (at_key <$> ks', mkWorkspaceUsage (sat (b + sum node_bytes)) (sat (e + sum node_entry))), w) ∧
    Forall (fun q => clear (w_fs w) q ∧ w_fs w !! q = Some NDir) ks' ∧
    Z.of_nat (length ks') = (Z.of_nat (length ks) + sum node_dir)%Z ∧
    ∀ f, ahead f (w_fs w) ks' = (ahead f (w_fs w) ks + rest f)%Z.
Proof.
  induction cs as [|c cs IH]; intros ks b e Hh Hc Hk Hcs Hks sum rest; subst sum rest; cbn [usage_entries fmap list_fmap].
  { exists ks. simpl. rewrite !Z.add_0_r. split_and!; [done|done|lia|intros; lia]. }
  destruct (Hcs c) as [n Hn]; [by left|]. rewrite push_at, run_try, run_try_io.
  rewrite (lstat_exact w (k ++ [c]) n) by (done || by apply walk_parent_clear). cbn [map_err fst snd].
  rewrite starts_at. assert (∀ c, c ∈ cs → is_Some (w_fs w !! (k ++ [c]))) as Hcs' by (intros; apply Hcs; by right).
  pose proof (confined_wf _ Hc) as Hwf. rewrite !tot_cons.
  assert (∀ f, weight_at f (w_fs w) (k ++ [c]) = f n) as Hwt by (intros f; unfold weight_at; by rewrite Hn).
  assert (n ≠ NDir → ∀ f, below f (w_fs w) (k ++ [c]) = 0%Z) as Hleaf
    by (intros Hnd f; apply below_leaf; [done|congruence]).
  destruct n; cbn [is_symlink is_dir is_file metadata_of md_node md_len wu_bytes wu_entries];
    rewrite ?sat_add by (unfold Str.len; lia).
  - destruct (IH ks (b + Str.len content) (e + 1))%Z as (ks' & -> & Hk' & Hl & Ha); [done..|]. exists ks'.
    rewrite !Hwt. cbn [node_bytes node_entry node_dir]. split_and!; [by rewrite !Z.add_assoc|done|lia|].
    intros f. rewrite Ha, tot_cons, Hleaf by done. lia.
  - destruct (IH ((k ++ [c]) :: ks) b (e + 1))%Z as (ks' & E & Hk' & Hl & Ha); [done..| |].
    { constructor; [|done]. split; [by eapply clear_snoc|done]. }
    exists ks'. rewrite !Hwt. cbn [node_bytes node_entry node_dir]. rewrite fmap_cons in E. rewrite E. cbn [length] in Hl.
    split_and!; [by rewrite !Z.add_assoc, Z.add_0_r|done|lia|]. intros f. rewrite Ha. unfold ahead. rewrite !tot_cons. lia.
  - destruct (IH ks b e) as (ks' & -> & Hk' & Hl & Ha); [done..|]. exists ks'.
    rewrite !Hwt. cbn [node_bytes node_entry node_dir]. split_and!; [by rewrite !Z.add_0_l|done|lia|].
    intros f. rewrite Ha, tot_cons, Hleaf by done. lia.
  - destruct (IH ks b (e + 1))%Z as (ks' & -> & Hk' & Hl & Ha); [done..|]. exists ks'.
    rewrite !Hwt. cbn [node_bytes node_entry node_dir]. split_and!; [by rewrite !Z.add_assoc, Z.add_0_r|done|lia|].
    intros f. rewrite Ha, tot_cons, Hleaf by done. lia.
Qed.

Lemma usage_loop_exact w n : ∀ ks b e,
  healthy w → confined w → Forall (fun q => clear (w_fs w) q ∧ w_fs w !! q = Some NDir) ks →
  (Z.of_nat (length ks) + ahead node_dir (w_fs w) ks < Z.of_nat n)%Z →
  run host (usage_loop ws n (at_key <$> ks) (mkWorkspaceUsage (sat b) (sat e))) w
    = (Ok (mkWorkspaceUsage (sat (b + ahead node_bytes (w_fs w) ks)) (sat (e + ahead node_entry (w_fs w) ks))), w).
Proof.
  induction n as [|n IH]; intros ks b e Hh Hc Hks Hn.
  { assert (0 <= ahead node_dir (w_fs w) ks)%Z; [|lia]. apply tot_nonneg. intros d. apply tot_nonneg.
    intros [q nd]. case_decide; [destruct nd; simpl; lia|lia]. }
  cbn [usage_loop]. destruct Hks as [|k ks [Hk Hd] Hks]; [simpl; by rewrite !Z.add_0_r|].
  rewrite fmap_cons, run_bind, run_trigger, read_dir_exact by done.
  destruct (usage_entries_exact w k (children (w_fs w) k) ks b e) as (ks' & E & Hk' & Hl & Ha);
    [done|done|done|by intros c; rewrite elem_children|done|]. rewrite run_try, E. cbn [fst snd].
  pose proof (confined_wf _ Hc) as Hwf.
  assert (∀ f, below f (w_fs w) k = (tot (fun c => weight_at f (w_fs w) (k ++ [c])) (children (w_fs w) k)
    + tot (fun c => below f (w_fs w) (k ++ [c])) (children (w_fs w) k))%Z) as Hb
    by (intros f; by rewrite below_children, tot_plus).
  assert (∀ f, ahead f (w_fs w) (k :: ks) = (below f (w_fs w) k + ahead f (w_fs w) ks)%Z) as Hcons by done.
  rewrite IH; [|done|done|done|].
  - rewrite !Ha, !Hcons, !Hb. do 4 f_equal; lia.
  - rewrite Ha. rewrite Hcons, Hb in Hn. cbn [length] in Hn. lia.
Qed.

Lemma usage_exact w :
  healthy w → confined w → size (w_fs w) < fuel →
  run host (workspace_usage fuel ws) w
    = (Ok (mkWorkspaceUsage (sat (total_bytes (w_fs w))) (sat (total_entries (w_fs w)))), w).
Proof.
  intros Hh Hc Hf. unfold workspace_usage. pose proof (confined_wf _ Hc) as (H0 & _).
  replace (ws_root ws) with (at_key []) by apply app_nil_r.
  change [at_key []] with (at_key <$> [[]]). change (mkWorkspaceUsage 0 0) with (mkWorkspaceUsage (sat 0) (sat 0)).
  rewrite usage_loop_exact; [|done|done| |].
  - unfold ahead, total_bytes, total_entries. simpl. by rewrite !Z.add_0_r.
  - constructor; [|done]. split; [by eapply confined_root_clear|done].
  - unfold ahead. rewrite tot_cons. change (tot _ []) with 0%Z. cbn [length].
    assert (below node_dir (w_fs w) [] < Z.of_nat (size (w_fs w)))%Z; [|lia]. apply below_dirs_size. by rewrite H0.
Qed.


(** ** The quota of a write *)

Lemma wrote_bytes k content w r w' :
  wrote (ws:=ws) k content w r w' → is_ok r = true → confined w → user k →
  total_bytes (w_fs w') = (total_bytes (w_fs w) - weight_at node_bytes (w_fs w) k + Str.len content)%Z.
Proof.
  intros Hw Hok Hc Hu. destruct r as [u|]; [|done]. pose proof Hw as Hw'. simpl in Hw.
  destruct Hw as (w1 & t & Hg & Hc1 & Htm & Ht & Hap & Hch & Hd & Hfs & Ht0 & Hq).
  pose proof (confined_wf _ Hc) as Hwf. pose proof (confined_wf _ Hc1) as Hwf1. pose proof Hwf as (H0 & _). pose proof Hwf1 as (H01 & _).
  assert (∀ fs x r, wf fs → fs !! x ≠ Some NDir → r ≠ [] → fs !! (x ++ r) = None) as Hleaf.
  { intros fs x r Hx Hn Hr. destruct (fs !! (x ++ r)) eqn:E; [|done]. destruct Hn. by eapply wf_above. }
  destruct (wrote_view _ _ _ _ _ Hw' Hu) as [Hk Hother].
  assert (weight_at node_bytes (w_fs w') k = Str.len content) as Hkw by (unfold weight_at; by rewrite Hk).
  rewrite (total_bytes_change (w_fs w) (w_fs w') k).
  - by rewrite Hkw.
  - done.
  - destruct (Hother []) as [E|(E & _)]; [by intros [r Hr]| |congruence|congruence]. intros <-. by destruct Hap as [_ []]; exists t.
  - intros q Hne. unfold weight_at. rewrite Hfs, lookup_rename by done.
    destruct (decide (under k q)) as [[r ->]|Hkq].
    + destruct r as [|c r]; [by rewrite app_nil_r in Hne|]. rewrite drop_app_length, Hleaf by (done || by rewrite Ht).
      destruct (Hq (k ++ c :: r)) as [E|[E E']]; [|by rewrite <- E, Hleaf|by rewrite E].
      intros <-. destruct Hap as [_ []]. apply under_app.
    + destruct (decide (under t q)) as [[r ->]|Htq].
      * destruct r as [|c r]; [by rewrite app_nil_r, Ht0|]. rewrite Hleaf; [done|done|by rewrite Ht0|done].
      * destruct (Hq q) as [E|[E E']]; [by intros ->; apply Htq|by rewrite E|by rewrite E, E'].
Qed.

(** In a healthy world the check is exactly the limit on the projected bytes. *)
Lemma check_write_quota_Ok w k n :
  healthy w → confined w → clear (w_fs w) k → size (w_fs w) < fuel → (0 <= n)%Z →
  (total_bytes (w_fs w) <= u64_max)%Z → (max_total_bytes (ws_limits ws) < u64_max)%Z →
  is_ok (run host (check_write_quota fuel ws (at_key k) n) w).1 = true →
  (total_bytes (w_fs w) - weight_at node_bytes (w_fs w) k + n <= max_total_bytes (ws_limits ws))%Z.
Proof.
  intros Hh Hc Hk Hf Hn Ht Hm. unfold check_write_quota. rewrite run_bind, (run_trigger host (FollowMetadata _)).
  assert (∃ m, host (FollowMetadata (at_key k)) w = (m, w) ∧
    (match m with Ok md => if is_file md then md_len md else 0 | Err _ => 0 end)%Z = weight_at node_bytes (w_fs w) k) as (m & -> & ->).
  { rewrite host_healthy by done. cbn [host_ok]. destruct (w_fs w !! k) as [nd|] eqn:E.
    - rewrite at_path_exact by (done || by rewrite E). rewrite E. simpl. rewrite set_fs_id. unfold weight_at. rewrite E.
      eexists. split; [done|]. by destruct nd.
    - pose proof (settled_at w k Hc Hk) as Hs. pose proof (settled_not_link _ _ _ Hs) as Hl. apply settled_inside in Hs.
      unfold at_path. rewrite (inside_key _ _ _ Hs). destruct Hs as [_ Hs]. unfold weight_at. rewrite E.
      destruct (walk (w_fs w) [] k) as [nd| | |] eqn:Ew; try done; [|by eexists..].
      rewrite bool_decide_false by congruence. apply walk_At in Ew. simpl in Ew. subst nd. rewrite E. simpl.
      rewrite set_fs_id. by eexists. }
  rewrite run_try, usage_exact by done. cbn [wu_bytes wu_entries].
  case_bool_decide as Hp; [done|]. intros _. unfold u64_saturating_add, u64_saturating_sub, sat in Hp. lia.
Qed.

Lemma write_quota w path content k :
  healthy w → confined w → names ws path k → size (w_fs w) < fuel →
  (total_bytes (w_fs w) <= u64_max)%Z → (max_total_bytes (ws_limits ws) < u64_max)%Z →
  let o := run host (write_file fuel ws path content) w in
  is_ok o.1 = true → (total_bytes (w_fs o.2) <= max_total_bytes (ws_limits ws))%Z.
Proof.
  intros Hh Hc Hn Hf Ht Hm o Hok. pose proof (write_file_wrote (fuel:=fuel) w path content k Hc Hn) as Hw. fold o in Hw.
  rewrite (wrote_bytes k content w o.1 o.2 Hw Hok Hc) by by eapply names_user.
  revert Hok. subst o. unfold write_file. case_bool_decide; [done|]. cbv zeta. destruct Hn as (Hp & _). rewrite Hp, run_try.
  destruct (guard_spec w k Hc) as [Hs Hcl]. pose proof (run_healthy (guard_path ws (at_key k)) w Hh) as Hh'.
  destruct (run host (guard_path ws (at_key k)) w) as [[[]|e] w']; [|done]. simpl in Hs, Hcl, Hh'.
  assert (w_fs w' = w_fs w) as Hf' by by destruct Hs as (_ & ? & _). specialize (Hcl eq_refl). rewrite <- Hf' in *.
  pose proof (check_write_quota_Ok w' k (Str.len content)) as Hq. rewrite run_try.
  destruct (run host (check_write_quota _ _ _ _) w') as [[[]|e] w'']; [|done]. intros _.
  apply Hq; [done|by eapply same_confined|done|done|unfold Str.len; lia|done|done|done].
Qed.

(** ** Looking at what is there *)

Lemma reject_exact w k n :
  healthy w → confined w → clear (w_fs w) k → w_fs w !! k = Some n →
  run host (reject_existing_symlink (at_key k)) w = (Ok (), w).
Proof.
  intros Hh Hc Hk Hn. unfold reject_existing_symlink. rewrite run_bind, (lstat_exact w k n) by (done || by apply walk_not_escapes).
  assert (n ≠ NSymlink) by (intros ->; by apply (Hk k)). by destruct n.
Qed.

Lemma reject_each_exact w k r :
  healthy w → confined w → clear (w_fs w) (k ++ r) → is_Some (w_fs w !! (k ++ r)) →
  run host (reject_each (at_key k) (Normal <$> r)) w = (Ok (), w).
Proof.
  revert k. induction r as [|c r IH]; intros k Hh Hc Hk Hs; [done|]. rewrite fmap_cons. cbn [reject_each].
  replace (k ++ c :: r) with ((k ++ [c]) ++ r) in * by by rewrite <- app_assoc.
  assert (clear (w_fs w) (k ++ [c])) as Hkc by (eapply clear_prefix; [exact Hk|by eexists]).
  assert (∃ n, w_fs w !! (k ++ [c]) = Some n) as [n Hn].
  { destruct r as [|c' r]; [by rewrite app_nil_r in Hs|]. exists NDir. eapply wf_above; [by eapply confined_wf|done|done]. }
  rewrite push_at, run_try, (reject_exact w (k ++ [c]) n) by done. by apply IH.
Qed.

Lemma guard_exact w k :
  healthy w → confined w → clear (w_fs w) k → is_Some (w_fs w !! k) → run host (guard_path ws (at_key k)) w = (Ok (), w).
Proof.
  intros Hh Hc Hk [n Hn]. unfold guard_path, reject_existing_symlink_ancestors.
  rewrite !normalize_plain by (done || apply at_key_plain). rewrite starts_at. cbn [negb].
  unfold WorkspaceSafe.at_key at 1. rewrite strip_prefix_app. rewrite !run_try.
  pose proof (confined_wf _ Hc) as (H0 & _).
  replace (ws_root ws) with (at_key []) by apply app_nil_r.
  rewrite (reject_exact w [] NDir) by (done || by eapply confined_root_clear).
  rewrite (reject_each_exact w [] k) by (done || by rewrite Hn).
  unfold reject_existing_symlink_path. rewrite run_bind, (lstat_exact w k n) by (done || by apply walk_not_escapes).
  assert (n ≠ NSymlink) by (intros ->; by apply (Hk k)). by destruct n.
Qed.

Lemma read_exact w path k content :
  healthy w → confined w → scope ws path k → clear (w_fs w) k → w_fs w !! k = Some (NFile content) →
  from_utf8_ok content = true → (Str.len content <= max_result_bytes (ws_limits ws))%Z →
  run host (read_file ws path) w = (Ok (mkReadFileResult path content (Str.len content)), w).
Proof.
  intros Hh Hc Hp Hk Hn Hu Hl. unfold read_file. cbv zeta. unfold scope in Hp. rewrite Hp, run_try, guard_exact by (done || by rewrite Hn).
  assert (∀ X (f : Key → option Node → result X IoError * FS), at_path w true (at_key k) f
    = (let '(r, fs) := f k (Some (NFile content)) in (r, set_fs fs w))) as Hat
    by (intros X f; rewrite at_path_exact by (done || by rewrite Hn); by rewrite Hn).
  rewrite run_try, run_try_io, (run_trigger host (OpenFile _)), host_healthy by done. cbn [host_ok]. rewrite Hat.
  cbn [map_err fst snd]. rewrite set_fs_id, run_try, run_try_io, (run_trigger host (ReadTake _ _)), host_healthy by done.
  cbn [host_ok]. rewrite Hat. cbn [map_err fst snd]. rewrite set_fs_id.
  assert (take_bytes (max_result_bytes (ws_limits ws) + 1) content = content) as ->
    by (unfold take_bytes; by rewrite bool_decide_true by lia).
  rewrite Hu. cbn [negb]. by rewrite bool_decide_false by lia.
Qed.

Lemma file_clear fs k c : wf fs → fs !! k = Some (NFile c) → clear fs k.
Proof.
  intros Hwf Hk q [r ->]. destruct r as [|x r]; [rewrite app_nil_r in Hk; congruence|].
  rewrite (wf_above fs q (x :: r)); [done|done|by rewrite Hk|done].
Qed.

End Exact.

(** ** Theorems *)

(** (C13) The usage scan terminates and is exact: without failing calls, in a
    tree of fewer entries than the fuel, it visits every directory once,
    changes nothing, and returns the bytes of all files and the number of
    entries other than links, saturated at 64 bits. *)
Theorem usage_scan_exact `{CodePlatform} fuel ws w :
  confined ws w → w_faults w = [] → size (w_fs w) < fuel →
  run host (workspace_usage fuel ws) w
    = (Ok (mkWorkspaceUsage (Z.min u64_max (total_bytes (w_fs w))) (Z.min u64_max (total_entries (w_fs w)))), w).
Proof. intros Hc Hh Hf. by apply usage_exact. Qed.

(** A successful write respects the byte quota: without failing calls, the
    files of the workspace together, metadata included, are within the
    configured maximum after it, whatever they were before. *)
Theorem write_within_quota `{CodePlatform} fuel ws w raw path content w' :
  plain (ws_root ws) = true → confined ws w → w_faults w = [] → size (w_fs w) < fuel →
  (total_bytes (w_fs w) <= u64_max)%Z → (max_total_bytes (ws_limits ws) < u64_max)%Z → parse raw = Ok path →
  run host (write_file fuel ws path content) w = (Ok (), w') →
  (total_bytes (w_fs w') <= max_total_bytes (ws_limits ws))%Z.
Proof.
  intros Hr Hc Hh Hf Ht Hm Hp Hw. destruct (parse_names (ws:=ws) _ _ Hp) as [k Hk].
  pose proof (write_quota (PlainRoot0 := Hr) w path content k Hh Hc Hk Hf Ht Hm) as Hq. rewrite Hw in Hq. by apply Hq.
Qed.

(** ** Witnesses *)

#[local] Existing Instance sample_code_platform.

Definition linked_world : World := sample_world [(["link"], NSymlink); (["d"], NDir)].

(** One directory counts; the link does not. *)
Lemma usage_scan_exact_witness :
  run host (workspace_usage 4 (sample_ws 100)) linked_world = (Ok (mkWorkspaceUsage 0 1), linked_world).
Proof.
  exact (usage_scan_exact 4 (sample_ws 100) linked_world sample_confined eq_refl (Nat.lt_succ_diag_r 3)).
Defined.

Lemma write_within_quota_witness :
  let o := run host (write_file 30 (sample_ws 4) "d/a" "1234") linked_world in
  o.1 = Ok () ∧ (total_bytes (w_fs o.2) <= 4)%Z.
Proof.
  intros o. split; [vm_compute; reflexivity|].
  apply (write_within_quota 30 (sample_ws 4) linked_world "d/a" "d/a" "1234" o.2);
    [reflexivity|exact sample_confined|reflexivity|apply Nat.ltb_lt; vm_compute; reflexivity| | | |];
    vm_compute; first [reflexivity|congruence].
Defined.
