(* ===== verification/WorkspaceEdits.v ===== *)
(** * WorkspaceEdits: writes, reads and batches of edits

    The atomicity of one write, what a read of it returns, and the
    all-or-nothing behaviour of an edit plan, under any failing system calls. *)

From Stdlib Require Import Ascii.
From stdpp Require Import base list gmap strings.
From S2P Require Import Prelude RustStr Prog Paths Fs FsProps Workspace WorkspaceBatch WorkspaceSafe WorkspaceWrite WorkspaceUsage.

(** The key of a virtual path. *)
Definition key_for (ws : StateWorkspace) (path : string) : Key := default [] (key_of (ws_root ws) (resolve ws path)).

(** A tree after a list of planned writes. *)
Definition put_all (ws : StateWorkspace) (planned : list (string * string * string)) (fs : FS) : FS :=
  foldl (fun fs pon => <[key_for ws pon.1.1 := NFile pon.2]> fs) fs planned.

Section Edits.
Context `{CodePlatform} {fuel : nat} {ws : StateWorkspace} `{!PlainRoot ws}.
Notation confined := (confined ws).
Notation names := (names ws).

Lemma names_key path k : names path k → key_for ws path = k.
Proof. intros (Hr & _). unfold key_for. rewrite Hr. unfold at_key. by rewrite key_of_app. Qed.

(** ** Rolling back *)

Definition original_of (fs0 : FS) (pc : string * string) : Prop :=
  ∃ k, names pc.1 k ∧ fs0 !! k = Some (NFile pc.2).

(** Outside the listed paths the tree is the original one, and they are files. *)
Definition dirty (fs0 fs : FS) (l : list string) : Prop :=
  (∀ q, user q → q ∉ key_for ws <$> l → fs !! q = fs0 !! q) ∧
  ∀ p, p ∈ l → ∃ c, fs !! key_for ws p = Some (NFile c).

Lemma dirty_same fs0 fs fs' l : user_same fs fs' → Forall (fun p => ∃ k, names p k) l → dirty fs0 fs l → dirty fs0 fs' l.
Proof.
  intros Hs Hl [Ho Hf]. split; [intros q Hu Hq; by rewrite Hs, Ho|]. intros p Hp.
  rewrite Forall_forall in Hl. destruct (Hl p Hp) as [k Hk]. rewrite Hs; [by apply Hf|].
  rewrite (names_key p k Hk). by eapply names_user.
Qed.

Lemma original_named fs0 l : Forall (original_of fs0) l → Forall (fun p => ∃ k, names p k) l.*1.
Proof. intros Hl. apply Forall_fmap. eapply Forall_impl; [exact Hl|]. intros pc (k & Hk & _). by exists k. Qed.

Lemma restore_spec fs0 e l : ∀ w,
  confined w → Forall (original_of fs0) l → dirty fs0 (w_fs w) l.*1 →
  err_kind (run host (restore_each fuel ws l e) w).1 ≠ "rollback_failed" →
  user_same fs0 (w_fs (run host (restore_each fuel ws l e) w).2).
Proof.
  induction l as [|[p c] l IH]; intros w Hc Hl Hd; cbn [restore_each].
  { intros _ q Hq. destruct Hd as [Hd _]. apply Hd; [done|]. apply not_elem_of_nil. }
  pose proof (original_named _ _ Hl) as Hn. apply Forall_cons in Hl as [(k & Hk & Hck) Hl]. simpl in Hk, Hck.
  destruct Hd as [Ho Hf]. destruct (Hf p) as [old Hold]; [by left|]. rewrite (names_key p k Hk) in Hold.
  destruct (overwrite (fuel:=fuel) w p c k old Hc Hk Hold) as [Hc' Hs]. rewrite run_bind.
  destruct (run host (write_file fuel ws p c) w) as [[[]|e'] w']; [|done]. simpl in Hc', Hs.
  apply IH; [done|done|]. eapply dirty_same; [exact Hs|by apply Forall_cons in Hn as [_ ?]|]. split.
  - intros q Hu Hq. rewrite lookup_insert. case_decide as E; [by subst q; rewrite Hck|].
    apply Ho; [done|]. simpl. rewrite (names_key p k Hk), not_elem_of_cons. auto.
  - intros p' Hp'. rewrite lookup_insert. case_decide; [by eexists|]. apply Hf. by right.
Qed.

Lemma elem_fmap_rev {A B} (f : A → B) l x : x ∈ f <$> rev l ↔ x ∈ f <$> l.
Proof. rewrite !list_elem_of_In. change (f <$> rev l) with (map f (rev l)). rewrite map_rev. symmetry. apply in_rev. Qed.
Lemma elem_fmap_rev_twice {A B C} (g : B → C) (f : A → B) l x : x ∈ g <$> (f <$> rev l) ↔ x ∈ g <$> (f <$> l).
Proof. rewrite <- !list_fmap_compose. apply elem_fmap_rev. Qed.

Lemma restore_originals_spec fs0 e l w :
  confined w → Forall (original_of fs0) l → dirty fs0 (w_fs w) l.*1 →
  err_kind (run host (restore_originals_after_failure fuel ws l e) w).1 ≠ "rollback_failed" →
  user_same fs0 (w_fs (run host (restore_originals_after_failure fuel ws l e) w).2).
Proof.
  intros Hc Hl [Ho Hf]. apply restore_spec; [done|by apply Forall_rev|]. split.
  - intros q Hu Hq. apply Ho; [done|]. intros Hin. apply Hq. by rewrite elem_fmap_rev_twice.
  - intros p Hp. apply Hf. by rewrite elem_fmap_rev in Hp.
Qed.

(** ** Edit plans *)

(** The write an edit stands for, computed from the tree [fs]. *)
Definition planned_for (fs : FS) (e : FileEdit) (pon : string * string * string) : Prop :=
  parse (fe_path e) = Ok pon.1.1 ∧ fs !! key_for ws pon.1.1 = Some (NFile pon.1.2) ∧
  Str.contains (fe_search e) pon.1.2 = true ∧ pon.2 = str_replace (fe_search e) (fe_replace e) pon.1.2.

Lemma plan_writes_spec edits : ∀ w l w',
  confined w → run host (plan_writes ws edits) w = (Ok l, w') → Forall2 (planned_for (w_fs w)) edits l.
Proof.
  induction edits as [|e edits IH]; intros w l w' Hc; cbn [plan_writes]; [by intros [= <- <-]|].
  rewrite run_try. destruct (parse (fe_path e)) as [p|err] eqn:Ep; simpl; [|done].
  destruct (parse_names (ws:=ws) _ _ Ep) as [k Hk]. rewrite run_try.
  destruct (run host (read_file ws p) w) as [[r|err] w1] eqn:Er; [|done].
  destruct (read_file_Ok w p k r w1 Hc (proj1 Hk) Er) as [Hs Hr].
  destruct (Str.contains _ _) eqn:Ec; simpl; [|done]. rewrite run_try.
  destruct (run host (plan_writes ws edits) w1) as [[rest|err] w2] eqn:Ew; [|done]. intros [= <- <-].
  assert (w_fs w1 = w_fs w) as Hf by by destruct Hs as (_ & ? & _).
  constructor; [|rewrite <- Hf; eapply IH; [by eapply same_confined|done]].
  split_and!; [done| |done|done]. simpl. by rewrite (names_key p k Hk).
Qed.

Definition originals_of (planned : list (string * string * string)) : list (string * string) := planned.*1.

Lemma put_all_snoc planned pon fs : put_all ws (planned ++ [pon]) fs = <[key_for ws pon.1.1 := NFile pon.2]> (put_all ws planned fs).
Proof. unfold put_all. by rewrite foldl_app. Qed.

Lemma put_all_dirty fs0 planned : dirty fs0 (put_all ws planned fs0) planned.*1.*1.
Proof.
  induction planned as [|pon planned [Ho Hf]] using rev_ind; [split; [done|by intros p Hp%elem_of_nil]|].
  rewrite put_all_snoc, !fmap_app. split.
  - intros q Hu. rewrite fmap_app, not_elem_of_app. intros [Hq Hn]. rewrite lookup_insert_ne; [by apply Ho|].
    intros E. apply Hn. simpl. rewrite E. by left.
  - intros p Hp. rewrite lookup_insert. case_decide; [by eexists|]. apply Hf.
    rewrite elem_of_app in Hp. destruct Hp as [?|Hp]; [done|]. simpl in Hp. apply list_elem_of_singleton in Hp. by subst.
Qed.

Lemma put_all_file fs0 planned p c : fs0 !! key_for ws p = Some (NFile c) → ∃ c', put_all ws planned fs0 !! key_for ws p = Some (NFile c').
Proof.
  intros Hp. induction planned as [|pon planned [c' IH]] using rev_ind; [by exists c|].
  rewrite put_all_snoc, lookup_insert. case_decide; by eexists.
Qed.

Lemma apply_writes_spec fs0 planned : ∀ done_ w,
  confined w → Forall (original_of fs0) (done_ ++ planned).*1 → user_same (put_all ws done_ fs0) (w_fs w) →
  let o := run host (apply_writes fuel ws planned done_.*1 done_.*1.*1) w in
  match o.1 with
  | Ok changed => changed = (done_ ++ planned).*1.*1 ∧ user_same (put_all ws (done_ ++ planned) fs0) (w_fs o.2)
  | Err e => err_kind e ≠ "rollback_failed" → user_same fs0 (w_fs o.2)
  end.
Proof.
  induction planned as [|[[p o] n] planned IH]; intros done_ w Hc Hl Hs; cbn [apply_writes]; cbv zeta.
  { rewrite app_nil_r. by split. }
  pose proof Hl as Hl0. rewrite fmap_app, fmap_cons in Hl. apply Forall_app in Hl as [Hd [(k & Hk & Hck) Hp]%Forall_cons]. simpl in Hk, Hck.
  pose proof (names_key p k Hk) as Hkey. destruct (put_all_file fs0 done_ p o) as [old Hold]; [by rewrite Hkey|].
  rewrite Hkey in Hold. assert (w_fs w !! k = Some (NFile old)) as Hw by (rewrite Hs; [done|by eapply names_user]).
  destruct (overwrite (fuel:=fuel) w p n k old Hc Hk Hw) as [Hc' Hs']. rewrite run_bind.
  destruct (run host (write_file fuel ws p n) w) as [[[]|e] w']; simpl in Hc', Hs'.
  - replace (done_.*1 ++ [(p, o)]) with (done_ ++ [(p, o, n)]).*1 by by rewrite fmap_app.
    replace (done_.*1.*1 ++ [p]) with (done_ ++ [(p, o, n)]).*1.*1 by by rewrite !fmap_app.
    replace (done_ ++ (p, o, n) :: planned) with ((done_ ++ [(p, o, n)]) ++ planned) in * by by rewrite <- app_assoc.
    apply IH; [done|done|]. rewrite put_all_snoc. simpl. rewrite Hkey. intros q Hu. rewrite Hs' by done.
    rewrite !lookup_insert. case_decide; [done|by apply Hs].
  - rewrite run_bind. pose proof (restore_originals_spec fs0 e done_.*1 w' Hc' Hd) as Hr.
    destruct (run host (restore_originals_after_failure _ _ _ _) w') as [e' w'']. simpl in *. apply Hr.
    eapply dirty_same; [|by apply original_named in Hd|apply put_all_dirty]. intros q Hu. by rewrite Hs', Hs.
Qed.

Lemma planned_original fs edits planned :
  Forall2 (planned_for fs) edits planned → Forall (original_of fs) planned.*1.
Proof.
  induction 1 as [|e [[p o] n] edits planned (Hp & Hf & _) _ IH]; [constructor|]. constructor; [|done].
  destruct (parse_names (ws:=ws) _ _ Hp) as [k Hk]. exists k. split; [done|]. by rewrite <- (names_key p k Hk).
Qed.

Lemma all_or_nothing id w :
  confined w →
  let o := run host (apply_edit_plan fuel ws id) w in
  match o.1 with
  | Ok r => ∃ plan edits planned,
      w_fs w !! plan_key id = Some (NFile plan) ∧ edits_of_json (take_bytes u64_max plan) = Ok edits ∧
      Forall2 (planned_for (w_fs w)) edits planned ∧ ap_changed r = planned.*1.*1 ∧
      user_same (put_all ws planned (w_fs w)) (w_fs o.2)
  | Err e => err_kind e ≠ "rollback_failed" → user_same (w_fs w) (w_fs o.2)
  end.
Proof.
  intros Hc. unfold apply_edit_plan. rewrite run_try.
  destruct (validate_plan_id id) as [[]|e]; [|by simpl]. cbn [lift run]. rewrite plan_path_at.
  pose proof (plan_clear (ws:=ws) id w Hc I) as Hk. rewrite run_try, run_try_io, (run_trigger host (OpenFile _)).
  pose proof (open_same w _ Hc Hk) as Hs1. destruct (host (OpenFile _) w) as [[[]|e] w1]; simpl in Hs1; cbn [map_err fst snd];
    (assert (w_fs w1 = w_fs w) as Hf1 by by destruct Hs1 as (_ & ? & _)); [|simpl; by rewrite Hf1].
  rewrite <- Hf1 in *. assert (confined w1) as Hc1 by by eapply same_confined.
  rewrite run_try, run_try_io, (run_trigger host (ReadTake _ _)).
  pose proof (read_take_Ok (ws:=ws) w1 (plan_key id) u64_max) as Hr.
  assert (same w1 (host (ReadTake (at_key ws (plan_key id)) u64_max) w1).2) as Hs2
    by (eapply follow_reads; [done|by apply settled_at]).
  destruct (host (ReadTake _ _) w1) as [[s|e] w2]; simpl in Hs2; cbn [map_err fst snd];
    (assert (w_fs w2 = w_fs w1) as Hf2 by by destruct Hs2 as (_ & ? & _)); [|simpl; by rewrite Hf2].
  destruct (Hr s w2 Hc1 Hk eq_refl) as (plan & Hplan & ->). rewrite <- Hf2 in *.
  assert (confined w2) as Hc2 by by eapply same_confined. rewrite run_try.
  destruct (edits_of_json _) as [edits|e] eqn:Ee; [|by simpl]. cbn [map_err lift run].
  rewrite run_try. pose proof (plan_writes_spec edits w2) as Hp.
  pose proof (calm_plan_writes (R:=same) edits w2 Hc2 I) as (_ & Hf3 & _).
  pose proof (calm_plan_writes (R:=same) edits w2 Hc2 I) as Hs3.
  destruct (run host (plan_writes ws edits) w2) as [[planned|e] w3]; simpl in Hf3, Hs3; [|simpl; by rewrite Hf3].
  specialize (Hp planned w3 Hc2 eq_refl). rewrite run_try.
  pose proof (apply_writes_spec (w_fs w2) planned [] w3) as Ha. simpl in Ha.
  destruct (run host (apply_writes fuel ws planned [] []) w3) as [[changed|e] w4]; simpl in *.
  - destruct Ha as [-> Hu]; [by eapply same_confined|by eapply planned_original|by rewrite Hf3|].
    exists plan, edits, planned. by split_and!.
  - apply Ha; [by eapply same_confined|by eapply planned_original|by rewrite Hf3].
Qed.

End Edits.

(** ** Theorems *)

(** (C7) A write replaces its file at once or not at all: whichever system
    calls fail, and whatever limits or links stop it, afterwards the file holds
    the whole new content if the call succeeded and is as before if it did
    not; every other file is as before, and the only new entries outside the
    metadata directory are missing directories above the destination. *)
Theorem write_file_atomic `{CodePlatform} fuel ws w raw path content :
  plain (ws_root ws) = true → confined ws w → parse raw = Ok path →
  let o := run host (write_file fuel ws path content) w in
  w_fs o.2 !! key_for ws path = (match o.1 with Ok _ => Some (NFile content) | Err _ => w_fs w !! key_for ws path end) ∧
  ∀ q, user q → q ≠ key_for ws path →
    w_fs o.2 !! q = w_fs w !! q ∨
    (w_fs w !! q = None ∧ w_fs o.2 !! q = Some NDir ∧ q `prefix_of` key_for ws path).
Proof.
  intros Hr Hc Hp. destruct (parse_names (ws:=ws) _ _ Hp) as [k Hk]. rewrite (names_key path k Hk).
  eapply wrote_view; [by apply (write_file_wrote (PlainRoot0 := Hr))|by eapply names_user].
Qed.

(** What was written is read back: after a successful write of text
    within the result limit, without failing calls, a read of the path returns
    exactly that text. *)
Theorem write_read_round_trip `{CodePlatform} fuel ws w raw path content w' :
  plain (ws_root ws) = true → confined ws w → w_faults w = [] → parse raw = Ok path →
  from_utf8_ok content = true → (Str.len content <= max_result_bytes (ws_limits ws))%Z →
  run host (write_file fuel ws path content) w = (Ok (), w') →
  run host (read_file ws path) w' = (Ok (mkReadFileResult path content (Str.len content)), w').
Proof.
  intros Hr Hc Hh Hp Hu Hl Hw. destruct (parse_names (ws:=ws) _ _ Hp) as [k Hk].
  pose proof (good_write_file (PlainRoot0 := Hr) (fuel:=fuel) path content k Hk w Hc I) as Hc'.
  pose proof (write_file_wrote (PlainRoot0 := Hr) (fuel:=fuel) w path content k Hc Hk) as Hv.
  pose proof (run_healthy (write_file fuel ws path content) w Hh) as Hh'. rewrite Hw in Hc', Hv, Hh'.
  destruct (wrote_view (ws:=ws) k content w (Ok ()) w' Hv) as [Hf _]; [by eapply names_user|].
  apply (read_exact (PlainRoot0 := Hr) w' path k content); try done; [apply Hk|]. eapply file_clear; [by eapply confined_wf|done].
Qed.

(** (C8) An edit plan is applied as a whole or not at all: on success exactly
    the planned files have changed, each to its original content with the
    search text replaced; on every error except a reported failure of the
    rollback, whichever system calls fail, every entry outside the metadata
    directory is as it was. *)
Theorem edit_plan_all_or_nothing `{CodePlatform} fuel ws id w :
  plain (ws_root ws) = true → confined ws w →
  let o := run host (apply_edit_plan fuel ws id) w in
  match o.1 with
  | Ok r => ∃ plan edits planned,
      w_fs w !! plan_key id = Some (NFile plan) ∧ edits_of_json (take_bytes u64_max plan) = Ok edits ∧
      Forall2 (planned_for (ws:=ws) (w_fs w)) edits planned ∧ ap_changed r = planned.*1.*1 ∧
      user_same (put_all ws planned (w_fs w)) (w_fs o.2)
  | Err e => err_kind e ≠ "rollback_failed" → user_same (w_fs w) (w_fs o.2)
  end.
Proof. intros Hr Hc. by apply (all_or_nothing (PlainRoot0 := Hr)). Qed.

(** ** Witnesses *)

#[local] Existing Instance sample_code_platform.

(** A file and a plan that edits it. *)
Definition planned_world : World :=
  serve 30 (sample_ws 100) [WriteFileReq "d/a" "one two"; PlanEditsReq [mkFileEdit "d/a" "one" "1"]] linked_world.
Definition sample_plan : string := "00000000000000000000000000000000000000000000000000000000000000aa".

Lemma planned_world_confined : confined (sample_ws 100) planned_world.
Proof. apply serve_confined; [done|by intros s|apply sample_confined]. Qed.

(** The destination's directory cannot be created through the file [d/a]. *)
Lemma write_file_atomic_witness :
  let o := run host (write_file 30 (sample_ws 100) "d/a/b" "new") planned_world in
  is_ok o.1 = false ∧
  w_fs o.2 !! key_for (sample_ws 100) "d/a/b" =
    match o.1 with Ok _ => Some (NFile "new") | Err _ => w_fs planned_world !! key_for (sample_ws 100) "d/a/b" end.
Proof.
  split; [vm_compute; reflexivity|].
  exact (proj1 (write_file_atomic 30 (sample_ws 100) planned_world "d/a/b" "d/a/b" "new" eq_refl planned_world_confined eq_refl)).
Defined.

Lemma write_read_round_trip_witness :
  let w := (run host (write_file 30 (sample_ws 100) "d/b" "new") planned_world).2 in
  run host (read_file (sample_ws 100) "d/b") w = (Ok (mkReadFileResult "d/b" "new" 3), w).
Proof.
  intros w. apply (write_read_round_trip 30 (sample_ws 100) planned_world "d/b" "d/b" "new" w eq_refl planned_world_confined);
    vm_compute; first [reflexivity|congruence].
Defined.

(** The plan applies. *)
Lemma edit_plan_all_or_nothing_witness :
  let o := run host (apply_edit_plan 30 (sample_ws 100) sample_plan) planned_world in
  (match o.1 with Ok r => ap_changed r = ["d/a"] | Err _ => False end) ∧
  match o.1 with
  | Ok r => ∃ plan edits planned,
      w_fs planned_world !! plan_key sample_plan = Some (NFile plan) ∧ edits_of_json (take_bytes u64_max plan) = Ok edits ∧
      Forall2 (planned_for (ws:=sample_ws 100) (w_fs planned_world)) edits planned ∧ ap_changed r = planned.*1.*1 ∧
      user_same (put_all (sample_ws 100) planned (w_fs planned_world)) (w_fs o.2)
  | Err e => err_kind e ≠ "rollback_failed" → user_same (w_fs planned_world) (w_fs o.2)
  end.
Proof.
  pose proof (edit_plan_all_or_nothing 30 (sample_ws 100) sample_plan planned_world eq_refl planned_world_confined) as Ha.
  cbv zeta in *. split; [clear Ha; vm_compute; reflexivity|assumption].
Defined.

(** ** Behaviours the rollback and the quota do not cover *)

Definition with_faults (faults : list (option nat)) (w : World) : World :=
  mkWorld (w_root w) (w_fs w) (w_escaped w) faults (w_ulids w) (w_dir_len w).
Definition kind_of {A} (r : result A WErr) : string := match r with Ok _ => "ok" | Err e => err_kind e end.

(** Every edit of a plan is computed from the file before the plan: of two
    edits of one file, the second write undoes the first. *)
Lemma edit_plan_loses_edit :
  w_fs (serve 30 (sample_ws 100)
    [WriteFileReq "d/a" "one two"; PlanEditsReq [mkFileEdit "d/a" "one" "1"; mkFileEdit "d/a" "two" "2"];
     ApplyEditPlanReq sample_plan] linked_world) !! ["d"; "a"] = Some (NFile "one 2").
Proof. vm_compute. reflexivity. Qed.

(** [replace_in_files] reads each file again before it writes it; when that
    read fails, the files already written stay changed. *)
Lemma replace_read_failure_not_rolled_back :
  let w := serve 30 (sample_ws 100) [WriteFileReq "a" "x1"; WriteFileReq "b" "x2"] linked_world in
  let o := run host (replace_in_files 30 (sample_ws 100) "**" "x" "y" false) (with_faults (repeat None 55 ++ [Some 0]) w) in
  kind_of o.1 = "internal_error" ∧ w_fs o.2 !! ["a"] = Some (NFile "y1") ∧ w_fs o.2 !! ["b"] = Some (NFile "x2").
Proof. vm_compute. done. Qed.

(** An archive refused half way is left behind, and its bytes are not checked
    against the quota. *)
Lemma failed_archive_kept_over_quota :
  let w := sample_world [(["s"], NDir); (["s"; "a"], NFile "01234567890123456789"); (["s"; "c:z"], NFile "x")] in
  let o := run host (archive_create 30 (sample_ws 30) "s" "out.tar") w in
  kind_of o.1 = "path_traversal" ∧ is_Some (w_fs o.2 !! ["out.tar"]) ∧ (30 < total_bytes (w_fs o.2))%Z.
Proof. vm_compute. repeat split; by eexists. Qed.

(** A write that fails at its last step leaves its temporary file. *)
Lemma failed_write_keeps_temp :
  let o := run host (write_file 30 (sample_ws 100) "d" "x") linked_world in
  kind_of o.1 = "internal_error" ∧ w_fs o.2 !! [meta; "tmp"; "01A.tmp"] = Some (NFile "x").
Proof. vm_compute. done. Qed.
