(* ===== verification/GitCommand.v ===== *)
(** * GitCommand: the git methods of Code Mode

    [labby-codemode/src/git/command.rs] and [git/provider.rs]: how a request of
    a sandboxed script becomes a git process.  Requests are decoded; the
    process is an effect that is answered by anything, next to the file-system
    effects of Fs.  The file proves which words of the argument vector git can
    take for options, and what was checked before a process was started. *)

From Stdlib Require Import Ascii.
From stdpp Require Import base list gmap strings pretty.
From S2P Require Import Prelude RustStr Prog AuthTypes SamplePlatform Paths Fs Workspace WorkspaceBatch.

(** ** Data *)

Record GitCommandSpec := mkGitCommandSpec {
  gs_args : list string;
  gs_cwd : option string;
  gs_remote_preflight : option string;
  gs_push_remote_preflight : option string;
  gs_branch_preflight : option string;
  gs_clone_destination : option string;
}.

(** The methods with their decoded parameters. *)
Inductive GitRequest :=
| InitReq (cwd : option string)
| StatusReq (cwd : option string)
| AddReq (path : string) (cwd : option string)
| CommitReq (message author_name author_email : string) (cwd : option string)
| LogReq (limit : option Z) (cwd : option string)
| DiffReq (path : option string) (cwd : option string)
| BranchReq (name : option string) (list_only delete : bool) (cwd : option string)
| CheckoutReq (git_ref : string) (create : bool) (cwd : option string)
| RemoteListReq (cwd : option string)
| RemoteAddReq (name url : string) (cwd : option string)
| RemoteRemoveReq (name : string) (cwd : option string)
| CloneReq (url directory : string) (cwd : option string)
| UnknownGitReq (method : string).

(** The crates: the URL parser, and [Regex::replace_all] with a pattern. *)
Class GitPlatform := {
  git_url_parse : string → result Url string;
  regex_replace_all : string → string → string → string;
}.

(** ** Validation (command.rs) *)

Definition ALLOWED_REMOTE_HOSTS : list string := ["github.com"].

Definition invalid_param (param message : string) : ToolError := InvalidParam message param.

Definition git_base_args (tail : list string) : list string :=
  ["-c"; "core.hooksPath=/dev/null"; "-c"; "protocol.file.allow=never"; "-c"; "protocol.ext.allow=never"] ++ tail.

Definition is_ascii_alphanumeric (a : ascii) : bool :=
  let n := Ascii.nat_of_ascii a in is_ascii_alphabetic a || ((48 <=? n) && (n <=? 57)).

Definition validate_remote_name (value param : string) : result unit ToolError :=
  if negb (Str.is_empty value) && bool_decide (Str.len value <= 64)%Z
     && Str.all_bytes (fun c => is_ascii_alphanumeric c || Ascii.eqb c "-" || Ascii.eqb c "_" || Ascii.eqb c ".") value
  then Ok ()
  else Err (invalid_param param "git remote name must be 1-64 ASCII alnum, dash, underscore, or dot chars").

Definition ref_byte_denied (c : ascii) : bool :=
  existsb (Ascii.eqb c) ["~"; "^"; ":"; "?"; "*"; "["; "\"]%char.

Definition validate_git_ref (value param : string) : result unit ToolError :=
  if Str.is_empty (Str.trim value) || negb (String.eqb value (Str.trim value)) || Str.starts_with "-" value
     || Str.ends_with "/" value || Str.ends_with ".lock" value || Str.contains ".." value
     || negb (Str.no_ws value) || negb (Str.all_bytes (fun c => negb (ref_byte_denied c)) value)
  then Err (invalid_param param "git ref is not allowed")
  else Ok ().

Definition validate_clone_directory (value : string) : result unit ToolError :=
  if existsb (fun part => Str.eq_ignore_ascii_case part ".git" || Str.eq_ignore_ascii_case part ".labby-state")
       (Str.split "/" value)
  then Err (invalid_param "directory" "git clone directory must not include reserved metadata paths")
  else Ok ().

Definition parse_optional_cwd (cwd : option string) : result (option string) ToolError :=
  transpose (parse <$> cwd).

Definition plain_spec (args : list string) (cwd : option string) : GitCommandSpec :=
  mkGitCommandSpec args cwd None None None None.

Definition git_status : GitCommandSpec :=
  plain_spec (git_base_args ["status"; "--short"; "--"; "."; ":(exclude).labby-state"]) None.

Section Git.
Context {GP : GitPlatform}.

Definition validate_remote_url (value param : string) : result unit ToolError :=
  match git_url_parse value with
  | Err _ => Err (invalid_param param "git remote URL must be a valid https URL on an allowed host")
  | Ok parsed =>
      if negb (String.eqb (url_scheme parsed) "https")
      then Err (invalid_param param "git remote URL must use https")
      else if negb (Str.is_empty (url_username parsed)) || bool_decide (is_Some (url_password parsed))
      then Err (invalid_param param "git remote URL must not include embedded credentials")
      else if bool_decide (is_Some (url_query parsed)) || bool_decide (is_Some (url_fragment parsed))
      then Err (invalid_param param "git remote URL must not include query or fragment")
      else
        match url_host_str parsed with
        | None => Err (invalid_param param "git remote URL must include a host")
        | Some host =>
            if negb (existsb (String.eqb host) ALLOWED_REMOTE_HOSTS)
            then Err (invalid_param param "git remote host is not allowed for Code Mode")
            else if String.eqb (url_path parsed) "/"
                    || Str.is_empty (Str.trim_end_matches "/" (Str.trim_start_matches "/" (url_path parsed)))
            then Err (invalid_param param "git remote URL must include a path")
            else Ok ()
        end
  end.

Definition for_method (request : GitRequest) : result GitCommandSpec ToolError :=
  match request with
  | InitReq cwd =>
      let? cwd := parse_optional_cwd cwd in Ok (plain_spec (git_base_args ["init"]) cwd)
  | StatusReq cwd =>
      let? cwd := parse_optional_cwd cwd in Ok (plain_spec (gs_args git_status) cwd)
  | AddReq path cwd =>
      let? path := parse path in
      let? cwd := parse_optional_cwd cwd in
      Ok (plain_spec (git_base_args ["add"; "--"] ++ [path]) cwd)
  | CommitReq message author_name author_email cwd =>
      if Str.is_empty (Str.trim message)
      then Err (InvalidParam "git commit message must not be empty" "message")
      else
        let author := author_name +:+ " <" +:+ author_email +:+ ">" in
        let? cwd := parse_optional_cwd cwd in
        Ok (plain_spec
              (git_base_args ["-c"; "user.name=Lab"; "-c"; "user.email=lab@example.invalid"; "commit"; "--no-gpg-sign";
                              "--author"] ++ [author; "-m"; message]) cwd)
  | LogReq limit cwd =>
      let limit := Z.max 1 (Z.min 50 (default 20%Z limit)) in
      let? cwd := parse_optional_cwd cwd in
      Ok (plain_spec (git_base_args ["log"; "--oneline"; "-n"] ++ [pretty limit]) cwd)
  | DiffReq path cwd =>
      let? tail := match path with
                   | Some path => let? path := parse path in Ok [path]
                   | None => Ok ["."; ":(exclude).labby-state"]
                   end in
      let? cwd := parse_optional_cwd cwd in
      Ok (plain_spec (git_base_args ["diff"; "--"] ++ tail) cwd)
  | BranchReq name list_only delete cwd =>
      match name with
      | None =>
          if delete then Err (invalid_param "name" "git branch delete requires a branch name")
          else let? cwd := parse_optional_cwd cwd in Ok (plain_spec (git_base_args ["branch"; "--list"]) cwd)
      | Some name =>
          if list_only
          then let? cwd := parse_optional_cwd cwd in Ok (plain_spec (git_base_args ["branch"; "--list"]) cwd)
          else
            let? _ := validate_git_ref name "name" in
            let? cwd := parse_optional_cwd cwd in
            Ok (mkGitCommandSpec ((if delete then git_base_args ["branch"; "-D"] else git_base_args ["branch"]) ++ [name])
                  cwd None None (Some name) None)
      end
  | CheckoutReq git_ref create cwd =>
      let? _ := validate_git_ref git_ref "ref" in
      let? cwd := parse_optional_cwd cwd in
      Ok (mkGitCommandSpec ((if create then git_base_args ["checkout"; "-b"] else git_base_args ["checkout"]) ++ [git_ref])
            cwd None None (Some git_ref) None)
  | RemoteListReq cwd =>
      let? cwd := parse_optional_cwd cwd in Ok (plain_spec (git_base_args ["remote"; "-v"]) cwd)
  | RemoteAddReq name url cwd =>
      let? _ := validate_remote_name name "name" in
      let? _ := validate_remote_url url "url" in
      let? cwd := parse_optional_cwd cwd in
      Ok (plain_spec (git_base_args ["remote"; "add"] ++ [name; url]) cwd)
  | RemoteRemoveReq name cwd =>
      let? _ := validate_remote_name name "name" in
      let? cwd := parse_optional_cwd cwd in
      Ok (plain_spec (git_base_args ["remote"; "remove"] ++ [name]) cwd)
  | CloneReq url directory cwd =>
      let? _ := validate_remote_url url "url" in
      let? directory := parse directory in
      let? _ := validate_clone_directory directory in
      let? cwd := parse_optional_cwd cwd in
      Ok (mkGitCommandSpec (git_base_args ["clone"; "--depth"; "1"; "--"] ++ [url; directory])
            cwd None None None (Some directory))
  | UnknownGitReq other => Err (Sdk "unknown_tool" ("unknown git method `" +:+ other +:+ "`"))
  end.

(** ** Running git (provider.rs) *)

Definition MAX_GIT_STDOUT_BYTES : nat := 64 * 1024.
Definition MAX_GIT_STDERR_BYTES : nat := 16 * 1024.

(** The file system, and one git process: whether it succeeded and what it
    wrote, or why it could not be run to its end (spawn error, timeout). *)
Inductive GitEff := OnFs (e : FsEff) | SpawnGit (workdir : list Component) (args : list string).
Definition gresp (e : GitEff) : Type :=
  match e with OnFs e => fresp e | SpawnGit _ _ => result (bool * string * string) ToolError end.
Notation G := (prog gresp).

Fixpoint on_fs {A} (p : F A) : G A :=
  match p with Ret a => Ret a | Vis e k => Vis (OnFs e : GitEff) (fun r => on_fs (k r)) end.

(** [String::from_utf8_lossy]: a maximal invalid prefix becomes U+FFFD.
    [pending] holds the bytes of an incomplete character. *)
Definition replacement : string := String "239" (String "191" (String "189" EmptyString)).
Definition lead (n : nat) : option (nat * nat * nat) :=
  if n <=? 127 then Some (0, 128, 191)
  else if (194 <=? n) && (n <=? 223) then Some (1, 128, 191)
  else if n =? 224 then Some (2, 160, 191)
  else if n =? 237 then Some (2, 128, 159)
  else if (225 <=? n) && (n <=? 239) then Some (2, 128, 191)
  else if n =? 240 then Some (3, 144, 191)
  else if (241 <=? n) && (n <=? 243) then Some (3, 128, 191)
  else if n =? 244 then Some (3, 128, 143)
  else None.
Fixpoint lossy_go (pending : string) (need lo hi : nat) (s : string) : string :=
  match s with
  | EmptyString => match need with 0 => EmptyString | _ => replacement end
  | String a r =>
      let n := Ascii.nat_of_ascii a in
      let fresh :=
        match lead n with
        | Some (0, _, _) => String a (lossy_go EmptyString 0 128 191 r)
        | Some (k, l, h) => lossy_go (String a EmptyString) k l h r
        | None => replacement +:+ lossy_go EmptyString 0 128 191 r
        end in
      match need with
      | 0 => fresh
      | S k =>
          if (lo <=? n) && (n <=? hi) then
            match k with
            | 0 => pending +:+ String a (lossy_go EmptyString 0 128 191 r)
            | _ => lossy_go (pending +:+ String a EmptyString) k 128 191 r
            end
          else replacement +:+ fresh
      end
  end.
Definition from_utf8_lossy (s : string) : string := lossy_go EmptyString 0 128 191 s.

Definition redact_git_output (value : string) : string :=
  regex_replace_all "(ghp_|github_pat_|glpat-)[A-Za-z0-9_]+" "[REDACTED]"
    (regex_replace_all "https://[^/\s@]+@" "https://[REDACTED]@" value).

Definition git_output_too_large (max_bytes : nat) (stream : string) : ToolError :=
  Sdk "response_too_large" ("git " +:+ stream +:+ " exceeded maximum output of " +:+ pretty max_bytes +:+ " bytes").

Definition bounded_git_output (bytes : string) (max_bytes : nat) (stream : string) : result string ToolError :=
  if max_bytes <? String.length bytes then Err (git_output_too_large max_bytes stream)
  else Ok (redact_git_output (from_utf8_lossy bytes)).

(** At most one byte more than the maximum is read. *)
Definition read_capped_pipe (bytes : string) (max_bytes : nat) : string * bool :=
  let bytes := Str.take (max_bytes + 1) bytes in
  (Str.take max_bytes bytes, max_bytes <? String.length bytes).

Definition finish_git (output : bool * string * string) : result string ToolError :=
  let '(success, out, err) := output in
  let '(stdout, stdout_truncated) := read_capped_pipe out MAX_GIT_STDOUT_BYTES in
  let '(stderr, stderr_truncated) := read_capped_pipe err MAX_GIT_STDERR_BYTES in
  if stdout_truncated : bool then Err (git_output_too_large MAX_GIT_STDOUT_BYTES "stdout")
  else if stderr_truncated : bool then Err (git_output_too_large MAX_GIT_STDERR_BYTES "stderr")
  else
    let? stdout := bounded_git_output stdout MAX_GIT_STDOUT_BYTES "stdout" in
    let? stderr := bounded_git_output stderr MAX_GIT_STDERR_BYTES "stderr" in
    if success then Ok stdout else Err (Sdk "git_failed" ("git failed: " +:+ stderr)).

Definition run_git (workdir : list Component) (args : list string) : G (result string WErr) :=
  let! output := trigger (SpawnGit workdir args) in
  lift (lift_tool (let? output := output in finish_git output)).

Definition glstat (p : list Component) : G (result Metadata IoError) := on_fs (lstat p).

Definition git_workdir (ws : StateWorkspace) (cwd : option string) : G (result (list Component) WErr) :=
  match cwd with
  | None => ret_ok (ws_root ws)
  | Some cwd =>
      let workdir := join_path (ws_root ws) (components cwd) in
      let!? _ := on_fs (reject_existing_symlink_ancestors (ws_root ws) workdir) in
      let! m := glstat workdir in
      match m with
      | Ok md =>
          if is_symlink md then ret_err (Tool (Sdk "permission_denied" "git cwd is denied because it is a symlink"))
          else if is_dir md then ret_ok workdir
          else ret_err (Tool (InvalidParam "git cwd must be a directory" "cwd"))
      | Err NotFound => ret_err (Tool (InvalidParam "git cwd does not exist" "cwd"))
      | Err e => ret_err (Tool (Sdk "internal_error" ("failed to inspect git cwd: " +:+ io_text e)))
      end
  end.

Definition ensure_branch_ref_allowed (workdir : list Component) (branch : string) : G (result unit WErr) :=
  let! r := run_git workdir (git_base_args ["check-ref-format"; "--branch"] ++ [branch]) in
  match r with
  | Ok _ => ret_ok ()
  | Err _ => ret_err (Tool (InvalidParam "git ref is not allowed" "ref"))
  end.

Definition ensure_clone_destination_allowed (workdir : list Component) (destination : string) : G (result unit WErr) :=
  let path := join_path workdir (components destination) in
  let!? _ := on_fs (reject_existing_symlink_ancestors workdir path) in
  let! m := glstat path in
  match m with
  | Ok md =>
      if is_symlink md
      then ret_err (Tool (Sdk "permission_denied" "git clone destination is denied because it is a symlink"))
      else ret_err (Tool (InvalidParam "git clone destination must be absent" "directory"))
  | Err NotFound => ret_ok ()
  | Err e => ret_err (Tool (Sdk "internal_error" ("failed to inspect git clone destination: " +:+ io_text e)))
  end.

Definition cleanup_clone_destination (workdir : list Component) (destination : string) (original : WErr) :
  G (result unit WErr) :=
  let path := join_path workdir (components destination) in
  let failed e := Tool (Sdk "quota_cleanup_failed" ("git clone exceeded quota and cleanup of `" +:+ destination
                          +:+ "` failed: " +:+ io_text e)) in
  let! m := glstat path in
  match m with
  | Ok md =>
      if is_dir md && negb (is_symlink md) then
        let! r := on_fs (trigger (RemoveDirAll path)) in
        match r with Ok _ => ret_err original | Err e => ret_err (failed e) end
      else if is_file md && negb (is_symlink md) then
        let! r := on_fs (trigger (RemoveFile path)) in
        match r with Ok _ => ret_err original | Err e => ret_err (failed e) end
      else ret_err original
  | Err _ => ret_err original
  end.

Inductive RemoteUrlMode := FetchUrls | PushUrls.

Fixpoint validate_urls (urls : list string) : result unit ToolError :=
  match urls with
  | [] => Ok ()
  | url :: rest => let? _ := validate_remote_url url "remote" in validate_urls rest
  end.

Definition ensure_remote_urls_allowed (workdir : list Component) (remote : string) (mode : RemoteUrlMode) :
  G (result unit WErr) :=
  let args := match mode with
              | FetchUrls => git_base_args ["remote"; "get-url"; "--all"]
              | PushUrls => git_base_args ["remote"; "get-url"; "--push"; "--all"]
              end in
  let!? urls := run_git workdir (args ++ [remote]) in
  lift (lift_tool (validate_urls (List.filter (fun l => negb (Str.is_empty l)) (Str.trim <$> lines urls)))).

Definition line_mentions_reserved_metadata (line : string) : bool :=
  existsb (fun part => String.eqb part ".labby-state" || Str.starts_with ".labby-state/" part) (Str.split_whitespace line).
Definition scrub_git_reserved_metadata (stdout : string) : string :=
  Str.join (String newline EmptyString) (List.filter (fun l => negb (line_mentions_reserved_metadata l)) (lines stdout)).

Definition trim_parens (s : string) : string :=
  let strip_start := fix go s := match s with
                                 | String a r => if Ascii.eqb a "(" || Ascii.eqb a ")" then go r else s
                                 | EmptyString => EmptyString end in
  let strip_end := fix go s := match s with
                               | String a r =>
                                   match go r with
                                   | EmptyString => if Ascii.eqb a "(" || Ascii.eqb a ")" then EmptyString else String a EmptyString
                                   | r' => String a r'
                                   end
                               | EmptyString => EmptyString end in
  strip_end (strip_start s).
Definition parse_remote_list (stdout : string) : list (string * string * string) :=
  omap (fun line => match Str.split_whitespace line with
                    | name :: url :: rest => Some (name, url, trim_parens (default "" (head rest)))
                    | _ => None
                    end) (lines stdout).

Definition git_method_mutates_workspace (request : GitRequest) : bool :=
  match request with StatusReq _ | LogReq _ _ | DiffReq _ _ | RemoteListReq _ => false | _ => true end.

Record GitResponse := mkGitResponse { gr_stdout : string; gr_remotes : option (list (string * string * string)) }.

Context `{CodePlatform} (fuel : nat) (ws : StateWorkspace).

Definition optionally {A} (o : option A) (f : A → G (result unit WErr)) : G (result unit WErr) :=
  match o with Some a => f a | None => ret_ok () end.

(** After a method that changes the workspace. *)
Definition enforce_quota (workdir : list Component) (clone_destination : option string) : G (result unit WErr) :=
  let! r := on_fs (enforce_total_bytes fuel ws) in
  match r with
  | Ok _ => ret_ok ()
  | Err err =>
      match clone_destination with
      | Some destination => cleanup_clone_destination workdir destination err
      | None => ret_err err
      end
  end.

Definition dispatch_git_method (request : GitRequest) : G (result GitResponse WErr) :=
  let!? spec := lift (lift_tool (for_method request)) in
  let!? workdir := git_workdir ws (gs_cwd spec) in
  let!? _ := optionally (gs_remote_preflight spec) (fun remote => ensure_remote_urls_allowed workdir remote FetchUrls) in
  let!? _ := optionally (gs_push_remote_preflight spec) (fun remote => ensure_remote_urls_allowed workdir remote PushUrls) in
  let!? _ := optionally (gs_branch_preflight spec) (ensure_branch_ref_allowed workdir) in
  let!? _ := optionally (gs_clone_destination spec) (ensure_clone_destination_allowed workdir) in
  let!? stdout := run_git workdir (gs_args spec) in
  let stdout := match request with StatusReq _ | DiffReq _ _ => scrub_git_reserved_metadata stdout | _ => stdout end in
  let!? _ := if git_method_mutates_workspace request then enforce_quota workdir (gs_clone_destination spec)
             else ret_ok () in
  ret_ok (mkGitResponse stdout (match request with RemoteListReq _ => Some (parse_remote_list stdout) | _ => None end)).

End Git.

(** ** Options of the argument vector *)

(** The words git reads as options: those that start with a dash, up to [--],
    where the value of an option that takes one is not read. *)
Definition value_options : list string := ["-c"; "--author"; "-m"; "-n"; "--depth"].
Fixpoint option_words (args : list string) : list string :=
  match args with
  | [] => []
  | a :: r =>
      if String.eqb a "--" then []
      else if Str.starts_with "-" a then
        a :: (if existsb (String.eqb a) value_options
              then match r with [] => [] | _ :: r' => option_words r' end
              else option_words r)
      else option_words r
  end.

(** The options of each method. *)
Definition fixed_options (request : GitRequest) : list string :=
  ["-c"; "-c"; "-c"] ++
  match request with
  | StatusReq _ => ["--short"]
  | CommitReq _ _ _ _ => ["-c"; "-c"; "--no-gpg-sign"; "--author"; "-m"]
  | LogReq _ _ => ["--oneline"; "-n"]
  | BranchReq name list_only delete _ =>
      match name with
      | Some _ => if list_only then ["--list"] else if delete then ["-D"] else []
      | None => ["--list"]
      end
  | CheckoutReq _ create _ => if create then ["-b"] else []
  | RemoteListReq _ => ["-v"]
  | CloneReq _ _ _ => ["--depth"]
  | _ => []
  end.

Definition remote_name (request : GitRequest) : option string :=
  match request with RemoteAddReq name _ _ | RemoteRemoveReq name _ => Some name | _ => None end.

Lemma plain_word a r : Str.starts_with "-" a = false → option_words (a :: r) = option_words r.
Proof.
  intros Ha. cbn [option_words]. rewrite Ha. by destruct (String.eqb_spec a "--") as [->|].
Qed.

Lemma validate_git_ref_Ok value param : validate_git_ref value param = Ok () → Str.starts_with "-" value = false.
Proof. unfold validate_git_ref. destruct (Str.starts_with "-" value); [|done]. by rewrite !orb_true_r. Qed.

Definition plain_arg (w : string) : Prop := Str.starts_with "-" w = false.

Lemma plain_words l : Forall plain_arg l → option_words l = [].
Proof. induction 1 as [|w l Hw Hl IH]; [done|]. by rewrite plain_word. Qed.

Lemma git_ref_plain value param u : validate_git_ref value param = Ok u → Forall plain_arg [value].
Proof. destruct u. intros Hv%validate_git_ref_Ok. by constructor. Qed.

Section GitProps.
Context {GP : GitPlatform}.

Lemma validate_remote_url_Ok url param :
  validate_remote_url url param = Ok () → ∃ u, git_url_parse url = Ok u ∧ url_scheme u = "https" ∧
    url_host_str u = Some "github.com" ∧ url_username u = "" ∧ url_password u = None.
Proof.
  unfold validate_remote_url. destruct (git_url_parse url) as [u|]; [|done].
  destruct (String.eqb_spec (url_scheme u) "https") as [Hs|]; [|done]. simpl.
  destruct (url_username u) eqn:Eu; [|done]. simpl. case_bool_decide as Ep; [done|].
  case_bool_decide; [done|]. case_bool_decide; [done|]. simpl. destruct (url_host_str u) as [host|] eqn:Eh; [|done]. simpl.
  destruct (String.eqb_spec host "github.com") as [->|]; [|done]. intros _.
  exists u. split_and!; [done..|by apply eq_None_not_Some].
Qed.

Lemma remote_words_plain name url param u :
  (∀ s u, git_url_parse s = Ok u → plain_arg s) → plain_arg name → validate_remote_url url param = Ok u →
  Forall plain_arg [name; url].
Proof. destruct u. intros Hurl Hn (u & Hp & _)%validate_remote_url_Ok. repeat constructor; eauto. Qed.

(** A script cannot smuggle options into git: whatever its parameters,
    the argument vector of an accepted request starts with the settings that
    disable hooks and the file and ext transports, and the words git reads as
    options are exactly those of the method, except that the name of a remote
    may itself start with a dash.  Only https URLs of github.com without
    credentials are added or cloned. *)
Theorem git_options_fixed request spec :
  (∀ s u, git_url_parse s = Ok u → Str.starts_with "-" s = false) →
  for_method request = Ok spec →
  (∀ name, remote_name request = Some name → Str.starts_with "-" name = false) →
  take 6 (gs_args spec) = git_base_args [] ∧
  option_words (gs_args spec) = fixed_options request ∧
  ∀ url, (∃ name cwd, request = RemoteAddReq name url cwd) ∨ (∃ dir cwd, request = CloneReq url dir cwd) →
    ∃ u, git_url_parse url = Ok u ∧ url_scheme u = "https" ∧ url_host_str u = Some "github.com" ∧
      url_username u = "" ∧ url_password u = None.
Proof.
  intros Hurl Hf Hname. split; [|split].
  - destruct request; cbn [for_method] in Hf; repeat case_match; simplify_eq; done.
  - destruct request; cbn [for_method] in Hf; repeat case_match; simplify_eq; try done.
    all: match goal with
         | Hr : validate_git_ref ?w _ = Ok _ |- _ => pose proof (plain_words [w] (git_ref_plain _ _ _ Hr)) as Hw
         | Hr : validate_remote_url ?url _ = Ok _, Hn : validate_remote_name ?w _ = Ok _ |- _ =>
             pose proof (plain_words [w; url] (remote_words_plain _ _ _ _ Hurl (Hname w eq_refl) Hr)) as Hw
         | Hn : validate_remote_name ?w _ = Ok _ |- _ =>
             pose proof (plain_words [w] (Forall_cons_2 _ _ _ (Hname w eq_refl) (Forall_nil_2 _))) as Hw
         end; simpl in Hw |- *; by rewrite Hw.
  - intros url Hreq. assert (∃ param, validate_remote_url url param = Ok ()) as [param Hv];
      [|by eapply validate_remote_url_Ok].
    destruct Hreq as [(name & cwd & ->)|(dir & cwd & ->)]; cbn [for_method] in Hf; repeat case_match; simplify_eq;
      match goal with Hr : validate_remote_url _ _ = Ok ?u |- _ => destruct u; eauto end.
Qed.

(** ** What precedes a process *)

Notation GTrace := (list (step_of gresp)).

Definition spawn_of (s : step_of gresp) : option (list Component * list string) :=
  match projT1 s with SpawnGit wd args => Some (wd, args) | OnFs _ => None end.
Definition spawns (tr : GTrace) : list (list Component * list string) := omap spawn_of tr.

Definition looked (p : list Component) (r : result Metadata IoError) (tr : GTrace) : Prop :=
  existT (OnFs (SymlinkMetadata p)) r ∈ tr.

(** Seen, and not a link. *)
Definition not_a_link (p : list Component) (tr : GTrace) : Prop :=
  ∃ r, looked p r tr ∧ match r with Ok md => is_symlink md = false | Err e => e = NotFound end.

(** [target] is below [root] and no component on the way from [root] to it,
    both included, is a link. *)
Definition unlinked (root target : list Component) (tr : GTrace) : Prop :=
  ∃ below, normalize_lexical target = normalize_lexical root ++ below ∧
    ∀ k, not_a_link (join_path (normalize_lexical root) (take k below)) tr.

(** The directory a process runs in: the root, or a directory below it that
    was seen to be one and not to be reached through a link. *)
Definition located (ws : StateWorkspace) (cwd : option string) (wd : list Component) (tr : GTrace) : Prop :=
  match cwd with
  | None => wd = ws_root ws
  | Some c => wd = join_path (ws_root ws) (components c) ∧ unlinked (ws_root ws) wd tr ∧
      ∃ md, looked wd (Ok md) tr ∧ is_symlink md = false ∧ is_dir md = true
  end.

Definition absent (wd : list Component) (destination : option string) (tr : GTrace) : Prop :=
  match destination with
  | Some d => let path := join_path wd (components d) in unlinked wd path tr ∧ looked path (Err NotFound) tr
  | None => True
  end.

(** The processes of a request, in order. *)
Definition branch_runs (spec : GitCommandSpec) (wd : list Component) : list (list Component * list string) :=
  match gs_branch_preflight spec with
  | Some b => [(wd, git_base_args ["check-ref-format"; "--branch"] ++ [b])]
  | None => []
  end.
Definition expected_runs (spec : GitCommandSpec) (wd : list Component) : list (list Component * list string) :=
  branch_runs spec wd ++ [(wd, gs_args spec)].

Lemma spawns_app tr tr' : spawns (tr ++ tr') = spawns tr ++ spawns tr'.
Proof. apply omap_app. Qed.

Lemma looked_sub p r tr tr' : tr ⊆ tr' → looked p r tr → looked p r tr'.
Proof. unfold looked. set_solver. Qed.
Lemma not_a_link_sub p tr tr' : tr ⊆ tr' → not_a_link p tr → not_a_link p tr'.
Proof. intros Hs (r & Hl & Hr). exists r. eauto using looked_sub. Qed.
Lemma unlinked_sub root target tr tr' : tr ⊆ tr' → unlinked root target tr → unlinked root target tr'.
Proof. intros Hs (below & Hb & Hk). exists below. eauto using not_a_link_sub. Qed.

(** *** The guard against links *)

Definition fs_step (s : step_of fresp) : step_of gresp := match s with existT e r => existT (OnFs e) r end.

Lemma always_on_fs {A} (p : F A) Q : always (on_fs p) Q ↔ always p (fun tr a => Q (fs_step <$> tr) a).
Proof.
  revert Q. induction p as [a|e k IH]; intros Q; cbn [on_fs always]; [done|].
  split; intros HQ r.
  - exact (proj1 (IH r (fun tr a => Q (existT (OnFs e) r :: tr) a)) (HQ r)).
  - exact (proj2 (IH r (fun tr a => Q (existT (OnFs e) r :: tr) a)) (HQ r)).
Qed.

Lemma reject_spec p :
  always (reject_existing_symlink p) (fun tr r => is_ok r = true → not_a_link p (fs_step <$> tr)).
Proof.
  intros m. unfold not_a_link, looked. destruct m as [md|[| |e]]; cbn; try done.
  - destruct (is_symlink md) eqn:Es; cbn; [done|]. intros _. exists (Ok md). split; [by left|done].
  - intros _. exists (Err NotFound). split; [by left|done].
Qed.

Lemma reject_each_spec current relative :
  always (reject_each current relative) (fun tr r => is_ok r = true →
    ∀ k, k ≠ 0 → k <= length relative → not_a_link (join_path current (take k relative)) (fs_step <$> tr)).
Proof.
  revert current. induction relative as [|c rest IH]; intros current; cbn [reject_each].
  { intros _ k Hk Hle. cbn in Hle. lia. }
  eapply always_try_spec; [apply reject_spec| |done]. intros tr u H1. specialize (H1 eq_refl).
  eapply always_mono; [apply IH|]. intros tr' r Hr Hok [|[|k]] Hk Hle; [done| |].
  - cbn. eapply not_a_link_sub; [|exact H1]. rewrite fmap_app. set_solver.
  - cbn in Hle. eapply not_a_link_sub; [|apply (Hr Hok (S k)); [done|lia]]. rewrite fmap_app. set_solver.
Qed.

Lemma ancestors_unlinked root target :
  always (on_fs (reject_existing_symlink_ancestors root target)) (fun tr r =>
    spawns tr = [] ∧ (is_ok r = true → unlinked root target tr)).
Proof.
  apply always_on_fs. unfold reject_existing_symlink_ancestors.
  assert (Hn : ∀ tr : list (step_of fresp), spawns (fs_step <$> tr) = []).
  { intros tr. induction tr as [|[e r] tr IH]; [done|]. exact IH. }
  destruct (negb _); [by split|].
  eapply always_try_spec; [apply reject_spec| |by split]. intros tr u H1. specialize (H1 eq_refl).
  destruct (strip_prefix_path _ _) as [below|] eqn:Hs; [|by split; [apply Hn|]].
  eapply always_mono; [apply reject_each_spec|]. intros tr' r Hr. split; [apply Hn|]. intros Hok.
  exists below. split; [by apply strip_prefix_Some|]. rewrite fmap_app.
  assert (Hone : ∀ k, k <= length below → not_a_link (join_path (normalize_lexical root) (take k below))
            ((fs_step <$> tr) ++ (fs_step <$> tr'))).
  { intros [|k] Hk; [|eapply not_a_link_sub; [|by apply Hr]; set_solver].
    eapply not_a_link_sub; [|exact H1]. set_solver. }
  intros k. destruct (decide (k <= length below)); [by apply Hone|].
  rewrite take_ge by lia. rewrite <- (take_ge below (length below)) by done. by apply Hone.
Qed.

Lemma on_fs_spawns {A} (p : F A) : always (on_fs p) (fun tr _ => spawns tr = []).
Proof. induction p as [a|e k IH]; cbn [on_fs always]; [done|]. intros r. apply (IH r). Qed.

Lemma glstat_spec p : always (glstat p) (fun tr r => spawns tr = [] ∧ looked p r tr).
Proof. cbn. intros r. split; [done|]. unfold looked. set_solver. Qed.

Lemma run_git_spec wd args : always (run_git wd args) (fun tr _ => spawns tr = [(wd, args)]).
Proof. cbn. done. Qed.

Lemma git_workdir_spec ws cwd :
  always (git_workdir ws cwd) (fun tr r => spawns tr = [] ∧ ∀ wd, r = Ok wd → located ws cwd wd tr).
Proof.
  destruct cwd as [c|]; cbn [git_workdir]; [|split; [done|by intros wd [= <-]]].
  eapply always_try_spec; [apply ancestors_unlinked| |by intros ? ? []]. intros tr a [Htr Hu]. specialize (Hu eq_refl).
  eapply always_bind_spec; [apply glstat_spec|]. intros tr' m [Htr' Hl].
  assert (spawns (tr ++ tr' ++ []) = []) as Hn by by rewrite !spawns_app, Htr, Htr'.
  destruct m as [md|[| |e]]; [|done..]. destruct (is_symlink md) eqn:Es; [done|]. destruct (is_dir md) eqn:Ed; [|done].
  cbn [always]. split; [done|]. intros wd [= <-]. split_and!; [done| |].
  - eapply unlinked_sub; [|done]. set_solver.
  - exists md. split; [|done]. eapply looked_sub; [|done]. set_solver.
Qed.

Lemma branch_spec wd b :
  always (ensure_branch_ref_allowed wd b)
    (fun tr _ => spawns tr = [(wd, git_base_args ["check-ref-format"; "--branch"] ++ [b])]).
Proof.
  eapply always_bind_spec; [apply run_git_spec|]. intros tr r Htr. simpl in Htr.
  destruct r; cbn [always]; by rewrite spawns_app, Htr.
Qed.

Lemma clone_spec wd d :
  always (ensure_clone_destination_allowed wd d)
    (fun tr r => spawns tr = [] ∧ (is_ok r = true → absent wd (Some d) tr)).
Proof.
  eapply always_try_spec; [apply ancestors_unlinked| |by intros ? ? []]. intros tr a [Htr Hu]. specialize (Hu eq_refl).
  eapply always_bind_spec; [apply glstat_spec|]. intros tr' m [Htr' Hl].
  assert (spawns (tr ++ tr' ++ []) = []) as Hn by by rewrite !spawns_app, Htr, Htr'.
  destruct m as [md|[| |e]]; [by destruct (is_symlink md)| |done..].
  split; [done|]. intros _. cbn. split; [eapply unlinked_sub; [|done]|eapply looked_sub; [|done]]; set_solver.
Qed.

Lemma cleanup_spec wd d e : always (cleanup_clone_destination wd d e) (fun tr r => spawns tr = [] ∧ is_ok r = false).
Proof.
  eapply always_bind_spec; [apply glstat_spec|]. intros tr m [Htr Hl].
  assert (spawns (tr ++ []) = []) as Hn by by rewrite spawns_app, Htr.
  destruct m as [md|]; [|done]. destruct (is_dir md && _); [|destruct (is_file md && _); [|done]].
  all: eapply always_bind_spec; [apply on_fs_spawns|]; intros tr' r Htr'; simpl in Htr';
    destruct r; cbn [always]; by rewrite !spawns_app, Htr, Htr'.
Qed.

Lemma quota_spec `{CodePlatform} fuel ws wd d : always (enforce_quota fuel ws wd d) (fun tr _ => spawns tr = []).
Proof.
  eapply always_bind_spec; [apply on_fs_spawns|]. intros tr r Htr. simpl in Htr.
  assert (spawns (tr ++ []) = []) as Hn by by rewrite spawns_app, Htr.
  destruct r; [done|]. destruct d; [|done]. eapply always_mono; [apply cleanup_spec|].
  intros tr' r [Htr' _]. by rewrite spawns_app, Htr, Htr'.
Qed.

Lemma no_remote_preflight request spec :
  for_method request = Ok spec →
  gs_remote_preflight spec = None ∧ gs_push_remote_preflight spec = None ∧
  (gs_branch_preflight spec = None ∨ gs_clone_destination spec = None).
Proof. destruct request; cbn [for_method]; intros Hf; repeat case_match; simplify_eq; auto. Qed.

Lemma branch_stage spec wd :
  always (optionally (gs_branch_preflight spec) (ensure_branch_ref_allowed wd)) (fun tr _ => spawns tr = branch_runs spec wd).
Proof. unfold branch_runs. destruct (gs_branch_preflight spec); [apply branch_spec|done]. Qed.

Lemma clone_stage wd d :
  always (optionally d (ensure_clone_destination_allowed wd))
    (fun tr r => spawns tr = [] ∧ (is_ok r = true → absent wd d tr)).
Proof. destruct d; [apply clone_spec|done]. Qed.

Lemma absent_app_r wd d tr tr' : absent wd d tr' → absent wd d (tr ++ tr').
Proof.
  destruct d; [|done]. cbn. intros [Hu Hl]. split; [eapply unlinked_sub; [|done]|eapply looked_sub; [|done]]; set_solver.
Qed.

(** Where a request can stop, and what was seen before what has run by then. *)
Definition git_ran {A} (ws : StateWorkspace) (request : GitRequest) (tr : GTrace) (res : result A WErr) : Prop :=
  (spawns tr = [] ∧ is_ok res = false) ∨
  ∃ spec wd checked rest, for_method request = Ok spec ∧
    tr = checked ++ rest ∧ spawns checked = [] ∧ located ws (gs_cwd spec) wd checked ∧
    spawns tr `prefix_of` expected_runs spec wd ∧
    (spawns tr = expected_runs spec wd →
       ∃ before after, tr = before ++ after ∧ spawns after = [(wd, gs_args spec)] ∧
         absent wd (gs_clone_destination spec) before) ∧
    (is_ok res = true → spawns tr = expected_runs spec wd).

Lemma ran_stopped {A} ws request spec wd checked rest e :
  for_method request = Ok spec → spawns checked = [] → located ws (gs_cwd spec) wd checked →
  spawns rest = branch_runs spec wd → git_ran (A:=A) ws request (checked ++ rest) (Err e).
Proof.
  intros Hf Hc Hl Hs. right. exists spec, wd, checked, rest. rewrite spawns_app, Hc, Hs. unfold expected_runs. cbn [app].
  split_and!; [done..| | |done].
  - by eexists.
  - intros Heq%(f_equal length). rewrite length_app in Heq. simpl in Heq. lia.
Qed.

Lemma ran_all {A} ws request spec wd checked tr1 tr2 tr3 (res : result A WErr) :
  for_method request = Ok spec → spawns checked = [] → located ws (gs_cwd spec) wd checked →
  spawns tr1 = branch_runs spec wd → spawns tr2 = [] → absent wd (gs_clone_destination spec) tr2 →
  spawns tr3 = [(wd, gs_args spec)] → git_ran ws request (checked ++ tr1 ++ tr2 ++ tr3) res.
Proof.
  intros Hf Hc Hl H1 H2 Ha H3. right. exists spec, wd, checked, (tr1 ++ tr2 ++ tr3).
  assert (Hs : spawns (checked ++ tr1 ++ tr2 ++ tr3) = expected_runs spec wd)
    by by rewrite !spawns_app, Hc, H1, H2, H3.
  rewrite Hs. split_and!; try done. intros _. exists (checked ++ tr1 ++ tr2), tr3. rewrite <- !app_assoc.
  split_and!; [done..|]. by apply absent_app_r, absent_app_r.
Qed.

(** (C38) What runs for a request: nothing, or the processes of its method in
    order, all in one directory.  Before the first of them, that directory was
    seen to be the workspace root, or a directory below it that is not reached
    through a link: no component from the root to it is one.  Before a clone
    runs, its destination was seen to be absent, and nothing from the
    directory to it to be a link.  A request succeeds only when all of its
    processes ran. *)
Theorem git_processes_guarded `{CodePlatform} fuel ws request :
  always (dispatch_git_method fuel ws request) (fun tr res =>
    (spawns tr = [] ∧ is_ok res = false) ∨
    ∃ spec wd checked rest, for_method request = Ok spec ∧
      tr = checked ++ rest ∧ spawns checked = [] ∧ located ws (gs_cwd spec) wd checked ∧
      spawns tr `prefix_of` expected_runs spec wd ∧
      (spawns tr = expected_runs spec wd →
         ∃ before after, tr = before ++ after ∧ spawns after = [(wd, gs_args spec)] ∧
           absent wd (gs_clone_destination spec) before) ∧
      (is_ok res = true → spawns tr = expected_runs spec wd)).
Proof.
  change (always (dispatch_git_method fuel ws request) (git_ran ws request)).
  unfold dispatch_git_method. destruct (for_method request) as [spec|e] eqn:Ef; [|left; done].
  destruct (no_remote_preflight _ _ Ef) as (Hr & Hp & Hbc). cbn [lift lift_tool try_bind pbind].
  eapply always_try_spec; [apply git_workdir_spec| |]; [|intros tr e [Htr _]; left; done].
  intros tr wd [Htr Hloc]. specialize (Hloc wd eq_refl). rewrite Hr, Hp. cbn [optionally try_bind pbind].
  eapply always_try_spec; [apply branch_stage| |].
  2:{ intros tr1 e Htr1. by eapply ran_stopped. }
  intros tr1 u Htr1. simpl in Htr1. eapply always_try_spec; [apply clone_stage| |].
  2:{ intros tr2 e [Htr2 _]. eapply ran_stopped; [done..|]. by rewrite spawns_app, Htr1, Htr2, app_nil_r. }
  intros tr2 u' [Htr2 Habs]. specialize (Habs eq_refl). eapply always_try_spec; [apply run_git_spec| |].
  2:{ intros tr3 e Htr3. by eapply ran_all. }
  intros tr3 out Htr3. simpl in Htr3. eapply (always_try_spec _ _ (fun tr4 _ => spawns tr4 = [])).
  { destruct (git_method_mutates_workspace request); [apply quota_spec|done]. }
  all: intros tr4 x Htr4; cbn [always]; eapply ran_all; [done..|].
  all: rewrite ?spawns_app, Htr3; simpl; by rewrite ?Htr4, ?app_nil_r.
Qed.
End GitProps.

(** ** Worked examples *)

Definition sample_git_platform : GitPlatform := {|
  git_url_parse := fun s => if Str.starts_with "-" s then Err "relative URL without a base" else sample_url_parse s;
  regex_replace_all := fun _ _ s => s;
|}.

Lemma git_options_fixed_witness :
  ∃ spec, for_method (GP := sample_git_platform) (RemoteAddReq "origin" "https://github.com/o/r" None) = Ok spec ∧
    option_words (gs_args spec) = ["-c"; "-c"; "-c"].
Proof.
  eexists. split; [vm_compute; reflexivity|].
  eapply (git_options_fixed (GP := sample_git_platform) (RemoteAddReq "origin" "https://github.com/o/r" None)).
  - intros s u. cbn [git_url_parse sample_git_platform]. by destruct (Str.starts_with "-" s).
  - vm_compute. reflexivity.
  - by intros name [= <-].
Defined.

(** A remote whose name is an option is accepted, and git reads it as one. *)
Lemma remote_name_option :
  ∃ spec, for_method (GP := sample_git_platform) (RemoteRemoveReq "--help" None) = Ok spec ∧
    "--help" ∈ option_words (gs_args spec).
Proof. eexists. split; [vm_compute; reflexivity|]. vm_compute. set_solver. Qed.

(** A path with pathspec magic is not recognised as one of the metadata
    directory, which the fixed arguments of [diff] exclude. *)
Lemma pathspec_magic_accepted :
  is_ok (parse ".labby-state/plans") = false ∧
  gs_args <$> ok (for_method (GP := sample_git_platform) (DiffReq (Some ":(top).labby-state/plans") None))
    = Some (git_base_args ["diff"; "--"; ":(top).labby-state/plans"]).
Proof. vm_compute. done. Qed.
