(* ===== verification/SpawnGuard.v ===== *)
(** * SpawnGuard: what a stdio upstream may run

    [labby-gateway/src/security/spawn_guard.rs]: every command, argument vector
    and environment of a stdio upstream passes these checks before it is
    stored.  The file proves exactly which specifications pass, and shows
    spellings of denied flags that do. *)

From Stdlib Require Import Ascii String.
From stdpp Require Import base list gmap strings.
From S2P Require Import Prelude RustStr Paths Fs Workspace.

Definition ALLOWED_RUNTIME_HINTS : list string :=
  ["npx"; "uvx"; "docker"; "dnx"; "pipx"; "node"; "python"; "python3"; "deno"].
Definition DENIED_ENV_NAMES : list string :=
  ["PATH"; "LD_PRELOAD"; "LD_LIBRARY_PATH"; "HOME"; "SHELL"; "IFS"; "USER"; "PWD"].
Definition DANGEROUS_DOCKER_FLAGS : list string :=
  ["--privileged"; "--cap-add"; "--volume"; "-v"; "--device"; "--network"; "--pid"; "--ipc"].
Definition DANGEROUS_NODE_FLAGS : list string :=
  ["--inspect"; "--require"; "-r"; "--experimental"; "--allow"; "-e"; "--eval"; "-p"; "--print"].
Definition DANGEROUS_PYTHON_FLAGS : list string := ["-c"; "--command"; "-"].
Definition DANGEROUS_DENO_FLAGS : list string := ["eval"; "--allow-all"; "-A"].

Definition mem (s : string) (l : list string) : bool := existsb (String.eqb s) l.

(** The name the runtime is recognised by. *)
Definition binary_name (command : string) : string := default command (file_name (components command)).

Definition validate_stdio_command (command : string) (extra : list string) (bypass : bool) : result unit ToolError :=
  if bypass then Ok ()
  else
    let binary := binary_name command in
    if mem binary ALLOWED_RUNTIME_HINTS || existsb (fun e => String.eqb e binary) extra then Ok ()
    else Err (InvalidParam
      ("stdio command '" +:+ command +:+ "' is not in the allowed list; must be one of: "
       +:+ Str.join ", " (ALLOWED_RUNTIME_HINTS ++ extra)
       +:+ " (add to [gateway] extra_stdio_commands in config.toml to extend, or set disable_spawn_guard = true to disable this check)")
      "command").

Definition node_flag_matches (denied flag : string) : bool :=
  String.eqb flag denied
  || (mem denied ["--allow"; "--experimental"; "--inspect"] && Str.starts_with (denied +:+ "-") flag).

Definition validate_runtime_argv_flag (runtime_hint arg : string) : result unit ToolError :=
  let flag := default arg (head (Str.split "=" arg)) in
  let denied :=
    if String.eqb runtime_hint "docker"
    then mem flag DANGEROUS_DOCKER_FLAGS || mem arg ["--network=host"; "--pid=host"; "--ipc=host"]
    else if mem runtime_hint ["node"; "npx"]
    then existsb (fun prefix => node_flag_matches prefix flag) DANGEROUS_NODE_FLAGS
    else if mem runtime_hint ["python"; "python3"] then mem flag DANGEROUS_PYTHON_FLAGS
    else if String.eqb runtime_hint "deno" then mem flag DANGEROUS_DENO_FLAGS
    else false in
  if denied
  then Err (InvalidParam ("argv flag '" +:+ arg +:+ "' is not allowed for runtime '" +:+ runtime_hint +:+ "'") "args")
  else Ok ().

(** Newline, carriage return and NUL. *)
Definition control_byte (a : ascii) : bool := Ascii.eqb a "010" || Ascii.eqb a "013" || Ascii.eqb a "000".
Definition has_control (s : string) : bool := negb (Str.all_bytes (fun a => negb (control_byte a)) s).

Fixpoint validate_stdio_argv (runtime_hint : string) (args : list string) : result unit ToolError :=
  match args with
  | [] => Ok ()
  | arg :: rest =>
      if has_control arg
      then Err (InvalidParam "argv values must not contain newline, carriage return, or null bytes" "args")
      else let? _ := validate_runtime_argv_flag runtime_hint arg in validate_stdio_argv runtime_hint rest
  end.

Definition is_ascii_uppercase (a : ascii) : bool := let n := Ascii.nat_of_ascii a in (65 <=? n) && (n <=? 90).
Definition is_ascii_digit (a : ascii) : bool := let n := Ascii.nat_of_ascii a in (48 <=? n) && (n <=? 57).

Definition validate_stdio_env_name (name : string) : result unit ToolError :=
  let valid := negb (Str.is_empty name)
               && match name with String a _ => is_ascii_uppercase a | EmptyString => false end
               && Str.all_bytes (fun c => is_ascii_uppercase c || is_ascii_digit c || Ascii.eqb c "_") name in
  let denied := mem name DENIED_ENV_NAMES || Str.starts_with "LABBY_" name in
  if valid && negb denied then Ok ()
  else Err (InvalidParam ("env var name '" +:+ name
         +:+ "' is invalid; must match ^[A-Z][A-Z0-9_]*$ and must not be a protected process or LABBY_* variable") "env").

Definition validate_stdio_env_value (key value : string) : result unit ToolError :=
  if has_control value
  then Err (InvalidParam ("env var '" +:+ key +:+ "' value must not contain newline, carriage return, or null bytes") "env")
  else Ok ().

(** The loop over the environment, in the order of its keys. *)
Fixpoint validate_stdio_env (env : list (string * string)) : result unit ToolError :=
  match env with
  | [] => Ok ()
  | (name, value) :: rest =>
      let? _ := validate_stdio_env_name name in
      let? _ := validate_stdio_env_value name value in
      validate_stdio_env rest
  end.

Definition validate_stdio_spec (command : string) (args : list string) (env : list (string * string)) (extra : list string)
    (bypass : bool) : result unit ToolError :=
  let? _ := validate_stdio_command command extra bypass in
  let? _ := validate_stdio_argv (binary_name command) args in
  validate_stdio_env env.

(** ** What passes *)

(** The flags each runtime is denied, on the part of an argument before [=]. *)
Definition denied_flag (runtime flag : string) : Prop :=
  (runtime = "docker" ∧ flag ∈ DANGEROUS_DOCKER_FLAGS) ∨
  (runtime ∈ ["node"; "npx"] ∧ (flag ∈ DANGEROUS_NODE_FLAGS ∨
     ∃ p rest, p ∈ ["--allow"; "--experimental"; "--inspect"] ∧ flag = p +:+ "-" +:+ rest)) ∨
  (runtime ∈ ["python"; "python3"] ∧ flag ∈ DANGEROUS_PYTHON_FLAGS) ∨
  (runtime = "deno" ∧ flag ∈ DANGEROUS_DENO_FLAGS).
Definition flag_of (arg : string) : string := default arg (head (Str.split "=" arg)).

Lemma mem_elem s l : mem s l = true ↔ s ∈ l.
Proof.
  unfold mem. rewrite existsb_elem. split.
  - by intros (x & Hx & ->%String.eqb_eq).
  - intros Hs. exists s. split; [done|apply String.eqb_refl].
Qed.

Lemma node_flag_elem flag :
  existsb (fun p => node_flag_matches p flag) DANGEROUS_NODE_FLAGS = true ↔
  flag ∈ DANGEROUS_NODE_FLAGS ∨ ∃ p rest, p ∈ ["--allow"; "--experimental"; "--inspect"] ∧ flag = p +:+ "-" +:+ rest.
Proof.
  rewrite existsb_elem. unfold node_flag_matches. split.
  - intros (p & Hp & [->%String.eqb_eq|[Hm Hs]%andb_true_iff]%orb_true_iff); [by left|right].
    apply mem_elem in Hm. apply Str.starts_with_spec in Hs as [rest ->]. exists p, rest. split; [done|].
    by rewrite Str.app_assoc.
  - intros [Hf|(p & rest & Hp & ->)].
    + exists flag. split; [done|]. by rewrite String.eqb_refl.
    + exists p. split; [set_solver|]. apply orb_true_iff. right. apply andb_true_iff. split; [by apply mem_elem|].
      apply Str.starts_with_spec. exists rest. by rewrite Str.app_assoc.
Qed.

(** The three values of [--network], [--pid] and [--ipc] that are named
    separately are covered by their flags. *)
Lemma host_modes_covered arg :
  arg ∈ ["--network=host"; "--pid=host"; "--ipc=host"] → flag_of arg ∈ DANGEROUS_DOCKER_FLAGS.
Proof. rewrite !elem_of_cons, elem_of_nil. intros [->|[->|[->|[]]]]; vm_compute; set_solver. Qed.

Lemma flag_Ok runtime arg :
  validate_runtime_argv_flag runtime arg = Ok () ↔ ¬ denied_flag runtime (flag_of arg).
Proof.
  unfold validate_runtime_argv_flag. fold (flag_of arg). cbv zeta.
  match goal with |- context [if ?d then _ else _] => assert (d = true ↔ denied_flag runtime (flag_of arg)) as Hd end.
  { unfold denied_flag. destruct (String.eqb_spec runtime "docker") as [->|Hn].
    - rewrite orb_true_iff, !mem_elem. pose proof (host_modes_covered arg). set_solver.
    - destruct (mem runtime ["node"; "npx"]) eqn:En; [apply mem_elem in En; rewrite node_flag_elem; set_solver|].
      apply not_true_iff_false in En. rewrite mem_elem in En.
      destruct (mem runtime ["python"; "python3"]) eqn:Ep; [apply mem_elem in Ep; rewrite mem_elem; set_solver|].
      apply not_true_iff_false in Ep. rewrite mem_elem in Ep.
      destruct (String.eqb_spec runtime "deno") as [->|]; [rewrite mem_elem; set_solver|]. set_solver. }
  match goal with |- context [if ?d then _ else _] => destruct d end; naive_solver.
Qed.

Lemma all_bytes_Forall f s : Str.all_bytes f s = true ↔ Forall (fun a => f a = true) (String.list_ascii_of_string s).
Proof. induction s as [|a s IH]; simpl; [by split; [constructor|]|]. by rewrite andb_true_iff, IH, Forall_cons. Qed.

Definition printable (s : string) : Prop :=
  Forall (fun a => a ∉ ["010"; "013"; "000"]%char) (String.list_ascii_of_string s).
Lemma has_control_false s : has_control s = false ↔ printable s.
Proof.
  unfold has_control, printable. rewrite negb_false_iff, all_bytes_Forall.
  apply Forall_proper; [|done]. intros a. unfold control_byte. rewrite negb_true_iff, !orb_false_iff, !Ascii.eqb_neq. set_solver.
Qed.

Definition env_name_ok (name : string) : Prop :=
  (∃ a rest, name = String a rest ∧ is_ascii_uppercase a = true) ∧
  Forall (fun c => is_ascii_uppercase c = true ∨ is_ascii_digit c = true ∨ c = "_"%char) (String.list_ascii_of_string name) ∧
  name ∉ DENIED_ENV_NAMES ∧ ¬ ∃ rest, name = "LABBY_" +:+ rest.

Lemma env_name_Ok name : validate_stdio_env_name name = Ok () ↔ env_name_ok name.
Proof.
  unfold validate_stdio_env_name, env_name_ok. cbv zeta.
  match goal with |- (if ?b then _ else _) = _ ↔ _ => assert (b = true ↔ env_name_ok name) as Hb end.
  { unfold env_name_ok. rewrite !andb_true_iff, all_bytes_Forall, !negb_true_iff, orb_false_iff, <- !not_true_iff_false, mem_elem.
    rewrite (Str.starts_with_spec "LABBY_" name).
    assert (∀ l, Forall (fun a => is_ascii_uppercase a || is_ascii_digit a || Ascii.eqb a "_" = true) l ↔
              Forall (fun c => is_ascii_uppercase c = true ∨ is_ascii_digit c = true ∨ c = "_"%char) l) as ->.
    { intros l. apply Forall_proper; [|done]. intros a. rewrite !orb_true_iff, Ascii.eqb_eq. tauto. }
    destruct name as [|a rest]; [naive_solver|]. cbn [Str.is_empty negb]. naive_solver. }
  fold (env_name_ok name). match goal with |- (if ?b then _ else _) = _ ↔ _ => destruct b end; naive_solver.
Qed.

Lemma argv_Ok runtime args :
  validate_stdio_argv runtime args = Ok () ↔
  Forall (fun arg => printable arg ∧ ¬ denied_flag runtime (flag_of arg)) args.
Proof.
  induction args as [|arg args IH]; simpl; [by split; [constructor|]|]. rewrite Forall_cons, <- IH, <- flag_Ok, <- has_control_false.
  destruct (has_control arg); [naive_solver|]. destruct (validate_runtime_argv_flag runtime arg) as [[]|]; naive_solver.
Qed.

Lemma env_Ok env :
  validate_stdio_env env = Ok () ↔ Forall (fun nv => env_name_ok nv.1 ∧ printable nv.2) env.
Proof.
  induction env as [|[n v] env IH]; simpl; [by split; [constructor|]|]. rewrite Forall_cons, <- IH. simpl.
  rewrite <- env_name_Ok, <- has_control_false. unfold validate_stdio_env_value.
  destruct (validate_stdio_env_name n) as [[]|]; [|naive_solver]. destruct (has_control v); naive_solver.
Qed.

(** The guard accepts exactly the specifications of its rules: a
    program whose file name is a known runtime or one the operator added
    (unless the command check is switched off, which leaves the other rules in
    force), arguments without control bytes and without a flag denied to that
    runtime, and environment variables with well-formed names that are
    neither protected nor reserved and values without control bytes. *)
Theorem spawn_guard_exact command args env extra bypass :
  validate_stdio_spec command args env extra bypass = Ok () ↔
  (bypass = true ∨ binary_name command ∈ ALLOWED_RUNTIME_HINTS ∨ binary_name command ∈ extra) ∧
  Forall (fun arg => printable arg ∧ ¬ denied_flag (binary_name command) (flag_of arg)) args ∧
  Forall (fun nv => env_name_ok nv.1 ∧ printable nv.2) env.
Proof.
  unfold validate_stdio_spec. rewrite <- argv_Ok, <- env_Ok, <- mem_elem.
  assert (existsb (fun e => String.eqb e (binary_name command)) extra = true ↔ binary_name command ∈ extra) as He.
  { rewrite existsb_elem. split; [by intros (x & Hx & <-%String.eqb_eq)|intros Hx; eexists; by rewrite String.eqb_refl]. }
  rewrite <- He. unfold validate_stdio_command.
  destruct bypass, (mem (binary_name command) ALLOWED_RUNTIME_HINTS), (existsb _ extra); cbn [orb];
    destruct (validate_stdio_argv (binary_name command) args) as [[]|]; intuition congruence.
Qed.

(** Spellings the rules do not cover: a value attached to a short flag, and
    bundled short flags, which the runtimes read as the denied ones. *)
Lemma attached_flags_accepted :
  validate_stdio_spec "docker" ["run"; "-v/:/host"; "image"] [] [] false = Ok () ∧
  validate_stdio_spec "python3" ["-cimport os"] [] [] false = Ok () ∧
  validate_stdio_spec "node" ["-pe"; "process.exit()"] [] [] false = Ok () ∧
  is_ok (validate_stdio_spec "docker" ["run"; "-v"; "/:/host"; "image"] [] [] false) = false ∧
  is_ok (validate_stdio_spec "python3" ["-c"; "import os"] [] [] false) = false ∧
  is_ok (validate_stdio_spec "node" ["-p"; "process.exit()"] [] [] false) = false.
Proof. vm_compute. done. Qed.
