(* ===== verification/WebEffects.v ===== *)
(** * WebEffects: what the outbound clients ask of their environment

    The effects of [labby-auth]'s outbound code: HTTP exchanges and name
    resolution ([remote.rs], [google.rs]), the process environment, monotonic
    time, the shared caches and locks of the upstream OAuth manager, and the
    calls into the [rmcp] crate's [AuthorizationManager].  [OnAuth] embeds the
    effects of the authorization server, so its store methods run unchanged
    inside these programs. *)

From stdpp Require Import base list gmap strings.
From S2P Require Import Prelude RustStr Prog AuthTypes SamplePlatform Store Effects WebPlatform.

(** ** HTTP *)

Inductive Method := GET | POST.

(** A request: [pinned] is the host and addresses of [resolve_to_addrs]. *)
Record HttpRequest := mkHttpRequest {
  hq_method : Method;
  hq_url : Url;
  hq_form : list (string * string);
  hq_accept : option string;
  hq_timeout_secs : Z;
  hq_follow_redirects : bool;
  hq_pinned : option (string * list IpAddr);
}.

(** A response: the headers the sources read, and the body as the chunks the
    connection yields, the last one possibly a transport error. *)
Record HttpResponse := mkHttpResponse {
  hr_status : Z;
  hr_retry_after : option string;
  hr_cache_control : option string;
  hr_content_length : option Z;
  hr_body : list (result string string);
}.

Definition is_client_error (status : Z) : bool := bool_decide (400 <= status < 500)%Z.
Definition is_server_error (status : Z) : bool := bool_decide (500 <= status < 600)%Z.
Definition is_success (status : Z) : bool := bool_decide (200 <= status < 300)%Z.
(** [error_for_status] is an error. *)
Definition is_error_status (status : Z) : bool := is_client_error status || is_server_error status.

(** The whole body, then decoded: [Response::json]. *)
Fixpoint read_body (chunks : list (result string string)) : result string string :=
  match chunks with
  | [] => Ok ""
  | Err e :: _ => Err e
  | Ok c :: rest => let? r := read_body rest in Ok (c +:+ r)
  end.
Definition response_json {T} (of_json : string → result T string) (r : HttpResponse) : result T string :=
  let? body := read_body (hr_body r) in of_json body.

(** ** The Google provider (google.rs) *)

Record GoogleProvider := mkGoogleProvider {
  gl_client_id : string;
  gl_client_secret : string;
  gl_redirect_uri : Url;
  gl_scopes : list string;
  gl_authorize_endpoint : Url;
  gl_token_endpoint : Url;
  gl_jwks_endpoint : Url;
}.

Record CachedGoogleJwks := mkCachedGoogleJwks { cj_jwks : GoogleJwks; cj_expires_at : Z }.

(** ** The stores the [AuthorizationManager] is given (upstream/) *)

Record GoogleProviderCredentialStore := mkGoogleStore {
  gs_provider : GoogleProvider;
  gs_account : option string;
  gs_expected_client_id : string;
  gs_required_scopes : list string;
}.
Record SqliteCredentialStore := mkSqliteStore { ss_key : string; ss_upstream_name : string; ss_subject : string }.
Record SqliteStateStore := mkStateStore { st_upstream_name : string; st_subject : string }.

Inductive CredentialStore :=
| SqliteCredentials (store : SqliteCredentialStore)
| GoogleCredentials (store : GoogleProviderCredentialStore).

(** The state of an [AuthorizationManager] that the sources set. *)
Record AuthorizationManager := mkManager {
  am_base_url : string;
  am_credential_store : option CredentialStore;
  am_state_store : option SqliteStateStore;
  am_metadata : option AuthorizationMetadata;
  am_client : option OAuthClientConfig;
}.

(** The methods of [AuthorizationManager] that leave the process or read its
    stores. *)
Inductive RmcpCall :=
| NewManager (url : string)
| ResolveMetadata
| RegisterClient (name redirect_uri : string) (scopes : list string)
| ConfigureClient (config : OAuthClientConfig)
| GetAuthorizationUrl (scopes : list string)
| ExchangeCodeForToken (code csrf_token : string)
| InitializeFromStore
| GetAccessToken
| RefreshToken.

Definition rmcp_resp (c : RmcpCall) : Type :=
  match c with
  | NewManager _ | ConfigureClient _ | ExchangeCodeForToken _ _ | RefreshToken => result unit RmcpError
  | ResolveMetadata => result (bool * AuthorizationMetadata) RmcpError
  | RegisterClient _ _ _ => result OAuthClientConfig RmcpError
  | GetAuthorizationUrl _ | GetAccessToken => result string RmcpError
  | InitializeFromStore => result (bool * option OAuthClientConfig) RmcpError
  end.

Section WebEffects.
Context `{WebPlatform}.

Inductive WEff : Type :=
| OnAuth (e : Eff)
| BuildHttpClient
| LookupHost (host : string) (port : Z)
| HttpSend (q : HttpRequest)
| InstantNow
| EnvVar (name : string)
| JwksRead
| JwksWriteLock
| JwksWrite (cached : CachedGoogleJwks)
| JwksWriteUnlock
| MetadataWriteLock (upstream : string)
| MetadataWrite (upstream : string) (metadata : AuthorizationMetadata)
| MetadataWriteUnlock (upstream : string)
| RefreshLock (upstream subject : string)
| RefreshUnlock (upstream subject : string)
| FailureGet (upstream subject : string)
| FailureInsert (upstream subject : string) (at_instant : Z)
| FailureRemove (upstream subject : string)
| Rmcp (manager : AuthorizationManager) (call : RmcpCall)
| Panicked.

Definition wresp (e : WEff) : Type :=
  match e with
  | OnAuth e => eresp e
  | BuildHttpClient => result unit string
  | LookupHost _ _ => result (list IpAddr) string
  | HttpSend _ => result HttpResponse string
  | InstantNow => Z
  | EnvVar _ => result string string
  | JwksRead | JwksWriteLock => option CachedGoogleJwks
  | MetadataWriteLock _ => option AuthorizationMetadata
  | FailureGet _ _ => option Z
  | Rmcp _ call => rmcp_resp call
  | JwksWrite _ | JwksWriteUnlock | MetadataWrite _ _ | MetadataWriteUnlock _ | RefreshLock _ _ | RefreshUnlock _ _
  | FailureInsert _ _ _ | FailureRemove _ _ => unit
  | Panicked => Empty_set
  end.

Notation W := (prog wresp).
Definition WTrace : Type := list (step_of wresp).
Definition weff (e : WEff) : W (wresp e) := trigger e.

(** A program of the authorization server inside an outbound program. *)
Fixpoint on_auth {A} (p : M A) : W A :=
  match p with
  | Ret a => Ret a
  | Vis e k => Vis (OnAuth e) (fun r => on_auth (k r))
  end.

(** A panic ends the task: no answer comes back. *)
Definition panic {A} : W A := Vis Panicked (fun r : Empty_set => match r with end).

(** [Instant + Duration], whole seconds: [Instant] counts nanoseconds with
    seconds in 64 bits, and overflow panics. *)
Definition NANOS : Z := 1000000000.
Definition instant_add_secs (t secs : Z) : option Z :=
  if bool_decide (t / NANOS + secs <= i64_max)%Z then Some (t + secs * NANOS)%Z else None.

(** ** Reasoning about embedded programs *)

Definition embed_step (s : step_of eresp) : step_of wresp :=
  match s with existT e r => existT (OnAuth e) r end.

Lemma always_on_auth {A} (p : M A) Q :
  always (on_auth p) Q ↔ always p (fun tr a => Q (embed_step <$> tr) a).
Proof.
  revert Q. induction p as [a|e k IH]; intros Q; cbn [on_auth always]; [done|].
  split; intros HQ r.
  - exact (proj1 (IH r (fun tr a => Q (existT (OnAuth e) r :: tr) a)) (HQ r)).
  - exact (proj2 (IH r (fun tr a => Q (existT (OnAuth e) r :: tr) a)) (HQ r)).
Qed.

Lemma paths_on_auth {A} (p : M A) tr a : paths p tr a → paths (on_auth p) (embed_step <$> tr) a.
Proof. induction 1; cbn; by constructor. Qed.

(** The database statements of a trace of an outbound program. *)
Definition auth_step (s : step_of wresp) : option (step_of eresp) :=
  match s with
  | existT e r =>
      match e as e return wresp e → option (step_of eresp) with
      | OnAuth e => fun r => Some (existT e r)
      | _ => fun _ => None
      end r
  end.
Definition auth_trace (tr : WTrace) : Trace := omap auth_step tr.

Lemma auth_trace_app a b : auth_trace (a ++ b) = auth_trace a ++ auth_trace b.
Proof. apply omap_app. Qed.
Lemma auth_trace_embed (tr : Trace) : auth_trace (embed_step <$> tr) = tr.
Proof. unfold auth_trace. induction tr as [|[e r] tr IH]; [done|]. cbn. by f_equal. Qed.

(** ** Steps a program may take *)

Definition only_wsteps (P : step_of wresp → Prop) {A} (p : W A) : Prop := always p (fun tr _ => Forall P tr).

Lemma wonly_ret P {A} (a : A) : only_wsteps P (Ret a).
Proof. constructor. Qed.
Lemma wonly_panic P {A} : only_wsteps P (panic (A := A)).
Proof. intros []. Qed.
Lemma wonly_bind P {A B} (p : W A) (f : A → W B) :
  only_wsteps P p → (∀ a, only_wsteps P (f a)) → only_wsteps P (pbind p f).
Proof.
  intros Hp Hf. eapply always_bind_spec; [exact Hp|]. intros tr a Htr. eapply always_mono; [apply Hf|].
  intros tr' b Htr'. by apply Forall_app_2.
Qed.
Lemma wonly_try P {A B Er} (p : W (result A Er)) (f : A → W (result B Er)) :
  only_wsteps P p → (∀ a, only_wsteps P (f a)) → only_wsteps P (try_bind p f).
Proof. intros Hp Hf. apply wonly_bind; [done|]. intros [a|e]; [apply Hf|apply wonly_ret]. Qed.
Lemma wonly_eff (P : step_of wresp → Prop) e : (∀ r, P (existT e r)) → only_wsteps P (weff e).
Proof. intros HP r. cbn. by constructor. Qed.
Lemma wonly_auth (P : step_of wresp → Prop) {A} (p : M A) :
  (∀ e r, P (existT (OnAuth e) r)) → only_wsteps P (on_auth p).
Proof.
  intros HP. apply always_on_auth. apply always_paths. intros tr a _. apply Forall_forall.
  intros s (st & -> & _)%list_elem_of_fmap. destruct st as [e r]. apply HP.
Qed.
Lemma wonly_lift P {A Er} (r : result A Er) : only_wsteps P (lift (resp := wresp) r).
Proof. constructor. Qed.
Lemma wonly_mono (P Q : step_of wresp → Prop) {A} (p : W A) :
  (∀ s, P s → Q s) → only_wsteps P p → only_wsteps Q p.
Proof. intros HPQ Hp. eapply always_mono; [exact Hp|]. intros tr a Hf. eapply Forall_impl; [exact Hf|exact HPQ]. Qed.

(** ** Rely-guarantee triples

    While the environment's answers satisfy [rely], every step of the program
    satisfies [guar] and its result [R]. *)

Section RelyGuarantee.
Context (rely guar : step_of wresp → Prop).

Definition rg {A} (p : W A) (R : A → Prop) : Prop :=
  always p (fun tr a => Forall rely tr → Forall guar tr ∧ R a).

Lemma rg_ret {A} (a : A) (R : A → Prop) : R a → rg (Ret a) R.
Proof. intros HR _. by split. Qed.
Lemma rg_panic {A} (R : A → Prop) : rg panic R.
Proof. intros []. Qed.
Lemma rg_bind {A B} (p : W A) (f : A → W B) (R : A → Prop) (R' : B → Prop) :
  rg p R → (∀ a, R a → rg (f a) R') → rg (pbind p f) R'.
Proof.
  intros Hp Hf. apply always_bind, always_paths. intros tr a Htr.
  pose proof (proj1 (always_paths _ _) Hp tr a Htr) as Ha. cbn beta in Ha.
  apply always_paths. intros tr' b Htr' [Hr Hr']%Forall_app. destruct (Ha Hr) as [Hg HR].
  pose proof (proj1 (always_paths _ _) (Hf a HR) tr' b Htr' Hr') as [Hg' HR'].
  split; [by apply Forall_app_2|done].
Qed.
Lemma rg_mono {A} (p : W A) (R R' : A → Prop) : rg p R → (∀ a, R a → R' a) → rg p R'.
Proof. intros Hp HR. eapply always_mono; [exact Hp|]. intros tr a Ha Hr. destruct (Ha Hr). auto. Qed.
(** The [?] operator: [R] of the success value, nothing of an error. *)
Lemma rg_try {A B Er} (p : W (result A Er)) (f : A → W (result B Er)) (R : A → Prop) (R' : B → Prop) :
  rg p (fun r => ∀ a, r = Ok a → R a) → (∀ a, R a → rg (f a) (fun r => ∀ b, r = Ok b → R' b)) →
  rg (try_bind p f) (fun r => ∀ b, r = Ok b → R' b).
Proof.
  intros Hp Hf. eapply rg_bind; [exact Hp|]. intros [a|e] Ha; [by apply Hf, Ha|]. apply rg_ret. by intros b [=].
Qed.
Lemma rg_eff (e : WEff) (R : wresp e → Prop) :
  (∀ r, rely (existT e r) → guar (existT e r) ∧ R r) → rg (weff e) R.
Proof. intros He r. cbn. intros [Hr _]%Forall_cons. destruct (He r Hr). by repeat constructor. Qed.
Lemma rg_auth {A} (p : M A) : (∀ e r, guar (existT (OnAuth e) r)) → rg (on_auth p) (fun _ => True).
Proof.
  intros HP. apply always_on_auth, always_paths. intros tr a _ _. split; [|done]. apply Forall_forall.
  intros s (st & -> & _)%list_elem_of_fmap. destruct st as [e r]. apply HP.
Qed.
(** A program whose steps are all guaranteed. *)
Lemma rg_only {A} (p : W A) : only_wsteps guar p → rg p (fun _ => True).
Proof. intros Hp. eapply always_mono; [exact Hp|]. by intros tr a Hg _. Qed.
End RelyGuarantee.

End WebEffects.

Notation W := (prog wresp).

Ltac wunroll := cbn [always pbind try_bind trigger weff lift map_err ok_or].
Ltac wunroll_in H := cbn [always pbind try_bind trigger weff lift map_err ok_or] in H.

Create HintDb wonly_db.
#[export] Hint Resolve wonly_ret wonly_lift wonly_panic : wonly_db.

(** Walks a program, one lemma per construct, splitting its branches. *)
Ltac solve_wonly :=
  repeat first
    [ solve [eauto with wonly_db nocore]
    | match goal with
      | |- only_wsteps _ (pbind _ _) => apply wonly_bind; [|intros ?]
      | |- only_wsteps _ (try_bind _ _) => apply wonly_try; [|intros ?]
      | |- only_wsteps _ (Ret _) => apply wonly_ret
      | |- only_wsteps _ (lift _) => apply wonly_lift
      | |- only_wsteps _ panic => apply wonly_panic
      | |- only_wsteps _ (weff _) => apply wonly_eff; intros ?; solve [done|exact I]
      | |- only_wsteps _ (on_auth _) => apply wonly_auth; intros ? ?; solve [done|exact I]
      | |- only_wsteps _ (match ?x with _ => _ end) => destruct x
      end ].
