(* ===== verification/Remote.v ===== *)
(** * Remote: documents fetched from other servers, and the Google client

    [labby-auth/src/remote.rs] (the pinned, size-limited fetch of OAuth
    documents) and [labby-auth/src/google.rs] (code exchange, refresh and the
    verification of ID tokens against Google's keys). *)

From Stdlib Require Import Ascii.
From stdpp Require Import base list gmap strings.
From S2P Require Import Prelude RustStr Prog AuthTypes SamplePlatform Store Effects Ssrf WebPlatform GatewayConfig WebEffects.

(** ** remote.rs *)

Definition MAX_DOCUMENT_BYTES : Z := 1048576.
Definition DEFAULT_CACHE_SECS : Z := 300.
Definition MAX_CACHE_SECS : Z := 3600.

(** The standard library's [is_broadcast], [is_documentation], [is_multicast]. *)
Definition is_broadcast (ip : Ipv4Addr) : bool := bool_decide (ip = V4 255 255 255 255).
Definition is_documentation (ip : Ipv4Addr) : bool :=
  bool_decide ((o0 ip, o1 ip, o2 ip) ∈ [(192, 0, 2); (198, 51, 100); (203, 0, 113)]%Z).
Definition is_multicast (ip : Ipv4Addr) : bool := bool_decide (224 <= o0 ip <= 239)%Z.
Definition v6_is_multicast (ip : Ipv6Addr) : bool := bool_decide (Z.land (g0 ip) 65280 = 65280%Z).

Definition is_public_ip (ip : IpAddr) : bool :=
  match ip with
  | IpV4 ip =>
      negb (is_broadcast ip) && negb (is_documentation ip) && negb (is_multicast ip) && negb (bool_decide (o0 ip = 0%Z))
      && negb (bool_decide (o0 ip = 192%Z) && bool_decide (o1 ip = 0%Z))
      && negb (bool_decide (o0 ip = 198%Z) && bool_decide (18 <= o1 ip <= 19)%Z)
      && bool_decide (o0 ip < 240)%Z
  | IpV6 ip =>
      negb (v6_is_multicast ip) && negb (bool_decide (Z.land (g0 ip) 65472 = 65216%Z))
      && negb (bool_decide (g0 ip = 8193%Z) && bool_decide (g1 ip = 3512%Z))
  end.

Definition default_cache_policy : CachePolicy := mkCachePolicy true DEFAULT_CACHE_SECS.

(** One directive of the header. *)
Definition cache_directive (policy : CachePolicy) (directive : string) : CachePolicy :=
  let directive := Str.trim directive in
  let policy := if Str.eq_ignore_ascii_case directive "no-store" || Str.eq_ignore_ascii_case directive "no-cache"
                then mkCachePolicy false (max_age_secs policy) else policy in
  match Str.split_once "=" directive with
  | None => policy
  | Some (name, raw_value) =>
      if Str.eq_ignore_ascii_case (Str.trim name) "max-age" then
        match parse_i64 (trim_matches (Ascii.eqb quote_char) (Str.trim raw_value)) with
        | Some seconds => mkCachePolicy (cacheable policy) (Z.max 0 (Z.min MAX_CACHE_SECS seconds))
        | None => policy
        end
      else policy
  end.
Definition cache_policy (value : option string) : CachePolicy :=
  match value with
  | None => default_cache_policy
  | Some value => fold_left cache_directive (Str.split "," value) default_cache_policy
  end.

Section Remote.
Context `{WebPlatform}.

(** [SsrfError::to_string]. *)
Definition ssrf_display (e : SsrfError) : string :=
  match e with
  | Ssrf.InvalidUrl message => message
  | BlockedIp context ip =>
      "`" +:+ context +:+ "` resolves to a private, loopback, link-local, CGNAT, or ULA address "
      +:+ ip_display ip +:+ "; blocked to prevent SSRF"
  | BlockedHost host => "host `" +:+ host +:+ "` is a local/loopback/private address"
  end.

(** The loop over the resolved addresses. *)
Fixpoint check_addresses (host : string) (addresses : list IpAddr) : result unit AuthError :=
  match addresses with
  | [] => Ok ()
  | address :: rest =>
      let? _ := map_err (fun e => Validation (ssrf_display e)) (check_ip_not_private address host) in
      if negb (is_public_ip address)
      then Err (Validation ("`" +:+ host +:+ "` resolves to non-global address " +:+ ip_display address
                            +:+ "; blocked to prevent SSRF"))
      else check_addresses host rest
  end.

Definition secure_get (url : Url) : W (result HttpResponse AuthError) :=
  match parse_validated_https_url (url_str url) with
  | Err error => ret_err (Validation (ssrf_display error))
  | Ok validated =>
      match url_host_str validated with
      | None => ret_err (Validation "metadata URL has no host")
      | Some host =>
          let port := match url_port_or_known_default validated with Some p => p | None => 443%Z end in
          let! addresses := weff (LookupHost host port) in
          match addresses with
          | Err error => ret_err (Network ("resolve OAuth metadata host: " +:+ error))
          | Ok [] => ret_err (Network "OAuth metadata host resolved to no addresses")
          | Ok addresses =>
              let!? _ := lift (check_addresses host addresses) in
              let! built := weff BuildHttpClient in
              match built with
              | Err error => ret_err (Config ("build OAuth metadata client: " +:+ error))
              | Ok _ =>
                  let! response := weff (HttpSend
                    (mkHttpRequest GET validated [] (Some "application/json") 5 false (Some (host, addresses)))) in
                  Ret (map_err (fun error => Network ("fetch OAuth metadata: " +:+ error)) response)
              end
          end
      end
  end.

(** The chunk loop, with the number of bytes gathered so far. *)
Fixpoint read_limited (document_name : string) (gathered : Z) (chunks : list (result string string)) :
  result string AuthError :=
  match chunks with
  | [] => Ok ""
  | Err error :: _ => Err (Network ("read " +:+ document_name +:+ ": " +:+ error))
  | Ok chunk :: rest =>
      if bool_decide (MAX_DOCUMENT_BYTES < Z.min usize_max (gathered + Str.len chunk))%Z
      then Err (Validation (document_name +:+ " exceeds 1 MiB"))
      else let? r := read_limited document_name (gathered + Str.len chunk) rest in Ok (chunk +:+ r)
  end.

Definition fetch_json {T} (of_json : string → result T string) (url : Url) (document_name : string) :
  W (result (T * CachePolicy) AuthError) :=
  let!? response := secure_get url in
  if is_error_status (hr_status response)
  then ret_err (Network ("fetch " +:+ document_name +:+ ": " +:+ status_error (hr_status response) url))
  else if is_some_and (fun length => bool_decide (MAX_DOCUMENT_BYTES < length)%Z) (hr_content_length response)
  then ret_err (Validation (document_name +:+ " exceeds 1 MiB"))
  else
    let policy := cache_policy (hr_cache_control response) in
    let!? bytes := lift (read_limited document_name 0 (hr_body response)) in
    Ret (match of_json bytes with
         | Ok value => Ok (value, policy)
         | Err error => Err (Validation ("invalid " +:+ document_name +:+ " JSON: " +:+ error))
         end).

(** ** google.rs *)

Definition GOOGLE_AUTHORIZE_ENDPOINT : string := "https://accounts.google.com/o/oauth2/v2/auth".
Definition GOOGLE_TOKEN_ENDPOINT : string := "https://oauth2.googleapis.com/token".
Definition GOOGLE_JWKS_ENDPOINT : string := "https://www.googleapis.com/oauth2/v3/certs".
Definition GOOGLE_ISSUER : string := "https://accounts.google.com".
Definition GOOGLE_HTTP_TIMEOUT : Z := 30.
Definition GOOGLE_JWKS_FETCH_TIMEOUT : Z := 5.
Definition GOOGLE_DEFAULT_JWKS_TTL : Z := 3600.

Definition parse_google_scopes (raw : string) : list string := merge_google_scopes [] (Str.split_whitespace raw).

Record GoogleRequestErrors := mkRequestErrors {
  transport_context : string;
  status_context : string;
  decode_context : string;
  invalid_grant_requires_reauth : bool;
}.

Definition u64_saturating_mul (a b : Z) : Z := Z.min u64_max (a * b).

(** The classification of the answer. *)
Definition json_outcome {T} (of_json : string → result T string) (request : HttpRequest)
    (errors : GoogleRequestErrors) (sent : result HttpResponse string) : result T AuthError :=
  match sent with
  | Err error => Err (Network (transport_context errors +:+ ": " +:+ error))
  | Ok response =>
      let status := hr_status response in
      let retry_after_ms :=
        match hr_retry_after response with
        | Some value => (fun seconds => u64_saturating_mul seconds 1000) <$> parse_uint u64_max value
        | None => None
        end in
      if is_error_status status then
        let error := status_error status (hq_url request) in
        Err (if bool_decide (status = 429%Z) then
               RateLimited (status_context errors +:+ ": " +:+ status_display status)
                 (match retry_after_ms with Some ms => ms | None => 1000%Z end)
             else if is_server_error status then Server (status_context errors +:+ ": " +:+ error)
             else if invalid_grant_requires_reauth errors
                  && match response_json google_error_of_json response with
                     | Ok payload => String.eqb (gt_error payload) "invalid_grant"
                     | Err _ => false
                     end
             then OauthNeedsReauth "google refresh token is expired or revoked; reauthorization required"
             else AuthFailed (status_context errors +:+ ": " +:+ error))
      else map_err (fun error => Decode (decode_context errors +:+ ": " +:+ error)) (response_json of_json response)
  end.

Definition read_json_response {T} (of_json : string → result T string) (request : HttpRequest)
    (errors : GoogleRequestErrors) : W (result T AuthError) :=
  let! sent := weff (HttpSend request) in Ret (json_outcome of_json request errors sent).

Definition google_provider_new (client_id client_secret : string) (redirect_uri : Url) :
  W (result GoogleProvider AuthError) :=
  let! built := weff BuildHttpClient in
  Ret (
  let? _ := map_err (fun error => Storage ("build google oauth http client: " +:+ error)) built in
  let? authorize_endpoint := map_err (fun error => Config ("parse google authorize endpoint: " +:+ error))
                               (url_parse GOOGLE_AUTHORIZE_ENDPOINT) in
  let? token_endpoint := map_err (fun error => Config ("parse google token endpoint: " +:+ error))
                           (url_parse GOOGLE_TOKEN_ENDPOINT) in
  let? jwks_endpoint := map_err (fun error => Config ("parse google jwks endpoint: " +:+ error))
                          (url_parse GOOGLE_JWKS_ENDPOINT) in
  Ok (mkGoogleProvider client_id client_secret redirect_uri ["openid"; "email"; "profile"]
        authorize_endpoint token_endpoint jwks_endpoint)).

Definition parse_max_age (cache_control : string) : option Z :=
  head (omap (fun directive =>
    value ← Str.strip_prefix "max-age=" (Str.trim directive); parse_uint u64_max value) (Str.split "," cache_control)).

Definition google_jwks_ttl (cache_control : option string) : Z :=
  match cache_control ≫= parse_max_age with Some secs => secs | None => GOOGLE_DEFAULT_JWKS_TTL end.

Definition validate_id_token_header (header : JwtHeader) : result unit AuthError :=
  if bool_decide (jh_alg header = RS256) then Ok ()
  else Err (Storage ("verify google id_token: unsupported algorithm `" +:+ algorithm_debug (jh_alg header) +:+ "`")).

(** [cached.expires_at > Instant::now()], read only when an entry exists. *)
Definition fresh (cached : option CachedGoogleJwks) : W (option GoogleJwks) :=
  match cached with
  | None => Ret None
  | Some cached =>
      let! now := weff InstantNow in
      Ret (if bool_decide (now < cj_expires_at cached)%Z then Some (cj_jwks cached) else None)
  end.

Definition cached_jwks : W (option GoogleJwks) := let! cache := weff JwksRead in fresh cache.

Definition refresh_jwks_locked (g : GoogleProvider) : W (result GoogleJwks AuthError) :=
  let! sent := weff (HttpSend (mkHttpRequest GET (gl_jwks_endpoint g) [] None GOOGLE_JWKS_FETCH_TIMEOUT true None)) in
  match sent with
  | Err error => ret_err (Storage ("fetch google jwks: " +:+ error))
  | Ok response =>
      let ttl := google_jwks_ttl (hr_cache_control response) in
      if is_error_status (hr_status response)
      then ret_err (Storage ("google jwks endpoint error: " +:+ status_error (hr_status response) (gl_jwks_endpoint g)))
      else match response_json google_jwks_of_json response with
      | Err error => ret_err (Storage ("decode google jwks response: " +:+ error))
      | Ok jwks =>
          let! now := weff InstantNow in
          match instant_add_secs now ttl with
          | None => panic
          | Some expires_at =>
              let! _ := weff (JwksWrite (mkCachedGoogleJwks jwks expires_at)) in
              ret_ok jwks
          end
      end
  end.

(** The write guard is dropped at the end of the block, on errors too. *)
Definition with_jwks_lock {A} (body : option CachedGoogleJwks → W A) : W A :=
  let! cache := weff JwksWriteLock in
  let! r := body cache in
  let! _ := weff JwksWriteUnlock in
  Ret r.

Definition fetch_jwks (g : GoogleProvider) : W (result GoogleJwks AuthError) :=
  let! cached := cached_jwks in
  match cached with
  | Some jwks => ret_ok jwks
  | None =>
      with_jwks_lock (fun cache =>
        let! cached := fresh cache in
        match cached with Some jwks => ret_ok jwks | None => refresh_jwks_locked g end)
  end.
Definition refresh_jwks (g : GoogleProvider) : W (result GoogleJwks AuthError) :=
  with_jwks_lock (fun _ => refresh_jwks_locked g).

Definition key_for (kid : string) (jwks : GoogleJwks) : option GoogleJwk :=
  find_first (fun key => String.eqb (gk_kid key) kid) (gk_keys jwks).

Definition find_jwk_for_kid (g : GoogleProvider) (kid : string) : W (result GoogleJwk AuthError) :=
  let!? jwks := fetch_jwks g in
  match key_for kid jwks with
  | Some key => ret_ok key
  | None =>
      let!? jwks := refresh_jwks g in
      Ret (ok_or (key_for kid jwks) (Storage "google id_token key id was not found in JWKS"))
  end.

Definition check_key_algorithm (key : GoogleJwk) : result unit AuthError :=
  match gk_alg key with
  | Some alg =>
      if String.eqb alg "RS256" then Ok ()
      else Err (Storage ("google JWKS key `" +:+ gk_kid key +:+ "` uses unsupported algorithm `" +:+ alg +:+ "`"))
  | None => Ok ()
  end.

Definition google_validation (g : GoogleProvider) : GoogleValidation :=
  mkGoogleValidation RS256 true 0 [gl_client_id g].

Definition verify_id_token (g : GoogleProvider) (id_token : string) : W (result GoogleIdTokenClaims AuthError) :=
  let!? header := lift (map_err (fun error => Storage ("verify google id_token: " +:+ error)) (id_token_header id_token)) in
  let!? _ := lift (validate_id_token_header header) in
  let!? kid := lift (ok_or (jh_kid header) (Storage "google id_token is missing a key id")) in
  let!? key := find_jwk_for_kid g kid in
  let!? _ := lift (check_key_algorithm key) in
  let!? decoding_key := lift (map_err (fun error => Storage ("build google id_token decoding key: " +:+ error))
                                (decoding_key_from_rsa (gk_n key) (gk_e key))) in
  let! clock := on_auth now_unix in
  let!? claims := lift (map_err (fun error => Storage ("invalid google id_token: " +:+ error))
                          (jwt_decode_google clock id_token decoding_key (google_validation g))) in
  if negb (String.eqb (gc_iss claims) GOOGLE_ISSUER) && negb (String.eqb (gc_iss claims) "accounts.google.com")
  then ret_err (Storage ("invalid google id_token issuer `" +:+ gc_iss claims +:+ "`"))
  else ret_ok claims.

Record GoogleIdentity := mkGoogleIdentity {
  gy_subject : string;
  gy_email : option string;
  gy_email_verified : option bool;
}.

Definition verify_identity (g : GoogleProvider) (id_token : string) : W (result GoogleIdentity AuthError) :=
  let!? claims := verify_id_token g id_token in
  ret_ok (mkGoogleIdentity (gc_sub claims) (gc_email claims) (gc_email_verified claims)).

Definition post_form (g : GoogleProvider) (form : list (string * string)) : HttpRequest :=
  mkHttpRequest POST (gl_token_endpoint g) form None GOOGLE_HTTP_TIMEOUT true None.

Definition exchange_code (g : GoogleProvider) (code code_verifier : string) : W (result GoogleExchange AuthError) :=
  let!? payload := read_json_response google_token_of_json
    (post_form g [("grant_type", "authorization_code"); ("code", code); ("client_id", gl_client_id g);
                  ("client_secret", gl_client_secret g); ("redirect_uri", url_str (gl_redirect_uri g));
                  ("code_verifier", code_verifier)])
    (mkRequestErrors "exchange google auth code" "google token endpoint error" "decode google token response" false) in
  let!? id_token := lift (ok_or (gt_id_token payload)
                            (Decode "google code exchange response is missing id_token")) in
  let!? claims := verify_id_token g id_token in
  ret_ok (mkGoogleExchange (gc_sub claims) (gc_email claims) (gc_email_verified claims) (gt_access_token payload)
            (gt_refresh_token payload) (gt_expires_in payload)
            (match gt_scope payload with Some scope => parse_google_scopes scope | None => gl_scopes g end)
            (gt_id_token payload)).

Definition refresh (g : GoogleProvider) (refresh_token expected_subject : string) (existing_email : option string) :
  W (result GoogleExchange AuthError) :=
  let!? payload := read_json_response google_token_of_json
    (post_form g [("grant_type", "refresh_token"); ("refresh_token", refresh_token); ("client_id", gl_client_id g);
                  ("client_secret", gl_client_secret g)])
    (mkRequestErrors "refresh google token" "google refresh endpoint error" "decode google refresh response" true) in
  let!? identity :=
    match gt_id_token payload with
    | Some id_token =>
        let!? claims := verify_id_token g id_token in
        ret_ok (gc_sub claims, gc_email claims, gc_email_verified claims)
    | None => ret_ok (expected_subject, existing_email, match existing_email with Some _ => Some true | None => None end)
    end in
  let '(subject, email, email_verified) := identity in
  ret_ok (mkGoogleExchange subject email email_verified (gt_access_token payload) (gt_refresh_token payload)
            (gt_expires_in payload)
            (match gt_scope payload with Some scope => parse_google_scopes scope | None => [] end)
            (gt_id_token payload)).

End Remote.
