(* ===== verification/RemoteProps.v ===== *)
(** * RemoteProps: what the outbound clients guarantee

    Documents are only fetched from pinned public addresses and within their
    size limit; an identity returned by the Google client comes from an ID
    token verified against Google's keys; and the request handlers, run with
    these clients in place of abstract answers, keep their properties. *)

From Stdlib Require Import Ascii.
From stdpp Require Import base gmap strings sets list.
From S2P Require Import Prelude RustStr Prog AuthTypes SamplePlatform Store Effects Ssrf WebPlatform GatewayConfig WebEffects Remote.

Section RemoteProps.
Context `{WebPlatform}.

(** ** Document fetches *)

Lemma cache_directive_range p d : (0 <= max_age_secs p <= MAX_CACHE_SECS)%Z →
  (0 <= max_age_secs (cache_directive p d) <= MAX_CACHE_SECS)%Z.
Proof.
  intros Hp. unfold cache_directive. set (p' := if (_ || _) then mkCachePolicy false (max_age_secs p) else p).
  assert (Hp' : (0 <= max_age_secs p' <= MAX_CACHE_SECS)%Z) by (subst p'; by destruct (_ || _)).
  clearbody p'. destruct (Str.split_once _ _) as [[name raw]|]; [|done].
  destruct (Str.eq_ignore_ascii_case _ _); [|done]. destruct (parse_i64 _) as [n|]; [|done].
  unfold MAX_CACHE_SECS. simpl. lia.
Qed.

Lemma cache_policy_range v : (0 <= max_age_secs (cache_policy v) <= MAX_CACHE_SECS)%Z.
Proof.
  destruct v as [v|]; [|done]. unfold cache_policy.
  assert (Hd : (0 <= max_age_secs default_cache_policy <= MAX_CACHE_SECS)%Z) by done.
  revert Hd. generalize default_cache_policy as p. induction (Str.split "," v) as [|d l IH]; intros p Hp; [done|].
  simpl. by apply IH, cache_directive_range.
Qed.

Lemma check_addresses_ok host addresses :
  check_addresses host addresses = Ok () →
  Forall (fun ip => check_ip_not_private ip host = Ok () ∧ is_public_ip ip = true) addresses.
Proof.
  induction addresses as [|ip rest IH]; simpl; [constructor|].
  destruct (check_ip_not_private ip host) as [[]|] eqn:E; [|done]. simpl.
  destruct (is_public_ip ip) eqn:Ep; [|done]. constructor; auto.
Qed.

(** A request that only reaches public addresses of the validated host. *)
Definition pinned_request (url : Url) (q : HttpRequest) : Prop :=
  hq_method q = GET ∧ parse_validated_https_url (url_str url) = Ok (hq_url q) ∧ hq_follow_redirects q = false
  ∧ ∃ host addresses, url_host_str (hq_url q) = Some host ∧ hq_pinned q = Some (host, addresses) ∧ addresses ≠ []
    ∧ Forall (fun ip => check_ip_not_private ip host = Ok () ∧ is_public_ip ip = true) addresses.

Definition sends_pinned (url : Url) (tr : WTrace) : Prop := ∀ q r, existT (HttpSend q) r ∈ tr → pinned_request url q.

Lemma elem_step_inv {e e' : WEff} (r : wresp e) (r' : wresp e') (tr : WTrace) :
  existT e r ∈ existT e' r' :: tr → existT e r = existT e' r' ∨ existT e r ∈ tr.
Proof. by rewrite elem_of_cons. Qed.

Lemma secure_get_pinned url : always (secure_get url) (fun tr _ => sends_pinned url tr).
Proof.
  unfold secure_get. destruct (parse_validated_https_url (url_str url)) as [v|] eqn:Ev; [|intros q r Hq; by apply elem_of_nil in Hq].
  destruct (url_host_str v) as [host|] eqn:Eh; [|intros q r Hq; by apply elem_of_nil in Hq].
  wunroll. intros [[|ip ips]|e]; wunroll;
    try (intros q r Hq; apply elem_step_inv in Hq as [Hq|Hq]; [by simplify_eq|by apply elem_of_nil in Hq]).
  destruct (check_addresses host (ip :: ips)) as [[]|] eqn:Ea; wunroll;
    [|intros q r Hq; apply elem_step_inv in Hq as [Hq|Hq]; [by simplify_eq|by apply elem_of_nil in Hq]].
  intros [[]|e]; wunroll;
    [|intros q r Hq; do 2 (apply elem_step_inv in Hq as [Hq|Hq]; [by simplify_eq|]); by apply elem_of_nil in Hq].
  intros rsp. wunroll. intros q r Hq. do 2 (apply elem_step_inv in Hq as [Hq|Hq]; [by simplify_eq|]).
  apply elem_step_inv in Hq as [Hq|Hq]; [|by apply elem_of_nil in Hq].
  assert (q = mkHttpRequest GET v [] (Some "application/json") 5 false (Some (host, ip :: ips))) as ->
    by by injection Hq.
  split_and!; try done. exists host, (ip :: ips). split_and!; try done. by apply check_addresses_ok.
Qed.

Lemma read_limited_len name gathered chunks bytes :
  read_limited name gathered chunks = Ok bytes → (0 <= gathered)%Z → (gathered <= MAX_DOCUMENT_BYTES)%Z →
  (gathered + Str.len bytes <= MAX_DOCUMENT_BYTES)%Z.
Proof.
  revert gathered bytes. induction chunks as [|[c|e] rest IH]; intros gathered bytes; simpl; [|  |done].
  - intros [= <-]. unfold Str.len. simpl. lia.
  - case_bool_decide as Hc; [done|]. destruct (read_limited name _ rest) as [r|] eqn:Er; [|done].
    intros [= <-] H0' Hg. apply IH in Er; unfold MAX_DOCUMENT_BYTES, usize_max, u64_max, Str.len in *;
      rewrite ?Str.length_app; lia.
Qed.

(** Remote OAuth documents: every request goes to the validated HTTPS URL
    without redirects, pinned to a non-empty list of public addresses, and an
    accepted document has at most 1 MiB and a cache lifetime of at most an
    hour. *)
Theorem document_fetch_safe {T} (of_json : string → result T string) url name :
  always (fetch_json of_json url name) (fun tr r =>
    sends_pinned url tr ∧
    ∀ value policy, r = Ok (value, policy) →
      ∃ bytes, of_json bytes = Ok value ∧ (Str.len bytes <= MAX_DOCUMENT_BYTES)%Z
        ∧ (0 <= max_age_secs policy <= MAX_CACHE_SECS)%Z).
Proof.
  unfold fetch_json. eapply always_try_spec; [apply secure_get_pinned| |by intros tr e Hp].
  intros tr rsp Hp. cbn beta. destruct (is_error_status _); [wunroll; by rewrite app_nil_r|].
  destruct (is_some_and _ _); [wunroll; by rewrite app_nil_r|].
  destruct (read_limited name 0 (hr_body rsp)) as [bytes|e] eqn:Er; wunroll; rewrite app_nil_r; [|done].
  split; [done|]. intros value policy. destruct (of_json bytes) as [v|] eqn:Ej; [|done]. intros [= -> <-].
  exists bytes. split_and!; [done| |apply cache_policy_range|apply cache_policy_range].
  apply read_limited_len in Er; unfold MAX_DOCUMENT_BYTES in *; lia.
Qed.

(** The check of the resolved addresses does not undo the IPv4-mapped form of
    IPv6 for the ranges it adds to the shared policy. *)
Example mapped_benchmark_address :
  let v4 := IpV4 (V4 198 18 0 1) in
  let mapped := IpV6 (V6 0 0 0 0 0 65535 50706 1) in
  normalize_ip mapped = v4 ∧ is_public_ip v4 = false
  ∧ check_ip_not_private mapped "h" = Ok () ∧ is_public_ip mapped = true.
Proof. vm_compute. by split_and!. Qed.

(** ** ID tokens *)

(** The key set was served by Google's endpoint in this request, or by the
    cache before it expired. *)
Definition jwks_from (g : GoogleProvider) (tr : WTrace) (jwks : GoogleJwks) : Prop :=
  (∃ q response, existT (HttpSend q) (Ok response) ∈ tr ∧ hq_url q = gl_jwks_endpoint g
     ∧ is_error_status (hr_status response) = false ∧ response_json google_jwks_of_json response = Ok jwks)
  ∨ (∃ cached now, (existT JwksRead (Some cached) ∈ tr ∨ existT JwksWriteLock (Some cached) ∈ tr)
     ∧ existT InstantNow now ∈ tr ∧ (now < cj_expires_at cached)%Z ∧ cj_jwks cached = jwks).

Lemma jwks_from_mono g (l m r : WTrace) jwks : jwks_from g m jwks → jwks_from g (l ++ m ++ r) jwks.
Proof.
  assert (Hin : ∀ s : step_of wresp, s ∈ m → s ∈ l ++ m ++ r) by (intros s; rewrite !elem_of_app; auto).
  intros [(q & rsp & Hs & Hr)|(c & now & Hc & Hn & Hr)]; [left; eauto|right].
  exists c, now. split_and!; try naive_solver.
Qed.
Lemma jwks_from_l g (m r : WTrace) jwks : jwks_from g m jwks → jwks_from g (m ++ r) jwks.
Proof. apply (jwks_from_mono g []). Qed.
Lemma jwks_from_r g (l m : WTrace) jwks : jwks_from g m jwks → jwks_from g (l ++ m) jwks.
Proof. intros Hm. rewrite <- (app_nil_r m). by apply jwks_from_mono. Qed.

Lemma fresh_spec cached :
  always (fresh cached) (fun tr r => ∀ jwks, r = Some jwks →
    ∃ c now, cached = Some c ∧ existT InstantNow now ∈ tr ∧ (now < cj_expires_at c)%Z ∧ cj_jwks c = jwks).
Proof.
  destruct cached as [c|]; wunroll; [|done]. intros now. wunroll. intros jwks Hj. case_bool_decide; [|done].
  injection Hj as <-. exists c, now. split_and!; try done. by left.
Qed.

Lemma refresh_jwks_locked_spec g :
  always (refresh_jwks_locked g) (fun tr r => ∀ jwks, r = Ok jwks → jwks_from g tr jwks).
Proof.
  unfold refresh_jwks_locked. wunroll. intros [rsp|e]; wunroll; [|done].
  destruct (is_error_status (hr_status rsp)) eqn:Es; wunroll; [done|].
  destruct (response_json _ rsp) as [jwks|] eqn:Ej; wunroll; [|done]. intros now.
  destruct (instant_add_secs now _) as [t|]; wunroll; [|by intros []]. intros []. wunroll.
  intros ? [= <-]. left. eexists _, rsp. split_and!; [by left|done..].
Qed.

Lemma with_jwks_lock_spec {A} (body : option CachedGoogleJwks → W A) (Q : option CachedGoogleJwks → WTrace → A → Prop) :
  (∀ c, always (body c) (Q c)) →
  always (with_jwks_lock body) (fun tr a => ∃ c mid, tr = existT JwksWriteLock c :: mid ++ [existT JwksWriteUnlock ()] ∧ Q c mid a).
Proof.
  intros Hb. unfold with_jwks_lock. wunroll. intros c. apply always_bind. eapply always_mono; [apply Hb|].
  intros mid a HQ. wunroll. intros []. wunroll. exists c, mid. done.
Qed.

Lemma locked_from g c mid jwks :
  jwks_from g mid jwks → jwks_from g (existT JwksWriteLock c :: mid ++ [existT JwksWriteUnlock ()]) jwks.
Proof. apply (jwks_from_mono g [existT JwksWriteLock c]). Qed.

Lemma google_jwks_spec g : always (fetch_jwks g) (fun tr r => ∀ jwks, r = Ok jwks → jwks_from g tr jwks).
Proof.
  unfold fetch_jwks, cached_jwks. wunroll. intros cache. apply always_bind.
  eapply always_mono; [apply fresh_spec|]. intros tr [jwks|] Hf.
  { wunroll. rewrite app_nil_r. intros ? [= <-]. destruct (Hf _ eq_refl) as (c & now & -> & Hn & Hx).
    right. exists c, now. split; [left; by left|]. split; [by right|done]. }
  eapply always_mono; [apply (with_jwks_lock_spec _ (fun c mid r => ∀ jwks, r = Ok jwks →
    jwks_from g (existT JwksWriteLock c :: mid ++ [existT JwksWriteUnlock ()]) jwks))|].
  - intros c. eapply always_bind_spec; [apply fresh_spec|]. intros mid [jwks|] Hm.
    + wunroll. rewrite app_nil_r. intros ? [= <-]. destruct (Hm _ eq_refl) as (c' & now & -> & Hn & Hx).
      right. exists c', now. split; [right; by left|]. split; [|done]. right. rewrite elem_of_app. by left.
    + eapply always_mono; [apply refresh_jwks_locked_spec|]. intros mid' r Hr jwks Hj.
      apply locked_from, jwks_from_r. eauto.
  - intros tr' r (c & mid & -> & Hr) jwks Hj. apply (jwks_from_r g (existT JwksRead cache :: tr)), Hr, Hj.
Qed.

Lemma refresh_jwks_spec g : always (refresh_jwks g) (fun tr r => ∀ jwks, r = Ok jwks → jwks_from g tr jwks).
Proof.
  eapply always_mono; [apply (with_jwks_lock_spec _ (fun _ mid r => ∀ jwks, r = Ok jwks → jwks_from g mid jwks));
    intros _; apply refresh_jwks_locked_spec|].
  intros tr r (c & mid & -> & Hr) jwks Hj. by apply locked_from, Hr.
Qed.

Definition key_from (g : GoogleProvider) (tr : WTrace) (kid : string) (key : GoogleJwk) : Prop :=
  ∃ jwks, jwks_from g tr jwks ∧ key ∈ gk_keys jwks ∧ gk_kid key = kid.

Lemma key_for_Some kid jwks key : key_for kid jwks = Some key → key ∈ gk_keys jwks ∧ gk_kid key = kid.
Proof. intros Hk. apply find_first_Some in Hk as [? Hk]. split; [done|by apply String.eqb_eq]. Qed.

Lemma find_jwk_spec g kid : always (find_jwk_for_kid g kid) (fun tr r => ∀ key, r = Ok key → key_from g tr kid key).
Proof.
  unfold find_jwk_for_kid. eapply always_try_spec; [apply google_jwks_spec| |by intros].
  intros tr jwks Hj. cbn beta in Hj. specialize (Hj jwks eq_refl). cbn beta.
  destruct (key_for kid jwks) as [key|] eqn:Ek.
  { wunroll. rewrite app_nil_r. intros ? [= <-]. exists jwks. split; [done|by apply key_for_Some]. }
  eapply always_try_spec; [apply refresh_jwks_spec| |by intros].
  intros tr' jwks' Hj'. cbn beta in *. wunroll. intros key Hk. exists jwks'.
  destruct (key_for kid jwks') as [key'|] eqn:Ek'; [|done]. injection Hk as <-.
  split; [|by apply key_for_Some]. apply jwks_from_r, jwks_from_l. by apply Hj'.
Qed.

(** The claims were decoded from the token with a key of Google's, for this
    client, unexpired, and issued by Google. *)
Definition id_token_verified (g : GoogleProvider) (tr : WTrace) (id_token : string) (claims : GoogleIdTokenClaims) : Prop :=
  ∃ header kid key decoding_key clock,
    id_token_header id_token = Ok header ∧ jh_alg header = RS256 ∧ jh_kid header = Some kid
    ∧ key_from g tr kid key ∧ (gk_alg key = None ∨ gk_alg key = Some "RS256")
    ∧ decoding_key_from_rsa (gk_n key) (gk_e key) = Ok decoding_key
    ∧ existT (OnAuth Now) clock ∈ tr
    ∧ jwt_decode_google clock id_token decoding_key (mkGoogleValidation RS256 true 0 [gl_client_id g]) = Ok claims
    ∧ gc_iss claims ∈ ["https://accounts.google.com"; "accounts.google.com"].

Lemma id_token_verified_r g (l m : WTrace) t c : id_token_verified g m t c → id_token_verified g (l ++ m) t c.
Proof.
  intros (h & kid & key & dk & clock & H1 & H2 & H3 & (jwks & Hj & Hk) & H5 & H6 & H7 & H8).
  exists h, kid, key, dk, clock. split_and!; try done.
  - exists jwks. split; [by apply jwks_from_r|done].
  - rewrite elem_of_app. by right.
  - apply H8.
  - apply H8.
Qed.

Lemma verify_id_token_spec g t :
  always (verify_id_token g t) (fun tr r => ∀ claims, r = Ok claims → id_token_verified g tr t claims).
Proof.
  unfold verify_id_token. destruct (id_token_header t) as [header|] eqn:Eh; wunroll; [|done].
  unfold validate_id_token_header. case_bool_decide as Ea; wunroll; [|done].
  destruct (jh_kid header) as [kid|] eqn:Ek; wunroll; [|done].
  eapply always_try_spec; [apply find_jwk_spec| |by intros]. intros tr key Hk. cbn beta in *.
  specialize (Hk key eq_refl). destruct (check_key_algorithm key) as [[]|] eqn:Eg; wunroll; [|done].
  assert (Halg : gk_alg key = None ∨ gk_alg key = Some "RS256").
  { unfold check_key_algorithm in Eg. destruct (gk_alg key) as [alg|]; [|by left].
    destruct (String.eqb alg "RS256") eqn:Er; [|done]. apply String.eqb_eq in Er. rewrite Er. by right. }
  destruct (decoding_key_from_rsa (gk_n key) (gk_e key)) as [dk|] eqn:Ed; wunroll; [|done].
  cbn [on_auth now_unix eff trigger pbind always]. intros clock.
  destruct (jwt_decode_google clock t dk (google_validation g)) as [claims|] eqn:Ej; wunroll; [|done].
  destruct (negb _ && negb _) eqn:Ei; wunroll; [done|]. intros ? [= <-].
  exists header, kid, key, dk, clock. split_and!; try done.
  - destruct Hk as (jwks & Hj & Hk). exists jwks. split; [by apply jwks_from_l|done].
  - rewrite elem_of_app. right. by left.
  - apply andb_false_iff in Ei. rewrite !elem_of_cons.
    destruct Ei as [Ei|Ei]; apply negb_false_iff, String.eqb_eq in Ei; auto.
Qed.

(** The verified account of an exchange. *)
Definition exchange_verified (g : GoogleProvider) (tr : WTrace) (x : GoogleExchange) : Prop :=
  ∃ id_token claims, ge_id_token x = Some id_token ∧ id_token_verified g tr id_token claims
    ∧ ge_subject x = gc_sub claims ∧ ge_email x = gc_email claims ∧ ge_email_verified x = gc_email_verified claims.

(** The token endpoint answered a form with a payload, and the tokens of an
    exchange are those of the payload. *)
Definition token_answered (g : GoogleProvider) (tr : WTrace) (form : list (string * string)) (payload : GoogleTokenResponse) : Prop :=
  ∃ response, existT (HttpSend (post_form g form)) (Ok response) ∈ tr ∧ is_error_status (hr_status response) = false ∧
    response_json google_token_of_json response = Ok payload.
Definition tokens_of (payload : GoogleTokenResponse) (x : GoogleExchange) : Prop :=
  ge_id_token x = gt_id_token payload ∧ ge_access_token x = gt_access_token payload ∧
  ge_refresh_token x = gt_refresh_token payload ∧ ge_expires_in x = gt_expires_in payload.

Lemma json_outcome_Ok {T} (of_json : string → result T string) q errors sent payload :
  json_outcome of_json q errors sent = Ok payload →
  ∃ response, sent = Ok response ∧ is_error_status (hr_status response) = false ∧ response_json of_json response = Ok payload.
Proof.
  unfold json_outcome. destruct sent as [rsp|]; [|done]. destruct (is_error_status _) eqn:Es; [done|].
  destruct (response_json of_json rsp) as [v|] eqn:Ev; [|done]. intros [= <-]. eauto.
Qed.

(** The code was redeemed at the token endpoint with this verifier, and the
    account is that of the ID token in its answer, verified. *)
Definition code_exchanged (g : GoogleProvider) (tr : WTrace) (code verifier : string) (x : GoogleExchange) : Prop :=
  ∃ payload,
    token_answered g tr [("grant_type", "authorization_code"); ("code", code); ("client_id", gl_client_id g);
      ("client_secret", gl_client_secret g); ("redirect_uri", url_str (gl_redirect_uri g)); ("code_verifier", verifier)] payload ∧
    tokens_of payload x ∧ exchange_verified g tr x.

(** The refresh token was sent to the token endpoint; an ID token in its answer
    was verified and gives the account, and without one the account is the one
    the refresh token was stored for. *)
Definition token_refreshed (g : GoogleProvider) (tr : WTrace) (token subject : string) (email : option string) (x : GoogleExchange) : Prop :=
  ∃ payload,
    token_answered g tr [("grant_type", "refresh_token"); ("refresh_token", token); ("client_id", gl_client_id g);
      ("client_secret", gl_client_secret g)] payload ∧
    tokens_of payload x ∧
    match gt_id_token payload with
    | Some _ => exchange_verified g tr x
    | None => ge_subject x = subject ∧ ge_email x = email ∧ ge_email_verified x = (if email then Some true else None)
    end.

Lemma exchange_code_spec g code verifier :
  always (exchange_code g code verifier) (fun tr r => ∀ x, r = Ok x → code_exchanged g tr code verifier x).
Proof.
  unfold exchange_code, read_json_response. wunroll. intros sent.
  destruct (json_outcome _ _ _ sent) as [payload|] eqn:Ep; wunroll; [|done].
  apply json_outcome_Ok in Ep as (rsp & -> & Hst & Hj).
  destruct (gt_id_token payload) as [t|] eqn:Et; wunroll; [|done].
  eapply always_try_spec; [apply verify_id_token_spec| |by intros]. intros tr claims Hv. cbn beta in *.
  specialize (Hv claims eq_refl). wunroll. intros x [= <-]. rewrite app_nil_r. exists payload. split_and!.
  - exists rsp. split; [by left|done].
  - unfold tokens_of. by rewrite Et.
  - exists t, claims. split; [done|]. split; [by apply (id_token_verified_r g [_])|done].
Qed.

Lemma refresh_spec g token subject email :
  always (refresh g token subject email) (fun tr r => ∀ x, r = Ok x → token_refreshed g tr token subject email x).
Proof.
  unfold refresh, read_json_response. wunroll. intros sent.
  destruct (json_outcome _ _ _ sent) as [payload|] eqn:Ep; wunroll; [|done].
  apply json_outcome_Ok in Ep as (rsp & -> & Hst & Hj).
  destruct (gt_id_token payload) as [t|] eqn:Et.
  - eapply (always_try_spec _ _ (fun tr r => ∀ i, r = Ok i → ∃ claims, id_token_verified g tr t claims
      ∧ i = (gc_sub claims, gc_email claims, gc_email_verified claims))); [| |by intros].
    + eapply always_try_spec; [apply verify_id_token_spec| |by intros]. intros tr claims Hv. cbn beta in *. wunroll.
      rewrite app_nil_r. intros i [= <-]. eauto.
    + intros tr i Hi. destruct (Hi i eq_refl) as (claims & Hv & ->). wunroll. rewrite app_nil_r. intros x [= <-].
      exists payload. unfold tokens_of. rewrite Et. split_and!; [exists rsp; split; [by left|done]|done..|].
      exists t, claims. split; [done|]. split; [by apply (id_token_verified_r g [_])|done].
  - wunroll. intros x [= <-]. exists payload. unfold tokens_of. rewrite Et. split_and!; [exists rsp; split; [by left|done]|done..|].
    by destruct email.
Qed.

(** ** When a refresh asks for a new authorization *)

Definition is_reauth (e : AuthError) : bool := match e with OauthNeedsReauth _ => true | _ => false end.

(** The answer of the token endpoint that means the grant is gone. *)
Definition says_invalid_grant (response : HttpResponse) : Prop :=
  is_client_error (hr_status response) = true ∧ hr_status response ≠ 429%Z
  ∧ ∃ payload, response_json google_error_of_json response = Ok payload ∧ gt_error payload = "invalid_grant".

Lemma json_outcome_reauth {T} (of_json : string → result T string) q errors sent e :
  json_outcome of_json q errors sent = Err e → is_reauth e = true →
  ∃ response, sent = Ok response ∧ says_invalid_grant response.
Proof.
  unfold json_outcome. destruct sent as [rsp|]; [|by intros [= <-]].
  destruct (is_error_status (hr_status rsp)) eqn:Es.
  - intros [= <-]. case_bool_decide as E9; [done|]. destruct (is_server_error _) eqn:E5; [done|].
    destruct (_ && _) eqn:Eg; [|done]. intros _. exists rsp. split; [done|]. split_bools.
    unfold is_error_status in Es. rewrite E5, orb_false_r in Es. split_and!; [done|done|].
    destruct (response_json _ rsp) as [payload|]; [|done]. exists payload. split; [done|by apply String.eqb_eq].
  - destruct (response_json _ rsp); [done|]. by intros [= <-].
Qed.


Definition no_reauth {T} (p : W (result T AuthError)) : Prop :=
  always p (fun _ r => ∀ e, r = Err e → is_reauth e = false).

Lemma no_reauth_try {A B} (p : W (result A AuthError)) (f : A → W (result B AuthError)) :
  no_reauth p → (∀ a, no_reauth (f a)) → no_reauth (try_bind p f).
Proof.
  intros Hp Hf. eapply always_try_spec; [exact Hp| |intros tr e He e' [= <-]; by apply He].
  intros tr a _. eapply always_mono; [apply Hf|]. done.
Qed.
Lemma no_reauth_bind {A B} (p : W A) (f : A → W (result B AuthError)) :
  (∀ a, no_reauth (f a)) → no_reauth (pbind p f).
Proof.
  intros Hf. eapply always_bind_spec; [apply always_trivial|]. intros tr a _. eapply always_mono; [apply Hf|]. done.
Qed.
Lemma no_reauth_ret {T} (r : result T AuthError) :
  match r with Err e => is_reauth e | Ok _ => false end = false → no_reauth (Ret r).
Proof. intros Hr e ->. done. Qed.

Lemma lock_no_reauth {T} (body : option CachedGoogleJwks → W (result T AuthError)) :
  (∀ c, no_reauth (body c)) → no_reauth (with_jwks_lock body).
Proof.
  intros Hb. eapply always_mono; [apply (with_jwks_lock_spec _ (fun _ _ r => ∀ e, r = Err e → is_reauth e = false)), Hb|].
  intros tr r (c & mid & _ & Hr). done.
Qed.

Ltac solve_no_reauth :=
  repeat match goal with
  | |- no_reauth (try_bind _ _) => apply no_reauth_try; [|intros ?]
  | |- no_reauth (pbind _ _) => apply no_reauth_bind; intros ?
  | |- no_reauth (Ret _) => apply no_reauth_ret; unfold ok_or, map_err; solve [repeat (case_match; simplify_eq/=); done]
  | |- no_reauth (lift _) => apply no_reauth_ret; unfold ok_or, map_err; solve [repeat (case_match; simplify_eq/=); done]
  | |- no_reauth (with_jwks_lock _) => apply lock_no_reauth; intros ?
  | |- no_reauth panic => intros []
  | |- no_reauth (match ?x with _ => _ end) => destruct x
  end.

Lemma refresh_locked_no_reauth g : no_reauth (refresh_jwks_locked g).
Proof. unfold refresh_jwks_locked. solve_no_reauth. Qed.
Lemma verify_no_reauth g t : no_reauth (verify_id_token g t).
Proof.
  unfold verify_id_token, find_jwk_for_kid, fetch_jwks, refresh_jwks, validate_id_token_header, check_key_algorithm.
  solve_no_reauth; apply refresh_locked_no_reauth.
Qed.

(** ** The handlers with their clients *)

(** What a request made for Google looks like. *)
Definition google_request (g : GoogleProvider) (q : HttpRequest) : Prop :=
  hq_url q = gl_token_endpoint g ∧ hq_method q = POST ∨ hq_url q = gl_jwks_endpoint g ∧ hq_method q = GET.

(** Every HTTP request of the step satisfies [P]. *)
Definition send_step (P : HttpRequest → Prop) (s : step_of wresp) : Prop :=
  match projT1 s with HttpSend q => P q | _ => True end.

Lemma refresh_jwks_locked_sends g : only_wsteps (send_step (google_request g)) (refresh_jwks_locked g).
Proof.
  unfold refresh_jwks_locked. apply wonly_bind; [apply wonly_eff; intros r; by right|]. intros r.
  solve_wonly.
Qed.
#[local] Hint Resolve refresh_jwks_locked_sends : wonly_db.
Lemma verify_id_token_sends g t : only_wsteps (send_step (google_request g)) (verify_id_token g t).
Proof.
  unfold verify_id_token, find_jwk_for_kid, fetch_jwks, refresh_jwks, cached_jwks, with_jwks_lock, fresh. solve_wonly.
Qed.
#[local] Hint Resolve verify_id_token_sends : wonly_db.
Lemma read_json_sends {T} (of_json : string → result T string) g form errors :
  only_wsteps (send_step (google_request g)) (read_json_response of_json (post_form g form) errors).
Proof. apply wonly_bind; [apply wonly_eff; intros r; by left|]. intros r. solve_wonly. Qed.
#[local] Hint Resolve read_json_sends : wonly_db.
Lemma exchange_code_sends g code verifier : only_wsteps (send_step (google_request g)) (exchange_code g code verifier).
Proof. unfold exchange_code. solve_wonly. Qed.
Lemma refresh_sends g t s e : only_wsteps (send_step (google_request g)) (refresh g t s e).
Proof. unfold refresh. solve_wonly. Qed.

Lemma fetch_json_sends {T} (of_json : string → result T string) url name :
  only_wsteps (send_step (pinned_request url)) (fetch_json of_json url name).
Proof.
  apply wonly_try.
  - eapply always_mono; [apply secure_get_pinned|]. intros tr a Hp. apply Forall_forall. intros [e r] Hs.
    unfold send_step. cbn [projT1]. destruct e; try done. by eapply Hp.
  - intros rsp. cbv beta zeta. solve_wonly.
Qed.

Section Serve.
Context (client_document_of_json : string → result Effects.ClientMetadataDocument string) (g : GoogleProvider).

(** The client behind each effect of the handlers. *)
Definition answer (e : Eff) : W (eresp e) :=
  match e with
  | GoogleExchangeCode code verifier => exchange_code g code verifier
  | GoogleRefreshToken token subject email => refresh g token subject email
  | FetchClientDocument url => fetch_json client_document_of_json url "client metadata document"
  | FetchJwks url => fetch_json jwks_of_json url "enterprise JWKS"
  | e => weff (OnAuth e)
  end.

Fixpoint serve {A} (p : M A) : W A :=
  match p with
  | Ret a => Ret a
  | Vis e k => let! r := answer e in serve (k r)
  end.

(** The steps of the handler, each with the steps of the client behind it. *)
Inductive served : Trace → WTrace → Prop :=
| served_nil : served [] []
| served_step e r tr seg wtr : paths (answer e) seg r → served tr wtr → served (existT e r :: tr) (seg ++ wtr).

Lemma serve_paths {A} (p : M A) : always (serve p) (fun wtr a => ∃ tr, paths p tr a ∧ served tr wtr).
Proof.
  induction p as [a|e k IH]; cbn [serve].
  - wunroll. exists []. split; constructor.
  - apply always_bind, always_paths. intros seg r Hseg. eapply always_mono; [apply IH|].
    intros wtr a (tr & Hp & Hs). exists (existT e r :: tr). split; constructor; done.
Qed.

Lemma served_segment tr wtr (s : step_of eresp) :
  served tr wtr → s ∈ tr →
  ∃ pre seg post, wtr = pre ++ seg ++ post ∧ paths (answer (projT1 s)) seg (projT2 s).
Proof.
  induction 1 as [|e' r' tr seg wtr Hp Hs IH]; [set_solver|]. intros [->|Hin]%elem_of_cons.
  - by exists [], seg, wtr.
  - destruct (IH Hin) as (pre & sg & post & -> & Hsg). exists (seg ++ pre), sg, post. by rewrite <-!app_assoc.
Qed.

(** The outbound requests a handler may cause. *)
Definition outbound_request (tr : Trace) (q : HttpRequest) : Prop :=
  google_request g q
  ∨ (∃ url r, existT (FetchClientDocument url) r ∈ tr ∧ pinned_request url q)
  ∨ (∃ url r, existT (FetchJwks url) r ∈ tr ∧ pinned_request url q).

Lemma answer_sends e : only_wsteps (send_step (fun q =>
  google_request g q ∨ match e with FetchClientDocument url | FetchJwks url => pinned_request url q | _ => False end)) (answer e).
Proof.
  destruct e; try (apply wonly_eff; intros r; done); cbn [answer].
  - eapply wonly_mono; [|apply exchange_code_sends]. intros [[] r]; unfold send_step; simpl; auto.
  - eapply wonly_mono; [|apply refresh_sends]. intros [[] r]; unfold send_step; simpl; auto.
  - eapply wonly_mono; [|apply fetch_json_sends]. intros [[] r]; unfold send_step; simpl; auto.
  - eapply wonly_mono; [|apply fetch_json_sends]. intros [[] r]; unfold send_step; simpl; auto.
Qed.

Lemma served_sends tr wtr q r : served tr wtr → existT (HttpSend q) r ∈ wtr → outbound_request tr q.
Proof.
  induction 1 as [|e r' tr seg wtr Hp Hs IH]; [set_solver|]. rewrite elem_of_app. intros [Hin|Hin].
  - pose proof (proj1 (always_paths _ _) (answer_sends e) seg r' Hp) as Hf. cbn beta in Hf.
    rewrite Forall_forall in Hf. apply Hf in Hin. unfold send_step in Hin. cbn [projT1] in Hin.
    destruct Hin as [Hg|Hx]; [by left|]. destruct e; try done.
    + right; left. eexists _, r'. split; [by left|done].
    + right; right. eexists _, r'. split; [by left|done].
  - destruct (IH Hin) as [Hg|[(u & x & Hx & Hq)|(u & x & Hx & Hq)]]; [by left|right; left|right; right];
      exists u, x; (split; [by right|done]).
Qed.

Lemma exchange_verified_mono (pre seg post : WTrace) x :
  exchange_verified g seg x → exchange_verified g (pre ++ seg ++ post) x.
Proof.
  intros (t & claims & Ht & Hv & Hr). exists t, claims. split; [done|]. split; [|done].
  apply id_token_verified_r. destruct Hv as (h & kid & key & dk & clock & H1 & H2 & H3 & (jwks & Hj & Hk) & H5 & H6 & H7 & H8).
  exists h, kid, key, dk, clock. split_and!; try done; [| |apply H8|apply H8].
  - exists jwks. split; [by apply jwks_from_l|done].
  - rewrite elem_of_app. by left.
Qed.

Lemma token_answered_mono (pre seg post : WTrace) form payload :
  token_answered g seg form payload → token_answered g (pre ++ seg ++ post) form payload.
Proof. intros (rsp & Hin & Hrest). exists rsp. split; [|done]. rewrite !elem_of_app. auto. Qed.

(** (C28) Handlers with their clients: every run of a handler is a run of the
    abstract handler.  On a code exchange the tokens are those Google's token
    endpoint answered for this code and verifier, and the account is that of the
    ID token in the answer, verified with a key of Google's; on a refresh the
    tokens are those it answered for this refresh token, and the account is that
    of the ID token in the answer, verified, or, when the answer has none, the
    account the refresh token was stored for.  Every HTTP request it caused goes
    to Google's endpoints or is a pinned fetch of a document the handler asked
    for. *)
Theorem served_handlers_sound {A} (p : M A) :
  always (serve p) (fun wtr a => ∃ tr, paths p tr a
    ∧ (∀ code verifier x, existT (GoogleExchangeCode code verifier) (Ok x) ∈ tr → code_exchanged g wtr code verifier x)
    ∧ (∀ token subject email x, existT (GoogleRefreshToken token subject email) (Ok x) ∈ tr →
         token_refreshed g wtr token subject email x)
    ∧ (∀ q r, existT (HttpSend q) r ∈ wtr → outbound_request tr q)).
Proof.
  eapply always_mono; [apply serve_paths|]. intros wtr a (tr & Hp & Hs). exists tr. split; [done|]. split_and!.
  - intros code verifier x Hx. destruct (served_segment _ _ _ Hs Hx) as (pre & seg & post & -> & Hseg).
    destruct (proj1 (always_paths _ _) (exchange_code_spec g code verifier) _ _ Hseg x eq_refl) as (payload & Ha & Ht & Hv).
    exists payload. split_and!; [by apply token_answered_mono|done|by apply exchange_verified_mono].
  - intros token subject email x Hx. destruct (served_segment _ _ _ Hs Hx) as (pre & seg & post & -> & Hseg).
    destruct (proj1 (always_paths _ _) (refresh_spec g token subject email) _ _ Hseg x eq_refl) as (payload & Ha & Ht & Hv).
    exists payload. split_and!; [by apply token_answered_mono|done|].
    destruct (gt_id_token payload); [by apply exchange_verified_mono|done].
  - intros q r Hq. by eapply served_sends.
Qed.

(** A refresh through the client reports a lost grant only when the token
    endpoint answered [invalid_grant]. *)
Theorem refresh_reauth_exact token subject email :
  always (refresh g token subject email) (fun tr r => ∀ e, r = Err e → is_reauth e = true →
    ∃ q response, existT (HttpSend q) (Ok response) ∈ tr ∧ hq_url q = gl_token_endpoint g
      ∧ ("refresh_token", token) ∈ hq_form q ∧ says_invalid_grant response).
Proof.
  unfold refresh, read_json_response. wunroll. intros sent.
  destruct (json_outcome _ _ _ sent) as [payload|e'] eqn:Eo; wunroll.
  - assert (Hno : always (verify_id_token g (match gt_id_token payload with Some t => t | None => "" end))
      (fun _ r => ∀ e, r = Err e → is_reauth e = false)) by apply verify_no_reauth.
    destruct (gt_id_token payload) as [t|]; [|wunroll; done].
    eapply (always_try_spec _ _ (fun _ r => ∀ e, r = Err e → is_reauth e = false)).
    + apply (no_reauth_try _ _ Hno). intros c. by apply no_reauth_ret.
    + intros tr i _. destruct i as [[? ?] ?]. wunroll. done.
    + intros tr e He e2 [= <-] Hr. by rewrite (He e eq_refl) in Hr.
  - intros e [= <-] Hr. destruct (json_outcome_reauth _ _ _ _ _ Eo Hr) as (rsp & -> & Hs).
    eexists _, rsp. split; [by left|]. split_and!; [done| |done..]. right. by left.
Qed.
End Serve.
End RemoteProps.
