(* ===== verification/UpstreamStore.v ===== *)
(** * UpstreamStore: the credential and state stores of outbound OAuth

    [labby-auth/src/upstream/types.rs], [encryption.rs], [store.rs],
    [google_store.rs] and [refresh.rs]: the errors of the outbound flows, the
    sealing of stored tokens under associated data, the two implementations of
    [rmcp]'s credential store, the pending-state store, and the cache of
    recent refresh failures. *)

From Stdlib Require Import Ascii.
From stdpp Require Import base gmap strings pretty list.
From S2P Require Import Prelude RustStr Prog AuthTypes SamplePlatform Store Effects AtRest SqliteStore WebPlatform GatewayConfig WebEffects Remote.

(** ** types.rs *)

Inductive OauthError :=
| NeedsReauth (message : string)
| StateInvalid (message : string)
| ResourceMismatch (message : string)
| IssuerMismatch (message : string)
| UnsupportedMethod (message : string)
| ScopeUpgradeRequired (missing_scopes : list string)
| AccountAmbiguous (message : string)
| ClientMismatch (message : string)
| SharedCredentialProtected (message : string)
| Internal (message : string).

Definition oauth_kind (e : OauthError) : string :=
  match e with
  | NeedsReauth _ => "oauth_needs_reauth"
  | StateInvalid _ => "oauth_state_invalid"
  | ResourceMismatch _ => "oauth_resource_mismatch"
  | IssuerMismatch _ => "oauth_issuer_mismatch"
  | UnsupportedMethod _ => "oauth_unsupported_method"
  | ScopeUpgradeRequired _ => "oauth_scope_upgrade_required"
  | AccountAmbiguous _ => "oauth_account_ambiguous"
  | ClientMismatch _ => "oauth_client_mismatch"
  | SharedCredentialProtected _ => "oauth_shared_credential_protected"
  | Internal _ => "internal_error"
  end.

Definition http_status_code (e : OauthError) : Z :=
  match e with
  | NeedsReauth _ => 401
  | StateInvalid _ => 400
  | ResourceMismatch _ | IssuerMismatch _ | UnsupportedMethod _ => 502
  | ScopeUpgradeRequired _ => 403
  | AccountAmbiguous _ | ClientMismatch _ | SharedCredentialProtected _ => 409
  | Internal _ => 500
  end.

Record GoogleCredentialBrokerStatus := mkBrokerStatus {
  bk_account_selector_configured : bool;
  bk_provider_generation : option Z;
  bk_client_bound : bool;
  bk_required_scopes : list string;
  bk_granted_scopes : list string;
  bk_missing_scopes : list string;
}.

Record BeginAuthorization := mkBeginAuthorization { authorization_url : string }.

Inductive EncryptionError := DecryptionFailed | InvalidKey (message : string) | EncryptionFailed.
Definition encryption_display (e : EncryptionError) : string :=
  match e with
  | DecryptionFailed => "decryption failed"
  | InvalidKey m => "invalid key: " +:+ m
  | EncryptionFailed => "encryption failed"
  end.

(** [u64 as i64]. *)
Definition u64_as_i64 (z : Z) : Z := i64_add z 0.

Section UpstreamStore.
Context `{WebPlatform}.

(** [OauthError::to_string]. *)
Definition oauth_display (e : OauthError) : string :=
  oauth_kind e +:+ ": " +:+
  match e with
  | NeedsReauth m | StateInvalid m | ResourceMismatch m | IssuerMismatch m | UnsupportedMethod m
  | AccountAmbiguous m | ClientMismatch m | SharedCredentialProtected m | Internal m => m
  | ScopeUpgradeRequired missing_scopes => "missing scopes: " +:+ strs_debug missing_scopes
  end.

(** ** encryption.rs *)

(** The 32 bytes of the key. *)
Definition load_key (base64_str : string) : result string EncryptionError :=
  let base64_str := Str.trim base64_str in
  match base64_decode base64_str with
  | None => Err (InvalidKey ("base64 decode error: " +:+ base64_decode_error base64_str))
  | Some bytes =>
      if negb (String.length bytes =? 32)
      then Err (InvalidKey ("expected 32 bytes, got " +:+ pretty (String.length bytes)))
      else Ok bytes
  end.

(** [OsRng::fill_bytes] panics when the system has no randomness. *)
Definition seal_with_aad (key plaintext aad : string) : W (result (string * string) EncryptionError) :=
  let! drawn := on_auth (eff (RandomBytes 12)) in
  match drawn with
  | Err _ => panic
  | Ok nonce_bytes =>
      match aead_seal key nonce_bytes plaintext aad with
      | None => ret_err EncryptionFailed
      | Some ciphertext => ret_ok (ciphertext, nonce_bytes)
      end
  end.

Definition open_with_aad (key ciphertext nonce aad : string) : result string EncryptionError :=
  if negb (String.length nonce =? 12) then Err DecryptionFailed
  else ok_or (aead_open key nonce ciphertext aad) DecryptionFailed.

(** ** store.rs *)

Definition nul : string := String zero "".

Definition credential_aad (upstream_name subject client_id : string) : string :=
  "upstream=" +:+ upstream_name +:+ nul +:+ "subject=" +:+ subject +:+ nul +:+ "client_id=" +:+ client_id.

(** The tail of [load]: the row's blob opened under the row's own identity. *)
Definition open_row (key : string) (row : UpstreamOauthCredentialRow) : result StoredCredentials RmcpError :=
  let aad := credential_aad (uc_upstream_name row) (uc_subject row) (uc_client_id row) in
  let? plaintext := map_err (fun _ => AuthorizationRequired)
                      (open_with_aad key (uc_token_blob row) (uc_token_blob_nonce row) aad) in
  map_err (fun e => InternalError ("deserialize credentials: " +:+ e)) (credentials_of_json plaintext).

Definition sqlite_load (s : SqliteCredentialStore) : W (result (option StoredCredentials) RmcpError) :=
  let! row := on_auth (sql (FindUpstreamOauthCredentials (ss_upstream_name s) (ss_subject s))) in
  Ret (match row with
       | Err e => Err (InternalError (to_string e))
       | Ok None => Ok None
       | Ok (Some row) => let? creds := open_row (ss_key s) row in Ok (Some creds)
       end).

Definition token_expiry (received_at : Z) (token : option OAuthTokenResponse) : Z * bool :=
  match token with
  | Some token =>
      let expires_in := u64_as_i64 (match ot_expires_in token with Some d => d | None => 3600%Z end) in
      (i64_add received_at expires_in, is_some (ot_refresh_token token))
  | None => (0%Z, false)
  end.

Definition sqlite_save (s : SqliteCredentialStore) (credentials : StoredCredentials) : W (result unit RmcpError) :=
  let! token_received_at := match sc_token_received_at credentials with
    | Some t => Ret (u64_as_i64 t)
    | None => on_auth now_unix
    end in
  let '(access_token_expires_at, refresh_token_present) := token_expiry token_received_at (sc_token_response credentials) in
  let!? granted_scopes_json := lift (map_err (fun e => InternalError ("serialize scopes: " +:+ e))
                                       (json_encode (sc_granted_scopes credentials))) in
  let!? plaintext := lift (map_err (fun e => InternalError ("serialize credentials: " +:+ e))
                             (credentials_to_json credentials)) in
  let aad := credential_aad (ss_upstream_name s) (ss_subject s) (sc_client_id credentials) in
  let! sealed := seal_with_aad (ss_key s) plaintext aad in
  match sealed with
  | Err e => ret_err (InternalError ("encrypt credentials: " +:+ encryption_display e))
  | Ok (token_blob, token_blob_nonce) =>
      let! stored := on_auth (sql (UpsertUpstreamOauthCredentials
        (mkUpstreamOauthCredentialRow (ss_upstream_name s) (ss_subject s) (sc_client_id credentials) granted_scopes_json
           token_blob token_blob_nonce token_received_at access_token_expires_at refresh_token_present))) in
      Ret (map_err (fun e => InternalError (to_string e)) stored)
  end.

Definition sqlite_clear (s : SqliteCredentialStore) : W (result unit RmcpError) :=
  let! deleted := on_auth (sql (DeleteUpstreamOauthCredentials (ss_upstream_name s) (ss_subject s))) in
  Ret (map_err (fun e => InternalError (to_string e)) deleted).

Definition STATE_TTL_SECS : Z := 300.

Definition state_save (s : SqliteStateStore) (csrf_token : string) (state : StoredAuthorizationState) :
  W (result unit RmcpError) :=
  let! now := on_auth now_unix in
  let! saved := on_auth (save_upstream_oauth_state
    (mkUpstreamOauthStateRow (st_upstream_name s) (st_subject s) csrf_token (sa_pkce_verifier state) now
       (i64_add now STATE_TTL_SECS))) in
  Ret (map_err (fun e => InternalError (to_string e)) saved).

Definition state_load (s : SqliteStateStore) (csrf_token : string) :
  W (result (option StoredAuthorizationState) RmcpError) :=
  let! now := on_auth now_unix in
  let! row := on_auth (sql (TakeUpstreamOauthState (st_upstream_name s) (st_subject s) csrf_token now)) in
  Ret (let? row := map_err (fun e => InternalError (to_string e)) row in
       Ok ((fun r => mkStoredAuthorizationState (us_pkce_verifier r) (us_csrf_token r)) <$> row)).

(** The row is already gone after [load]. *)
Definition state_delete (s : SqliteStateStore) (csrf_token : string) : W (result unit RmcpError) := ret_ok ().

(** ** google_store.rs *)

Definition missing_scopes (required granted : list string) : list string :=
  List.filter (fun scope => negb (existsb (String.eqb scope) granted)) required.

(** [normalize_scopes] is the one of [SqliteStore]. *)
Definition google_store_new (provider : GoogleProvider) (account : option string) (expected_client_id : string)
    (required_scopes : list string) : GoogleProviderCredentialStore :=
  mkGoogleStore provider
    (match account with
     | Some value => let value := Str.trim value in if Str.is_empty value then None else Some value
     | None => None
     end) expected_client_id (normalize_scopes required_scopes).

Section GoogleStore.
(** The at-rest key of the [SqliteStore]. *)
Context (key : option string) (s : GoogleProviderCredentialStore).

Definition google_credential_row : W (result (option GoogleProviderCredentialRow) OauthError) :=
  let!? ambiguous := match gs_account s with
    | Some _ => ret_ok false
    | None =>
        let! count := on_auth count_google_provider_credentials in
        Ret (let? count := map_err (fun error => Internal (to_string error)) count in
             Ok (bool_decide (1 < count)%Z))
    end in
  if ambiguous : bool
  then ret_err (AccountAmbiguous "configure oauth.credential.account as a Google sub or verified email")
  else
    let! row := on_auth (find_google_provider_credential_by_selector key (gs_account s)) in
    Ret (map_err (fun error => match error with
                               | Config message => AccountAmbiguous message
                               | other => Internal (to_string other)
                               end) row).

Definition foreign_client (row : GoogleProviderCredentialRow) : bool :=
  negb (Str.is_empty (gp_client_id row)) && negb (String.eqb (gp_client_id row) (gs_expected_client_id s)).

Definition authorization_preflight : W (result unit OauthError) :=
  let!? row := google_credential_row in
  Ret (match row with
       | None => Ok ()
       | Some row => if foreign_client row
                     then Err (ClientMismatch "shared Google credential belongs to a different OAuth client")
                     else Ok ()
       end).

Definition validated_credential_row : W (result (option GoogleProviderCredentialRow) OauthError) :=
  let!? row := google_credential_row in
  Ret (match row with
       | None => Ok None
       | Some row =>
           if Str.is_empty (gp_client_id row)
           then Err (NeedsReauth "shared Google credential predates client binding; authorize this upstream once to bind it")
           else if negb (String.eqb (gp_client_id row) (gs_expected_client_id s))
           then Err (ClientMismatch "shared Google credential belongs to a different OAuth client")
           else
             let missing := missing_scopes (gs_required_scopes s) (gp_granted_scopes row) in
             match missing with [] => Ok (Some row) | _ => Err (ScopeUpgradeRequired missing) end
       end).

Definition load_row_for_rmcp : W (result (option GoogleProviderCredentialRow) RmcpError) :=
  let! row := google_credential_row in
  Ret (match row with
       | Err (AccountAmbiguous _) => Err AuthorizationRequired
       | Err other => Err (InternalError (oauth_display other))
       | Ok None => Ok None
       | Ok (Some row) =>
           if Str.is_empty (gp_client_id row) then Ok None
           else if negb (String.eqb (gp_client_id row) (gs_expected_client_id s)) then Err AuthorizationRequired
           else Ok (Some row)
       end).

Definition selector_matches (selector : string) (identity : GoogleIdentity) : bool :=
  String.eqb selector (gy_subject identity)
  || is_some_and (fun email => Str.eq_ignore_ascii_case email selector) (gy_email identity).

(** The checks on a verified identity, in the order of the code. *)
Definition accept_identity (existing : option GoogleProviderCredentialRow) (identity : GoogleIdentity) :
  result (string * option string) RmcpError :=
  if negb (bool_decide (gy_email_verified identity = Some true)) then Err AuthorizationRequired
  else if is_some_and (fun existing => negb (String.eqb (gp_subject existing) (gy_subject identity))) existing
  then Err AuthorizationRequired
  else if is_some_and (fun selector => negb (selector_matches selector identity)) (gs_account s)
  then Err AuthorizationRequired
  else Ok (gy_subject identity, gy_email identity).

Definition identity_for_save (token : OAuthTokenResponse) (existing : option GoogleProviderCredentialRow) :
  W (result (string * option string) RmcpError) :=
  match ot_id_token token with
  | Some id_token =>
      let! identity := verify_identity (gs_provider s) id_token in
      Ret (let? identity := map_err (fun error => InternalError (to_string error)) identity in
           accept_identity existing identity)
  | None =>
      Ret (ok_or ((fun row => (gp_subject row, gp_email row)) <$> existing) AuthorizationRequired)
  end.

Definition opt_or {A} (a b : option A) : option A := match a with Some a => Some a | None => b end.
Definition or_zero (z : option Z) : Z := match z with Some z => z | None => 0%Z end.

Definition google_load : W (result (option StoredCredentials) RmcpError) :=
  let!? row := load_row_for_rmcp in
  Ret (Ok ((fun row =>
    let token_received_at := Z.max 0 (or_zero (gp_token_received_at row)) in
    let expires_in := Z.max 0 (i64_saturating_sub (or_zero (gp_access_token_expires_at row))
                                 (or_zero (gp_token_received_at row))) in
    let access_token := match gp_access_token row with Some t => t | None => "expired-central-google-access-token" end in
    mkStoredCredentials (gp_client_id row)
      (Some (mkOAuthTokenResponse access_token (Some (gp_refresh_token row)) (Some expires_in)
               (Some (gp_granted_scopes row)) None))
      (gp_granted_scopes row) (Some token_received_at) (gp_issuer row)) <$> row)).

Definition google_update (credentials : StoredCredentials) (token : OAuthTokenResponse)
    (existing : option GoogleProviderCredentialRow) (subject : string) (email : option string)
    (refresh_token : string) (token_received_at : Z) : GoogleProviderCredentialUpdate :=
  let expires_in := match ot_expires_in token with Some d => d | None => 3600%Z end in
  let access_token_expires_at := i64_saturating_add token_received_at (Z.min i64_max expires_in) in
  let granted_scopes := merge_google_scopes (match existing with Some row => gp_granted_scopes row | None => [] end)
                          (sc_granted_scopes credentials) in
  let scope_upgraded := is_none_or (fun row => negb (bool_decide (missing_scopes granted_scopes (gp_granted_scopes row) = [])))
                          existing in
  mkGoogleProviderCredentialUpdate subject email (sc_client_id credentials) granted_scopes (ot_access_token token)
    refresh_token token_received_at access_token_expires_at (opt_or (sc_issuer credentials) (Some GOOGLE_ISSUER))
    (is_some existing && negb scope_upgraded) scope_upgraded.

Definition google_save (credentials : StoredCredentials) : W (result unit RmcpError) :=
  if negb (String.eqb (sc_client_id credentials) (gs_expected_client_id s)) then ret_err AuthorizationRequired
  else
    let!? token := lift (ok_or (sc_token_response credentials) AuthorizationRequired) in
    let! row := google_credential_row in
    let!? existing := lift (map_err (fun error => InternalError (oauth_display error)) row) in
    if is_some_and foreign_client existing then ret_err AuthorizationRequired
    else
      let!? identity := identity_for_save token existing in
      let '(subject, email) := identity in
      let!? refresh_token := lift (ok_or (opt_or (ot_refresh_token token) (gp_refresh_token <$> existing))
                                     AuthorizationRequired) in
      let! token_received_at := match sc_token_received_at credentials with
        | Some value => Ret (u64_as_i64 value)
        | None => on_auth now_unix
        end in
      let! stored := on_auth (upsert_google_provider_token_bundle key
        (google_update credentials token existing subject email refresh_token token_received_at)) in
      Ret (map_err (fun error => InternalError (to_string error)) stored).

(** A shared credential survives the per-upstream clear. *)
Definition google_clear : W (result unit RmcpError) := ret_ok ().

End GoogleStore.

(** ** refresh.rs *)

Definition REFRESH_FAILURE_COOLDOWN : Z := (300 * NANOS)%Z.

Definition record_failure (upstream_name subject : string) : W unit :=
  let! now := weff InstantNow in weff (FailureInsert upstream_name subject now).
Definition clear_failure (upstream_name subject : string) : W unit := weff (FailureRemove upstream_name subject).
(** [elapsed] saturates at zero. *)
Definition recently_failed (upstream_name subject : string) : W bool :=
  let! entry := weff (FailureGet upstream_name subject) in
  match entry with
  | None => Ret false
  | Some entry =>
      let! now := weff InstantNow in
      Ret (bool_decide (Z.max 0 (now - entry) < REFRESH_FAILURE_COOLDOWN)%Z)
  end.

End UpstreamStore.
