(* ===== verification/UpstreamManager.v ===== *)
(** * UpstreamManager: the lifecycle of outbound OAuth

    [labby-auth/src/upstream/manager.rs]: begin and complete an authorization,
    build an authenticated client, refresh it, clear or revoke credentials,
    with metadata discovery and its checks.  The calls into [rmcp] carry the
    manager's state as the code has set it up.  Log statements and the TLS
    provider installation are left out. *)

From Stdlib Require Import Ascii.
From stdpp Require Import base gmap strings pretty list.
From S2P Require Import Prelude RustStr BTree Prog AuthTypes SamplePlatform Store Effects AtRest SqliteStore WebPlatform GatewayConfig WebEffects Remote UpstreamStore.

Definition PROACTIVE_REFRESH_WINDOW_SECS : Z := 30.

(** The fields of [UpstreamOauthManager] that do not change; its caches and
    locks are effects. [um_store_key] is the at-rest key of its [SqliteStore]. *)
Record UpstreamOauthManager := mkUpstreamOauthManager {
  um_store_key : option string;
  um_key : string;
  um_upstream : UpstreamConfig;
  um_redirect_uri : string;
}.

Inductive DynamicClientRegistrationUse := UseBeginAuthorization | UseCompleteAuthorization | UseStoredCredentials.

Record TokenRefreshState := mkTokenRefreshState { seconds_until_expiry : Z; refresh_token_present : bool }.

Definition from_row (row : UpstreamOauthCredentialRow) (now : Z) : option TokenRefreshState :=
  if bool_decide (uc_access_token_expires_at row <= 0)%Z then None
  else Some (mkTokenRefreshState (i64_saturating_sub (uc_access_token_expires_at row) now) (uc_refresh_token_present row)).
Definition refresh_due (s : TokenRefreshState) : bool :=
  bool_decide (seconds_until_expiry s <= PROACTIVE_REFRESH_WINDOW_SECS)%Z.

Definition is_known_split_endpoint_origin (issuer_origin endpoint_origin : string) : bool :=
  String.eqb issuer_origin "https://accounts.google.com" && String.eqb endpoint_origin "https://oauth2.googleapis.com".

Section Manager.
Context `{WebPlatform}.

Definition map_auth_error (e : RmcpError) : OauthError :=
  match e with
  | AuthorizationRequired => NeedsReauth "authorization required"
  | TokenExchangeFailed msg => Internal msg
  | TokenRefreshFailed msg => NeedsReauth ("token refresh failed: " +:+ msg)
  | TokenRefreshRejected msg => NeedsReauth ("refresh token rejected: " +:+ msg)
  | other => Internal (rmcp_error_display other)
  end.

(** ** URLs *)

(** [{port}] of an explicit port. *)
Definition url_origin (s : string) : option string :=
  match url_parse s with
  | Err _ => None
  | Ok u =>
      match url_host_str u with
      | None => None
      | Some host =>
          let host := Str.to_ascii_lowercase host in
          Some (match url_port u with
                | Some port => url_scheme u +:+ "://" +:+ host +:+ ":" +:+ pretty port
                | None => url_scheme u +:+ "://" +:+ host
                end)
      end
  end.

Definition extract_state_param (url : string) : option string :=
  match url_parse url with
  | Err _ => None
  | Ok parsed => snd <$> find_first (fun kv => String.eqb kv.1 "state") (url_query_pairs parsed)
  end.

Definition google_offline_access_url (url : string) : result string OauthError :=
  match url_parse url with
  | Err error => Err (Internal ("authorization url generated invalid URL: " +:+ error))
  | Ok parsed =>
      if negb (is_some_and (fun host => Str.eq_ignore_ascii_case host "accounts.google.com") (url_host_str parsed))
      then Ok url
      else
        let existing := fst <$> url_query_pairs parsed in
        let missing name := negb (existsb (String.eqb name) existing) in
        let parsed := if missing "access_type" then url_append_pair parsed "access_type" "offline" else parsed in
        let parsed := if missing "prompt" then url_append_pair parsed "prompt" "consent" else parsed in
        let parsed := if missing "include_granted_scopes"
                      then url_append_pair parsed "include_granted_scopes" "true" else parsed in
        Ok (url_str parsed)
  end.

Definition at_path (url : Url) (path : string) : Url := url_set_path (url_clear_fragment (url_clear_query url)) path.

Definition protected_resource_metadata_candidates (upstream : Url) : list Url :=
  let trimmed := Str.trim_end_matches "/" (Str.trim_start_matches "/" (url_path upstream)) in
  at_path upstream <$>
    (if Str.is_empty trimmed then ["/.well-known/oauth-protected-resource"]
     else ["/.well-known/oauth-protected-resource/" +:+ trimmed;
           "/" +:+ trimmed +:+ "/.well-known/oauth-protected-resource";
           "/.well-known/oauth-protected-resource"]).

Definition authorization_metadata_candidates (server : Url) : list Url :=
  if Str.contains "/.well-known/" (url_path server) then [server]
  else at_path server <$> ["/.well-known/oauth-authorization-server"; "/.well-known/openid-configuration"].

Definition resolve_authorization_server_url (metadata_url : Url) (authorization_server : string) : result Url string :=
  match url_parse authorization_server with
  | Ok url => Ok url
  | Err _ => url_join metadata_url authorization_server
  end.

(** ** Discovery *)

Definition http_get (url : Url) : W (result HttpResponse string) :=
  weff (HttpSend (mkHttpRequest GET url [] None 30 true None)).

(** One document: [None] when the fetch or its decoding fails ([continue]). *)
Definition get_document {T} (of_json : string → result T string) (url : Url) : W (option T) :=
  let! response := http_get url in
  Ret (match response with
       | Err _ => None
       | Ok response => if is_success (hr_status response) then ok (response_json of_json response) else None
       end).

(** The first candidate with a document. *)
Fixpoint first_metadata (candidates : list Url) : W (option AuthorizationMetadata) :=
  match candidates with
  | [] => Ret None
  | url :: rest =>
      let! found := get_document metadata_of_json url in
      match found with Some metadata => Ret (Some metadata) | None => first_metadata rest end
  end.

Fixpoint first_server_metadata (metadata_url : Url) (servers : list string) : W (option AuthorizationMetadata) :=
  match servers with
  | [] => Ret None
  | server :: rest =>
      match resolve_authorization_server_url metadata_url (Str.trim server) with
      | Err _ => first_server_metadata metadata_url rest
      | Ok server_url =>
          let! found := first_metadata (authorization_metadata_candidates server_url) in
          match found with Some metadata => Ret (Some metadata) | None => first_server_metadata metadata_url rest end
      end
  end.

Definition listed_servers (m : ProtectedResourceMetadata) : list string :=
  option_list (pm_authorization_server m) ++ match pm_authorization_servers m with Some l => l | None => [] end.

Fixpoint first_resource_metadata (candidates : list Url) : W (option AuthorizationMetadata) :=
  match candidates with
  | [] => Ret None
  | metadata_url :: rest =>
      let! found := get_document resource_metadata_of_json metadata_url in
      match found with
      | None => first_resource_metadata rest
      | Some resource_metadata =>
          let! metadata := first_server_metadata metadata_url (listed_servers resource_metadata) in
          match metadata with Some metadata => Ret (Some metadata) | None => first_resource_metadata rest end
      end
  end.

Definition discover_published_metadata (upstream_url : string) : W (result (option AuthorizationMetadata) OauthError) :=
  match url_parse upstream_url with
  | Err error => ret_err (Internal ("invalid upstream url: " +:+ error))
  | Ok upstream =>
      let! built := weff BuildHttpClient in
      match built with
      | Err error => ret_err (Internal ("build oauth metadata client: " +:+ error))
      | Ok _ =>
          let! found := first_resource_metadata (protected_resource_metadata_candidates upstream) in
          match found with
          | Some metadata => ret_ok (Some metadata)
          | None =>
              let! found := first_metadata (authorization_metadata_candidates upstream) in
              ret_ok found
          end
      end
  end.

(** ** The manager *)

Section Methods.
Context (m : UpstreamOauthManager).
Notation name := (up_name (um_upstream m)).

Definition oauth_config : result UpstreamOauthConfig OauthError :=
  ok_or (up_oauth (um_upstream m)) (Internal "upstream has no oauth config").

Definition credential_source_label : string :=
  match uo_credential <$> up_oauth (um_upstream m) with Some (GatewayConfig.GoogleProvider _) => "google_provider" | _ => "dedicated" end.

Definition upstream_url : result string OauthError :=
  match canonical_url (um_upstream m) with
  | None => Err (Internal "upstream has no url")
  | Some canonical => map_err (fun e => Internal ("invalid upstream url: " +:+ config_error_display e)) canonical
  end.

(** [sort] then [dedup] is the iteration of the ordered set. *)
Definition effective_scopes : result (list string) OauthError :=
  let? oauth := oauth_config in
  let scopes := match uo_scopes oauth with Some scopes => scopes | None => [] end in
  let scopes := if is_google_provider (uo_credential oauth)
                then fold_left (fun scopes scope => if existsb (String.eqb scope) scopes then scopes else scopes ++ [scope])
                       ["openid"; "email"; "profile"] scopes
                else scopes in
  Ok (BTreeSet.from_iter scopes).

Definition google_credential_store (required_scopes : list string) :
  W (result GoogleProviderCredentialStore OauthError) :=
  let!? oauth := lift oauth_config in
  match uo_credential oauth, uo_registration oauth with
  | Dedicated, _ => ret_err (Internal "Google provider credential store requested for dedicated OAuth source")
  | GatewayConfig.GoogleProvider account, Preregistered client_id client_secret_env =>
      let! read := match client_secret_env with
        | Some var => let! value := weff (EnvVar var) in Ret (Some value)
        | None => Ret None
        end in
      let!? client_secret := lift (map_err
        (fun error => Internal ("read Google OAuth client secret environment variable: " +:+ error)) (transpose read)) in
      let!? redirect_uri := lift (map_err (fun error => Internal ("parse upstream OAuth redirect URI: " +:+ error))
                                    (url_parse (um_redirect_uri m))) in
      let! provider := google_provider_new client_id (match client_secret with Some v => v | None => "" end) redirect_uri in
      Ret (let? provider := map_err (fun error => Internal (to_string error)) provider in
           Ok (google_store_new provider account client_id required_scopes))
  | GatewayConfig.GoogleProvider _, _ =>
      ret_err (ClientMismatch "google_provider credentials require preregistered OAuth client metadata")
  end.

Definition google_row (required_scopes : list string) : W (result (option GoogleProviderCredentialRow) OauthError) :=
  let!? store := google_credential_store required_scopes in google_credential_row (um_store_key m) store.

Definition google_credential_broker_status : W (result (option GoogleCredentialBrokerStatus) OauthError) :=
  match up_oauth (um_upstream m) with
  | None => ret_ok None
  | Some oauth =>
      match uo_credential oauth with
      | Dedicated => ret_ok None
      | GatewayConfig.GoogleProvider account =>
          let!? required_scopes := lift effective_scopes in
          let!? row := google_row required_scopes in
          let granted_scopes := match row with Some row => gp_granted_scopes row | None => [] end in
          ret_ok (Some (mkBrokerStatus
            (is_some_and (fun selector => negb (Str.is_empty (Str.trim selector))) account)
            (gp_generation <$> row)
            (is_some_and (fun row => negb (Str.is_empty (gp_client_id row))
                                     && match uo_registration oauth with
                                        | Preregistered client_id _ => String.eqb client_id (gp_client_id row)
                                        | _ => false
                                        end) row)
            required_scopes granted_scopes (missing_scopes required_scopes granted_scopes)))
      end
  end.

Definition has_credentials (subject : string) : W (result bool OauthError) :=
  let!? oauth := lift oauth_config in
  if is_google_provider (uo_credential oauth) then
    let!? scopes := lift effective_scopes in
    let!? row := google_row scopes in
    ret_ok (is_some row)
  else
    let! row := on_auth (sql (FindUpstreamOauthCredentials name subject)) in
    Ret (match row with Ok opt => Ok (is_some opt) | Err e => Err (Internal (to_string e)) end).

Definition install_credential_store (manager : AuthorizationManager) (subject : string) (required_scopes : list string) :
  W (result AuthorizationManager OauthError) :=
  let set store := mkManager (am_base_url manager) (Some store) (am_state_store manager) (am_metadata manager)
                     (am_client manager) in
  let!? oauth := lift oauth_config in
  match uo_credential oauth with
  | Dedicated => ret_ok (set (SqliteCredentials (mkSqliteStore (um_key m) name subject)))
  | GatewayConfig.GoogleProvider _ =>
      let!? store := google_credential_store required_scopes in
      ret_ok (set (GoogleCredentials store))
  end.

Definition set_state_store (manager : AuthorizationManager) (store : SqliteStateStore) : AuthorizationManager :=
  mkManager (am_base_url manager) (am_credential_store manager) (Some store) (am_metadata manager) (am_client manager).
Definition set_metadata (manager : AuthorizationManager) (metadata : AuthorizationMetadata) : AuthorizationManager :=
  mkManager (am_base_url manager) (am_credential_store manager) (am_state_store manager) (Some metadata) (am_client manager).
Definition set_client (manager : AuthorizationManager) (client : option OAuthClientConfig) : AuthorizationManager :=
  mkManager (am_base_url manager) (am_credential_store manager) (am_state_store manager) (am_metadata manager) client.

(** ** Checks on the metadata *)

Definition check_endpoint (issuer_origin label : string) (endpoint : option string) : result unit OauthError :=
  match endpoint with
  | None => Ok ()
  | Some endpoint =>
      match url_origin endpoint with
      | None => Err (IssuerMismatch (label +:+ " `" +:+ endpoint +:+ "` is not a valid URL"))
      | Some origin =>
          if negb (String.eqb origin issuer_origin) && negb (is_known_split_endpoint_origin issuer_origin origin)
          then Err (IssuerMismatch (label +:+ " origin `" +:+ origin +:+ "` does not match issuer origin `"
                                    +:+ issuer_origin +:+ "`"))
          else Ok ()
      end
  end.

Definition verify_issuer_binding (metadata : AuthorizationMetadata) : result unit OauthError :=
  let? issuer_raw := ok_or (am_issuer metadata)
    (IssuerMismatch ("AS metadata for upstream '" +:+ name +:+ "' is missing required `issuer` claim")) in
  let? issuer_origin := ok_or (url_origin (Str.trim_end_matches "/" issuer_raw))
    (IssuerMismatch ("issuer `" +:+ issuer_raw +:+ "` is not a valid URL")) in
  let? _ := check_endpoint issuer_origin "authorization_endpoint" (Some (am_authorization_endpoint metadata)) in
  let? _ := check_endpoint issuer_origin "token_endpoint" (Some (am_token_endpoint metadata)) in
  check_endpoint issuer_origin "registration_endpoint" (am_registration_endpoint metadata).

Definition verify_s256 (methods : option (list string)) : result unit OauthError :=
  match methods with
  | Some methods =>
      if existsb (String.eqb "S256") methods then Ok ()
      else Err (UnsupportedMethod ("AS does not advertise S256 PKCE; advertised methods: " +:+ strs_debug methods))
  | None =>
      Err (UnsupportedMethod "AS did not advertise code_challenge_methods_supported; S256 is required")
  end.

Definition verify_google_provider_issuer (metadata : AuthorizationMetadata) : result unit OauthError :=
  let? oauth := oauth_config in
  if negb (is_google_provider (uo_credential oauth)) then Ok ()
  else
    let issuer := match am_issuer metadata with Some i => i | None => "" end in
    if negb (String.eqb (Str.trim_end_matches "/" issuer) "https://accounts.google.com")
    then Err (IssuerMismatch ("google_provider credential source requires issuer 'https://accounts.google.com', received '"
                              +:+ issuer +:+ "'"))
    else Ok ().

(** The deployment-specific rewrite of the endpoints of [swag]. *)
Definition rewrite_swag (metadata : AuthorizationMetadata) : AuthorizationMetadata :=
  if String.eqb name "swag" then
    mkAuthorizationMetadata (am_issuer metadata)
      (str_replace "/mcp/authorize" "/authorize" (am_authorization_endpoint metadata))
      (str_replace "/mcp/token" "/token" (am_token_endpoint metadata))
      (str_replace "/mcp/register" "/register" <$> am_registration_endpoint metadata)
      (am_code_challenge_methods_supported metadata)
  else metadata.

(** The metadata of an upstream that is not in the cache. *)
Definition discover_metadata (manager : AuthorizationManager) : W (result AuthorizationMetadata OauthError) :=
  let! resolution := weff (Rmcp manager ResolveMetadata) in
  match resolution with
  | Ok (true, metadata) => ret_ok metadata
  | resolution =>
      let!? url := lift upstream_url in
      let!? published := discover_published_metadata url in
      Ret (match published with
           | Some metadata => Ok metadata
           | None =>
               let detail := match resolution with
                 | Err error => rmcp_error_display error
                 | Ok _ => "no published OAuth metadata"
                 end in
               Err (Internal ("discover metadata: " +:+ detail))
           end)
  end.

(** The write guard lives until the function returns. *)
Definition get_or_discover_metadata (manager : AuthorizationManager) : W (result AuthorizationMetadata OauthError) :=
  let! cache := weff (MetadataWriteLock name) in
  let! r := match cache with
    | Some meta => ret_ok meta
    | None =>
        let!? metadata := discover_metadata manager in
        let metadata := rewrite_swag metadata in
        let!? _ := lift (verify_issuer_binding metadata) in
        let! _ := weff (MetadataWrite name metadata) in
        ret_ok metadata
    end in
  let! _ := weff (MetadataWriteUnlock name) in
  Ret r.

(** ** The OAuth client *)

Definition client_config (client_id : string) (secret : option string) (scopes : list string) : OAuthClientConfig :=
  mkOAuthClientConfig client_id secret scopes (um_redirect_uri m).

Definition storage_error {A} (r : result A AuthError) : result A OauthError := map_err (fun e => Internal (to_string e)) r.

Definition resolve_client_config (manager : AuthorizationManager) (subject : string) (scopes : list string)
    (dynamic_registration_use : DynamicClientRegistrationUse) : W (result OAuthClientConfig OauthError) :=
  let!? oauth_cfg := lift oauth_config in
  match uo_registration oauth_cfg with
  | Preregistered client_id client_secret_env =>
      match client_secret_env with
      | None => ret_ok (client_config client_id None scopes)
      | Some var =>
          let! read := weff (EnvVar var) in
          let val := match read with Ok v => v | Err _ => "" end in
          if Str.is_empty val
          then ret_err (Internal ("client_secret_env '" +:+ var +:+ "' is configured but env var '" +:+ var
                                  +:+ "' is not set or is empty"))
          else ret_ok (client_config client_id (Some val) scopes)
      end
  | Dynamic =>
      match dynamic_registration_use with
      | UseStoredCredentials =>
          let! found := on_auth (sql (FindUpstreamOauthCredentials name subject)) in
          let!? row := lift (storage_error found) in
          Ret (match row with
               | Some row => Ok (client_config (uc_client_id row) None scopes)
               | None => Err (NeedsReauth ("no stored credentials for upstream '" +:+ name +:+ "' subject '"
                                           +:+ subject +:+ "'"))
               end)
      | UseCompleteAuthorization =>
          let! found := on_auth (sql (FindDynamicClientRegistration name subject)) in
          let!? client_id := lift (storage_error found) in
          Ret (match client_id with
               | Some client_id => Ok (client_config client_id None scopes)
               | None => Err (NeedsReauth ("no dynamic client registration for upstream '" +:+ name +:+ "' subject '"
                                           +:+ subject +:+ "'"))
               end)
      | UseBeginAuthorization =>
          let! registered := weff (Rmcp manager (WebEffects.RegisterClient "lab" (um_redirect_uri m) scopes)) in
          let!? cfg := lift (map_err (fun e => Internal ("dynamic registration: " +:+ rmcp_error_display e)) registered) in
          let! saved := on_auth (save_dynamic_client_registration name subject (oc_client_id cfg)) in
          let!? _ := lift (storage_error saved) in
          let! found := on_auth (sql (FindDynamicClientRegistration name subject)) in
          let!? client_id := lift (storage_error found) in
          let!? canonical_client_id := lift (ok_or client_id
            (Internal "dynamic registration saved but read-back returned nothing")) in
          ret_ok (client_config canonical_client_id None scopes)
      end
  | ClientMetadataDocument url =>
      Ret (let? parsed := map_err (fun e => Internal ("invalid client_metadata_document url: " +:+ e)) (url_parse url) in
           if negb (String.eqb (url_scheme parsed) "https")
           then Err (Internal ("client_metadata_document url must use https, got `" +:+ url_scheme parsed +:+ "`"))
           else Ok (client_config url None scopes))
  end.

Definition configure_client (manager : AuthorizationManager) (cfg : OAuthClientConfig) (context : string) :
  W (result AuthorizationManager OauthError) :=
  let! configured := weff (Rmcp manager (ConfigureClient cfg)) in
  Ret (let? _ := map_err (fun e => Internal (context +:+ rmcp_error_display e)) configured in
       Ok (set_client manager (Some cfg))).

(** The setup shared by the flows: a manager with its stores, checked
    metadata and client. *)
Definition configured_authorization_manager (subject : string) (dynamic_registration_use : DynamicClientRegistrationUse) :
  W (result AuthorizationManager OauthError) :=
  let!? url := lift upstream_url in
  let!? scopes := lift effective_scopes in
  let fresh := mkManager url None None None None in
  let! created := weff (Rmcp fresh (NewManager url)) in
  let!? _ := lift (map_err (fun e => Internal ("create auth manager: " +:+ rmcp_error_display e)) created) in
  let!? manager := install_credential_store fresh subject scopes in
  let manager := set_state_store manager (mkStateStore name subject) in
  let!? metadata := get_or_discover_metadata manager in
  let!? _ := lift (verify_google_provider_issuer metadata) in
  let!? _ := lift (verify_s256 (am_code_challenge_methods_supported metadata)) in
  let manager := set_metadata manager metadata in
  let!? client_cfg := resolve_client_config manager subject scopes dynamic_registration_use in
  configure_client manager client_cfg "configure client: ".

(** ** Flows *)

(** After its preflight, [begin_authorization] sets its manager up like
    [configured_authorization_manager]; only log statements differ. *)
Definition begin_authorization (subject : string) : W (result BeginAuthorization OauthError) :=
  let!? scopes := lift effective_scopes in
  let!? oauth := lift oauth_config in
  let!? _ := (if is_google_provider (uo_credential oauth) then
                let!? store := google_credential_store scopes in authorization_preflight (um_store_key m) store
              else ret_ok ()) in
  let!? manager := configured_authorization_manager subject UseBeginAuthorization in
  let! generated := weff (Rmcp manager (GetAuthorizationUrl scopes)) in
  let!? url := lift (map_err (fun e => Internal ("get authorization url: " +:+ rmcp_error_display e)) generated) in
  let!? url := lift (google_offline_access_url url) in
  Ret (match extract_state_param url with
       | Some _ => Ok (mkBeginAuthorization url)
       | None => Err (Internal "authorization url missing required state parameter")
       end).

Definition complete_authorization_callback (subject code csrf_token : string) : W (result unit OauthError) :=
  let!? manager := configured_authorization_manager subject UseCompleteAuthorization in
  let! exchanged := weff (Rmcp manager (ExchangeCodeForToken code csrf_token)) in
  let!? _ := lift (map_err map_auth_error exchanged) in
  let! _ := clear_failure name subject in
  ret_ok ().

Inductive LockRef := GoogleLock (account_key : string) | PairLock (subject : string).

Definition acquire_refresh_lock (subject : string) : W (result LockRef OauthError) :=
  match uo_credential <$> up_oauth (um_upstream m) with
  | Some (GatewayConfig.GoogleProvider account) =>
      let!? scopes := lift effective_scopes in
      let!? row := google_row scopes in
      ret_ok (GoogleLock (match row with
        | Some row => gp_subject row
        | None => match account with Some account => account | None => "<unbound-google-provider>" end
        end))
  | _ => ret_ok (PairLock subject)
  end.
Definition lock (l : LockRef) : W unit :=
  match l with GoogleLock k => on_auth (eff (SubjectLock k)) | PairLock subject => weff (RefreshLock name subject) end.
Definition unlock (l : LockRef) : W unit :=
  match l with GoogleLock k => on_auth (eff (SubjectUnlock k)) | PairLock subject => weff (RefreshUnlock name subject) end.
(** The guard is dropped when the method returns. *)
Definition with_refresh_lock {A} (subject : string) (body : W (result A OauthError)) : W (result A OauthError) :=
  let!? l := acquire_refresh_lock subject in
  let! _ := lock l in
  let! r := body in
  let! _ := unlock l in
  Ret r.

Definition revoke_shared_google_credential : W (result GoogleProviderInvalidation OauthError) :=
  let!? oauth := lift oauth_config in
  match uo_credential oauth with
  | Dedicated =>
      ret_err (SharedCredentialProtected "upstream does not use the central Google provider credential")
  | GatewayConfig.GoogleProvider account =>
      with_refresh_lock "<explicit-revoke>" (
        let! invalidation := on_auth (revoke_google_provider_credential (um_store_key m) account) in
        Ret (storage_error invalidation))
  end.

Definition clear_credentials (subject : string) : W (result unit OauthError) :=
  let!? oauth := lift oauth_config in
  if is_google_provider (uo_credential oauth) then
    ret_err (SharedCredentialProtected
      "use the explicit Google provider revoke action; per-upstream clear cannot remove a shared credential")
  else
    let! _ := clear_failure name subject in
    let! deleted := on_auth (sql (DeleteUpstreamOauthCredentials name subject)) in
    let!? _ := lift (storage_error deleted) in
    let! deleted := on_auth (sql (DeleteDynamicClientRegistration name subject)) in
    Ret (storage_error deleted).

Definition preflight_shared_google_credential : W (result unit OauthError) :=
  let!? oauth := lift oauth_config in
  if negb (is_google_provider (uo_credential oauth)) then ret_ok ()
  else
    let!? scopes := lift effective_scopes in
    let!? store := google_credential_store scopes in
    let!? row := validated_credential_row (um_store_key m) store in
    Ret (match row with
         | Some _ => Ok ()
         | None => Err (NeedsReauth "no central Google provider credential is available")
         end).

Definition terminal_refresh_error (error : RmcpError) : bool :=
  match error with
  | AuthorizationRequired | TokenRefreshRejected _ => true
  | TokenRefreshFailed message =>
      let message := Str.to_ascii_lowercase message in
      Str.contains "invalid_grant" message || Str.contains "invalid refresh token" message
      || Str.contains "refresh token has been revoked" message || Str.contains "refresh token expired" message
  | _ => false
  end.

Definition map_refresh_error_and_maybe_invalidate (error : RmcpError) : W OauthError :=
  let mapped := map_auth_error error in
  if terminal_refresh_error error
     && match oauth_config with Ok oauth => is_google_provider (uo_credential oauth) | Err _ => false end
  then
    let! store := google_credential_store (match effective_scopes with Ok scopes => scopes | Err _ => [] end) in
    match store with
    | Err _ => Ret mapped
    | Ok store =>
        let! row := google_credential_row (um_store_key m) store in
        match row with
        | Ok (Some row) =>
            let! _ := on_auth (invalidate_google_provider_credential (gp_subject row) (gp_generation row)) in
            Ret mapped
        | _ => Ret mapped
        end
    end
  else Ret mapped.

Definition credential_row (subject : string) : W (result (option UpstreamOauthCredentialRow) OauthError) :=
  let!? oauth := lift oauth_config in
  if is_google_provider (uo_credential oauth) then
    let!? scopes := lift effective_scopes in
    let!? row := google_row scopes in
    Ret (transpose ((fun row =>
      let? granted_scopes_json := map_err Internal (json_encode (gp_granted_scopes row)) in
      Ok (mkUpstreamOauthCredentialRow name subject (gp_client_id row) granted_scopes_json "" ""
            (or_zero (gp_token_received_at row)) (or_zero (gp_access_token_expires_at row)) true)) <$> row))
  else
    let! row := on_auth (sql (FindUpstreamOauthCredentials name subject)) in
    Ret (storage_error row).

(** A clock before 1970 is an error. *)
Definition manager_now : W (result Z OauthError) :=
  let! now := on_auth now_unix in
  Ret (if bool_decide (0 <= now)%Z then Ok now
       else Err (Internal "system clock error: second time provided was later than self")).

Definition subject_for_state (csrf_token : string) : W (result (option string) OauthError) :=
  let!? now := manager_now in
  let! found := on_auth (sql (FindUpstreamOauthStateSubject name csrf_token now)) in
  Ret (storage_error found).

Definition stored_dynamic_client_id (subject : string) : W (result (option string) OauthError) :=
  let! found := on_auth (sql (FindDynamicClientRegistration name subject)) in
  Ret (storage_error found).

Definition reconfigure_client_after_store_init (manager : AuthorizationManager) (subject : string) :
  W (result AuthorizationManager OauthError) :=
  let!? scopes := lift effective_scopes in
  let!? client_cfg := resolve_client_config manager subject scopes UseStoredCredentials in
  configure_client manager client_cfg "re-configure client with credentials after store init: ".

(** The manager with the stored credentials loaded and its client restored. *)
Definition initialized_manager (subject : string) : W (result AuthorizationManager OauthError) :=
  let!? manager := configured_authorization_manager subject UseStoredCredentials in
  let! loaded := weff (Rmcp manager InitializeFromStore) in
  let!? initialized := lift (map_err (fun e => Internal ("initialize from store: " +:+ rmcp_error_display e)) loaded) in
  let manager := set_client manager initialized.2 in
  if negb initialized.1
  then ret_err (NeedsReauth ("no stored credentials for upstream '" +:+ name +:+ "' subject '" +:+ subject +:+ "'"))
  else reconfigure_client_after_store_init manager subject.

(** Whether the stored token is at the end of its life. *)
Definition token_refresh_due (row : option UpstreamOauthCredentialRow) : W bool :=
  match row with
  | None => Ret false
  | Some row =>
      let! now := manager_now in
      Ret (match now with
           | Err _ => false
           | Ok now => match from_row row now with Some state => refresh_due state | None => false end
           end)
  end.

(** The token call, skipped while a refresh of the pair is known to fail. *)
Definition obtain_token (manager : AuthorizationManager) (subject : string) (refresh_due : bool) :
  W (result AuthorizationManager OauthError) :=
  let! failed := (if refresh_due then recently_failed name subject else Ret false) in
  if failed : bool then
    ret_err (NeedsReauth ("upstream '" +:+ name +:+ "' subject '" +:+ subject
                          +:+ "' refresh failed recently; skipping retry until cooldown elapses"))
  else
    let! token := weff (Rmcp manager GetAccessToken) in
    match token with
    | Err error =>
        let! mapped := map_refresh_error_and_maybe_invalidate error in
        let! _ := (if refresh_due then record_failure name subject else Ret ()) in
        ret_err mapped
    | Ok _ =>
        let! _ := clear_failure name subject in
        ret_ok manager
    end.

(** [AuthClient<C>] is the HTTP client with its manager. *)
Definition build_auth_client_with {C} (subject : string) (http_client : C) :
  W (result (C * AuthorizationManager) OauthError) :=
  with_refresh_lock subject (
    let!? _ := preflight_shared_google_credential in
    let!? manager := initialized_manager subject in
    let!? row := credential_row subject in
    let! refresh_due := token_refresh_due row in
    let!? manager := obtain_token manager subject refresh_due in
    ret_ok (http_client, manager)).

Definition build_auth_client (subject : string) : W (result (unit * AuthorizationManager) OauthError) :=
  build_auth_client_with subject ().

Definition refresh_auth_client (subject : string) : W (result unit OauthError) :=
  with_refresh_lock subject (
    let!? _ := preflight_shared_google_credential in
    let!? manager := initialized_manager subject in
    let! refreshed := weff (Rmcp manager RefreshToken) in
    match refreshed with
    | Err error => let! mapped := map_refresh_error_and_maybe_invalidate error in ret_err mapped
    | Ok _ => ret_ok ()
    end).

End Methods.
End Manager.
