(* ===== verification/OutboundProps.v ===== *)
(** * OutboundProps: the guarantees of outbound OAuth

    The authorization server's metadata is bound to its issuer before anything
    is sent to it, token calls are serialised and suppressed after failures,
    and shared Google credentials are only invalidated on terminal errors. *)

From Stdlib Require Import Ascii.
From stdpp Require Import base gmap strings sets list.
From S2P Require Import Prelude RustStr BTree Prog AuthTypes SamplePlatform Store Effects AtRest SqliteStore WebPlatform GatewayConfig WebEffects Remote UpstreamStore UpstreamManager.

Section Outbound.
Context `{WebPlatform} (m : UpstreamOauthManager).
Notation name := (up_name (um_upstream m)).

(** ** Issuer binding *)

(** The endpoint lives at the issuer's origin, or is Google's token endpoint. *)
Definition endpoint_bound (issuer_origin endpoint : string) : Prop :=
  ∃ origin, url_origin endpoint = Some origin ∧
    (origin = issuer_origin
     ∨ issuer_origin = "https://accounts.google.com" ∧ origin = "https://oauth2.googleapis.com").

Definition issuer_bound (metadata : AuthorizationMetadata) : Prop :=
  ∃ issuer origin, am_issuer metadata = Some issuer ∧ url_origin (Str.trim_end_matches "/" issuer) = Some origin
    ∧ endpoint_bound origin (am_authorization_endpoint metadata) ∧ endpoint_bound origin (am_token_endpoint metadata)
    ∧ ∀ endpoint, am_registration_endpoint metadata = Some endpoint → endpoint_bound origin endpoint.

Lemma check_endpoint_spec origin label endpoint :
  check_endpoint origin label endpoint = Ok () ↔ ∀ e, endpoint = Some e → endpoint_bound origin e.
Proof.
  unfold check_endpoint, endpoint_bound, is_known_split_endpoint_origin. destruct endpoint as [e|]; [|done]. split.
  - intros Hc ? [= <-]. destruct (url_origin e) as [o|]; [|done]. exists o. split; [done|].
    destruct (String.eqb_spec o origin); [by left|]. destruct (String.eqb_spec origin "https://accounts.google.com");
      [|done]. destruct (String.eqb_spec o "https://oauth2.googleapis.com"); [|done]. by right.
  - intros Hb. destruct (Hb e eq_refl) as (o & -> & Ho). destruct Ho as [->|[-> ->]]; [by rewrite String.eqb_refl|done].
Qed.

Lemma verify_issuer_binding_spec metadata : verify_issuer_binding m metadata = Ok () ↔ issuer_bound metadata.
Proof.
  unfold verify_issuer_binding, issuer_bound. split.
  - destruct (am_issuer metadata) as [issuer|]; [|done]. cbn [ok_or].
    destruct (url_origin _) as [origin|] eqn:Eo; [|done]. cbn [ok_or].
    destruct (check_endpoint origin "authorization_endpoint" _) as [[]|] eqn:E1; [|done].
    destruct (check_endpoint origin "token_endpoint" _) as [[]|] eqn:E2; [|done]. intros E3.
    exists issuer, origin. rewrite check_endpoint_spec in E1, E2, E3. split_and!; auto.
  - intros (issuer & origin & -> & Ho & H1 & H2 & H3). cbn [ok_or]. rewrite Ho. cbn [ok_or].
    rewrite (proj2 (check_endpoint_spec origin _ _)) by by intros ? [= <-].
    rewrite (proj2 (check_endpoint_spec origin _ _)) by by intros ? [= <-].
    by apply check_endpoint_spec.
Qed.

(** ** Calls to the authorization server *)

(** The calls that reveal a secret or start a flow at the server. *)
Definition token_call (c : RmcpCall) : bool :=
  match c with
  | WebEffects.RegisterClient _ _ _ | GetAuthorizationUrl _ | ExchangeCodeForToken _ _ | GetAccessToken | RefreshToken => true
  | _ => false
  end.

Definition metadata_ok (metadata : AuthorizationMetadata) : Prop :=
  issuer_bound metadata ∧ verify_google_provider_issuer m metadata = Ok ()
  ∧ ∃ methods, am_code_challenge_methods_supported metadata = Some methods ∧ "S256" ∈ methods.

Definition manager_ok (manager : AuthorizationManager) : Prop :=
  ∃ metadata, am_metadata manager = Some metadata ∧ metadata_ok metadata.

(** The cache only answers metadata that was bound when it was written. *)
Definition cache_rely (s : step_of wresp) : Prop :=
  match s with
  | existT e r =>
      match e as e return wresp e → Prop with
      | MetadataWriteLock _ => fun cache => ∀ metadata, cache = Some metadata → issuer_bound metadata
      | _ => fun _ => True
      end r
  end.

(** What the manager's steps guarantee. *)
Definition call_guar (s : step_of wresp) : Prop :=
  match projT1 s with
  | MetadataWrite _ metadata => issuer_bound metadata
  | Rmcp manager call => token_call call = true → manager_ok manager
  | _ => True
  end.

Notation sound := (rg cache_rely call_guar).

Lemma sound_plain e : (match e with MetadataWrite _ _ | Rmcp _ _ => False | _ => True end) →
  sound (weff e) (fun _ => True).
Proof. intros He. apply rg_eff. intros r _. split; [|exact I]. unfold call_guar. cbn [projT1]. destruct e; done. Qed.
Lemma sound_setup manager c : token_call c = false → sound (weff (Rmcp manager c)) (fun _ => True).
Proof. intros Hc. apply rg_eff. intros r _. split; [|exact I]. unfold call_guar. cbn [projT1]. by rewrite Hc. Qed.
Lemma sound_token manager c : manager_ok manager → sound (weff (Rmcp manager c)) (fun _ => True).
Proof. intros Hm. apply rg_eff. intros r _. split; [intros _; exact Hm|exact I]. Qed.
Lemma sound_auth {A} (p : M A) : sound (on_auth p) (fun _ => True).
Proof. by apply rg_auth. Qed.
Lemma sound_lift {A Er} (r : result A Er) : sound (lift (resp := wresp) r) (fun x => ∀ a, x = Ok a → r = Ok a).
Proof. apply rg_ret. by intros a ->. Qed.

(** Weakens the postcondition to the trivial one of a fallible program. *)
Lemma sound_any {A Er} (p : W (result A Er)) : sound p (fun _ => True) → sound p (fun r => ∀ a, r = Ok a → True).
Proof. intros Hp. eapply rg_mono; [exact Hp|]. done. Qed.

(** Programs with no token call: every construct keeps the guarantee. *)
Definition quiet_step (s : step_of wresp) : Prop :=
  match projT1 s with MetadataWrite _ _ | Rmcp _ _ => False | _ => True end.
Lemma sound_quiet {A} (p : W A) : only_wsteps quiet_step p → sound p (fun _ => True).
Proof.
  intros Hp. apply rg_only. eapply wonly_mono; [|exact Hp]. intros [[] r]; unfold quiet_step, call_guar; done.
Qed.

Lemma google_store_quiet scopes : only_wsteps quiet_step (google_credential_store m scopes).
Proof.
  unfold google_credential_store, google_provider_new. solve_wonly.
Qed.
Lemma google_credential_row_quiet key s : only_wsteps quiet_step (google_credential_row key s).
Proof. unfold google_credential_row. solve_wonly. Qed.
#[local] Hint Resolve google_store_quiet google_credential_row_quiet : wonly_db.
Lemma google_row_quiet scopes : only_wsteps quiet_step (google_row m scopes).
Proof. unfold google_row. solve_wonly. Qed.
Lemma install_quiet manager subject scopes : only_wsteps quiet_step (install_credential_store m manager subject scopes).
Proof. unfold install_credential_store. cbv zeta. solve_wonly. Qed.
#[local] Hint Resolve google_row_quiet install_quiet : wonly_db.

Lemma get_document_quiet {T} (of_json : string → result T string) url : only_wsteps quiet_step (get_document of_json url).
Proof. unfold get_document, http_get. solve_wonly. Qed.
#[local] Hint Resolve @get_document_quiet : wonly_db.
Lemma first_metadata_quiet candidates : only_wsteps quiet_step (first_metadata candidates).
Proof. induction candidates; cbn [first_metadata]; solve_wonly. Qed.
#[local] Hint Resolve first_metadata_quiet : wonly_db.
Lemma first_server_quiet url servers : only_wsteps quiet_step (first_server_metadata url servers).
Proof. induction servers; cbn [first_server_metadata]; solve_wonly. Qed.
#[local] Hint Resolve first_server_quiet : wonly_db.
Lemma first_resource_quiet candidates : only_wsteps quiet_step (first_resource_metadata candidates).
Proof. induction candidates; cbn [first_resource_metadata]; solve_wonly. Qed.
#[local] Hint Resolve first_resource_quiet : wonly_db.
Lemma discover_quiet url : only_wsteps quiet_step (discover_published_metadata url).
Proof. unfold discover_published_metadata. solve_wonly. Qed.

Lemma discover_sound manager : sound (discover_metadata m manager) (fun _ => True).
Proof.
  unfold discover_metadata. eapply rg_bind; [by apply sound_setup|]. intros resolution _.
  assert (Hrest : ∀ detail : string, sound
    (let!? url := lift (upstream_url m) in
     let!? published := discover_published_metadata url in
     Ret (match published with
          | Some metadata => Ok metadata
          | None => Err (Internal ("discover metadata: " +:+ detail))
          end)) (fun _ => True)).
  { intros detail. apply rg_only. eapply wonly_mono with (P := quiet_step);
      [by intros [[] r]|]. apply wonly_try; [apply wonly_lift|]. intros url. apply wonly_try; [apply discover_quiet|].
    intros p. apply wonly_ret. }
  destruct resolution as [[[] md]|e]; [by apply rg_ret|apply Hrest..].
Qed.

Lemma metadata_sound manager :
  sound (get_or_discover_metadata m manager) (fun r => ∀ metadata, r = Ok metadata → issuer_bound metadata).
Proof.
  unfold get_or_discover_metadata.
  eapply rg_bind; [apply (rg_eff _ _ (MetadataWriteLock name) (fun cache => ∀ metadata, cache = Some metadata → issuer_bound metadata)); intros cache Hc; split; [exact I|exact Hc]|].
  intros cache Hc. eapply (rg_bind _ _ _ _ (fun r : result AuthorizationMetadata OauthError => ∀ metadata, r = Ok metadata → issuer_bound metadata)).
  - destruct cache as [md|]; [apply rg_ret; intros ? [= <-]; by apply Hc|].
    eapply rg_try; [apply sound_any, discover_sound|]. intros md _. cbv zeta.
    eapply rg_try; [apply sound_lift|]. intros [] Hv. apply verify_issuer_binding_spec in Hv.
    eapply rg_bind; [apply rg_eff; intros r _; split; [exact Hv|exact I]|]. intros _ _. apply rg_ret. by intros ? [= <-].
  - intros r Hr. eapply rg_bind; [by apply sound_plain|]. intros _ _. by apply rg_ret.
Qed.

Lemma resolve_client_sound manager subject scopes use :
  manager_ok manager → sound (resolve_client_config m manager subject scopes use) (fun _ => True).
Proof.
  intros Hm. unfold resolve_client_config. eapply rg_mono; [|done].
  eapply (rg_try _ _ _ _ (fun _ => True) (fun _ => True)); [apply sound_any, rg_ret; done|]. intros oauth _.
  apply sound_any. destruct (uo_registration oauth) as [url|client_id [var|]|].
  - by apply rg_ret.
  - apply sound_quiet. solve_wonly.
  - by apply rg_ret.
  - destruct use; [|apply sound_quiet; solve_wonly..].
    eapply rg_bind; [by apply sound_token|]. intros r _. apply sound_quiet. solve_wonly.
Qed.

Lemma configure_sound manager cfg context :
  manager_ok manager →
  sound (configure_client manager cfg context) (fun r => ∀ manager', r = Ok manager' → manager_ok manager').
Proof.
  intros (md & Hm & Hok). unfold configure_client. eapply rg_bind; [by apply sound_setup|]. intros r _. apply rg_ret.
  intros manager'. destruct (map_err _ r); [|done]. intros [= <-]. by exists md.
Qed.

Lemma configured_sound subject use :
  sound (configured_authorization_manager m subject use) (fun r => ∀ manager, r = Ok manager → manager_ok manager).
Proof.
  unfold configured_authorization_manager.
  eapply rg_try; [apply sound_any, rg_ret; done|]. intros url _.
  eapply rg_try; [apply sound_any, rg_ret; done|]. intros scopes _. cbv zeta.
  eapply rg_bind; [by apply sound_setup|]. intros created _.
  eapply rg_try; [apply sound_any, rg_ret; done|]. intros _ _.
  eapply rg_try; [apply sound_any, sound_quiet; eauto with wonly_db|]. intros manager _.
  eapply rg_try; [apply metadata_sound|]. intros md Hb.
  eapply rg_try; [apply sound_lift|]. intros [] Hg.
  eapply rg_try; [apply sound_lift|]. intros [] Hs.
  assert (Hm : manager_ok (set_metadata (set_state_store manager (mkStateStore name subject)) md)).
  { exists md. split; [done|]. split; [done|]. split; [done|]. unfold verify_s256 in Hs.
    destruct (am_code_challenge_methods_supported md) as [methods|]; [|done].
    destruct (existsb _ methods) eqn:Ex; [|done]. exists methods. split; [done|].
    apply existsb_elem in Ex as (x & Hx & ->%String.eqb_eq). done. }
  eapply rg_try; [apply sound_any; by apply resolve_client_sound|]. intros cfg _. by apply configure_sound.
Qed.


(** ** The flows *)

Lemma preflight_quiet : only_wsteps quiet_step (preflight_shared_google_credential m).
Proof. unfold preflight_shared_google_credential, validated_credential_row. solve_wonly. Qed.
Lemma credential_row_quiet subject : only_wsteps quiet_step (credential_row m subject).
Proof. unfold credential_row. solve_wonly. Qed.
Lemma map_refresh_quiet error : only_wsteps quiet_step (map_refresh_error_and_maybe_invalidate m error).
Proof. unfold map_refresh_error_and_maybe_invalidate. cbv zeta. solve_wonly. Qed.
Lemma acquire_quiet subject : only_wsteps quiet_step (acquire_refresh_lock m subject).
Proof. unfold acquire_refresh_lock. solve_wonly. Qed.
Lemma lock_quiet l : only_wsteps quiet_step (lock m l).
Proof. unfold lock. solve_wonly. Qed.
Lemma unlock_quiet l : only_wsteps quiet_step (unlock m l).
Proof. unfold unlock. solve_wonly. Qed.
Lemma due_quiet row : only_wsteps quiet_step (token_refresh_due row).
Proof. unfold token_refresh_due, manager_now. solve_wonly. Qed.
#[local] Hint Resolve preflight_quiet credential_row_quiet map_refresh_quiet acquire_quiet lock_quiet unlock_quiet
  due_quiet : wonly_db.

Lemma locked_sound {A} subject (body : W (result A OauthError)) :
  sound body (fun _ => True) → sound (with_refresh_lock m subject body) (fun _ => True).
Proof.
  intros Hb. unfold with_refresh_lock. apply (rg_mono _ _ _ (fun r => ∀ a, r = Ok a → True)); [|done].
  eapply rg_try; [apply sound_any, sound_quiet, acquire_quiet|]. intros l _. apply sound_any.
  eapply rg_bind; [apply sound_quiet, lock_quiet|]. intros _ _. eapply rg_bind; [exact Hb|]. intros r _.
  eapply rg_bind; [apply sound_quiet, unlock_quiet|]. intros _ _. by apply rg_ret.
Qed.

Lemma initialized_sound subject :
  sound (initialized_manager m subject) (fun r => ∀ manager, r = Ok manager → manager_ok manager).
Proof.
  unfold initialized_manager. eapply rg_try; [apply configured_sound|]. intros manager Hm.
  eapply rg_bind; [by apply sound_setup|]. intros loaded _.
  eapply rg_try; [apply sound_any, rg_ret; done|]. intros [ready client] _. cbv zeta.
  destruct (negb _); [by apply rg_ret; intros ? [=]|]. unfold reconfigure_client_after_store_init.
  assert (Hm' : manager_ok (set_client manager client)) by exact Hm.
  eapply rg_try; [apply sound_any, rg_ret; done|]. intros scopes _.
  eapply rg_try; [by apply sound_any, resolve_client_sound|]. intros cfg _. by apply configure_sound.
Qed.

Lemma obtain_sound manager subject due :
  manager_ok manager → sound (obtain_token m manager subject due) (fun _ => True).
Proof.
  intros Hm. unfold obtain_token.
  eapply rg_bind; [apply sound_quiet; unfold recently_failed; solve_wonly|]. intros [] _; [by apply rg_ret|].
  eapply rg_bind; [by apply sound_token|]. intros token _. apply sound_quiet.
  unfold record_failure, clear_failure. solve_wonly.
Qed.

Lemma build_sound {C} subject (c : C) : sound (build_auth_client_with m subject c) (fun _ => True).
Proof.
  apply locked_sound. apply (rg_mono _ _ _ (fun r => ∀ a, r = Ok a → True)); [|done].
  eapply rg_try; [apply sound_any, sound_quiet, preflight_quiet|]. intros _ _.
  eapply rg_try; [apply initialized_sound|]. intros manager Hm.
  eapply rg_try; [apply sound_any, sound_quiet, credential_row_quiet|]. intros row _.
  eapply rg_bind; [apply sound_quiet, due_quiet|]. intros due _.
  eapply rg_try; [by apply sound_any, obtain_sound|]. intros manager' _. by apply rg_ret.
Qed.

Lemma refresh_client_sound subject : sound (refresh_auth_client m subject) (fun _ => True).
Proof.
  apply locked_sound. apply (rg_mono _ _ _ (fun r => ∀ a, r = Ok a → True)); [|done].
  eapply rg_try; [apply sound_any, sound_quiet, preflight_quiet|]. intros _ _.
  eapply rg_try; [apply initialized_sound|]. intros manager Hm. apply sound_any.
  eapply rg_bind; [by apply sound_token|]. intros r _. apply sound_quiet. solve_wonly.
Qed.

Lemma begin_sound subject : sound (begin_authorization m subject) (fun _ => True).
Proof.
  unfold begin_authorization. apply (rg_mono _ _ _ (fun r => ∀ a, r = Ok a → True)); [|done].
  eapply rg_try; [apply sound_any, rg_ret; done|]. intros scopes _.
  eapply rg_try; [apply sound_any, rg_ret; done|]. intros oauth _.
  eapply rg_try; [apply sound_any, sound_quiet; unfold authorization_preflight; solve_wonly|]. intros _ _.
  eapply rg_try; [apply configured_sound|]. intros manager Hm. apply sound_any.
  eapply rg_bind; [by apply sound_token|]. intros r _. apply sound_quiet. solve_wonly.
Qed.

Lemma complete_sound subject code csrf : sound (complete_authorization_callback m subject code csrf) (fun _ => True).
Proof.
  unfold complete_authorization_callback. apply (rg_mono _ _ _ (fun r => ∀ a, r = Ok a → True)); [|done].
  eapply rg_try; [apply configured_sound|]. intros manager Hm. apply sound_any.
  eapply rg_bind; [by apply sound_token|]. intros r _. apply sound_quiet. unfold clear_failure. solve_wonly.
Qed.

(** Outbound flows only talk to a bound authorization server: as long as the
    metadata cache answers issuer-bound metadata, everything the four flows
    write to it is issuer-bound too, and every registration, authorization,
    code exchange, token and refresh call uses metadata whose endpoints belong
    to its issuer, which offers S256, and which is Google's for a shared Google
    credential. *)
Theorem token_calls_bound subject code csrf :
  let guaranteed {A} (p : W A) := always p (fun tr _ => Forall cache_rely tr → Forall call_guar tr) in
  guaranteed (begin_authorization m subject) ∧ guaranteed (complete_authorization_callback m subject code csrf)
  ∧ guaranteed (build_auth_client m subject) ∧ guaranteed (refresh_auth_client m subject).
Proof.
  cbn zeta. split_and!; eapply always_mono; [apply begin_sound| |apply complete_sound| |apply build_sound| |apply refresh_client_sound|];
    intros tr r Ha Hr; by apply Ha.
Qed.

End Outbound.
