(* ===== verification/OutboundRefresh.v ===== *)
(** * OutboundRefresh: token refreshes of outbound OAuth

    A refresh of one credential is serialised by its lock, suppressed while a
    recent failure is on record, and leads to the invalidation of a shared
    Google credential only after a terminal error of the token endpoint. *)

From Stdlib Require Import Ascii.
From stdpp Require Import base gmap strings sets list.
From S2P Require Import Prelude RustStr BTree Prog AuthTypes SamplePlatform Store StoreProps Effects AtRest SqliteStore Traces WebPlatform GatewayConfig WebEffects Remote UpstreamStore UpstreamManager.

Section Observations.
Context `{WebPlatform}.

(** ** Steps outside the discipline

    Neither a token call, nor an access to the record of failures, nor a lock,
    nor the invalidation of a shared credential. *)

Definition plain_step (s : step_of wresp) : Prop :=
  match projT1 s with
  | FailureGet _ _ | FailureInsert _ _ _ | FailureRemove _ _ | InstantNow | Rmcp _ GetAccessToken | Rmcp _ RefreshToken
  | RefreshLock _ _ | RefreshUnlock _ _ | OnAuth (SubjectLock _) | OnAuth (SubjectUnlock _)
  | OnAuth (Sql (InvalidateGoogle _ _)) => False
  | _ => True
  end.
Definition plain_auth (s : step_of eresp) : bool :=
  match projT1 s with
  | SubjectLock _ | SubjectUnlock _ | Sql (InvalidateGoogle _ _) => false
  | _ => true
  end.

Lemma plain_on_auth {A} (p : M A) : only_steps plain_auth p → only_wsteps plain_step (on_auth p).
Proof.
  intros Hp. apply always_on_auth. eapply always_mono; [exact Hp|]. intros tr a Hf. apply Forall_forall.
  intros s (st & -> & Hst)%list_elem_of_fmap. rewrite forallb_elem in Hf. apply Hf in Hst. destruct st as [e r].
  unfold plain_auth in Hst. unfold plain_step. cbn in *. destruct e; try done. destruct op; done.
Qed.

Lemma find_google_plain key selector : only_steps plain_auth (find_google_provider_credential_by_selector key selector).
Proof. unfold find_google_provider_credential_by_selector. cbv zeta. solve_only. Qed.
Lemma count_google_plain : only_steps plain_auth count_google_provider_credentials.
Proof. unfold count_google_provider_credentials. solve_only. Qed.
Lemma save_dynamic_plain u s c : only_steps plain_auth (save_dynamic_client_registration u s c).
Proof. unfold save_dynamic_client_registration. solve_only. Qed.
End Observations.

#[local] Hint Resolve find_google_plain count_google_plain save_dynamic_plain : only_db.

(** Walks an outbound program none of whose steps is observed. *)
Ltac solve_plain :=
  repeat first
    [ solve [eauto with wonly_db nocore]
    | match goal with
      | |- only_wsteps _ (pbind _ _) => apply wonly_bind; [|intros ?]
      | |- only_wsteps _ (try_bind _ _) => apply wonly_try; [|intros ?]
      | |- only_wsteps _ (Ret _) => apply wonly_ret
      | |- only_wsteps _ (lift _) => apply wonly_lift
      | |- only_wsteps _ panic => apply wonly_panic
      | |- only_wsteps _ (weff _) => apply wonly_eff; intros ?; solve [done|exact I]
      | |- only_wsteps _ (on_auth _) => apply plain_on_auth; solve_only
      | |- only_wsteps _ (match ?x with _ => _ end) => destruct x
      end ].

Section Refresh.
Context `{WebPlatform} (m : UpstreamOauthManager).
Notation name := (up_name (um_upstream m)).

Lemma store_plain scopes : only_wsteps plain_step (google_credential_store m scopes).
Proof. unfold google_credential_store, google_provider_new. solve_plain. Qed.
Lemma google_credential_row_plain key s : only_wsteps plain_step (google_credential_row key s).
Proof. unfold google_credential_row. solve_plain. Qed.
#[local] Hint Resolve store_plain google_credential_row_plain : wonly_db.
Lemma google_row_plain scopes : only_wsteps plain_step (google_row m scopes).
Proof. unfold google_row. solve_plain. Qed.
#[local] Hint Resolve google_row_plain : wonly_db.
Lemma acquire_plain subject : only_wsteps plain_step (acquire_refresh_lock m subject).
Proof. unfold acquire_refresh_lock. solve_plain. Qed.
Lemma preflight_plain : only_wsteps plain_step (preflight_shared_google_credential m).
Proof. unfold preflight_shared_google_credential, validated_credential_row. solve_plain. Qed.
Lemma credential_row_plain subject : only_wsteps plain_step (credential_row m subject).
Proof. unfold credential_row. solve_plain. Qed.
Lemma due_plain row : only_wsteps plain_step (token_refresh_due row).
Proof. unfold token_refresh_due, manager_now. solve_plain. Qed.
Lemma get_document_plain {T} (of_json : string → result T string) url : only_wsteps plain_step (get_document of_json url).
Proof. unfold get_document, http_get. solve_plain. Qed.
#[local] Hint Resolve @get_document_plain : wonly_db.
Lemma first_metadata_plain candidates : only_wsteps plain_step (first_metadata candidates).
Proof. induction candidates; cbn [first_metadata]; solve_plain. Qed.
#[local] Hint Resolve first_metadata_plain : wonly_db.
Lemma first_server_plain url servers : only_wsteps plain_step (first_server_metadata url servers).
Proof. induction servers; cbn [first_server_metadata]; solve_plain. Qed.
#[local] Hint Resolve first_server_plain : wonly_db.
Lemma first_resource_plain candidates : only_wsteps plain_step (first_resource_metadata candidates).
Proof. induction candidates; cbn [first_resource_metadata]; solve_plain. Qed.
#[local] Hint Resolve first_resource_plain : wonly_db.
Lemma discover_published_plain url : only_wsteps plain_step (discover_published_metadata url).
Proof. unfold discover_published_metadata. solve_plain. Qed.
#[local] Hint Resolve discover_published_plain : wonly_db.
Lemma metadata_plain manager : only_wsteps plain_step (get_or_discover_metadata m manager).
Proof. unfold get_or_discover_metadata, discover_metadata. cbv zeta. solve_plain. Qed.
Lemma resolve_plain manager subject scopes use : only_wsteps plain_step (resolve_client_config m manager subject scopes use).
Proof. unfold resolve_client_config. cbv zeta. solve_plain. Qed.
#[local] Hint Resolve metadata_plain resolve_plain : wonly_db.
Lemma configured_plain subject use : only_wsteps plain_step (configured_authorization_manager m subject use).
Proof. unfold configured_authorization_manager, install_credential_store, configure_client. cbv zeta. solve_plain. Qed.
#[local] Hint Resolve configured_plain : wonly_db.
Lemma initialized_plain subject : only_wsteps plain_step (initialized_manager m subject).
Proof. unfold initialized_manager, reconfigure_client_after_store_init, configure_client. cbv zeta. solve_plain. Qed.

(** ** What is read *)

(** The [account] of the Google credential, when the upstream uses one. *)
Definition google_account : option (option string) :=
  match up_oauth (um_upstream m) with
  | Some oauth => match uo_credential oauth with GatewayConfig.GoogleProvider account => Some account | Dedicated => None end
  | None => None
  end.
Definition google_selector (account : option string) : option string :=
  match account with
  | Some value => let value := Str.trim value in if Str.is_empty value then None else Some value
  | None => None
  end.

(** The trace ends with the read of the shared credential of that account. *)
Definition account_read (tr : WTrace) (row : option GoogleProviderCredentialRow) : Prop :=
  ∃ account pre read, google_account = Some account ∧ tr = pre ++ (embed_step <$> read)
    ∧ paths (find_google_provider_credential_by_selector (um_store_key m) (google_selector account)) read (Ok row).

Lemma account_read_app (l tr : WTrace) row : account_read tr row → account_read (l ++ tr) row.
Proof.
  intros (account & pre & read & Ha & -> & Hp). exists account, (l ++ pre), read. by rewrite <- app_assoc.
Qed.

(** The trace is the read of the credential of the pair, which expires at
    [expiry] when there is one. *)
Definition expiry_read (subject : string) (tr : WTrace) (expiry : option Z) : Prop :=
  match google_account with
  | Some _ => ∃ row, account_read tr row ∧ expiry = (fun row => or_zero (gp_access_token_expires_at row)) <$> row
  | None => ∃ row, tr = [existT (OnAuth (Sql (FindUpstreamOauthCredentials name subject))) (Ok row)]
      ∧ expiry = uc_access_token_expires_at <$> row
  end.

(** A token is due in the last thirty seconds of its life, and after it. *)
Definition due_at (expiry now : Z) : Prop :=
  (0 <= now ∧ 0 < expiry ∧ expiry <= now + PROACTIVE_REFRESH_WINDOW_SECS)%Z.

Definition due_read (subject : string) (tr : WTrace) (due : bool) : Prop :=
  ∃ read expiry, expiry_read subject read expiry ∧
    match expiry with
    | None => tr = read ∧ due = false
    | Some expiry => ∃ now, tr = read ++ [existT (OnAuth Now) now] ∧ (due = true ↔ due_at expiry now)
    end.

Lemma store_selector scopes :
  always (google_credential_store m scopes) (fun _ r => ∀ s, r = Ok s →
    ∃ account, google_account = Some account ∧ gs_account s = google_selector account).
Proof.
  unfold google_credential_store, google_account.
  eapply (always_try_spec _ _ (fun _ r => r = oauth_config m)); [done| |done]. intros tr0 oauth Ho.
  unfold oauth_config in Ho. destruct (up_oauth (um_upstream m)) as [oauth'|]; [|done]. injection Ho as <-.
  destruct (uo_credential oauth) as [|account]; [by cbn|].
  destruct (uo_registration oauth) as [url|id secret|]; [by cbn| |by cbn].
  eapply always_bind_spec; [apply always_trivial|]. intros tr1 read _.
  eapply (always_try_spec _ _ (fun _ _ => True)); [apply always_trivial| |done]. intros tr2 secret' _.
  eapply (always_try_spec _ _ (fun _ _ => True)); [apply always_trivial| |done]. intros tr3 uri _.
  eapply always_bind_spec; [apply always_trivial|]. intros tr4 [provider|e] _; cbn [always map_err]; [|done].
  intros s [= <-]. by exists account.
Qed.

Lemma google_credential_row_read key s :
  always (google_credential_row key s) (fun tr r => ∀ row, r = Ok row →
    ∃ pre read, tr = pre ++ (embed_step <$> read)
      ∧ paths (find_google_provider_credential_by_selector key (gs_account s)) read (Ok row)).
Proof.
  unfold google_credential_row. eapply (always_try_spec _ _ (fun _ _ => True)); [apply always_trivial| |done].
  intros pre [] _; [by cbn|]. apply always_bind, always_on_auth, always_paths. intros read row Hp. wunroll.
  destruct row as [row|e]; cbn [map_err]; [|done]. intros ? [= <-]. exists pre, read. by rewrite app_nil_r.
Qed.

Lemma google_row_read scopes :
  always (google_row m scopes) (fun tr r => Forall plain_step tr ∧ ∀ row, r = Ok row → account_read tr row).
Proof.
  apply always_and; [apply google_row_plain|]. unfold google_row.
  eapply always_try_spec; [apply store_selector| |done]. intros tr1 s Hs.
  eapply always_mono; [apply google_credential_row_read|]. intros tr r Hr row ->.
  destruct (Hs s eq_refl) as (account & Ha & Hg). destruct (Hr row eq_refl) as (pre & read & -> & Hp).
  exists account, (tr1 ++ pre), read. rewrite <- app_assoc. split_and!; [done..|]. by rewrite <- Hg.
Qed.

Lemma is_google oauth :
  up_oauth (um_upstream m) = Some oauth → is_google_provider (uo_credential oauth) = is_some google_account.
Proof. intros Ho. unfold google_account. rewrite Ho. by destruct (uo_credential oauth). Qed.

Lemma credential_row_read subject :
  always (credential_row m subject) (fun tr r => Forall plain_step tr ∧
    ∀ row, r = Ok row → expiry_read subject tr (uc_access_token_expires_at <$> row)).
Proof.
  apply always_and; [apply credential_row_plain|]. unfold credential_row.
  eapply (always_try_spec _ _ (fun tr r => tr = [] ∧ r = oauth_config m)); [done| |by intros ? ? [_ ?]].
  intros ? oauth [-> Ho]. unfold oauth_config in Ho.
  destruct (up_oauth (um_upstream m)) as [oauth'|] eqn:Hu; [|done]. injection Ho as ->. rewrite (is_google _ Hu). unfold expiry_read. destruct google_account as [account|]; cbn [is_some].
  - eapply (always_try_spec _ _ (fun _ _ => True)); [apply always_trivial| |done]. intros tr1 scopes _.
    eapply always_try_spec; [apply google_row_read| |done]. intros tr2 row [_ Hr]. wunroll. rewrite app_nil_r.
    intros crow Hcrow. exists row. split; [apply (account_read_app tr1), Hr; done|].
    destruct row as [row|]; cbn in Hcrow |- *; [|by injection Hcrow as <-].
    destruct (json_encode (gp_granted_scopes row)); cbn in Hcrow; [by injection Hcrow as <-|done].
  - wunroll. intros [row|e]; cbn; [|done]. intros ? [= <-]. by exists row.
Qed.

Lemma due_at_iff (row : UpstreamOauthCredentialRow) now :
  match (if bool_decide (0 <= now)%Z then Ok now
         else Err (Internal "system clock error: second time provided was later than self")) with
  | Err _ => false
  | Ok now => match from_row row now with Some state => refresh_due state | None => false end
  end = true ↔ due_at (uc_access_token_expires_at row) now.
Proof.
  unfold due_at, from_row, refresh_due, i64_saturating_sub, i64_sat, i64_min, i64_max, PROACTIVE_REFRESH_WINDOW_SECS.
  case_bool_decide; [|naive_solver lia].
  case_bool_decide; [naive_solver lia|]. cbn [seconds_until_expiry]. rewrite bool_decide_eq_true. lia.
Qed.

(** The token's life, as the code reads it. *)
Lemma due_spec subject read row :
  expiry_read subject read (uc_access_token_expires_at <$> row) →
  always (token_refresh_due row) (fun tr due => due_read subject (read ++ tr) due).
Proof.
  intros Hr. unfold token_refresh_due. destruct row as [row|]; cbn [fmap option_fmap option_map] in Hr.
  - unfold manager_now. cbn [on_auth now_unix eff trigger pbind always]. intros now.
    exists read, (Some (uc_access_token_expires_at row)). split; [done|]. exists now. split; [done|]. apply due_at_iff.
  - wunroll. exists read, None. by rewrite app_nil_r.
Qed.

(** ** The discipline of one refresh *)

(** The record of failures is read, and has no entry of the last five minutes. *)
Definition cleared (subject : string) (due : bool) (check : WTrace) : Prop :=
  if due then
    check = [existT (FailureGet name subject) None]
    ∨ ∃ entry now, check = [existT (FailureGet name subject) (Some entry); existT InstantNow now]
        ∧ (entry + REFRESH_FAILURE_COOLDOWN <= now)%Z
  else check = [].

Definition recorded (subject : string) (due : bool) (tr : WTrace) : Prop :=
  if due then ∃ now, tr = [existT InstantNow now; existT (FailureInsert name subject now) ()] else tr = [].

(** A shared credential is invalidated only after a terminal error, at the
    generation just read. *)
Definition invalidates (error : RmcpError) (tr : WTrace) : Prop :=
  Forall plain_step tr
  ∨ ∃ reads row answer, terminal_refresh_error error = true
      ∧ tr = reads ++ [existT (OnAuth (Sql (InvalidateGoogle (gp_subject row) (gp_generation row)))) answer]
      ∧ Forall plain_step reads ∧ account_read reads (Some row).

(** What happens under the lock. *)
Inductive disciplined (subject : string) : WTrace → bool → Prop :=
| call_refused tr : Forall plain_step tr → disciplined subject tr false
| call_suppressed pre seen entry now :
    Forall plain_step pre → due_read subject seen true → (now < entry + REFRESH_FAILURE_COOLDOWN)%Z →
    disciplined subject (pre ++ seen ++ [existT (FailureGet name subject) (Some entry); existT InstantNow now]) false
| call_succeeded pre seen due check manager token :
    Forall plain_step pre → due_read subject seen due → cleared subject due check →
    disciplined subject (pre ++ seen ++ check
      ++ [existT (Rmcp manager GetAccessToken) (Ok token); existT (FailureRemove name subject) ()]) true
| call_failed pre seen due check manager error after record :
    Forall plain_step pre → due_read subject seen due → cleared subject due check →
    invalidates error after → recorded subject due record →
    disciplined subject (pre ++ seen ++ check ++ [existT (Rmcp manager GetAccessToken) (Err error)] ++ after ++ record) false.

Lemma map_refresh_spec error :
  always (map_refresh_error_and_maybe_invalidate m error) (fun tr _ => invalidates error tr).
Proof.
  unfold map_refresh_error_and_maybe_invalidate, oauth_config. cbv zeta. destruct (_ && _) eqn:Et; [|by left].
  apply andb_true_iff in Et as [Et _].
  eapply always_bind_spec; [apply always_and; [apply store_plain|apply store_selector]|]. intros tr1 store [H1 Hs].
  destruct store as [store|e]; [|left; by rewrite app_nil_r].
  eapply always_bind_spec; [apply always_and; [apply google_credential_row_plain|apply google_credential_row_read]|].
  intros tr2 row [H2 Hr].
  destruct row as [[row|]|e]; [|left; rewrite app_nil_r; by apply Forall_app_2..].
  cbn [on_auth invalidate_google_provider_credential sql eff trigger pbind always]. intros ans. right.
  exists (tr1 ++ tr2), row, ans. split_and!; [done|by rewrite app_assoc|by apply Forall_app_2|].
  destruct (Hs store eq_refl) as (account & Ha & Hg). destruct (Hr _ eq_refl) as (pre & read & -> & Hp).
  exists account, (tr1 ++ pre), read. rewrite <- app_assoc. split_and!; [done..|]. by rewrite <- Hg.
Qed.

(** The call itself and what follows it. *)
Definition token_tail (manager : AuthorizationManager) (subject : string) (due : bool) :
  W (result AuthorizationManager OauthError) :=
  let! token := weff (Rmcp manager GetAccessToken) in
  match token with
  | Err error =>
      let! mapped := map_refresh_error_and_maybe_invalidate m error in
      let! _ := (if due then record_failure name subject else Ret ()) in
      ret_err mapped
  | Ok _ =>
      let! _ := clear_failure name subject in
      ret_ok manager
  end.

Lemma record_spec subject (due : bool) :
  always (if due then record_failure name subject else Ret ()) (fun tr _ => recorded subject due tr).
Proof. destruct due; [|done]. unfold record_failure. wunroll. intros now []. by exists now. Qed.

Lemma tail_disciplined pre seen check manager subject due :
  Forall plain_step pre → due_read subject seen due → cleared subject due check →
  always (token_tail manager subject due) (fun tr r => disciplined subject (pre ++ seen ++ check ++ tr) (is_ok r)).
Proof.
  intros Hp Hd Hc. unfold token_tail. wunroll. intros [token|error].
  - unfold clear_failure. wunroll. intros []. by eapply call_succeeded.
  - eapply always_bind_spec; [apply map_refresh_spec|]. intros tr1 mapped H1.
    eapply always_bind_spec; [apply record_spec|]. intros tr2 [] H2. wunroll. rewrite app_nil_r.
    by apply (call_failed subject pre seen due check manager error tr1 tr2).
Qed.

Lemma obtain_disciplined pre seen manager subject due :
  Forall plain_step pre → due_read subject seen due →
  always (obtain_token m manager subject due) (fun tr r => disciplined subject (pre ++ seen ++ tr) (is_ok r)).
Proof.
  intros Hp Hd.
  assert (Htail : ∀ check, cleared subject due check → always (token_tail manager subject due)
    (fun tr r => disciplined subject (pre ++ seen ++ check ++ tr) (is_ok r)))
    by (intros check; by apply tail_disciplined).
  change (obtain_token m manager subject due) with
    (let! failed := (if due then recently_failed name subject else Ret false) in
     if failed : bool then
       ret_err (NeedsReauth ("upstream '" +:+ name +:+ "' subject '" +:+ subject
                             +:+ "' refresh failed recently; skipping retry until cooldown elapses"))
     else token_tail manager subject due).
  destruct due; [|by apply (Htail [])]. unfold recently_failed. wunroll. intros [entry|]; wunroll.
  - intros now. unfold REFRESH_FAILURE_COOLDOWN, NANOS in *. case_bool_decide as Hb; wunroll.
    + apply call_suppressed; [done..|]. unfold REFRESH_FAILURE_COOLDOWN, NANOS. lia.
    + apply (Htail [_; _]). right. exists entry, now. split; [done|]. unfold REFRESH_FAILURE_COOLDOWN, NANOS. lia.
  - apply (Htail [_]). by left.
Qed.

(** ** The lock *)

Definition lock_step (l : LockRef) : step_of wresp :=
  match l with
  | GoogleLock k => existT (OnAuth (SubjectLock k)) ()
  | PairLock subject => existT (RefreshLock name subject) ()
  end.
Definition unlock_step (l : LockRef) : step_of wresp :=
  match l with
  | GoogleLock k => existT (OnAuth (SubjectUnlock k)) ()
  | PairLock subject => existT (RefreshUnlock name subject) ()
  end.

(** A shared credential is locked by the Google account of its row, just read,
    or by the configured selector while it has no row; another credential by
    upstream and subject. *)
Definition lock_for (subject : string) (before : WTrace) (l : LockRef) : Prop :=
  match google_account with
  | Some account => ∃ row, account_read before row ∧
      l = GoogleLock (match row with
        | Some row => gp_subject row
        | None => match account with Some account => account | None => "<unbound-google-provider>" end
        end)
  | None => l = PairLock subject
  end.

Lemma acquire_spec subject :
  always (acquire_refresh_lock m subject) (fun tr r => Forall plain_step tr ∧ ∀ l, r = Ok l → lock_for subject tr l).
Proof.
  apply always_and; [apply acquire_plain|]. unfold acquire_refresh_lock, lock_for.
  destruct google_account as [account|] eqn:Ha; unfold google_account in Ha;
    (destruct (up_oauth (um_upstream m)) as [oauth|]; cbn [fmap option_fmap option_map];
      [destruct (uo_credential oauth) as [|account']|]); try done; try (by intros l [= <-]).
  injection Ha as ->.
  eapply (always_try_spec _ _ (fun _ _ => True)); [apply always_trivial| |done]. intros tr scopes _.
  eapply always_try_spec; [apply google_row_read| |done]. intros tr' row [_ Hr]. wunroll. rewrite app_nil_r.
  intros l [= <-]. exists row. split; [by apply account_read_app, Hr|done].
Qed.

(** The refresh lock is held around the body, or nothing of note happens. *)
Definition locked_run (subject : string) (body_spec : WTrace → bool → Prop) (tr : WTrace) (ok : bool) : Prop :=
  (ok = false ∧ Forall plain_step tr)
  ∨ ∃ l before body, tr = before ++ [lock_step l] ++ body ++ [unlock_step l]
      ∧ Forall plain_step before ∧ lock_for subject before l ∧ body_spec body ok.

Lemma with_lock_spec {A} subject (body : W (result A OauthError)) (spec : WTrace → bool → Prop) :
  always body (fun tr r => spec tr (is_ok r)) →
  always (with_refresh_lock m subject body) (fun tr r => locked_run subject spec tr (is_ok r)).
Proof.
  intros Hbody. unfold with_refresh_lock.
  eapply always_try_spec; [apply acquire_spec| |intros tr e [Hp _]; by left]. intros before l [Hp Hl].
  assert (Hk : ∀ Q, Q [lock_step l] () → always (lock m l) Q) by (intros Q HQ; destruct l; cbn; by intros []).
  assert (Hu : ∀ Q, Q [unlock_step l] () → always (unlock m l) Q) by (intros Q HQ; destruct l; cbn; by intros []).
  apply always_bind, Hk. eapply always_bind_spec; [exact Hbody|]. intros btr r Hb. apply always_bind, Hu. wunroll.
  right. exists l, before, btr. split_and!; [done|done|by apply Hl|done].
Qed.

(** The body of [build_auth_client] under the lock. *)
Lemma client_body_disciplined {C} subject (c : C) :
  always (let!? _ := preflight_shared_google_credential m in
          let!? manager := initialized_manager m subject in
          let!? row := credential_row m subject in
          let! refresh_due := token_refresh_due row in
          let!? manager := obtain_token m manager subject refresh_due in
          ret_ok (c, manager))
    (fun tr r => disciplined subject tr (is_ok r)).
Proof.
  eapply always_try_spec; [apply preflight_plain| |intros; by apply call_refused]. intros tr1 u H1; cbn beta in H1.
  eapply always_try_spec; [apply initialized_plain| |intros; by apply call_refused, Forall_app_2]. intros tr2 manager H2.
  eapply always_try_spec; [apply credential_row_read| |intros tr3 e [H3 _]; apply call_refused; by repeat apply Forall_app_2].
  intros tr3 row [_ H3]. specialize (H3 row eq_refl).
  eapply always_bind_spec; [by apply due_spec|]. intros tr4 due H4.
  assert (Hpre : Forall plain_step (tr1 ++ tr2)) by by apply Forall_app_2.
  eapply (always_try_spec _ _ (fun tr r => disciplined subject ((tr1 ++ tr2) ++ (tr3 ++ tr4) ++ tr) (is_ok r))).
  - by apply obtain_disciplined.
  - intros tr manager' Hd. wunroll. rewrite app_nil_r. by rewrite <- !app_assoc in Hd.
  - intros tr e Hd. by rewrite <- !app_assoc in Hd.
Qed.

(** (C30) Refreshing an outbound credential.  Everything but setting up the lock
    happens under it: the lock of the pair, or of the Google account whose row
    was just read.  Under the lock there is at most one token call.  When the
    token read is in its last thirty seconds or past it, the call is preceded by a read
    of the pair's failure record without an entry of the last five minutes
    (with such an entry there is no call), and a failed call is followed by
    recording the failure with its time; a successful call clears the record.
    A shared credential is invalidated only after a terminal error, at the
    generation just read for the configured account. *)
Theorem refresh_disciplined {C} subject (http_client : C) :
  always (build_auth_client_with m subject http_client) (fun tr r =>
    locked_run subject (disciplined subject) tr (is_ok r)).
Proof. apply with_lock_spec, client_body_disciplined. Qed.

End Refresh.
