(* ===== verification/CredentialProps.v ===== *)
(** * CredentialProps: stored outbound credentials

    Sealed tokens open only under the identity they were stored for, pending
    states are taken once, and the shared Google credential keeps its client,
    its account and its scopes when an outbound flow updates it. *)

From Stdlib Require Import Ascii.
From stdpp Require Import base gmap strings sets list.
From S2P Require Import Prelude RustStr BTree Prog AuthTypes SamplePlatform Store StoreProps Effects AtRest SqliteStore Traces WebPlatform GatewayConfig WebEffects Remote RemoteProps UpstreamStore.

(** ** The associated data identifies the row *)

Definition no_nul (s : string) : Prop := Str.all_bytes (fun a => negb (Ascii.eqb a zero)) s = true.

Lemma nul_split a b r r' : no_nul a → no_nul b → a +:+ nul +:+ r = b +:+ nul +:+ r' → a = b ∧ r = r'.
Proof.
  unfold no_nul, nul. revert b. induction a as [|x a IH]; intros [|y b]; simpl; rewrite ?Str.app_cons, ?Str.app_nil_l.
  - intros _ _ [= ->]. done.
  - intros _ Hb [= <- _]. done.
  - intros Ha _ [= -> _]. done.
  - intros [_ Ha]%andb_true_iff [_ Hb]%andb_true_iff [= <- Heq]. destruct (IH b Ha Hb Heq) as [-> ->]. done.
Qed.

Lemma credential_aad_inj u s c u' s' c' :
  no_nul u → no_nul s → no_nul u' → no_nul s' →
  credential_aad u s c = credential_aad u' s' c' → u = u' ∧ s = s' ∧ c = c'.
Proof.
  intros Hu Hs Hu' Hs' Heq. unfold credential_aad in Heq.
  apply Str.app_inj_l in Heq. apply nul_split in Heq as [-> Heq]; [|done..].
  apply Str.app_inj_l in Heq. apply nul_split in Heq as [-> Heq]; [|done..].
  apply Str.app_inj_l in Heq. done.
Qed.

Section Sealed.
Context `{WebPlatform}.

(** ChaCha20-Poly1305: what was sealed opens with the same associated data
    and with no other; [serde_json] reads back what it wrote. *)
Hypothesis aead_round_trip : ∀ k n p a c, aead_seal k n p a = Some c → aead_open k n c a = Some p.
Hypothesis aead_binds : ∀ k n p a a' c, aead_seal k n p a = Some c → a' ≠ a → aead_open k n c a' = None.
Hypothesis json_round_trip : ∀ c s, credentials_to_json c = Ok s → credentials_of_json s = Ok c.

(** The row copied to another identity. *)
Definition moved (row : UpstreamOauthCredentialRow) (u s c : string) : UpstreamOauthCredentialRow :=
  mkUpstreamOauthCredentialRow u s c (uc_granted_scopes_json row) (uc_token_blob row) (uc_token_blob_nonce row)
    (uc_token_received_at row) (uc_access_token_expires_at row) (uc_refresh_token_present row).

(** What was saved reads back, under this identity only. *)
Definition sealed_for (store : SqliteCredentialStore) (c : StoredCredentials) (row : UpstreamOauthCredentialRow) : Prop :=
  uc_upstream_name row = ss_upstream_name store ∧ uc_subject row = ss_subject store ∧ uc_client_id row = sc_client_id c
  ∧ open_row (ss_key store) row = Ok c
  ∧ ∀ u s client, no_nul u → no_nul s → (u, s, client) ≠ (ss_upstream_name store, ss_subject store, sc_client_id c) →
      open_row (ss_key store) (moved row u s client) = Err AuthorizationRequired.

Lemma sealed_opens store c nonce blob json received expires present :
  no_nul (ss_upstream_name store) → no_nul (ss_subject store) →
  String.length nonce = 12 → credentials_to_json c = Ok json →
  aead_seal (ss_key store) nonce json (credential_aad (ss_upstream_name store) (ss_subject store) (sc_client_id c)) = Some blob →
  ∀ scopes, sealed_for store c (mkUpstreamOauthCredentialRow (ss_upstream_name store) (ss_subject store) (sc_client_id c)
    scopes blob nonce received expires present).
Proof.
  intros Hu Hs Hn Hj Hseal scopes. split_and!; try done.
  - unfold open_row, open_with_aad. cbn [uc_upstream_name uc_subject uc_client_id uc_token_blob uc_token_blob_nonce].
    rewrite Hn, (aead_round_trip _ _ _ _ _ Hseal). cbn. by rewrite (json_round_trip _ _ Hj).
  - intros u s client Hnu Hns Hne. unfold open_row, open_with_aad, moved.
    cbn [uc_upstream_name uc_subject uc_client_id uc_token_blob uc_token_blob_nonce].
    rewrite Hn, (aead_binds _ _ _ _ _ _ Hseal); [done|]. intros Heq.
    apply credential_aad_inj in Heq as (-> & -> & ->); done.
Qed.

Definition stored_row (s : step_of wresp) : option UpstreamOauthCredentialRow :=
  match projT1 s with OnAuth (Sql (UpsertUpstreamOauthCredentials row)) => Some row | _ => None end.

(** (C33) Stored credentials are sealed to their identity: the one row a successful
    [save] writes opens to the credentials that were saved, and copied to any
    other upstream, subject or client it does not open. *)
Theorem credentials_sealed store c :
  no_nul (ss_upstream_name store) → no_nul (ss_subject store) →
  always (sqlite_save store c) (fun tr r =>
    random_lengths (auth_trace tr) → r = Ok () → ∃ row, omap stored_row tr = [row] ∧ sealed_for store c row).
Proof.
  intros Hu Hs. unfold sqlite_save. apply always_bind.
  assert (Hclock : always (match sc_token_received_at c with Some t => Ret (u64_as_i64 t) | None => on_auth now_unix end)
    (fun tr _ => omap stored_row tr = [])).
  { destruct (sc_token_received_at c); cbn; by intros. }
  eapply always_mono; [exact Hclock|]. intros tr received Htr. destruct (token_expiry _ _) as [expires present].
  destruct (json_encode (sc_granted_scopes c)) as [scopes|]; wunroll; [|done].
  destruct (credentials_to_json c) as [json|] eqn:Ej; wunroll; [|done].
  unfold seal_with_aad. cbn [on_auth eff trigger pbind always]. intros [nonce|e]; [|intros []].
  destruct (aead_seal _ _ _ _) as [blob|] eqn:Es; wunroll; [|done]. cbn [on_auth sql eff trigger pbind always].
  intros [u|e]; wunroll; [|done]. intros Hlen _. eexists. split; [by rewrite omap_app, Htr|].
  eapply sealed_opens; try done. apply Nat2Z.inj. apply (Hlen 12%Z nonce). unfold auth_trace.
  rewrite omap_app, elem_of_app. right. by left.
Qed.

End Sealed.

(** ** Pending states are taken once *)

Section States.
Context `{Platform}.

Definition takes_state (k : string * string * string) (ev : StoreEvent) : bool :=
  match ev with
  | mkEvent op r =>
      match op as o return result (store_resp o) AuthError → bool with
      | TakeUpstreamOauthState u s c _ => fun r => bool_decide ((u, s, c) = k) && match r with Ok (Some _) => true | _ => false end
      | _ => fun _ => false
      end r
  end.
Definition saves_state (k : string * string * string) (ev : StoreEvent) : bool :=
  match ev with
  | mkEvent op r =>
      match op as o return result (store_resp o) AuthError → bool with
      | SaveUpstreamOauthState row =>
          fun r => bool_decide ((us_upstream_name row, us_subject row, us_csrf_token row) = k) && is_ok r
      | _ => fun _ => false
      end r
  end.

Lemma exec_state_accounting (k : string * string * string) op db :
  (if takes_state k (mkEvent op (exec op db).1) then 1 else 0) + present (upstream_oauth_state (exec op db).2 !! k)
  ≤ present (upstream_oauth_state db !! k) + (if saves_state k (mkEvent op (exec op db).1) then 1 else 0).
Proof.
  destruct op; cbn [takes_state saves_state]; try (exec_cases; rewrite ?andb_false_r; lia).
  - (* DeleteExpired *)
    destruct t; simpl; try lia.
    rewrite lookup_delete_where. destruct (upstream_oauth_state db !! k); simpl; [|lia]. destruct (negb _); simpl; lia.
  - (* SaveUpstreamOauthState *)
    unfold exec, save_upstream_oauth_state_sql. destruct (insert_new _ _ _ _) eqn:E; simpl; [|rewrite andb_false_r; lia].
    apply insert_new_Ok in E as [E ->]. rewrite andb_true_r. case_bool_decide as Ek.
    + rewrite <- Ek, lookup_insert_eq. simpl. lia.
    + rewrite lookup_insert_ne by done. lia.
  - (* DeleteUpstreamOauthStateByCsrf *)
    simpl. rewrite lookup_delete_where. destruct (upstream_oauth_state db !! k); simpl; [|lia]. destruct (_ && _); simpl; lia.
  - (* SetUpstreamOauthStateClientId *)
    simpl. rewrite map_lookup_imap. destruct (upstream_oauth_state db !! k); simpl; lia.
  - (* TakeUpstreamOauthState *)
    unfold exec, take_upstream_oauth_state_sql. destruct (select_row _ _ _) eqn:E; simpl.
    + apply select_row_Some in E as [E _]. rewrite andb_true_r. case_bool_decide as Ek.
      * subst k. rewrite lookup_delete_eq, E. simpl. lia.
      * rewrite lookup_delete_ne by done. lia.
    + rewrite andb_false_r. lia.
Qed.

(** A pending outbound authorization is consumed at most once: in any sequence
    of store operations, the states taken for an upstream, subject and CSRF
    token are at most those saved for them, plus one stored before. *)
Theorem upstream_state_single_use (k : string * string * string) ops db :
  let '(evs, db') := run_ops ops db in
  count_events (takes_state k) evs + present (upstream_oauth_state db' !! k)
  ≤ present (upstream_oauth_state db !! k) + count_events (saves_state k) evs.
Proof.
  revert db; induction ops as [|op ops IH]; intros db; cbn [run_ops]; [simpl; lia|].
  pose proof (exec_state_accounting k op db) as Hs. destruct (exec op db) as [r db1]. specialize (IH db1).
  destruct (run_ops ops db1) as [evs db2]. cbn [count_events fst snd] in *. lia.
Qed.

End States.

(** ** The shared Google credential *)

Section Scopes.
Context `{WebPlatform}.

Lemma canonical_fixed scope :
  canonical_google_scope (Str.trim (canonical_google_scope (Str.trim scope))) = canonical_google_scope (Str.trim scope).
Proof.
  unfold canonical_google_scope at 2 3.
  destruct (String.eqb (Str.trim scope) "https://www.googleapis.com/auth/userinfo.email") eqn:E1; [done|].
  destruct (String.eqb (Str.trim scope) "https://www.googleapis.com/auth/userinfo.profile") eqn:E2; [done|].
  rewrite Str.trim_idem. unfold canonical_google_scope. by rewrite E1, E2.
Qed.

Lemma elem_merge x existing returned :
  x ∈ merge_google_scopes existing returned ↔
  x ≠ "" ∧ ∃ y, y ∈ existing ++ returned ∧ x = canonical_google_scope (Str.trim y).
Proof.
  unfold merge_google_scopes. rewrite BTreeSet.elem_from_iter, elem_filter_b, list_elem_of_fmap.
  rewrite negb_true_iff, is_empty_false. naive_solver.
Qed.

Lemma elem_normalize_merge x existing returned :
  x ∈ normalize_scopes (merge_google_scopes existing returned) ↔ x ∈ merge_google_scopes existing returned.
Proof.
  unfold normalize_scopes. rewrite (elem_merge x []). cbn [app]. split.
  - intros (Hx & y & Hy & ->). apply elem_merge in Hy as (Hy & z & Hz & ->). apply elem_merge.
    rewrite canonical_fixed in Hx |- *. eauto.
  - intros Hx. pose proof Hx as (Hn & y & Hy & ->)%elem_merge. split; [done|].
    exists (canonical_google_scope (Str.trim y)). split; [done|]. by rewrite canonical_fixed.
Qed.
End Scopes.

Section GoogleSave.
Context `{WebPlatform} (key : option string) (s : GoogleProviderCredentialStore).

Definition bundle (st : step_of wresp) : option GoogleBundle :=
  match projT1 st with OnAuth (Sql (UpsertGoogleBundle b _)) => Some b | _ => None end.

(** A step that writes no bundle. *)
Definition no_bundle (st : step_of wresp) : Prop := bundle st = None.

(** The stored bundle against the credential it replaces. *)
Definition bundle_sound (tr : WTrace) (credentials : StoredCredentials) (b : GoogleBundle) : Prop :=
  ∃ token existing,
    sc_token_response credentials = Some token
    ∧ (∃ pre seg post, tr = pre ++ seg ++ post ∧ paths (google_credential_row key s) seg (Ok existing))
    (* the client is the expected one, and no other client's credential is rebound *)
    ∧ sc_client_id credentials = gs_expected_client_id s ∧ gb_client_id b = gs_expected_client_id s
    ∧ (∀ row, existing = Some row → gp_client_id row = "" ∨ gp_client_id row = gs_expected_client_id s)
    (* the account stays the same *)
    ∧ (∀ row, existing = Some row → gb_subject b = gp_subject row)
    (* a new account, or one the response names, is verified and selected *)
    ∧ (∀ id_token, ot_id_token token = Some id_token →
         ∃ claims, id_token_verified (gs_provider s) tr id_token claims ∧ gb_subject b = gc_sub claims
           ∧ gc_email_verified claims = Some true
           ∧ ∀ selector, gs_account s = Some selector →
               selector_matches selector (mkGoogleIdentity (gc_sub claims) (gc_email claims) (gc_email_verified claims)) = true)
    ∧ (ot_id_token token = None → existing ≠ None)
    (* no granted scope is lost *)
    ∧ ∃ scopes, json_encode scopes = Ok (gb_granted_scopes_json b)
        ∧ ∀ x, x ∈ scopes ↔ x ∈ merge_google_scopes (match existing with Some row => gp_granted_scopes row | None => [] end)
                               (sc_granted_scopes credentials).

Lemma no_bundle_auth {A} (p : M A) :
  only_steps (sql_step (fun ev => match ev with mkEvent (UpsertGoogleBundle _ _) _ => false | _ => true end)) p →
  only_wsteps no_bundle (on_auth p).
Proof.
  intros Hp. apply always_on_auth. eapply always_mono; [exact Hp|]. intros tr a Hf. apply Forall_forall.
  intros st (e & -> & Hst)%list_elem_of_fmap. rewrite forallb_elem in Hf. apply Hf in Hst. destruct e as [e r].
  unfold no_bundle, bundle. cbn. destruct e; try done. destruct op; done.
Qed.

Lemma row_no_bundle : only_wsteps no_bundle (google_credential_row key s).
Proof.
  unfold google_credential_row. apply wonly_try.
  - destruct (gs_account s); [apply wonly_ret|]. apply wonly_bind; [|intros; apply wonly_ret].
    apply no_bundle_auth. unfold count_google_provider_credentials. solve_only.
  - intros []; [apply wonly_ret|]. apply wonly_bind; [|intros; apply wonly_ret].
    apply no_bundle_auth. unfold find_google_provider_credential_by_selector. cbv zeta. solve_only.
Qed.

Lemma verify_no_bundle g t : only_wsteps no_bundle (verify_id_token g t).
Proof.
  unfold verify_id_token, find_jwk_for_kid, fetch_jwks, refresh_jwks, cached_jwks, with_jwks_lock, fresh,
    refresh_jwks_locked.
  repeat first [apply wonly_ret|apply wonly_lift|apply wonly_panic|apply wonly_try; [|intros ?]
               |apply wonly_bind; [|intros ?]|by apply wonly_eff|by apply no_bundle_auth; unfold now_unix; solve_only
               |match goal with |- only_wsteps _ (match ?x with _ => _ end) => destruct x end].
Qed.

Lemma identity_spec token existing :
  always (identity_for_save s token existing) (fun tr r => Forall no_bundle tr ∧ ∀ subject email, r = Ok (subject, email) →
    (∀ row, existing = Some row → subject = gp_subject row)
    ∧ (∀ id_token, ot_id_token token = Some id_token →
         ∃ claims, id_token_verified (gs_provider s) tr id_token claims ∧ subject = gc_sub claims
           ∧ gc_email_verified claims = Some true
           ∧ ∀ selector, gs_account s = Some selector →
               selector_matches selector (mkGoogleIdentity (gc_sub claims) (gc_email claims) (gc_email_verified claims)) = true)
    ∧ (ot_id_token token = None → existing ≠ None)).
Proof.
  unfold identity_for_save. destruct (ot_id_token token) as [t|].
  - unfold verify_identity. apply always_bind.
    eapply (always_try_spec _ _ (fun tr r => Forall no_bundle tr ∧ ∀ claims, r = Ok claims →
      id_token_verified (gs_provider s) tr t claims)).
    + apply always_and; [apply verify_no_bundle|apply verify_id_token_spec].
    + intros tr claims [Hn Hv]. wunroll. rewrite !app_nil_r. split; [done|]. intros subject email. cbn [map_err].
      unfold accept_identity. cbn [gy_email_verified gy_subject gy_email].
      case_bool_decide as Ee; cbn [negb]; [|done]. destruct (is_some_and _ existing) eqn:Ex; [done|].
      destruct (is_some_and _ (gs_account s)) eqn:Ea; [done|]. intros [= <- <-]. split_and!.
      * intros row ->. cbn in Ex. by apply negb_false_iff, String.eqb_eq in Ex.
      * intros id [= <-]. exists claims. split_and!; [by apply Hv|done|done|]. intros selector Hs. rewrite Hs in Ea.
        cbn in Ea. by apply negb_false_iff in Ea.
      * done.
    + intros tr e [Hn _]. wunroll. rewrite app_nil_r. by split.
  - wunroll. split; [constructor|]. intros subject email. destruct existing as [row|]; [|done].
    intros [= <- <-]. split_and!; [by intros ? [= <-]|done|done].
Qed.

Lemma omap_nil_iff_all {A B} (f : A → option B) l : Forall (fun x => f x = None) l → omap f l = [].
Proof. induction 1 as [|x l Hx Hl IH]; [done|]. cbn. by rewrite Hx. Qed.

(** The bundle an update writes. *)
Lemma upsert_bundle u :
  always (on_auth (upsert_google_provider_token_bundle key u)) (fun tr _ => ∀ b, b ∈ omap bundle tr →
    gb_subject b = gu_subject u ∧ gb_client_id b = gu_client_id u
    ∧ json_encode (normalize_scopes (gu_granted_scopes u)) = Ok (gb_granted_scopes_json b)).
Proof.
  apply always_on_auth. unfold upsert_google_provider_token_bundle. cbv zeta.
  destruct (json_encode (normalize_scopes (gu_granted_scopes u))) as [json|]; unroll;
    [|intros b Hb; by apply elem_of_nil in Hb].
  assert (Hseal : ∀ t, always (maybe_encrypt key t) (fun tr _ => omap bundle (embed_step <$> tr) = [])).
  { intros t. destruct key as [k|]; [|by cbn]. cbn [maybe_encrypt]. unfold encrypt_provider_token. unroll.
    intros [nonce|e]; unroll; [|done]. by destruct (aead_encrypt k nonce t). }
  eapply always_try_spec; [apply Hseal| |intros tr e Hn b Hb; cbn beta in Hn; rewrite Hn in Hb; by apply elem_of_nil in Hb].
  intros tr1 access H1. cbn beta in H1.
  eapply always_try_spec; [apply Hseal| |intros tr e Hn b Hb; cbn beta in Hn;
    rewrite fmap_app, omap_app, H1, Hn in Hb; by apply elem_of_nil in Hb].
  intros tr2 refresh H2. cbn beta in H2. unroll. intros now r b.
  rewrite fmap_app, omap_app, H1, fmap_app, omap_app, H2. cbn. intros ->%list_elem_of_singleton. done.
Qed.

Lemma id_token_verified_app g (l tr r : WTrace) t c : id_token_verified g tr t c → id_token_verified g (l ++ tr ++ r) t c.
Proof.
  intros (h & kid & k & dk & clock & H1 & H2 & H3 & (jwks & Hj & Hk) & H5 & H6 & H7 & H8 & H9).
  exists h, kid, k, dk, clock. split_and!; try done.
  - exists jwks. split; [by apply jwks_from_mono|done].
  - rewrite !elem_of_app. auto.
Qed.

(** Updating the shared Google credential from an outbound flow never rebinds
    another client's credential, never changes its account, accepts an account
    only from a verified token that matches the configured selector, and
    stores the union of the scopes. *)
Theorem google_save_sound credentials :
  always (google_save key s credentials) (fun tr _ => ∀ b, b ∈ omap bundle tr → bundle_sound tr credentials b).
Proof.
  unfold google_save. destruct (String.eqb_spec (sc_client_id credentials) (gs_expected_client_id s)) as [Hc|];
    wunroll; [|intros b Hb; by apply elem_of_nil in Hb].
  destruct (sc_token_response credentials) as [token|] eqn:Et; wunroll; [|intros b Hb; by apply elem_of_nil in Hb].
  apply always_bind, always_paths. intros tr1 row Hp1.
  pose proof (proj1 (always_paths _ _) row_no_bundle tr1 row Hp1) as Hn1. cbn beta in Hn1.
  assert (Hb1 : omap bundle tr1 = []) by (apply omap_nil_iff_all; exact Hn1).
  destruct row as [existing|e]; wunroll; [|rewrite app_nil_r, Hb1; intros b Hb; by apply elem_of_nil in Hb].
  destruct (is_some_and (foreign_client s) existing) eqn:Ef; wunroll;
    [rewrite app_nil_r, Hb1; intros b Hb; by apply elem_of_nil in Hb|].
  eapply always_try_spec; [apply identity_spec| |].
  2: { intros tr e [Hn _] b. rewrite omap_app, Hb1, (omap_nil_iff_all bundle tr Hn). intros Hb. by apply elem_of_nil in Hb. }
  intros tr2 [subject email] [Hn2 Hid]. destruct (Hid subject email eq_refl) as (Hacc & Hver & Hnone).
  assert (Hb2 : omap bundle tr2 = []) by (apply omap_nil_iff_all; exact Hn2).
  destruct (opt_or _ _) as [rt|]; wunroll;
    [|rewrite app_nil_r, omap_app, Hb1, Hb2; intros b Hb; by apply elem_of_nil in Hb].
  apply always_bind, always_paths. intros tr3 received Hp3.
  assert (Hb3 : omap bundle tr3 = []).
  { destruct (sc_token_received_at credentials).
    - by apply paths_inv in Hp3 as [-> _].
    - apply paths_inv in Hp3 as (r & tr' & -> & Hp3). by apply paths_inv in Hp3 as [-> _]. }
  apply always_bind. eapply always_mono; [apply upsert_bundle|]. intros tr4 stored Hup. cbn beta in Hup. wunroll.
  intros b. rewrite app_nil_r, !omap_app, Hb1, Hb2, Hb3. cbn [app]. intros Hb.
  destruct (Hup b Hb) as (Hsub & Hcl & Hsc). cbn in Hsub, Hcl.
  exists token, existing. split_and!; try done.
  - exists [], tr1, (tr2 ++ tr3 ++ tr4). done.
  - by rewrite Hcl.
  - intros row ->. cbn in Ef. unfold foreign_client in Ef. apply andb_false_iff in Ef as [Ef|Ef].
    + apply negb_false_iff, is_empty_true in Ef. by left.
    + apply negb_false_iff, String.eqb_eq in Ef. by right.
  - intros row Hr. rewrite Hsub. by apply Hacc.
  - intros t Ht. destruct (Hver t Ht) as (claims & Hv & Hs & He & Hsel). exists claims. split_and!; try done.
    + by apply id_token_verified_app.
    + by rewrite Hsub.
  - exists (normalize_scopes (merge_google_scopes (match existing with Some row => gp_granted_scopes row | None => [] end)
              (sc_granted_scopes credentials))).
    split; [exact Hsc|]. intros x. apply elem_normalize_merge.
Qed.
End GoogleSave.

(** ** Examples *)

Lemma put_text_app a r : put_text a r = put_text a "" +:+ r.
Proof. induction a as [|c a IH]; [done|]. cbn [put_text]. by rewrite IH, !Str.app_cons. Qed.

#[local] Existing Instance sample_platform.
#[local] Existing Instance sample_web.

Lemma sample_seal_opens (k n p a c : string) : aead_seal k n p a = Some c → aead_open k n c a = Some p.
Proof.
  cbn. intros [= <-]. apply Str.strip_prefix_spec.
  rewrite (put_text_app k (put_text n (put_text a p))), (put_text_app n (put_text a p)), (put_text_app a p),
    (put_text_app k (put_text n (put_text a ""))), (put_text_app n (put_text a "")). by rewrite !Str.app_assoc.
Qed.
Lemma sample_seal_binds (k n p a a' c : string) : aead_seal k n p a = Some c → a' ≠ a → aead_open k n c a' = None.
Proof.
  cbn. intros [= <-] Hne. destruct (Str.strip_prefix _ _) as [r|] eqn:E; [|done]. exfalso.
  apply Str.strip_prefix_spec in E.
  rewrite (put_text_app k (put_text n (put_text a' ""))), (put_text_app n (put_text a' "")), !Str.app_assoc in E.
  rewrite <- (put_text_app a' r), <- (put_text_app n), <- (put_text_app k) in E.
  pose proof (get_put_text k (put_text n (put_text a p))) as G. rewrite E, get_put_text in G. injection G as G.
  pose proof (get_put_text n (put_text a p)) as G2. rewrite <- G, get_put_text in G2. injection G2 as G2.
  pose proof (get_put_text a p) as G3. rewrite <- G2, get_put_text in G3. injection G3 as G3 _. done.
Qed.
Lemma sample_json_opens (c : StoredCredentials) (s : string) : credentials_to_json c = Ok s → credentials_of_json s = Ok c.
Proof. cbn. intros [= <-]. by rewrite sample_credentials_round_trip. Qed.

Definition sample_credentials : StoredCredentials :=
  mkStoredCredentials "client-1" (Some (mkOAuthTokenResponse "access" (Some "refresh") (Some 3600%Z) None None))
    ["mcp:read"] (Some 1000000%Z) (Some "https://as.example").

Lemma credentials_sealed_witness :
  always (sqlite_save (mkSqliteStore "key" "github" "alice") sample_credentials) (fun tr r =>
    random_lengths (auth_trace tr) → r = Ok () →
    ∃ row, omap stored_row tr = [row] ∧ sealed_for (mkSqliteStore "key" "github" "alice") sample_credentials row).
Proof.
  apply (credentials_sealed sample_seal_opens sample_seal_binds sample_json_opens); reflexivity.
Defined.
