(* ===== verification/AuthLoad.v ===== *)
(** * AuthLoad: the authorization server's configuration

    [labby-auth/src/config.rs]: the builder, the reading of environment-style
    pairs and the validation; [AuthState::new] of [state.rs], which turns a
    loaded configuration into the state the handlers run with; and the start
    of the outbound OAuth runtime in [upstream/runtime.rs].  A [HashMap] is a
    [gmap], a [PathBuf] its string, a [Duration] its whole seconds. *)

From Stdlib Require Import Ascii.
From stdpp Require Import base gmap strings pretty list.
From S2P Require Import Prelude RustStr Prog AuthTypes SamplePlatform Effects AtRest WebPlatform GatewayConfig WebEffects Remote UpstreamStore UpstreamManager.

Definition DEFAULT_CALLBACK_PATH : string := "/auth/google/callback".
Definition DEFAULT_AUTH_DB_NAME : string := "auth.db".
Definition DEFAULT_KEY_NAME : string := "auth-jwt.pem".
Definition DEFAULT_ACCESS_TOKEN_TTL_SECS : Z := 3600.
Definition DEFAULT_REFRESH_TOKEN_TTL_SECS : Z := 30 * 24 * 3600.
Definition DEFAULT_AUTH_CODE_TTL_SECS : Z := 300.
Definition DEFAULT_REGISTER_REQUESTS_PER_MINUTE : Z := 20.
Definition DEFAULT_AUTHORIZE_REQUESTS_PER_MINUTE : Z := 60.
Definition DEFAULT_TOKEN_REQUESTS_PER_MINUTE : Z := 120.
Definition DEFAULT_MAX_PENDING_OAUTH_STATES : Z := 1024.
Definition DEFAULT_ENV_PREFIX : string := "LAB".
Definition DEFAULT_SCOPE : string := "lab".
Definition DEFAULT_RESOURCE_PATH : string := "/mcp".

Record GoogleConfig := mkGoogleConfig {
  gc_client_id : string;
  gc_client_secret : string;
  gc_callback_url : option Url;
  gc_callback_path : string;
  gc_scopes : list string;
}.

(** [AuthConfig] with every field; [AuthTypes.AuthConfig] is the part the
    handlers read, once the server runs in OAuth mode. *)
Record FullAuthConfig := mkFullAuthConfig {
  fc_mode : AuthMode;
  fc_public_url : option Url;
  fc_sqlite_path : string;
  fc_key_path : string;
  fc_bootstrap_secret : option string;
  fc_allowed_client_redirect_uris : list string;
  fc_admin_email : string;
  fc_google : GoogleConfig;
  fc_access_token_ttl : Z;
  fc_refresh_token_ttl : Z;
  fc_auth_code_ttl : Z;
  fc_register_requests_per_minute : Z;
  fc_authorize_requests_per_minute : Z;
  fc_token_requests_per_minute : Z;
  fc_max_pending_oauth_states : Z;
  fc_codex_issuer_compatibility : bool;
  fc_env_prefix : string;
  fc_default_data_dir : string;
  fc_session_cookie_name : string;
  fc_scopes_supported : list string;
  fc_resource_path : string;
  fc_default_scope : string;
  fc_static_token_scopes : list string;
  fc_login_path : string;
  fc_enable_dynamic_registration : bool;
  fc_disable_static_token_with_oauth : bool;
  fc_token_encryption_key : option string;
  fc_machine_clients : list MachineClientConfig;
  fc_enterprise_issuers : list EnterpriseIssuerConfig;
}.

Record AuthConfigBuilder := mkAuthConfigBuilder {
  ab_env_prefix : string;
  ab_default_data_dir : option string;
  ab_session_cookie_name : string;
  ab_scopes_supported : list string;
  ab_resource_path : string;
  ab_default_scope : string;
  ab_static_token_scopes : list string;
  ab_login_path : string;
  ab_enable_dynamic_registration : bool;
  ab_disable_static_token_with_oauth : bool;
}.

Definition builder_new : AuthConfigBuilder := {|
  ab_env_prefix := DEFAULT_ENV_PREFIX;
  ab_default_data_dir := None;
  ab_session_cookie_name := "lab_session";
  ab_scopes_supported := [DEFAULT_SCOPE; DEFAULT_SCOPE +:+ ":admin"];
  ab_resource_path := DEFAULT_RESOURCE_PATH;
  ab_default_scope := DEFAULT_SCOPE;
  ab_static_token_scopes := ["lab:read"; "lab:admin"];
  ab_login_path := "/auth/login";
  ab_enable_dynamic_registration := false;
  ab_disable_static_token_with_oauth := false;
|}.

(** ** Reading variables *)

Definition env_key (prefix suffix : string) : string :=
  let trimmed := Str.trim_end_matches "_" prefix in
  if Str.is_empty trimmed then suffix else trimmed +:+ "_" +:+ suffix.

(** Blank values are dropped; a later pair replaces an earlier one. *)
Definition normalize (vars : list (string * string)) : gmap string string :=
  foldl (fun m kv => let trimmed := Str.trim kv.2 in if Str.is_empty trimmed then m else <[kv.1 := trimmed]> m)
    ∅ vars.

Definition auth_mode_parse (value : option string) (env_key_for_diagnostics : string) : result AuthMode AuthError :=
  let v := Str.to_ascii_lowercase (Str.trim (match value with Some v => v | None => "bearer" end)) in
  if String.eqb v "bearer" then Ok Bearer
  else if String.eqb v "oauth" then Ok OAuth
  else Err (Config (env_key_for_diagnostics +:+ " must be `bearer` or `oauth`, got `" +:+ v +:+ "`")).

Definition mode_from_sources_with_prefix (vars : list (string * string)) (env_prefix : string) :
  result AuthMode AuthError :=
  let key := env_key env_prefix "AUTH_MODE" in auth_mode_parse (normalize vars !! key) key.

(** [Display] of the error of [str::parse] for an unsigned integer. *)
Fixpoint digits_error (max acc : Z) (s : string) : string :=
  match s with
  | EmptyString => "invalid digit found in string"
  | String c r =>
      let d := (Z.of_nat (Ascii.nat_of_ascii c) - 48)%Z in
      if bool_decide (0 <= d < 10)%Z then
        let acc := (acc * 10 + d)%Z in
        if bool_decide (acc <= max)%Z then digits_error max acc r else "number too large to fit in target type"
      else "invalid digit found in string"
  end.
Definition parse_uint_error (max : Z) (s : string) : string :=
  if Str.is_empty s then "cannot parse integer from empty string"
  else digits_error max 0 (match s with String "+" r => r | _ => s end).

Definition u32_max : Z := 4294967295.

Definition default_google_scopes : list string := ["openid"; "email"; "profile"].

(** [Path::join] with a relative name. *)
Definition path_join (base name : string) : string :=
  if Str.is_empty base || Str.ends_with "/" base then base +:+ name else base +:+ "/" +:+ name.

Definition home_dir (env : string → option string) : option string :=
  match env "HOME" with Some home => Some home | None => env "USERPROFILE" end.
Definition default_auth_dir (env : string → option string) : string :=
  match home_dir env with Some home => path_join home ".labby" | None => ".labby" end.

Definition unwrap_or {A} (o : option A) (d : A) : A := match o with Some a => a | None => d end.

Section Load.
Context `{WebPlatform}.
(** The [serde] decoders of the two JSON variables. *)
Context (machine_clients_of_json : string → result (list MachineClientConfig) string)
        (enterprise_issuers_of_json : string → result (list EnterpriseIssuerConfig) string).

Section Vars.
Context (vars : gmap string string).

Definition read_csv (key : string) : option (list string) :=
  (fun value => List.filter (fun e => negb (Str.is_empty e)) (Str.trim <$> Str.split "," value)) <$> vars !! key.
Definition read_url (key : string) : result (option Url) AuthError :=
  transpose ((fun value => map_err (fun error => Config (key +:+ " must be a valid URL: " +:+ error)) (url_parse value))
             <$> vars !! key).
Definition read_json {T} (of_json : string → result T string) (key : string) : result (option T) AuthError :=
  transpose ((fun value => map_err (fun error => Config (key +:+ " must be valid JSON: " +:+ error)) (of_json value))
             <$> vars !! key).
Definition read_uint (max : Z) (what key : string) : result (option Z) AuthError :=
  transpose ((fun value => ok_or (parse_uint max value)
                (Config (key +:+ " must be " +:+ what +:+ ": " +:+ parse_uint_error max value))) <$> vars !! key).
Definition read_u64 : string → result (option Z) AuthError := read_uint u64_max "an integer number of seconds".
Definition read_u32 : string → result (option Z) AuthError :=
  read_uint u32_max "an integer number of requests per minute".
Definition read_usize : string → result (option Z) AuthError := read_uint usize_max "a positive integer".
Definition parse_bool (key value : string) : result bool AuthError :=
  let v := Str.to_ascii_lowercase (Str.trim value) in
  if String.eqb v "1" || String.eqb v "true" then Ok true
  else if String.eqb v "0" || String.eqb v "false" then Ok false
  else Err (Config (key +:+ " must be `true`, `false`, `1`, or `0`, got `" +:+ v +:+ "`")).
Definition read_bool (key : string) : result (option bool) AuthError :=
  transpose (parse_bool key <$> vars !! key).
Definition read_encryption_key (key : string) : result (option string) AuthError :=
  transpose ((fun raw => map_err (fun e => Config ("invalid " +:+ key +:+ ": " +:+ to_string e)) (from_encoded raw))
             <$> vars !! key).
End Vars.

(** ** Validation *)

Fixpoint validate_machine_clients (l : list MachineClientConfig) : result unit AuthError :=
  match l with
  | [] => Ok ()
  | client :: rest =>
      if Str.is_empty (Str.trim (mc_client_id client)) then Err (Config "machine clients require client_id")
      else if Bool.eqb (bool_decide (is_Some (mc_client_secret client))) (bool_decide (is_Some (mc_jwks client)))
      then Err (Config "machine clients require exactly one of client_secret or jwks")
      else if bool_decide (mc_resources client = [])
      then Err (Config "machine clients require at least one allowed resource")
      else validate_machine_clients rest
  end.

Fixpoint validate_enterprise_issuers (l : list EnterpriseIssuerConfig) : result unit AuthError :=
  match l with
  | [] => Ok ()
  | issuer :: rest =>
      if Str.is_empty (Str.trim (ei_issuer issuer))
         || (bool_decide (ei_jwks_uri issuer = None) && bool_decide (ei_jwks issuer = None))
      then Err (Config "enterprise issuers require issuer and jwks_uri or jwks")
      else if match ei_jwks_uri issuer with Some uri => negb (String.eqb (url_scheme uri) "https") | None => false end
      then Err (Config "enterprise issuer jwks_uri must use https")
      else validate_enterprise_issuers rest
  end.

Definition validate_oauth (c : FullAuthConfig) : result unit AuthError :=
  let prefix := fc_env_prefix c in
  if bool_decide (fc_public_url c = None)
  then Err (Config (prefix +:+ "_PUBLIC_URL is required when " +:+ prefix +:+ "_AUTH_MODE=oauth"))
  else if Str.is_empty (gc_client_id (fc_google c))
  then Err (Config (prefix +:+ "_GOOGLE_CLIENT_ID is required when " +:+ prefix +:+ "_AUTH_MODE=oauth"))
  else if Str.is_empty (gc_client_secret (fc_google c))
  then Err (Config (prefix +:+ "_GOOGLE_CLIENT_SECRET is required when " +:+ prefix +:+ "_AUTH_MODE=oauth"))
  else if Str.is_empty (fc_admin_email c)
  then Err (Config (prefix +:+ "_AUTH_ADMIN_EMAIL is required when " +:+ prefix +:+ "_AUTH_MODE=oauth — set the Google email of the bootstrap admin so no account can log in unless explicitly permitted"))
  else Ok ().

Definition validate (c : FullAuthConfig) : result unit AuthError :=
  let prefix := fc_env_prefix c in
  if negb (Str.starts_with "/" (gc_callback_path (fc_google c)))
  then Err (Config (prefix +:+ "_GOOGLE_CALLBACK_PATH must start with `/`, got `" +:+ gc_callback_path (fc_google c) +:+ "`"))
  else if negb (Str.starts_with "/" (fc_resource_path c))
  then Err (Config ("resource_path must start with `/`, got `" +:+ fc_resource_path c +:+ "`"))
  else if negb (Str.starts_with "/" (fc_login_path c))
  then Err (Config ("login_path must start with `/`, got `" +:+ fc_login_path c +:+ "`"))
  else if Str.is_empty (fc_session_cookie_name c) then Err (Config "session_cookie_name must not be empty")
  else if Str.is_empty (fc_default_scope c) then Err (Config "default_scope must not be empty")
  else if bool_decide (fc_scopes_supported c = []) then Err (Config "scopes_supported must contain at least one scope")
  else if negb (existsb (String.eqb (fc_default_scope c)) (fc_scopes_supported c))
  then Err (Config ("default_scope `" +:+ fc_default_scope c +:+ "` must be listed in scopes_supported"))
  else
    let? _ := validate_machine_clients (fc_machine_clients c) in
    let? _ := validate_enterprise_issuers (fc_enterprise_issuers c) in
    match fc_mode c with OAuth => validate_oauth c | Bearer => Ok () end.

(** ** The builder *)

Definition build_from_sources (env : string → option string) (b : AuthConfigBuilder)
    (pairs : list (string * string)) : result FullAuthConfig AuthError :=
  let vars := normalize pairs in
  let prefix := ab_env_prefix b in
  let key := env_key prefix in
  let? mode := auth_mode_parse (vars !! key "AUTH_MODE") (key "AUTH_MODE") in
  let admin_email := match vars !! key "AUTH_ADMIN_EMAIL" with
                     | Some raw => Str.to_ascii_lowercase (Str.trim raw) | None => "" end in
  let base_dir := unwrap_or (ab_default_data_dir b) (default_auth_dir env) in
  let? public_url := read_url vars (key "PUBLIC_URL") in
  let? callback_url := read_url vars (key "GOOGLE_CALLBACK_URL") in
  let? access_token_ttl := read_u64 vars (key "AUTH_ACCESS_TOKEN_TTL_SECS") in
  let? refresh_token_ttl := read_u64 vars (key "AUTH_REFRESH_TOKEN_TTL_SECS") in
  let? auth_code_ttl := read_u64 vars (key "AUTH_CODE_TTL_SECS") in
  let? register_rpm := read_u32 vars (key "AUTH_REGISTER_REQUESTS_PER_MINUTE") in
  let? authorize_rpm := read_u32 vars (key "AUTH_AUTHORIZE_REQUESTS_PER_MINUTE") in
  let? token_rpm := read_u32 vars (key "AUTH_TOKEN_REQUESTS_PER_MINUTE") in
  let? max_pending := read_usize vars (key "AUTH_MAX_PENDING_OAUTH_STATES") in
  let? codex_compat := read_bool vars (key "AUTH_CODEX_ISSUER_COMPATIBILITY") in
  let? token_encryption_key := read_encryption_key vars (key "TOKEN_ENCRYPTION_KEY") in
  let? machine_clients := read_json vars machine_clients_of_json (key "AUTH_MACHINE_CLIENTS_JSON") in
  let? enterprise_issuers := read_json vars enterprise_issuers_of_json (key "AUTH_ENTERPRISE_ISSUERS_JSON") in
  let c := {|
    fc_mode := mode;
    fc_public_url := public_url;
    fc_sqlite_path := unwrap_or (vars !! key "AUTH_SQLITE_PATH") (path_join base_dir DEFAULT_AUTH_DB_NAME);
    fc_key_path := unwrap_or (vars !! key "AUTH_KEY_PATH") (path_join base_dir DEFAULT_KEY_NAME);
    fc_bootstrap_secret := vars !! key "AUTH_BOOTSTRAP_SECRET";
    fc_allowed_client_redirect_uris := unwrap_or (read_csv vars (key "AUTH_ALLOWED_REDIRECT_URIS")) [];
    fc_admin_email := admin_email;
    fc_google := {|
      gc_client_id := unwrap_or (vars !! key "GOOGLE_CLIENT_ID") "";
      gc_client_secret := unwrap_or (vars !! key "GOOGLE_CLIENT_SECRET") "";
      gc_callback_url := callback_url;
      gc_callback_path := unwrap_or (vars !! key "GOOGLE_CALLBACK_PATH") DEFAULT_CALLBACK_PATH;
      gc_scopes := unwrap_or (read_csv vars (key "GOOGLE_SCOPES")) default_google_scopes |};
    fc_access_token_ttl := unwrap_or access_token_ttl DEFAULT_ACCESS_TOKEN_TTL_SECS;
    fc_refresh_token_ttl := unwrap_or refresh_token_ttl DEFAULT_REFRESH_TOKEN_TTL_SECS;
    fc_auth_code_ttl := unwrap_or auth_code_ttl DEFAULT_AUTH_CODE_TTL_SECS;
    fc_register_requests_per_minute := unwrap_or register_rpm DEFAULT_REGISTER_REQUESTS_PER_MINUTE;
    fc_authorize_requests_per_minute := unwrap_or authorize_rpm DEFAULT_AUTHORIZE_REQUESTS_PER_MINUTE;
    fc_token_requests_per_minute := unwrap_or token_rpm DEFAULT_TOKEN_REQUESTS_PER_MINUTE;
    fc_max_pending_oauth_states := unwrap_or max_pending DEFAULT_MAX_PENDING_OAUTH_STATES;
    fc_codex_issuer_compatibility := unwrap_or codex_compat false;
    fc_env_prefix := prefix;
    fc_default_data_dir := base_dir;
    fc_session_cookie_name := ab_session_cookie_name b;
    fc_scopes_supported := unwrap_or (read_csv vars (key "AUTH_SCOPES_SUPPORTED")) (ab_scopes_supported b);
    fc_resource_path := ab_resource_path b;
    fc_default_scope := ab_default_scope b;
    fc_static_token_scopes := ab_static_token_scopes b;
    fc_login_path := ab_login_path b;
    fc_enable_dynamic_registration := ab_enable_dynamic_registration b;
    fc_disable_static_token_with_oauth := ab_disable_static_token_with_oauth b;
    fc_token_encryption_key := token_encryption_key;
    fc_machine_clients := unwrap_or machine_clients [];
    fc_enterprise_issuers := unwrap_or enterprise_issuers [] |} in
  let? _ := validate c in
  Ok c.

(** ** [AuthState::new] *)

Definition build_google_redirect_uri (public_url : Url) (callback_path : string) : Url :=
  let base_path := Str.trim_end_matches "/" (url_path public_url) in
  let callback_path := Str.trim_start_matches "/" callback_path in
  let next_path := if Str.is_empty base_path then "/" +:+ callback_path
                   else base_path +:+ "/" +:+ callback_path in
  url_clear_fragment (url_clear_query (url_set_path public_url next_path)).

(** What the handlers read of the configuration. *)
Definition handler_config (c : FullAuthConfig) (public_url : Url) : AuthConfig := {|
  cf_mode := fc_mode c;
  cf_public_url := public_url;
  cf_allowed_client_redirect_uris := fc_allowed_client_redirect_uris c;
  cf_admin_email := fc_admin_email c;
  cf_access_token_ttl := fc_access_token_ttl c;
  cf_refresh_token_ttl := fc_refresh_token_ttl c;
  cf_auth_code_ttl := fc_auth_code_ttl c;
  cf_max_pending_oauth_states := fc_max_pending_oauth_states c;
  cf_codex_issuer_compatibility := fc_codex_issuer_compatibility c;
  cf_env_prefix := fc_env_prefix c;
  cf_session_cookie_name := fc_session_cookie_name c;
  cf_scopes_supported := fc_scopes_supported c;
  cf_resource_path := fc_resource_path c;
  cf_default_scope := fc_default_scope c;
  cf_machine_clients := fc_machine_clients c;
  cf_enterprise_issuers := fc_enterprise_issuers c;
  cf_token_encryption_key := fc_token_encryption_key c;
  cf_static_token_scopes := fc_static_token_scopes c;
  cf_login_path := fc_login_path c;
  cf_enable_dynamic_registration := fc_enable_dynamic_registration c;
  cf_disable_static_token_with_oauth := fc_disable_static_token_with_oauth c;
|}.

(** [AuthState::new]: [open_store] and [load_keys] are the outcomes of opening
    the database and of loading or creating the signing key at the configured
    paths. *)
Definition auth_state_new (open_store : string → option string → result unit AuthError)
    (load_keys : string → result unit AuthError) (c : FullAuthConfig) : W (result AuthState AuthError) :=
  match fc_mode c with
  | Bearer => ret_err (Config ("AuthState requires " +:+ fc_env_prefix c +:+ "_AUTH_MODE=oauth"))
  | OAuth =>
      let!? public_url := lift (ok_or (fc_public_url c)
        (Config (fc_env_prefix c +:+ "_PUBLIC_URL is required when " +:+ fc_env_prefix c +:+ "_AUTH_MODE=oauth"))) in
      let redirect_uri := unwrap_or (gc_callback_url (fc_google c))
                            (build_google_redirect_uri public_url (gc_callback_path (fc_google c))) in
      let!? _ := lift (open_store (fc_sqlite_path c) (fc_token_encryption_key c)) in
      let!? _ := lift (load_keys (fc_key_path c)) in
      let!? google := google_provider_new (gc_client_id (fc_google c)) (gc_client_secret (fc_google c)) redirect_uri in
      ret_ok (mkAuthState (handler_config c public_url) (gl_client_id google) (gl_redirect_uri google)
                (gc_scopes (fc_google c)) (gl_authorize_endpoint google))
  end.

End Load.
