(* ===== verification/AuthLoadProps.v ===== *)
(** * AuthLoadProps: what a loaded configuration is

    The builder of [config.rs] succeeds exactly on the assignments whose every
    variable reads as a value of its field and whose result is valid, and each
    field is then the one value the pairs determine; such a configuration
    starts the server. *)

From Stdlib Require Import Ascii.
From stdpp Require Import base gmap strings pretty list.
From S2P Require Import Prelude RustStr Prog AuthTypes SamplePlatform Effects AtRest WebPlatform WebEffects Remote AuthLoad.

(** ** Settings *)

(** The last pair with [key] whose value is not blank carries [v]. *)
Definition set_to (vars : list (string * string)) (key v : string) : Prop :=
  ∃ pre raw post, vars = pre ++ (key, raw) :: post ∧ Str.trim raw = v ∧ v ≠ "" ∧
    Forall (fun kv => kv.1 = key → Str.trim kv.2 = "") post.

Lemma normalize_snoc vars kv :
  normalize (vars ++ [kv]) =
  if Str.is_empty (Str.trim kv.2) then normalize vars else <[kv.1 := Str.trim kv.2]> (normalize vars).
Proof. unfold normalize. by rewrite foldl_app. Qed.

Lemma set_to_snoc vars k raw key v :
  set_to (vars ++ [(k, raw)]) key v ↔
  (k = key ∧ Str.trim raw = v ∧ v ≠ "") ∨ ((k = key → Str.trim raw = "") ∧ set_to vars key v).
Proof.
  split.
  - intros (pre & r & post & Heq & Hv & Hne & Hf). destruct post as [|x post _] using rev_ind.
    + apply app_inj_tail in Heq as [-> [= -> ->]]. by left.
    + rewrite app_comm_cons, app_assoc in Heq. apply app_inj_tail in Heq as [-> <-].
      apply Forall_app in Hf as [Hf [Hx _]%Forall_cons]. right. split; [exact Hx|]. by exists pre, r, post.
  - intros [(-> & Hv & Hne)|[Hk (pre & r & post & -> & Hv & Hne & Hf)]].
    + by exists vars, raw, [].
    + exists pre, r, (post ++ [(k, raw)]). rewrite <- app_assoc. split_and!; [done..|].
      apply Forall_app_2; [done|]. by constructor.
Qed.

Lemma normalize_lookup vars key v : normalize vars !! key = Some v ↔ set_to vars key v.
Proof.
  revert v. induction vars as [|[k raw] vars IH] using rev_ind; intros v.
  { unfold normalize. simpl. rewrite lookup_empty. split; [done|]. by intros ([] & ? & ? & [=] & _). }
  rewrite normalize_snoc, set_to_snoc, <- IH. cbn [fst snd]. destruct (Str.is_empty (Str.trim raw)) eqn:Hb.
  - apply is_empty_true in Hb. naive_solver.
  - apply is_empty_false in Hb. rewrite lookup_insert. case_decide; naive_solver.
Qed.

Lemma set_to_trimmed vars key v : set_to vars key v → Str.trim v = v.
Proof. intros (? & raw & ? & _ & <- & _). apply Str.trim_idem. Qed.

(** The variable [key] determines [x]: its value reads as [x], or it is unset
    and [x] is the default. *)
Definition reads {T} (vars : list (string * string)) (key : string) (d : T) (P : string → T → Prop) (x : T) : Prop :=
  (∀ v, set_to vars key v → P v x) ∧ ((∀ v, ¬ set_to vars key v) → x = d).

Lemma reads_lookup {T} vars key (d : T) P x :
  reads vars key d P x ↔ match normalize vars !! key with Some v => P v x | None => x = d end.
Proof.
  unfold reads. setoid_rewrite <- normalize_lookup. destruct (normalize vars !! key) as [v|].
  - split; [intros [HP _]; auto|]. intros HP. split; [by intros ? [= <-]|]. intros Hn. by destruct (Hn v).
  - split; [intros [_ Hd]; by apply Hd|]. intros ->. by split.
Qed.

(** A value that the variable determines outright. *)
Lemma reads_pure {T} vars key (d : T) (f : string → T) x :
  reads vars key d (fun v x => x = f v) x ↔ x = unwrap_or (f <$> normalize vars !! key) d.
Proof. rewrite reads_lookup. by destruct (normalize vars !! key). Qed.

Lemma reads_string vars key d x : reads vars key d eq x ↔ x = unwrap_or (normalize vars !! key) d.
Proof. rewrite reads_lookup. destruct (normalize vars !! key); simpl; by split; intros ->. Qed.

Lemma reads_optional {T Er} vars key (f : string → result T Er) (x : option T) :
  reads vars key None (fun v x => ∃ a, f v = Ok a ∧ x = Some a) x ↔
  transpose (f <$> normalize vars !! key) = Ok x.
Proof.
  rewrite reads_lookup. destruct (normalize vars !! key) as [v|]; simpl; [|naive_solver].
  destruct (f v); naive_solver.
Qed.

Lemma reads_default {T Er} vars key (d : T) (f : string → result T Er) x :
  reads vars key d (fun v x => f v = Ok x) x ↔
  ∃ o, transpose (f <$> normalize vars !! key) = Ok o ∧ x = unwrap_or o d.
Proof.
  rewrite reads_lookup. destruct (normalize vars !! key) as [v|]; simpl.
  - destruct (f v) as [a|e]; [|naive_solver]. split; [intros [= <-]; by eexists|]. by intros (? & [= <-] & ->).
  - split; [intros ->; by eexists|]. by intros (? & [= <-] & ->).
Qed.

Lemma reads_mono {T} vars key (d : T) (P Q : string → T → Prop) x :
  (∀ v, set_to vars key v → P v x ↔ Q v x) → reads vars key d P x ↔ reads vars key d Q x.
Proof. unfold reads. naive_solver. Qed.

Section Load.
Context `{WebPlatform}.
Context (machine_clients_of_json : string → result (list MachineClientConfig) string)
        (enterprise_issuers_of_json : string → result (list EnterpriseIssuerConfig) string).

(** ** The declarative reading *)

Definition entries (v : string) : list string :=
  List.filter (fun e => negb (Str.is_empty e)) (Str.trim <$> Str.split "," v).

Definition mode_named (v : string) (m : AuthMode) : Prop :=
  match m with
  | Bearer => Str.to_ascii_lowercase v = "bearer"
  | OAuth => Str.to_ascii_lowercase v = "oauth"
  end.
Definition bool_named (v : string) (b : bool) : Prop :=
  Str.to_ascii_lowercase v ∈ (if b then ["1"; "true"] else ["0"; "false"]).

Record loaded (env : string → option string) (b : AuthConfigBuilder) (vars : list (string * string))
    (c : FullAuthConfig) : Prop := {
  ld_mode : reads vars (env_key (ab_env_prefix b) "AUTH_MODE") Bearer mode_named (fc_mode c);
  ld_public_url : reads vars (env_key (ab_env_prefix b) "PUBLIC_URL") None
    (fun v x => ∃ u, url_parse v = Ok u ∧ x = Some u) (fc_public_url c);
  ld_data_dir : fc_default_data_dir c = unwrap_or (ab_default_data_dir b) (default_auth_dir env);
  ld_sqlite : reads vars (env_key (ab_env_prefix b) "AUTH_SQLITE_PATH") (path_join (fc_default_data_dir c) "auth.db")
    eq (fc_sqlite_path c);
  ld_key_path : reads vars (env_key (ab_env_prefix b) "AUTH_KEY_PATH") (path_join (fc_default_data_dir c) "auth-jwt.pem")
    eq (fc_key_path c);
  ld_secret : reads vars (env_key (ab_env_prefix b) "AUTH_BOOTSTRAP_SECRET") None (fun v x => x = Some v)
    (fc_bootstrap_secret c);
  ld_redirects : reads vars (env_key (ab_env_prefix b) "AUTH_ALLOWED_REDIRECT_URIS") []
    (fun v x => x = entries v) (fc_allowed_client_redirect_uris c);
  ld_admin : reads vars (env_key (ab_env_prefix b) "AUTH_ADMIN_EMAIL") ""
    (fun v x => x = Str.to_ascii_lowercase v) (fc_admin_email c);
  ld_client_id : reads vars (env_key (ab_env_prefix b) "GOOGLE_CLIENT_ID") "" eq (gc_client_id (fc_google c));
  ld_client_secret : reads vars (env_key (ab_env_prefix b) "GOOGLE_CLIENT_SECRET") "" eq
    (gc_client_secret (fc_google c));
  ld_callback_url : reads vars (env_key (ab_env_prefix b) "GOOGLE_CALLBACK_URL") None
    (fun v x => ∃ u, url_parse v = Ok u ∧ x = Some u) (gc_callback_url (fc_google c));
  ld_callback_path : reads vars (env_key (ab_env_prefix b) "GOOGLE_CALLBACK_PATH") "/auth/google/callback" eq
    (gc_callback_path (fc_google c));
  ld_google_scopes : reads vars (env_key (ab_env_prefix b) "GOOGLE_SCOPES") ["openid"; "email"; "profile"]
    (fun v x => x = entries v) (gc_scopes (fc_google c));
  ld_access_ttl : reads vars (env_key (ab_env_prefix b) "AUTH_ACCESS_TOKEN_TTL_SECS") 3600%Z
    (fun v x => parse_uint u64_max v = Some x) (fc_access_token_ttl c);
  ld_refresh_ttl : reads vars (env_key (ab_env_prefix b) "AUTH_REFRESH_TOKEN_TTL_SECS") 2592000%Z
    (fun v x => parse_uint u64_max v = Some x) (fc_refresh_token_ttl c);
  ld_code_ttl : reads vars (env_key (ab_env_prefix b) "AUTH_CODE_TTL_SECS") 300%Z
    (fun v x => parse_uint u64_max v = Some x) (fc_auth_code_ttl c);
  ld_register : reads vars (env_key (ab_env_prefix b) "AUTH_REGISTER_REQUESTS_PER_MINUTE") 20%Z
    (fun v x => parse_uint u32_max v = Some x) (fc_register_requests_per_minute c);
  ld_authorize : reads vars (env_key (ab_env_prefix b) "AUTH_AUTHORIZE_REQUESTS_PER_MINUTE") 60%Z
    (fun v x => parse_uint u32_max v = Some x) (fc_authorize_requests_per_minute c);
  ld_token : reads vars (env_key (ab_env_prefix b) "AUTH_TOKEN_REQUESTS_PER_MINUTE") 120%Z
    (fun v x => parse_uint u32_max v = Some x) (fc_token_requests_per_minute c);
  ld_pending : reads vars (env_key (ab_env_prefix b) "AUTH_MAX_PENDING_OAUTH_STATES") 1024%Z
    (fun v x => parse_uint usize_max v = Some x) (fc_max_pending_oauth_states c);
  ld_codex : reads vars (env_key (ab_env_prefix b) "AUTH_CODEX_ISSUER_COMPATIBILITY") false bool_named
    (fc_codex_issuer_compatibility c);
  ld_scopes : reads vars (env_key (ab_env_prefix b) "AUTH_SCOPES_SUPPORTED") (ab_scopes_supported b)
    (fun v x => x = entries v) (fc_scopes_supported c);
  ld_encryption : reads vars (env_key (ab_env_prefix b) "TOKEN_ENCRYPTION_KEY") None
    (fun v x => ∃ k, from_encoded v = Ok k ∧ x = Some k) (fc_token_encryption_key c);
  ld_machines : reads vars (env_key (ab_env_prefix b) "AUTH_MACHINE_CLIENTS_JSON") []
    (fun v x => machine_clients_of_json v = Ok x) (fc_machine_clients c);
  ld_issuers : reads vars (env_key (ab_env_prefix b) "AUTH_ENTERPRISE_ISSUERS_JSON") []
    (fun v x => enterprise_issuers_of_json v = Ok x) (fc_enterprise_issuers c);
  ld_builder :
    fc_env_prefix c = ab_env_prefix b ∧ fc_session_cookie_name c = ab_session_cookie_name b ∧
    fc_resource_path c = ab_resource_path b ∧ fc_default_scope c = ab_default_scope b ∧
    fc_static_token_scopes c = ab_static_token_scopes b ∧ fc_login_path c = ab_login_path b ∧
    fc_enable_dynamic_registration c = ab_enable_dynamic_registration b ∧
    fc_disable_static_token_with_oauth c = ab_disable_static_token_with_oauth b;
}.

(** ** Validity *)

Definition valid_machine_client (m : MachineClientConfig) : Prop :=
  Str.trim (mc_client_id m) ≠ "" ∧ (mc_client_secret m = None ↔ is_Some (mc_jwks m)) ∧ mc_resources m ≠ [].
Definition valid_issuer (i : EnterpriseIssuerConfig) : Prop :=
  Str.trim (ei_issuer i) ≠ "" ∧ (is_Some (ei_jwks_uri i) ∨ is_Some (ei_jwks i)) ∧
  ∀ uri, ei_jwks_uri i = Some uri → url_scheme uri = "https".

Record valid_auth_config (c : FullAuthConfig) : Prop := {
  va_callback : Str.starts_with "/" (gc_callback_path (fc_google c)) = true;
  va_resource : Str.starts_with "/" (fc_resource_path c) = true;
  va_login : Str.starts_with "/" (fc_login_path c) = true;
  va_cookie : fc_session_cookie_name c ≠ "";
  va_scope : fc_default_scope c ≠ "" ∧ fc_default_scope c ∈ fc_scopes_supported c;
  va_machines : Forall valid_machine_client (fc_machine_clients c);
  va_issuers : Forall valid_issuer (fc_enterprise_issuers c);
  va_oauth : fc_mode c = OAuth →
    is_Some (fc_public_url c) ∧ gc_client_id (fc_google c) ≠ "" ∧ gc_client_secret (fc_google c) ≠ "" ∧
    fc_admin_email c ≠ "";
}.

Lemma validate_machine_clients_ok l :
  validate_machine_clients l = Ok () ↔ Forall valid_machine_client l.
Proof.
  induction l as [|m l IH]; simpl; [by split|]. rewrite Forall_cons, <- IH. unfold valid_machine_client.
  rewrite <- is_empty_false.
  destruct (Str.is_empty _), (mc_client_secret m) as [s|], (mc_jwks m) as [j|], (mc_resources m); simpl;
    unfold is_Some; naive_solver.
Qed.

Lemma validate_enterprise_issuers_ok l :
  validate_enterprise_issuers l = Ok () ↔ Forall valid_issuer l.
Proof.
  induction l as [|i l IH]; simpl; [by split|]. rewrite Forall_cons, <- IH. unfold valid_issuer.
  rewrite <- is_empty_false.
  destruct (Str.is_empty _), (ei_jwks_uri i) as [u|], (ei_jwks i); simpl; unfold is_Some; try naive_solver;
    destruct (String.eqb_spec (url_scheme u) "https"); simpl; naive_solver.
Qed.

Lemma validate_oauth_ok c :
  validate_oauth c = Ok () ↔
  is_Some (fc_public_url c) ∧ gc_client_id (fc_google c) ≠ "" ∧ gc_client_secret (fc_google c) ≠ "" ∧
  fc_admin_email c ≠ "".
Proof.
  unfold validate_oauth. rewrite <- !is_empty_false.
  destruct (fc_public_url c); simpl; [|unfold is_Some; naive_solver].
  destruct (Str.is_empty _); simpl; [naive_solver|]. destruct (Str.is_empty _); simpl; [naive_solver|].
  destruct (Str.is_empty _); unfold is_Some; naive_solver.
Qed.

Lemma validate_ok c : validate c = Ok () ↔ valid_auth_config c.
Proof.
  unfold validate. cbv zeta. rewrite !guard_ok, !check_ok, validate_machine_clients_ok, validate_enterprise_issuers_ok.
  rewrite !negb_false_iff, !is_empty_false, existsb_eqb, bool_decide_eq_false.
  assert (Ho : match fc_mode c with OAuth => validate_oauth c | Bearer => Ok () end = Ok () ↔
               (fc_mode c = OAuth → validate_oauth c = Ok ())).
  { destruct (fc_mode c); naive_solver. }
  rewrite Ho, validate_oauth_ok. split.
  - intros (? & ? & ? & ? & ? & ? & ? & ? & ? & ?). by constructor.
  - intros []. split_and!; try tauto. destruct va_scope0 as [_ Hin]. intros Hn. rewrite Hn in Hin. set_solver.
Qed.

(** ** The readers *)

Lemma mode_ok vars key x :
  auth_mode_parse (normalize vars !! key) key = Ok x ↔ reads vars key Bearer mode_named x.
Proof.
  rewrite reads_lookup. unfold auth_mode_parse, mode_named. destruct (normalize vars !! key) as [v|] eqn:Hv.
  - apply normalize_lookup, set_to_trimmed in Hv. rewrite Hv.
    set (w := Str.to_ascii_lowercase v). clearbody w.
    destruct (String.eqb_spec w "bearer"), (String.eqb_spec w "oauth"); destruct x; naive_solver.
  - change (Str.to_ascii_lowercase (Str.trim "bearer")) with "bearer". simpl. naive_solver.
Qed.

Lemma parse_bool_ok key v x : Str.trim v = v → parse_bool key v = Ok x ↔ bool_named v x.
Proof.
  intros Hv. unfold parse_bool, bool_named. rewrite Hv. set (w := Str.to_ascii_lowercase v). clearbody w.
  destruct (String.eqb_spec w "1"), (String.eqb_spec w "true"), (String.eqb_spec w "0"), (String.eqb_spec w "false");
    destruct x; set_solver.
Qed.

Lemma read_uint_ok vars max what key d x :
  (∃ o, read_uint (normalize vars) max what key = Ok o ∧ x = unwrap_or o d) ↔
  reads vars key d (fun v x => parse_uint max v = Some x) x.
Proof.
  unfold read_uint. rewrite <- reads_default. apply reads_mono. intros v _. destruct (parse_uint max v); naive_solver.
Qed.

Lemma read_bool_ok vars key x :
  (∃ o, read_bool (normalize vars) key = Ok o ∧ x = unwrap_or o false) ↔ reads vars key false bool_named x.
Proof.
  unfold read_bool. rewrite <- reads_default. apply reads_mono. intros v Hv.
  by apply parse_bool_ok, (set_to_trimmed vars key).
Qed.

Lemma read_json_ok {T} (of_json : string → result (list T) string) vars key x :
  (∃ o, read_json (normalize vars) of_json key = Ok o ∧ x = unwrap_or o []) ↔
  reads vars key [] (fun v x => of_json v = Ok x) x.
Proof.
  unfold read_json. rewrite <- reads_default. apply reads_mono. intros v _. destruct (of_json v); naive_solver.
Qed.

Lemma read_url_ok vars key x :
  read_url (normalize vars) key = Ok x ↔
  reads vars key None (fun v x => ∃ u, url_parse v = Ok u ∧ x = Some u) x.
Proof.
  unfold read_url. rewrite <- reads_optional. apply reads_mono. intros v _. destruct (url_parse v); naive_solver.
Qed.

Lemma read_encryption_key_ok vars key x :
  read_encryption_key (normalize vars) key = Ok x ↔
  reads vars key None (fun v x => ∃ k, from_encoded v = Ok k ∧ x = Some k) x.
Proof.
  unfold read_encryption_key. rewrite <- reads_optional. apply reads_mono. intros v _.
  destruct (from_encoded v); naive_solver.
Qed.

Lemma read_csv_ok vars key d x :
  x = unwrap_or (read_csv (normalize vars) key) d ↔ reads vars key d (fun v x => x = entries v) x.
Proof. symmetry. apply reads_pure. Qed.

Lemma admin_ok vars key x :
  x = match normalize vars !! key with Some raw => Str.to_ascii_lowercase (Str.trim raw) | None => "" end ↔
  reads vars key "" (fun v x => x = Str.to_ascii_lowercase v) x.
Proof.
  rewrite reads_lookup. destruct (normalize vars !! key) as [v|] eqn:Hv; [|done].
  apply normalize_lookup, set_to_trimmed in Hv. by rewrite Hv.
Qed.

Lemma read_opt_ok vars key x : x = normalize vars !! key ↔ reads vars key None (fun v x => x = Some v) x.
Proof. rewrite reads_lookup. by destruct (normalize vars !! key). Qed.

Lemma build_ok env b vars c :
  build_from_sources machine_clients_of_json enterprise_issuers_of_json env b vars = Ok c ↔
  loaded env b vars c ∧ valid_auth_config c.
Proof.
  rewrite <- validate_ok. unfold build_from_sources. cbv zeta. split.
  - intros Hb. repeat (apply let_ok in Hb as (? & ? & Hb)). injection Hb as <-.
    split; [|by match goal with H : validate _ = Ok ?u |- _ => destruct u end].
    split; cbn [fc_mode fc_public_url fc_sqlite_path fc_key_path fc_bootstrap_secret fc_allowed_client_redirect_uris
      fc_admin_email fc_google gc_client_id gc_client_secret gc_callback_url gc_callback_path gc_scopes
      fc_access_token_ttl fc_refresh_token_ttl fc_auth_code_ttl fc_register_requests_per_minute
      fc_authorize_requests_per_minute fc_token_requests_per_minute fc_max_pending_oauth_states
      fc_codex_issuer_compatibility fc_default_data_dir fc_scopes_supported fc_token_encryption_key
      fc_machine_clients fc_enterprise_issuers];
      first [ done | by apply mode_ok | by apply read_url_ok | by apply read_encryption_key_ok
            | by apply read_csv_ok | by apply admin_ok | by apply read_opt_ok | by apply reads_string
            | by eapply read_uint_ok; eexists; split | by apply read_bool_ok; eexists; split
            | by apply read_json_ok; eexists; split | idtac ].
  - intros [[] Hv].
    apply mode_ok in ld_mode0. rewrite ld_mode0.
    apply read_url_ok in ld_public_url0, ld_callback_url0. rewrite ld_public_url0, ld_callback_url0.
    apply (read_uint_ok _ _ "an integer number of seconds") in ld_access_ttl0 as (? & Ha & ?),
      ld_refresh_ttl0 as (? & Hr & ?), ld_code_ttl0 as (? & Hc & ?).
    apply (read_uint_ok _ _ "an integer number of requests per minute") in ld_register0 as (? & Hg & ?),
      ld_authorize0 as (? & Hz & ?), ld_token0 as (? & Ht & ?).
    apply (read_uint_ok _ _ "a positive integer") in ld_pending0 as (? & Hp & ?).
    apply read_bool_ok in ld_codex0 as (? & Hx & ?).
    apply read_encryption_key_ok in ld_encryption0.
    apply read_json_ok in ld_machines0 as (? & Hm & ?), ld_issuers0 as (? & Hi & ?).
    unfold read_u64, read_u32, read_usize.
    rewrite Ha, Hr, Hc, Hg, Hz, Ht, Hp, Hx, ld_encryption0, Hm, Hi.
    enough (∀ c', c' = c → (let? _ := validate c' in Ok c') = Ok c) as Hfin; [|intros ? ->; by rewrite Hv].
    apply Hfin. destruct ld_builder0 as (? & ? & ? & ? & ? & ? & ? & ?).
    apply read_csv_ok in ld_redirects0, ld_google_scopes0, ld_scopes0. apply admin_ok in ld_admin0.
    apply read_opt_ok in ld_secret0.
    apply reads_string in ld_sqlite0, ld_key_path0, ld_client_id0, ld_client_secret0, ld_callback_path0.
    clear Hv Hfin Ha Hr Hc Hg Hz Ht Hp Hx Hm Hi.
    destruct c as [? ? ? ? ? ? ? []]; cbn in *. subst. reflexivity.
Qed.

(** (C35) A load succeeds exactly when every variable reads as a value of its field
    and the result is valid; each field is the value of the last non-blank
    pair with its key under the prefix, or the default. *)
Theorem auth_config_exact env b vars c :
  build_from_sources machine_clients_of_json enterprise_issuers_of_json env b vars = Ok c ↔
  loaded env b vars c ∧ valid_auth_config c.
Proof. apply build_ok. Qed.

(** ** Starting the server *)

(** What the handlers may rely on. *)
Definition sound_start (b : AuthConfigBuilder) (vars : list (string * string)) (c : FullAuthConfig) (st : AuthState) : Prop :=
  ∃ raw public_url,
    set_to vars (env_key (ab_env_prefix b) "PUBLIC_URL") raw ∧ url_parse raw = Ok public_url ∧
    config st = handler_config c public_url ∧
    google_redirect_uri st = unwrap_or (gc_callback_url (fc_google c))
                               (build_google_redirect_uri public_url (gc_callback_path (fc_google c))) ∧
    google_client_id st ≠ "" ∧
    cf_mode (config st) = OAuth ∧
    (∃ email, set_to vars (env_key (ab_env_prefix b) "AUTH_ADMIN_EMAIL") email ∧
       cf_admin_email (config st) = Str.to_ascii_lowercase email) ∧
    cf_default_scope (config st) ∈ cf_scopes_supported (config st) ∧
    Forall valid_machine_client (cf_machine_clients (config st)) ∧
    Forall valid_issuer (cf_enterprise_issuers (config st)).

Lemma loaded_oauth_settings env b vars c :
  loaded env b vars c → valid_auth_config c → fc_mode c = OAuth →
  ∃ raw u email, set_to vars (env_key (ab_env_prefix b) "PUBLIC_URL") raw ∧ url_parse raw = Ok u ∧
    fc_public_url c = Some u ∧
    set_to vars (env_key (ab_env_prefix b) "AUTH_ADMIN_EMAIL") email ∧
    fc_admin_email c = Str.to_ascii_lowercase email.
Proof.
  intros Hl Hv Hm. destruct (va_oauth _ Hv Hm) as ([u Hu] & _ & _ & Ha).
  pose proof (ld_public_url _ _ _ _ Hl) as Hp. pose proof (ld_admin _ _ _ _ Hl) as He.
  apply reads_lookup in Hp, He. rewrite Hu in Hp.
  destruct (normalize vars !! env_key _ "PUBLIC_URL") as [raw|] eqn:Hraw; [|done].
  destruct (normalize vars !! env_key _ "AUTH_ADMIN_EMAIL") as [email|] eqn:Hemail; [|done].
  destruct Hp as (u' & Hp & [= <-]). apply normalize_lookup in Hraw, Hemail. by exists raw, u, email.
Qed.

Lemma start_ok env b vars c open_store load_keys endpoints :
  build_from_sources machine_clients_of_json enterprise_issuers_of_json env b vars = Ok c →
  fc_mode c = OAuth →
  open_store (fc_sqlite_path c) (fc_token_encryption_key c) = Ok () → load_keys (fc_key_path c) = Ok () →
  url_parse <$> [GOOGLE_AUTHORIZE_ENDPOINT; GOOGLE_TOKEN_ENDPOINT; GOOGLE_JWKS_ENDPOINT] = Ok <$> endpoints →
  always (auth_state_new open_store load_keys c) (fun tr r =>
    match r with
    | Ok st => sound_start b vars c st
    | Err _ => ∃ e, existT BuildHttpClient (Err e) ∈ tr
    end).
Proof.
  intros [Hl Hv]%build_ok Hm Ho Hk He.
  destruct (loaded_oauth_settings _ _ _ _ Hl Hv Hm) as (raw & u & email & Hraw & Hu & Hpu & Hemail & Hadmin).
  destruct endpoints as [|e1 [|e2 [|e3 [|]]]]; try discriminate He. injection He as He1 He2 He3.
  unfold auth_state_new. rewrite Hm, Hpu. unfold google_provider_new. wunroll. rewrite Ho, Hk. wunroll.
  intros [[]|e]; cbn; [|exists e; by left].
  rewrite He1, He2, He3. cbn. destruct Hv. destruct (va_oauth0 Hm) as (_ & Hid & _ & _).
  exists raw, u. split_and!; try done; try tauto. by exists email.
Qed.

(** A configuration that loads in OAuth mode starts: once the database opens
    and the key loads, [AuthState::new] fails only if the HTTP client cannot be
    built, and the state has the configured public URL and callback, an
    administrator and only usable machine clients and issuers. *)
Theorem loaded_config_starts env b vars c open_store load_keys endpoints :
  build_from_sources machine_clients_of_json enterprise_issuers_of_json env b vars = Ok c →
  fc_mode c = OAuth →
  open_store (fc_sqlite_path c) (fc_token_encryption_key c) = Ok () → load_keys (fc_key_path c) = Ok () →
  url_parse <$> [GOOGLE_AUTHORIZE_ENDPOINT; GOOGLE_TOKEN_ENDPOINT; GOOGLE_JWKS_ENDPOINT] = Ok <$> endpoints →
  always (auth_state_new open_store load_keys c) (fun tr r =>
    match r with
    | Ok st => sound_start b vars c st
    | Err _ => ∃ e, existT BuildHttpClient (Err e) ∈ tr
    end).
Proof. apply start_ok. Qed.
End Load.

(** ** Witnesses *)

#[local] Existing Instance sample_platform.
#[local] Existing Instance sample_web.

Definition sample_pairs : list (string * string) :=
  [("LAB_AUTH_MODE", "bearer"); ("LAB_AUTH_MODE", " OAuth "); ("LAB_PUBLIC_URL", "https://labby.example/");
   ("LAB_AUTH_ADMIN_EMAIL", "Admin@Example.com"); ("LAB_GOOGLE_CLIENT_ID", "client"); ("LAB_GOOGLE_CLIENT_SECRET", "s");
   ("LAB_AUTH_CODE_TTL_SECS", "60"); ("LAB_AUTH_CODE_TTL_SECS", "  ")].
Definition sample_load : result FullAuthConfig AuthError :=
  build_from_sources (fun _ => Err "json") (fun _ => Err "json") (fun _ => Some "/home/lab") builder_new sample_pairs.

Example sample_load_fields :
  (fun c => (fc_mode c, fc_admin_email c, fc_auth_code_ttl c, fc_sqlite_path c)) <$> ok sample_load =
  Some (OAuth, "admin@example.com", 60%Z, "/home/lab/.labby/auth.db").
Proof. vm_compute. reflexivity. Qed.

Lemma loaded_config_starts_witness :
  ∃ c, sample_load = Ok c ∧ fc_mode c = OAuth ∧
    always (auth_state_new (fun _ _ => Ok ()) (fun _ => Ok ()) c) (fun tr r =>
      match r with
      | Ok st => sound_start builder_new sample_pairs c st
      | Err _ => ∃ e, existT BuildHttpClient (Err e) ∈ tr
      end).
Proof.
  eexists. split; [vm_compute; reflexivity|]. split; [reflexivity|].
  eapply (loaded_config_starts (fun _ => Err "json") (fun _ => Err "json") (fun _ => Some "/home/lab") builder_new
            sample_pairs _ _ _ (sample_url <$> [GOOGLE_AUTHORIZE_ENDPOINT; GOOGLE_TOKEN_ENDPOINT; GOOGLE_JWKS_ENDPOINT]));
    vm_compute; reflexivity.
Defined.
