(* ===== verification/ClientCache.v ===== *)
(** * ClientCache: the shared cache of upstream clients

    [labby-auth/src/upstream/cache.rs] and the assembly of the outbound OAuth
    runtime in [upstream/runtime.rs].  The lookups are programs over the shared
    maps, the per-key build lock and the effects of the upstream manager; tasks
    interleave one effect at a time, evictions happen at any point, and a task
    may be dropped at any point. *)

From Stdlib Require Import Ascii.
From stdpp Require Import base gmap strings pretty list.
From S2P Require Import Prelude RustStr Prog AuthTypes SamplePlatform Store Effects AtRest SqliteStore WebPlatform GatewayConfig WebEffects Remote UpstreamStore UpstreamManager AuthLoad.

(** [(upstream_name, subject)]. *)
Notation Key := (string * string)%type.

(** [AuthClient] is identified by the manager it was built from; the HTTP
    client it wraps carries no state of its own. *)
Record CachedAuthClient := mkCachedAuthClient { ca_client : AuthorizationManager; ca_fingerprint : string }.

(** The maps of [OauthClientCache]; [oc_locked] is the holder of each build
    lock.  Entries of [build_locks] are created on demand and never removed, so
    a key has one lock. *)
Record OauthClientCache := mkOauthClientCache {
  oc_clients : gmap Key CachedAuthClient;
  oc_managers : gmap string UpstreamOauthManager;
  oc_locked : gmap Key nat;
}.

Definition cache_new (managers : gmap string UpstreamOauthManager) : OauthClientCache :=
  mkOauthClientCache ∅ managers ∅.

Definition set_clients (c : OauthClientCache) (clients : gmap Key CachedAuthClient) : OauthClientCache :=
  mkOauthClientCache clients (oc_managers c) (oc_locked c).
Definition set_locked (c : OauthClientCache) (locked : gmap Key nat) : OauthClientCache :=
  mkOauthClientCache (oc_clients c) (oc_managers c) locked.

Definition evict_subject (c : OauthClientCache) (upstream subject : string) : OauthClientCache :=
  set_clients c (delete (upstream, subject) (oc_clients c)).
Definition evict_upstream (c : OauthClientCache) (upstream : string) : OauthClientCache :=
  set_clients c (filter (fun kv => kv.1.1 ≠ upstream) (oc_clients c)).
Definition evict_all (c : OauthClientCache) : OauthClientCache := set_clients c ∅.
Definition evict_upstreams_not_in (c : OauthClientCache) (known : list string) : OauthClientCache :=
  set_clients c (filter (fun kv => kv.1.1 ∈ known) (oc_clients c)).
Definition cache_len (c : OauthClientCache) : nat := size (oc_clients c).

Definition registration_fingerprint (config : UpstreamConfig) (dynamic_client_id : option string) :
  result string OauthError :=
  let? oauth := ok_or (up_oauth config) (Internal "upstream has no oauth config") in
  Ok (match uo_registration oauth with
      | Preregistered client_id _ => "preregistered:" +:+ client_id
      | GatewayConfig.ClientMetadataDocument url => "client_metadata_document:" +:+ url
      | Dynamic => "dynamic:" +:+ unwrap_or dynamic_client_id "none"
      end).

Section Cache.
Context `{WebPlatform}.

(** ** The lookups *)

Inductive CEff : Type :=
| OnWeb (e : WEff)
| ManagersGet (name : string)
| ClientsGet (key : Key)
| ClientsInsert (key : Key) (entry : CachedAuthClient)
| BuildLock (key : Key)
| BuildUnlock (key : Key).

Definition cresp (e : CEff) : Type :=
  match e with
  | OnWeb e => wresp e
  | ManagersGet _ => option UpstreamOauthManager
  | ClientsGet _ => option CachedAuthClient
  | ClientsInsert _ _ | BuildLock _ | BuildUnlock _ => unit
  end.

Definition ceff (e : CEff) : prog cresp (cresp e) := trigger e.
Fixpoint on_web {A} (p : W A) : prog cresp A :=
  match p with
  | Ret a => Ret a
  | Vis e k => Vis (OnWeb e) (fun r => on_web (k r))
  end.

Notation CM A := (prog cresp (result A OauthError)).

Definition find_manager (config : UpstreamConfig) : CM UpstreamOauthManager :=
  let! found := ceff (ManagersGet (up_name config)) in
  Ret (ok_or found (Internal ("no oauth manager registered for upstream '" +:+ up_name config +:+ "'"))).

(** The client of an entry with the wanted fingerprint. *)
Definition hit (fingerprint : string) (entry : option CachedAuthClient) : option AuthorizationManager :=
  match entry with
  | Some entry => if String.eqb (ca_fingerprint entry) fingerprint then Some (ca_client entry) else None
  | None => None
  end.

(** The guard is dropped on every way out of the locked part. *)
Definition get_or_insert_with (config : UpstreamConfig) (subject : string) (dynamic_client_id : option string)
    (builder : CM AuthorizationManager) : CM AuthorizationManager :=
  let!? fingerprint := lift (registration_fingerprint config dynamic_client_id) in
  let key := (up_name config, subject) in
  let! entry := ceff (ClientsGet key) in
  match hit fingerprint entry with
  | Some client => ret_ok client
  | None =>
      let! _ := ceff (BuildLock key) in
      let! entry := ceff (ClientsGet key) in
      match hit fingerprint entry with
      | Some client => let! _ := ceff (BuildUnlock key) in ret_ok client
      | None =>
          let! built := builder in
          match built with
          | Err e => let! _ := ceff (BuildUnlock key) in ret_err e
          | Ok client =>
              let! _ := ceff (ClientsInsert key (mkCachedAuthClient client fingerprint)) in
              let! _ := ceff (BuildUnlock key) in
              ret_ok client
          end
      end
  end.

Definition is_dynamic (config : UpstreamConfig) : bool :=
  match up_oauth config with
  | Some oauth => match uo_registration oauth with Dynamic => true | _ => false end
  | None => false
  end.

Definition get_or_build (config : UpstreamConfig) (subject : string) : CM AuthorizationManager :=
  let!? dynamic_client_id :=
    (if is_dynamic config then
       let!? manager := find_manager config in on_web (stored_dynamic_client_id manager subject)
     else ret_ok None) in
  get_or_insert_with config subject dynamic_client_id (
    let!? manager := find_manager config in
    let!? client := on_web (build_auth_client manager subject) in
    ret_ok client.2).

Definition get_or_build_capped {C} (config : UpstreamConfig) (subject : string) (http_client : C) :
  CM (C * AuthorizationManager) :=
  let!? manager := find_manager config in on_web (build_auth_client_with manager subject http_client).

(** ** Tasks *)

(** [tk_done] is what the task has done so far, and [po_log] the insertions with
    what the inserting task had done; no code reads them. *)
Record Task := mkTask {
  tk_config : UpstreamConfig;
  tk_subject : string;
  tk_prog : CM AuthorizationManager;
  tk_done : list (step_of cresp);
}.
Definition start (call : UpstreamConfig * string) : Task := mkTask call.1 call.2 (get_or_build call.1 call.2) [].
Definition resume (t : Task) (s : step_of cresp) (p : CM AuthorizationManager) : Task :=
  mkTask (tk_config t) (tk_subject t) p (tk_done t ++ [s]).

Record Pool := mkPool {
  po_cache : OauthClientCache;
  po_tasks : gmap nat Task;
  po_log : list (Key * CachedAuthClient * list (step_of cresp));
}.

(** One effect of one task, the drop of a task with its guard, or an eviction.
    [wrote] is the insertion a step makes. *)
Inductive pstep : Pool → option (Key * CachedAuthClient) → Pool → Prop :=
| step_web c ts log t task e k r :
    ts !! t = Some task → tk_prog task = Vis (OnWeb e) k →
    pstep (mkPool c ts log) None (mkPool c (<[t := resume task (existT (OnWeb e) r) (k r)]> ts) log)
| step_managers c ts log t task name k :
    ts !! t = Some task → tk_prog task = Vis (ManagersGet name) k →
    let r := oc_managers c !! name in
    pstep (mkPool c ts log) None (mkPool c (<[t := resume task (existT (ManagersGet name) r) (k r)]> ts) log)
| step_get c ts log t task key k :
    ts !! t = Some task → tk_prog task = Vis (ClientsGet key) k →
    let r := oc_clients c !! key in
    pstep (mkPool c ts log) None (mkPool c (<[t := resume task (existT (ClientsGet key) r) (k r)]> ts) log)
| step_insert c ts log t task key entry k :
    ts !! t = Some task → tk_prog task = Vis (ClientsInsert key entry) k →
    pstep (mkPool c ts log) (Some (key, entry))
      (mkPool (set_clients c (<[key := entry]> (oc_clients c)))
         (<[t := resume task (existT (ClientsInsert key entry) ()) (k ())]> ts) (log ++ [(key, entry, tk_done task)]))
| step_lock c ts log t task key k :
    ts !! t = Some task → tk_prog task = Vis (BuildLock key) k → oc_locked c !! key = None →
    pstep (mkPool c ts log) None
      (mkPool (set_locked c (<[key := t]> (oc_locked c))) (<[t := resume task (existT (BuildLock key) ()) (k ())]> ts) log)
| step_unlock c ts log t task key k :
    ts !! t = Some task → tk_prog task = Vis (BuildUnlock key) k → oc_locked c !! key = Some t →
    pstep (mkPool c ts log) None
      (mkPool (set_locked c (delete key (oc_locked c))) (<[t := resume task (existT (BuildUnlock key) ()) (k ())]> ts) log)
| step_drop c ts log t :
    pstep (mkPool c ts log) None
      (mkPool (set_locked c (filter (fun kv => kv.2 ≠ t) (oc_locked c))) (delete t ts) log)
| step_evict_subject c ts log upstream subject :
    pstep (mkPool c ts log) None (mkPool (evict_subject c upstream subject) ts log)
| step_evict_upstream c ts log upstream : pstep (mkPool c ts log) None (mkPool (evict_upstream c upstream) ts log)
| step_evict_all c ts log : pstep (mkPool c ts log) None (mkPool (evict_all c) ts log)
| step_evict_not_in c ts log known : pstep (mkPool c ts log) None (mkPool (evict_upstreams_not_in c known) ts log).

Definition psteps : Pool → Pool → Prop := rtc (fun P P' => ∃ wrote, pstep P wrote P').

(** ** The runtime (runtime.rs) *)

Record UpstreamOauthRuntime := mkUpstreamOauthRuntime {
  rt_cache : OauthClientCache;
  rt_key : string;
  rt_redirect_uri : string;
}.

Definition build_upstream_oauth_runtime_from_parts (upstreams : list UpstreamConfig) (store_key : option string)
    (key redirect_uri : string) : UpstreamOauthRuntime :=
  let managers := foldl (fun ms upstream => <[up_name upstream := mkUpstreamOauthManager store_key key upstream redirect_uri]> ms)
                    ∅ (List.filter (fun upstream => is_some (up_oauth upstream)) upstreams) in
  mkUpstreamOauthRuntime (cache_new managers) key redirect_uri.

Definition build_upstream_oauth_callback_uri (public_url : Url) : string :=
  let base_path := Str.trim_end_matches "/" (url_path public_url) in
  let next_path := if Str.is_empty base_path then "/auth/upstream/callback"
                   else base_path +:+ "/auth/upstream/callback" in
  url_str (url_clear_fragment (url_clear_query (url_set_path public_url next_path))).

(** [open_store] is the outcome of opening the database; errors are the
    message [anyhow] reports. *)
Definition build_upstream_oauth_runtime (open_store : string → option string → result unit AuthError)
    (upstreams : list UpstreamConfig) (auth_config : FullAuthConfig) (encryption_key_raw : option string) :
  result (option UpstreamOauthRuntime) string :=
  match fc_public_url auth_config with
  | None => Ok None
  | Some public_url =>
      match (raw ← encryption_key_raw; if Str.is_empty (Str.trim raw) then None else Some raw) with
      | None => Ok None
      | Some raw =>
          if negb (String.eqb (url_scheme public_url) "https")
          then Err "public_url must be absolute https:// when upstream oauth is configured"
          else
            let shared_google_enabled :=
              existsb (fun u => is_some_and (fun oauth => is_google_provider (uo_credential oauth)) (up_oauth u)) upstreams in
            if shared_google_enabled && negb (is_some (fc_token_encryption_key auth_config))
            then Err (fc_env_prefix auth_config +:+ "_TOKEN_ENCRYPTION_KEY is required when an upstream uses credential.source=google_provider")
            else
              let? key := map_err (fun e => "invalid upstream OAuth encryption key: " +:+ encryption_display e) (load_key raw) in
              let? _ := map_err (fun _ => "open sqlite store for upstream oauth")
                          (open_store (fc_sqlite_path auth_config) (fc_token_encryption_key auth_config)) in
              Ok (Some (build_upstream_oauth_runtime_from_parts upstreams (fc_token_encryption_key auth_config) key
                          (build_upstream_oauth_callback_uri public_url)))
      end
  end.

End Cache.
