(* ===== verification/ClientCacheProps.v ===== *)
(** * ClientCacheProps: the cache under concurrent lookups

    A client served for a pair was built for that pair, by this lookup or by a
    logged one that had read the same dynamic client id, and a client is never
    built while a current one is cached. *)

From stdpp Require Import base gmap strings sets list.
From S2P Require Import Prelude RustStr Prog AuthTypes SamplePlatform Store Effects AtRest SqliteStore WebPlatform GatewayConfig WebEffects Remote UpstreamStore UpstreamManager AuthLoad ClientCache.

Section Built.
Context `{WebPlatform} (m : UpstreamOauthManager).
Notation name := (up_name (um_upstream m)).

(** ** What the upstream manager builds *)

(** The credentials the client reads: those of the pair under the manager's
    key, or those of the configured Google account, for the configured client
    and scopes. *)
Definition own_store (subject : string) (oauth : UpstreamOauthConfig) (store : CredentialStore) : Prop :=
  match uo_credential oauth with
  | Dedicated => store = SqliteCredentials (mkSqliteStore (um_key m) name subject)
  | GatewayConfig.GoogleProvider account =>
      ∃ provider client_id secret scopes, uo_registration oauth = Preregistered client_id secret ∧
        gl_client_id provider = client_id ∧ effective_scopes m = Ok scopes ∧
        store = GoogleCredentials (google_store_new provider account client_id scopes)
  end.
Definition reads_own (subject : string) (c : AuthorizationManager) : Prop :=
  ∃ oauth store, up_oauth (um_upstream m) = Some oauth ∧ am_credential_store c = Some store ∧ own_store subject oauth store.

(** The client id: the one of the registration; that of a dynamic registration
    is the one stored with the credentials of the pair. *)
Definition identifies (subject : string) (client : OAuthClientConfig) (tr : WTrace) : Prop :=
  ∃ oauth, up_oauth (um_upstream m) = Some oauth ∧
    match uo_registration oauth with
    | Preregistered client_id _ => oc_client_id client = client_id
    | GatewayConfig.ClientMetadataDocument url => oc_client_id client = url
    | Dynamic => ∃ row, existT (OnAuth (Sql (FindUpstreamOauthCredentials name subject))) (Ok (Some row)) ∈ tr ∧
                   oc_client_id client = uc_client_id row
    end.

Definition built_by (subject : string) (c : AuthorizationManager) (tr : WTrace) : Prop :=
  reads_own subject c ∧ ∃ client, am_client c = Some client ∧ identifies subject client tr.

Lemma identifies_sub subject client tr tr' : tr ⊆ tr' → identifies subject client tr → identifies subject client tr'.
Proof.
  intros Hs (oauth & Ho & Hid). exists oauth. split; [done|]. destruct (uo_registration oauth); [done..|].
  destruct Hid as (row & Hin & Hid). exists row. split; [by apply Hs|done].
Qed.
Lemma built_sub subject c tr tr' : tr ⊆ tr' → built_by subject c tr → built_by subject c tr'.
Proof. intros Hs [Hr (client & Hc & Hid)]. split; [done|]. exists client. eauto using identifies_sub. Qed.

(** A property of the result, whatever has been done before and after. *)
Lemma spec_try {A B} (p : W (result A OauthError)) (f : A → W (result B OauthError)) (P : A → Prop) (Q : WTrace → B → Prop) :
  always p (fun _ r => ∀ a, r = Ok a → P a) → (∀ tr tr' b, tr ⊆ tr' → Q tr b → Q tr' b) →
  (∀ a, P a → always (f a) (fun tr r => ∀ b, r = Ok b → Q tr b)) →
  always (try_bind p f) (fun tr r => ∀ b, r = Ok b → Q tr b).
Proof.
  intros Hp HQ Hf. eapply always_try_spec; [exact Hp| |done]. intros tr a Ha. eapply always_mono; [by apply Hf, Ha|].
  intros tr' r Hr b Hb. eapply HQ; [|by apply Hr]. set_solver.
Qed.
Lemma any_result {A} (p : W (result A OauthError)) : always p (fun _ r => ∀ a, r = Ok a → True).
Proof. eapply always_mono; [apply always_trivial|done]. Qed.

Lemma spec_then {A B} (p : W (result A OauthError)) (f : A → W (result B OauthError)) (Q : WTrace → B → Prop) :
  (∀ tr tr' b, tr ⊆ tr' → Q tr b → Q tr' b) → (∀ a, always (f a) (fun tr r => ∀ b, r = Ok b → Q tr b)) →
  always (try_bind p f) (fun tr r => ∀ b, r = Ok b → Q tr b).
Proof. intros HQ Hf. eapply spec_try; [apply any_result|done|]. intros a _. apply Hf. Qed.
Lemma spec_bind {A B} (p : W A) (f : A → W (result B OauthError)) (Q : WTrace → B → Prop) :
  (∀ tr tr' b, tr ⊆ tr' → Q tr b → Q tr' b) → (∀ a, always (f a) (fun tr r => ∀ b, r = Ok b → Q tr b)) →
  always (pbind p f) (fun tr r => ∀ b, r = Ok b → Q tr b).
Proof.
  intros HQ Hf. eapply always_bind_spec; [apply always_trivial|]. intros tr a _. eapply always_mono; [apply Hf|].
  intros tr' r Hr b Hb. eapply HQ; [|by apply Hr]. set_solver.
Qed.

Lemma oauth_config_spec : always (lift (resp := wresp) (oauth_config m)) (fun _ r => ∀ oauth, r = Ok oauth → up_oauth (um_upstream m) = Some oauth).
Proof. unfold oauth_config. cbn. destruct (up_oauth (um_upstream m)); [by intros ? [= <-]|done]. Qed.

Lemma provider_spec client_id secret redirect :
  always (google_provider_new client_id secret redirect) (fun _ r => ∀ p, r = Ok p → gl_client_id p = client_id).
Proof.
  unfold google_provider_new. wunroll. intros [[]|e] p; [|done]. cbn [map_err].
  rewrite let_ok. intros (a & _ & (b & _ & (d & _ & [= <-])%let_ok)%let_ok). done.
Qed.

Lemma google_store_own scopes subject oauth :
  effective_scopes m = Ok scopes → up_oauth (um_upstream m) = Some oauth → is_google_provider (uo_credential oauth) = true →
  always (google_credential_store m scopes) (fun _ r => ∀ s, r = Ok s → own_store subject oauth (GoogleCredentials s)).
Proof.
  intros Hsc Ho Hg. set (Q := fun (_ : WTrace) s => own_store subject oauth (GoogleCredentials s)).
  assert (HQ : ∀ tr tr' s, tr ⊆ tr' → Q tr s → Q tr' s) by done.
  apply (spec_try _ _ _ Q oauth_config_spec); [done|]. intros oauth' Ho'. rewrite Ho in Ho'. injection Ho' as <-.
  destruct (uo_credential oauth) as [|account] eqn:Hc; [done|].
  destruct (uo_registration oauth) as [url|client_id secret|] eqn:Hreg; [by cbn| |by cbn].
  apply (spec_bind _ _ Q); [done|]. intros read. apply (spec_then _ _ Q); [done|]. intros client_secret.
  apply (spec_then _ _ Q); [done|]. intros redirect.
  eapply always_bind_spec; [apply provider_spec|]. intros tr [provider|e] Hp; cbn; [|done].
  intros s [= <-]. unfold Q, own_store. rewrite Hc. exists provider, client_id, secret, scopes. split_and!; auto.
Qed.

Lemma install_own manager subject scopes :
  effective_scopes m = Ok scopes →
  always (install_credential_store m manager subject scopes) (fun _ r => ∀ c, r = Ok c → reads_own subject c).
Proof.
  intros Hsc. apply (spec_try _ _ _ (fun _ c => reads_own subject c) oauth_config_spec); [done|]. intros oauth Ho.
  destruct (uo_credential oauth) as [|account] eqn:Hc.
  - cbn. intros c [= <-]. exists oauth. eexists. split_and!; [done|done|]. unfold own_store. by rewrite Hc.
  - eapply (spec_try _ _ _ (fun _ c => reads_own subject c)); [apply (google_store_own scopes subject oauth); [done|done|by rewrite Hc]|done|].
    intros store Hs. cbn. intros c [= <-]. by exists oauth, (GoogleCredentials store).
Qed.

Lemma resolve_identifies manager subject scopes :
  always (resolve_client_config m manager subject scopes UseStoredCredentials)
    (fun tr r => ∀ client, r = Ok client → identifies subject client tr).
Proof.
  pose proof (identifies_sub subject) as HQ.
  apply (spec_try _ _ _ (fun tr client => identifies subject client tr) oauth_config_spec); [eauto|]. intros oauth Ho.
  unfold identifies. destruct (uo_registration oauth) as [url|id [var|]|] eqn:Hr.
  - cbn. intros client Hc. exists oauth. rewrite Hr. split; [done|].
    repeat (destruct_in Hc; try discriminate). by injection Hc as <-.
  - wunroll. intros v. destruct (Str.is_empty _); cbn; [done|]. intros client [= <-]. exists oauth. by rewrite Hr.
  - cbn. intros client [= <-]. exists oauth. by rewrite Hr.
  - cbn. intros [[row|]|e]; cbn; [|done..]. intros client [= <-]. exists oauth. rewrite Hr. split; [done|].
    exists row. split; [by left|done].
Qed.

Lemma configured_own subject :
  always (configured_authorization_manager m subject UseStoredCredentials) (fun _ r => ∀ c, r = Ok c → reads_own subject c).
Proof.
  set (Q := fun (_ : WTrace) c => reads_own subject c). assert (HQ : ∀ tr tr' c, tr ⊆ tr' → Q tr c → Q tr' c) by done.
  unfold configured_authorization_manager. apply (spec_then _ _ Q); [done|]. intros url.
  apply (spec_try _ _ (fun scopes => effective_scopes m = Ok scopes) Q); [cbn; by intros|done|]. intros scopes Hsc. cbv zeta.
  apply (spec_bind _ _ Q); [done|]. intros created. apply (spec_then _ _ Q); [done|]. intros _.
  apply (spec_try _ _ _ Q (install_own _ subject scopes Hsc)); [done|]. intros c Hc.
  do 4 (apply (spec_then _ _ Q); [done|]; intros ?). unfold configure_client. wunroll. intros [[]|e]; cbn; [|done].
  intros c' [= <-]. exact Hc.
Qed.

Lemma initialized_built subject :
  always (initialized_manager m subject) (fun tr r => ∀ c, r = Ok c → built_by subject c tr).
Proof.
  set (Q := fun (tr : WTrace) c => built_by subject c tr).
  assert (HQ : ∀ tr tr' c, tr ⊆ tr' → Q tr c → Q tr' c) by (intros tr tr' c; apply built_sub).
  unfold initialized_manager. apply (spec_try _ _ _ Q (configured_own subject)); [done|]. intros c Hc.
  apply (spec_bind _ _ Q); [done|]. intros loaded. apply (spec_then _ _ Q); [done|]. intros [ok client]. cbv zeta. cbn [fst snd].
  destruct ok; cbn [negb]; [|by cbn]. unfold reconfigure_client_after_store_init. apply (spec_then _ _ Q); [done|]. intros scopes.
  eapply always_try_spec; [apply resolve_identifies| |done]. intros tr cfg Hcfg. unfold configure_client. wunroll.
  intros [[]|e]; cbn; [|done]. intros c' [= <-]. split; [exact Hc|]. exists cfg. split; [done|].
  eapply identifies_sub; [|by apply Hcfg]. set_solver.
Qed.

Lemma obtain_same c subject due :
  always (obtain_token m c subject due) (fun _ r => ∀ c', r = Ok c' → c' = c).
Proof.
  set (Q := fun (_ : WTrace) c' => c' = c). assert (HQ : ∀ tr tr' c, tr ⊆ tr' → Q tr c → Q tr' c) by done.
  unfold obtain_token. apply (spec_bind _ _ Q); [done|]. intros []; [by cbn|].
  apply (spec_bind _ _ Q); [done|]. intros [token|error].
  - apply (spec_bind _ _ Q); [done|]. intros _. cbn. by intros ? [= <-].
  - apply (spec_bind _ _ Q); [done|]. intros mapped. apply (spec_bind _ _ Q); [done|]. by intros _.
Qed.

Lemma build_built subject :
  always (build_auth_client m subject) (fun tr r => ∀ c, r = Ok c → built_by subject c.2 tr).
Proof.
  set (Q := fun (tr : WTrace) (c : unit * AuthorizationManager) => built_by subject c.2 tr).
  assert (HQ : ∀ tr tr' c, tr ⊆ tr' → Q tr c → Q tr' c) by (intros tr tr' c; apply built_sub).
  unfold build_auth_client, build_auth_client_with, with_refresh_lock. apply (spec_then _ _ Q); [done|]. intros l.
  apply (spec_bind _ _ Q); [done|]. intros _. eapply always_bind_spec.
  - instantiate (1 := fun tr r => ∀ c, r = Ok c → Q tr c). apply (spec_then _ _ Q); [done|]. intros _.
    eapply always_try_spec; [apply initialized_built| |done]. intros tr c Hc. specialize (Hc c eq_refl).
    set (R := fun (_ : WTrace) (c' : unit * AuthorizationManager) => c'.2 = c).
    assert (HR : ∀ tr tr' c', tr ⊆ tr' → R tr c' → R tr' c') by done.
    eapply (always_mono _ (fun tr' r => ∀ c', r = Ok c' → R tr' c')).
    + apply (spec_then _ _ R); [done|]. intros row. apply (spec_bind _ _ R); [done|]. intros due.
      apply (spec_try _ _ _ R (obtain_same c subject due)); [done|]. intros c' ->. cbn. by intros ? [= <-].
    + intros tr' r Hr c' Hr'. unfold Q. rewrite (Hr c' Hr'). eapply built_sub; [|exact Hc]. set_solver.
  - intros tr r Hr. apply always_bind. eapply always_mono; [apply always_trivial|]. intros tr' u _. cbn. rewrite app_nil_r.
    intros c ->. eapply HQ; [|by apply Hr]. set_solver.
Qed.
End Built.

(** ** What a lookup does *)

Notation CTrace := (list (step_of cresp)).

Section Pool.
Context `{WebPlatform}.

Definition web_step (s : step_of wresp) : step_of cresp := match s with existT e r => existT (OnWeb e) r end.
(** The part of a trace that is the upstream manager's. *)
Definition web_part (s : step_of cresp) : option (step_of wresp) :=
  match s with
  | existT e r =>
      match e as e return cresp e → option (step_of wresp) with OnWeb e => fun r => Some (existT e r) | _ => fun _ => None end r
  end.
Definition web_trace (tr : CTrace) : WTrace := omap web_part tr.
(** The entry a step finds in the cache. *)
Definition got (s : step_of cresp) : option (Key * CachedAuthClient) :=
  match s with
  | existT e r =>
      match e as e return cresp e → option (Key * CachedAuthClient) with
      | ClientsGet key => fun r => pair key <$> r
      | _ => fun _ => None
      end r
  end.

Lemma web_trace_app a b : web_trace (a ++ b) = web_trace a ++ web_trace b.
Proof. apply omap_app. Qed.
Lemma web_trace_web (tr : WTrace) : web_trace (web_step <$> tr) = tr.
Proof. unfold web_trace. induction tr as [|[e r] tr IH]; [done|]. cbn. by f_equal. Qed.
Lemma web_trace_sub a b : a ⊆ b → web_trace a ⊆ web_trace b.
Proof. intros Hs x. unfold web_trace. rewrite !list_elem_of_omap. naive_solver. Qed.

(** The dynamic client id that the trace has read for the pair, if the
    upstream registers dynamically. *)
Definition id_read (config : UpstreamConfig) (subject : string) (d : option string) (tr : CTrace) : Prop :=
  if is_dynamic config
  then existT (OnAuth (Sql (FindDynamicClientRegistration (up_name config) subject))) (Ok d) ∈ web_trace tr
  else d = None.
Definition built_for (m : UpstreamOauthManager) (subject : string) (c : AuthorizationManager) (tr : CTrace) : Prop :=
  built_by m subject c (web_trace tr).
(** The entry was built in the trace, under the id read in it. *)
Definition made (m : UpstreamOauthManager) (subject : string) (e : CachedAuthClient) (tr : CTrace) : Prop :=
  ∃ d, id_read (um_upstream m) subject d tr ∧ registration_fingerprint (um_upstream m) d = Ok (ca_fingerprint e) ∧
    built_for m subject (ca_client e) tr.

Lemma id_read_sub config subject d tr tr' : tr ⊆ tr' → id_read config subject d tr → id_read config subject d tr'.
Proof. intros Hs%web_trace_sub. unfold id_read. destruct (is_dynamic config); [apply Hs|done]. Qed.
Lemma built_for_sub m subject c tr tr' : tr ⊆ tr' → built_for m subject c tr → built_for m subject c tr'.
Proof. intros Hs%web_trace_sub. by apply built_sub. Qed.

(** Equal fingerprints are equal dynamic ids; no registration counts as the id
    ["none"]. *)
Lemma fingerprint_ids config subject d d' tr tr' :
  registration_fingerprint config d = registration_fingerprint config d' → is_Some (up_oauth config) →
  id_read config subject d tr → id_read config subject d' tr' → unwrap_or d' "none" = unwrap_or d "none".
Proof.
  unfold registration_fingerprint, id_read, is_dynamic. intros Hf [oauth Ho]. rewrite Ho in *. cbn [ok_or] in Hf.
  destruct (uo_registration oauth); [by intros -> ->..|]. intros _ _. by simplify_eq/=.
Qed.

(** ** Along a lookup

    [G] holds at every effect and [R] at the end, of what has been done by
    then, when the managers answer as registered. *)

Section Follow.
Context (managers : gmap string UpstreamOauthManager).

Definition answers (e : CEff) : cresp e → Prop :=
  match e with ManagersGet name => fun r => r = managers !! name | _ => fun _ => True end.

Fixpoint follow {A} (G : CTrace → CEff → Prop) (R : CTrace → A → Prop) (tr : CTrace) (p : prog cresp A) : Prop :=
  match p with
  | Ret a => R tr a
  | Vis e k => G tr e ∧ ∀ r, answers e r → follow G R (tr ++ [existT e r]) (k r)
  end.

Lemma follow_mono {A} G (R R' : CTrace → A → Prop) tr p :
  (∀ tr a, R tr a → R' tr a) → follow G R tr p → follow G R' tr p.
Proof.
  intros HR. revert tr. induction p as [a|e k IH]; intros tr; cbn [follow]; [apply HR|]. intros [Hg Hk]. split; [done|]. eauto.
Qed.
Lemma follow_bind {A B} G R tr (p : prog cresp A) (f : A → prog cresp B) :
  follow G (fun tr a => follow G R tr (f a)) tr p → follow G R tr (pbind p f).
Proof.
  revert tr. induction p as [a|e k IH]; intros tr; cbn [follow pbind]; [done|]. intros [Hg Hk]. split; [done|]. eauto.
Qed.
Lemma follow_try {A B Er} G R tr (p : prog cresp (result A Er)) (f : A → prog cresp (result B Er)) :
  follow G (fun tr r => match r with Ok a => follow G R tr (f a) | Err e => R tr (Err e) end) tr p →
  follow G R tr (try_bind p f).
Proof. intros Hp. apply follow_bind. eapply follow_mono; [|exact Hp]. by intros tr' []. Qed.
Lemma follow_web {A} G R tr (p : W A) Q :
  (∀ tr e, G tr (OnWeb e)) → always p Q → (∀ wtr a, Q wtr a → R (tr ++ (web_step <$> wtr)) a) → follow G R tr (on_web p).
Proof.
  intros HG. revert tr Q. induction p as [a|e k IH]; intros tr Q Hp HR; cbn [follow on_web always] in *.
  - specialize (HR _ _ Hp). by rewrite app_nil_r in HR.
  - split; [done|]. intros r _. eapply IH; [apply Hp|]. intros wtr a Ha. rewrite <- app_assoc. by apply (HR (existT e r :: wtr)).
Qed.

Context (config : UpstreamConfig) (subject : string).
Notation key := (up_name config, subject).

(** What is inserted was made. *)
Definition inserts (tr : CTrace) (e : CEff) : Prop :=
  match e with
  | ClientsInsert k entry => k = key ∧ ∃ m, managers !! up_name config = Some m ∧ made m subject entry tr
  | _ => True
  end.

(** The result was built by this lookup, or found under the current
    fingerprint. *)
Definition looked_up (tr : CTrace) (r : result AuthorizationManager OauthError) : Prop :=
  ∀ c, r = Ok c → ∃ d, id_read config subject d tr ∧
    ((∃ m, managers !! up_name config = Some m ∧ built_for m subject c tr)
     ∨ ∃ e, (key, e) ∈ omap got tr ∧ ca_client e = c ∧ registration_fingerprint config d = Ok (ca_fingerprint e)).

Context (Hm : ∀ m, managers !! up_name config = Some m → um_upstream m = config).

Lemma hit_Some fp entry c :
  hit fp entry = Some c → ∃ e, entry = Some e ∧ ca_fingerprint e = fp ∧ ca_client e = c.
Proof.
  unfold hit. destruct entry as [e|]; [|done]. destruct (String.eqb_spec (ca_fingerprint e) fp); naive_solver.
Qed.
Lemma hit_None fp entry : hit fp entry = None → ∀ e, entry = Some e → ca_fingerprint e ≠ fp.
Proof. unfold hit. intros Hh e ->. by destruct (String.eqb_spec (ca_fingerprint e) fp). Qed.

Lemma got_looked d fp entry tr c post :
  registration_fingerprint config d = Ok fp → id_read config subject d tr → hit fp entry = Some c →
  looked_up (tr ++ [existT (ClientsGet key) entry] ++ post) (Ok c).
Proof.
  intros Hf Hd (e & -> & <- & <-)%hit_Some c' [= <-]. exists d. split; [eapply id_read_sub; [|done]; set_solver|].
  right. exists e. rewrite !omap_app. split_and!; [|done|done]. cbn. set_solver.
Qed.

(** The build between the lookup under the lock and the insertion. *)
Definition builder : prog cresp (result AuthorizationManager OauthError) :=
  try_bind (find_manager config) (fun manager =>
    try_bind (on_web (build_auth_client manager subject)) (fun client => ret_ok client.2)).

Lemma follow_find {A} R tr (f : UpstreamOauthManager → prog cresp (result A OauthError)) :
  (∀ m, managers !! up_name config = Some m → follow inserts R (tr ++ [existT (ManagersGet (up_name config)) (Some m)]) (f m)) →
  (∀ tr' e, R tr' (Err e)) → follow inserts R tr (try_bind (find_manager config) f).
Proof.
  intros Hf He. cbn. split; [done|]. intros r ->. destruct (managers !! up_name config) as [m|] eqn:Hl; cbn; [by apply Hf|apply He].
Qed.

Lemma builder_follows tr R :
  (∀ tr' e, R tr' (Err e)) →
  (∀ wtr c, (∃ m, managers !! up_name config = Some m ∧ built_for m subject c wtr) → R (tr ++ wtr) (Ok c)) →
  follow inserts R tr builder.
Proof.
  intros He Hc. apply follow_find; [|done]. intros m Hl. apply follow_try.
  eapply follow_web; [done|apply build_built|]. intros wtr [c|e] Hb; [|apply He]. cbn [follow].
  rewrite <- app_assoc. apply Hc. exists m. split; [done|]. unfold built_for. rewrite web_trace_app, web_trace_web. cbn. by apply Hb.
Qed.

Lemma insert_follows d tr :
  id_read config subject d tr → follow inserts looked_up tr (get_or_insert_with config subject d builder).
Proof.
  intros Hd. unfold get_or_insert_with. cbn [try_bind lift pbind].
  destruct (registration_fingerprint config d) as [fp|] eqn:Hf; [|by intros c].
  cbn [follow pbind ceff trigger]. split; [done|]. intros entry _.
  destruct (hit fp entry) as [c|] eqn:Hh; [by apply (got_looked d fp entry tr c [])|].
  cbn [follow pbind ceff trigger]. split; [done|]. intros [] _. split; [done|]. clear Hh. intros entry' _.
  rewrite <- !app_assoc. set (pre := tr ++ [existT (ClientsGet key) entry] ++ [existT (BuildLock key) ()]).
  assert (Hpre : id_read config subject d pre) by (eapply id_read_sub; [|exact Hd]; set_solver).
  replace (tr ++ _) with (pre ++ [existT (ClientsGet key) entry']) by (unfold pre; by rewrite <- !app_assoc).
  destruct (hit fp entry') as [c|] eqn:Hh.
  { cbn [follow pbind ceff trigger]. split; [done|]. intros [] _. rewrite <- app_assoc. by eapply got_looked. }
  apply follow_bind, builder_follows; cbn [follow pbind ceff trigger].
  - intros tr' e. split; [done|]. by intros [] _.
  - intros wtr c (m & Hl & Hb). rewrite <- !app_assoc. set (done_ := pre ++ _).
    assert (Hd' : id_read config subject d done_) by (eapply id_read_sub; [|exact Hpre]; set_solver).
    assert (Hb' : built_for m subject c done_) by (eapply built_for_sub; [|exact Hb]; set_solver).
    split; [split; [done|]; exists m; split; [done|]; exists d; rewrite (Hm m Hl); by split_and!|]. intros [] _. split; [done|].
    intros [] _. intros c' [= <-]. exists d. split; [eapply id_read_sub; [|exact Hd']; set_solver|].
    left. exists m. split; [done|]. eapply built_for_sub; [|exact Hb']. set_solver.
Qed.

Lemma get_or_build_follows : follow inserts looked_up [] (get_or_build config subject).
Proof.
  unfold get_or_build. apply follow_try. destruct (is_dynamic config) eqn:Hdyn.
  - apply follow_find; [|by intros]. intros m Hl.
    eapply (follow_web _ _ _ _ (fun wtr r => ∀ d, r = Ok d →
      existT (OnAuth (Sql (FindDynamicClientRegistration (up_name config) subject))) (Ok d) ∈ wtr)); [done| |].
    + cbn. rewrite (Hm m Hl). intros [d|e]; cbn; [|done]. intros ? [= <-]. by left.
    + intros wtr [d|e] Hd; [|by intros c]. apply insert_follows. unfold id_read. rewrite Hdyn, web_trace_app, web_trace_web.
      apply elem_of_app. right. by apply Hd.
  - cbn [follow]. apply insert_follows. unfold id_read. by rewrite Hdyn.
Qed.
End Follow.

(** ** Programs of one key

    The lock state of a task: free, or held with the answer of its last lookup
    under the lock.  [wp] is the weakest precondition of a task that looks up
    and inserts only at [key]. *)

Inductive LockState := Free | Held (seen : option (option CachedAuthClient)).

Section Wp.
Context (managers : gmap string UpstreamOauthManager) (key : Key).

Definition see (l : LockState) (r : option CachedAuthClient) : LockState :=
  match l with Free => Free | Held _ => Held (Some r) end.

Definition step_pre (l : LockState) (e : CEff) : (LockState → cresp e → Prop) → Prop :=
  match e as e return (LockState → cresp e → Prop) → Prop with
  | OnWeb _ => fun K => ∀ r, K l r
  | ManagersGet name => fun K => K l (managers !! name)
  | ClientsGet k => fun K => k = key ∧ ∀ r, K (see l r) r
  | ClientsInsert k e => fun K =>
      k = key ∧ K (Held None) () ∧
      ∃ r, l = Held (Some r) ∧ ∀ old, r = Some old → ca_fingerprint old ≠ ca_fingerprint e
  | BuildLock k => fun K => k = key ∧ l = Free ∧ K (Held None) ()
  | BuildUnlock k => fun K => k = key ∧ l ≠ Free ∧ K Free ()
  end.

Fixpoint wp {A} (l : LockState) (p : prog cresp A) (Q : LockState → A → Prop) : Prop :=
  match p with
  | Ret a => Q l a
  | Vis e k => step_pre l e (fun l r => wp l (k r) Q)
  end.

Lemma step_pre_mono l e (K K' : LockState → cresp e → Prop) :
  (∀ l r, K l r → K' l r) → step_pre l e K → step_pre l e K'.
Proof. intros HK. destruct e; cbn; naive_solver. Qed.

Lemma wp_bind {A B} l (p : prog cresp A) (f : A → prog cresp B) Q :
  wp l p (fun l a => wp l (f a) Q) → wp l (pbind p f) Q.
Proof.
  revert l. induction p as [a|e k IH]; intros l; cbn [wp pbind]; [done|].
  apply step_pre_mono. intros l' r. apply IH.
Qed.
Lemma wp_mono {A} l (p : prog cresp A) (Q Q' : LockState → A → Prop) :
  (∀ l a, Q l a → Q' l a) → wp l p Q → wp l p Q'.
Proof.
  intros HQ. revert l. induction p as [a|e k IH]; intros l; cbn [wp]; [apply HQ|].
  apply step_pre_mono. intros l' r. apply IH.
Qed.
Lemma wp_try {A B Er} l (p : prog cresp (result A Er)) (f : A → prog cresp (result B Er)) Q :
  wp l p (fun l r => match r with Ok a => wp l (f a) Q | Err e => Q l (Err e) end) → wp l (try_bind p f) Q.
Proof. intros Hp. apply wp_bind. eapply wp_mono; [|exact Hp]. by intros l' []. Qed.

(** The manager's own effects leave the cache alone. *)
Lemma wp_web {A} l (p : W A) (Q : LockState → A → Prop) : (∀ a, Q l a) → wp l (on_web p) Q.
Proof. intros HQ. induction p as [a|e k IH]; cbn [on_web wp step_pre]; auto. Qed.

Lemma wp_find_manager l config (Q : LockState → result UpstreamOauthManager OauthError → Prop) :
  (∀ r, Q l r) → wp l (find_manager config) Q.
Proof. intros HQ. cbn. apply HQ. Qed.
End Wp.

Definition released {A} (l : LockState) (_ : A) : Prop := l = Free.

Lemma insert_wp managers config subject dyn p :
  (∀ l Q, (∀ r, Q l r) → wp managers (up_name config, subject) l p Q) →
  wp managers (up_name config, subject) Free (get_or_insert_with config subject dyn p) released.
Proof.
  intros Hb. unfold get_or_insert_with. cbn [try_bind lift pbind].
  destruct (registration_fingerprint config dyn) as [fp|] eqn:Hf; [|done].
  cbn [wp step_pre pbind ceff trigger see]. split; [done|]. intros entry. destruct (hit fp entry); [done|].
  cbn [wp step_pre pbind ceff trigger see]. split_and!; [done..|]. clear entry. intros entry.
  destruct (hit fp entry) eqn:Hh; [done|]. apply wp_bind, Hb. intros [c|e]; cbn [wp step_pre pbind ceff trigger]; [|done].
  split_and!; [done..|]. exists entry. split; [done|]. intros old Hold. by apply (hit_None fp entry).
Qed.

Lemma get_or_build_wp managers config subject :
  wp managers (up_name config, subject) Free (get_or_build config subject) released.
Proof.
  unfold get_or_build. apply wp_try.
  assert (Hrest : ∀ dyn, wp managers (up_name config, subject) Free (get_or_insert_with config subject dyn (builder config subject)) released).
  { intros dyn. apply insert_wp. intros l Q HQ. apply wp_try, wp_find_manager. intros [m|e]; [|apply HQ].
    apply wp_try, wp_web. intros [c|e]; apply HQ. }
  destruct (is_dynamic config); [|apply Hrest]. apply wp_try, wp_find_manager. intros [m|e]; [|done].
  apply wp_web. intros [dyn|e]; [apply Hrest|done].
Qed.

(** ** The invariant of the pool *)

Definition task_key (task : Task) : Key := (up_name (tk_config task), tk_subject task).

(** What a task's lock state says of the shared maps. *)
Definition holds (c : OauthClientCache) (t : nat) (key : Key) (l : LockState) : Prop :=
  match l with
  | Free => ∀ k, oc_locked c !! k ≠ Some t
  | Held seen => (∀ k, oc_locked c !! k = Some t ↔ k = key) ∧
      ∀ r, seen = Some r → oc_clients c !! key = r ∨ oc_clients c !! key = None
  end.

Definition task_ok (c : OauthClientCache) (t : nat) (task : Task) : Prop :=
  ∃ l, holds c t (task_key task) l ∧
    wp (oc_managers c) (task_key task) l (tk_prog task) released.

Definition pool_ok (P : Pool) : Prop := ∀ t task, po_tasks P !! t = Some task → task_ok (po_cache P) t task.

(** A step of [t]: the others keep their states, [t] gets a new one. *)
Lemma pool_ok_insert c c' ts log log' t task s p :
  pool_ok (mkPool c ts log) → ts !! t = Some task → oc_managers c' = oc_managers c →
  (∀ t' key l, t' ≠ t → holds c t' key l → holds c' t' key l) →
  task_ok c' t (resume task s p) → pool_ok (mkPool c' (<[t := resume task s p]> ts) log').
Proof.
  intros Ht Hts Hm Ho Hp t' task'. cbn [po_tasks po_cache].
  destruct (decide (t' = t)) as [->|Hne]; [rewrite lookup_insert_eq; by intros [= <-]|].
  rewrite lookup_insert_ne by done. intros Htask. destruct (Ht _ _ Htask) as (l & Hl & Hw). exists l. cbn in *.
  rewrite Hm. auto.
Qed.

Lemma holds_same_lock c t key seen r :
  holds c t key (Held seen) → oc_clients c !! key = r → holds c t key (Held (Some r)).
Proof. intros [Hl _] Hr. split; [done|]. intros ? [= <-]. by left. Qed.

(** Evictions. *)
Lemma pool_ok_shrink c c' ts log :
  pool_ok (mkPool c ts log) → oc_managers c' = oc_managers c → oc_locked c' = oc_locked c →
  (∀ k, oc_clients c' !! k = oc_clients c !! k ∨ oc_clients c' !! k = None) → pool_ok (mkPool c' ts log).
Proof.
  intros Ht Hm Hl Hc t task Hts. destruct (Ht _ _ Hts) as (l & Hh & Hw). exists l. cbn in *. rewrite Hm. split; [|done].
  destruct l as [|seen]; cbn in *; rewrite Hl; [done|]. destruct Hh as [Hk Hs]. split; [done|].
  intros r Hr. specialize (Hs r Hr). destruct (Hc (task_key task)) as [Hs'|Hs']; rewrite Hs'; auto.
Qed.

Lemma filter_shrinks c (P : Key * CachedAuthClient → Prop) `{∀ kv, Decision (P kv)} k :
  filter P (oc_clients c) !! k = oc_clients c !! k ∨ filter P (oc_clients c) !! k = None.
Proof.
  destruct (filter P (oc_clients c) !! k) as [e|] eqn:Hf; [|by right]. left.
  apply map_lookup_filter_Some in Hf as [Hf _]. by rewrite Hf.
Qed.

(** The insertion of the lock's holder. *)
Lemma holds_insert c t t' key key' entry l :
  oc_locked c !! key = Some t → t' ≠ t → holds c t' key' l →
  holds (set_clients c (<[key := entry]> (oc_clients c))) t' key' l.
Proof.
  intros Hk Hne. destruct l as [|seen]; cbn; [done|]. intros [Hl Hs]. split; [done|]. intros r Hr.
  rewrite lookup_insert_ne; [by apply Hs|]. intros <-. specialize (Hl key). naive_solver.
Qed.

(** The lock state of the task about to run. *)
Ltac running Hok Hts Hp :=
  let l := fresh "l" in let Hl := fresh "Hl" in let Hw := fresh "Hw" in
  destruct (Hok _ _ Hts) as (l & Hl & Hw); rewrite Hp in Hw; cbn [wp step_pre po_cache] in Hw, Hl.

Lemma holds_lock c t key :
  oc_locked c !! key = None → (∀ k, oc_locked c !! k ≠ Some t) →
  holds (set_locked c (<[key := t]> (oc_locked c))) t key (Held None).
Proof.
  intros Hk Hf. split; [|done]. intros k. cbn. rewrite lookup_insert. case_decide; [by subst|]. split; [|congruence].
  intros Hk'. by destruct (Hf k).
Qed.
Lemma holds_lock_other c t t' key key' l :
  oc_locked c !! key = None → t' ≠ t → holds c t' key' l →
  holds (set_locked c (<[key := t]> (oc_locked c))) t' key' l.
Proof.
  intros Hk Hne. destruct l as [|seen]; cbn.
  - intros Hf k. rewrite lookup_insert. case_decide; [congruence|apply Hf].
  - intros [Hl Hs]. split; [|done]. intros k. rewrite lookup_insert. case_decide as Heq; [|apply Hl].
    subst k. rewrite <- Hl, Hk. split; congruence.
Qed.
Lemma holds_unlock_other c t t' key key' l :
  oc_locked c !! key = Some t → t' ≠ t → holds c t' key' l →
  holds (set_locked c (delete key (oc_locked c))) t' key' l.
Proof.
  intros Hk Hne. destruct l as [|seen]; cbn.
  - intros Hf k. rewrite lookup_delete. case_decide; [done|apply Hf].
  - intros [Hl Hs]. split; [|done]. intros k. rewrite lookup_delete. case_decide as Heq; [|apply Hl].
    subst k. rewrite <- Hl, Hk. split; congruence.
Qed.

Lemma holds_drop_other c t t' key l :
  t' ≠ t → holds c t' key l → holds (set_locked c (filter (fun kv => kv.2 ≠ t) (oc_locked c))) t' key l.
Proof.
  intros Hne.
  assert (Hf : ∀ k, filter (fun kv => kv.2 ≠ t) (oc_locked c) !! k = Some t' ↔ oc_locked c !! k = Some t').
  { intros k. rewrite map_lookup_filter_Some. cbn. naive_solver. }
  destruct l as [|seen]; cbn; setoid_rewrite Hf; done.
Qed.

(** The caches an eviction leaves. *)
Inductive evicted (c : OauthClientCache) : OauthClientCache → Prop :=
| evicted_subject u s : evicted c (evict_subject c u s)
| evicted_upstream u : evicted c (evict_upstream c u)
| evicted_all : evicted c (evict_all c)
| evicted_not_in known : evicted c (evict_upstreams_not_in c known).

Lemma evicted_shrinks c c' : evicted c c' →
  oc_managers c' = oc_managers c ∧ oc_locked c' = oc_locked c ∧
  ∀ k, oc_clients c' !! k = oc_clients c !! k ∨ oc_clients c' !! k = None.
Proof.
  intros [u s|u| |known]; split_and!; try done; intros k; cbn [oc_clients set_clients evict_subject evict_all]; try apply filter_shrinks.
  - rewrite lookup_delete. case_decide; auto.
  - right. apply lookup_empty.
Qed.

Lemma pool_step P wrote P' : pool_ok P → pstep P wrote P' →
  pool_ok P' ∧ oc_managers (po_cache P') = oc_managers (po_cache P) ∧
  ∀ k e old, wrote = Some (k, e) → oc_clients (po_cache P) !! k = Some old → ca_fingerprint old ≠ ca_fingerprint e.
Proof.
  intros Hok Hstep.
  assert (Hev : ∀ c c' ts log, P = mkPool c ts log → evicted c c' → pool_ok (mkPool c' ts log)).
  { intros c c' ts log -> (? & ? & ?)%evicted_shrinks. by eapply pool_ok_shrink. }
  destruct Hstep as
    [c ts log t task e k r Hts Hp|c ts log t task name k Hts Hp|c ts log t task key k Hts Hp|c ts log t task key entry k Hts Hp
    |c ts log t task key k Hts Hp Hk|c ts log t task key k Hts Hp Hk|c ts log t|c ts log u s|c ts log u|c ts log|c ts log known];
    (split; [|split; [done|try done]]).
  - running Hok Hts Hp. eapply pool_ok_insert; [done..|]. exists l. by split; [|apply Hw].
  - running Hok Hts Hp. eapply pool_ok_insert; [done..|]. by exists l.
  - running Hok Hts Hp. destruct Hw as [-> Hw]. eapply pool_ok_insert; [done..|].
    exists (see l (oc_clients c !! task_key task)). split; [|apply Hw]. destruct l; [done|]. by eapply holds_same_lock.
  - running Hok Hts Hp. destruct Hw as (-> & Hw & r & -> & Hr). destruct Hl as [Hl Hs].
    assert (Hlk : oc_locked c !! task_key task = Some t) by by apply Hl. eapply pool_ok_insert; [done..| |].
    + intros t' key' l Hne. by apply (holds_insert c t).
    + exists (Held None). by split; [split|].
  - running Hok Hts Hp. destruct Hw as (-> & Hw & r & -> & Hr). destruct Hl as [_ Hs].
    intros ? ? old [= <- <-] Hold. destruct (Hs r eq_refl) as [Hc|Hc]; cbn in Hold; rewrite Hc in Hold; [by apply Hr|done].
  - running Hok Hts Hp. destruct Hw as (-> & -> & Hw). eapply pool_ok_insert; [done..| |].
    + intros t' key' l Hne. by apply holds_lock_other.
    + exists (Held None). by split; [apply holds_lock|].
  - running Hok Hts Hp. destruct Hw as (-> & Hl' & Hw). eapply pool_ok_insert; [done..| |].
    + intros t' key' l' Hne. by apply holds_unlock_other with (t := t).
    + exists Free. split; [|done]. destruct l as [|seen]; [done|]. destruct Hl as [Hl _]. intros k'. cbn.
      rewrite lookup_delete. case_decide; [done|]. rewrite Hl. congruence.
  - intros t' task'. cbn [po_tasks po_cache]. intros [Hne Hts]%lookup_delete_Some.
    destruct (Hok _ _ Hts) as (l & Hl & Hw). exists l. split; [|done]. by apply holds_drop_other.
  - eapply Hev; [done|constructor].
  - eapply Hev; [done|constructor].
  - eapply Hev; [done|constructor].
  - eapply Hev; [done|constructor].
Qed.

(** ** Where the clients come from *)

Definition logged (P : Pool) (k : Key) (e : CachedAuthClient) : Prop := ∃ tr, (k, e, tr) ∈ po_log P.

Record traced (managers : gmap string UpstreamOauthManager) (P : Pool) : Prop := {
  tr_managers : oc_managers (po_cache P) = managers;
  tr_cached : ∀ k e, oc_clients (po_cache P) !! k = Some e → logged P k e;
  tr_log : ∀ k e tr, (k, e, tr) ∈ po_log P → ∃ m, managers !! k.1 = Some m ∧ made m k.2 e tr;
  tr_task : ∀ t task, po_tasks P !! t = Some task →
    follow managers (inserts managers (tk_config task) (tk_subject task)) (looked_up managers (tk_config task) (tk_subject task))
      (tk_done task) (tk_prog task)
    ∧ ∀ k e, (k, e) ∈ omap got (tk_done task) → logged P k e;
}.

(** A step of a task that inserts nothing. *)
Lemma traced_task managers c c' ts log t task e k r :
  traced managers (mkPool c ts log) → ts !! t = Some task → tk_prog task = Vis e k → answers managers e r →
  oc_managers c' = oc_managers c → (∀ key entry, oc_clients c' !! key = Some entry → oc_clients c !! key = Some entry) →
  (∀ key entry, got (existT e r) = Some (key, entry) → oc_clients c !! key = Some entry) →
  traced managers (mkPool c' (<[t := resume task (existT e r) (k r)]> ts) log).
Proof.
  intros [Tm Tc Tl Tt] Hts Hp Ha Hm Hc Hg. split; [by cbn; rewrite Hm|by intros key entry ?%Hc; apply Tc|done|].
  intros t' task'. cbn [po_tasks]. rewrite lookup_insert_Some. intros [[<- <-]|[_ Hts']]; [|exact (Tt _ _ Hts')].
  destruct (Tt t task Hts) as [Hf Hgot]. rewrite Hp in Hf. split; [by apply Hf|]. intros key entry. cbn [tk_done resume].
  rewrite omap_app, elem_of_app. intros [Hin|Hin]; [by apply Hgot|].
  apply list_elem_of_omap in Hin as (s & ->%list_elem_of_singleton & Hs). by apply Tc, Hg.
Qed.

Lemma traced_insert managers c ts log t task key entry k :
  traced managers (mkPool c ts log) → ts !! t = Some task → tk_prog task = Vis (ClientsInsert key entry) k →
  traced managers (mkPool (set_clients c (<[key := entry]> (oc_clients c)))
    (<[t := resume task (existT (ClientsInsert key entry) ()) (k ())]> ts) (log ++ [(key, entry, tk_done task)])).
Proof.
  intros [Tm Tc Tl Tt] Hts Hp. destruct (Tt t task Hts) as [Hf Hgot]. rewrite Hp in Hf. destruct Hf as [(-> & m & Hl & Hmade) Hk].
  assert (Hlog : ∀ c' ts' k e, logged (mkPool c ts log) k e →
    logged (mkPool c' ts' (log ++ [(up_name (tk_config task), tk_subject task, entry, tk_done task)])) k e).
  { intros c' ts' k' e [tr Htr]. exists tr. cbn. apply elem_of_app. by left. }
  split; [done| | |].
  - intros key e. cbn [po_cache oc_clients set_clients]. rewrite lookup_insert_Some. intros [[<- <-]|[_ He]]; [|by apply Hlog, Tc].
    exists (tk_done task). cbn. apply elem_of_app. right. by left.
  - intros k' e tr. cbn [po_log]. rewrite elem_of_app, list_elem_of_singleton. intros [Hin|[= -> -> ->]]; [by apply Tl|].
    by exists m.
  - intros t' task'. cbn [po_tasks]. rewrite lookup_insert_Some. intros [[<- <-]|[_ Hts']].
    + split; [by apply Hk|]. intros k' e. cbn [tk_done resume]. rewrite omap_app. cbn. rewrite app_nil_r. intros Hin. by apply Hlog, Hgot.
    + destruct (Tt t' task' Hts') as [Hf' Hg']. split; [done|]. intros k' e Hin. by apply Hlog, Hg'.
Qed.

Lemma traced_shrink managers c c' ts log :
  traced managers (mkPool c ts log) → oc_managers c' = oc_managers c →
  (∀ k, oc_clients c' !! k = oc_clients c !! k ∨ oc_clients c' !! k = None) → traced managers (mkPool c' ts log).
Proof.
  intros [Tm Tc Tl Tt] Hm Hc. split; [by cbn; rewrite Hm| |done|done]. intros k e. cbn.
  destruct (Hc k) as [->| ->]; [apply Tc|done].
Qed.

Lemma pool_traced_step managers P wrote P' : traced managers P → pstep P wrote P' → traced managers P'.
Proof.
  intros HT Hstep. pose proof (tr_managers _ _ HT) as Tm.
  destruct Hstep as
    [c ts log t task e k r Hts Hp|c ts log t task name k Hts Hp r|c ts log t task key k Hts Hp r|c ts log t task key entry k Hts Hp
    |c ts log t task key k Hts Hp Hk|c ts log t task key k Hts Hp Hk|c ts log t|c ts log u s|c ts log u|c ts log|c ts log known].
  - by eapply traced_task.
  - eapply traced_task; [done..| |done|done|done]. subst r. cbn in *. by rewrite Tm.
  - eapply traced_task; [done..|]. subst r. cbn. intros key' entry. destruct (oc_clients c !! key) eqn:He; [|done]. by intros [= <- <-].
  - by apply traced_insert.
  - by eapply traced_task.
  - by eapply traced_task.
  - destruct HT as [_ Tc Tl Tt]. split; [done..|]. intros t' task'. cbn [po_tasks]. intros [_ Hts]%lookup_delete_Some. exact (Tt _ _ Hts).
  - destruct (evicted_shrinks c _ (evicted_subject c u s)) as (? & ? & ?). by eapply traced_shrink.
  - destruct (evicted_shrinks c _ (evicted_upstream c u)) as (? & ? & ?). by eapply traced_shrink.
  - destruct (evicted_shrinks c _ (evicted_all c)) as (? & ? & ?). by eapply traced_shrink.
  - destruct (evicted_shrinks c _ (evicted_not_in c known)) as (? & ? & ?). by eapply traced_shrink.
Qed.

Lemma pool_steps managers P P' : pool_ok P → traced managers P → psteps P P' → pool_ok P' ∧ traced managers P'.
Proof.
  intros Hok Ht Hs. induction Hs as [|P P1 P' [w Hw] _ IH]; [done|]. apply IH; [by eapply pool_step|by eapply pool_traced_step].
Qed.

(** Lookups that have not started: each finds the manager of its own upstream. *)
Definition starting (c : OauthClientCache) (calls : gmap nat (UpstreamConfig * string)) : Pool := mkPool c (start <$> calls) [].

Lemma starting_ok c calls :
  oc_clients c = ∅ → oc_locked c = ∅ →
  (∀ t config subject m, calls !! t = Some (config, subject) → oc_managers c !! up_name config = Some m → um_upstream m = config) →
  pool_ok (starting c calls) ∧ traced (oc_managers c) (starting c calls).
Proof.
  intros He Hl Hm. split.
  - intros t task. cbn [po_tasks starting po_cache]. rewrite lookup_fmap_Some. intros ([config subject] & <- & Ht). exists Free.
    split; [|apply get_or_build_wp]. intros k. by rewrite Hl, lookup_empty.
  - split; [done| |by intros ? ? ? Hin%elem_of_nil|].
    + intros k e. cbn. by rewrite He, lookup_empty.
    + intros t task. cbn [po_tasks starting]. rewrite lookup_fmap_Some. intros ([config subject] & <- & Ht).
      split; [|by intros ? ? Hin%elem_of_nil]. apply get_or_build_follows. intros m. by apply (Hm t config subject).
Qed.

(** The client of a finished lookup: the manager of the lookup's upstream built
    it for the lookup's subject, in this lookup or in a logged one that had read
    the same dynamic client id. *)
Definition serves (managers : gmap string UpstreamOauthManager) (log : list (Key * CachedAuthClient * CTrace)) (task : Task)
    (client : AuthorizationManager) : Prop :=
  let config := tk_config task in let subject := tk_subject task in
  ∃ m d d' tr, managers !! up_name config = Some m ∧ um_upstream m = config ∧
    (tr = tk_done task ∨ ∃ e, (up_name config, subject, e, tr) ∈ log ∧ ca_client e = client) ∧
    built_for m subject client tr ∧
    id_read config subject d (tk_done task) ∧ id_read config subject d' tr ∧ unwrap_or d' "none" = unwrap_or d "none".

Lemma finished_serves managers P t task client :
  traced managers P → po_tasks P !! t = Some task → tk_prog task = Ret (Ok client) →
  (∀ m, managers !! up_name (tk_config task) = Some m → um_upstream m = tk_config task) →
  serves managers (po_log P) task client.
Proof.
  intros HT Hts Hp Hm. destruct (tr_task _ _ HT t task Hts) as [Hf Hg]. rewrite Hp in Hf.
  destruct (Hf client eq_refl) as (d & Hd & [(m & Hl & Hb)|(e & He & Hc & Hfp)]).
  - exists m, d, d, (tk_done task). split_and!; auto.
  - destruct (Hg _ _ He) as [tr Htr]. destruct (tr_log _ _ HT _ _ _ Htr) as (m & Hl & d' & Hd' & Hfp' & Hb). cbn [fst snd] in *.
    rewrite (Hm m Hl) in Hd', Hfp'. exists m, d, d', tr. rewrite <- Hc. split_and!; try done; [auto|by right; exists e|].
    eapply (fingerprint_ids (tk_config task)); [by rewrite Hfp, Hfp'| |done..].
    unfold registration_fingerprint in Hfp. destruct (up_oauth (tk_config task)); [done|done].
Qed.

Definition from_calls (calls : gmap nat (UpstreamConfig * string)) (P : Pool) : Prop :=
  ∀ t task, po_tasks P !! t = Some task → calls !! t = Some (tk_config task, tk_subject task).
Lemma from_calls_step calls P wrote P' : from_calls calls P → pstep P wrote P' → from_calls calls P'.
Proof.
  intros IH Hw.
  assert (Hres : ∀ c ts log t task s p c' log', P = mkPool c ts log → ts !! t = Some task →
    from_calls calls (mkPool c' (<[t := resume task s p]> ts) log')).
  { intros c ts log t task s p c' log' -> Hts t' task'. cbn [po_tasks]. rewrite lookup_insert_Some.
    intros [[<- <-]|[_ Ht]]; [exact (IH t task Hts)|exact (IH t' task' Ht)]. }
  destruct Hw; try exact IH; try (by eapply Hres).
  intros t' task'. cbn [po_tasks]. intros [_ Ht]%lookup_delete_Some. exact (IH t' task' Ht).
Qed.
Lemma task_calls P calls c : psteps (starting c calls) P → from_calls calls P.
Proof.
  intros Hs. assert (H0' : from_calls calls (starting c calls)).
  { intros t task. cbn. rewrite lookup_fmap_Some. by intros ([config subject] & <- & Ht). }
  induction Hs as [|P1 P2 P' [w Hw] _ IH]; [done|]. by eapply IH, from_calls_step.
Qed.

(** ** The runtime *)

Lemma elem_filter_oauth (l : list UpstreamConfig) u :
  u ∈ List.filter (fun u => is_some (up_oauth u)) l ↔ u ∈ l ∧ is_Some (up_oauth u).
Proof. rewrite elem_filter_b. destruct (up_oauth u); unfold is_Some; naive_solver. Qed.

Lemma from_parts_managers upstreams store_key key redirect_uri name m :
  oc_managers (rt_cache (build_upstream_oauth_runtime_from_parts upstreams store_key key redirect_uri)) !! name = Some m →
  ∃ u, u ∈ upstreams ∧ is_Some (up_oauth u) ∧ up_name u = name ∧ m = mkUpstreamOauthManager store_key key u redirect_uri.
Proof.
  unfold build_upstream_oauth_runtime_from_parts. cbn [rt_cache cache_new oc_managers]. intros Hm.
  enough (∃ u, u ∈ List.filter (fun u => is_some (up_oauth u)) upstreams ∧ up_name u = name ∧
            m = mkUpstreamOauthManager store_key key u redirect_uri) as (u & [Hu Ho]%elem_filter_oauth & Hrest)
    by by exists u.
  revert Hm. generalize (List.filter (fun u => is_some (up_oauth u)) upstreams). intros l. revert m.
  induction l as [|u l IH] using rev_ind; intros m; [cbn; by rewrite lookup_empty|].
  rewrite foldl_app. cbn [foldl]. rewrite lookup_insert. case_decide as Hn.
  - intros [= <-]. exists u. split_and!; [set_solver|done|done].
  - intros Hm. destruct (IH m Hm) as (u' & Hu & Hrest). exists u'. split; [set_solver|done].
Qed.

(** When there is a runtime, and what it is made of. *)
Lemma runtime_inv open_store upstreams auth raw rt :
  build_upstream_oauth_runtime open_store upstreams auth raw = Ok (Some rt) →
  ∃ public_url text key, fc_public_url auth = Some public_url ∧ url_scheme public_url = "https" ∧
    raw = Some text ∧ load_key text = Ok key ∧
    (∀ u oauth, u ∈ upstreams → up_oauth u = Some oauth → is_google_provider (uo_credential oauth) = true →
       is_Some (fc_token_encryption_key auth)) ∧
    rt = build_upstream_oauth_runtime_from_parts upstreams (fc_token_encryption_key auth) key
           (build_upstream_oauth_callback_uri public_url).
Proof.
  unfold build_upstream_oauth_runtime. destruct (fc_public_url auth) as [u|]; [|done].
  destruct raw as [text|]; [|done]. cbn [mbind option_bind]. destruct (Str.is_empty (Str.trim text)); [done|].
  rewrite guard_ok, guard_ok, let_ok. intros (Hs & Hg & key & Hk & (_ & _ & [= <-])%let_ok).
  exists u, text, key. split_and!; [done| |done| | |done].
  - by apply negb_false_iff, String.eqb_eq in Hs.
  - by destruct (load_key text) as [k|]; [injection Hk as ->|].
  - intros v oauth Hv Ho Hp. destruct (fc_token_encryption_key auth); [done|]. cbn [is_some negb] in Hg.
    rewrite andb_true_r in Hg. apply existsb_false with (x := v) in Hg; [|done]. rewrite Ho in Hg. cbn in Hg. congruence.
Qed.

Lemma runtime_managers open_store upstreams auth raw rt config m :
  build_upstream_oauth_runtime open_store upstreams auth raw = Ok (Some rt) → NoDup (up_name <$> upstreams) →
  config ∈ upstreams → oc_managers (rt_cache rt) !! up_name config = Some m → um_upstream m = config.
Proof.
  intros (? & ? & ? & _ & _ & _ & _ & _ & ->)%runtime_inv Hnd Hin Hm. apply from_parts_managers in Hm as (u & Hu & _ & Hn & ->). cbn [um_upstream].
  by apply (NoDup_key_inj up_name upstreams).
Qed.

(** (C29) A runtime built from upstreams of distinct names, and any number of
    lookups of its upstreams, evictions and drops, interleaved in any way.  The
    client a lookup returns was built by the manager of the lookup's upstream for
    the lookup's subject, in this lookup or in one that put it in the cache.  It
    reads the credentials of its own pair under the runtime's key, or those of
    the configured Google account, as the upstream says; it has the client id or
    the document of the registration, or, when the upstream registers
    dynamically, the client id stored with the pair's credentials.  The stored
    dynamic registration was read by the lookup, and by the one that built the
    client, to the same id.  Every client in the cache was built so for its key,
    under its fingerprint; and a client is only inserted where no client of the
    same fingerprint is cached. *)
Theorem runtime_serves_own_client open_store upstreams auth raw rt calls P :
  build_upstream_oauth_runtime open_store upstreams auth raw = Ok (Some rt) → NoDup (up_name <$> upstreams) →
  (∀ t config subject, calls !! t = Some (config, subject) → config ∈ upstreams) →
  psteps (starting (rt_cache rt) calls) P →
  let managers := oc_managers (rt_cache rt) in
  (∀ name m, managers !! name = Some m → um_key m = rt_key rt ∧ um_upstream m ∈ upstreams ∧ up_name (um_upstream m) = name) ∧
  (∀ t task client, po_tasks P !! t = Some task → tk_prog task = Ret (Ok client) → serves managers (po_log P) task client) ∧
  (∀ k e, oc_clients (po_cache P) !! k = Some e →
     ∃ tr m, (k, e, tr) ∈ po_log P ∧ managers !! k.1 = Some m ∧ made m k.2 e tr) ∧
  ∀ k e old P', pstep P (Some (k, e)) P' → oc_clients (po_cache P) !! k = Some old → ca_fingerprint old ≠ ca_fingerprint e.
Proof.
  intros Hb Hnd Hcalls Hs managers.
  assert (Hown : ∀ config m, config ∈ upstreams → managers !! up_name config = Some m → um_upstream m = config).
  { intros config m Hin Hl. by eapply runtime_managers. }
  assert (Hrt : oc_clients (rt_cache rt) = ∅ ∧ oc_locked (rt_cache rt) = ∅).
  { by apply runtime_inv in Hb as (? & ? & ? & _ & _ & _ & _ & _ & ->). }
  destruct (starting_ok (rt_cache rt) calls) as [Hok0 Ht0]; [apply Hrt..| |].
  { intros t config subject m Ht Hl. by apply Hown; [eapply Hcalls|]. }
  destruct (pool_steps _ _ _ Hok0 Ht0 Hs) as [Hok HT]. split_and!.
  - intros name m Hl. apply runtime_inv in Hb as (? & ? & key & _ & _ & _ & _ & _ & ->).
    by apply from_parts_managers in Hl as (u & Hu & _ & Hn & ->).
  - intros t task client Hts Hp. eapply finished_serves; [done..|]. intros m. apply Hown. eapply Hcalls, (task_calls P calls); done.
  - intros k e He. destruct (tr_cached _ _ HT k e He) as [tr Htr]. destruct (tr_log _ _ HT _ _ _ Htr) as (m & Hl & Hmade).
    by exists tr, m.
  - intros k e old P' Hstep. destruct (pool_step _ _ _ Hok Hstep) as (_ & _ & Hn). by apply Hn.
Qed.
End Pool.

(** ** Witnesses *)

#[local] Existing Instance sample_platform.
#[local] Existing Instance sample_web.

Definition sample_upstream (name client_id : string) : UpstreamConfig :=
  mkUpstreamConfig name true f32_one (Some "https://acme.example/mcp") None None [] None None [] [] false false
    None None None None
    (Some (mkUpstreamOauthConfig AuthorizationCodePkce (Preregistered client_id None) None Dedicated None)) None.
Definition sample_upstreams : list UpstreamConfig := [sample_upstream "acme" "id-1"; sample_upstream "other" "id-2"].
Definition sample_auth : FullAuthConfig :=
  match build_from_sources (fun _ => Err "json") (fun _ => Err "json") (fun _ => None) builder_new
          [("LAB_PUBLIC_URL", "https://labby.example/")] with
  | Ok c => c
  | Err _ => mkFullAuthConfig Bearer None "" "" None [] "" (mkGoogleConfig "" "" None "" []) 0 0 0 0 0 0 0 false "" "" "" [] "" ""
               [] "" false false None [] []
  end.

Lemma runtime_serves_own_client_witness :
  ∃ rt, build_upstream_oauth_runtime (fun _ _ => Ok ()) sample_upstreams sample_auth
          (Some "0123456789abcdef0123456789abcdef") = Ok (Some rt) ∧
    let calls := {[0 := (sample_upstream "acme" "id-1", "alice"); 1 := (sample_upstream "acme" "id-1", "bob")]} in
    ∀ P, psteps (starting (rt_cache rt) calls) P →
      ∀ t task client, po_tasks P !! t = Some task → tk_prog task = Ret (Ok client) →
        serves (oc_managers (rt_cache rt)) (po_log P) task client.
Proof.
  eexists. split; [vm_compute; reflexivity|]. intros calls P HP.
  refine (proj1 (proj2 (runtime_serves_own_client (fun _ _ => Ok ()) sample_upstreams sample_auth
                   (Some "0123456789abcdef0123456789abcdef") _ calls P _ _ _ HP))).
  - vm_compute. reflexivity.
  - apply (bool_decide_unpack _). vm_compute. exact I.
  - intros t config subject. subst calls. rewrite lookup_insert_Some, lookup_singleton_Some.
    intros [(_ & [= <- <-])|(_ & _ & [= <- <-])]; apply elem_of_cons; by left.
Defined.
