(* ===== verification/RustNet.v ===== *)
(** * RustNet: [IpAddr::from_str]

    The parser of [std::net] on the text of an address: dotted IPv4 without
    leading zeros, and IPv6 groups with one [::] and an optional IPv4 tail.
    Readers consume a prefix and return the rest. *)

From Stdlib Require Import Ascii.
From stdpp Require Import base strings list.
From S2P Require Import Prelude RustStr AuthTypes SamplePlatform.

(** The value of a digit in the radix. *)
Definition digit_value (radix : Z) (a : ascii) : option Z :=
  let n := Z.of_nat (Ascii.nat_of_ascii a) in
  let d := if bool_decide (48 <= n <= 57)%Z then Some (n - 48)%Z
           else if bool_decide (97 <= n <= 102)%Z then Some (n - 87)%Z
           else if bool_decide (65 <= n <= 70)%Z then Some (n - 55)%Z else None in
  d ← d; if bool_decide (d < radix)%Z then Some d else None.

(** Digits up to [max_digits]; more digits are an error. *)
Fixpoint read_digits (radix : Z) (max_digits : nat) (acc : Z) (count : nat) (s : string) : option (Z * nat * string) :=
  match s with
  | String a r =>
      match digit_value radix a with
      | Some d =>
          match max_digits with
          | 0 => None
          | S k => read_digits radix k (acc * radix + d) (S count) r
          end
      | None => Some (acc, count, s)
      end
  | EmptyString => Some (acc, count, s)
  end.

Definition read_number (radix max : Z) (max_digits : nat) (allow_zero_prefix : bool) (s : string) : option (Z * string) :=
  '(n, count, rest) ← read_digits radix max_digits 0 0 s;
  if (count =? 0) || bool_decide (max < n)%Z
     || (negb allow_zero_prefix && (1 <? count) && match s with String "0" _ => true | _ => false end)
  then None else Some (n, rest).

Definition read_given_char (c : ascii) (s : string) : option string :=
  match s with String a r => if Ascii.eqb a c then Some r else None | EmptyString => None end.

Definition read_ipv4_addr (s : string) : option (Ipv4Addr * string) :=
  let octet := read_number 10 255 3 false in
  '(a, s) ← octet s; s ← read_given_char "." s;
  '(b, s) ← octet s; s ← read_given_char "." s;
  '(c, s) ← octet s; s ← read_given_char "." s;
  '(d, s) ← octet s; Some (V4 a b c d, s).

(** The separator before every group but the first. *)
Definition read_separator {A} (i : nat) (inner : string → option (A * string)) (s : string) : option (A * string) :=
  s ← (if i =? 0 then Some s else read_given_char ":" s); inner s.

(** Up to [limit] groups, the last two possibly an IPv4 address. *)
Fixpoint read_groups (left i : nat) (s : string) : list Z * bool * string :=
  match left with
  | 0 => ([], false, s)
  | S left' =>
      match (if left' =? 0 then None else read_separator i read_ipv4_addr s) with
      | Some (v4, rest) => ([o0 v4 * 256 + o1 v4; o2 v4 * 256 + o3 v4]%Z, true, rest)
      | None =>
          match read_separator i (read_number 16 65535 4 true) s with
          | Some (g, rest) => let '(gs, v4, s) := read_groups left' (S i) rest in (g :: gs, v4, s)
          | None => ([], false, s)
          end
      end
  end.

Definition ipv6_of (l : list Z) : option Ipv6Addr :=
  match l with
  | [a; b; c; d; e; f; g; h] => Some (V6 a b c d e f g h)
  | _ => None
  end.

Definition read_ipv6_addr (s : string) : option (Ipv6Addr * string) :=
  let '(head, head_ipv4, s) := read_groups 8 0 s in
  if length head =? 8 then ip ← ipv6_of head; Some (ip, s)
  else if head_ipv4 then None
  else
    s ← read_given_char ":" s; s ← read_given_char ":" s;
    let '(tail, _, s) := read_groups (8 - (length head + 1)) 0 s in
    ip ← ipv6_of (head ++ replicate (8 - (length head + length tail)) 0%Z ++ tail); Some (ip, s).

(** The whole text is consumed. *)
Definition parse_with {A} (read : string → option (A * string)) (s : string) : option A :=
  match read s with Some (a, EmptyString) => Some a | _ => None end.

Definition read_ip_addr (s : string) : option (IpAddr * string) :=
  match read_ipv4_addr s with
  | Some (v4, rest) => Some (IpV4 v4, rest)
  | None => '(v6, rest) ← read_ipv6_addr s; Some (IpV6 v6, rest)
  end.
Definition ip_from_str (s : string) : option IpAddr := parse_with read_ip_addr s.

Example ip_examples :
  (ip_from_str <$> ["127.0.0.1"; "01.2.3.4"; "1.2.3"; "::"; "::1"; "fe80::1"; "::ffff:1.2.3.4"; "1::2::3"; "1:2:3:4:5:6:7:8"; "localhost"]) =
  [Some (IpV4 (V4 127 0 0 1)); None; None; Some (IpV6 (V6 0 0 0 0 0 0 0 0)); Some (IpV6 (V6 0 0 0 0 0 0 0 1));
   Some (IpV6 (V6 65152 0 0 0 0 0 0 1)); Some (IpV6 (V6 0 0 0 0 0 65535 258 772)); None;
   Some (IpV6 (V6 1 2 3 4 5 6 7 8)); None]%Z.
Proof. reflexivity. Qed.
