(* ===== verification/GatewayOps.v ===== *)
(** * GatewayOps: changing the gateway's configuration

    [labby-gateway/src/gateway/config.rs]: the operations on the in-memory
    configuration behind [gateway.add], [gateway.update], [gateway.remove] and
    the protected-route actions, the validation before a write, and the
    normalization of a loaded file.  Every caller works on a clone of the
    configuration and drops it on an error, so an operation is a function to a
    new configuration or an error.  The TOML text, the lock file and the atomic
    replacement of the file are not modelled. *)

From Stdlib Require Import Ascii SpecFloat.
From stdpp Require Import base strings pretty list.
From S2P Require Import Prelude RustStr AuthTypes SamplePlatform WebPlatform GatewayConfig Paths Ssrf RustNet SpawnGuard.
From S2P Require Import Remote.

(** ** Data *)

Record GatewayPreferences := mkGatewayPreferences {
  gp_extra_stdio_commands : list string;
  gp_disable_spawn_guard : bool;
  gp_upstream_discovery_concurrency : option Z;
  gp_upstream_max_response_bytes : option Z;
  gp_mcp_list_warm_timeout_ms : option Z;
  gp_upstream_stderr_level : option string;
}.

Record UpstreamImportTombstone := mkTombstone {
  ts_name : string;
  ts_imported_from : ImportSource;
  ts_removed_at : string;
}.

Record VirtualServerSurfacesConfig := mkSurfaces { vs_cli : bool; vs_api : bool; vs_mcp : bool; vs_webui : bool }.
Record VirtualServerConfig := mkVirtualServer {
  vs_id : string;
  vs_service : string;
  vs_enabled : bool;
  vs_surfaces : VirtualServerSurfacesConfig;
  vs_allowed_actions : option (list string);
}.

Record GatewayCfg := mkGatewayCfg {
  gw_code_mode : CodeModeConfig;
  gw_upstream_request_timeout_ms : option Z;
  gw_upstream_relay_timeout_ms : option Z;
  gw_upstream : list UpstreamConfig;
  gw_upstream_import_tombstones : list UpstreamImportTombstone;
  gw_upstream_pending : list UpstreamConfig;
  gw_protected_mcp_routes : list ProtectedMcpRouteConfig;
  gw_virtual_servers : list VirtualServerConfig;
  gw_quarantined_virtual_servers : list VirtualServerConfig;
  gw_gateway : GatewayPreferences;
}.

Definition set_upstream (c : GatewayCfg) (l : list UpstreamConfig) : GatewayCfg :=
  mkGatewayCfg (gw_code_mode c) (gw_upstream_request_timeout_ms c) (gw_upstream_relay_timeout_ms c) l
    (gw_upstream_import_tombstones c) (gw_upstream_pending c) (gw_protected_mcp_routes c) (gw_virtual_servers c)
    (gw_quarantined_virtual_servers c) (gw_gateway c).
Definition set_tombstones (c : GatewayCfg) (l : list UpstreamImportTombstone) : GatewayCfg :=
  mkGatewayCfg (gw_code_mode c) (gw_upstream_request_timeout_ms c) (gw_upstream_relay_timeout_ms c) (gw_upstream c) l
    (gw_upstream_pending c) (gw_protected_mcp_routes c) (gw_virtual_servers c) (gw_quarantined_virtual_servers c)
    (gw_gateway c).
Definition set_routes (c : GatewayCfg) (l : list ProtectedMcpRouteConfig) : GatewayCfg :=
  mkGatewayCfg (gw_code_mode c) (gw_upstream_request_timeout_ms c) (gw_upstream_relay_timeout_ms c) (gw_upstream c)
    (gw_upstream_import_tombstones c) (gw_upstream_pending c) l (gw_virtual_servers c)
    (gw_quarantined_virtual_servers c) (gw_gateway c).

(** An update: an outer [None] leaves the field, [Some None] clears it. *)
Record GatewayUpdatePatch := mkPatch {
  gu_name : option string;
  gu_enabled : option bool;
  gu_url : option (option string);
  gu_command : option (option string);
  gu_args : option (list string);
  gu_bearer_token_env : option (option string);
  gu_proxy_resources : option bool;
  gu_proxy_prompts : option bool;
  gu_expose_tools : option (option (list string));
  gu_expose_resources : option (option (list string));
  gu_expose_prompts : option (option (list string));
  gu_oauth : option (option UpstreamOauthConfig);
  gu_code_mode : option (option CodeModeConfig);
}.

(** ** Names, hosts and paths *)

Definition is_valid_env_var_name (value : string) : bool :=
  match value with
  | String ch rest =>
      (Ascii.eqb ch "_" || is_ascii_alphabetic ch)
      && Str.all_bytes (fun ch => Ascii.eqb ch "_" || is_ascii_alphanumeric ch) rest
  | EmptyString => false
  end.

Definition token_prefixes : list string :=
  ["Bearer "; "Token "; "Basic "; "ghp_"; "github_pat_"; "ghu_"; "ghs_"; "ghr_"; "eyJ"; "sk-"; "xoxb-"; "xoxp-"; "glpat-"; "AKIA"].
Definition looks_like_raw_bearer_token (value : string) : bool :=
  existsb (fun p => Str.starts_with p value) token_prefixes.

Definition validate_bearer_token_env_name (value : string) : result unit ToolError :=
  let trimmed := Str.trim value in
  if Str.is_empty trimmed then Err (InvalidParam "bearer token env var must not be empty" "bearer_token_env")
  else if looks_like_raw_bearer_token trimmed
  then Err (InvalidParam "bearer_token_env must be an environment variable name, not the token value" "bearer_token_env")
  else if negb (is_valid_env_var_name trimmed)
  then Err (InvalidParam "bearer_token_env must be a valid environment variable name" "bearer_token_env")
  else Ok ().

(** A character that is not an ASCII letter or digit becomes one underscore per
    byte; runs of underscores collapse in the next step. *)
Definition to_ascii_uppercase (a : ascii) : ascii :=
  let n := Ascii.nat_of_ascii a in if (97 <=? n) && (n <=? 122) then Ascii.ascii_of_nat (n - 32) else a.
Fixpoint env_chars (s : string) : string :=
  match s with
  | EmptyString => EmptyString
  | String a r => String (if is_ascii_alphanumeric a then to_ascii_uppercase a else "_"%char) (env_chars r)
  end.
Definition default_gateway_bearer_env_name (name : string) : string :=
  let normalized :=
    Str.join "_" (List.filter (fun s => negb (Str.is_empty s)) (Str.split "_" (env_chars (Str.trim name)))) in
  let inner := if Str.is_empty normalized then "GATEWAY" else normalized in
  "LABBY_GW_" +:+ inner +:+ "_AUTH_HEADER".

Definition normalize_public_host (raw : string) : result string ToolError :=
  let trimmed := Str.trim_end_matches "." (Str.trim raw) in
  if Str.is_empty trimmed || existsb (fun c => Str.contains c trimmed) ["/"; "\"; ":"; "@"]
  then Err (InvalidParam "public_host must be a bare host without scheme, port, or path" "public_host")
  else Ok (Str.to_ascii_lowercase trimmed).

Definition normalize_route_path (raw param : string) : result string ToolError :=
  let trimmed := Str.trim raw in
  if negb (Str.starts_with "/" trimmed) then Err (InvalidParam (param +:+ " must start with /") param)
  else if (1 <? String.length trimmed) && Str.ends_with "/" trimmed then Ok (Str.trim_end_matches "/" trimmed)
  else Ok trimmed.

Fixpoint normalize_names_from (normalized : list string) (values : list string) (param : string) :
  result (list string) ToolError :=
  match values with
  | [] => Ok normalized
  | value :: rest =>
      let trimmed := Str.trim value in
      if Str.is_empty trimmed then Err (InvalidParam (param +:+ " entries must not be empty") param)
      else normalize_names_from
             (if existsb (String.eqb trimmed) normalized then normalized else normalized ++ [trimmed]) rest param
  end.
Definition normalize_name_list : list string → string → result (list string) ToolError := normalize_names_from [].

Definition normalize_route_scopes (raw : list string) : result (list string) ToolError :=
  let scopes := match raw with [] => ["mcp:read"; "mcp:write"] | _ => Str.trim <$> raw end in
  if existsb Str.is_empty scopes then Err (InvalidParam "route scopes must not contain empty values" "scopes")
  else Ok scopes.

Definition validate_safe_public_path (path : string) : result unit ToolError :=
  if String.eqb path "/" then Err (InvalidParam "public_path must include a service segment" "public_path")
  else
    let lower := Str.to_ascii_lowercase path in
    if Str.starts_with "/.well-known" lower || Str.starts_with "/v1" lower
    then Err (InvalidParam "public_path conflicts with Lab reserved routes" "public_path")
    else if existsb (fun p => Str.contains p lower) ["%2f"; "%5c"; "%2e"] || Str.contains "\" path
            || existsb (fun s => String.eqb s "." || String.eqb s "..") (Str.split "/" path) || Str.contains "//" path
    then Err (InvalidParam "public_path contains unsafe or ambiguous path segments" "public_path")
    else Ok ().

Definition invalid_transport_param (reason : string) : string :=
  if Str.contains "socket_path" reason then "socket_path"
  else if Str.contains "header" reason || Str.contains "Authorization" reason then "headers"
  else if Str.contains "bearer_token_env" reason then "bearer_token_env"
  else if Str.contains "OAuth" reason || Str.contains "oauth" reason then "oauth"
  else if Str.contains "command" reason then "command"
  else if Str.contains "url" reason then "url"
  else "transport".

Definition validate_stdio_upstream (command : string) (args : list string) (env : list (string * string))
    (prefs : GatewayPreferences) : result unit ToolError :=
  if Str.is_empty (Str.trim command) then Err (InvalidParam "gateway command must not be empty" "command")
  else validate_stdio_spec command args env (gp_extra_stdio_commands prefs) (gp_disable_spawn_guard prefs).

(** The IP of a URL's host, brackets removed. *)
Definition host_ip (host : string) : option IpAddr :=
  ip_from_str (Str.trim_end_matches "]" (Str.trim_start_matches "[" host)).

Definition unsafe_backend_ip (ip : IpAddr) : bool :=
  match ip with
  | IpV4 v4 => is_loopback v4 || is_unspecified v4 || Remote.is_multicast v4
               || bool_decide (v4 = V4 169 254 169 254) || bool_decide (o0 v4 = 169%Z ∧ o1 v4 = 254%Z)
  | IpV6 v6 => bool_decide (v6 = V6 0 0 0 0 0 0 0 1) || bool_decide (v6 = V6 0 0 0 0 0 0 0 0) || v6_is_multicast v6
               || bool_decide (Z.land (g0 v6) 65472 = 65152%Z)
  end.

Section Ops.
Context `{WebPlatform}.

(** ** Validation *)

Definition validate_gateway_url (url : string) : result unit ToolError :=
  if negb (Str.starts_with "http://" url) && negb (Str.starts_with "https://" url)
  then Err (InvalidParam ("gateway URL must use http:// or https:// scheme, got `" +:+ url +:+ "`") "url")
  else match url_parse url with
       | Err e => Err (InvalidParam ("invalid gateway URL `" +:+ url +:+ "`: " +:+ e) "url")
       | Ok parsed =>
           match url_host_str parsed ≫= host_ip with
           | Some ip =>
               if bool_decide (ip = IpV4 (V4 0 0 0 0)) || bool_decide (ip = IpV6 (V6 0 0 0 0 0 0 0 0))
               then Err (InvalidParam ("gateway URL must not use the bind-all/unspecified address: " +:+ url) "url")
               else Ok ()
           | None => Ok ()
           end
       end.

(** The parameter an error of [UpstreamConfig::validate] is reported for. *)
Definition upstream_error (e : ConfigError) : ToolError :=
  let message := config_error_display e in
  match e with
  | InvalidName _ _ => InvalidParam message "name"
  | ConflictingAuth _ => InvalidParam message "bearer_token_env"
  | MissingOauthUrl _ | GatewayConfig.InvalidUrl _ _ => InvalidParam message "url"
  | InvalidTransport _ reason => InvalidParam message (invalid_transport_param reason)
  | _ => Sdk "internal_error" message
  end.

Definition validate_upstream (upstream : UpstreamConfig) (prefs : GatewayPreferences) : result unit ToolError :=
  let? _ := match up_bearer_token_env upstream with
            | Some env_name => validate_bearer_token_env_name env_name | None => Ok () end in
  let? _ := map_err upstream_error (GatewayConfig.validate upstream) in
  match up_url upstream, up_command upstream with
  | Some _, Some _ => Err (InvalidParam "gateway must not set both `url` and `command`" "url")
  | None, None => Err (InvalidParam "gateway must set either `url` or `command`" "url")
  | Some url, None => validate_gateway_url url
  | None, Some command => validate_stdio_upstream command (up_args upstream) (up_env upstream) prefs
  end.

Fixpoint validate_upstreams_from (names : list string) (upstreams : list UpstreamConfig) (prefs : GatewayPreferences) :
  result unit ToolError :=
  match upstreams with
  | [] => Ok ()
  | upstream :: rest =>
      let? _ := validate_upstream upstream prefs in
      if existsb (String.eqb (up_name upstream)) names
      then Err (InvalidParam ("gateway `" +:+ up_name upstream +:+ "` appears more than once") "name")
      else validate_upstreams_from (up_name upstream :: names) rest prefs
  end.
Definition validate_upstreams : list UpstreamConfig → GatewayPreferences → result unit ToolError :=
  validate_upstreams_from [].

Definition validate_backend_target (origin : string) : result unit ToolError :=
  match url_parse origin with
  | Err e => Err (InvalidParam ("invalid backend_url: " +:+ e) "backend_url")
  | Ok parsed =>
      let host := match url_host_str parsed with Some h => h | None => "" end in
      if Str.eq_ignore_ascii_case host "localhost"
      then Err (InvalidParam "backend_url must not target localhost" "backend_url")
      else match host_ip host with
           | Some ip => if unsafe_backend_ip ip
                        then Err (InvalidParam "backend_url targets an unsafe local/link-local address" "backend_url")
                        else Ok ()
           | None => Ok ()
           end
  end.

Definition validate_protected_mcp_route (route : ProtectedMcpRouteConfig) : result unit ToolError :=
  if Str.is_empty (pr_name route) then Err (InvalidParam "protected MCP route name must not be empty" "name")
  else
    let? _ := validate_safe_public_path (pr_public_path route) in
    if is_some (pr_target route) && (is_some (pr_upstream route) || negb (Str.is_empty (pr_backend_url route)))
    then Err (InvalidParam "protected MCP route target cannot be combined with upstream or backend_url" "target")
    else
      match pr_target route with
      | Some (GatewaySubset target) =>
          if bool_decide (gs_upstreams target = []) && bool_decide (gs_services target = [])
             && negb (gs_expose_code_mode target)
          then Err (InvalidParam "gateway_subset target must expose at least one upstream, service, or Code Mode" "target")
          else Ok ()
      | None =>
          match pr_upstream route, Str.is_empty (pr_backend_url route) with
          | Some _, true => Ok ()
          | None, false => validate_backend_target (pr_backend_url route)
          | Some _, false => Err (InvalidParam "protected MCP route must set either upstream or backend_url, not both" "upstream")
          | None, true => Err (InvalidParam "protected MCP route must set upstream or backend_url" "backend_url")
          end
      end.

Definition route_key (route : ProtectedMcpRouteConfig) : string * string :=
  (Str.to_ascii_lowercase (pr_public_host route), pr_public_path route).

(** The three [HashSet]s of the loop. *)
Fixpoint validate_routes_from (names : list string) (enabled_keys : list (string * string)) (subset_paths : list string)
    (routes : list ProtectedMcpRouteConfig) : result unit ToolError :=
  match routes with
  | [] => Ok ()
  | route :: rest =>
      let? _ := validate_protected_mcp_route route in
      if existsb (String.eqb (pr_name route)) names
      then Err (InvalidParam ("protected MCP route `" +:+ pr_name route +:+ "` appears more than once") "name")
      else if negb (pr_enabled route) then validate_routes_from (pr_name route :: names) enabled_keys subset_paths rest
      else if bool_decide (route_key route ∈ enabled_keys)
      then Err (InvalidParam ("duplicate enabled protected MCP route for " +:+ pr_public_host route +:+ pr_public_path route) "public_path")
      else if is_gateway_subset route && existsb (String.eqb (pr_public_path route)) subset_paths
      then Err (InvalidParam ("duplicate enabled gateway_subset protected MCP route for " +:+ pr_public_path route) "public_path")
      else validate_routes_from (pr_name route :: names) (route_key route :: enabled_keys)
             (if is_gateway_subset route then pr_public_path route :: subset_paths else subset_paths) rest
  end.
Definition validate_protected_mcp_routes : list ProtectedMcpRouteConfig → result unit ToolError :=
  validate_routes_from [] [] [].

Definition gateway_validate_code_mode (c : CodeModeConfig) : result unit ToolError :=
  map_err (fun e => InvalidParam (config_error_display e)
    match e with
    | InvalidCodeModeTimeout _ => "code_mode.timeout_ms"
    | InvalidCodeModeMaxResponseBytes _ => "code_mode.max_response_bytes"
    | InvalidCodeModeMaxResponseTokens _ => "code_mode.max_response_tokens"
    | InvalidSemanticSearchBlendWeight _ => "code_mode.semantic_search.blend_weight"
    | InvalidSemanticSearchTeiUrl _ => "code_mode.semantic_search.tei_url"
    | _ => "code_mode"
    end) (validate_code_mode c).

Definition validate_config (cfg : GatewayCfg) : result unit ToolError :=
  let? _ := gateway_validate_code_mode (gw_code_mode cfg) in
  let? _ := validate_upstreams (gw_upstream cfg) (gw_gateway cfg) in
  validate_protected_mcp_routes (gw_protected_mcp_routes cfg).

(** ** Tombstones of removed imports *)

Definition tombstone_source_matches_upstream (t : UpstreamImportTombstone) (source : ImportSource) : bool :=
  String.eqb (is_client (ts_imported_from t)) (is_client source)
  && String.eqb (is_path (ts_imported_from t)) (is_path source).

Definition tombstone_transport_matches_upstream (t : UpstreamImportTombstone) (upstream : UpstreamConfig) : bool :=
  match is_transport_fingerprint (ts_imported_from t) with
  | None => true
  | Some tombstone_fingerprint =>
      is_none_or (fun fingerprint => String.eqb fingerprint tombstone_fingerprint)
        (up_imported_from upstream ≫= is_transport_fingerprint)
  end.

Definition tombstone_matches_upstream (t : UpstreamImportTombstone) (upstream : UpstreamConfig) : bool :=
  if String.eqb (ts_name t) (up_name upstream) then
    match up_imported_from upstream with
    | None => true
    | Some source =>
        tombstone_source_matches_upstream t source
        && is_none_or (fun server_name => bool_decide (is_server_name source = Some server_name))
             (is_server_name (ts_imported_from t))
        && tombstone_transport_matches_upstream t upstream
    end
  else
    match up_imported_from upstream with
    | None => false
    | Some source =>
        tombstone_source_matches_upstream t source
        && is_some (is_server_name (ts_imported_from t))
        && bool_decide (is_server_name (ts_imported_from t) = is_server_name source)
        && tombstone_transport_matches_upstream t upstream
    end.

Definition tombstone_removed_import (now : string) (cfg : GatewayCfg) (removed : UpstreamConfig) : GatewayCfg :=
  match up_imported_from removed with
  | None => cfg
  | Some imported_from =>
      set_tombstones cfg
        (List.filter (fun t => negb (tombstone_matches_upstream t removed)) (gw_upstream_import_tombstones cfg)
         ++ [mkTombstone (up_name removed) imported_from now])
  end.

(** ** Upstreams *)

Definition insert_upstream (cfg : GatewayCfg) (upstream : UpstreamConfig) : result GatewayCfg ToolError :=
  let? _ := validate_upstream upstream (gw_gateway cfg) in
  if existsb (fun existing => String.eqb (up_name existing) (up_name upstream)) (gw_upstream cfg)
  then Err (Conflict ("A gateway named " +:+ up_name upstream +:+ " already exists.") (up_name upstream))
  else Ok (set_upstream
             (set_tombstones cfg (List.filter (fun t => negb (tombstone_matches_upstream t upstream))
                                    (gw_upstream_import_tombstones cfg)))
             (gw_upstream cfg ++ [upstream])).

(** [Iterator::position] on a key, and the element there. *)
Fixpoint position {A} (f : A → bool) (l : list A) : option nat :=
  match l with
  | [] => None
  | x :: r => if f x then Some 0 else S <$> position f r
  end.
Definition find_at {A} (f : A → bool) (l : list A) : option (nat * A) :=
  i ← position f l; x ← l !! i; Some (i, x).

Definition ensure_no_startup_mounted_subset_depends_on (cfg : GatewayCfg) (upstream operation : string) :
  result unit ToolError :=
  match find_first (fun route => pr_enabled route && is_gateway_subset route
          && is_some_and (fun target => existsb (fun name => String.eqb name upstream) (gs_upstreams target))
               (gateway_subset_target route)) (gw_protected_mcp_routes cfg) with
  | None => Ok ()
  | Some route =>
      Err (Sdk "restart_required" ("cannot " +:+ operation +:+ " gateway `" +:+ upstream
            +:+ "` while protected gateway_subset route `" +:+ pr_name route
            +:+ "` is mounted; remove or update that route and restart Labby first"))
  end.

Definition set_route_refs (r : ProtectedMcpRouteConfig) (upstream : option string) (target : option ProtectedMcpRouteTarget) :
  ProtectedMcpRouteConfig :=
  mkRoute (pr_name r) (pr_enabled r) (pr_public_host r) (pr_public_path r) upstream (pr_backend_url r)
    (pr_backend_mcp_path r) (pr_scopes r) (pr_health_path r) target.

Definition rename_in_route (old_name new_name : string) (r : ProtectedMcpRouteConfig) : ProtectedMcpRouteConfig :=
  let rename name := if String.eqb name old_name then new_name else name in
  set_route_refs r (rename <$> pr_upstream r)
    ((fun '(GatewaySubset t) => GatewaySubset (mkSubset (rename <$> gs_upstreams t) (gs_services t) (gs_expose_code_mode t)))
     <$> pr_target r).
Definition cascade_upstream_rename (cfg : GatewayCfg) (old_name new_name : string) : GatewayCfg :=
  set_routes cfg (rename_in_route old_name new_name <$> gw_protected_mcp_routes cfg).

(** An empty allowlist means that there is none. *)
Definition clear_empty (l : option (list string)) : option (list string) :=
  match l with Some [] => None | other => other end.
Definition patched {A} (p : option A) (old : A) : A := match p with Some new => new | None => old end.

Definition apply_patch (u : UpstreamConfig) (patch : GatewayUpdatePatch) : UpstreamConfig :=
  mkUpstreamConfig (patched (gu_name patch) (up_name u)) (patched (gu_enabled patch) (up_enabled u)) (up_priority u)
    (patched (gu_url patch) (up_url u)) (up_transport u) (up_socket_path u) (up_headers u)
    (patched (gu_bearer_token_env patch) (up_bearer_token_env u)) (patched (gu_command patch) (up_command u))
    (patched (gu_args patch) (up_args u)) (up_env u)
    (patched (gu_proxy_resources patch) (up_proxy_resources u)) (patched (gu_proxy_prompts patch) (up_proxy_prompts u))
    (patched (clear_empty <$> gu_expose_tools patch) (up_expose_tools u))
    (patched (clear_empty <$> gu_expose_resources patch) (up_expose_resources u))
    (patched (clear_empty <$> gu_expose_prompts patch) (up_expose_prompts u))
    (up_code_mode_hint u) (patched (gu_oauth patch) (up_oauth u)) (up_imported_from u).

Definition not_found (name : string) : ToolError := Sdk "not_found" ("gateway `" +:+ name +:+ "` not found").

Definition update_upstream (cfg : GatewayCfg) (name : string) (patch : GatewayUpdatePatch) : result GatewayCfg ToolError :=
  let? found := ok_or (find_at (fun existing => String.eqb (up_name existing) name) (gw_upstream cfg)) (not_found name) in
  let '(index, old) := found in
  let renamed_to := match gu_name patch with
                    | Some new_name => if String.eqb new_name name then None else Some new_name | None => None end in
  let? _ := (if is_some renamed_to then ensure_no_startup_mounted_subset_depends_on cfg name "rename" else Ok ()) in
  if is_some (gu_code_mode patch)
  then Err (InvalidParam "code_mode config is gateway-wide; use gateway.code_mode.set instead of gateway.update" "code_mode")
  else
    let? _ := match renamed_to with
              | Some new_name =>
                  if existsb (fun existing => String.eqb (up_name existing) new_name) (gw_upstream cfg)
                  then Err (InvalidParam ("gateway `" +:+ new_name +:+ "` already exists") "name") else Ok ()
              | None => Ok ()
              end in
    let updated := apply_patch old patch in
    let? _ := validate_upstream updated (gw_gateway cfg) in
    let cfg := set_upstream cfg (<[index := updated]> (gw_upstream cfg)) in
    Ok (match renamed_to with Some new_name => cascade_upstream_rename cfg name new_name | None => cfg end).

(** The route without the removed upstream; [None] when it has no other target. *)
Definition remove_from_route (removed_name : string) (r : ProtectedMcpRouteConfig) : option ProtectedMcpRouteConfig :=
  if bool_decide (pr_upstream r = Some removed_name) then None
  else match pr_target r with
       | None => Some r
       | Some (GatewaySubset t) =>
           let upstreams := List.filter (fun u => negb (String.eqb u removed_name)) (gs_upstreams t) in
           if bool_decide (upstreams = []) && bool_decide (gs_services t = []) && negb (gs_expose_code_mode t) then None
           else Some (set_route_refs r (pr_upstream r)
                        (Some (GatewaySubset (mkSubset upstreams (gs_services t) (gs_expose_code_mode t)))))
       end.
Definition cascade_upstream_removal (cfg : GatewayCfg) (removed_name : string) : GatewayCfg :=
  set_routes cfg (omap (remove_from_route removed_name) (gw_protected_mcp_routes cfg)).

Definition remove_upstream (cfg : GatewayCfg) (name : string) : result (UpstreamConfig * GatewayCfg) ToolError :=
  let? _ := ensure_no_startup_mounted_subset_depends_on cfg name "remove" in
  let? found := ok_or (find_at (fun existing => String.eqb (up_name existing) name) (gw_upstream cfg)) (not_found name) in
  let '(index, removed) := found in
  Ok (removed, cascade_upstream_removal (set_upstream cfg (delete index (gw_upstream cfg))) name).

(** ** Protected routes *)

Definition normalize_backend_url (raw default_path : string) : result string ToolError :=
  match url_parse (Str.trim raw) with
  | Err e => Err (InvalidParam ("invalid backend_url: " +:+ e) "backend_url")
  | Ok parsed =>
      if negb (String.eqb (url_scheme parsed) "http" || String.eqb (url_scheme parsed) "https")
      then Err (InvalidParam "backend_url must use http:// or https://" "backend_url")
      else if is_none (url_host_str parsed) || is_some (url_query parsed) || is_some (url_fragment parsed)
      then Err (InvalidParam "backend_url must not include query or fragment" "backend_url")
      else
        let? path := (if String.eqb (url_path parsed) "/" then Ok default_path
                      else normalize_route_path (url_path parsed) "backend_url") in
        let host := match url_host_str parsed with Some h => h | None => "" end in
        Ok (url_scheme parsed +:+ "://" +:+ Str.to_ascii_lowercase host
            +:+ match url_port parsed with Some port => ":" +:+ pretty port | None => "" end +:+ path)
  end.

Definition normalize_protected_mcp_route (route : ProtectedMcpRouteConfig) : result ProtectedMcpRouteConfig ToolError :=
  let? public_host := normalize_public_host (pr_public_host route) in
  let? public_path := normalize_route_path (pr_public_path route) "public_path" in
  let upstream := match Str.trim <$> pr_upstream route with
                  | Some name => if Str.is_empty name then None else Some name | None => None end in
  let? legacy_backend_path := normalize_route_path (pr_backend_mcp_path route) "backend_mcp_path" in
  let? backend_url := (if Str.is_empty (Str.trim (pr_backend_url route)) then Ok ""
                       else normalize_backend_url (pr_backend_url route) legacy_backend_path) in
  let? scopes := normalize_route_scopes (pr_scopes route) in
  let? target := match pr_target route with
    | None => Ok None
    | Some (GatewaySubset t) =>
        let? upstreams := normalize_name_list (gs_upstreams t) "target.upstreams" in
        let? services := normalize_name_list (gs_services t) "target.services" in
        Ok (Some (GatewaySubset (mkSubset upstreams services (gs_expose_code_mode t))))
    end in
  let? health_path := match pr_health_path route with
    | None => Ok None
    | Some path =>
        let trimmed := Str.trim path in
        if Str.is_empty trimmed then Ok None
        else let? p := normalize_route_path trimmed "health_path" in Ok (Some p)
    end in
  Ok (mkRoute (Str.trim (pr_name route)) (pr_enabled route) public_host public_path upstream backend_url "/mcp" scopes
        health_path target).

(** The conflicts of a route with the others. *)
Definition name_taken (route : ProtectedMcpRouteConfig) (others : list ProtectedMcpRouteConfig) : bool :=
  existsb (fun existing => String.eqb (pr_name existing) (pr_name route)) others.
Definition route_conflict (route : ProtectedMcpRouteConfig) (others : list ProtectedMcpRouteConfig) : result unit ToolError :=
  if existsb (fun existing => pr_enabled existing && pr_enabled route
       && Str.eq_ignore_ascii_case (pr_public_host existing) (pr_public_host route)
       && String.eqb (pr_public_path existing) (pr_public_path route)) others
  then Err (Conflict ("protected MCP route for " +:+ pr_public_host route +:+ pr_public_path route +:+ " already exists") (pr_name route))
  else if pr_enabled route && is_gateway_subset route
          && existsb (fun existing => pr_enabled existing && is_gateway_subset existing
               && String.eqb (pr_public_path existing) (pr_public_path route)) others
  then Err (Conflict ("gateway_subset protected MCP route for " +:+ pr_public_path route +:+ " already exists") (pr_name route))
  else Ok ().

Definition insert_protected_mcp_route (cfg : GatewayCfg) (route : ProtectedMcpRouteConfig) :
  result (ProtectedMcpRouteConfig * GatewayCfg) ToolError :=
  let? route := normalize_protected_mcp_route route in
  let? _ := validate_protected_mcp_route route in
  if name_taken route (gw_protected_mcp_routes cfg)
  then Err (Conflict ("protected MCP route `" +:+ pr_name route +:+ "` already exists") (pr_name route))
  else
    let? _ := route_conflict route (gw_protected_mcp_routes cfg) in
    Ok (route, set_routes cfg (gw_protected_mcp_routes cfg ++ [route])).

Definition route_not_found (name : string) : ToolError :=
  Sdk "not_found" ("protected MCP route `" +:+ name +:+ "` not found").

Definition update_protected_mcp_route (cfg : GatewayCfg) (name : string) (route : ProtectedMcpRouteConfig) :
  result (ProtectedMcpRouteConfig * GatewayCfg) ToolError :=
  let routes := gw_protected_mcp_routes cfg in
  let? index := ok_or (position (fun existing => String.eqb (pr_name existing) name) routes) (route_not_found name) in
  let? route := normalize_protected_mcp_route route in
  let? _ := validate_protected_mcp_route route in
  if negb (String.eqb (pr_name route) name) && name_taken route routes
  then Err (Conflict ("protected MCP route `" +:+ pr_name route +:+ "` already exists") (pr_name route))
  else
    let? _ := route_conflict route (delete index routes) in
    Ok (route, set_routes cfg (<[index := route]> routes)).

Definition remove_protected_mcp_route (cfg : GatewayCfg) (name : string) :
  result (ProtectedMcpRouteConfig * GatewayCfg) ToolError :=
  let routes := gw_protected_mcp_routes cfg in
  let? found := ok_or (find_at (fun existing => String.eqb (pr_name existing) name) routes) (route_not_found name) in
  Ok (found.2, set_routes cfg (delete found.1 routes)).

(** ** Loading *)

Fixpoint normalize_each (routes : list ProtectedMcpRouteConfig) : result (list ProtectedMcpRouteConfig) ToolError :=
  match routes with
  | [] => Ok []
  | route :: rest =>
      let? route := normalize_protected_mcp_route route in
      let? rest := normalize_each rest in
      Ok (route :: rest)
  end.
Definition normalize_config (cfg : GatewayCfg) : result GatewayCfg ToolError :=
  let? routes := normalize_each (gw_protected_mcp_routes cfg) in Ok (set_routes cfg routes).

(** A parsed file; [path] is its name in messages. *)
Definition load_gateway_config (path : string) (cfg : GatewayCfg) : result GatewayCfg ToolError :=
  let? routes := map_err (fun e => Sdk "internal_error" ("invalid config " +:+ path +:+ ": " +:+ config_error_display e))
                   (normalize_protected_mcp_routes (gw_protected_mcp_routes cfg)) in
  let? cfg := normalize_config (set_routes cfg routes) in
  let? _ := validate_config cfg in
  Ok cfg.

End Ops.
