(* ===== verification/GatewayOpsProps.v ===== *)
(** * GatewayOpsProps: accepted changes keep the configuration valid

    Every change the gateway accepts leads from a valid configuration to a
    valid one, so the validation before the file is written never fails after
    it, and no change of an upstream leaves a route that names an upstream
    which is gone. *)

From Stdlib Require Import Ascii.
From stdpp Require Import base strings sets list relations.
From S2P Require Import Prelude RustStr AuthTypes SamplePlatform WebPlatform GatewayConfig Paths Ssrf RustNet SpawnGuard GatewayOps.

Section Props.
Context `{WebPlatform}.

(** ** Validity of lists, up to order *)

Definition upstreams_valid (prefs : GatewayPreferences) (l : list UpstreamConfig) : Prop :=
  Forall (fun u => validate_upstream u prefs = Ok ()) l ∧ NoDup (up_name <$> l).

Definition mounted_subset (r : ProtectedMcpRouteConfig) : bool := pr_enabled r && is_gateway_subset r.

Definition routes_valid (rs : list ProtectedMcpRouteConfig) : Prop :=
  Forall (fun r => validate_protected_mcp_route r = Ok ()) rs ∧
  NoDup (pr_name <$> rs) ∧
  NoDup (route_key <$> List.filter pr_enabled rs) ∧
  NoDup (pr_public_path <$> List.filter mounted_subset rs).

#[global] Instance filter_Permutation {A} (f : A → bool) : Proper ((≡ₚ) ==> (≡ₚ)) (List.filter f).
Proof.
  intros l k Hlk. induction Hlk as [|x l k _ IH|x y l|l k m _ IH1 _ IH2]; simpl; [done|by destruct (f x); rewrite IH| |by rewrite IH1].
  destruct (f x), (f y); by constructor || done.
Qed.

#[global] Instance upstreams_valid_proper prefs : Proper ((≡ₚ) ==> iff) (upstreams_valid prefs).
Proof. intros l k Hlk. unfold upstreams_valid. by rewrite Hlk. Qed.
#[global] Instance routes_valid_proper : Proper ((≡ₚ) ==> iff) routes_valid.
Proof.
  intros l k Hlk. unfold routes_valid. f_equiv; [by apply Forall_Permutation|].
  repeat f_equiv; exact Hlk.
Qed.

Lemma upstreams_valid_cons prefs u l :
  upstreams_valid prefs (u :: l) ↔
  validate_upstream u prefs = Ok () ∧ up_name u ∉ up_name <$> l ∧ upstreams_valid prefs l.
Proof. unfold upstreams_valid. rewrite Forall_cons, fmap_cons, NoDup_cons. tauto. Qed.

(** What a route added to valid routes has to satisfy. *)
Definition fits (r : ProtectedMcpRouteConfig) (rs : list ProtectedMcpRouteConfig) : Prop :=
  pr_name r ∉ pr_name <$> rs ∧
  (pr_enabled r = true → route_key r ∉ route_key <$> List.filter pr_enabled rs) ∧
  (mounted_subset r = true → pr_public_path r ∉ pr_public_path <$> List.filter mounted_subset rs).

Lemma routes_valid_cons r rs :
  routes_valid (r :: rs) ↔ validate_protected_mcp_route r = Ok () ∧ fits r rs ∧ routes_valid rs.
Proof.
  unfold routes_valid, fits. cbn [List.filter]. rewrite Forall_cons, fmap_cons, NoDup_cons.
  destruct (pr_enabled r) eqn:He, (mounted_subset r) eqn:Hm; rewrite ?fmap_cons, ?NoDup_cons; naive_solver.
Qed.

(** ** The validators *)

Lemma validate_upstreams_from_ok names l prefs :
  validate_upstreams_from names l prefs = Ok () ↔
  upstreams_valid prefs l ∧ ∀ u, u ∈ l → up_name u ∉ names.
Proof.
  revert names. induction l as [|u l IH]; intros names; cbn [validate_upstreams_from].
  - split; [|done]. intros _. split; [by repeat constructor|set_solver].
  - rewrite check_ok, guard_ok, IH, upstreams_valid_cons, <- not_true_iff_false, existsb_eqb. split.
    + intros (Hv & Hn & Hl & Hd). split; [|intros v [->|Hv']%elem_of_cons; [done|]; by specialize (Hd v Hv'); set_solver].
      split_and!; [done| |done]. rewrite list_elem_of_fmap. intros (v & Heq & Hv'). specialize (Hd v Hv'). set_solver.
    + intros ((Hv & Hn & Hl) & Hd). split_and!; [done| |done|].
      * apply Hd. by left.
      * intros v Hv'. rewrite not_elem_of_cons. split; [|apply Hd; by right].
        intros Heq. apply Hn. rewrite <- Heq. by apply list_elem_of_fmap_2.
Qed.

(** The names, keys and paths seen so far. *)
Definition unseen (names : list string) (keys : list (string * string)) (paths : list string) (r : ProtectedMcpRouteConfig) : Prop :=
  pr_name r ∉ names ∧ (pr_enabled r = true → route_key r ∉ keys) ∧ (mounted_subset r = true → pr_public_path r ∉ paths).

Lemma not_elem_if {A} (b : bool) (x y : A) l : y ∉ (if b then x :: l else l) ↔ y ∉ l ∧ (b = true → y ≠ x).
Proof. destruct b; rewrite ?not_elem_of_cons; [tauto|]. split; [|tauto]. intros Hn. by split. Qed.

Lemma unseen_cons names keys paths r r' :
  unseen (pr_name r :: names) (if pr_enabled r then route_key r :: keys else keys)
    (if mounted_subset r then pr_public_path r :: paths else paths) r' ↔
  unseen names keys paths r' ∧ pr_name r' ≠ pr_name r ∧
  (pr_enabled r = true → pr_enabled r' = true → route_key r' ≠ route_key r) ∧
  (mounted_subset r = true → mounted_subset r' = true → pr_public_path r' ≠ pr_public_path r).
Proof.
  unfold unseen. rewrite not_elem_of_cons, !not_elem_if. tauto.
Qed.

Lemma fits_forall r rs :
  fits r rs ↔ ∀ r', r' ∈ rs → pr_name r' ≠ pr_name r ∧
    (pr_enabled r = true → pr_enabled r' = true → route_key r' ≠ route_key r) ∧
    (mounted_subset r = true → mounted_subset r' = true → pr_public_path r' ≠ pr_public_path r).
Proof.
  unfold fits. rewrite !list_elem_of_fmap. setoid_rewrite elem_filter_b. split.
  - intros (Hn & Hk & Hp) r' Hr'. split_and!; [intros Heq; apply Hn; by exists r'|..]; intros He He' Heq;
      [apply Hk in He|apply Hp in He]; apply He; by exists r'.
  - intros Hall. split_and!.
    + intros (r' & Heq & Hr'). destruct (Hall r' Hr') as [Hn _]. congruence.
    + intros He (r' & Heq & Hr' & He'). by destruct (Hall r' Hr') as (_ & Hk & _); apply (Hk He He').
    + intros He (r' & Heq & Hr' & He'). by destruct (Hall r' Hr') as (_ & _ & Hp); apply (Hp He He').
Qed.

Lemma validate_routes_from_cons names keys paths r rs :
  validate_routes_from names keys paths (r :: rs) = Ok () ↔
  validate_protected_mcp_route r = Ok () ∧ unseen names keys paths r ∧
  validate_routes_from (pr_name r :: names) (if pr_enabled r then route_key r :: keys else keys)
    (if mounted_subset r then pr_public_path r :: paths else paths) rs = Ok ().
Proof.
  cbn [validate_routes_from]. rewrite check_ok, guard_ok, <- (not_true_iff_false (existsb _ names)), existsb_eqb.
  unfold unseen, mounted_subset. destruct (pr_enabled r); cbn [negb andb]; [|intuition discriminate].
  rewrite !guard_ok, bool_decide_eq_false. destruct (is_gateway_subset r); cbn [andb]; [|intuition discriminate].
  rewrite <- not_true_iff_false, existsb_eqb. intuition.
Qed.

Lemma validate_routes_from_ok names keys paths rs :
  validate_routes_from names keys paths rs = Ok () ↔ routes_valid rs ∧ ∀ r, r ∈ rs → unseen names keys paths r.
Proof.
  revert names keys paths. induction rs as [|r rs IH]; intros names keys paths.
  - split; [|done]. intros _. split; [by repeat constructor|set_solver].
  - rewrite validate_routes_from_cons, IH, routes_valid_cons, fits_forall. setoid_rewrite unseen_cons.
    setoid_rewrite elem_of_cons. split.
    + intros (Hv & Hu & Hr & Hall). split_and!; [done|intros; by apply Hall|done|]. intros r' [->|Hr']; [done|by apply Hall].
    + intros ((Hv & Hf & Hr) & Hall). split_and!; [done|apply Hall; by left|done|]. intros r' Hr'.
      split; [apply Hall; by right|by apply Hf].
Qed.

Definition valid_cfg (cfg : GatewayCfg) : Prop :=
  gateway_validate_code_mode (gw_code_mode cfg) = Ok () ∧ upstreams_valid (gw_gateway cfg) (gw_upstream cfg) ∧
  routes_valid (gw_protected_mcp_routes cfg).

Lemma validate_config_ok cfg : validate_config cfg = Ok () ↔ valid_cfg cfg.
Proof.
  unfold validate_config, valid_cfg, validate_upstreams, validate_protected_mcp_routes.
  rewrite !check_ok, validate_upstreams_from_ok, validate_routes_from_ok. unfold unseen. set_solver.
Qed.

(** ** Elements at a position *)

Lemma find_at_Some {A} (f : A → bool) l i x : find_at f l = Some (i, x) → l !! i = Some x ∧ f x = true.
Proof.
  unfold find_at. destruct (position f l) as [j|] eqn:Hp; [|done]. cbn.
  destruct (l !! j) as [y|] eqn:Hl; [|done]. cbn. intros [= <- <-]. split; [done|].
  revert j Hp Hl. induction l as [|z l IH]; intros j; cbn [position]; [done|].
  destruct (f z) eqn:Hz; [intros [= <-]; cbn; by intros [= ->]|].
  destruct (position f l) as [k|]; [|done]. intros [= <-] Hl. by apply (IH k).
Qed.

Lemma position_find {A} (f : A → bool) l i : position f l = Some i → ∃ x, find_at f l = Some (i, x).
Proof.
  intros Hp. unfold find_at. rewrite Hp. cbn.
  enough (∃ x, l !! i = Some x) as [x ->] by by exists x. apply lookup_lt_is_Some_2.
  revert i Hp. induction l as [|z l IH]; intros i; cbn [position length]; [done|].
  destruct (f z); [intros [= <-]; lia|]. destruct (position f l); [|done]. intros [= <-]. specialize (IH n eq_refl). lia.
Qed.

(** ** Operations on upstreams *)

Lemma upstreams_named prefs l i u name :
  upstreams_valid prefs l → l !! i = Some u → up_name u = name →
  upstreams_valid prefs (delete i l) ∧ name ∉ up_name <$> delete i l.
Proof. intros Hl Hi <-. rewrite (delete_Permutation l i u Hi), upstreams_valid_cons in Hl. tauto. Qed.

Lemma any_named (l : list UpstreamConfig) name :
  existsb (fun existing => String.eqb (up_name existing) name) l = false ↔ name ∉ up_name <$> l.
Proof.
  rewrite existsb_false, list_elem_of_fmap. setoid_rewrite String.eqb_neq. split.
  - intros Hn (u & -> & Hu). by apply (Hn u).
  - intros Hn u Hu <-. apply Hn. by exists u.
Qed.

Lemma insert_upstream_valid cfg u cfg' : valid_cfg cfg → insert_upstream cfg u = Ok cfg' → valid_cfg cfg'.
Proof.
  intros (Hc & Hu & Hr). unfold insert_upstream. rewrite check_ok, guard_ok, any_named. intros (Hv & Hn & [= <-]).
  split_and!; [done| |done]. cbn. rewrite Permutation_app_comm. cbn. by rewrite upstreams_valid_cons.
Qed.

(** A change of the routes that keeps what validity looks at. *)
Definition same_place (r r' : ProtectedMcpRouteConfig) : Prop :=
  pr_name r' = pr_name r ∧ pr_enabled r' = pr_enabled r ∧ route_key r' = route_key r ∧
  pr_public_path r' = pr_public_path r ∧ is_gateway_subset r' = is_gateway_subset r.

Lemma routes_valid_omap (f : ProtectedMcpRouteConfig → option ProtectedMcpRouteConfig) rs :
  (∀ r r', f r = Some r' → validate_protected_mcp_route r = Ok () → same_place r r' ∧ validate_protected_mcp_route r' = Ok ()) →
  routes_valid rs → routes_valid (omap f rs).
Proof.
  intros Hf. induction rs as [|r rs IH]; [done|]. rewrite routes_valid_cons. intros (Hv & Hfit & Hrs). cbn.
  destruct (f r) as [r1|] eqn:Hr; [|by apply IH]. destruct (Hf r r1 Hr Hv) as [(Hn & He & Hk & Hp & Hs) Hv1].
  rewrite routes_valid_cons. split_and!; [done| |by apply IH]. rewrite fits_forall in Hfit |- *.
  intros r2 (r3 & Hr3 & Hf3)%list_elem_of_omap.
  assert (Hv3 : validate_protected_mcp_route r3 = Ok ()).
  { destruct Hrs as [Hall _]. rewrite Forall_forall in Hall. by apply Hall. }
  destruct (Hf r3 r2 Hf3 Hv3) as [(Hn2 & He2 & Hk2 & Hp2 & Hs2) _]. specialize (Hfit r3 Hr3).
  unfold mounted_subset in *. rewrite Hn, He, Hk, Hp, Hs, Hn2, He2, Hk2, Hp2, Hs2. done.
Qed.

Lemma rename_same old new r : same_place r (rename_in_route old new r).
Proof. unfold same_place, rename_in_route, is_gateway_subset. by destruct r as [? ? ? ? ? ? ? ? ? [[]|]]. Qed.
Lemma rename_valid old new r :
  validate_protected_mcp_route r = Ok () → validate_protected_mcp_route (rename_in_route old new r) = Ok ().
Proof.
  unfold validate_protected_mcp_route, rename_in_route. destruct r as [name en host path up backend mcp sc hp [[[ups svs cm]]|]];
    cbn; destruct up; cbn; try done; destruct ups; done.
Qed.
Lemma rename_routes_valid old new rs : routes_valid rs → routes_valid (rename_in_route old new <$> rs).
Proof.
  intros Hrs. replace (rename_in_route old new <$> rs) with (omap (fun r => Some (rename_in_route old new r)) rs).
  - apply routes_valid_omap; [|done]. intros r r' [= <-] Hv. split; [apply rename_same|by apply rename_valid].
  - clear. induction rs as [|r rs IH]; [done|]. cbn. by f_equal.
Qed.

Definition renamed_to (name : string) (patch : GatewayUpdatePatch) : option string :=
  match gu_name patch with Some n => if String.eqb n name then None else Some n | None => None end.

Lemma update_upstream_ok cfg name patch cfg' :
  update_upstream cfg name patch = Ok cfg' →
  ∃ i old, gw_upstream cfg !! i = Some old ∧ up_name old = name ∧
    (is_some (renamed_to name patch) = true → ensure_no_startup_mounted_subset_depends_on cfg name "rename" = Ok ()) ∧
    (∀ n, renamed_to name patch = Some n → n ∉ up_name <$> gw_upstream cfg) ∧
    validate_upstream (apply_patch old patch) (gw_gateway cfg) = Ok () ∧
    cfg' = (let c := set_upstream cfg (<[i := apply_patch old patch]> (gw_upstream cfg)) in
            match renamed_to name patch with Some n => cascade_upstream_rename c name n | None => c end).
Proof.
  unfold update_upstream. rewrite let_ok. intros ([i old] & Hfind & Hrest).
  destruct (find_at _ _) as [[i' old']|] eqn:Hf; [|done]. cbn [ok_or] in Hfind. injection Hfind as -> ->.
  apply find_at_Some in Hf as [Hi Hn%String.eqb_eq]. fold (renamed_to name patch) in Hrest.
  apply check_ok in Hrest as [Hd Hrest]. apply guard_ok in Hrest as [_ Hrest]. apply check_ok in Hrest as [Hnew Hrest].
  apply check_ok in Hrest as [Hv Hrest]. injection Hrest as <-. exists i, old. split_and!; try done.
  - intros Hs. by rewrite Hs in Hd.
  - intros n Hr. rewrite Hr in Hnew. rewrite <- any_named. by destruct (existsb _ _).
Qed.

Lemma renamed_name name patch old :
  up_name old = name → up_name (apply_patch old patch) = default name (renamed_to name patch).
Proof.
  intros <-. unfold renamed_to. cbn. destruct (gu_name patch) as [n|]; [|done]. cbn.
  by destruct (String.eqb_spec n (up_name old)).
Qed.

Lemma update_upstream_valid cfg name patch cfg' : valid_cfg cfg → update_upstream cfg name patch = Ok cfg' → valid_cfg cfg'.
Proof.
  intros (Hc & Hu & Hr) (i & old & Hi & Hn & _ & Hnew & Hv & ->)%update_upstream_ok.
  destruct (upstreams_named _ _ _ _ _ Hu Hi Hn) as [Hd Hnd].
  assert (Hins : upstreams_valid (gw_gateway cfg) (<[i := apply_patch old patch]> (gw_upstream cfg))).
  { rewrite (insert_Permutation _ _ _ _ Hi), upstreams_valid_cons. split_and!; [done| |done].
    rewrite (renamed_name name) by done. destruct (renamed_to name patch) as [n|]; cbn; [|done].
    specialize (Hnew n eq_refl). rewrite (delete_Permutation _ _ _ Hi), fmap_cons in Hnew. set_solver. }
  cbn zeta. destruct (renamed_to name patch); split_and!; try done. by apply rename_routes_valid.
Qed.

Lemma remove_from_route_ok name r r' :
  remove_from_route name r = Some r' → validate_protected_mcp_route r = Ok () →
  same_place r r' ∧ validate_protected_mcp_route r' = Ok ().
Proof.
  unfold remove_from_route. case_bool_decide; [done|].
  destruct r as [nm en host path up backend mcp sc hp [[[ups svs cm]]|]]; cbn; [|by intros [= <-]].
  destruct (_ && _) eqn:Hne; [done|]. intros [= <-]. unfold same_place, is_gateway_subset. cbn.
  unfold validate_protected_mcp_route. cbn. destruct (Str.is_empty nm); [done|]. destruct (validate_safe_public_path path) as [[]|]; [|done].
  destruct (is_some up || _); [done|]. by rewrite Hne.
Qed.

Lemma remove_upstream_valid cfg name removed cfg' :
  valid_cfg cfg → remove_upstream cfg name = Ok (removed, cfg') → valid_cfg cfg'.
Proof.
  intros (Hc & Hu & Hr). unfold remove_upstream. rewrite check_ok, let_ok. intros (_ & [i u] & Hfind & [= -> <-]).
  destruct (find_at _ _) as [[i' u']|] eqn:Hf; [|done]. cbn [ok_or] in Hfind. injection Hfind as -> ->.
  apply find_at_Some in Hf as [Hi Hn%String.eqb_eq]. split_and!; [done| |].
  - by apply (upstreams_named _ _ _ _ _ Hu Hi Hn).
  - apply routes_valid_omap; [apply remove_from_route_ok|done].
Qed.

(** ** Operations on routes *)

Lemma name_taken_false r rs : name_taken r rs = false ↔ pr_name r ∉ pr_name <$> rs.
Proof.
  unfold name_taken. rewrite existsb_false, list_elem_of_fmap. setoid_rewrite String.eqb_neq. split.
  - intros Hn (r' & Heq & Hr'). by apply (Hn r').
  - intros Hn r' Hr' Heq. apply Hn. by exists r'.
Qed.

(** The conflict check is the rest of what a route has to satisfy. *)
Lemma route_conflict_ok r rs : pr_name r ∉ pr_name <$> rs → route_conflict r rs = Ok () → fits r rs.
Proof.
  unfold route_conflict. rewrite !guard_ok, existsb_false. intros Hn (Hk & Hp & _). apply fits_forall.
  intros r' Hr'. split_and!.
  - intros Heq. apply Hn. rewrite <- Heq. by apply list_elem_of_fmap_2.
  - intros He He' [= Hh Hpath]. specialize (Hk r' Hr'). rewrite He, He', Hpath, String.eqb_refl in Hk. cbn in Hk.
    unfold Str.eq_ignore_ascii_case in Hk. by rewrite Hh, String.eqb_refl in Hk.
  - unfold mounted_subset. intros Hm Hm' Hpath. rewrite Hm in Hp. cbn in Hp. rewrite existsb_false in Hp.
    specialize (Hp r' Hr'). by rewrite Hm', Hpath, String.eqb_refl in Hp.
Qed.

Lemma insert_route_valid cfg r r' cfg' :
  valid_cfg cfg → insert_protected_mcp_route cfg r = Ok (r', cfg') → valid_cfg cfg'.
Proof.
  intros (Hc & Hu & Hr). unfold insert_protected_mcp_route. rewrite let_ok. intros (r1 & _ & Hrest).
  apply check_ok in Hrest as [Hv Hrest]. apply guard_ok in Hrest as [Hn%name_taken_false Hrest].
  apply check_ok in Hrest as [Hk [= -> <-]]. split_and!; [done..|]. cbn.
  rewrite Permutation_app_comm. cbn. rewrite routes_valid_cons. split_and!; [done|by apply route_conflict_ok|done].
Qed.

Lemma routes_named rs i r name :
  routes_valid rs → rs !! i = Some r → pr_name r = name → routes_valid (delete i rs) ∧ name ∉ pr_name <$> delete i rs.
Proof.
  intros Hrs Hi <-. rewrite (delete_Permutation rs i r Hi), routes_valid_cons in Hrs.
  destruct Hrs as (_ & Hf & Hd). split; [done|apply Hf].
Qed.

Lemma update_route_valid cfg name r r' cfg' :
  valid_cfg cfg → update_protected_mcp_route cfg name r = Ok (r', cfg') → valid_cfg cfg'.
Proof.
  intros (Hc & Hu & Hr). unfold update_protected_mcp_route. rewrite let_ok. intros (i & Hpos & Hrest).
  destruct (position _ _) as [i'|] eqn:Hp; [|done]. cbn [ok_or] in Hpos. injection Hpos as ->.
  apply position_find in Hp as [old [Hi Hn%String.eqb_eq]%find_at_Some].
  destruct (routes_named _ _ _ _ Hr Hi Hn) as [Hd Hnd].
  apply let_ok in Hrest as (r1 & _ & Hrest). apply check_ok in Hrest as [Hv Hrest].
  apply guard_ok in Hrest as [Hfree Hrest]. apply check_ok in Hrest as [Hk [= -> <-]].
  split_and!; [done..|]. cbn. rewrite (insert_Permutation _ _ _ _ Hi), routes_valid_cons.
  split_and!; [done| |done]. apply route_conflict_ok; [|done].
  destruct (String.eqb_spec (pr_name r') name) as [->|]; [done|]. cbn in Hfree. apply name_taken_false in Hfree.
  rewrite (delete_Permutation _ _ _ Hi), fmap_cons in Hfree. set_solver.
Qed.

Lemma remove_route_valid cfg name r cfg' :
  valid_cfg cfg → remove_protected_mcp_route cfg name = Ok (r, cfg') → valid_cfg cfg'.
Proof.
  intros (Hc & Hu & Hr). unfold remove_protected_mcp_route. rewrite let_ok. intros ([i u] & Hfind & [= -> <-]).
  destruct (find_at _ _) as [[i' u']|] eqn:Hf; [|done]. cbn [ok_or] in Hfind. injection Hfind as -> ->.
  apply find_at_Some in Hf as [Hi Hn%String.eqb_eq]. split_and!; [done..|]. by apply (routes_named _ _ _ _ Hr Hi Hn).
Qed.

(** ** Sequences of accepted changes *)

Inductive upstream_step (cfg : GatewayCfg) : GatewayCfg → Prop :=
  | step_insert_upstream u cfg' : insert_upstream cfg u = Ok cfg' → upstream_step cfg cfg'
  | step_update_upstream name patch cfg' : update_upstream cfg name patch = Ok cfg' → upstream_step cfg cfg'
  | step_remove_upstream name removed now cfg' :
      remove_upstream cfg name = Ok (removed, cfg') → upstream_step cfg (tombstone_removed_import now cfg' removed).
Inductive gw_step (cfg : GatewayCfg) : GatewayCfg → Prop :=
  | step_upstream cfg' : upstream_step cfg cfg' → gw_step cfg cfg'
  | step_insert_route r r' cfg' : insert_protected_mcp_route cfg r = Ok (r', cfg') → gw_step cfg cfg'
  | step_update_route name r r' cfg' : update_protected_mcp_route cfg name r = Ok (r', cfg') → gw_step cfg cfg'
  | step_remove_route name r cfg' : remove_protected_mcp_route cfg name = Ok (r, cfg') → gw_step cfg cfg'.

Lemma tombstone_valid now cfg u : valid_cfg cfg → valid_cfg (tombstone_removed_import now cfg u).
Proof. unfold tombstone_removed_import. by destruct (up_imported_from u). Qed.

Lemma gw_step_valid cfg cfg' : gw_step cfg cfg' → valid_cfg cfg → valid_cfg cfg'.
Proof.
  intros Hs Hv. destruct Hs as [cfg' []| | |];
    eauto using insert_upstream_valid, update_upstream_valid, remove_upstream_valid, tombstone_valid,
      insert_route_valid, update_route_valid, remove_route_valid.
Qed.

(** ** References from routes to upstreams *)

Definition route_refs (r : ProtectedMcpRouteConfig) : list string :=
  option_list (pr_upstream r) ++ match gateway_subset_target r with Some t => gs_upstreams t | None => [] end.

(** A name that a route refers to and no upstream has. *)
Definition dangling (cfg : GatewayCfg) (n : string) : Prop :=
  n ∉ up_name <$> gw_upstream cfg ∧ ∃ r, r ∈ gw_protected_mcp_routes cfg ∧ n ∈ route_refs r.

Lemma rename_refs old new r : route_refs (rename_in_route old new r) = (fun n => if String.eqb n old then new else n) <$> route_refs r.
Proof. unfold route_refs. destruct r as [? ? ? ? [] ? ? ? ? [[]|]]; done. Qed.

Lemma removed_refs name r r' n : remove_from_route name r = Some r' → n ∈ route_refs r' → n ∈ route_refs r ∧ n ≠ name.
Proof.
  unfold remove_from_route. case_bool_decide as Hup; [done|]. unfold route_refs, gateway_subset_target.
  destruct r as [? ? ? ? up ? ? ? ? [[[ups svs cm]]|]]; cbn in *.
  - destruct (_ && _); [done|]. intros [= <-]. cbn. rewrite !elem_of_app, elem_filter_b, negb_true_iff, String.eqb_neq.
    destruct up; set_solver.
  - intros [= <-]. cbn. destruct up; set_solver.
Qed.

Lemma insert_upstream_dangling cfg u cfg' n : insert_upstream cfg u = Ok cfg' → dangling cfg' n → dangling cfg n.
Proof.
  unfold insert_upstream. rewrite check_ok, guard_ok. intros (_ & _ & [= <-]) [Hn Hr]. split; [|done].
  cbn in Hn. rewrite fmap_app in Hn. set_solver.
Qed.

Lemma names_inserted (l : list UpstreamConfig) i u v : l !! i = Some u → ∀ n, n ∈ up_name <$> <[i := v]> l ↔ n = up_name v ∨ n ∈ up_name <$> delete i l.
Proof. intros Hi n. by rewrite (insert_Permutation _ _ _ _ Hi), fmap_cons, elem_of_cons. Qed.

Lemma names_split (l : list UpstreamConfig) i u : l !! i = Some u → ∀ n, n ∈ up_name <$> l ↔ n = up_name u ∨ n ∈ up_name <$> delete i l.
Proof. intros Hi n. by rewrite (delete_Permutation _ _ _ Hi) at 1; rewrite fmap_cons, elem_of_cons. Qed.

Lemma update_upstream_dangling cfg name patch cfg' n :
  update_upstream cfg name patch = Ok cfg' → dangling cfg' n → dangling cfg n.
Proof.
  intros (i & old & Hi & Hn & _ & _ & _ & ->)%update_upstream_ok. unfold dangling. cbn zeta.
  pose proof (names_split _ _ _ Hi) as Hnames. rewrite Hn in Hnames.
  pose proof (names_inserted _ _ _ (apply_patch old patch) Hi) as Hins. rewrite (renamed_name name) in Hins by done.
  destruct (renamed_to name patch) as [new|]; cbn in *; rewrite Hins, Hnames.
  - intros (Hno & r & (r0 & -> & Hr0)%list_elem_of_fmap & Href).
    rewrite rename_refs in Href. apply list_elem_of_fmap in Href as (m & -> & Hm).
    destruct (String.eqb_spec m name); [tauto|]. split; [tauto|]. by exists r0.
  - tauto.
Qed.

Lemma remove_upstream_dangling cfg name removed cfg' n :
  remove_upstream cfg name = Ok (removed, cfg') → dangling cfg' n → dangling cfg n.
Proof.
  unfold remove_upstream. rewrite check_ok, let_ok. intros (_ & [i u] & Hfind & [= -> <-]).
  destruct (find_at _ _) as [[i' u']|] eqn:Hf; [|done]. cbn [ok_or] in Hfind. injection Hfind as -> ->.
  apply find_at_Some in Hf as [Hi Hn%String.eqb_eq]. intros (Hno & r & (r0 & Hr0 & Hf0)%list_elem_of_omap & Href).
  cbn in *. destruct (removed_refs _ _ _ _ Hf0 Href) as [Hin Hne]. split; [|by exists r0].
  rewrite (names_split _ _ _ Hi), Hn. tauto.
Qed.

Lemma upstream_step_dangling cfg cfg' n : upstream_step cfg cfg' → dangling cfg' n → dangling cfg n.
Proof.
  destruct 1 as [| |name removed now cfg' Hr]; eauto using insert_upstream_dangling, update_upstream_dangling.
  intros Hd. eapply remove_upstream_dangling; [done|]. revert Hd. unfold tombstone_removed_import.
  by destruct (up_imported_from removed).
Qed.

(** (C37) Accepted configuration changes keep the gateway's configuration valid:
    from a configuration that passes [validate_config], every sequence of
    accepted additions, updates, renames and removals of upstreams and
    protected routes ends in one that passes it too, so the validation before
    the file is written does not refuse it; and changes of upstreams alone, a
    rename or a removal included, leave no route with a reference to an
    upstream that is not configured, unless the configuration had that
    reference before. *)
Theorem accepted_changes_valid cfg :
  validate_config cfg = Ok () →
  (∀ cfg', rtc gw_step cfg cfg' → validate_config cfg' = Ok ()) ∧
  (∀ cfg' n, rtc upstream_step cfg cfg' → dangling cfg' n → dangling cfg n).
Proof.
  intros Hv. split.
  - intros cfg' Hs. rewrite validate_config_ok in *. revert Hv.
    induction Hs as [|c1 c2 c3 H12 _ IH]; eauto using gw_step_valid.
  - intros cfg' n Hs. clear Hv. induction Hs; eauto using upstream_step_dangling.
Qed.

End Props.

(** ** Default names of token variables *)

Definition env_char (ch : ascii) : bool := Ascii.eqb ch "_" || is_ascii_alphanumeric ch.

Lemma env_chars_ok s : Str.all_bytes env_char (env_chars s) = true.
Proof.
  induction s as [|a s IH]; [done|]. cbn [env_chars Str.all_bytes]. rewrite IH, andb_true_r.
  destruct a as [[] [] [] [] [] [] [] []]; reflexivity.
Qed.
Lemma all_bytes_app f s t : Str.all_bytes f (s +:+ t) = Str.all_bytes f s && Str.all_bytes f t.
Proof. induction s as [|a s IH]; [done|]. rewrite Str.app_cons. cbn [Str.all_bytes]. by rewrite IH, andb_assoc. Qed.
Lemma all_bytes_split f c s : Str.all_bytes f s = true → Forall (fun p => Str.all_bytes f p = true) (Str.split c s).
Proof.
  induction s as [|a s IH]; cbn [Str.split Str.all_bytes]; [by repeat constructor|]. intros [Ha Hs]%andb_true_iff.
  specialize (IH Hs). destruct (Ascii.eqb a c); [by constructor|]. destruct (Str.split c s) as [|p l]; cbn.
  - constructor; [|done]. cbn. by rewrite Ha.
  - apply Forall_cons in IH as [Hp Hl]. constructor; [|done]. cbn. by rewrite Ha.
Qed.
Lemma all_bytes_join f sep l :
  Str.all_bytes f sep = true → Forall (fun p => Str.all_bytes f p = true) l → Str.all_bytes f (Str.join sep l) = true.
Proof.
  intros Hsep. induction 1 as [|x l Hx Hl IH]; [done|]. destruct l as [|y l]; [done|].
  change (Str.join sep (x :: y :: l)) with (x +:+ sep +:+ Str.join sep (y :: l)). by rewrite !all_bytes_app, Hx, Hsep, IH.
Qed.

(** The name proposed for a gateway's token is one the validation accepts. *)
Theorem default_bearer_env_accepted name :
  validate_bearer_token_env_name (default_gateway_bearer_env_name name) = Ok ().
Proof.
  unfold default_gateway_bearer_env_name.
  set (inner := if Str.is_empty _ then _ else _).
  assert (Hin : Str.all_bytes env_char inner = true).
  { unfold inner. destruct (Str.is_empty _); [done|]. apply all_bytes_join; [done|].
    apply Forall_forall. intros p [Hp _]%elem_filter_b.
    pose proof (all_bytes_split _ "_" _ (env_chars_ok (Str.trim name))) as Hall. rewrite Forall_forall in Hall. by apply Hall. }
  clearbody inner.
  assert (Ht : Str.trim ("LABBY_GW_" +:+ inner +:+ "_AUTH_HEADER") = "LABBY_GW_" +:+ inner +:+ "_AUTH_HEADER").
  { unfold Str.trim. rewrite (Str.trim_start_fix) by reflexivity. unfold Str.trim_end. rewrite !Str.rev_app, Str.trim_rev_fix
      by reflexivity. by rewrite <- !Str.rev_app, Str.rev_involutive. }
  unfold validate_bearer_token_env_name. rewrite Ht.
  assert (Hname : is_valid_env_var_name ("LABBY_GW_" +:+ inner +:+ "_AUTH_HEADER") = true).
  { change (Str.all_bytes env_char ("ABBY_GW_" +:+ inner +:+ "_AUTH_HEADER") = true). by rewrite !all_bytes_app, Hin. }
  rewrite Hname. reflexivity.
Qed.

(** ** Examples *)

#[local] Existing Instance sample_platform.
#[local] Existing Instance sample_web.

Definition sample_gateway (name : string) : UpstreamConfig :=
  mkUpstreamConfig name true f32_one (Some "https://acme.example/mcp") None None [] None None [] [] false false
    None None None None None None.
Definition sample_route (name path : string) (upstream : string) : ProtectedMcpRouteConfig :=
  mkRoute name true "mcp.example.com" path (Some upstream) "" "/mcp" [] None None.
Definition sample_cfg : GatewayCfg :=
  mkGatewayCfg default_code_mode None None [sample_gateway "acme"] [] [] [sample_route "r" "/r" "acme"] [] []
    (mkGatewayPreferences [] false None None None None).
Definition rename_patch (name : string) : GatewayUpdatePatch :=
  mkPatch (Some name) None None None None None None None None None None None None.

(** A rename takes the route along. *)
Lemma accepted_changes_valid_witness :
  ∃ cfg, update_upstream sample_cfg "acme" (rename_patch "acme2") = Ok cfg ∧ validate_config cfg = Ok ()
    ∧ gw_protected_mcp_routes cfg = [sample_route "r" "/r" "acme2"].
Proof.
  destruct (update_upstream sample_cfg "acme" (rename_patch "acme2")) as [cfg|] eqn:E; [|exfalso; vm_compute in E; discriminate E].
  exists cfg. split; [reflexivity|]. assert (Hv : validate_config sample_cfg = Ok ()) by (vm_compute; reflexivity). split.
  - refine (proj1 (accepted_changes_valid sample_cfg Hv) cfg _).
    exact (rtc_once _ _ (step_upstream _ _ (step_update_upstream _ _ _ _ E))).
  - vm_compute in E. injection E as <-. reflexivity.
Defined.

(** A path of slashes only is normalized to the empty path, which the checks
    of an insertion and the validation before the write accept, but the file
    no longer loads. *)
Example slash_path_breaks_reload :
  ∃ r cfg, insert_protected_mcp_route sample_cfg (sample_route "s" "//" "acme") = Ok (r, cfg) ∧ pr_public_path r = ""
    ∧ validate_config cfg = Ok () ∧ ∃ e, load_gateway_config "config.toml" cfg = Err e.
Proof. eexists _, _. split; [vm_compute; reflexivity|]. split_and!; [reflexivity..|]. eexists. vm_compute. reflexivity. Qed.

(** A WebSocket upstream passes the validation of its own section and is
    refused by the gateway. *)
Definition websocket_gateway : UpstreamConfig :=
  mkUpstreamConfig "ws" true f32_one (Some "wss://acme.example/mcp") (Some Websocket) None [] None None [] [] false false
    None None None None None None.
Example websocket_upstream_refused :
  GatewayConfig.validate websocket_gateway = Ok () ∧ ∃ e, insert_upstream sample_cfg websocket_gateway = Err e.
Proof. split; [vm_compute; reflexivity|]. eexists. vm_compute. reflexivity. Qed.
