(* ===== verification/RunnerPool.v ===== *)
(** * RunnerPool: the warm pool of Code Mode runner processes

    [labby-codemode/src/pool.rs] and [pool/config.rs].  A checkout takes an idle
    slot or, when there is none, an overflow permit, and gives a lease on one
    process; the lease is released, evicted or dropped.  Executions run
    concurrently: a task is an [async fn] at one of its suspension points, and
    an operation below is the code from one such point to the next.  A task
    that is cancelled runs the destructors of what it holds.

    A process is named by a serial number, not by its PID, which the operating
    system reuses.  The process itself is in RunnerLoop. *)

From stdpp Require Import base list strings.
From S2P Require Import Prelude RustStr AuthTypes SamplePlatform WebPlatform Paths.

(** ** Configuration *)

Definition POOL_SIZE_ENV : string := "LABBY_CODE_MODE_POOL_SIZE".
Definition RECYCLE_AFTER_ENV : string := "LABBY_CODE_MODE_POOL_RECYCLE_AFTER".
Definition MAX_OVERFLOW_ENV : string := "LABBY_CODE_MODE_POOL_MAX_OVERFLOW".
Definition DEFAULT_POOL_SIZE : Z := 2.
Definition MAX_POOL_SIZE : Z := 16.
Definition DEFAULT_RECYCLE_AFTER : Z := 100.
Definition DEFAULT_MAX_OVERFLOW : Z := 8.
Definition MAX_OVERFLOW : Z := 64.

Record PoolConfig := mkPoolConfig { pc_size : Z; pc_recycle_after : Z; pc_max_overflow : Z }.

(** Both readers, [usize] and [u64], on a 64-bit machine. *)
Definition parse_env (env : string → option string) (name : string) (default : Z) : Z :=
  match env name ≫= (fun v => parse_uint u64_max (Str.trim v)) with Some n => n | None => default end.

Definition from_env (env : string → option string) : PoolConfig :=
  mkPoolConfig (Z.min (parse_env env POOL_SIZE_ENV DEFAULT_POOL_SIZE) MAX_POOL_SIZE)
    (Z.max (parse_env env RECYCLE_AFTER_ENV DEFAULT_RECYCLE_AFTER) 1)
    (Z.min (parse_env env MAX_OVERFLOW_ENV DEFAULT_MAX_OVERFLOW) MAX_OVERFLOW).

Definition is_disabled (config : PoolConfig) : bool := bool_decide (pc_size config = 0)%Z.

(** ** The pool *)

Record PooledRunner := mkRunner { r_process : nat; r_executions : Z }.

(** The fields of [RunnerPool] that change; [started] counts the processes
    spawned so far and [killed] lists those whose handle was dropped. *)
Record RunnerPoolSt := mkPool {
  slots : list (option PooledRunner);
  free_slots : list nat;
  overflow_permits : nat;
  started : nat;
  killed : list nat;
}.

Definition with_config_and_spawn (config : PoolConfig) : RunnerPoolSt :=
  let size := Z.to_nat (pc_size config) in
  mkPool (replicate size None) (seq 0 size) (Z.to_nat (Z.max (pc_max_overflow config) 1)) 0 [].

Definition set_slots (p : RunnerPoolSt) (l : list (option PooledRunner)) : RunnerPoolSt :=
  mkPool l (free_slots p) (overflow_permits p) (started p) (killed p).
Definition set_free (p : RunnerPoolSt) (l : list nat) : RunnerPoolSt :=
  mkPool (slots p) l (overflow_permits p) (started p) (killed p).
Definition set_permits (p : RunnerPoolSt) (n : nat) : RunnerPoolSt :=
  mkPool (slots p) (free_slots p) n (started p) (killed p).

(** [PooledRunner::spawn]: a fresh process, or the error of the system. *)
Definition spawn (failure : option ToolError) (p : RunnerPoolSt) : result PooledRunner ToolError * RunnerPoolSt :=
  match failure with
  | Some e => (Err e, p)
  | None => (Ok (mkRunner (started p) 0), mkPool (slots p) (free_slots p) (overflow_permits p) (S (started p)) (killed p))
  end.

(** Dropping the handle kills the process. *)
Definition drop_runner (r : option PooledRunner) (p : RunnerPoolSt) : RunnerPoolSt :=
  match r with
  | Some r => mkPool (slots p) (free_slots p) (overflow_permits p) (started p) (r_process r :: killed p)
  | None => p
  end.

(** ** Leases *)

Inductive LeaseKind :=
| Pooled (index : nat) (recycle_after : Z) (returned : bool)
| Ephemeral.
Record RunnerLease := mkLease { kind : LeaseKind; runner : option PooledRunner }.

Definition pooled (index : nat) (r : PooledRunner) (config : PoolConfig) : RunnerLease :=
  mkLease (Pooled index (pc_recycle_after config) false) (Some r).
Definition ephemeral (r : PooledRunner) : RunnerLease := mkLease Ephemeral (Some r).

Definition return_slot (index : nat) (returned : bool) (p : RunnerPoolSt) : RunnerPoolSt :=
  if returned then p else set_free p (free_slots p ++ [index]).

(** [Drop for RunnerLease], then the drop of its fields, which frees the permit
    of an ephemeral lease. *)
Definition drop_lease (l : RunnerLease) (p : RunnerPoolSt) : RunnerPoolSt :=
  let p := drop_runner (runner l) p in
  match kind l with
  | Pooled index _ returned => return_slot index returned p
  | Ephemeral => set_permits p (S (overflow_permits p))
  end.

Definition evict (l : RunnerLease) (p : RunnerPoolSt) : RunnerPoolSt :=
  let p := drop_runner (runner l) p in
  match kind l with
  | Pooled index recycle_after returned =>
      drop_lease (mkLease (Pooled index recycle_after true) None) (return_slot index returned p)
  | Ephemeral => drop_lease (mkLease Ephemeral None) p
  end.

(** ** Tasks *)

Inductive PoolTask :=
| AwaitSlot (index : nat)                                        (* checkout: the slot is claimed, its mutex awaited *)
| AwaitPermit                                                    (* checkout: the overflow semaphore is awaited *)
| Leased (l : RunnerLease)
| AwaitPark (l : RunnerLease) (r : PooledRunner)                 (* release: the mutex of the slot is awaited *)
| Finished (outcome : result unit ToolError).

Definition checkout (config : PoolConfig) (p : RunnerPoolSt) : PoolTask * RunnerPoolSt :=
  if is_disabled config then (AwaitPermit, p)
  else match free_slots p with
       | index :: rest => (AwaitSlot index, set_free p rest)
       | [] => (AwaitPermit, p)
       end.

Definition take_or_spawn_slot (failure : option ToolError) (index : nat) (p : RunnerPoolSt) : result PooledRunner ToolError * RunnerPoolSt :=
  match slots p !! index with
  | Some (Some r) => (Ok r, set_slots p (<[index := None]> (slots p)))
  | _ => spawn failure p
  end.

(** The rest of a checkout once the slot's mutex is held. *)
Definition checkout_slot (config : PoolConfig) (failure : option ToolError) (index : nat) (p : RunnerPoolSt) : PoolTask * RunnerPoolSt :=
  match take_or_spawn_slot failure index p with
  | (Ok r, p) => (Leased (pooled index r config), p)
  | (Err e, p) => (Finished (Err e), set_free p (free_slots p ++ [index]))
  end.

(** The rest of a checkout once a permit is acquired; a failed spawn drops it. *)
Definition checkout_overflow (failure : option ToolError) (p : RunnerPoolSt) : option (PoolTask * RunnerPoolSt) :=
  match overflow_permits p with
  | 0 => None
  | S n =>
      Some match spawn failure (set_permits p n) with
           | (Ok r, p) => (Leased (ephemeral r), p)
           | (Err e, p) => (Finished (Err e), set_permits p (S (overflow_permits p)))
           end
  end.

Definition after_serving (r : PooledRunner) : PooledRunner := mkRunner (r_process r) (Z.min (r_executions r + 1) u64_max).

(** [release] up to the mutex of the slot. *)
Definition release (l : RunnerLease) (p : RunnerPoolSt) : PoolTask * RunnerPoolSt :=
  match kind l, runner l with
  | Pooled index recycle_after returned, Some r =>
      let r := after_serving r in
      if bool_decide (recycle_after <= r_executions r)%Z
      then (Finished (Ok ()),
             drop_lease (mkLease (Pooled index recycle_after true) None) (return_slot index returned (drop_runner (Some r) p)))
      else (AwaitPark (mkLease (kind l) None) r, p)
  | _, r => (Finished (Ok ()), drop_lease (mkLease (kind l) None) (drop_runner r p))
  end.

(** The rest of [release] once the mutex is held; the slot's old content, if
    any, is dropped by the assignment. *)
Definition park (l : RunnerLease) (r : PooledRunner) (p : RunnerPoolSt) : PoolTask * RunnerPoolSt :=
  match kind l with
  | Pooled index recycle_after returned =>
      let p := set_slots (drop_runner (mjoin (slots p !! index)) p) (<[index := Some r]> (slots p)) in
      (Finished (Ok ()), drop_lease (mkLease (Pooled index recycle_after true) None) (return_slot index returned p))
  | Ephemeral => (Finished (Ok ()), drop_lease l (drop_runner (Some r) p))
  end.

(** Cancellation at a suspension point: what the task holds is dropped.  A
    claimed index is a plain integer and has no destructor. *)
Definition cancel (t : PoolTask) (p : RunnerPoolSt) : RunnerPoolSt :=
  match t with
  | AwaitSlot _ | AwaitPermit | Finished _ => p
  | Leased l => drop_lease l p
  | AwaitPark l r => drop_lease l (drop_runner (Some r) p)
  end.

(** ** Concurrent executions

    [lost] lists the indices of checkouts cancelled while they wait for the
    mutex of a claimed slot. *)
Record PoolState := mkPoolState { st_pool : RunnerPoolSt; st_tasks : list PoolTask; st_lost : list nat }.

(** One step of a task.  A lease ends by a release after a completed or failed
    execution and by an eviction after a fault of the process
    ([run_via_pool]). *)
Inductive task_step (config : PoolConfig) (p : RunnerPoolSt) : PoolTask → PoolTask → RunnerPoolSt → Prop :=
| step_slot failure index t p' : checkout_slot config failure index p = (t, p') → task_step config p (AwaitSlot index) t p'
| step_overflow failure t p' : checkout_overflow failure p = Some (t, p') → task_step config p AwaitPermit t p'
| step_release l t p' : release l p = (t, p') → task_step config p (Leased l) t p'
| step_evict l e : task_step config p (Leased l) (Finished (Err e)) (evict l p)
| step_park l r t p' : park l r p = (t, p') → task_step config p (AwaitPark l r) t p'.

Definition lost_by (t : PoolTask) : list nat := match t with AwaitSlot index => [index] | _ => [] end.

Inductive pool_step (config : PoolConfig) : PoolState → PoolState → Prop :=
| step_checkout p ts lost t p' :
    checkout config p = (t, p') → pool_step config (mkPoolState p ts lost) (mkPoolState p' (t :: ts) lost)
| step_task p ts1 t ts2 lost t' p' :
    task_step config p t t' p' → pool_step config (mkPoolState p (ts1 ++ t :: ts2) lost) (mkPoolState p' (ts1 ++ t' :: ts2) lost)
| step_cancel p ts1 t ts2 lost :
    pool_step config (mkPoolState p (ts1 ++ t :: ts2) lost) (mkPoolState (cancel t p) (ts1 ++ ts2) (lost_by t ++ lost)).

Definition initial (config : PoolConfig) : PoolState := mkPoolState (with_config_and_spawn config) [] [].
