(* ===== verification/RunnerPoolProps.v ===== *)
(** * RunnerPoolProps: ownership in the runner pool

    Under every interleaving of checkouts, releases, evictions and
    cancellations, each process has one owner (a slot, a task, or it was
    killed), each slot index is free, held by one task or lost to a cancelled
    checkout, and the number of live processes is bounded. *)

From stdpp Require Import base list strings relations.
From S2P Require Import Prelude RustStr AuthTypes SamplePlatform WebPlatform Paths RunnerPool.

(** ** What a task owns *)

Definition lease_index (l : RunnerLease) : list nat :=
  match kind l with Pooled index _ false => [index] | _ => [] end.
Definition lease_process (l : RunnerLease) : list nat := option_list (r_process <$> runner l).

(** The slot index, the index of a slot whose runner was taken out, the
    processes and the permits. *)
Definition held (t : PoolTask) : list nat :=
  match t with AwaitSlot i => [i] | Leased l | AwaitPark l _ => lease_index l | _ => [] end.
Definition taken (t : PoolTask) : list nat :=
  match t with Leased l | AwaitPark l _ => lease_index l | _ => [] end.
Definition processes (t : PoolTask) : list nat :=
  match t with Leased l => lease_process l | AwaitPark l r => r_process r :: lease_process l | _ => [] end.
Definition permits (t : PoolTask) : nat :=
  match t with Leased l => match kind l with Ephemeral => 1 | _ => 0 end | _ => 0 end.

Definition parked (p : RunnerPoolSt) : list PooledRunner := omap id (slots p).

Section Inv.
Variable config : PoolConfig.
Notation size := (Z.to_nat (pc_size config)).
Notation overflow := (Z.to_nat (Z.max (pc_max_overflow config) 1)).

Definition pool_task_ok (t : PoolTask) : Prop :=
  match t with
  | Leased l => is_Some (runner l) ∧ (kind l = Ephemeral ∨ ∃ i, kind l = Pooled i (pc_recycle_after config) false)
  | AwaitPark l r => runner l = None ∧ (r_executions r < pc_recycle_after config)%Z
                     ∧ ∃ i, kind l = Pooled i (pc_recycle_after config) false
  | _ => True
  end.

Record inv (p : RunnerPoolSt) (ts : list PoolTask) (lost : list nat) : Prop := {
  inv_index : free_slots p ++ (ts ≫= held) ++ lost ≡ₚ seq 0 size;
  inv_slots : length (slots p) = size;
  inv_permits : overflow_permits p + sum_list (permits <$> ts) = overflow;
  inv_processes : (r_process <$> parked p) ++ (ts ≫= processes) ++ killed p ≡ₚ seq 0 (started p);
  inv_taken : ∀ i, i ∈ ts ≫= taken → slots p !! i = Some None;
  inv_recycle : Forall (fun r => (r_executions r < pc_recycle_after config)%Z) (parked p);
  inv_tasks : Forall pool_task_ok ts;
}.

Lemma sum_list_perm l k : l ≡ₚ k → sum_list l = sum_list k.
Proof. induction 1; cbn; lia. Qed.

Lemma inv_perm p ts ts' lost : ts ≡ₚ ts' → inv p ts lost → inv p ts' lost.
Proof.
  intros Hts [Hi Hs Hp Hpr Ht Hr Hok]. constructor; try done.
  - by rewrite <- Hts.
  - by rewrite <- (sum_list_perm _ _ (fmap_Permutation permits _ _ Hts)).
  - by rewrite <- Hts.
  - intros i. rewrite <- Hts. apply Ht.
  - by rewrite <- Hts.
Qed.

Lemma omap_replicate_None {A} n : omap id (replicate n (@None A)) = [].
Proof. by induction n. Qed.

Lemma initial_inv : inv (with_config_and_spawn config) [] [].
Proof.
  constructor; unfold parked; cbn; rewrite ?app_nil_r, ?length_replicate, ?omap_replicate_None; try done; first [lia|set_solver].
Qed.

(** ** Slots *)

Lemma parked_insert l i (o o' : option PooledRunner) :
  l !! i = Some o → option_list o ++ omap id (<[i := o']> l) ≡ₚ option_list o' ++ omap id l.
Proof.
  intros Hi. assert (H1 := omap_Permutation id _ _ (insert_Permutation l i o o' Hi)).
  assert (H2 := omap_Permutation id _ _ (delete_Permutation l i o Hi)).
  destruct o, o'; cbn in *; rewrite H1, H2; solve_Permutation.
Qed.

Lemma index_bound p ts lost i : inv p ts lost → i ∈ ts ≫= held → is_Some (slots p !! i).
Proof.
  intros Hinv Hi. apply lookup_lt_is_Some_2. rewrite (inv_slots _ _ _ Hinv).
  assert (Hin : i ∈ seq 0 size) by (rewrite <- (inv_index _ _ _ Hinv); set_solver).
  apply elem_of_seq in Hin. lia.
Qed.

Lemma taken_held t i : i ∈ taken t → i ∈ held t.
Proof. destruct t; set_solver. Qed.

Lemma held_unique p ts lost : inv p ts lost → NoDup (ts ≫= held).
Proof.
  intros Hinv. pose proof (NoDup_seq 0 size) as Hnd. rewrite <- (inv_index _ _ _ Hinv) in Hnd.
  apply NoDup_app in Hnd as (_ & _ & Hnd). by apply NoDup_app in Hnd as (Hnd & _).
Qed.

Lemma other_taken p t ts lost i j : inv p (t :: ts) lost → i ∈ held t → j ∈ ts ≫= taken → i ≠ j.
Proof.
  intros Hinv Hi Hj ->. apply held_unique in Hinv. cbn in Hinv. apply NoDup_app in Hinv as (_ & Hd & _).
  apply (Hd j Hi). apply list_elem_of_bind in Hj as (t' & Hj & Ht'). apply list_elem_of_bind.
  exists t'. split; [by apply taken_held|done].
Qed.

(** The slots of the others stay empty when the holder of a slot changes it. *)
Lemma taken_insert p t ts lost i o j :
  inv p (t :: ts) lost → i ∈ held t → j ∈ ts ≫= taken → <[i := o]> (slots p) !! j = Some None.
Proof.
  intros Hinv Hi Hj. rewrite list_lookup_insert_ne by (eapply other_taken; eauto).
  apply (inv_taken _ _ _ Hinv). cbn. set_solver.
Qed.

(** ** Every operation keeps the invariant *)

Lemma checkout_inv p ts lost t p' : inv p ts lost → checkout config p = (t, p') → inv p' (t :: ts) lost.
Proof.
  intros [Hi Hs Hp Hpr Ht Hr Hok]. unfold checkout.
  destruct (is_disabled config); [intros [= <- <-]; by constructor; try constructor|].
  destruct (free_slots p) as [|i rest] eqn:Hf; intros [= <- <-]; constructor; cbn; try done; try by constructor.
  - by rewrite Hf.
  - rewrite <- Hi. solve_Permutation.
Qed.

Lemma spawn_ok p ts failure r p' :
  (r_process <$> parked p) ++ (ts ≫= processes) ++ killed p ≡ₚ seq 0 (started p) → spawn failure p = (Ok r, p') →
  slots p' = slots p ∧ free_slots p' = free_slots p ∧ overflow_permits p' = overflow_permits p ∧
  (r_process <$> parked p') ++ (r_process r :: (ts ≫= processes)) ++ killed p' ≡ₚ seq 0 (started p').
Proof.
  intros Hpr. unfold spawn. destruct failure; [done|]. intros [= <- <-]. split_and!; try done.
  cbn [started killed r_process]. rewrite seq_S, <- Hpr. unfold parked. cbn [slots plus]. solve_Permutation.
Qed.
Lemma spawn_err p failure e p' : spawn failure p = (Err e, p') → p' = p.
Proof. unfold spawn. destruct failure; [by intros [= _ <-]|done]. Qed.

Lemma checkout_slot_inv p ts lost failure i t p' :
  inv p (AwaitSlot i :: ts) lost → checkout_slot config failure i p = (t, p') → inv p' (t :: ts) lost.
Proof.
  intros Hinv. unfold checkout_slot, take_or_spawn_slot.
  destruct (index_bound _ _ _ i Hinv) as [o Ho]; [cbn; set_solver|]. rewrite Ho.
  pose proof (fun j => taken_insert p (AwaitSlot i) ts lost i None j Hinv) as Htk.
  pose proof Hinv as [Hi Hs Hp Hpr Ht Hr Hok]. apply Forall_cons in Hok as [_ Hok].
  destruct o as [r|].
  - intros [= <- <-]. pose proof (parked_insert (slots p) i (Some r) None Ho) as Hpk. cbn in Hpk. constructor; cbn; try done.
    + by rewrite length_insert.
    + unfold parked in Hpr |- *. rewrite <- Hpk in Hpr. cbn in *. rewrite <- Hpr. solve_Permutation.
    + intros j [->|Hj]%elem_of_cons; [apply list_lookup_insert_eq; apply lookup_lt_Some in Ho; done|].
      apply Htk; set_solver.
    + unfold parked in Hr |- *. rewrite <- Hpk in Hr. by apply Forall_cons in Hr as [_ Hr].
    + constructor; [|done]. cbn. split; [done|]. right. by exists i.
  - destruct (spawn failure p) as [[r|e] p1] eqn:Hsp; intros [= <- <-].
    + apply (spawn_ok p ts) in Hsp as (Hsl & Hfr & Hov & Hproc); [|done]. constructor; cbn; rewrite ?Hsl, ?Hfr, ?Hov; try done.
      * intros j [->|Hj]%elem_of_cons; [done|]. apply Ht. cbn. set_solver.
      * unfold parked. by rewrite Hsl.
      * constructor; [|done]. cbn. split; [done|]. right. by exists i.
    + apply spawn_err in Hsp as ->. constructor; cbn; try done; [rewrite <- Hi; cbn; solve_Permutation|by constructor].
Qed.

Lemma checkout_overflow_inv p ts lost failure t p' :
  inv p (AwaitPermit :: ts) lost → checkout_overflow failure p = Some (t, p') → inv p' (t :: ts) lost.
Proof.
  intros [Hi Hs Hp Hpr Ht Hr Hok]. unfold checkout_overflow. destruct (overflow_permits p) as [|n] eqn:Hn; [done|].
  apply Forall_cons in Hok as [_ Hok]. destruct (spawn failure (set_permits p n)) as [[r|e] p1] eqn:Hsp; intros [= <- <-].
  - apply (spawn_ok _ ts) in Hsp as (Hsl & Hfr & Hov & Hproc); [|done]. constructor; cbn; rewrite ?Hsl, ?Hfr, ?Hov; cbn in *; try done; try lia.
    + unfold parked. by rewrite Hsl.
    + constructor; [|done]. cbn. split; [done|by left].
  - apply spawn_err in Hsp as ->. constructor; cbn in *; try done; try lia; by constructor.
Qed.

(** Ending a lease: its process is killed, its index or permit returned. *)
Lemma drop_lease_inv p ts lost l :
  inv p (Leased l :: ts) lost → inv (drop_lease l p) ts lost.
Proof.
  intros [Hi Hs Hp Hpr Ht Hr Hok]. apply Forall_cons in Hok as [[[r Hrun] Hk] Hok]. destruct l as [k run]. cbn in *. subst run.
  unfold drop_lease. cbn. destruct Hk as [->|[i ->]]; cbn in *; constructor; cbn; try done; try lia.
  - rewrite <- Hpr. unfold parked. cbn. solve_Permutation.
  - rewrite <- Hi. solve_Permutation.
  - rewrite <- Hpr. unfold parked. cbn. solve_Permutation.
  - intros j Hj. apply Ht. set_solver.
Qed.

Lemma evict_drop l p : pool_task_ok (Leased l) → evict l p = drop_lease l p.
Proof. intros [_ [Hk|[i Hk]]]; unfold evict, drop_lease; by rewrite Hk. Qed.

Lemma finished_inv p ts lost o : inv p ts lost → inv p (Finished o :: ts) lost.
Proof. intros [Hi Hs Hp Hpr Ht Hr Hok]. constructor; try done. by constructor. Qed.

Lemma release_inv p ts lost l t p' : inv p (Leased l :: ts) lost → release l p = (t, p') → inv p' (t :: ts) lost.
Proof.
  intros Hinv. pose proof (drop_lease_inv _ _ _ _ Hinv) as Hdrop. pose proof Hinv as [Hi Hs Hp Hpr Ht Hr Hok].
  apply Forall_cons in Hok as [[[r Hrun] Hk] Hok]. destruct l as [k run]. cbn in Hrun, Hk. subst run.
  unfold release. cbn [kind runner]. destruct Hk as [->|[i ->]].
  - intros [= <- <-]. by apply finished_inv.
  - case_bool_decide as Hrec; intros [= <- <-]; [by apply finished_inv|].
    cbn in *. constructor; cbn; try done. constructor; [|done]. cbn. split_and!; [done|lia|by exists i].
Qed.

Lemma park_inv p ts lost l r t p' : inv p (AwaitPark l r :: ts) lost → park l r p = (t, p') → inv p' (t :: ts) lost.
Proof.
  intros Hinv. pose proof Hinv as [Hi Hs Hp Hpr Ht Hr Hok]. apply Forall_cons in Hok as [(Hnone & Hlt & i & Hk) Hok].
  destruct l as [k run]. cbn in Hnone, Hk. subst k run. unfold park. cbn [kind].
  assert (Hempty : slots p !! i = Some None) by (apply Ht; cbn; set_solver).
  rewrite Hempty. cbn [mjoin option_join drop_runner]. intros [= <- <-]. apply finished_inv.
  pose proof (parked_insert (slots p) i None (Some r) Hempty) as Hpk.
  pose proof (fun j => taken_insert p _ ts lost i (Some r) j Hinv) as Htk. cbn in *.
  constructor; unfold parked; cbn; try done.
  - rewrite <- Hi. solve_Permutation.
  - by rewrite length_insert.
  - rewrite Hpk, <- Hpr. unfold parked. cbn. solve_Permutation.
  - intros j Hj. apply Htk; set_solver.
  - rewrite Hpk. by constructor.
Qed.

Lemma cancel_inv p t ts lost : inv p (t :: ts) lost → inv (cancel t p) ts (lost_by t ++ lost).
Proof.
  destruct t as [i| |l|l r|o]; cbn [cancel lost_by app]; [..|by apply drop_lease_inv| |]; intros [Hi Hs Hp Hpr Ht Hr Hok];
    apply Forall_cons in Hok as [Hok1 Hok]; cbn in *; try by constructor.
  - constructor; try done. rewrite <- Hi. solve_Permutation.
  - destruct Hok1 as (Hnone & Hlt & i & Hk). destruct l as [k run]. cbn in *. subst. unfold drop_lease. cbn in *.
    constructor; unfold parked; cbn; try done.
    + rewrite <- Hi. solve_Permutation.
    + rewrite <- Hpr. unfold parked. cbn. solve_Permutation.
    + intros j Hj. apply Ht. set_solver.
Qed.

Lemma task_step_inv p t ts lost t' p' : task_step config p t t' p' → inv p (t :: ts) lost → inv p' (t' :: ts) lost.
Proof.
  destruct 1; intros Hinv; eauto using checkout_slot_inv, checkout_overflow_inv, release_inv, park_inv.
  pose proof (Forall_inv (inv_tasks _ _ _ Hinv)) as Hok. rewrite evict_drop by done. by apply finished_inv, drop_lease_inv.
Qed.

Definition inv_state (st : PoolState) : Prop := inv (st_pool st) (st_tasks st) (st_lost st).

Lemma pool_step_inv st st' : pool_step config st st' → inv_state st → inv_state st'.
Proof.
  destruct 1 as [p ts lost t p' Hc|p ts1 t ts2 lost t' p' Hs|p ts1 t ts2 lost]; unfold inv_state; cbn; intros Hinv.
  - by eapply checkout_inv.
  - eapply inv_perm; [apply Permutation_middle|]. eapply task_step_inv; [done|].
    eapply inv_perm; [symmetry; apply Permutation_middle|done].
  - apply cancel_inv. eapply inv_perm; [symmetry; apply Permutation_middle|done].
Qed.

Lemma reachable_pool_inv st : rtc (pool_step config) (initial config) st → inv_state st.
Proof.
  intros Hs. remember (initial config) as st0 eqn:H0. assert (Hinv : inv_state st0) by (subst; apply initial_inv). clear H0.
  induction Hs; eauto using pool_step_inv.
Qed.

(** ** Live processes *)

Definition live_processes (st : PoolState) : list nat := (r_process <$> parked (st_pool st)) ++ (st_tasks st ≫= processes).

Lemma occupied_bound (l : list (option PooledRunner)) idx :
  NoDup idx → (∀ i, i ∈ idx → l !! i = Some None) → length (omap id l) + length idx ≤ length l.
Proof.
  intros Hnd. revert l. induction Hnd as [|i idx Hi Hnd IH]; intros l Hl.
  - cbn. rewrite Nat.add_0_r. clear. induction l as [|[r|] l IH]; cbn; lia.
  - pose proof (parked_insert l i None (Some (mkRunner 0 0)) (Hl i ltac:(set_solver))) as Hpk. apply Permutation_length in Hpk. cbn in Hpk.
    specialize (IH (<[i := Some (mkRunner 0 0)]> l)). rewrite length_insert in IH. cbn. enough (length (omap id (<[i:=Some (mkRunner 0 0)]> l)) + length idx ≤ length l) by lia.
    apply IH. intros j Hj. rewrite list_lookup_insert_ne by set_solver. apply Hl. set_solver.
Qed.

Lemma task_processes ts : Forall pool_task_ok ts → length (ts ≫= processes) = length (ts ≫= taken) + sum_list (permits <$> ts).
Proof.
  induction 1 as [|t ts Hok Hts IH]; [done|]. rewrite !bind_cons, !length_app, fmap_cons, IH. cbn.
  enough (length (processes t) = length (taken t) + permits t) by lia.
  destruct t as [i| |[k [r|]]|[k run] r|o]; cbn in *; try done.
  - destruct Hok as [_ [->|[i ->]]]; done.
  - by destruct Hok as [[] _].
  - destruct Hok as (-> & _ & i & ->). done.
Qed.

Lemma taken_unique p ts lost : inv p ts lost → NoDup (ts ≫= taken).
Proof.
  intros Hinv. apply held_unique in Hinv. eapply sublist_NoDup; [done|]. clear. induction ts as [|t ts IH]; [done|].
  rewrite !bind_cons. apply sublist_app; [|done]. destruct t; cbn; try done. apply sublist_nil_l.
Qed.

Lemma live_bound st : inv_state st → length (live_processes st) ≤ size + overflow.
Proof.
  intros Hinv. pose proof (taken_unique _ _ _ Hinv) as Hnd. destruct Hinv as [Hi Hs Hp Hpr Ht Hr Hok].
  pose proof (occupied_bound _ _ Hnd Ht) as Hocc. unfold live_processes, parked.
  rewrite length_app, length_fmap, task_processes by done. unfold parked in *. lia.
Qed.

Lemma finished_nothing ts : Forall (fun t => ∃ o, t = Finished o) ts → ts ≫= held = [].
Proof. induction 1 as [|t ts [o ->] _ IH]; [done|]. by rewrite bind_cons, IH. Qed.
Lemma finished_permits ts : Forall (fun t => ∃ o, t = Finished o) ts → sum_list (permits <$> ts) = 0.
Proof. induction 1 as [|t ts [o ->] _ IH]; [done|]. by rewrite fmap_cons. Qed.
End Inv.

(** (C19) Ownership in the pool.  Under every interleaving of concurrent
    checkouts, releases, evictions and cancellations: no process is handed to
    two executions at once or is both parked and leased, and a process that was
    killed never comes back; the live processes are at most the pool size plus
    the overflow limit, at most 80 under a configuration from the environment;
    every slot index is free, held by exactly one task, or lost by a checkout
    that was cancelled while it waited for the slot, so without such a
    cancellation the pool is whole again when all tasks are done; and a parked
    process has served fewer executions than the recycling threshold. *)
Theorem pool_ownership config st :
  rtc (pool_step config) (initial config) st →
  NoDup (live_processes st ++ killed (st_pool st)) ∧
  length (live_processes st) ≤ Z.to_nat (pc_size config) + Z.to_nat (Z.max (pc_max_overflow config) 1) ∧
  (∀ env, config = from_env env → length (live_processes st) ≤ 80) ∧
  free_slots (st_pool st) ++ (st_tasks st ≫= held) ++ st_lost st ≡ₚ seq 0 (Z.to_nat (pc_size config)) ∧
  (Forall (fun t => ∃ o, t = Finished o) (st_tasks st) → st_lost st = [] →
     free_slots (st_pool st) ≡ₚ seq 0 (Z.to_nat (pc_size config)) ∧
     overflow_permits (st_pool st) = Z.to_nat (Z.max (pc_max_overflow config) 1)) ∧
  Forall (fun r => (r_executions r < pc_recycle_after config)%Z) (parked (st_pool st)).
Proof.
  intros Hst. apply reachable_pool_inv in Hst. pose proof (held_unique _ _ _ _ Hst) as Hnd.
  assert (Hbound : length (live_processes st) ≤ Z.to_nat (pc_size config) + Z.to_nat (Z.max (pc_max_overflow config) 1)).
  { eapply live_bound, Hst. }
  destruct Hst as [Hi Hs Hp Hpr Ht Hr Hok]. split_and!; try done.
  - unfold live_processes. rewrite <- app_assoc, Hpr. apply NoDup_seq.
  - intros env ->. cbn in Hbound. unfold MAX_POOL_SIZE, MAX_OVERFLOW in Hbound. lia.
  - intros Hfin Hlost. rewrite Hlost, (finished_nothing _ Hfin) in *. split; [by rewrite <- Hi, !app_nil_r|].
    rewrite <- Hp, (finished_permits _ Hfin). lia.
Qed.

(** ** Examples *)

Definition small_pool : PoolConfig := mkPoolConfig 1 2 1.

(** A first execution is released and its process serves the second one, which
    is evicted. *)
Lemma pool_ownership_witness :
  ∃ st, rtc (pool_step small_pool) (initial small_pool) st ∧ killed (st_pool st) = [0] ∧
    free_slots (st_pool st) ≡ₚ seq 0 1 ∧ NoDup (live_processes st ++ killed (st_pool st)).
Proof.
  assert (Hst : rtc (pool_step small_pool) (initial small_pool)
    (mkPoolState (mkPool [None] [0] 1 1 [0]) [Finished (Err (Sdk "timeout" "timed out")); Finished (Ok ())] [])).
  { eapply rtc_l. { by eapply step_checkout. }
    eapply rtc_l. { eapply (step_task _ _ [] _ []). by eapply (step_slot _ _ None). }
    eapply rtc_l. { eapply (step_task _ _ [] _ []). by eapply step_release. }
    eapply rtc_l. { eapply (step_task _ _ [] _ []). by eapply step_park. }
    eapply rtc_l. { by eapply step_checkout. }
    eapply rtc_l. { eapply (step_task _ _ [] _ _). by eapply (step_slot _ _ None). }
    eapply rtc_l. { eapply (step_task _ _ [] _ _). eapply step_evict. }
    apply rtc_refl. }
  eexists. split; [exact Hst|]. split; [reflexivity|].
  destruct (pool_ownership small_pool _ Hst) as (Hnd & _ & _ & _ & Hdone & _). split; [|exact Hnd].
  apply Hdone; [|reflexivity]. repeat constructor; by eexists.
Defined.

(** A checkout cancelled while it waits for the mutex of its slot loses the
    slot: the pool of one slot then only serves overflow runners. *)
Example cancelled_checkout_loses_slot :
  ∃ st, rtc (pool_step small_pool) (initial small_pool) st ∧ st_tasks st = [] ∧ free_slots (st_pool st) = [].
Proof.
  eexists. split; [|split].
  - eapply rtc_l. { by eapply step_checkout. } eapply rtc_l. { eapply (step_cancel _ _ [] _ []). } apply rtc_refl.
  - reflexivity.
  - reflexivity.
Qed.
