(* ===== verification/Redact.v ===== *)
(** * Redact: secrets in traces of tool calls

    [labby-runtime/src/redact.rs] (keys and URLs) and the redaction of
    [labby-codemode/src/trace.rs].  Only what redaction returns is stored in a
    trace.  The theorem is non-interference: two parameter trees that differ
    only below sensitive keys, or in texts that look like credentials, give the
    same trace. *)

From Stdlib Require Import Ascii.
From stdpp Require Import base list strings pretty.
From S2P Require Import Prelude RustStr AuthTypes SamplePlatform WebPlatform GatewayConfig Paths Upstream Workspace.

(** Third-party code: a [Url] without credentials and fragment and with the given
    query, as text; the JSON text of a value; [replace_all] of the
    regular expression for secrets. *)
Class CodeModePlatform `{Platform} := {
  url_masked : Url → option string → string;
  json_text : Value → string;
  secret_replace_all : string → string;
}.
(** [serde_json::to_vec(value).len()]. *)
Definition json_len `{CodeModePlatform} (v : Value) : Z := Str.len (json_text v).

(** ** Keys *)

Definition benign_keys : list string := ["sort_key"; "cache_key"; "idempotency_key"; "partition_key"; "primary_key"].
Definition sensitive_keys : list string :=
  ["token"; "access_token"; "id_token"; "refresh_token"; "apikey"; "api_key"; "password"; "passwd"; "secret";
   "client_secret"; "authorization"; "bearer"; "session"; "session_id"; "cookie"; "code"; "cwd"; "terminal_id"].
Definition sensitive_suffixes : list string := ["_token"; "_secret"; "_password"; "_key"].

Definition is_sensitive_key (key : string) : bool :=
  let normalized := replace_char "-" "_" (Str.to_ascii_lowercase key) in
  if existsb (String.eqb normalized) benign_keys then false
  else existsb (String.eqb normalized) sensitive_keys || existsb (fun s => Str.ends_with s normalized) sensitive_suffixes.

(** ** Values *)

Definition REDACTED : string := "[redacted]".
Definition TRUNCATED_STRING : string := "[truncated]".
Definition MAX_DEPTH : nat := 16.
Definition MAX_COLLECTION_ITEMS : nat := 64.
Definition MAX_STRING_CHARS : nat := 512.
Definition DEFAULT_PARAM_BYTES : Z := 4096.

Definition is_base64url_char (ch : ascii) : bool := is_ascii_alphanumeric ch || Ascii.eqb ch "-" || Ascii.eqb ch "_".
Definition is_base64ish_char (ch : ascii) : bool :=
  is_ascii_alphanumeric ch || existsb (Ascii.eqb ch) ["+"; "/"; "="; "-"; "_"]%char.

Definition looks_like_jwt (value : string) : bool :=
  let parts := Str.split "." value in
  (length parts =? 3) && forallb (fun part => (10 <=? String.length part) && Str.all_bytes is_base64url_char part) parts.
Definition looks_like_base64_blob (value : string) : bool :=
  (160 <=? String.length value) && Str.all_bytes is_base64ish_char value.
Fixpoint trim_dashes (s : string) : string :=
  match s with String "-" (String "-" r) => trim_dashes r | _ => s end.
Definition looks_like_sensitive_assignment (value : string) : bool :=
  existsb (fun line =>
    match Str.split_once "=" (Str.trim line) with
    | Some (key, _) => is_sensitive_key (trim_dashes key)
    | None => false
    end) (lines value).
Definition looks_sensitive_value (value : string) : bool :=
  let trimmed := Str.trim value in
  let lower := Str.to_ascii_lowercase trimmed in
  Str.starts_with "bearer " lower || Str.starts_with "basic " lower || Str.contains "-----begin " lower
  || Str.contains "authorization:" lower || Str.contains "cookie:" lower || looks_like_jwt trimmed
  || looks_like_sensitive_assignment trimmed || looks_like_base64_blob trimmed.

Definition truncate_string (value : string) : string :=
  if MAX_STRING_CHARS <? chars_count value
  then take_chars MAX_STRING_CHARS value +:+ TRUNCATED_STRING +:+ " (" +:+ pretty (chars_count value) +:+ " chars)"
  else value.

Definition redact_query_pairs (query : string) : string :=
  Str.join "&"
    ((fun pair =>
        let '(key, value) := match Str.split_once "=" pair with Some kv => kv | None => (pair, "") end in
        if is_sensitive_key key then key +:+ "=[redacted]"
        else if Str.is_empty value then key else key +:+ "=" +:+ value)
     <$> List.filter (fun pair => negb (Str.is_empty pair)) (Str.split "&" query)).

(** [Map::insert]. *)
Fixpoint map_insert (key : string) (v : Value) (m : list (string * Value)) : list (string * Value) :=
  match m with
  | [] => [(key, v)]
  | (k, w) :: rest => if String.eqb k key then (key, v) :: rest else (k, w) :: map_insert key v rest
  end.

(** ** Command lines *)

Definition flag_key (flag : string) : string := match Str.split_once "=" flag with Some (key, _) => key | None => flag end.

Definition redact_stdio_value (value : string) : string :=
  match Str.split_once "=" value with
  | Some (key, _) =>
      if is_sensitive_key key then key +:+ "=[redacted]"
      else match Str.strip_prefix "--" value with
           | Some flag => if is_sensitive_key (flag_key flag) then "--" +:+ flag_key flag +:+ "=[redacted]" else value
           | None => value
           end
  | None =>
      match Str.strip_prefix "--" value with
      | Some flag => if is_sensitive_key (flag_key flag) then "--" +:+ flag_key flag +:+ "=[redacted]" else value
      | None => value
      end
  end.

(** A flag whose value is the next argument. *)
Definition takes_secret (arg : string) : bool :=
  match Str.strip_prefix "--" arg with Some flag => is_sensitive_key (flag_key flag) | None => false end
  && negb (Str.contains "=" arg).

Fixpoint redact_args_from (redact_next : bool) (args : list string) : list string :=
  match args with
  | [] => []
  | arg :: rest =>
      if redact_next then REDACTED :: redact_args_from false rest
      else if takes_secret arg then arg :: redact_args_from true rest
      else redact_stdio_value arg :: redact_args_from false rest
  end.
Definition redact_stdio_args : list string → list string := redact_args_from false.

(** The value of a secret flag does not reach the output, wherever it stands. *)
Lemma stdio_args_hide pre flag secret secret' rest :
  takes_secret flag = true → forallb (fun a => negb (takes_secret a)) pre = true →
  redact_stdio_args (pre ++ flag :: secret :: rest) = redact_stdio_args (pre ++ flag :: secret' :: rest).
Proof.
  intros Hf. unfold redact_stdio_args. induction pre as [|a pre IH]; cbn.
  - by rewrite Hf.
  - destruct (takes_secret a) eqn:Ha; [done|]. cbn. intros Hall. by rewrite IH.
Qed.

Section Redact.
Context `{CodeModePlatform}.

Definition redact_parsed_url (parsed : Url) : string := url_masked parsed (redact_query_pairs <$> url_query parsed).
Definition redact_url_text (url : string) : string :=
  match url_parse url with Ok parsed => redact_parsed_url parsed | Err _ => "[invalid-url-redacted]" end.
Definition redact_url_like (value : string) : string :=
  if Str.starts_with "http://" value || Str.starts_with "https://" value then redact_url_text value else value.
Definition redact_string (value : string) : string :=
  if looks_sensitive_value value then REDACTED else truncate_string (redact_url_like value).

Definition depth_marker : Value := VObject [("truncated", VBool true); ("reason", VString "max_depth_exceeded")].
Definition items_marker (omitted : nat) : Value :=
  VObject [("truncated", VBool true); ("reason", VString "array_item_limit_exceeded"); ("omitted", VNumber (Z.of_nat omitted))].
Definition keys_marker (omitted : nat) : Value :=
  VObject [("reason", VString "object_key_limit_exceeded"); ("omitted", VNumber (Z.of_nat omitted))].

(** [left] is the depth that remains; a collection is cut after
    [MAX_COLLECTION_ITEMS] members. *)
Fixpoint redact_value (left : nat) (value : Value) : Value :=
  match left with
  | 0 => depth_marker
  | S left' =>
      match value with
      | VNull | VBool _ | VNumber _ => value
      | VString s => VString (redact_string s)
      | VArray items =>
          VArray ((redact_value left' <$> take MAX_COLLECTION_ITEMS items)
                  ++ (if MAX_COLLECTION_ITEMS <? length items then [items_marker (length items - MAX_COLLECTION_ITEMS)] else []))
      | VObject map =>
          let out := foldl (fun out kv =>
              map_insert kv.1 (if is_sensitive_key kv.1 then VString REDACTED else redact_value left' kv.2) out)
            [] (take MAX_COLLECTION_ITEMS map) in
          VObject (if MAX_COLLECTION_ITEMS <? length map
                   then map_insert "_truncated" (keys_marker (length map - MAX_COLLECTION_ITEMS)) out else out)
      end
  end.

Definition size_marker (size max_bytes : Z) : Value :=
  VObject [("truncated", VBool true); ("reason", VString "redacted_params_exceeded_cap");
           ("original_size_bytes", VNumber size); ("max_size_bytes", VNumber max_bytes)].
Definition redact_trace_value (value : Value) (max_bytes : Z) : Value :=
  let redacted := redact_value MAX_DEPTH value in
  let size := json_len redacted in
  if bool_decide (size <= max_bytes)%Z then redacted else size_marker size max_bytes.
Definition redact_trace_params (params : Value) (enabled : bool) : option Value :=
  if enabled then Some (redact_trace_value params DEFAULT_PARAM_BYTES) else None.

(** Relative references: the fragment goes, the query is masked. *)
Definition first_piece (c : ascii) (s : string) : string := match Str.split c s with x :: _ => x | [] => s end.
Definition redact_uri_or_path (value : string) : string :=
  match url_parse value with
  | Ok parsed => redact_parsed_url parsed
  | Err _ =>
      let '(path, query) := match Str.split_once "?" value with
                            | Some (path, rest) => (first_piece "#" path, Some (first_piece "#" rest))
                            | None => (first_piece "#" value, None)
                            end in
      match redact_query_pairs <$> query with
      | Some q => if Str.is_empty q then path else path +:+ "?" +:+ q
      | None => path
      end
  end.

Definition redact_upstream_resource_uri (uri : string) : string :=
  match Str.strip_prefix "lab://upstream/" uri with
  | None => redact_url_text uri
  | Some rest =>
      match Str.split_once "/" rest with
      | None => "lab://upstream/[redacted]"
      | Some (upstream_name, original_uri) => "lab://upstream/" +:+ upstream_name +:+ "/" +:+ redact_uri_or_path original_uri
      end
  end.

(** ** Log lines

    [sanitize_log_text] of [labby-runtime/src/agent_error.rs]. *)

Fixpoint floor_boundary (n : nat) (s : string) : nat :=
  match n with
  | 0 => 0
  | S k => match String.get n s with
           | Some a => if is_continuation a then floor_boundary k s else n
           | None => n
           end
  end.
Lemma floor_boundary_le n s : floor_boundary n s ≤ n.
Proof. induction n as [|n IH]; cbn; [lia|]. destruct (String.get _ _); [destruct (is_continuation _); lia|lia]. Qed.
Definition bounded_window (input : string) (max_len : nat) : string :=
  let cap := max_len * 4 in
  if String.length input <=? cap then input else String.substring 0 (floor_boundary cap input) input.

Fixpoint retain_from (skip : nat) (s : string) : string :=
  match s with
  | EmptyString => EmptyString
  | String a r =>
      match skip with
      | S k => retain_from k r
      | 0 => if control_at s then retain_from (if nat_of_ascii a =? 194 then 1 else 0) r
             else if bidi_at s then retain_from 2 r
             else String a (retain_from 0 r)
      end
  end.

Definition injection_markers : list string := ["<system>"; "[INST]"; "###"; "<<"].
Definition secret_prefixes : list string := ["sk-"; "ghp_"; "github_pat_"; "glpat-"; "xoxb-"; "xoxp-"; "eyJ"].
Definition redact_secret_like_segments (input : string) : string :=
  secret_replace_all
    (Str.join " " ((fun segment => if existsb (fun p => Str.starts_with p segment) secret_prefixes then "[REDACTED]" else segment)
                   <$> Str.split_whitespace input)).

Definition sanitize_log_line (input : string) (max_len : nat) : string * bool :=
  let window := bounded_window input max_len in
  let sanitized := foldl (fun s marker => str_replace marker "" s) (retain_from 0 window) injection_markers in
  let redacted := redact_secret_like_segments sanitized in
  (take_chars max_len redacted,
   (max_len <? chars_count redacted) || (String.length window <? String.length input)).
Definition sanitize_log_text (input : string) (max_len : nat) : string := (sanitize_log_line input max_len).1.

Lemma continuation_count a s : chars_count (String a s) = (if is_continuation a then 0 else 1) + chars_count s.
Proof. reflexivity. Qed.
Lemma chars_take n s : chars_count (take_chars n s) ≤ n.
Proof.
  revert n. induction s as [|a s IH]; intros n; cbn [take_chars]; [cbn; lia|]. destruct (is_continuation a) eqn:Hc.
  - rewrite continuation_count, Hc. apply IH.
  - destruct n as [|n]; [cbn; lia|]. rewrite continuation_count, Hc. specialize (IH n). lia.
Qed.
(** A sanitized line has at most [max_len] characters, and is reported as cut
    when the redacted text was longer. *)
Lemma sanitize_bounded input max_len : chars_count (sanitize_log_text input max_len) ≤ max_len.
Proof. apply chars_take. Qed.

(** ** Non-interference *)

(** Equal but for members with sensitive keys and texts that look like
    credentials. *)
Inductive alike : Value → Value → Prop :=
| alike_refl v : alike v v
| alike_secret s t : looks_sensitive_value s = true → looks_sensitive_value t = true → alike (VString s) (VString t)
| alike_array l k : Forall2 alike l k → alike (VArray l) (VArray k)
| alike_object l k :
    Forall2 (fun a b => a.1 = b.1 ∧ (is_sensitive_key a.1 = true ∨ alike a.2 b.2)) l k → alike (VObject l) (VObject k).

Lemma redact_alike left v w : alike v w → redact_value left v = redact_value left w.
Proof.
  revert v w. induction left as [|left IH]; intros v w Hvw; [done|].
  destruct Hvw as [v|s t Hs Ht|l k Hlk|l k Hlk]; [done|..]; cbn [redact_value].
  - unfold redact_string. by rewrite Hs, Ht.
  - rewrite (Forall2_length _ _ _ Hlk). f_equal. f_equal.
    apply (Forall2_take _ _ _ MAX_COLLECTION_ITEMS) in Hlk. induction Hlk as [|x y l' k' Hxy _ IHl]; [done|].
    cbn. f_equal; [by apply IH|done].
  - rewrite (Forall2_length _ _ _ Hlk). apply (Forall2_take _ _ _ MAX_COLLECTION_ITEMS) in Hlk.
    generalize (@nil (string * Value)) as out.
    generalize (length k - MAX_COLLECTION_ITEMS) as n. generalize (MAX_COLLECTION_ITEMS <? length k) as b.
    induction Hlk as [|x y l' k' [Hk Hxy] _ IHl]; intros b n out; [done|]. cbn [foldl]. rewrite <- Hk.
    destruct (is_sensitive_key x.1) eqn:Hsens; [by apply IHl|].
    destruct Hxy as [?|Hxy]; [done|]. rewrite (IH _ _ Hxy). apply IHl.
Qed.

(** (C40) A trace holds no secret: the parameters stored for a tool call are the
    same for any two parameter trees that differ only in the values of
    sensitive keys and in texts that look like credentials, at whatever depth;
    so the stored text does not depend on those values. *)
Theorem trace_hides_secrets v w enabled :
  alike v w → redact_trace_params v enabled = redact_trace_params w enabled.
Proof.
  intros Hvw. unfold redact_trace_params, redact_trace_value. by rewrite (redact_alike _ _ _ Hvw).
Qed.

End Redact.

(** ** Examples *)

#[local] Existing Instance sample_platform.

Definition sample_masked (u : Url) (q : option string) : string :=
  url_scheme u +:+ "://" +:+ default "" (url_host_str u) +:+ url_path u +:+ match q with Some q => "?" +:+ q | None => "" end.
Definition sample_code_mode : CodeModePlatform := {| url_masked := sample_masked; json_text := fun _ => "{}"; secret_replace_all := fun s => s |}.
#[local] Existing Instance sample_code_mode.

Example redact_ex :
  redact_trace_params
    (VObject [("query", VString "matrix"); ("Api-Key", VString "sk-1"); ("sort_key", VString "name");
              ("nested", VArray [VString "Bearer abc"; VString "https://example.com/p?token=1&page=2"])]) true
  = Some (VObject [("query", VString "matrix"); ("Api-Key", VString "[redacted]"); ("sort_key", VString "name");
              ("nested", VArray [VString "[redacted]"; VString "https://example.com/p?token=[redacted]&page=2"])]).
Proof. vm_compute. reflexivity. Qed.

Lemma trace_hides_secrets_witness :
  redact_trace_params (VObject [("api_key", VString "one"); ("note", VString "Bearer x")]) true
  = redact_trace_params (VObject [("api_key", VNumber 2); ("note", VString "Basic y")]) true.
Proof.
  apply trace_hides_secrets. constructor. constructor; [split; [reflexivity|by left]|].
  constructor; [split; [reflexivity|]; right; by constructor|constructor].
Defined.

(** The markers are removed one after the other, once each: what a later
    removal joins together stays. *)
Example marker_survives : sanitize_log_text "ignore <sys<<tem> rules" 4096 = "ignore <system> rules".
Proof. vm_compute. reflexivity. Qed.
