(* ===== verification/CodeModeCalls.v ===== *)
(** * CodeModeCalls: tool calls of a Code Mode execution

    What a request of the sandbox is turned into: the identifiers and scopes of
    [labby-codemode/src/types.rs], the local providers of [local_provider.rs],
    the errors of [error_contract.rs], and the futures that [runner_drive.rs]
    and [execute.rs] build for a call.  The host, the local providers and the
    OpenAPI client answer effects. *)

From Stdlib Require Import Ascii.
From stdpp Require Import base list strings.
From S2P Require Import Prelude RustStr Prog AuthTypes WebPlatform Paths Upstream Redact.

(** ** Errors *)

Definition user_message (e : ToolError) : string :=
  match e with
  | UnknownAction m _ _ | MissingParam m _ | InvalidParam m _ | UnknownInstance m _ | AmbiguousTool m _
  | ConfirmationRequired m | Conflict m _ | ForbiddenScopes m _ | Sdk _ m => m
  end.

(** The fields the broker looks at; the others are derived from the kind by
    [new] and passed through unchanged afterwards. *)
Record CodeModeCallError := mkCallError { ce_kind : string; ce_message : string; ce_tool : option string }.
Definition call_error_new (kind message : string) : CodeModeCallError := mkCallError kind message None.
Definition call_error_of (e : ToolError) : CodeModeCallError := call_error_new (tool_kind e) (user_message e).
Definition with_tool (e : CodeModeCallError) (tool : string) : CodeModeCallError :=
  match ce_tool e with None => mkCallError (ce_kind e) (ce_message e) (Some tool) | Some _ => e end.

(** ** Identifiers and scopes *)

(** [split] at two colons. *)
Fixpoint split_colons (s : string) : list string :=
  match s with
  | EmptyString => [EmptyString]
  | String ":" (String ":" r) => EmptyString :: split_colons r
  | String a r => Str.cons_head a (split_colons r)
  end.

Definition split_namespaced_id (raw : string) : option (string * string) :=
  match split_colons raw with
  | [namespace; tool] =>
      let namespace := Str.trim namespace in
      let tool := Str.trim tool in
      if Str.is_empty namespace || Str.is_empty tool then None else Some (namespace, tool)
  | _ => None
  end.
Definition namespaced_tool_id (namespace tool : string) : string := namespace +:+ "::" +:+ tool.

Definition in_quotes (s : string) : string := String "034" (s +:+ String "034" "").
Definition lab_action_unknown_tool_hint : string :=
  "Code Mode handles host-provided tools only. For Lab actions, call the native Lab service tool with arguments={action:<dotted.action>, params:{...}}. Example: gateway(arguments={action:"
  +:+ in_quotes "gateway.list" +:+ ", params:{}}).".

Record CodeModeToolId := mkToolId { ti_raw : string; ti_namespace : string; ti_tool : string }.
Definition tool_id_parse (raw : string) : result CodeModeToolId ToolError :=
  let raw := Str.trim raw in
  if Str.is_empty raw then Err (Sdk "invalid_code_mode_id" "Code Mode tool id must not be empty")
  else if Str.starts_with "lab::" raw
  then Err (Sdk "unknown_tool" ("lab:: IDs are not supported by Code Mode. " +:+ lab_action_unknown_tool_hint))
  else match split_namespaced_id raw with
       | Some (namespace, tool) => Ok (mkToolId raw namespace tool)
       | None => Err (Sdk "invalid_code_mode_id" "Code Mode ids must use <namespace>::<tool>")
       end.

Record CodeModeCallerCapabilities := mkCapabilities { cap_can_execute : bool; cap_can_use_snippets : bool; cap_is_admin : bool }.
Inductive CodeModeCaller := TrustedLocal | ScopedCaller (capabilities : CodeModeCallerCapabilities) (sub : option string).
Definition can_use_snippets (c : CodeModeCaller) : bool :=
  match c with TrustedLocal => true | ScopedCaller caps _ => cap_can_use_snippets caps end.
Definition caller_is_admin (c : CodeModeCaller) : bool :=
  match c with TrustedLocal => true | ScopedCaller caps _ => cap_is_admin caps end.
Inductive CodeModeSurface := SurfaceMcp | SurfaceCli.

(** Sets by their members. *)
Record ToolScope := mkToolScope { scope_namespaces : option (list string); scope_tools : list string }.
Definition scope_allows (s : ToolScope) (namespace tool : string) : bool :=
  match scope_namespaces s with None => true | Some l => existsb (String.eqb namespace) l end
  && match scope_tools s with
     | [] => true
     | tools => existsb (String.eqb tool) tools || existsb (String.eqb (namespaced_tool_id namespace tool)) tools
     end.
Definition is_scoped (s : ToolScope) : bool :=
  match scope_namespaces s with Some _ => true | None => false end || negb (bool_decide (scope_tools s = [])).
Definition local_providers_allowed (caller : CodeModeCaller) (scope : ToolScope) : bool :=
  caller_is_admin caller && negb (is_scoped scope).

(** ** Local providers *)

Inductive LocalProviderName := LocalState | LocalGit | LocalOpenapi.
Record LocalProviderCall := mkLocalCall { lc_provider : LocalProviderName; lc_method : string }.
Definition local_provider_name (namespace : string) : option LocalProviderName :=
  if String.eqb namespace "state" then Some LocalState
  else if String.eqb namespace "git" then Some LocalGit
  else if String.eqb namespace "openapi" then Some LocalOpenapi else None.
Definition is_reserved_provider_namespace (namespace : string) : bool :=
  match local_provider_name namespace with Some _ => true | None => false end.

Definition try_parse_local_provider_call (id : string) : result (option LocalProviderCall) ToolError :=
  let trimmed := Str.trim id in
  match split_namespaced_id trimmed with
  | None =>
      match split_colons trimmed with
      | namespace :: _ :: _ =>
          if is_reserved_provider_namespace (Str.trim namespace)
          then Err (InvalidParam "local provider method must not be empty" "id") else Ok None
      | _ => Ok None
      end
  | Some (namespace, method) =>
      match local_provider_name namespace with
      | None => Ok None
      | Some provider =>
          if Str.is_empty (Str.trim method) then Err (InvalidParam "local provider method must not be empty" "id")
          else Ok (Some (mkLocalCall provider method))
      end
  end.

(** ** Discovery *)

Inductive CodeModeCatalogKind := CatalogTool | CatalogSnippet.
(** The fields the broker looks at. *)
Record ToolDescriptor := mkDescriptor {
  td_kind : CodeModeCatalogKind; td_id : string; td_name : string; td_namespace : string; td_dts : string }.

Definition discovery_render_params (caller : CodeModeCaller) (surface : CodeModeSurface) (scope : ToolScope) : bool * bool :=
  (can_use_snippets caller && negb (is_scoped scope),
   match surface with SurfaceCli => true | SurfaceMcp => false end && match scope_namespaces scope with None => true | Some _ => false end).
Definition discovery_entry_visible (entry : ToolDescriptor) (scope : ToolScope) : bool :=
  match td_kind entry with CatalogSnippet => true | CatalogTool => false end || scope_allows scope (td_namespace entry) (td_name entry).

Definition MAX_SEMANTIC_QUERY_BYTES : nat := 8 * 1024.
Definition clamp_semantic_query (query : string) : string :=
  if String.length query <=? MAX_SEMANTIC_QUERY_BYTES then query
  else String.substring 0 (floor_boundary MAX_SEMANTIC_QUERY_BYTES query) query.
Definition as_u64 (v : Value) : option Z :=
  match v with VNumber z => if bool_decide (0 <= z <= u64_max)%Z then Some z else None | _ => None end.

(** ** The futures of tool calls *)

Record ExecCtx := mkExecCtx { cx_seq : Z; cx_execution_id : option string; cx_step_ordinal : option Z }.
Record ToolCallOutcome := mkOutcome { oc_value : Value; oc_ui : option Value }.
Inductive StepDecision := Replay (v : Value) | Execute | DecisionError (kind message : string).

(** The answer to an awaited call: it can be overtaken by the cancellation of
    the execution or by its deadline. *)
Inductive Awaited A := Answered (a : A) | Cancelled | DeadlinePassed.
Arguments Answered {A} a.
Arguments Cancelled {A}.
Arguments DeadlinePassed {A}.

Inductive CallE :=
| HostCallTool (id : string) (params : Value) (caller : CodeModeCaller) (surface : CodeModeSurface) (scope : ToolScope) (ctx : ExecCtx)
| SemanticRank (query : string) (limit : Z) (caller : CodeModeCaller) (surface : CodeModeSurface) (scope : ToolScope)
| ListTools (caller : CodeModeCaller) (surface : CodeModeSurface) (scope : ToolScope) (include_snippets use_cache : bool)
| DecideLocal (ctx : ExecCtx) (id : string) (params : Value)
| RecordLocal (ctx : ExecCtx) (value : Value)
| DispatchOpenapi (label operation : string) (params : Value)
| LockLocalProviders
| DispatchLocal (provider : LocalProviderName) (method : string) (params : Value)
| UnlockLocalProviders.

Definition call_resp (e : CallE) : Type :=
  match e with
  | HostCallTool _ _ _ _ _ _ => Awaited (result ToolCallOutcome CodeModeCallError)
  | SemanticRank _ _ _ _ _ => Awaited (result (list (string * Value)) ToolError)
  | ListTools _ _ _ _ _ => Awaited (result (list ToolDescriptor) ToolError)
  | DecideLocal _ _ _ => StepDecision
  | RecordLocal _ _ => result unit ToolError
  | DispatchOpenapi _ _ _ | DispatchLocal _ _ _ => result Value ToolError
  | LockLocalProviders | UnlockLocalProviders => unit
  end.
Notation call := (prog call_resp).
Definition call_do (e : CallE) : call (call_resp e) := trigger e.

(** The fields of [RunnerConfig] and of the broker that the calls use. *)
Record RunnerConfig := mkRunnerConfig {
  cfg_code_to_run : string;
  cfg_proxy : string;
  cfg_caller : CodeModeCaller;
  cfg_surface : CodeModeSurface;
  cfg_max_log_entries : nat;
  cfg_max_log_bytes : nat;
  cfg_trace_params : bool;
  cfg_capability_filter : ToolScope;
  cfg_execution_id : option string;
  cfg_has_host : bool;
}.

Definition LAB_INTERNAL_NAMESPACE : string := "__lab_internal".

Definition overtaken {A} (r : Awaited (result A CodeModeCallError)) : result A CodeModeCallError :=
  match r with
  | Answered r => r
  | Cancelled => Err (call_error_new "cancelled" "Code Mode execution was cancelled")
  | DeadlinePassed => Err (call_error_new "timeout" "Code Mode execution timed out")
  end.

(** What is made of an answer that was not overtaken. *)
Definition when_answered {A B} (r : Awaited A) (f : A → B) : Awaited B :=
  match r with Answered a => Answered (f a) | Cancelled => Cancelled | DeadlinePassed => DeadlinePassed end.

Definition described_types (entries : list ToolDescriptor) (id : string) (scope : ToolScope) : option string :=
  match find_first (fun entry => String.eqb (td_id entry) id && discovery_entry_visible entry scope) entries with
  | Some entry => if Str.is_empty (td_dts entry) then None else Some (td_dts entry)
  | None => None
  end.

(** The reserved tools.  A failure of the host gives the empty answer. *)
Definition dispatch_internal_call (cfg : RunnerConfig) (tool : string) (params : Value) : call (Awaited (result Value ToolError)) :=
  let caller := cfg_caller cfg in
  let surface := cfg_surface cfg in
  let scope := cfg_capability_filter cfg in
  if negb (cfg_has_host cfg) then Ret (Answered (Err (Sdk "unknown_tool" "no tool source configured")))
  else if String.eqb tool "semantic_rank" then
    let query := clamp_semantic_query (default "" (value_get "query" params ≫= as_str)) in
    let limit := match value_get "limit" params ≫= as_u64 with Some n => Z.max 1 (Z.min n 50) | None => 50 end%Z in
    let! r := call_do (SemanticRank query limit caller surface scope) in
    Ret (when_answered r (fun r =>
           let ranked := match r with Ok l => l | Err _ => [] end in
           Ok (VObject [("ranked", VArray ((fun '(id, score) => VObject [("id", VString id); ("score", score)]) <$> ranked))])))
  else if String.eqb tool "describe_types" then
    match value_get "id" params ≫= as_str with
    | None | Some EmptyString => Ret (Answered (Err (MissingParam "describe_types requires a non-empty `id`" "id")))
    | Some id =>
        let '(include_snippets, use_cache) := discovery_render_params caller surface scope in
        let! r := call_do (ListTools caller surface scope include_snippets use_cache) in
        Ret (when_answered r (fun r =>
               let entries := match r with Ok l => l | Err _ => [] end in
               Ok (VObject [("dts", match described_types entries id scope with Some dts => VString dts | None => VNull end)])))
    end
  else Ret (Answered (Err (Sdk "unknown_tool" ("unknown internal tool `" +:+ LAB_INTERNAL_NAMESPACE +:+ "::" +:+ tool +:+ "`")))).

(** [call_tool_id_before_deadline] and [call_tool_id_outcome]. *)
Definition call_tool_id_before_deadline (cfg : RunnerConfig) (id : string) (params : Value) (ctx : ExecCtx) :
  call (result ToolCallOutcome CodeModeCallError) :=
  match tool_id_parse id with
  | Err e => ret_err (call_error_of e)
  | Ok parsed =>
      if negb (cfg_has_host cfg) then ret_err (with_tool (call_error_new "unknown_tool" "no tool source configured") id)
      else if String.eqb (ti_namespace parsed) LAB_INTERNAL_NAMESPACE then
        let! r := dispatch_internal_call cfg (ti_tool parsed) params in
        Ret (overtaken (when_answered r (fun r =>
               match r with Ok value => Ok (mkOutcome value None) | Err e => Err (call_error_of e) end)))
      else if negb (scope_allows (cfg_capability_filter cfg) (ti_namespace parsed) (ti_tool parsed)) then
        ret_err (with_tool (call_error_new "unknown_tool"
                   ("tool `" +:+ ti_raw parsed +:+ "` is outside this Code Mode execution capability set")) (ti_raw parsed))
      else
        let! r := call_do (HostCallTool (ti_raw parsed) params (cfg_caller cfg) (cfg_surface cfg) (cfg_capability_filter cfg) ctx) in
        Ret (overtaken r)
  end.

Definition dispatch_openapi_provider (local : LocalProviderCall) (params : Value) : call (result Value ToolError) :=
  match Str.split_once "." (lc_method local) with
  | None => ret_err (InvalidParam "openapi call must be openapi::<label>.<operationId>" "id")
  | Some (label, op) => call_do (DispatchOpenapi label op params)
  end.

(** [dispatch_local_provider_stub] under the lock of the local providers. *)
Definition dispatch_local_provider_stub (local : LocalProviderCall) (params : Value) : call (result Value ToolError) :=
  match lc_provider local with
  | LocalOpenapi => ret_err (Sdk "internal_error" "openapi provider must not be dispatched via the local-provider stub")
  | provider => call_do (DispatchLocal provider (lc_method local) params)
  end.

(** The future of [enqueue_local_provider_call]. *)
Definition local_provider_call (cfg : RunnerConfig) (seq : Z) (id : string) (local : LocalProviderCall) (params : Value) :
  call (result ToolCallOutcome CodeModeCallError) :=
  if negb (local_providers_allowed (cfg_caller cfg) (cfg_capability_filter cfg))
  then ret_err (with_tool (call_error_of (ForbiddenScopes "local Code Mode providers require unscoped lab:admin" ["lab:admin"])) id)
  else
    let ctx := mkExecCtx seq (cfg_execution_id cfg) None in
    let! decision := (if cfg_has_host cfg then call_do (DecideLocal ctx id params) else Ret Execute) in
    match decision with
    | Replay value => ret_ok (mkOutcome value None)
    | DecisionError kind message => ret_err (with_tool (call_error_new kind message) id)
    | Execute =>
        let! dispatched :=
          match lc_provider local with
          | LocalOpenapi => dispatch_openapi_provider local params
          | _ =>
              let! _ := call_do LockLocalProviders in
              let! r := dispatch_local_provider_stub local params in
              let! _ := call_do UnlockLocalProviders in
              Ret r
          end in
        match dispatched with
        | Ok value =>
            let! recorded := (if cfg_has_host cfg then call_do (RecordLocal ctx value) else Ret (Ok ())) in
            match recorded with
            | Err err => ret_err (with_tool (call_error_of err) id)
            | Ok _ => ret_ok (mkOutcome value None)
            end
        | Err error => ret_err (with_tool (call_error_of error) id)
        end
    end.

(** ** Confinement of calls *)

(** What a call may do on behalf of its caller. *)
Definition permitted (cfg : RunnerConfig) (e : CallE) : Prop :=
  match e with
  | HostCallTool id _ caller surface scope _ =>
      caller = cfg_caller cfg ∧ surface = cfg_surface cfg ∧ scope = cfg_capability_filter cfg ∧
      ∃ namespace tool, split_namespaced_id id = Some (namespace, tool) ∧ scope_allows scope namespace tool = true ∧
        namespace ≠ LAB_INTERNAL_NAMESPACE
  | DispatchOpenapi _ _ _ | DispatchLocal _ _ _ | DecideLocal _ _ _ | RecordLocal _ _ | LockLocalProviders | UnlockLocalProviders =>
      local_providers_allowed (cfg_caller cfg) (cfg_capability_filter cfg) = true
  | SemanticRank query limit caller surface scope =>
      caller = cfg_caller cfg ∧ surface = cfg_surface cfg ∧ scope = cfg_capability_filter cfg ∧
      String.length query ≤ MAX_SEMANTIC_QUERY_BYTES ∧ (1 <= limit <= 50)%Z
  | ListTools caller surface scope include_snippets _ =>
      caller = cfg_caller cfg ∧ surface = cfg_surface cfg ∧ scope = cfg_capability_filter cfg ∧
      (include_snippets = true → can_use_snippets caller = true ∧ is_scoped scope = false)
  end.

Fixpoint only {A} (P : CallE → Prop) (p : call A) : Prop :=
  match p with Ret _ => True | Vis e k => P e ∧ ∀ r, only P (k r) end.
Lemma only_calls_bind {A B} P (p : call A) (f : A → call B) : only P p → (∀ a, only P (f a)) → only P (pbind p f).
Proof. induction p as [a|e k IH]; cbn; [intros _ Hf; apply Hf|]. intros [He Hk] Hf. split; [done|]. intros r. by apply IH. Qed.

Lemma substring_length n s : String.length (String.substring 0 n s) ≤ n.
Proof. revert n. induction s as [|a s IH]; intros [|n]; cbn; try lia. specialize (IH n). lia. Qed.
Lemma clamp_bound query : String.length (clamp_semantic_query query) ≤ MAX_SEMANTIC_QUERY_BYTES.
Proof.
  unfold clamp_semantic_query. destruct (Nat.leb_spec (String.length query) MAX_SEMANTIC_QUERY_BYTES); [done|].
  etrans; [apply substring_length|apply floor_boundary_le].
Qed.

Lemma internal_call_permitted cfg tool params : only (permitted cfg) (dispatch_internal_call cfg tool params).
Proof.
  unfold dispatch_internal_call. destruct (negb (cfg_has_host cfg)); [done|]. destruct (String.eqb _ _).
  { cbn [only pbind call_do trigger]. split; [|done]. split_and!; try done; [apply clamp_bound|destruct (_ ≫= as_u64); lia..]. }
  destruct (String.eqb _ _); [|done]. destruct (_ ≫= as_str) as [[|a s]|]; [done| |done]. split; [|done]. split_and!; try done.
  by intros [? ?%negb_true_iff]%andb_prop.
Qed.

(** A description shows the types of an entry that the scope admits. *)
Lemma described_visible entries id scope dts :
  described_types entries id scope = Some dts → ∃ entry, entry ∈ entries ∧ td_dts entry = dts ∧ discovery_entry_visible entry scope = true.
Proof.
  unfold described_types. destruct (find_first _ _) as [entry|] eqn:Hf; [|done]. apply find_first_Some in Hf as [Hin Hp].
  apply andb_prop in Hp as [_ Hv]. destruct (Str.is_empty _); [done|]. intros [= <-]. by exists entry.
Qed.

Lemma tool_call_permitted cfg id params ctx : only (permitted cfg) (call_tool_id_before_deadline cfg id params ctx).
Proof.
  unfold call_tool_id_before_deadline. destruct (tool_id_parse id) as [parsed|] eqn:Hid; [|done].
  destruct (negb (cfg_has_host cfg)); [done|]. destruct (String.eqb_spec (ti_namespace parsed) LAB_INTERNAL_NAMESPACE) as [|Hne];
    [apply only_calls_bind; [apply internal_call_permitted|done]|].
  destruct (scope_allows _ _ _) eqn:Hs; [|done]. cbn. split; [|done]. split_and!; try done.
  unfold tool_id_parse in Hid. destruct (Str.is_empty _); [done|]. destruct (Str.starts_with _ _); [done|].
  destruct (split_namespaced_id _) as [[ns tool]|] eqn:Hsplit; [|done]. injection Hid as <-. cbn in *. by exists ns, tool.
Qed.

Lemma local_call_permitted cfg seq id local params : only (permitted cfg) (local_provider_call cfg seq id local params).
Proof.
  unfold local_provider_call. destruct (local_providers_allowed _ _) eqn:Ha; [|done]. cbn [negb].
  apply only_calls_bind; [destruct (cfg_has_host cfg); cbn; by rewrite ?Ha|]. intros [v| |k m]; [done| |done].
  apply only_calls_bind.
  - destruct (lc_provider local) eqn:Hp; unfold dispatch_openapi_provider, dispatch_local_provider_stub;
      rewrite ?Hp; cbn; rewrite ?Ha; try done. destruct (Str.split_once _ _) as [[]|]; cbn; by rewrite ?Ha.
  - intros [value|]; [|done]. apply only_calls_bind; [destruct (cfg_has_host cfg); cbn; by rewrite ?Ha|]. by intros [].
Qed.
