(* ===== verification/RunnerDrive.v ===== *)
(** * RunnerDrive: the host's side of one Code Mode execution

    [labby-codemode/src/runner_drive.rs] with [runner_drive/steps.rs],
    [artifacts.rs] and [finalize.rs], the messages of [protocol.rs], the log caps
    of [truncate.rs] and the budgets of [config.rs].  The loop of [drive_runner]
    waits for the next line of the runner or the next finished call;
    [drive_event] is one turn of it, a program whose effects are the writes to
    the runner and the calls of the host.  The time of the deadline is abstract:
    an operation that it bounds may be answered by its passing. *)

From Stdlib Require Import Ascii.
From stdpp Require Import base list gmap strings pretty.
From S2P Require Import Prelude RustStr Prog AuthTypes SamplePlatform WebPlatform GatewayConfig Paths Upstream Redact CodeModeCalls.

(** ** Messages *)

Inductive RunnerInput :=
| Start (code proxy : string)
| ToolResult (seq : Z) (v : Value)
| SnippetResolved (seq : Z) (code : string) (input : Value)
| ToolFailed (seq : Z) (error : CodeModeCallError)
| StepDecided (seq : Z) (replay : option Value)
| StepRecorded (seq : Z).

Inductive RunnerOutput :=
| ToolCall (seq : Z) (id : string) (params : Value)
| ArtifactWrite (seq : Z) (path content : string) (content_type : option string)
| SnippetResolve (seq : Z) (name : string) (input : Value)
| StepBegin (seq : Z) (name : string)
| StepResult (seq : Z) (value : Value)
| Done (v : option Value) (logs : list string)
| RunnerError (error : CodeModeCallError).

(** ** Records of a run *)

Record CodeModeExecutedCall := mkExecuted {
  ec_id : string; ec_ok : bool; ec_elapsed_ms : Z; ec_start_ms : option Z; ec_params : option Value;
  ec_error_kind : option string; ec_ui : option Value }.
Record CodeModeArtifactReceipt := mkReceipt {
  rc_path : string; rc_absolute_path : string; rc_content_type : string; rc_bytes : Z; rc_sha256 : string }.
Record CodeModeArtifactWrite := mkArtifactWrite { aw_path : string; aw_content : string; aw_content_type : option string }.
Record ResolvedSnippet := mkResolvedSnippet { rs_name : string; rs_code : string; rs_input : Value }.
(** The metadata of a shaped result ([shape.rs]). *)
Record CodeModeResultShapeMetadata := mkShapeMetadata {
  sm_policy : CodeModeResultShapePolicy; sm_changed : bool; sm_truncated : bool;
  sm_original_size_bytes : Z; sm_shaped_size_bytes : Z; sm_warning : option string }.
Record CodeModeExecutionResponse := mkResponse {
  er_execution_id : option string; er_result : option Value; er_result_shaping : option CodeModeResultShapeMetadata;
  er_ui : option Value; er_calls : list CodeModeExecutedCall; er_logs : list string; er_artifacts : list CodeModeArtifactReceipt }.
Record CodeModeExecutionError := mkExecutionError { xe_error : CodeModeCallError; xe_calls : list CodeModeExecutedCall }.
Definition execution_error_of (e : ToolError) : CodeModeExecutionError := mkExecutionError (call_error_of e) [].

Record DriveState := mkDriveState {
  ds_calls : list (Z * CodeModeExecutedCall);
  ds_artifacts : list CodeModeArtifactReceipt;
  ds_artifact_store_pruned : bool;
  ds_artifact_max_bytes : Z;
  ds_artifact_root : string;
  ds_snippet_resolves : Z;
  ds_snippet_resolved_bytes : Z;
  ds_calls_enqueued : Z;
  ds_max_calls_per_run : Z;
  ds_internal_calls_enqueued : Z;
  ds_calltool_result_max_bytes : Z;
  ds_next_step_ordinal : Z;
  ds_step_ordinals : gmap Z (Z * string);
  ds_step_value_bytes : Z;
}.

Definition MAX_SNIPPET_RESOLVES_PER_RUN : Z := 32.
Definition MAX_INTERNAL_CALLS_PER_RUN : Z := 32.
Definition MAX_SNIPPET_RESOLVED_BYTES_PER_RUN : Z := 256 * 1024.
Definition MAX_STEPS_PER_RUN : Z := 256.
Definition MAX_STEP_VALUE_BYTES : Z := 256 * 1024.
Definition MAX_STEP_VALUE_BYTES_PER_RUN : Z := 8 * 1024 * 1024.
Definition RUNNER_SETTLEMENT_GRACE_MS : Z := 5000.
Definition ARTIFACT_WRITE_CALL_ID : string := "code_mode::write_artifact".

(** ** Budgets from the environment

    The variable, unless it is empty; then the value of the configuration
    file. *)
Definition DEFAULT_MAX_CALLTOOL_PER_RUN : Z := 512.
Definition MAX_CALLTOOL_PER_RUN_CEILING : Z := 2048.
Definition DEFAULT_CALLTOOL_RESULT_MAX_MIB : Z := 8.
Definition env_non_empty (env : string → option string) (name : string) : option string :=
  match env name with Some v => if Str.is_empty v then None else Some v | None => None end.
Definition max_calltool_per_run (env : string → option string) (config_default : option Z) : Z :=
  match env_non_empty env "LABBY_CODE_MODE_MAX_CALLS_PER_RUN" with
  | None =>
      match config_default with
      | Some value => if bool_decide (0 < value)%Z then Z.min value MAX_CALLTOOL_PER_RUN_CEILING else DEFAULT_MAX_CALLTOOL_PER_RUN
      | None => DEFAULT_MAX_CALLTOOL_PER_RUN
      end
  | Some raw =>
      match parse_uint u64_max (Str.trim raw) with
      | Some value => if bool_decide (0 < value)%Z then Z.min value MAX_CALLTOOL_PER_RUN_CEILING else DEFAULT_MAX_CALLTOOL_PER_RUN
      | None => DEFAULT_MAX_CALLTOOL_PER_RUN
      end
  end.
Definition mib_bytes (mib : Z) : Z := Z.min u64_max (mib * (1024 * 1024)).
Definition calltool_result_max_bytes (env : string → option string) (config_default : option Z) : Z :=
  let default_bytes := match config_default with
                       | Some mib => if bool_decide (0 < mib)%Z then mib_bytes mib else DEFAULT_CALLTOOL_RESULT_MAX_MIB * 1024 * 1024
                       | None => DEFAULT_CALLTOOL_RESULT_MAX_MIB * 1024 * 1024
                       end%Z in
  match env_non_empty env "LABBY_CODE_MODE_CALLTOOL_RESULT_MAX_MIB" with
  | None => default_bytes
  | Some raw =>
      match parse_uint u64_max (Str.trim raw) with
      | Some mib => if bool_decide (0 < mib)%Z then mib_bytes mib else default_bytes
      | None => default_bytes
      end
  end.

Definition saturating_add (a b : Z) : Z := Z.min u64_max (a + b).

Section Drive.
Context `{CodeModePlatform}.

(** The budgets and the root are read from the environment when a run starts. *)
Definition drive_state_new (artifact_root : string) (artifact_max_bytes max_calls_per_run calltool_result_max_bytes : Z) : DriveState :=
  mkDriveState [] [] false artifact_max_bytes artifact_root 0 0 0 max_calls_per_run 0 calltool_result_max_bytes 0 ∅ 0.

Definition push_call (seq : Z) (c : CodeModeExecutedCall) (s : DriveState) : DriveState :=
  mkDriveState (ds_calls s ++ [(seq, c)]) (ds_artifacts s) (ds_artifact_store_pruned s) (ds_artifact_max_bytes s)
    (ds_artifact_root s) (ds_snippet_resolves s) (ds_snippet_resolved_bytes s) (ds_calls_enqueued s) (ds_max_calls_per_run s)
    (ds_internal_calls_enqueued s) (ds_calltool_result_max_bytes s) (ds_next_step_ordinal s) (ds_step_ordinals s) (ds_step_value_bytes s).
Definition push_artifact (r : CodeModeArtifactReceipt) (s : DriveState) : DriveState :=
  mkDriveState (ds_calls s) (ds_artifacts s ++ [r]) (ds_artifact_store_pruned s) (ds_artifact_max_bytes s)
    (ds_artifact_root s) (ds_snippet_resolves s) (ds_snippet_resolved_bytes s) (ds_calls_enqueued s) (ds_max_calls_per_run s)
    (ds_internal_calls_enqueued s) (ds_calltool_result_max_bytes s) (ds_next_step_ordinal s) (ds_step_ordinals s) (ds_step_value_bytes s).
Definition set_pruned (s : DriveState) : DriveState :=
  mkDriveState (ds_calls s) (ds_artifacts s) true (ds_artifact_max_bytes s)
    (ds_artifact_root s) (ds_snippet_resolves s) (ds_snippet_resolved_bytes s) (ds_calls_enqueued s) (ds_max_calls_per_run s)
    (ds_internal_calls_enqueued s) (ds_calltool_result_max_bytes s) (ds_next_step_ordinal s) (ds_step_ordinals s) (ds_step_value_bytes s).
Definition set_snippets (resolves bytes : Z) (s : DriveState) : DriveState :=
  mkDriveState (ds_calls s) (ds_artifacts s) (ds_artifact_store_pruned s) (ds_artifact_max_bytes s)
    (ds_artifact_root s) resolves bytes (ds_calls_enqueued s) (ds_max_calls_per_run s)
    (ds_internal_calls_enqueued s) (ds_calltool_result_max_bytes s) (ds_next_step_ordinal s) (ds_step_ordinals s) (ds_step_value_bytes s).
Definition set_enqueued (calls internal : Z) (s : DriveState) : DriveState :=
  mkDriveState (ds_calls s) (ds_artifacts s) (ds_artifact_store_pruned s) (ds_artifact_max_bytes s)
    (ds_artifact_root s) (ds_snippet_resolves s) (ds_snippet_resolved_bytes s) calls (ds_max_calls_per_run s)
    internal (ds_calltool_result_max_bytes s) (ds_next_step_ordinal s) (ds_step_ordinals s) (ds_step_value_bytes s).
Definition set_steps (next : Z) (ordinals : gmap Z (Z * string)) (bytes : Z) (s : DriveState) : DriveState :=
  mkDriveState (ds_calls s) (ds_artifacts s) (ds_artifact_store_pruned s) (ds_artifact_max_bytes s)
    (ds_artifact_root s) (ds_snippet_resolves s) (ds_snippet_resolved_bytes s) (ds_calls_enqueued s) (ds_max_calls_per_run s)
    (ds_internal_calls_enqueued s) (ds_calltool_result_max_bytes s) next ordinals bytes.

(** [sort_by_key], a stable sort. *)
Fixpoint insert_call (x : Z * CodeModeExecutedCall) (l : list (Z * CodeModeExecutedCall)) : list (Z * CodeModeExecutedCall) :=
  match l with
  | [] => [x]
  | y :: r => if bool_decide (x.1 <= y.1)%Z then x :: l else y :: insert_call x r
  end.
Definition sorted_calls (calls : list (Z * CodeModeExecutedCall)) : list CodeModeExecutedCall := snd <$> foldr insert_call [] calls.

Definition timeout_error (s : DriveState) : CodeModeExecutionError :=
  mkExecutionError (call_error_of (Sdk "timeout" "Code Mode execution timed out")) (sorted_calls (ds_calls s)).

(** ** Log caps *)

(** Lines kept, their number and bytes, and whether a cap was hit. *)
Fixpoint keep_logs (i kept_bytes max_entries max_bytes : nat) (logs : list string) : list string * nat * bool :=
  match logs with
  | [] => ([], kept_bytes, false)
  | line :: rest =>
      if (max_entries <=? i) || (max_bytes <? kept_bytes + String.length line) then ([], kept_bytes, true)
      else let '(kept, bytes, cut) := keep_logs (S i) (kept_bytes + String.length line) max_entries max_bytes rest in
           (line :: kept, bytes, cut)
  end.
Definition apply_log_caps (logs : list string) (max_entries max_bytes : nat) : list string :=
  let '(kept, bytes, cut) := keep_logs 0 0 (Nat.max max_entries 1) (Nat.max max_bytes 1) logs in
  if cut then kept ++ ["[log output truncated at " +:+ pretty (length kept) +:+ " lines / " +:+ pretty bytes +:+ " bytes]"]
  else logs.

(** ** Effects of the loop *)

Inductive DriveE :=
| Write (m : RunnerInput)
| WriteBy (m : RunnerInput)
| Terminate
| WaitChild
| StderrMark
| StderrFlush
| StderrTake (start : nat)
| StderrClear
| PruneArtifacts
| WriteArtifact (root : string) (request : CodeModeArtifactWrite) (max_bytes : Z)
| ElapsedMs
| HostResolveSnippet (name : string) (input : Value)
| HostDecideStep (ctx : ExecCtx) (name : string)
| HostRecordStep (ctx : ExecCtx) (name : string) (value : Value).

(** [None] where the deadline passes first. *)
Definition drive_resp (e : DriveE) : Type :=
  match e with
  | Write _ => result unit ToolError
  | WriteBy _ => option (result unit ToolError)
  | Terminate | WaitChild | StderrFlush | StderrClear => unit
  | StderrMark => nat
  | StderrTake _ => list string
  | PruneArtifacts => option unit
  | WriteArtifact _ _ _ => option (result CodeModeArtifactReceipt ToolError)
  | ElapsedMs => Z
  | HostResolveSnippet _ _ => option (result ResolvedSnippet ToolError)
  | HostDecideStep _ _ => StepDecision
  | HostRecordStep _ _ _ => result unit ToolError
  end.
Notation drive := (prog drive_resp).
Definition drive_do (e : DriveE) : drive (drive_resp e) := trigger e.

Definition write_runner_input_by_deadline (m : RunnerInput) (s : DriveState) : drive (result unit CodeModeExecutionError) :=
  let! r := drive_do (WriteBy m) in
  match r with
  | Some (Ok _) => ret_ok ()
  | Some (Err e) => ret_err (execution_error_of e)
  | None => let! _ := drive_do Terminate in ret_err (timeout_error s)
  end.

(** The reply of a handler that changes no state after it. *)
Definition reply (m : RunnerInput) (s : DriveState) : drive (result DriveState CodeModeExecutionError) :=
  let!? _ := write_runner_input_by_deadline m s in ret_ok s.

(** ** Durable steps *)

Definition allocate_step (seq : Z) (name : string) (s : DriveState) : result (Z * DriveState) ToolError :=
  if bool_decide (MAX_STEPS_PER_RUN <= ds_next_step_ordinal s)%Z
  then Err (Sdk "budget_exceeded" ("Code Mode step count exceeds " +:+ pretty MAX_STEPS_PER_RUN +:+ " per run"))
  else
    let ordinal := ds_next_step_ordinal s in
    Ok (ordinal, set_steps (ordinal + 1) (<[seq := (ordinal, name)]> (ds_step_ordinals s)) (ds_step_value_bytes s) s).

(** The ordinal is released whether or not the value is accepted. *)
Definition complete_step (seq : Z) (value : Value) (s : DriveState) : result (Z * string) ToolError * DriveState :=
  match ds_step_ordinals s !! seq with
  | None => (Err (Sdk "internal_error" ("Code Mode step_result " +:+ pretty seq +:+ " has no matching step_begin")), s)
  | Some begun =>
      let s := set_steps (ds_next_step_ordinal s) (delete seq (ds_step_ordinals s)) (ds_step_value_bytes s) s in
      let bytes := json_len value in
      if bool_decide (MAX_STEP_VALUE_BYTES < bytes)%Z
      then (Err (Sdk "budget_exceeded" ("Code Mode step result is " +:+ pretty bytes +:+ " bytes; maximum is " +:+ pretty MAX_STEP_VALUE_BYTES)), s)
      else
        let aggregate := saturating_add (ds_step_value_bytes s) bytes in
        if bool_decide (MAX_STEP_VALUE_BYTES_PER_RUN < aggregate)%Z
        then (Err (Sdk "budget_exceeded" ("Code Mode step journal exceeds " +:+ pretty MAX_STEP_VALUE_BYTES_PER_RUN +:+ " bytes per run")), s)
        else (Ok begun, set_steps (ds_next_step_ordinal s) (ds_step_ordinals s) aggregate s)
  end.

Definition forget_step (seq : Z) (s : DriveState) : DriveState :=
  set_steps (ds_next_step_ordinal s) (delete seq (ds_step_ordinals s)) (ds_step_value_bytes s) s.

Definition handle_step_begin_event (cfg : RunnerConfig) (seq : Z) (name : string) (s : DriveState) :
  drive (result DriveState CodeModeExecutionError) :=
  match allocate_step seq name s with
  | Err error => reply (ToolFailed seq (with_tool (call_error_of error) ("code_mode::step::" +:+ name))) s
  | Ok (ordinal, s) =>
      let! decision := (if cfg_has_host cfg
                        then drive_do (HostDecideStep (mkExecCtx seq (cfg_execution_id cfg) (Some ordinal)) name)
                        else Ret Execute) in
      match decision with
      | Replay value => reply (StepDecided seq (Some value)) (forget_step seq s)
      | Execute => reply (StepDecided seq None) s
      | DecisionError kind message =>
          reply (ToolFailed seq (with_tool (call_error_new kind message) ("code_mode::step::" +:+ name))) (forget_step seq s)
      end
  end.

Definition handle_step_result_event (cfg : RunnerConfig) (seq : Z) (value : Value) (s : DriveState) :
  drive (result DriveState CodeModeExecutionError) :=
  let '(completed, s) := complete_step seq value s in
  let! record :=
    match completed with
    | Ok (ordinal, name) =>
        if cfg_has_host cfg then drive_do (HostRecordStep (mkExecCtx seq (cfg_execution_id cfg) (Some ordinal)) name value)
        else Ret (Ok ())
    | Err error => Ret (Err error)
    end in
  match record with
  | Ok _ => reply (StepRecorded seq) s
  | Err error => reply (ToolFailed seq (with_tool (call_error_of error) "code_mode::step")) s
  end.

(** ** Artifacts and snippets *)

Definition artifact_trace_params (request : CodeModeArtifactWrite) (trace_params : bool) : option Value :=
  redact_trace_params
    (VObject [("path", VString (aw_path request));
              ("content_type", match aw_content_type request with Some t => VString t | None => VNull end)]) trace_params.
Definition artifact_call (ok : bool) (elapsed_ms : Z) (params : option Value) (error_kind : option string) : CodeModeExecutedCall :=
  mkExecuted ARTIFACT_WRITE_CALL_ID ok elapsed_ms None params error_kind None.
Definition receipt_value (r : CodeModeArtifactReceipt) : Value :=
  VObject [("path", VString (rc_path r)); ("absolute_path", VString (rc_absolute_path r));
           ("content_type", VString (rc_content_type r)); ("bytes", VNumber (rc_bytes r)); ("sha256", VString (rc_sha256 r))].

(** A step inside [timeout_at]: when the deadline passes the runner is killed. *)
Definition within_deadline {A} (p : drive (option A)) (s : DriveState)
    (k : A → drive (result DriveState CodeModeExecutionError)) : drive (result DriveState CodeModeExecutionError) :=
  let! r := p in
  match r with
  | Some a => k a
  | None => let! _ := drive_do Terminate in ret_err (timeout_error s)
  end.

(** [handle_artifact_write] inside the deadline of [handle_artifact_write_event]:
    a failed write to the runner kills it. *)
Definition artifact_reply (m : RunnerInput) (s : DriveState) : drive (result DriveState CodeModeExecutionError) :=
  within_deadline (drive_do (WriteBy m)) s (fun r =>
    match r with
    | Ok _ => ret_ok s
    | Err error => let! _ := drive_do Terminate in ret_err (execution_error_of error)
    end).
Definition handle_artifact_write (cfg : RunnerConfig) (seq : Z) (request : CodeModeArtifactWrite) (s : DriveState) :
  drive (result DriveState CodeModeExecutionError) :=
  let params := artifact_trace_params request (cfg_trace_params cfg) in
  within_deadline (drive_do (WriteArtifact (ds_artifact_root s) request (ds_artifact_max_bytes s))) s (fun r =>
    let! elapsed := drive_do ElapsedMs in
    match r with
    | Ok receipt =>
        let s := push_call seq (artifact_call true elapsed params None) (push_artifact receipt s) in
        artifact_reply (ToolResult seq (receipt_value receipt)) s
    | Err error =>
        let error := with_tool (call_error_of error) ARTIFACT_WRITE_CALL_ID in
        let s := push_call seq (artifact_call false elapsed params (Some (ce_kind error))) s in
        artifact_reply (ToolFailed seq error) s
    end).
Definition handle_artifact_write_event (cfg : RunnerConfig) (seq : Z) (request : CodeModeArtifactWrite) (s : DriveState) :
  drive (result DriveState CodeModeExecutionError) :=
  if ds_artifact_store_pruned s then handle_artifact_write cfg seq request s
  else within_deadline (drive_do PruneArtifacts) s (fun _ => handle_artifact_write cfg seq request (set_pruned s)).

(** The state is changed by the attempts that fail, too; [None] when the
    deadline passes. *)
Definition resolve_snippet_for_runner (cfg : RunnerConfig) (name : string) (input : Value) (s : DriveState) :
  drive (option (result (string * Value) ToolError) * DriveState) :=
  if negb (can_use_snippets (cfg_caller cfg))
  then Ret (Some (Err (ForbiddenScopes "codemode.run requires lab:admin or trusted-local Code Mode" ["lab:admin"])), s)
  else if is_scoped (cfg_capability_filter cfg)
  then Ret (Some (Err (ForbiddenScopes "codemode.run is not available on route-scoped Code Mode surfaces" ["lab:admin"])), s)
  else if negb (cfg_has_host cfg)
  then Ret (Some (Err (Sdk "tool_source_unavailable" "codemode.run requires a live tool source")), s)
  else if bool_decide (MAX_SNIPPET_RESOLVES_PER_RUN <= ds_snippet_resolves s)%Z
  then Ret (Some (Err (Sdk "snippet_resolve_limit" "snippet resolve limit exceeded")), s)
  else
    let s := set_snippets (saturating_add (ds_snippet_resolves s) 1) (ds_snippet_resolved_bytes s) s in
    let! resolved := drive_do (HostResolveSnippet name input) in
    match resolved with
    | None => Ret (None, s)
    | Some (Err e) => Ret (Some (Err e), s)
    | Some (Ok r) =>
        let s := set_snippets (ds_snippet_resolves s)
                   (saturating_add (ds_snippet_resolved_bytes s) (Z.of_nat (String.length (rs_code r)))) s in
        if bool_decide (MAX_SNIPPET_RESOLVED_BYTES_PER_RUN < ds_snippet_resolved_bytes s)%Z
        then Ret (Some (Err (Sdk "snippet_budget_exceeded" "resolved snippet code budget exceeded")), s)
        else Ret (Some (Ok (rs_code r, rs_input r)), s)
    end.

Definition handle_snippet_resolve_event (cfg : RunnerConfig) (seq : Z) (name : string) (input : Value) (s : DriveState) :
  drive (result DriveState CodeModeExecutionError) :=
  let! resolved := resolve_snippet_for_runner cfg name input s in
  let '(r, s) := resolved in
  match r with
  | Some (Ok (code, input)) => reply (SnippetResolved seq code input) s
  | Some (Err error) => reply (ToolFailed seq (with_tool (call_error_of error) ("snippet::" +:+ name))) s
  | None => let! _ := drive_do Terminate in ret_err (timeout_error s)
  end.

(** ** Tool calls *)

(** A future of [pending_tool_calls]: the future itself, or an answer that is
    ready. *)
Record PendingCall := mkPending {
  pd_seq : Z; pd_id : string; pd_params : option Value; pd_future : prog call_resp (result ToolCallOutcome CodeModeCallError) }.

Definition is_internal (id : string) : bool := Str.starts_with "__lab_internal::" id.

Definition enqueue_tool_call (cfg : RunnerConfig) (seq : Z) (id : string) (params : Value) : PendingCall :=
  mkPending seq id (redact_trace_params params (cfg_trace_params cfg))
    (call_tool_id_before_deadline cfg id params (mkExecCtx seq (cfg_execution_id cfg) None)).
Definition enqueue_local_provider_call (cfg : RunnerConfig) (seq : Z) (id : string) (local : LocalProviderCall) (params : Value) : PendingCall :=
  mkPending seq id (redact_trace_params params (cfg_trace_params cfg)) (local_provider_call cfg seq id local params).
Definition enqueue_rejected_tool_call (cfg : RunnerConfig) (seq : Z) (id : string) (params : Value) (err : ToolError) : PendingCall :=
  mkPending seq id (redact_trace_params params (cfg_trace_params cfg)) (ret_err (with_tool (call_error_of err) id)).
Definition enqueue_internal_call_over_ceiling (cfg : RunnerConfig) (seq : Z) (id : string) (params : Value) : PendingCall :=
  mkPending seq id (redact_trace_params params (cfg_trace_params cfg))
    (ret_ok (mkOutcome (if String.eqb id "__lab_internal::describe_types" then VObject [("dts", VNull)]
                        else VObject [("ranked", VArray [])]) None)).

Definition reject_tool_call_over_budget (seq : Z) (id : string) (s : DriveState) :
  drive (result DriveState CodeModeExecutionError) :=
  let!? _ := write_runner_input_by_deadline
      (ToolFailed seq (with_tool (call_error_new "call_budget_exceeded"
         ("per-run callTool budget of " +:+ pretty (ds_max_calls_per_run s)
          +:+ " exceeded; reduce fan-out or split the work across multiple codemode calls")) id)) s in
  ret_ok (push_call seq (mkExecuted id false 0 None None (Some "call_budget_exceeded") None) s).

(** [handle_completed_tool_call]. *)
Definition handle_completed_tool_call (c : PendingCall) (r : result ToolCallOutcome CodeModeCallError) (elapsed_ms start_ms : Z)
    (s : DriveState) : drive (result DriveState CodeModeExecutionError) :=
  let seq := pd_seq c in
  let record ok error_kind ui s :=
    if is_internal (pd_id c) then s
    else push_call seq (mkExecuted (pd_id c) ok elapsed_ms (Some start_ms) (pd_params c) error_kind ui) s in
  match r with
  | Ok outcome =>
      let size := json_len (oc_value outcome) in
      let max := ds_calltool_result_max_bytes s in
      if bool_decide (max < size)%Z then
        let!? _ := write_runner_input_by_deadline
            (ToolFailed seq (with_tool (call_error_new "result_too_large"
               ("callTool result is " +:+ pretty size +:+ " bytes; maximum is " +:+ pretty max
                +:+ " bytes (use writeArtifact for large payloads)")) (pd_id c))) s in
        ret_ok (record false (Some "result_too_large") (oc_ui outcome) s)
      else reply (ToolResult seq (oc_value outcome)) (record true None (oc_ui outcome) s)
  | Err err =>
      let error := with_tool err (pd_id c) in
      let!? _ := write_runner_input_by_deadline (ToolFailed seq error) s in
      ret_ok (record false (Some (ce_kind error)) None s)
  end.

(** ** The loop *)

Inductive DriveOutcome :=
| Completed (response : CodeModeExecutionResponse)
| ExecutionError (error : CodeModeExecutionError)
| RunnerUnhealthy (error : CodeModeExecutionError).

(** [ls_settling]: the post-tool settlement deadline is armed. *)
Record LoopState := mkLoop { ls_state : DriveState; ls_pending : list PendingCall; ls_settling : bool }.

(** What the [select!] can return; [CallDone] picks a pending call by its
    position. *)
Inductive DriveEvent :=
| LineTimeout
| LineEof
| LineFailed (too_long : bool) (io_error : string)
| LineRead (msg : result RunnerOutput string)
| CallDone (index : nat) (r : result ToolCallOutcome CodeModeCallError) (elapsed_ms start_ms : Z).

Definition unhealthy (kind message : string) (s : DriveState) : LoopState + DriveOutcome :=
  inr (RunnerUnhealthy (mkExecutionError (call_error_of (Sdk kind message)) (sorted_calls (ds_calls s)))).

Definition MAX_LINE_BYTES : Z := 64 * 1024 * 1024 + 4 * 1024.

(** [?] in an arm of the [match] on the message. *)
Definition continue_with (pending : list PendingCall) (p : drive (result DriveState CodeModeExecutionError)) :
  drive (LoopState + DriveOutcome) :=
  let! r := p in
  Ret match r with Ok s => inl (mkLoop s pending false) | Err e => inr (RunnerUnhealthy e) end.

(** A [ToolCall] message. *)
Definition handle_tool_call (cfg : RunnerConfig) (seq : Z) (id : string) (params : Value) (s : DriveState) (pending : list PendingCall) :
  drive (LoopState + DriveOutcome) :=
  let internal := is_internal id in
  let s := if internal then set_enqueued (ds_calls_enqueued s) (saturating_add (ds_internal_calls_enqueued s) 1) s
           else set_enqueued (saturating_add (ds_calls_enqueued s) 1) (ds_internal_calls_enqueued s) s in
  let push c := Ret (inl (mkLoop s (pending ++ [c]) false)) in
  if internal && bool_decide (MAX_INTERNAL_CALLS_PER_RUN < ds_internal_calls_enqueued s)%Z
  then push (enqueue_internal_call_over_ceiling cfg seq id params)
  else if negb internal && bool_decide (ds_max_calls_per_run s < ds_calls_enqueued s)%Z
  then continue_with pending (reject_tool_call_over_budget seq id s)
  else match try_parse_local_provider_call id with
       | Ok (Some local) => push (enqueue_local_provider_call cfg seq id local params)
       | Ok None => push (enqueue_tool_call cfg seq id params)
       | Err err => push (enqueue_rejected_tool_call cfg seq id params err)
       end.

(** A message of the runner. *)
Definition handle_message (cfg : RunnerConfig) (stderr_start : nat) (msg : RunnerOutput) (st : LoopState) : drive (LoopState + DriveOutcome) :=
  let s := ls_state st in
  let pending := ls_pending st in
  match msg with
  | ToolCall seq id params => handle_tool_call cfg seq id params s pending
  | ArtifactWrite seq path content content_type =>
      continue_with pending (handle_artifact_write_event cfg seq (mkArtifactWrite path content content_type) s)
  | SnippetResolve seq name input => continue_with pending (handle_snippet_resolve_event cfg seq name input s)
  | StepBegin seq name => continue_with pending (handle_step_begin_event cfg seq name s)
  | StepResult seq value => continue_with pending (handle_step_result_event cfg seq value s)
  | Done v logs =>
      match pending with
      | _ :: _ => let! _ := drive_do Terminate in
                  Ret (unhealthy "internal_error" "Code Mode runner completed with pending tool calls" s)
      | [] =>
          let! _ := drive_do StderrFlush in
          let! captured := drive_do (StderrTake stderr_start) in
          let all_logs := apply_log_caps (logs ++ captured) (cfg_max_log_entries cfg) (cfg_max_log_bytes cfg) in
          Ret (inr (Completed (mkResponse None v None None (sorted_calls (ds_calls s))
                                 ((fun line => sanitize_log_text line 4096) <$> all_logs) (ds_artifacts s))))
      end
  | RunnerError error =>
      let! _ := drive_do StderrFlush in
      let! _ := drive_do StderrClear in
      Ret (inr (ExecutionError (mkExecutionError error (sorted_calls (ds_calls s)))))
  end.

Definition drive_event (cfg : RunnerConfig) (stderr_start : nat) (st : LoopState) (ev : DriveEvent) : drive (LoopState + DriveOutcome) :=
  let s := ls_state st in
  match ev with
  | LineTimeout =>
      let! _ := drive_do Terminate in
      Ret (if ls_settling st && bool_decide (ls_pending st = [])
           then unhealthy "timeout" ("Code Mode runner did not settle within " +:+ pretty RUNNER_SETTLEMENT_GRACE_MS
                                     +:+ "ms after all tool calls completed") s
           else inr (RunnerUnhealthy (timeout_error s)))
  | LineEof =>
      let! _ := drive_do WaitChild in
      Ret (unhealthy "server_error" "Code Mode runner exited before completion" s)
  | LineFailed too_long io_error =>
      let! _ := drive_do Terminate in
      Ret (unhealthy "internal_error"
             (if too_long then "Code Mode runner emitted a protocol line exceeding the " +:+ pretty MAX_LINE_BYTES
                                +:+ "-byte safety cap; possible unbounded output"
              else "failed to read Code Mode runner output: " +:+ io_error) s)
  | LineRead (Err e) =>
      let! _ := drive_do Terminate in
      Ret (unhealthy "internal_error" ("Code Mode runner emitted invalid protocol JSON: " +:+ e) s)
  | LineRead (Ok msg) => handle_message cfg stderr_start msg st
  | CallDone index r elapsed_ms start_ms =>
      match ls_pending st !! index with
      | None => Ret (inl st)
      | Some c =>
          let! done := handle_completed_tool_call c r elapsed_ms start_ms s in
          Ret match done with
              | Err e => inr (RunnerUnhealthy e)
              | Ok s =>
                  let pending := delete index (ls_pending st) in
                  let settle := bool_decide (pending = []) && bool_decide (0 < ds_calls_enqueued s ∨ 0 < ds_internal_calls_enqueued s)%Z in
                  inl (mkLoop s pending (settle || ls_settling st))
              end
      end
  end.

(** [drive_runner] up to the first turn of the loop. *)
Definition drive_start (cfg : RunnerConfig) (init : DriveState) : drive (nat * (LoopState + DriveOutcome)) :=
  let! stderr_start := drive_do StderrMark in
  let! sent := drive_do (Write (Start (cfg_code_to_run cfg) (cfg_proxy cfg))) in
  Ret (stderr_start,
       match sent with Ok _ => inl (mkLoop init [] false) | Err e => inr (RunnerUnhealthy (execution_error_of e)) end).

End Drive.
Notation drive := (prog drive_resp).
