(* ===== verification/RunnerDriveProps.v ===== *)
(** * RunnerDriveProps: budgets and scope of one execution

    What a program in the sandbox can make the host do, whatever it sends. *)

From stdpp Require Import base list gmap strings pretty.
From S2P Require Import Prelude RustStr Prog AuthTypes SamplePlatform WebPlatform Paths Upstream Redact CodeModeCalls RunnerDrive.

Section Safe.
Context `{CodeModePlatform}.

(** Every effect satisfies [P] and every result [Q]. *)
Fixpoint safe {A} (P : DriveE → Prop) (Q : A → Prop) (p : prog drive_resp A) : Prop :=
  match p with Ret a => Q a | Vis e k => P e ∧ ∀ x, safe P Q (k x) end.

Lemma safe_bind {A B} P (Q : B → Prop) (p : prog drive_resp A) (f : A → prog drive_resp B) :
  safe P (fun a => safe P Q (f a)) p → safe P Q (pbind p f).
Proof. induction p as [a|e k IH]; cbn; [done|]. intros [He Hk]. split; [done|]. intros x. by apply IH. Qed.
Lemma safe_mono {A} P (Q R : A → Prop) (p : prog drive_resp A) : (∀ a, Q a → R a) → safe P Q p → safe P R p.
Proof. intros HQR. induction p as [a|e k IH]; cbn; [apply HQR|]. intros [He Hk]. split; [done|]. intros x. by apply IH. Qed.
Lemma safe_paths {A} P (Q : A → Prop) (p : prog drive_resp A) tr a :
  safe P Q p → paths p tr a → Forall (fun s => P (projT1 s)) tr ∧ Q a.
Proof.
  intros Hs Hp. induction Hp as [a|e k x tr a Hp IH]; [done|]. destruct Hs as [He Hk].
  destruct (IH (Hk x)) as [Htr Ha]. split; [by constructor|done].
Qed.

(** ** The limits *)

Section Limits.
Variable cfg : RunnerConfig.

(** The state of a run within its budgets. *)
Definition in_budget (s : DriveState) : Prop :=
  (0 <= ds_snippet_resolves s <= MAX_SNIPPET_RESOLVES_PER_RUN)%Z ∧
  (0 <= ds_next_step_ordinal s <= MAX_STEPS_PER_RUN)%Z ∧
  (ds_step_value_bytes s <= MAX_STEP_VALUE_BYTES_PER_RUN)%Z ∧
  (0 <= ds_snippet_resolved_bytes s <= u64_max)%Z ∧
  map_Forall (fun _ begun => 0 <= begun.1 < MAX_STEPS_PER_RUN)%Z (ds_step_ordinals s).

(** The effects on behalf of the program: snippets only for callers that may
    use them and never with more code than the limit, steps with an ordinal
    below the limit and a value of bounded size, and results of bounded size
    apart from the receipts of artifacts. *)
Definition allowed_effect (max : Z) (e : DriveE) : Prop :=
  match e with
  | HostResolveSnippet _ _ => can_use_snippets (cfg_caller cfg) = true ∧ is_scoped (cfg_capability_filter cfg) = false
  | HostDecideStep ctx _ => ∃ o, cx_step_ordinal ctx = Some o ∧ (0 <= o < MAX_STEPS_PER_RUN)%Z
  | HostRecordStep ctx _ v =>
      (∃ o, cx_step_ordinal ctx = Some o ∧ (0 <= o < MAX_STEPS_PER_RUN)%Z) ∧ (json_len v <= MAX_STEP_VALUE_BYTES)%Z
  | WriteBy (SnippetResolved _ code _) => (Z.of_nat (String.length code) <= MAX_SNIPPET_RESOLVED_BYTES_PER_RUN)%Z
  | WriteBy (ToolResult _ v) => (json_len v <= max)%Z ∨ ∃ r, v = receipt_value r
  | _ => True
  end.

(** What a handler leaves unchanged. *)
Definition same_counts (s s' : DriveState) : Prop :=
  ds_calls_enqueued s' = ds_calls_enqueued s ∧ ds_internal_calls_enqueued s' = ds_internal_calls_enqueued s ∧
  ds_max_calls_per_run s' = ds_max_calls_per_run s ∧ ds_calltool_result_max_bytes s' = ds_calltool_result_max_bytes s.
Definition kept (s : DriveState) (r : result DriveState CodeModeExecutionError) : Prop :=
  match r with Ok s' => in_budget s' ∧ same_counts s s' | Err _ => True end.

Lemma write_safe s m (Q : result unit CodeModeExecutionError → Prop) max :
  allowed_effect max (WriteBy m) → Q (Ok ()) → (∀ e, Q (Err e)) → safe (allowed_effect max) Q (write_runner_input_by_deadline m s).
Proof. intros Hm Hok Herr. split; [done|]. intros [[[]|e]|]; cbn; [done|apply Herr|]. split; [done|]. intros []. apply Herr. Qed.

Lemma reply_safe s s' m max :
  allowed_effect max (WriteBy m) → in_budget s' → same_counts s s' → safe (allowed_effect max) (kept s) (reply m s').
Proof. intros Hm Hb Hc. apply safe_bind, write_safe; [done|done|]. done. Qed.

Lemma try_write_safe s m max (f : DriveState) :
  allowed_effect max (WriteBy m) → in_budget f → same_counts s f → ∀ s1,
  safe (allowed_effect max) (kept s) (let!? _ := write_runner_input_by_deadline m s1 in ret_ok f).
Proof. intros Hm Hb Hc s1. apply safe_bind, write_safe; done. Qed.

Lemma step_begin_safe s seq name max : in_budget s → safe (allowed_effect max) (kept s) (handle_step_begin_event cfg seq name s).
Proof.
  intros Hb. unfold handle_step_begin_event, allocate_step. case_bool_decide as Hmax; [by apply reply_safe|].
  destruct Hb as (Hs & Hn & Hv & Hc & Ho). apply safe_bind.
  assert (Hord : map_Forall (fun _ begun => 0 <= begun.1 < MAX_STEPS_PER_RUN)%Z
                   (<[seq := (ds_next_step_ordinal s, name)]> (ds_step_ordinals s))).
  { apply map_Forall_insert_2; [cbn; lia|done]. }
  set (s1 := set_steps _ _ _ s). assert (Hb' : in_budget s1) by (split_and!; cbn; try done; lia).
  assert (Hf : in_budget (forget_step seq s1)) by (split_and!; cbn; try done; try lia; by apply map_Forall_delete).
  destruct (cfg_has_host cfg); [split; [exists (ds_next_step_ordinal s); split; [done|lia]|]; intros [v| |k m]|]; by apply reply_safe.
Qed.

Lemma step_result_safe s seq value max : in_budget s → safe (allowed_effect max) (kept s) (handle_step_result_event cfg seq value s).
Proof.
  intros Hb. unfold handle_step_result_event, complete_step.
  destruct (ds_step_ordinals s !! seq) as [[o name]|] eqn:Eo; [|by apply reply_safe].
  destruct Hb as (Hs & Hn & Hv & Hc & Ho). pose proof (Ho _ _ Eo) as Hoo.
  pose proof (map_Forall_delete _ _ seq Ho) as Ho'.
  case_bool_decide as Hlen; [by apply reply_safe|]. case_bool_decide as Hagg; [by apply reply_safe|]. cbn zeta. apply safe_bind.
  destruct (cfg_has_host cfg); [split; [split; [exists o; by split|lia]|]; intros [[]|e]|]; apply reply_safe; try done;
    split_and!; cbn in *; try done; lia.
Qed.

Lemma artifact_safe s seq request max : in_budget s → safe (allowed_effect max) (kept s) (handle_artifact_write_event cfg seq request s).
Proof.
  intros Hb. assert (Hw : ∀ s', in_budget s' → same_counts s s' → safe (allowed_effect max) (kept s) (handle_artifact_write cfg seq request s')).
  { intros s' Hb' Hc. split; [done|]. intros [[receipt|e]|]; [split; [done|]; intros elapsed; cbn [pbind]..|by split].
    - split; [by right; eexists|]. intros [[[]|e]|]; [done|by split|by split].
    - split; [done|]. intros [[[]|e']|]; [done|by split|by split]. }
  unfold handle_artifact_write_event. destruct (ds_artifact_store_pruned s); [by apply Hw|].
  split; [done|]. intros [[]|]; [by apply Hw|by split].
Qed.

Lemma snippet_safe s seq name input max : in_budget s → safe (allowed_effect max) (kept s) (handle_snippet_resolve_event cfg seq name input s).
Proof.
  intros Hb. unfold handle_snippet_resolve_event, resolve_snippet_for_runner.
  destruct (can_use_snippets _) eqn:Hcan; cbn [negb]; [|by apply reply_safe].
  destruct (is_scoped _) eqn:Hsc; [by apply reply_safe|]. destruct (negb (cfg_has_host cfg)); [by apply reply_safe|].
  case_bool_decide as Hmax; [by apply reply_safe|]. destruct Hb as (Hs & Hn & Hv & Hc & Ho).
  assert (Hsat : (0 <= saturating_add (ds_snippet_resolves s) 1 <= MAX_SNIPPET_RESOLVES_PER_RUN)%Z).
  { unfold saturating_add, u64_max, MAX_SNIPPET_RESOLVES_PER_RUN in *. lia. }
  split; [done|]. intros [[r|e]|]; cbn [pbind]; [|by apply reply_safe; try done|by split].
  assert (Hb' : ∀ code, in_budget (set_snippets (saturating_add (ds_snippet_resolves s) 1)
    (saturating_add (ds_snippet_resolved_bytes s) (Z.of_nat (String.length code))) s)).
  { intros code. split_and!; cbn; try done; unfold saturating_add, u64_max in *; lia. }
  case_bool_decide as Hlim; apply reply_safe; try done; try apply Hb'.
  cbn in *. unfold saturating_add, u64_max, MAX_SNIPPET_RESOLVED_BYTES_PER_RUN in *. lia.
Qed.

Lemma completed_safe s c r x y :
  in_budget s → safe (allowed_effect (ds_calltool_result_max_bytes s)) (kept s) (handle_completed_tool_call c r x y s).
Proof.
  intros Hb. unfold handle_completed_tool_call.
  assert (Hrec : ∀ b k ui, in_budget (if is_internal (pd_id c) then s else push_call (pd_seq c) (mkExecuted (pd_id c) b x (Some y) (pd_params c) k ui) s)
     ∧ same_counts s (if is_internal (pd_id c) then s else push_call (pd_seq c) (mkExecuted (pd_id c) b x (Some y) (pd_params c) k ui) s)).
  { intros. by destruct (is_internal (pd_id c)). }
  destruct r as [o|e].
  - case_bool_decide as Hsize; [by apply try_write_safe; [done|apply Hrec|apply Hrec]|].
    apply reply_safe; [left; cbn; lia|apply Hrec|apply Hrec].
  - by apply try_write_safe; [done|apply Hrec|apply Hrec].
Qed.

(** ** The loop *)

(** A call whose future reaches the host. *)
Definition asks_host (c : PendingCall) : bool := match pd_future c with Vis _ _ => true | Ret _ => false end.
(** The calls that a turn adds. *)
Definition new_calls (st st' : LoopState) : Z :=
  Z.of_nat (length (List.filter asks_host (drop (length (ls_pending st)) (ls_pending st')))).

Definition loop_ok (max rmax : Z) (st : LoopState) (n : Z) : Prop :=
  let s := ls_state st in
  in_budget s ∧ ds_max_calls_per_run s = max ∧ ds_calltool_result_max_bytes s = rmax ∧
  Forall (fun c => only (permitted cfg) (pd_future c)) (ls_pending st) ∧
  (0 <= ds_calls_enqueued s <= u64_max)%Z ∧ (0 <= ds_internal_calls_enqueued s <= u64_max)%Z ∧
  (n <= Z.min (ds_calls_enqueued s) max + Z.min (ds_internal_calls_enqueued s) MAX_INTERNAL_CALLS_PER_RUN)%Z.

Definition turn_ok (max rmax : Z) (st : LoopState) (n : Z) (o : LoopState + DriveOutcome) : Prop :=
  match o with inl st' => loop_ok max rmax st' (n + new_calls st st') | inr _ => True end.

Lemma no_new_calls st st' : length (ls_pending st') ≤ length (ls_pending st) → new_calls st st' = 0%Z.
Proof. intros Hl. unfold new_calls. by rewrite drop_ge. Qed.

Lemma continue_ok max rmax st n p :
  loop_ok max rmax st n → safe (allowed_effect rmax) (kept (ls_state st)) p →
  safe (allowed_effect rmax) (turn_ok max rmax st n) (continue_with (ls_pending st) p).
Proof.
  intros (Hb & Hm & Hr & Hp & Hc & Hi & Hn) Hsafe. apply safe_bind. eapply safe_mono; [|done].
  intros [s'|e]; [|done]. intros (Hb' & Hce & Hie & Hme & Hre). cbn. unfold loop_ok. cbn. rewrite no_new_calls by done.
  rewrite Hce, Hie, Hme, Hre. split_and!; try done; lia.
Qed.

Lemma push_ok max rmax st n s' c :
  in_budget s' → ds_max_calls_per_run s' = max → ds_calltool_result_max_bytes s' = rmax →
  Forall (fun c => only (permitted cfg) (pd_future c)) (ls_pending st) → only (permitted cfg) (pd_future c) →
  (0 <= ds_calls_enqueued s' <= u64_max)%Z → (0 <= ds_internal_calls_enqueued s' <= u64_max)%Z →
  (n + (if asks_host c then 1 else 0)
     <= Z.min (ds_calls_enqueued s') max + Z.min (ds_internal_calls_enqueued s') MAX_INTERNAL_CALLS_PER_RUN)%Z →
  turn_ok max rmax st n (inl (mkLoop s' (ls_pending st ++ [c]) false)).
Proof.
  intros Hb Hm Hr Hp Hc H1 H2 Hn. unfold turn_ok, loop_ok, new_calls. cbn. rewrite drop_app_length. cbn.
  split_and!; try done; try lia; [apply Forall_app; by split; [|constructor]|]. destruct (asks_host c); cbn; lia.
Qed.

Lemma tool_call_ok max rmax st n seq id params :
  (0 <= max <= 2048)%Z → loop_ok max rmax st n →
  safe (allowed_effect rmax) (turn_ok max rmax st n) (handle_tool_call cfg seq id params (ls_state st) (ls_pending st)).
Proof.
  intros Hmax (Hb & Hm & Hr & Hp & Hc & Hi & Hn). unfold handle_tool_call, saturating_add, u64_max, MAX_INTERNAL_CALLS_PER_RUN in *.
  destruct (is_internal id) eqn:Hint; cbn [negb andb].
  - case_bool_decide as Hover; cbn in Hover; [cbn; apply push_ok; cbn; try done; unfold u64_max, MAX_INTERNAL_CALLS_PER_RUN; lia|].
    destruct (try_parse_local_provider_call id) as [[local|]|err]; cbn [safe];
      apply push_ok; cbn; try done; try apply local_call_permitted; try apply tool_call_permitted;
      try (destruct (asks_host _)); unfold u64_max, MAX_INTERNAL_CALLS_PER_RUN; lia.
  - case_bool_decide as Hover; cbn in Hover.
    + apply safe_bind. unfold reject_tool_call_over_budget. apply safe_bind, write_safe; [done| |done]. cbn.
      unfold turn_ok, loop_ok. cbn. rewrite no_new_calls by done. unfold u64_max, MAX_INTERNAL_CALLS_PER_RUN. split_and!; try done; lia.
    + destruct (try_parse_local_provider_call id) as [[local|]|err]; cbn [safe];
      apply push_ok; cbn; try done; try apply local_call_permitted; try apply tool_call_permitted;
      try (destruct (asks_host _)); unfold u64_max, MAX_INTERNAL_CALLS_PER_RUN; lia.
Qed.

Lemma drive_event_ok max rmax st n start ev :
  (0 <= max <= 2048)%Z → loop_ok max rmax st n →
  safe (allowed_effect rmax) (turn_ok max rmax st n) (drive_event cfg start st ev).
Proof.
  intros Hmax Hok. pose proof Hok as (Hb & Hm & Hr & Hp & Hc & Hi & Hn).
  destruct ev as [| |b e|[msg|e]|i r x y]; cbn [drive_event]; try (split; [done|]; intros []; cbn; by try destruct (_ && _)).
  - destruct msg as [seq id params|seq path content ct|seq name input|seq name|seq value|v logs|e]; cbn [handle_message].
    + by apply tool_call_ok.
    + apply continue_ok; [done|by apply artifact_safe].
    + apply continue_ok; [done|by apply snippet_safe].
    + apply continue_ok; [done|by apply step_begin_safe].
    + apply continue_ok; [done|by apply step_result_safe].
    + by destruct (ls_pending st); repeat split.
    + by repeat split.
  - destruct (ls_pending st !! i) as [c|] eqn:Hi'; cbn; [|unfold loop_ok; rewrite no_new_calls by done; split_and!; try done; lia].
    apply safe_bind. rewrite <- Hr. eapply safe_mono; [|by apply completed_safe]. intros [s'|e]; [|done].
    intros (Hb' & Hce & Hie & Hme & Hre). cbn. unfold loop_ok. cbn. rewrite no_new_calls.
    2: { cbn. rewrite length_delete by eauto. lia. }
    rewrite Hce, Hie, Hme, Hre. split_and!; try done; try lia.
    rewrite (delete_Permutation _ _ _ Hi') in Hp. by apply Forall_cons in Hp as [_ Hp].
Qed.

(** ** What an execution spends

    The resources with a limit per execution, what an effect spends of them,
    and the counter the code keeps. *)
Inductive Resource := Snippets | SnippetCode | Steps | StepValues.

Definition cost (k : Resource) (e : DriveE) : Z :=
  match k, e with
  | Snippets, HostResolveSnippet _ _ => 1
  | SnippetCode, WriteBy (SnippetResolved _ code _) => Z.of_nat (String.length code)
  | Steps, HostDecideStep _ _ => 1
  | StepValues, HostRecordStep _ _ v => json_len v
  | _, _ => 0
  end%Z.
Definition spent (k : Resource) (tr : list (step_of drive_resp)) : Z := foldr (fun s acc => cost k (projT1 s) + acc)%Z 0%Z tr.

Definition counter (k : Resource) (s : DriveState) : Z :=
  match k with
  | Snippets => ds_snippet_resolves s
  | SnippetCode => ds_snippet_resolved_bytes s
  | Steps => ds_next_step_ordinal s
  | StepValues => ds_step_value_bytes s
  end.
Definition limit (k : Resource) : Z :=
  match k with
  | Snippets => MAX_SNIPPET_RESOLVES_PER_RUN
  | SnippetCode => MAX_SNIPPET_RESOLVED_BYTES_PER_RUN
  | Steps => MAX_STEPS_PER_RUN
  | StepValues => MAX_STEP_VALUE_BYTES_PER_RUN
  end.

Lemma spent_app k a b : spent k (a ++ b) = (spent k a + spent k b)%Z.
Proof. unfold spent. induction a as [|x a IH]; cbn [app foldr]; [lia|]. rewrite IH. lia. Qed.

(** A part of the program spends nothing, or stays within the limit with what
    the counter already shows, and the counter keeps up with it. *)
Definition spends (s : DriveState) (tr : list (step_of drive_resp)) (r : result DriveState CodeModeExecutionError) : Prop :=
  ∀ k, (spent k tr = 0 ∨ counter k s + spent k tr <= limit k)%Z ∧ ∀ s', r = Ok s' → (counter k s + spent k tr <= counter k s')%Z.

Lemma json_len_nonneg v : (0 <= json_len v)%Z.
Proof. unfold json_len, Str.len. lia. Qed.

Lemma write_spent m s : always (write_runner_input_by_deadline m s) (fun tr _ => ∀ k, spent k tr = cost k (WriteBy m)).
Proof. intros [[[]|e]|]; [..|intros []]; intros k; unfold spent; destruct k; cbn; lia. Qed.

Lemma reply_spends s s' m pre :
  (∀ k, (spent k pre + cost k (WriteBy m) = 0 ∨ counter k s + (spent k pre + cost k (WriteBy m)) <= limit k)%Z ∧
        (counter k s + (spent k pre + cost k (WriteBy m)) <= counter k s')%Z) →
  always (reply m s') (fun tr r => spends s (pre ++ tr) r).
Proof.
  intros Hk. eapply always_try_spec; [apply write_spent| |].
  - intros tr u Ht k. cbn [app]. rewrite app_nil_r, spent_app, Ht. destruct (Hk k) as [H1 H2]. split; [done|]. by intros ? [= <-].
  - intros tr e Ht k. rewrite spent_app, Ht. destruct (Hk k) as [H1 _]. split; [done|]. by intros ? [=].
Qed.

Ltac settle_accounts :=
  intros []; cbn in *;
  unfold saturating_add, u64_max, MAX_SNIPPET_RESOLVES_PER_RUN, MAX_SNIPPET_RESOLVED_BYTES_PER_RUN, MAX_STEPS_PER_RUN,
    MAX_STEP_VALUE_BYTES_PER_RUN in *; lia.

Lemma step_begin_spends s seq name : in_budget s → always (handle_step_begin_event cfg seq name s) (spends s).
Proof.
  intros (Hs & Hn & Hv & Hc & _). unfold handle_step_begin_event, allocate_step.
  case_bool_decide; [apply (reply_spends s s _ []); settle_accounts|].
  destruct (cfg_has_host cfg); cbn [pbind]; [intros [v| |k m]|]; first [apply (reply_spends s _ _ [_])|apply (reply_spends s _ _ [])]; settle_accounts.
Qed.

Lemma step_result_spends s seq value : in_budget s → always (handle_step_result_event cfg seq value s) (spends s).
Proof.
  intros (Hs & Hn & Hv & Hc & _). pose proof (json_len_nonneg value) as Hl. unfold handle_step_result_event, complete_step.
  destruct (ds_step_ordinals s !! seq) as [[o name]|]; [|apply (reply_spends s s _ []); settle_accounts].
  case_bool_decide; [apply (reply_spends s _ _ []); settle_accounts|].
  case_bool_decide; [apply (reply_spends s _ _ []); settle_accounts|].
  destruct (cfg_has_host cfg); cbn [pbind]; [intros [[]|e]|]; first [apply (reply_spends s _ _ [_])|apply (reply_spends s _ _ [])]; settle_accounts.
Qed.

Lemma snippet_spends s seq name input : in_budget s → always (handle_snippet_resolve_event cfg seq name input s) (spends s).
Proof.
  intros (Hs & Hn & Hv & Hc & _). unfold handle_snippet_resolve_event, resolve_snippet_for_runner.
  destruct (negb _); [apply (reply_spends s s _ []); settle_accounts|].
  destruct (is_scoped _); [apply (reply_spends s s _ []); settle_accounts|].
  destruct (negb _); [apply (reply_spends s s _ []); settle_accounts|].
  case_bool_decide; [apply (reply_spends s s _ []); settle_accounts|].
  intros [[r|e]|]; cbn [pbind].
  - case_bool_decide; apply (reply_spends s _ _ [_]); settle_accounts.
  - apply (reply_spends s _ _ [_]); settle_accounts.
  - intros [] k. split; [revert k; settle_accounts|by intros ? [=]].
Qed.

(** The other handlers spend nothing and leave the counters alone. *)
Definition frugal (s : DriveState) (tr : list (step_of drive_resp)) (r : result DriveState CodeModeExecutionError) : Prop :=
  ∀ k, spent k tr = 0%Z ∧ ∀ s', r = Ok s' → counter k s' = counter k s.
Lemma frugal_spends s tr r : frugal s tr r → spends s tr r.
Proof. intros Hf k. destruct (Hf k) as [-> He]. split; [by left|]. intros s' Hs. rewrite (He s' Hs). lia. Qed.

Lemma write_frugal s m (f : DriveState) s1 :
  (∀ k, cost k (WriteBy m) = 0%Z) → (∀ k, counter k f = counter k s) →
  always (let!? _ := write_runner_input_by_deadline m s1 in ret_ok f) (frugal s).
Proof.
  intros Hm Hf. eapply always_try_spec; [apply write_spent| |].
  - intros tr u Ht k. rewrite app_nil_r, Ht. split; [apply Hm|]. by intros ? [= <-].
  - intros tr e Ht k. rewrite Ht. split; [apply Hm|]. by intros ? [=].
Qed.

Lemma completed_frugal c r x y s : always (handle_completed_tool_call c r x y s) (frugal s).
Proof.
  unfold handle_completed_tool_call.
  assert (Hrec : ∀ b e ui k, counter k (if is_internal (pd_id c) then s else push_call (pd_seq c) (mkExecuted (pd_id c) b x (Some y) (pd_params c) e ui) s)
     = counter k s) by (intros; by destruct (is_internal (pd_id c)), k).
  destruct r as [o|e]; [case_bool_decide|]; apply write_frugal; try (by intros []); intros k; apply Hrec.
Qed.

Lemma artifact_frugal seq request s : always (handle_artifact_write_event cfg seq request s) (frugal s).
Proof.
  assert (Hw : ∀ s' pre, (∀ k, spent k pre = 0%Z) → (∀ k, counter k s' = counter k s) →
    always (handle_artifact_write cfg seq request s') (fun tr r => frugal s (pre ++ tr) r)).
  { intros s' pre Hpre Hs'. assert (Hf : ∀ tr r, (∀ k, spent k tr = 0%Z) → (∀ s1, r = Ok s1 → ∀ k, counter k s1 = counter k s) → frugal s (pre ++ tr) r).
    { intros tr r Ht Hr k. rewrite spent_app, Hpre, Ht. split; [done|]. intros s1 E. by apply Hr. }
    intros [[receipt|e]|]; [intros elapsed [[[]|e']|]|intros elapsed [[[]|e']|]|]; cbn [always pbind];
      [|intros []|intros []| |intros []|intros []|intros []]; apply Hf; try (by intros []); try (by intros ? [=]);
      intros ? [= <-] k; rewrite <- Hs'; by destruct k. }
  unfold handle_artifact_write_event. destruct (ds_artifact_store_pruned s); [by apply (Hw s [])|].
  intros [[]|]; [apply (Hw (set_pruned s) [_]); by intros []|]. intros [] k. split; [by destruct k|by intros ? [=]].
Qed.

(** A turn of the loop. *)
Definition turn_spends (st : LoopState) (tr : list (step_of drive_resp)) (o : LoopState + DriveOutcome) : Prop :=
  ∀ k, (spent k tr = 0 ∨ counter k (ls_state st) + spent k tr <= limit k)%Z ∧
       ∀ st', o = inl st' → (counter k (ls_state st) + spent k tr <= counter k (ls_state st'))%Z.

Lemma continue_spends st pending p :
  always p (spends (ls_state st)) → always (continue_with pending p) (turn_spends st).
Proof.
  intros Hp. eapply always_bind_spec; [exact Hp|]. intros tr r Hr k. rewrite app_nil_r. destruct (Hr k) as [H1 H2].
  split; [done|]. intros st' E. destruct r as [s'|e]; [|done]. injection E as <-. by apply H2.
Qed.

Lemma drive_event_spends start st ev : in_budget (ls_state st) → always (drive_event cfg start st ev) (turn_spends st).
Proof.
  intros Hb. assert (Hstay : ∀ tr (o : LoopState + DriveOutcome), (∀ k, spent k tr = 0%Z) →
    (∀ st', o = inl st' → ∀ k, counter k (ls_state st') = counter k (ls_state st)) → turn_spends st tr o).
  { intros tr o Ht Ho k. rewrite Ht. split; [by left|]. intros st' E. rewrite (Ho st' E). lia. }
  destruct ev as [| |b e|[msg|e]|i r x y]; cbn [drive_event].
  4: destruct msg as [seq id params|seq path content ct|seq name input|seq name|seq value|v logs|e]; cbn [handle_message].
  all: try (intros []; apply Hstay; [by intros []|by intros ? [=]]).
  - intros []. apply Hstay; [by intros []|]. by destruct (_ && _).
  - assert (Hpush : ∀ a b c, turn_spends st [] (inl (mkLoop (set_enqueued a b (ls_state st)) (ls_pending st ++ [c]) false))).
    { intros a b c. apply Hstay; [by intros []|]. intros st' E. injection E as <-. by intros []. }
    unfold handle_tool_call. destruct (is_internal id); cbn [negb andb]; case_bool_decide; try apply Hpush;
      try (destruct (try_parse_local_provider_call id) as [[local|]|err]; apply Hpush).
    eapply always_bind_spec; [apply (write_frugal (ls_state st)); by intros []|].
    intros tr r Hr. cbn [always]. rewrite app_nil_r. apply Hstay; [intros k; apply Hr|]. intros st' E k.
    destruct r as [s'|e]; [|done]. injection E as <-. by apply Hr.
  - apply continue_spends. eapply always_mono; [apply artifact_frugal|]. intros tr r. apply frugal_spends.
  - by apply continue_spends, snippet_spends.
  - by apply continue_spends, step_begin_spends.
  - by apply continue_spends, step_result_spends.
  - destruct (ls_pending st); [intros [] captured|intros []]; (apply Hstay; [by intros []|by intros ? [=]]).
  - intros [] []. apply Hstay; [by intros []|by intros ? [=]].
  - destruct (ls_pending st !! i) as [c|]; [|apply Hstay; [by intros []|by intros ? [= <-]]].
    eapply always_bind_spec; [apply completed_frugal|]. intros tr r' Hr. cbn [always]. rewrite app_nil_r. apply Hstay; [intros k; apply Hr|].
    intros st' E k. destruct r' as [s'|e]; [|done]. injection E as <-. by apply Hr.
Qed.

(** The states of the loop of an execution, with the number of calls that reach
    the host and the effects performed so far. *)
Inductive drive_reach (start : nat) (init : DriveState) : LoopState → Z → list (step_of drive_resp) → Prop :=
| reach_init : drive_reach start init (mkLoop init [] false) 0 []
| reach_event st n hist ev tr st' :
    drive_reach start init st n hist → paths (drive_event cfg start st ev) tr (inl st') →
    drive_reach start init st' (n + new_calls st st') (hist ++ tr).

Lemma reach_ok start root amax max rmax st n hist :
  (0 <= max <= 2048)%Z → drive_reach start (drive_state_new root amax max rmax) st n hist → loop_ok max rmax st n.
Proof.
  intros Hmax Hr. induction Hr as [|st n hist ev tr st' _ IH Hp].
  - unfold loop_ok, in_budget, MAX_SNIPPET_RESOLVES_PER_RUN, MAX_STEPS_PER_RUN, MAX_STEP_VALUE_BYTES_PER_RUN, u64_max, MAX_INTERNAL_CALLS_PER_RUN.
    cbn. split_and!; try done; lia.
  - apply (safe_paths _ _ _ _ _ (drive_event_ok max rmax st n start ev Hmax IH)) in Hp. apply Hp.
Qed.

Lemma turn_total st hist tr o k :
  turn_spends st tr o → (spent k hist <= counter k (ls_state st))%Z → (spent k hist <= limit k)%Z →
  (spent k (hist ++ tr) <= limit k)%Z.
Proof. intros Ht Hc Hl. rewrite spent_app. destruct (Ht k) as [[->|H1] _]; lia. Qed.

Lemma reach_spent start root amax max rmax st n hist k :
  (0 <= max <= 2048)%Z → drive_reach start (drive_state_new root amax max rmax) st n hist →
  (spent k hist <= counter k (ls_state st))%Z ∧ (spent k hist <= limit k)%Z.
Proof.
  intros Hmax Hr. induction Hr as [|st n hist ev tr st' Hr [IHc IHl] Hp].
  - by destruct k; unfold limit, MAX_SNIPPET_RESOLVES_PER_RUN, MAX_SNIPPET_RESOLVED_BYTES_PER_RUN, MAX_STEPS_PER_RUN,
      MAX_STEP_VALUE_BYTES_PER_RUN.
  - apply reach_ok in Hr as (Hb & _); [|done].
    pose proof (proj1 (always_paths _ _) (drive_event_spends start st ev Hb) _ _ Hp) as Ht.
    split; [|by eapply turn_total]. rewrite spent_app. destruct (Ht k) as [_ H2]. specialize (H2 st' eq_refl). lia.
Qed.
End Limits.

Lemma max_calls_range env config_default : (1 <= max_calltool_per_run env config_default <= 2048)%Z.
Proof.
  unfold max_calltool_per_run, DEFAULT_MAX_CALLTOOL_PER_RUN, MAX_CALLTOOL_PER_RUN_CEILING.
  destruct (env_non_empty _ _) as [raw|]; [destruct (parse_uint _ _)|destruct config_default]; try lia; case_bool_decide; lia.
Qed.

Lemma describe_paths cfg params tr dts :
  paths (dispatch_internal_call cfg "describe_types" params) tr (Answered (Ok (VObject [("dts", VString dts)]))) →
  ∃ include_snippets use_cache entries entry,
    tr = [existT (ListTools (cfg_caller cfg) (cfg_surface cfg) (cfg_capability_filter cfg) include_snippets use_cache)
                 (Answered (Ok entries))] ∧
    entry ∈ entries ∧ td_dts entry = dts ∧ discovery_entry_visible entry (cfg_capability_filter cfg) = true.
Proof.
  unfold dispatch_internal_call. destruct (negb (cfg_has_host cfg)); [by intros [_ [=]]%paths_inv|]. cbn [String.eqb Ascii.eqb Bool.eqb].
  destruct (_ ≫= as_str) as [[|a id]|]; [by intros [_ [=]]%paths_inv| |by intros [_ [=]]%paths_inv].
  intros (r & tr1 & -> & Hp)%paths_inv. apply paths_inv in Hp as [-> Hr].
  destruct r as [[entries|e]| |]; cbn in Hr; try done. destruct (described_types entries _ _) as [d|] eqn:Hd; [|done]. injection Hr as <-.
  apply described_visible in Hd as (entry & Hin & Hdts & Hv). by eexists _, _, entries, entry.
Qed.

(** (C20) A program in the sandbox cannot exceed its mandate.  Whatever messages
    it sends, in whatever order calls complete: at most the configured number
    of tool calls and 32 more calls are ever passed on, every call to the host
    names a tool inside the scope of the execution and carries the caller of
    the execution, the local providers are reached only for an unscoped
    administrator, rankings and descriptions are asked for with the caller and
    the scope of the execution, and a description shows the types of an entry
    inside that scope.  Over the whole execution, including its last turn, the
    host is asked for at most 32 snippets, for callers that may use them, and
    at most 256 KiB of their code reach the program; at most 256 steps are put
    to the host, and at most 8 MiB of step values, each of at most 256 KiB, are
    recorded; and no result larger than the cap is sent to the runner, receipts
    of artifacts apart. *)
Theorem calls_within_mandate cfg start env config_default root amax rmax st n hist :
  drive_reach cfg start (drive_state_new root amax (max_calltool_per_run env config_default) rmax) st n hist →
  (n <= max_calltool_per_run env config_default + 32)%Z ∧
  Forall (fun c => only (permitted cfg) (pd_future c)) (ls_pending st) ∧
  (∀ ev tr o, paths (drive_event cfg start st ev) tr o →
     Forall (fun e => allowed_effect cfg rmax (projT1 e)) tr ∧
     (spent Snippets (hist ++ tr) <= MAX_SNIPPET_RESOLVES_PER_RUN)%Z ∧
     (spent SnippetCode (hist ++ tr) <= MAX_SNIPPET_RESOLVED_BYTES_PER_RUN)%Z ∧
     (spent Steps (hist ++ tr) <= MAX_STEPS_PER_RUN)%Z ∧
     (spent StepValues (hist ++ tr) <= MAX_STEP_VALUE_BYTES_PER_RUN)%Z) ∧
  (∀ params tr dts, paths (dispatch_internal_call cfg "describe_types" params) tr (Answered (Ok (VObject [("dts", VString dts)]))) →
     ∃ include_snippets use_cache entries entry,
       tr = [existT (ListTools (cfg_caller cfg) (cfg_surface cfg) (cfg_capability_filter cfg) include_snippets use_cache)
                    (Answered (Ok entries))] ∧
       entry ∈ entries ∧ td_dts entry = dts ∧ discovery_entry_visible entry (cfg_capability_filter cfg) = true).
Proof.
  intros Hreach. pose proof (max_calls_range env config_default) as Hmax.
  assert (Hm : (0 <= max_calltool_per_run env config_default <= 2048)%Z) by lia.
  pose proof (reach_ok _ _ _ _ _ _ _ _ _ Hm Hreach) as Hr.
  pose proof Hr as (Hb & _ & _ & Hp & _ & _ & Hn). unfold MAX_INTERNAL_CALLS_PER_RUN in Hn. split_and!; try done; [lia| |apply describe_paths].
  intros ev tr o Hpaths. split; [apply (safe_paths _ _ _ _ _ (drive_event_ok cfg _ _ _ _ start ev Hm Hr) Hpaths)|].
  pose proof (proj1 (always_paths _ _) (drive_event_spends cfg start st ev Hb) _ _ Hpaths) as Ht.
  assert (∀ k, spent k (hist ++ tr) <= limit k)%Z as Hk.
  { intros k. destruct (reach_spent cfg _ _ _ _ _ _ _ _ k Hm Hreach) as [Hc Hl]. by eapply turn_total. }
  split_and!; [apply (Hk Snippets)|apply (Hk SnippetCode)|apply (Hk Steps)|apply (Hk StepValues)].
Qed.
End Safe.

(** ** Examples *)

#[local] Existing Instance sample_platform.
#[local] Existing Instance sample_code_mode.

Definition scoped_run : RunnerConfig :=
  mkRunnerConfig "code" "" (ScopedCaller (mkCapabilities true false false) (Some "alice")) SurfaceMcp 100 1000 true
    (mkToolScope (Some ["github"]) []) None true.
Definition budget_state : DriveState := drive_state_new "/artifacts" 100 (max_calltool_per_run (fun _ => None) None) 1000.

Definition turn_of (msg : RunnerOutput) (st : LoopState) : LoopState :=
  match drive_event scoped_run 0 st (LineRead (Ok msg)) with Ret (inl st) => st | _ => st end.
Definition after_search : LoopState := turn_of (ToolCall 0 "github::search" VNull) (mkLoop budget_state [] false).
Definition after_both : LoopState := turn_of (ToolCall 1 "state::write" VNull) after_search.

(** An identifier with a space before it is dispatched to the reserved tools but
    counted as an ordinary call, so the ceiling of 32 does not hold for it. *)
Example padded_internal_call params :
  is_internal " __lab_internal::semantic_rank" = false ∧
  ∃ query limit k, call_tool_id_before_deadline scoped_run " __lab_internal::semantic_rank" params (mkExecCtx 0 None None)
    = Vis (SemanticRank query limit (cfg_caller scoped_run) SurfaceMcp (cfg_capability_filter scoped_run)) k.
Proof. split; [reflexivity|]. by eexists _, _, _. Qed.

(** A call that is passed on and one to a local provider, which is refused. *)
Lemma calls_within_mandate_witness :
  drive_reach scoped_run 0 budget_state after_both 1 [] ∧ length (ls_pending after_both) = 2 ∧
  (1 <= max_calltool_per_run (fun _ => None) None + 32)%Z.
Proof.
  assert (Hr : drive_reach scoped_run 0 budget_state after_both 1 []).
  { replace 1%Z with (0 + new_calls (mkLoop budget_state [] false) after_search + new_calls after_search after_both)%Z
      by (vm_compute; reflexivity).
    apply (reach_event _ _ _ _ _ [] (LineRead (Ok (ToolCall 1 "state::write" VNull))) []); [|vm_compute; constructor].
    apply (reach_event _ _ _ _ _ [] (LineRead (Ok (ToolCall 0 "github::search" VNull))) []); [|vm_compute; constructor].
    apply reach_init. }
  split; [exact Hr|]. split; [vm_compute; reflexivity|].
  exact (proj1 (calls_within_mandate _ _ _ _ _ _ _ _ _ _ Hr)).
Defined.
