(* ===== verification/RunnerLoop.v ===== *)
(** * RunnerLoop: the runner process, and a process that serves many executions

    [labby-codemode/src/runner.rs]: the process reads a [Start], runs the
    program in a fresh JavaScript runtime, emits its requests, feeds it the
    replies, reports [Done] or [Error], and waits for the next [Start].  The
    JavaScript engine is a parameter.  [sys_step] composes one pooled process
    with the host that drives execution after execution over it
    ([run_via_pool]): the pipes are queues of messages, and each message carries
    the number of the execution it belongs to, which only the statements look
    at. *)

From Stdlib Require Import Ascii.
From stdpp Require Import base list gmap strings pretty relations.
From S2P Require Import Prelude RustStr Prog AuthTypes Paths Upstream Redact CodeModeCalls RunnerDrive.

(** ** JavaScript *)

Inductive JsRequest :=
| JsCallTool (id : string) (params : Value)
| JsWriteArtifact (path content : string) (content_type : option string)
| JsResolveSnippet (name : string) (input : Value)
| JsStepBegin (name : string).

(** What a program does next.  A request is given its sequence number or a
    [TypeError]; the result of a step is sent under the number of its
    beginning. *)
Inductive JsView (S : Type) :=
| JsRequests (r : JsRequest) (k : result Z string → S)
| JsStepResult (seq : Z) (value : Value) (k : S)
| JsResolved (v : option Value)
| JsRejected (message : string)
| JsEvalFailed (message : string)
| JsFault (message : string)
| JsPending (k : RunnerInput → S).
Arguments JsRequests {S} r k.
Arguments JsStepResult {S} seq value k.
Arguments JsResolved {S} v.
Arguments JsRejected {S} message.
Arguments JsEvalFailed {S} message.
Arguments JsFault {S} message.
Arguments JsPending {S} k.

(** The engine, on the program with its proxy, and the JSON library: the value of
    a text, and the field [tool] of a value that decodes as an error. *)
Class JsEngine := {
  JsState : Type;
  js_start : string → string → JsState;
  js_view : JsState → JsView JsState;
  json_value : string → option Value;
  wire_error_tool : Value → option (option string);
}.

(** ** Rejections *)

Fixpoint find_char (c : ascii) (s : string) : option nat :=
  match s with
  | EmptyString => None
  | String a r => if Ascii.eqb a c then Some 0 else S <$> find_char c r
  end.
Fixpoint rfind_char (c : ascii) (s : string) : option nat :=
  match s with
  | EmptyString => None
  | String a r => match rfind_char c r with
                  | Some n => Some (S n)
                  | None => if Ascii.eqb a c then Some 0 else None
                  end
  end.

Definition add_code_mode_hint (message : string) : string :=
  let hints :=
    (if Str.contains " is not defined" message || Str.contains "not defined" message
     then ["Available globals: codemode, codemode.run, codemode.search, codemode.describe, codemode.step, callTool, writeArtifact. Node/Deno globals such as require, process, fs, fetch, and Bun are not available in the sandbox."]
     else [])
    ++ (if (Str.contains " is not a function" message || Str.contains "not a function" message) && Str.contains "codemode" message
        then ["Use await codemode.search(" +:+ in_quotes "..." +:+ ") or await codemode.describe(" +:+ in_quotes "..." +:+ ") to find the exact helper name."]
        else []) in
  match hints with
  | [] => message
  | _ => message +:+ String "010" (String "010" "Hint: ") +:+ Str.join " " hints
  end.

Section Runner.
Context `{JsEngine}.

Definition extract_structured_error (message : string) : option CodeModeCallError :=
  first ← find_char "{" message;
  last ← rfind_char "}" message;
  if last <? first then None
  else
    value ← json_value (String.substring first (S last - first) message);
    kind ← value_get "kind" value ≫= as_str;
    human_message ← value_get "message" value ≫= as_str;
    Some match wire_error_tool value with
         | Some tool => mkCallError kind human_message tool
         | None => call_error_new kind human_message
         end.

Definition classify_rejection (message : string) : CodeModeCallError :=
  match extract_structured_error message with
  | Some error => error
  | None =>
      if Str.contains "JSON-serializable" message then call_error_new "invalid_param" message
      else call_error_new "server_error" (add_code_mode_hint message)
  end.

(** ** The process *)

Inductive RunnerSt :=
| Parked
| Running (execution : nat) (next_seq : Z) (js : JsState).

Definition is_object (v : Value) : bool := match v with VObject _ => true | _ => false end.

(** The functions the runner gives to the program. *)
Definition javy_emit (seq : Z) (r : JsRequest) : result RunnerOutput string :=
  match r with
  | JsCallTool id params =>
      if Str.is_empty (Str.trim id) then Err "callTool id must be a non-empty string"
      else if negb (is_object params) then Err "callTool params must be a JSON object"
      else Ok (ToolCall seq id params)
  | JsWriteArtifact path content content_type =>
      if Str.is_empty (Str.trim path) then Err "writeArtifact path must be a non-empty string"
      else Ok (ArtifactWrite seq path content content_type)
  | JsResolveSnippet name input =>
      if Str.is_empty (Str.trim name) then Err "snippet name must be a non-empty string"
      else if negb (is_object input) then Err "snippet input must be a JSON object"
      else Ok (SnippetResolve seq name input)
  | JsStepBegin name =>
      if Str.is_empty (Str.trim name) then Err "codemode.step name must be a non-empty string"
      else Ok (StepBegin seq name)
  end.

(** One turn: [inl] needs the next input; otherwise the next state and the line
    that is written. *)
Definition run_code_mode_runner (st : RunnerSt) :
  (nat → RunnerInput → RunnerSt * option (nat * RunnerOutput)) + (RunnerSt * option (nat * RunnerOutput)) :=
  match st with
  | Parked =>
      inl (fun execution input =>
        match input with
        | Start code proxy => (Running execution 0 (js_start code proxy), None)
        | _ => (Parked, Some (execution, RunnerError (call_error_new "server_error" "runner expected start message")))
        end)
  | Running e seq js =>
      match js_view js with
      | JsRequests r k =>
          inr match javy_emit seq r with
              | Ok out => (Running e (saturating_add seq 1) (k (Ok seq)), Some (e, out))
              | Err type_error => (Running e seq (k (Err type_error)), None)
              end
      | JsStepResult s value k => inr (Running e seq k, Some (e, StepResult s value))
      | JsResolved v => inr (Parked, Some (e, Done v []))
      | JsRejected message => inr (Parked, Some (e, RunnerError (classify_rejection message)))
      | JsEvalFailed message => inr (Parked, Some (e, RunnerError (call_error_new "invalid_param" message)))
      | JsFault message => inr (Parked, Some (e, RunnerError (call_error_new "server_error" message)))
      | JsPending k => inl (fun _ input => (Running e seq (k input), None))
      end
  end.

(** ** The host and the process *)

Context `{CodeModePlatform}.

(** The host's side: the lease is returned to the pool ([Idle]), the loop waits
    ([Select]) or handles an event, or the process was evicted. *)
Inductive Parent :=
| Idle
| Select (cfg : RunnerConfig) (stderr_start : nat) (st : LoopState)
| Handle (cfg : RunnerConfig) (stderr_start : nat) (p : prog drive_resp (LoopState + DriveOutcome))
| Evicted.

Record Sys := mkSys {
  sy_execution : nat;
  sy_parent : Parent;
  sy_stdin : list (nat * RunnerInput);
  sy_stdout : list (nat * RunnerOutput);
  sy_runner : RunnerSt;
}.

(** The message that a successful write puts into the pipe.  After a failed one
    the process is evicted, so what it may have received does not matter. *)
Definition sent (e : DriveE) : drive_resp e → option RunnerInput :=
  match e return drive_resp e → option RunnerInput with
  | Write m => fun r => match r with Ok _ => Some m | Err _ => None end
  | WriteBy m => fun r => match r with Some (Ok _) => Some m | _ => None end
  | _ => fun _ => None
  end.

(** [run_via_pool]. *)
Definition after (o : LoopState + DriveOutcome) (cfg : RunnerConfig) (stderr_start : nat) : Parent :=
  match o with
  | inl st => Select cfg stderr_start st
  | inr (Completed _) | inr (ExecutionError _) => Idle
  | inr (RunnerUnhealthy _) => Evicted
  end.

Definition fault (ev : DriveEvent) : bool :=
  match ev with LineTimeout | LineEof | LineFailed _ _ | LineRead (Err _) => true | _ => false end.

Variable allowed : RunnerConfig → Prop.

Inductive sys_step : Sys → Sys → Prop :=
| sys_start n stdin stdout runner cfg init tr stderr_start r :
    allowed cfg → paths (drive_start cfg init) tr (stderr_start, r) →
    sys_step (mkSys n Idle stdin stdout runner)
      (mkSys (S n) (after r cfg stderr_start) (stdin ++ ((fun m => (S n, m)) <$> omap (fun '(existT e x) => sent e x) tr)) stdout runner)
| sys_effect n cfg start e k x stdin stdout runner :
    sys_step (mkSys n (Handle cfg start (Vis e k)) stdin stdout runner)
      (mkSys n (Handle cfg start (k x)) (stdin ++ option_list ((fun m => (n, m)) <$> sent e x)) stdout runner)
| sys_handled n cfg start o stdin stdout runner :
    sys_step (mkSys n (Handle cfg start (Ret o)) stdin stdout runner) (mkSys n (after o cfg start) stdin stdout runner)
| sys_line n cfg start st stdin t msg stdout runner :
    sys_step (mkSys n (Select cfg start st) stdin ((t, msg) :: stdout) runner)
      (mkSys n (Handle cfg start (drive_event cfg start st (LineRead (Ok msg)))) stdin stdout runner)
| sys_fault n cfg start st ev stdin stdout runner :
    fault ev = true →
    sys_step (mkSys n (Select cfg start st) stdin stdout runner)
      (mkSys n (Handle cfg start (drive_event cfg start st ev)) stdin stdout runner)
| sys_call n cfg start st i c r elapsed_ms start_ms tr stdin stdout runner :
    ls_pending st !! i = Some c → paths (pd_future c) tr r →
    sys_step (mkSys n (Select cfg start st) stdin stdout runner)
      (mkSys n (Handle cfg start (drive_event cfg start st (CallDone i r elapsed_ms start_ms))) stdin stdout runner)
| sys_cancel n parent stdin stdout runner :
    sys_step (mkSys n parent stdin stdout runner) (mkSys n Evicted stdin stdout runner)
| sys_runner n parent stdin stdout runner runner' out :
    run_code_mode_runner runner = inr (runner', out) →
    sys_step (mkSys n parent stdin stdout runner) (mkSys n parent stdin (stdout ++ option_list out) runner')
| sys_input n parent t m stdin stdout runner k runner' out :
    run_code_mode_runner runner = inl k → k t m = (runner', out) →
    sys_step (mkSys n parent ((t, m) :: stdin) stdout runner) (mkSys n parent stdin (stdout ++ option_list out) runner').

Definition sys_initial : Sys := mkSys 0 Idle [] [] Parked.

End Runner.
