(* ===== verification/RunnerLoopProps.v ===== *)
(** * RunnerLoopProps: executions on a pooled process

    A pooled process keeps the executions it serves apart as long as every
    program answers for its own requests: it settles only when all of them have
    been answered.  A program that returns without awaiting a request breaks
    this, as the example at the end shows. *)

From Stdlib Require Import Ascii.
From stdpp Require Import base list gmap strings pretty relations.
From S2P Require Import Prelude RustStr Prog AuthTypes SamplePlatform Paths Upstream Redact CodeModeCalls RunnerDrive RunnerLoop.

Definition is_reply (m : RunnerInput) : bool := match m with Start _ _ => false | _ => true end.
Definition is_request (m : RunnerOutput) : bool := match m with Done _ _ | RunnerError _ => false | _ => true end.

(** ** What a program of the host still owes to the runner *)

Section Owes.
Context `{CodeModePlatform}.

(** On every path, [n] is the number of replies written plus what [Q] leaves. *)
Fixpoint owes {A} (Q : A → nat → Prop) (p : prog drive_resp A) (n : nat) : Prop :=
  match p with
  | Ret a => Q a n
  | Vis e k => ∀ x, match sent e x with
                    | Some m => is_reply m = true ∧ ∃ n', n = S n' ∧ owes Q (k x) n'
                    | None => owes Q (k x) n
                    end
  end.

Lemma owes_bind {A B} (Q : B → nat → Prop) (p : prog drive_resp A) (f : A → prog drive_resp B) n :
  owes (fun a m => owes Q (f a) m) p n → owes Q (pbind p f) n.
Proof.
  revert n. induction p as [a|e k IH]; intros n; cbn; [done|]. intros Hp x. specialize (Hp x).
  destruct (sent e x) as [m|]; [|by apply IH]. destruct Hp as (Hm & n' & -> & Hn'). split; [done|]. exists n'. split; [done|by apply IH].
Qed.

Lemma owes_mono {A} (Q R : A → nat → Prop) (p : prog drive_resp A) n :
  (∀ a m, Q a m → R a m) → owes Q p n → owes R p n.
Proof.
  intros HQR. revert n. induction p as [a|e k IH]; intros n; cbn; [apply HQR|]. intros Hp x. specialize (Hp x).
  destruct (sent e x) as [m|]; [|by apply IH]. destruct Hp as (Hm & n' & -> & Hn'). split; [done|]. exists n'. split; [done|by apply IH].
Qed.

(** A handler: [n] replies are left when it succeeds. *)
Definition left_over {A} (n : nat) (r : result A CodeModeExecutionError) (m : nat) : Prop :=
  match r with Ok _ => m = n | Err _ => True end.

Lemma owes_try {A B} n (p : prog drive_resp (result A CodeModeExecutionError)) (f : A → prog drive_resp (result B CodeModeExecutionError)) m :
  owes (left_over n) p m → (∀ a, owes (left_over n) (f a) n) → owes (left_over n) (try_bind p f) m.
Proof.
  intros Hp Hf. apply owes_bind. eapply owes_mono; [|done]. intros [a|e] k; cbn; [intros ->; apply Hf|done].
Qed.

Lemma write_owes n m s : is_reply m = true → owes (left_over n) (write_runner_input_by_deadline m s) (S n).
Proof. intros Hm [[[]|e]|]; cbn; [|done|by intros []]. split; [done|]. by exists n. Qed.

Lemma reply_owes n m s : is_reply m = true → owes (left_over n) (reply m s) (S n).
Proof. intros Hm. unfold reply. apply owes_try; [by apply write_owes|done]. Qed.

Lemma artifact_reply_owes n m s : is_reply m = true → owes (left_over n) (artifact_reply m s) (S n).
Proof. intros Hm [[[]|e]|]; cbn; [|by intros []|by intros []]. split; [done|]. by exists n. Qed.

Lemma step_begin_owes n cfg seq name s : owes (left_over n) (handle_step_begin_event cfg seq name s) (S n).
Proof.
  unfold handle_step_begin_event. destruct (allocate_step _ _ _) as [[o s1]|]; [|by apply reply_owes].
  apply owes_bind. destruct (cfg_has_host cfg); [intros [v| |k m]; cbn [sent]|]; by apply reply_owes.
Qed.

Lemma step_result_owes n cfg seq value s : owes (left_over n) (handle_step_result_event cfg seq value s) (S n).
Proof.
  unfold handle_step_result_event. destruct (complete_step _ _ _) as [[[o name]|e] s1]; [|by apply reply_owes].
  apply owes_bind. destruct (cfg_has_host cfg); [intros [[]|e]; cbn [sent]|]; by apply reply_owes.
Qed.

Lemma artifact_owes n cfg seq request s : owes (left_over n) (handle_artifact_write_event cfg seq request s) (S n).
Proof.
  assert (Hw : ∀ s, owes (left_over n) (handle_artifact_write cfg seq request s) (S n)).
  { intros s1 [[receipt|e]|]; cbn [sent]; [intros elapsed; cbn [sent pbind]..|]; [by apply artifact_reply_owes|by apply artifact_reply_owes|by intros []]. }
  unfold handle_artifact_write_event. destruct (ds_artifact_store_pruned s); [apply Hw|].
  intros [[]|]; cbn [sent pbind]; [apply Hw|by intros []].
Qed.

Lemma snippet_owes n cfg seq name input s : owes (left_over n) (handle_snippet_resolve_event cfg seq name input s) (S n).
Proof.
  unfold handle_snippet_resolve_event, resolve_snippet_for_runner.
  destruct (negb (can_use_snippets _)); [by apply reply_owes|]. destruct (is_scoped _); [by apply reply_owes|].
  destruct (negb (cfg_has_host cfg)); [by apply reply_owes|]. case_bool_decide; [by apply reply_owes|].
  intros [[r|e]|]; cbn [sent pbind]; [|by apply reply_owes|by intros []].
  case_bool_decide; by apply reply_owes.
Qed.

Lemma completed_owes n c r elapsed_ms start_ms s : owes (left_over n) (handle_completed_tool_call c r elapsed_ms start_ms s) (S n).
Proof.
  unfold handle_completed_tool_call. destruct r as [o|e].
  - case_bool_decide; [|by apply reply_owes]. apply owes_try; [by apply write_owes|done].
  - apply owes_try; [by apply write_owes|done].
Qed.

(** ** The turns of the loop *)

Definition goes_on (o : LoopState + DriveOutcome) (n : nat) : Prop :=
  match o with
  | inl st => n = length (ls_pending st)
  | inr (RunnerUnhealthy _) => True
  | inr _ => False
  end.
Definition ends (o : LoopState + DriveOutcome) (n : nat) : Prop := match o with inl _ => False | inr _ => True end.

Lemma continue_owes pending p m : owes (left_over (length pending)) p m → owes goes_on (continue_with pending p) m.
Proof. intros Hp. apply owes_bind. eapply owes_mono; [|done]. by intros [s|e] k. Qed.

Lemma request_owes cfg start msg st :
  is_request msg = true → owes goes_on (drive_event cfg start st (LineRead (Ok msg))) (S (length (ls_pending st))).
Proof.
  destruct msg as [seq id params|seq path content ct|seq name input|seq name|seq value|v logs|e]; intros Hm; try done; cbn [drive_event handle_message].
  - unfold handle_tool_call. destruct (_ && _); [cbn; rewrite length_app; cbn; lia|]. destruct (_ && _).
    + apply continue_owes. unfold reject_tool_call_over_budget. apply owes_try; [by apply write_owes|done].
    + destruct (try_parse_local_provider_call id) as [[local|]|]; cbn; rewrite length_app; cbn; lia.
  - apply continue_owes, artifact_owes.
  - apply continue_owes, snippet_owes.
  - apply continue_owes, step_begin_owes.
  - apply continue_owes, step_result_owes.
Qed.

Lemma final_owes cfg start msg st :
  is_request msg = false → ls_pending st = [] → owes ends (drive_event cfg start st (LineRead (Ok msg))) 0.
Proof.
  destruct msg; intros Hm Hp; try done; cbn [drive_event handle_message]; rewrite ?Hp; by repeat intros ?.
Qed.

Lemma fault_owes cfg start st ev n : fault ev = true → owes goes_on (drive_event cfg start st ev) n.
Proof.
  destruct ev as [| |b e|[msg|e]|i r x y]; intros Hf; try done; intros []; cbn; try done. by destruct (_ && _).
Qed.

Lemma call_owes cfg start st i c r x y :
  ls_pending st !! i = Some c → owes goes_on (drive_event cfg start st (CallDone i r x y)) (length (ls_pending st)).
Proof.
  intros Hi. cbn [drive_event]. rewrite Hi. pose proof (length_delete (ls_pending st) i ltac:(eauto)) as Hlen.
  assert (Hpos : 0 < length (ls_pending st)) by (apply lookup_lt_Some in Hi; lia).
  replace (length (ls_pending st)) with (S (length (delete i (ls_pending st)))) by lia.
  apply owes_bind. eapply owes_mono; [|apply completed_owes]. by intros [s|e] k.
Qed.
End Owes.

(** ** Programs that await their requests *)

Section Isolation.
Context `{JsEngine} `{CodeModePlatform}.

(** [good js n]: the program has [n] requests without an answer.  It settles
    only with none. *)
Record Awaits (good : JsState → nat → Prop) : Prop := {
  awaits_request js n r k : good js n → js_view js = JsRequests r k → ∀ seq, good (k (Ok seq)) (S n);
  awaits_type_error js n r k : good js n → js_view js = JsRequests r k → ∀ e, good (k (Err e)) n;
  awaits_step js n seq v k : good js n → js_view js = JsStepResult seq v k → good k (S n);
  awaits_input js n k : good js (S n) → js_view js = JsPending k → ∀ m, good (k m) n;
  awaits_settled js n : good js n →
    match js_view js with JsResolved _ | JsRejected _ | JsEvalFailed _ | JsFault _ => n = 0 | _ => True end;
}.

Context (good : JsState → nat → Prop) (Hgood : Awaits good).
Context (allowed : RunnerConfig → Prop).
Hypothesis Hallowed : ∀ cfg, allowed cfg → good (js_start (cfg_code_to_run cfg) (cfg_proxy cfg)) 0.

(** The process and its pipes while the host owes [n] replies. *)
Inductive run_inv (e n : nat) : list (nat * RunnerInput) → list (nat * RunnerOutput) → RunnerSt → Prop :=
| run_starting code proxy : n = 0 → good (js_start code proxy) 0 → run_inv e n [(e, Start code proxy)] [] Parked
| run_running seq js stdin stdout :
    good js (length stdin + length stdout + n) → Forall (fun m => m.1 = e ∧ is_reply m.2 = true) stdin →
    Forall (fun m => m.1 = e ∧ is_request m.2 = true) stdout → run_inv e n stdin stdout (Running e seq js)
| run_settled msg : n = 0 → is_request msg = false → run_inv e n [] [(e, msg)] Parked.

Definition sys_inv (s : Sys) : Prop :=
  let e := sy_execution s in
  match sy_parent s with
  | Evicted => True
  | Idle => sy_stdin s = [] ∧ sy_stdout s = [] ∧ sy_runner s = Parked
  | Select _ _ st => run_inv e (length (ls_pending st)) (sy_stdin s) (sy_stdout s) (sy_runner s)
  | Handle _ _ p =>
      (∃ n, owes goes_on p n ∧ run_inv e n (sy_stdin s) (sy_stdout s) (sy_runner s))
      ∨ (owes ends p 0 ∧ sy_stdin s = [] ∧ sy_stdout s = [] ∧ sy_runner s = Parked)
  end.

(** A program of the host that goes on. *)
Lemma after_inv s o cfg start n : 
  goes_on o n → run_inv (sy_execution s) n (sy_stdin s) (sy_stdout s) (sy_runner s) →
  sys_inv (mkSys (sy_execution s) (after o cfg start) (sy_stdin s) (sy_stdout s) (sy_runner s)).
Proof. destruct o as [st|[r|e|e]]; cbn; [by intros ->|done|done|done]. Qed.

Lemma emitted_request seq r msg : javy_emit seq r = Ok msg → is_request msg = true.
Proof. destruct r; cbn; repeat case_match; by intros [= <-]. Qed.

(** The runner's steps keep the accounts. *)
Lemma runner_inv e n stdin stdout runner runner' out :
  run_inv e n stdin stdout runner → run_code_mode_runner runner = inr (runner', out) →
  run_inv e n stdin (stdout ++ option_list out) runner'.
Proof.
  intros [code proxy Hn Hg|seq js stdin' stdout' Hg Hin Hout|msg Hn Hm]; cbn; [done| |done].
  pose proof (awaits_settled _ Hgood _ _ Hg) as Hz.
  destruct (js_view js) as [r k|sq v k|v|msg|msg|msg|k] eqn:Hv; intros Hr; try done.
  3-6: injection Hr as <- <-; destruct stdin', stdout'; cbn in Hz; try lia; by apply run_settled.
  - destruct (javy_emit seq r) as [msg|e'] eqn:Hj; injection Hr as <- <-; cbn.
    + apply run_running; [|done|apply Forall_app; split; [done|]]; [|by repeat constructor; eapply emitted_request].
      rewrite length_app. replace (_ + _ + _) with (S (length stdin' + length stdout' + n)) by (cbn; lia). by eapply awaits_request.
    + rewrite app_nil_r. apply run_running; [|done|done]. by eapply awaits_type_error.
  - injection Hr as <- <-. apply run_running; [|done|apply Forall_app; split; [done|by repeat constructor]].
    rewrite length_app. replace (_ + _ + _) with (S (length stdin' + length stdout' + n)) by (cbn; lia). by eapply awaits_step.
Qed.

Lemma input_inv e n t m stdin stdout runner k runner' out :
  run_inv e n ((t, m) :: stdin) stdout runner → run_code_mode_runner runner = inl k → k t m = (runner', out) →
  run_inv e n stdin (stdout ++ option_list out) runner'.
Proof.
  intros Hinv. inversion Hinv as [code proxy Hn Hg|seq js stdin' stdout' Hg Hin Hout|]; subst; cbn.
  - intros [= <-] [= <- <-]. by apply run_running.
  - destruct (js_view js) as [| | | | | |k'] eqn:Hv; intros [= <-]; intros [= <- <-]. apply Forall_cons in Hin as [_ Hin].
    apply run_running; cbn; rewrite ?app_nil_r; try done. by eapply awaits_input.
Qed.

Lemma write_inv e n m stdin stdout runner :
  is_reply m = true → run_inv e (S n) stdin stdout runner → run_inv e n (stdin ++ [(e, m)]) stdout runner.
Proof.
  intros Hm Hinv. inversion Hinv as [|seq js stdin' stdout' Hg Hin Hout|]; subst; try done.
  apply run_running; [|apply Forall_app; split; [done|by repeat constructor]|done].
  rewrite length_app. cbn. by replace (length stdin + 1 + length stdout + n) with (length stdin + length stdout + S n) by lia.
Qed.

(** The first writes of an execution. *)
Lemma start_inv n cfg init tr start r :
  allowed cfg → paths (drive_start cfg init) tr (start, r) →
  sys_inv (mkSys (S n) (after r cfg start) ((fun m => (S n, m)) <$> omap (fun '(existT e x) => sent e x) tr) [] Parked).
Proof.
  intros Hall Hp. apply paths_inv in Hp as (mark & tr1 & -> & Hp). apply paths_inv in Hp as (w & tr2 & -> & Hp).
  apply paths_inv in Hp as [-> [= -> ->]]. destruct w as [[]|e]; cbn; [|done]. by apply run_starting; [|apply Hallowed].
Qed.

Lemma sys_step_inv s s' : sys_step allowed s s' → sys_inv s → sys_inv s'.
Proof.
  destruct 1 as [n stdin stdout runner cfg init tr start r Hall Hpaths|n cfg start e k x stdin stdout runner|n cfg start o stdin stdout runner
    |n cfg start st stdin t msg stdout runner|n cfg start st ev stdin stdout runner Hf|n cfg start st i c r x y tr stdin stdout runner Hi _
    |n parent stdin stdout runner|n parent stdin stdout runner runner' out Hr|n parent t m stdin stdout runner k runner' out Hr Hk].
  - intros (Hin & Hout & Hrun). cbn in Hin, Hout, Hrun. subst. rewrite app_nil_l. by apply (start_inv _ _ init).
  - intros [(m & Ho & Hinv)|(Ho & Hin & Hout & Hrun)]; cbn in *; specialize (Ho x); destruct (sent e x) as [msg|]; cbn.
    + destruct Ho as (Hm & n' & -> & Ho). left. exists n'. split; [done|]. by apply write_inv.
    + rewrite app_nil_r. left. by exists m.
    + destruct Ho as (_ & n' & [=] & _).
    + rewrite app_nil_r. by right.
  - intros [(m & Ho & Hinv)|(Ho & Hin & Hout & Hrun)]; cbn in *.
    + exact (after_inv (mkSys n Idle stdin stdout runner) o cfg start m Ho Hinv).
    + subst. by destruct o as [|[]].
  - intros Hinv. cbn in *. inversion Hinv as [|seq js stdin' stdout' Hg Hin Hout|msg' Hn Hm]; subst.
    + apply Forall_cons in Hout as [[Ht Hreq] Hout]. left. exists (S (length (ls_pending st))). split; [by apply request_owes|].
      apply run_running; try done. by replace (length stdin + length stdout + S (length (ls_pending st)))
        with (length stdin + length ((t, msg) :: stdout) + length (ls_pending st)) by (cbn; lia).
    + right. split; [|done]. apply final_owes; [done|by apply nil_length_inv].
  - intros Hinv. cbn in *. left. exists (length (ls_pending st)). split; [by apply fault_owes|done].
  - intros Hinv. cbn in *. left. exists (length (ls_pending st)). split; [by apply (call_owes cfg start _ _ c)|done].
  - done.
  - unfold sys_inv. cbn. destruct parent as [|cfg start st|cfg start p|]; [intros (-> & -> & ->); done|by intros; eapply runner_inv| |done].
    intros [(n' & Ho & Hinv)|(Ho & -> & -> & ->)]; [|done]. left. exists n'. split; [done|by eapply runner_inv].
  - unfold sys_inv. cbn. destruct parent as [|cfg start st|cfg start p|]; [by intros (? & ? & ?)|by intros; eapply input_inv| |done].
    intros [(n' & Ho & Hinv)|(Ho & ? & ? & ?)]; [|done]. left. exists n'. split; [done|by eapply input_inv].
Qed.

Lemma reachable_sys_inv s : rtc (sys_step allowed) sys_initial s → sys_inv s.
Proof.
  intros Hs. remember sys_initial as s0 eqn:Hs0. assert (Hinv : sys_inv s0) by by subst. clear Hs0.
  induction Hs; eauto using sys_step_inv.
Qed.

(** The execution whose program emitted the line that the host reads next. *)
Definition next_line (s : Sys) : option nat :=
  match sy_parent s, sy_stdout s with Select _ _ _, (t, _) :: _ => Some t | _, _ => None end.

(** (C18) Isolation of pooled executions.  While every program settles only after
    all its requests were answered, a process serves any number of executions,
    under any interleaving with the host, its calls, faults and cancellations,
    such that each line the host reads in an execution was emitted by the
    program of that execution; and whenever the process is back in the pool it
    waits for a start message, with nothing left in either pipe. *)
Theorem executions_isolated s :
  rtc (sys_step allowed) sys_initial s →
  (∀ t, next_line s = Some t → t = sy_execution s) ∧
  (sy_parent s = Idle → sy_runner s = Parked ∧ sy_stdin s = [] ∧ sy_stdout s = []).
Proof.
  intros Hs%reachable_sys_inv. destruct s as [n parent stdin stdout runner]. unfold sys_inv, next_line in *. cbn in *. split.
  - intros t. destruct parent as [|cfg start st| |]; try done. destruct stdout as [|[t' msg] stdout]; [done|]. intros [= ->].
    inversion Hs as [|seq js stdin' stdout' Hg Hin Hout|]; subst; [|done]. by apply Forall_cons in Hout as [[Ht _] _].
  - intros ->. tauto.
Qed.
End Isolation.

(** ** Running schedules *)

Section Schedule.
Context `{JsEngine} `{CodeModePlatform} (answer : ∀ e, drive_resp e).

(** One choice of the scheduler; the effects are answered by [answer]. *)
Inductive Choice := Checkout (cfg : RunnerConfig) (init : DriveState) | Effect | Handled | ReadLine | Runner | Input.

Fixpoint answered {A} (p : prog drive_resp A) : list (step_of drive_resp) * A :=
  match p with
  | Ret a => ([], a)
  | Vis e k => let '(tr, a) := answered (k (answer e)) in (existT e (answer e) :: tr, a)
  end.
Lemma answered_paths {A} (p : prog drive_resp A) : paths p (answered p).1 (answered p).2.
Proof. induction p as [a|e k IH]; cbn; [constructor|]. specialize (IH (answer e)). destruct (answered _). by constructor. Qed.

Definition choose (c : Choice) (s : Sys) : option Sys :=
  let '(mkSys n parent stdin stdout runner) := s in
  match c, parent with
  | Checkout cfg init, Idle =>
      let '(tr, (start, r)) := answered (drive_start cfg init) in
      Some (mkSys (S n) (after r cfg start) (stdin ++ ((fun m => (S n, m)) <$> omap (fun '(existT e x) => sent e x) tr)) stdout runner)
  | Effect, Handle cfg start (Vis e k) =>
      Some (mkSys n (Handle cfg start (k (answer e))) (stdin ++ option_list ((fun m => (n, m)) <$> sent e (answer e))) stdout runner)
  | Handled, Handle cfg start (Ret o) => Some (mkSys n (after o cfg start) stdin stdout runner)
  | ReadLine, Select cfg start st =>
      match stdout with
      | (t, msg) :: stdout => Some (mkSys n (Handle cfg start (drive_event cfg start st (LineRead (Ok msg)))) stdin stdout runner)
      | [] => None
      end
  | Runner, _ =>
      match run_code_mode_runner runner with
      | inr (runner, out) => Some (mkSys n parent stdin (stdout ++ option_list out) runner)
      | inl _ => None
      end
  | Input, _ =>
      match run_code_mode_runner runner, stdin with
      | inl k, (t, m) :: stdin => let '(runner, out) := k t m in Some (mkSys n parent stdin (stdout ++ option_list out) runner)
      | _, _ => None
      end
  | _, _ => None
  end.

Definition starts_allowed (allowed : RunnerConfig → Prop) (c : Choice) : Prop :=
  match c with Checkout cfg _ => allowed cfg | _ => True end.

Lemma choose_step allowed c s s' : starts_allowed allowed c → choose c s = Some s' → sys_step allowed s s'.
Proof.
  destruct s as [n parent stdin stdout runner]. destruct c as [cfg init| | | | |]; cbn [starts_allowed choose]; intros Hc.
  - destruct parent; try done. pose proof (answered_paths (drive_start cfg init)) as Hp.
    destruct (answered (drive_start cfg init)) as [tr [start r]]. intros [= <-]. by apply (sys_start _ _ _ _ _ cfg init tr start r).
  - destruct parent as [| |cfg start [|e k]|]; try done. intros [= <-]. apply sys_effect.
  - destruct parent as [| |cfg start [o|]|]; try done. intros [= <-]. apply sys_handled.
  - destruct parent as [|cfg start st| |]; try done. destruct stdout as [|[t msg] stdout]; [done|]. intros [= <-]. apply sys_line.
  - destruct (run_code_mode_runner runner) as [|[runner' out]] eqn:Hr; [done|]. intros [= <-]. by apply sys_runner.
  - destruct (run_code_mode_runner runner) as [k|] eqn:Hr; [|done]. destruct stdin as [|[t m] stdin]; [done|].
    destruct (k t m) as [runner' out] eqn:Hk. intros [= <-]. by eapply sys_input.
Qed.

Fixpoint choose_all (cs : list Choice) (s : Sys) : option Sys :=
  match cs with [] => Some s | c :: cs => s ← choose c s; choose_all cs s end.
Lemma choose_all_steps allowed cs s s' :
  Forall (starts_allowed allowed) cs → choose_all cs s = Some s' → rtc (sys_step allowed) s s'.
Proof.
  intros Hcs. revert s. induction Hcs as [|c cs Hc _ IH]; intros s; cbn; [by intros [= <-]|].
  destruct (choose c s) as [s1|] eqn:Hs; [|done]. cbn. intros Hrest. eapply rtc_l; [by eapply choose_step|by apply IH].
Qed.
End Schedule.

(** ** Examples *)

#[local] Existing Instance sample_platform.
#[local] Existing Instance sample_code_mode.

(** Programs that make requests, wait for answers and return. *)
Inductive Script := Ask (r : JsRequest) (k : Script) | Await (k : Script) | Return (v : Value) | Throw (e : string).

Definition write_note : JsRequest := JsWriteArtifact "note.txt" "x" None.
(** [await writeArtifact(..)], [writeArtifact(..)] without [await], and a
    program that returns a text. *)
Definition sample_script (code proxy : string) : Script :=
  if String.eqb code "awaited" then Ask write_note (Await (Return (VNumber 1)))
  else if String.eqb code "forgotten" then Ask write_note (Return (VNumber 1))
  else Return (VString code).
Definition sample_engine : JsEngine := {|
  JsState := Script;
  js_start := sample_script;
  js_view := fun s => match s with
                      | Ask r k => JsRequests r (fun seq => match seq with Ok _ => k | Err e => Throw e end)
                      | Await k => JsPending (fun _ => k)
                      | Return v => JsResolved (Some v)
                      | Throw e => JsRejected e
                      end;
  json_value := fun _ => None;
  wire_error_tool := fun _ => None;
|}.
#[local] Existing Instance sample_engine.

Definition sample_receipt : CodeModeArtifactReceipt := mkReceipt "note.txt" "/artifacts/note.txt" "text/plain" 1 "hash".
Definition sample_answer (e : DriveE) : drive_resp e :=
  match e return drive_resp e with
  | Write _ => Ok ()
  | WriteBy _ => Some (Ok ())
  | Terminate | WaitChild | StderrFlush | StderrClear => ()
  | StderrMark => 0
  | StderrTake _ => []
  | PruneArtifacts => Some ()
  | WriteArtifact _ _ _ => Some (Ok sample_receipt)
  | ElapsedMs => 1%Z
  | HostResolveSnippet _ _ => None
  | HostDecideStep _ _ => Execute
  | HostRecordStep _ _ _ => Ok ()
  end.
Definition sample_run (code : string) : RunnerConfig :=
  mkRunnerConfig code "" TrustedLocal SurfaceMcp 100 1000 true (mkToolScope None []) None true.
Definition sample_checkout (code : string) : Choice := Checkout (sample_run code) (drive_state_new "/artifacts" 100 10 1000).
(** An artifact request, and the end of an execution, as the host handles them. *)
Definition artifact_turn : list Choice := [ReadLine; Effect; Effect; Effect; Effect; Handled].
Definition last_turn : list Choice := [ReadLine; Effect; Effect; Handled].

Fixpoint balanced (s : Script) (n : nat) : Prop :=
  match s with
  | Ask _ k => n = 0 ∧ balanced k 1
  | Await k => match n with S n => balanced k n | 0 => True end
  | Return _ | Throw _ => n = 0
  end.
Lemma balanced_awaits : Awaits (balanced : JsState → nat → Prop).
Proof.
  split; intros js n; destruct js as [r' k'|k'|v'|e']; intros; cbn in *; destruct_and?; simplify_eq; done.
Qed.

Lemma executions_isolated_witness :
  ∃ s, rtc (sys_step (fun cfg => cfg = sample_run "awaited")) sys_initial s ∧ ∃ t, next_line s = Some t ∧ t = sy_execution s.
Proof.
  destruct (choose_all sample_answer
    ([sample_checkout "awaited"; Input; Runner] ++ artifact_turn ++ [Input; Runner] ++ last_turn
     ++ [sample_checkout "awaited"; Input; Runner]) sys_initial) as [s|] eqn:Hs; [|vm_compute in Hs; discriminate Hs].
  pose proof Hs as Hfinal. vm_compute in Hfinal. injection Hfinal as <-.
  apply (choose_all_steps sample_answer (fun cfg => cfg = sample_run "awaited")) in Hs; [|by repeat constructor].
  eexists. split; [exact Hs|]. exists 2. split; [reflexivity|].
  refine (proj1 (executions_isolated balanced balanced_awaits _ _ _ Hs) _ eq_refl). intros cfg ->. by repeat split.
Defined.

(** A program that forgets to await its request returns while the reply is
    still in the pipe.  The next execution is failed by the process, which takes
    the reply for a broken start message; the one after it is then given the
    result of its predecessor. *)
Example forgotten_reply_crosses_executions :
  ∃ s rest, rtc (sys_step (fun _ => True)) sys_initial s ∧ sy_execution s = 3 ∧ next_line s = Some 2 ∧
    sy_stdout s = (2, Done (Some (VString "secret of the second caller")) []) :: rest.
Proof.
  destruct (choose_all sample_answer
    ([sample_checkout "forgotten"; Input; Runner; Runner] ++ artifact_turn ++ last_turn
     ++ [sample_checkout "secret of the second caller"; Input] ++ last_turn ++ [Input; Runner]
     ++ [sample_checkout "third"]) sys_initial) as [s|] eqn:Hs; [|vm_compute in Hs; discriminate Hs].
  pose proof Hs as Hfinal. vm_compute in Hfinal. injection Hfinal as <-.
  apply (choose_all_steps sample_answer (fun _ => True)) in Hs; [|by repeat constructor].
  eexists _, _. split; [exact Hs|]. split; [reflexivity|]. split; reflexivity.
Qed.
