(* ===== verification/Relay.v ===== *)
(** * Relay: data and policy of the public OAuth callback relay

    [labby/src/oauth/public_relay/types.rs], [policy.rs] and
    [oauth/header_filter.rs].  The relay forwards OAuth callbacks from the
    public internet to machines of a private network, which administrators
    register under a machine id. *)

From Stdlib Require Import Ascii.
From stdpp Require Import base list gmap strings.
From S2P Require Import Prelude RustStr BTree AuthTypes Ssrf WebPlatform GatewayConfig Paths Upstream RustNet.

(** ** Errors *)

Inductive PublicRelayError :=
| InvalidMachineId (id : string)
| InvalidSuffix (reason : string)
| InvalidRegistryInput (reason : string)
| InvalidRequestBody (reason : string)
| InvalidTarget (reason : string)
| RegistryUnavailable (reason : string)
| ForwarderInitFailed (reason : string)
| UnknownMachine
| DisabledMachine
| Overloaded
| BodyTooLarge
| ResponseTooLarge
| UpstreamTimeout
| UpstreamError.

#[global] Instance PublicRelayError_eq_dec : EqDecision PublicRelayError.
Proof. solve_decision. Defined.

Definition relay_kind (e : PublicRelayError) : string :=
  match e with
  | InvalidMachineId _ | InvalidSuffix _ | InvalidRegistryInput _ | InvalidRequestBody _ => "invalid_param"
  | InvalidTarget _ => "relay_invalid_target"
  | RegistryUnavailable _ => "relay_registry_unavailable"
  | ForwarderInitFailed _ => "relay_forwarder_init_failed"
  | UnknownMachine => "not_found"
  | DisabledMachine => "forbidden"
  | Overloaded => "queue_saturated"
  | BodyTooLarge | ResponseTooLarge => "content_too_large"
  | UpstreamTimeout => "timeout"
  | UpstreamError => "bad_gateway"
  end.

Definition relay_display (e : PublicRelayError) : string :=
  match e with
  | InvalidMachineId _ => "invalid machine id"
  | InvalidSuffix r => "invalid callback suffix: " +:+ r
  | InvalidRegistryInput r => "invalid registry input: " +:+ r
  | InvalidRequestBody r => "invalid callback request body: " +:+ r
  | InvalidTarget r => "invalid target: " +:+ r
  | RegistryUnavailable r => "registry unavailable: " +:+ r
  | ForwarderInitFailed r => "forwarder initialization failed: " +:+ r
  | UnknownMachine => "machine is not registered"
  | DisabledMachine => "machine is disabled"
  | Overloaded => "relay overloaded"
  | BodyTooLarge => "request body too large"
  | ResponseTooLarge => "upstream response too large"
  | UpstreamTimeout => "upstream timeout"
  | UpstreamError => "upstream error"
  end.

Definition to_tool_error (e : PublicRelayError) : ToolError :=
  match e with
  | InvalidMachineId _ => InvalidParam (relay_display e) "machine_id"
  | InvalidSuffix _ => InvalidParam (relay_display e) "suffix"
  | InvalidRegistryInput _ => InvalidParam (relay_display e) "registry"
  | InvalidRequestBody _ => InvalidParam (relay_display e) "body"
  | _ => Sdk (relay_kind e) (relay_display e)
  end.

Definition public_message (e : PublicRelayError) : string :=
  match e with
  | Overloaded => "relay busy; retry later"
  | BodyTooLarge => "callback request too large (query or body)"
  | InvalidRequestBody _ => "callback request invalid"
  | ResponseTooLarge => "callback response too large"
  | UpstreamTimeout => "callback target timed out"
  | _ => "callback target unavailable"
  end.

(** ** Machines *)

Definition is_machine_char (a : ascii) : bool := is_ascii_alphanumeric a || Ascii.eqb a "-" || Ascii.eqb a "_".

(** A [MachineId] is its text. *)
Definition machine_id_parse (value : string) : result string PublicRelayError :=
  let trimmed := Str.trim value in
  if negb (String.eqb trimmed value) || Str.is_empty trimmed || (64 <? String.length trimmed)
  then Err (InvalidMachineId value)
  else if negb (Str.all_bytes is_machine_char trimmed) then Err (InvalidMachineId value)
  else Ok trimmed.

Record PublicRelayEntry := mkRelayEntry {
  re_machine_id : string;
  re_target_url : string;
  re_description : option string;
  re_disabled : bool;
}.
#[global] Instance PublicRelayEntry_eq_dec : EqDecision PublicRelayEntry.
Proof. solve_decision. Defined.

Record RelayTarget := mkRelayTarget { rt_machine_id : string; rt_url : Url }.

Definition is_tailscale_cgnat (ip : IpAddr) : bool :=
  match ip with
  | IpV4 v4 => bool_decide (o0 v4 = 100)%Z && bool_decide (64 <= o1 v4 <= 127)%Z
  | IpV6 _ => false
  end.

Section Target.
Context `{Platform}.

Definition relay_target_parse (machine_id target_url : string) : result RelayTarget PublicRelayError :=
  let? url := match url_parse target_url with Ok url => Ok url | Err error => Err (InvalidTarget error) end in
  if negb (String.eqb (url_scheme url) "http") then Err (InvalidTarget "scheme must be http")
  else if negb (Str.is_empty (url_username url)) || is_some (url_password url)
  then Err (InvalidTarget "userinfo is not allowed")
  else if is_some (url_query url) || is_some (url_fragment url)
  then Err (InvalidTarget "query and fragment are not allowed")
  else if negb (bool_decide (url_port_or_known_default url = Some 38935%Z)) then Err (InvalidTarget "port must be 38935")
  else if negb (String.eqb (url_path url) ("/callback/" +:+ machine_id))
  then Err (InvalidTarget "path must match /callback/<machine_id>")
  else
    let? host := ok_or (url_host_str url) (InvalidTarget "host is required") in
    let? ip := ok_or (ip_from_str host) (InvalidTarget "host must be a Tailscale IP") in
    if negb (is_tailscale_cgnat ip) then Err (InvalidTarget "host must be in 100.64.0.0/10")
    else Ok (mkRelayTarget machine_id url).

Definition entry_target (e : PublicRelayEntry) : result RelayTarget PublicRelayError :=
  relay_target_parse (re_machine_id e) (re_target_url e).

Definition redacted_label (t : RelayTarget) : string :=
  rt_machine_id t +:+ "@" +:+ default "unknown" (url_host_str (rt_url t)).

Record PublicRelayMachineView := mkMachineView {
  mv_machine_id : string; mv_target : string; mv_disabled : bool; mv_description : option string }.
Definition machine_view (e : PublicRelayEntry) : PublicRelayMachineView :=
  mkMachineView (re_machine_id e)
    match entry_target e with Ok t => redacted_label t | Err _ => re_machine_id e +:+ "@invalid" end
    (re_disabled e) (re_description e).
End Target.

(** ** Policy *)

Definition PUBLIC_QUERY_LIMIT_BYTES : Z := 16 * 1024.
Definition PUBLIC_REQUEST_BODY_LIMIT_BYTES : Z := 64 * 1024.
Definition PUBLIC_RESPONSE_LIMIT_BYTES : Z := 128 * 1024.
Definition PUBLIC_GLOBAL_CONCURRENCY : nat := 32.
Definition PUBLIC_PER_MACHINE_CONCURRENCY : nat := 2.

Definition validate_suffix_path (path : string) : result string PublicRelayError :=
  if bool_decide (2048 < Str.len path)%Z then Err (InvalidSuffix "suffix path too long")
  else if negb (Str.starts_with "/callback/" path) && negb (String.eqb path "/callback")
  then Err (InvalidSuffix "path is not a callback route")
  else if Str.contains "%" path || Str.contains "\" path
  then Err (InvalidSuffix "percent-encoded or backslash path segments are not allowed")
  else if existsb (fun segment => String.eqb segment "." || String.eqb segment "..") (Str.split "/" path)
  then Err (InvalidSuffix "dot segments are not allowed")
  else Ok path.

Definition trim_slashes (s : string) : string := Str.trim_end_matches "/" (Str.trim_start_matches "/" s).

Definition suffix_after_machine (path machine_id : string) : result string PublicRelayError :=
  let? _ := validate_suffix_path path in
  let base := "/callback/" +:+ machine_id in
  if String.eqb path base then Ok ""
  else
    let? rest := ok_or (Str.strip_prefix base path) (InvalidSuffix "path machine segment does not match target") in
    let? rest := ok_or (Str.strip_prefix "/" rest) (InvalidSuffix "path is not under machine callback route") in
    Ok (trim_slashes rest).

Definition is_reserved_public_relay_path (path : string) : bool :=
  let lower := Str.to_ascii_lowercase path in
  String.eqb lower "/healthz" || String.eqb lower "/callback" || Str.starts_with "/callback/" lower.

(** ** Headers

    A [HeaderMap] by its pairs; names are in lower case. *)

Notation HeaderMap := (list (string * string)).

(** [HeaderValue::to_str]. *)
Definition is_header_text (a : ascii) : bool := let n := nat_of_ascii a in ((32 <=? n) && (n <? 127)) || (n =? 9).
Definition header_to_str (v : string) : option string := if Str.all_bytes is_header_text v then Some v else None.
Definition header_get (name : string) (h : HeaderMap) : option string := get name h.
Definition header_insert (name value : string) (h : HeaderMap) : HeaderMap :=
  List.filter (fun kv => negb (String.eqb kv.1 name)) h ++ [(name, value)].

Definition REQUEST_HEADER_ALLOWLIST : list string :=
  ["accept"; "accept-language"; "content-type"; "origin"; "referer"; "user-agent"].
Definition RESPONSE_HEADER_ALLOWLIST : list string :=
  ["cache-control"; "content-language"; "content-type"; "expires"; "pragma"].
Definition hop_by_hop_headers : list string :=
  ["connection"; "content-length"; "host"; "keep-alive"; "proxy-authenticate"; "proxy-authorization"; "te"; "trailer";
   "transfer-encoding"; "upgrade"].
Definition is_hop_by_hop_header (name : string) : bool := existsb (String.eqb name) hop_by_hop_headers.

(** The names that the [Connection] headers nominate. *)
Definition connection_header_names (h : HeaderMap) : list string :=
  BTreeSet.from_iter
    (Str.to_ascii_lowercase <$>
     List.filter (fun v => negb (Str.is_empty v))
       (Str.trim <$> (omap (fun kv => if String.eqb kv.1 "connection" then header_to_str kv.2 else None) h ≫= Str.split ","))).
Definition filter_headers (h : HeaderMap) (allowlist : list string) : HeaderMap :=
  let nominated := connection_header_names h in
  List.filter (fun kv => existsb (String.eqb kv.1) allowlist && negb (is_hop_by_hop_header kv.1)
                         && negb (existsb (String.eqb kv.1) nominated)) h.
Definition filter_public_request_headers (h : HeaderMap) : HeaderMap := filter_headers h REQUEST_HEADER_ALLOWLIST.
Definition filter_public_response_headers (h : HeaderMap) : HeaderMap := filter_headers h RESPONSE_HEADER_ALLOWLIST.

(** ** What the policy guarantees *)

Lemma machine_id_parse_ok value id :
  machine_id_parse value = Ok id → id = value ∧ id ≠ "" ∧ String.length id ≤ 64 ∧ Str.all_bytes is_machine_char id = true.
Proof.
  unfold machine_id_parse. destruct (String.eqb_spec (Str.trim value) value) as [->|]; [|done]. cbn [negb orb].
  destruct (Str.is_empty value) eqn:He; [done|]. cbn [orb]. destruct (Nat.ltb_spec 64 (String.length value)); [done|].
  destruct (Str.all_bytes _ _) eqn:Hb; [|done]. intros [= <-]. split_and!; try done. by intros ->.
Qed.

Lemma relay_target_ok `{Platform} m text t :
  relay_target_parse m text = Ok t →
  rt_machine_id t = m ∧ url_parse text = Ok (rt_url t) ∧ url_scheme (rt_url t) = "http" ∧
  url_username (rt_url t) = "" ∧ url_password (rt_url t) = None ∧
  url_port_or_known_default (rt_url t) = Some 38935%Z ∧ url_path (rt_url t) = "/callback/" +:+ m ∧
  ∃ host ip, url_host_str (rt_url t) = Some host ∧ ip_from_str host = Some ip ∧ is_tailscale_cgnat ip = true.
Proof.
  unfold relay_target_parse. destruct (url_parse text) as [u|]; [|done]. cbn.
  destruct (String.eqb_spec (url_scheme u) "http") as [Hs|]; [|done]. cbn.
  destruct (url_username u) eqn:Hu; [|done]. destruct (url_password u) eqn:Hp; [done|]. cbn.
  destruct (url_query u); [done|]. destruct (url_fragment u); [done|]. cbn. case_bool_decide as Hport; [|done]. cbn.
  destruct (String.eqb_spec (url_path u) ("/callback/" +:+ m)) as [Hpath|]; [|done]. cbn.
  destruct (url_host_str u) as [host|] eqn:Hh; [|done]. cbn. destruct (ip_from_str host) as [ip|] eqn:Hip; [|done]. cbn.
  destruct (is_tailscale_cgnat ip) eqn:Hc; [|done]. intros [= <-]. cbn. split_and!; try done. by exists host, ip.
Qed.

(** Only allowlisted headers pass, and none that carries a credential. *)
Lemma filter_headers_allowed h allowlist name value :
  (name, value) ∈ filter_headers h allowlist →
  (name, value) ∈ h ∧ name ∈ allowlist ∧ is_hop_by_hop_header name = false ∧ name ∉ connection_header_names h.
Proof.
  unfold filter_headers. intros Hin. apply list_elem_of_In, filter_In in Hin as [Hin Hf]. cbn in Hf.
  apply andb_prop in Hf as [[Ha Hh]%andb_prop Hn]. apply negb_true_iff in Hh, Hn. split_and!; [by apply list_elem_of_In| |done|].
  - apply existsb_elem in Ha as (x & Hx & ->%String.eqb_eq). done.
  - intros Hnom. apply eq_true_false_abs in Hn; [done|]. apply existsb_elem. exists name. by rewrite String.eqb_refl.
Qed.

(** A suffix comes from a path under the callback route of the machine. *)
Lemma suffix_after_machine_ok path m suffix :
  suffix_after_machine path m = Ok suffix →
  (path = "/callback/" +:+ m ∧ suffix = "") ∨ ∃ rest, path = "/callback/" +:+ m +:+ "/" +:+ rest ∧ suffix = trim_slashes rest.
Proof.
  unfold suffix_after_machine. intros (_ & _ & Hs)%let_ok.
  destruct (String.eqb_spec path ("/callback/" +:+ m)) as [->|]; [injection Hs as <-; by left|].
  apply let_ok in Hs as (rest & Hr & Hs). apply let_ok in Hs as (rest' & Hr' & [= <-]).
  unfold ok_or in Hr, Hr'. repeat case_match; simplify_eq.
  repeat match goal with E : Str.strip_prefix _ _ = Some _ |- _ => apply Str.strip_prefix_spec in E end. right. exists rest'. subst. by rewrite Str.app_assoc.
Qed.
