(* ===== verification/RelayRegistry.v ===== *)
(** * RelayRegistry: the registry, its file, and the requests of the relay

    [labby/src/oauth/public_relay/store.rs], [manager.rs], [forward.rs] and the
    handlers of [labby/src/api/services/oauth_relay.rs].  The registry is a map
    from machine ids to entries, kept in memory and in one JSON file.  Handlers
    are programs over the shared state of the manager; a save runs in a thread
    of its own ([spawn_blocking]) over the calls to the file system. *)

From Stdlib Require Import Ascii.
From stdpp Require Import base list gmap strings pretty.
From S2P Require Import Prelude RustStr BTree Prog AuthTypes WebPlatform GatewayConfig Paths Middleware Upstream Relay.

Notation PublicRelaySnapshot := (gmap string PublicRelayEntry).

(** [url] and [serde_json]: setting a query, reading and writing texts, and the
    text of a decoding error. *)
Class RelayPlatform `{WebPlatform} := {
  url_set_query : Url → option string → Url;
  json_read : string → result Value string;
  json_pretty : Value → string;
  entry_error : Value → string;
}.

(** ** Import *)

Record QuarantinedEntry := mkQuarantined { qe_machine_id : string; qe_reason : string }.
Record ImportReport := mkImportReport {
  ir_accepted : list string; ir_quarantined : list QuarantinedEntry; ir_entries : list PublicRelayEntry }.

Definition quarantine_summary (r : ImportReport) : option string :=
  match ir_quarantined r with
  | [] => None
  | l => Some (Str.join "; " ((fun q => qe_machine_id q +:+ ": " +:+ qe_reason q) <$> l))
  end.
Definition ensure_complete_import (r : ImportReport) : result unit PublicRelayError :=
  match quarantine_summary r with
  | Some summary => Err (InvalidTarget ("registry import contains invalid entries: " +:+ summary))
  | None =>
      if bool_decide (ir_entries r = []) then Err (InvalidTarget "registry import contains no valid relay machines") else Ok ()
  end.

Definition json_type_name (v : Value) : string :=
  match v with
  | VNull => "null" | VBool _ => "boolean" | VNumber _ => "number" | VString _ => "string"
  | VArray _ => "array" | VObject _ => "object"
  end.

Definition REGISTRY_FILE_VERSION : Z := 1.
Definition MAX_REGISTRY_BACKUPS : nat := 5.

Section Registry.
Context `{RelayPlatform}.

(** The derived decoder of an entry, by its fields.  A struct is also read from
    an array of its fields in order. *)
Definition entry_fields (machine_id target_url : Value) (description disabled : option Value) : option PublicRelayEntry :=
  text ← as_str machine_id;
  id ← match machine_id_parse text with Ok id => Some id | Err _ => None end;
  target ← as_str target_url;
  description ← match description with
                | None | Some VNull => Some None
                | Some (VString d) => Some (Some d)
                | Some _ => None
                end;
  disabled ← match disabled with None => Some false | Some (VBool b) => Some b | Some _ => None end;
  Some (mkRelayEntry id target description disabled).
Definition entry_of_value (v : Value) : result PublicRelayEntry string :=
  ok_or match v with
        | VObject l =>
            machine_id ← get "machine_id" l;
            target_url ← get "target_url" l;
            entry_fields machine_id target_url (get "description" l) (get "disabled" l)
        | VArray [m; t] => entry_fields m t None None
        | VArray [m; t; d] => entry_fields m t (Some d) None
        | VArray [m; t; d; b] => entry_fields m t (Some d) (Some b)
        | _ => None
        end (entry_error v).
Definition value_of_entry (e : PublicRelayEntry) : Value :=
  VObject [("machine_id", VString (re_machine_id e)); ("target_url", VString (re_target_url e));
           ("description", match re_description e with Some d => VString d | None => VNull end);
           ("disabled", VBool (re_disabled e))].

(** The state of [import_entries]: the report so far and the accepted map. *)
Definition import_entry (acc : ImportReport * PublicRelaySnapshot) (e : PublicRelayEntry) : ImportReport * PublicRelaySnapshot :=
  let '(report, accepted) := acc in
  let m := re_machine_id e in
  let quarantine reason := mkImportReport (ir_accepted report) (ir_quarantined report ++ [mkQuarantined m reason]) (ir_entries report) in
  match entry_target e with
  | Ok _ =>
      match accepted !! m with
      | Some _ => (quarantine "duplicate machine_id", accepted)
      | None => (mkImportReport (ir_accepted report ++ [m]) (ir_quarantined report) (ir_entries report), <[m := e]> accepted)
      end
  | Err error => (quarantine (relay_display error), accepted)
  end.
Definition import_entries (entries : list PublicRelayEntry) : ImportReport :=
  let '(report, accepted) := foldl import_entry (mkImportReport [] [] [], ∅) entries in
  mkImportReport (ir_accepted report) (ir_quarantined report) (snd <$> btree_entries accepted).

(** Entries quarantined while parsing come before those of the import. *)
Definition with_quarantined (quarantined : list QuarantinedEntry) (r : ImportReport) : ImportReport :=
  mkImportReport (ir_accepted r) (quarantined ++ ir_quarantined r) (ir_entries r).

Definition parse_array_item (item : Value) : PublicRelayEntry + QuarantinedEntry :=
  match entry_of_value item with
  | Ok entry => inl entry
  | Err error => inr (mkQuarantined (default "<unknown>" (value_get "machine_id" item ≫= as_str)) error)
  end.
Definition parse_object_item (kv : string * Value) : PublicRelayEntry + QuarantinedEntry :=
  let '(machine_id, v) := kv in
  match v with
  | VString target_url =>
      match machine_id_parse machine_id with
      | Ok machine => inl (mkRelayEntry machine target_url None false)
      | Err error => inr (mkQuarantined machine_id (relay_display error))
      end
  | VObject _ =>
      match entry_of_value v with
      | Ok entry =>
          if String.eqb machine_id (re_machine_id entry) then inl entry
          else inr (mkQuarantined machine_id ("entry machine_id is `" +:+ re_machine_id entry +:+ "`"))
      | Err error => inr (mkQuarantined machine_id error)
      end
  | other => inr (mkQuarantined machine_id ("expected a target URL string or entry object, got " +:+ json_type_name other))
  end.
Definition import_items {A} (f : A → PublicRelayEntry + QuarantinedEntry) (items : list A) : ImportReport :=
  let parsed := f <$> items in
  with_quarantined (omap (fun x => match x with inr q => Some q | inl _ => None end) parsed)
    (import_entries (omap (fun x => match x with inl e => Some e | inr _ => None end) parsed)).
Definition parse_array_shape (items : list Value) : result ImportReport PublicRelayError := Ok (import_items parse_array_item items).
Definition parse_object_shape (map : list (string * Value)) : result ImportReport PublicRelayError :=
  match get "version" map, get "entries" map with
  | Some (VNumber version), Some (VArray entries) =>
      if negb (bool_decide (0 <= version <= u64_max)%Z)
      then Err (InvalidRegistryInput "registry version must be a non-negative integer")
      else if negb (bool_decide (version = REGISTRY_FILE_VERSION))
      then Err (InvalidRegistryInput ("unsupported registry version " +:+ pretty version +:+ "; expected " +:+ pretty REGISTRY_FILE_VERSION))
      else parse_array_shape entries
  | _, _ => Ok (import_items parse_object_item map)
  end.
Definition parse_registry_value (v : Value) : result ImportReport PublicRelayError :=
  match v with
  | VArray items => parse_array_shape items
  | VObject map => parse_object_shape map
  | other => Err (InvalidRegistryInput ("registry must be a JSON array or object, got " +:+ json_type_name other))
  end.
Definition parse_standalone_registry (raw : string) : result ImportReport PublicRelayError :=
  match json_read raw with
  | Ok v => parse_registry_value v
  | Err error => Err (RegistryUnavailable error)
  end.

(** [load_snapshot_sync] on the text of the file. *)
Definition snapshot_of_text (raw : string) : result PublicRelaySnapshot PublicRelayError :=
  let? report := parse_standalone_registry raw in
  match quarantine_summary report with
  | Some summary => Err (InvalidTarget ("registry contains invalid entries: " +:+ summary))
  | None => Ok (foldl (fun m e => <[re_machine_id e := e]> m) ∅ (ir_entries report))
  end.

Definition registry_value (entries : list PublicRelayEntry) : Value :=
  VObject [("version", VNumber REGISTRY_FILE_VERSION); ("entries", VArray (value_of_entry <$> entries))].
Definition line_feed : string := String "010" "".
Definition registry_text (entries : list PublicRelayEntry) : string := json_pretty (registry_value entries) +:+ line_feed.

(** [snapshot_from_entries]. *)
Fixpoint snapshot_from (snapshot : PublicRelaySnapshot) (entries : list PublicRelayEntry) : result PublicRelaySnapshot PublicRelayError :=
  match entries with
  | [] => Ok snapshot
  | e :: rest => let? _ := entry_target e in snapshot_from (<[re_machine_id e := e]> snapshot) rest
  end.
Definition snapshot_from_entries (entries : list PublicRelayEntry) : result PublicRelaySnapshot PublicRelayError := snapshot_from ∅ entries.

(** ** The file *)

Record PublicRelayRegistryStore := mkRelayStore { st_path : string; st_parent : option string; st_file_name : string }.
Record RegistryWriteOutcome := mkWriteOutcome { wo_path : string; wo_backup_path : option string; wo_entry_count : nat }.

(** The calls of one save.  The temporary file is private to the save until
    [FPersist] renames it over the registry. *)
Inductive FileE :=
| FExists
| FRead
| FCreateDirAll (dir : string)
| FNowMillis
| FProcessId
| FOpenSource
| FOpenBackup (name : string)
| FCopyBackup (name : string)
| FSyncBackup (name : string)
| FReadDir (dir : string)
| FRemove (path : string)
| FNewTemp (dir : string)
| FWriteTemp (text : string)
| FSyncTemp
| FPersist (text : string)
| FSyncDir (dir : string).
Definition file_resp (e : FileE) : Type :=
  match e with
  | FExists => bool
  | FRead => result string string
  | FNowMillis => result Z string
  | FProcessId => Z
  | FReadDir _ => option (list (string * string * Z))
  | FRemove _ => bool
  | _ => result unit string
  end.
Notation fileM := (prog file_resp).
Definition file_do (e : FileE) : fileM (file_resp e) := trigger e.

Definition unavailable {A} (p : fileM (result A string)) : fileM (result A PublicRelayError) :=
  let! r := p in Ret (map_err RegistryUnavailable r).

Definition create_backup (store : PublicRelayRegistryStore) : fileM (result string PublicRelayError) :=
  let!? now := unavailable (file_do FNowMillis) in
  let! pid := file_do FProcessId in
  let backup := st_path store +:+ ".bak." +:+ pretty now +:+ "." +:+ pretty pid in
  let!? _ := unavailable (file_do FOpenSource) in
  let!? _ := unavailable (file_do (FOpenBackup backup)) in
  let!? _ := unavailable (file_do (FCopyBackup backup)) in
  let!? _ := unavailable (file_do (FSyncBackup backup)) in
  ret_ok backup.

(** A directory entry: its name, its path, and its modification time. *)
Definition backup_entries (file_name : string) (listing : list (string * string * Z)) : list (Z * string) :=
  omap (fun '(name, path, modified) => if Str.starts_with (file_name +:+ ".bak.") name then Some (modified, path) else None) listing.
(** [sort_by_key] with [Reverse]: newest first, stable. *)
Fixpoint insert_newest (x : Z * string) (l : list (Z * string)) : list (Z * string) :=
  match l with
  | [] => [x]
  | y :: r => if bool_decide (y.1 <= x.1)%Z then x :: l else y :: insert_newest x r
  end.
Definition newest_first (l : list (Z * string)) : list (Z * string) := foldr insert_newest [] l.
Definition stale_backups (keep : nat) (backups : list (Z * string)) : list string :=
  if length backups <=? keep then [] else snd <$> drop keep (newest_first backups).
Fixpoint remove_each (paths : list string) : fileM unit :=
  match paths with
  | [] => Ret ()
  | p :: rest => let! _ := file_do (FRemove p) in remove_each rest
  end.
Definition prune_old_backups (store : PublicRelayRegistryStore) (parent : string) (keep : nat) : fileM unit :=
  let! listing := file_do (FReadDir parent) in
  match listing with
  | None => Ret ()
  | Some listing => remove_each (stale_backups keep (backup_entries (st_file_name store) listing))
  end.

Definition count_backups (store : PublicRelayRegistryStore) : fileM nat :=
  match st_parent store with
  | None => Ret 0
  | Some parent =>
      let! listing := file_do (FReadDir parent) in
      Ret match listing with None => 0 | Some listing => length (backup_entries (st_file_name store) listing) end
  end.

Definition write_bytes_atomic (store : PublicRelayRegistryStore) (parent text : string) : fileM (result unit PublicRelayError) :=
  let!? _ := unavailable (file_do (FNewTemp parent)) in
  let!? _ := unavailable (file_do (FWriteTemp text)) in
  let!? _ := unavailable (file_do (FWriteTemp line_feed)) in
  let!? _ := unavailable (file_do FSyncTemp) in
  let!? _ := (let! r := file_do (FPersist (text +:+ line_feed)) in
              Ret (map_err (fun e => RegistryUnavailable ("persist " +:+ st_path store +:+ " failed: " +:+ e)) r)) in
  unavailable (file_do (FSyncDir parent)).

Definition save_entries_sync (store : PublicRelayRegistryStore) (entries : list PublicRelayEntry) :
  fileM (result RegistryWriteOutcome PublicRelayError) :=
  let report := import_entries entries in
  match quarantine_summary report with
  | Some reason => ret_err (InvalidTarget reason)
  | None =>
      match st_parent store with
      | None => ret_err (RegistryUnavailable "registry path has no parent")
      | Some parent =>
          let!? _ := unavailable (file_do (FCreateDirAll parent)) in
          let! exists_ := file_do FExists in
          let!? backup_path := (if exists_
                                then (let!? backup := create_backup store in
                                      let! _ := prune_old_backups store parent MAX_REGISTRY_BACKUPS in
                                      ret_ok (Some backup))
                                else ret_ok None) in
          let!? _ := write_bytes_atomic store parent (json_pretty (registry_value (ir_entries report))) in
          ret_ok (mkWriteOutcome (st_path store) backup_path (length (ir_entries report)))
      end
  end.

Definition load_snapshot_sync : fileM (result PublicRelaySnapshot PublicRelayError) :=
  let! exists_ := file_do FExists in
  if negb exists_ then ret_ok ∅
  else let!? raw := unavailable (file_do FRead) in Ret (snapshot_of_text raw).

(** ** The manager *)

(** The shared state of [PublicRelayRegistryManager] and the environment of a
    handler.  Semaphores are named by a serial number. *)
Inductive RelayE :=
| SnapRead
| SnapWrite (s : PublicRelaySnapshot)
| MutLock
| MutUnlock
| SpawnSave (entries : list PublicRelayEntry)
| JoinSave (thread : nat)
| RebuildLimits
| LimitGet (machine : string)
| LimitOrInsert (machine : string)
| TryGlobal
| DropGlobal
| TrySem (sem : nat)
| DropSem (sem : nat)
| ToBytes (limit : Z)
| Send (method : string) (url : Url) (headers : HeaderMap) (body : string)
| ReadChunks.
Definition relay_resp (e : RelayE) : Type :=
  match e with
  | SnapRead => PublicRelaySnapshot
  | SpawnSave _ | LimitOrInsert _ => nat
  | JoinSave _ => result (result RegistryWriteOutcome PublicRelayError) string
  | LimitGet _ => option nat
  | TryGlobal | TrySem _ => bool
  | ToBytes _ => result string (bool * string)
  | Send _ _ _ _ => result (Z * HeaderMap) bool
  | ReadChunks => list string * option bool
  | _ => unit
  end.
Notation relay := (prog relay_resp).
Definition relay_do (e : RelayE) : relay (relay_resp e) := trigger e.

Definition resolve_machine (m : string) : relay (result RelayTarget PublicRelayError) :=
  let! snapshot := relay_do SnapRead in
  Ret match snapshot !! m with
      | None => Err UnknownMachine
      | Some entry => if re_disabled entry then Err DisabledMachine else entry_target entry
      end.
Definition list_relay_machines : relay (list PublicRelayMachineView) :=
  let! snapshot := relay_do SnapRead in Ret (machine_view <$> (snd <$> btree_entries snapshot)).
Definition relay_entry (m : string) : relay (option PublicRelayEntry) :=
  let! snapshot := relay_do SnapRead in Ret (snapshot !! m).
Definition count_machines : relay nat := let! snapshot := relay_do SnapRead in Ret (size snapshot).

Definition probe_targets : relay (list (string * result RelayTarget PublicRelayError)) :=
  let! snapshot := relay_do SnapRead in
  Ret ((fun e => (re_machine_id e, if re_disabled e then Err DisabledMachine else entry_target e)) <$> (snd <$> btree_entries snapshot)).

Definition save_entries (entries : list PublicRelayEntry) : relay (result RegistryWriteOutcome PublicRelayError) :=
  let! thread := relay_do (SpawnSave entries) in
  let! joined := relay_do (JoinSave thread) in
  Ret match joined with Ok r => r | Err error => Err (RegistryUnavailable error) end.
Definition validate_and_install (entries : list PublicRelayEntry) : relay (result RegistryWriteOutcome PublicRelayError) :=
  match snapshot_from_entries entries with
  | Err e => ret_err e
  | Ok snapshot =>
      let!? outcome := save_entries entries in
      let! _ := relay_do (SnapWrite snapshot) in
      let! _ := relay_do RebuildLimits in
      ret_ok outcome
  end.

(** The guard of [mutation_lock] is dropped on every way out. *)
Definition with_mutation {A} (p : relay A) : relay A :=
  let! _ := relay_do MutLock in
  let! a := p in
  let! _ := relay_do MutUnlock in
  Ret a.

Definition import_report (r : ImportReport) : relay (result RegistryWriteOutcome PublicRelayError) :=
  match ensure_complete_import r with
  | Err e => ret_err e
  | Ok _ => with_mutation (validate_and_install (ir_entries r))
  end.
Definition upsert (entry : PublicRelayEntry) : relay (result RegistryWriteOutcome PublicRelayError) :=
  with_mutation (
    let! entries := relay_do SnapRead in
    validate_and_install (snd <$> btree_entries (<[re_machine_id entry := entry]> entries))).
Definition remove_entry (m : string) : relay (result RegistryWriteOutcome PublicRelayError) :=
  with_mutation (
    let! entries := relay_do SnapRead in
    match entries !! m with
    | None => ret_err UnknownMachine
    | Some _ => validate_and_install (snd <$> btree_entries (delete m entries))
    end).
Definition with_disabled (disabled : bool) (e : PublicRelayEntry) : PublicRelayEntry :=
  mkRelayEntry (re_machine_id e) (re_target_url e) (re_description e) disabled.
Definition set_disabled (m : string) (disabled : bool) : relay (result RegistryWriteOutcome PublicRelayError) :=
  with_mutation (
    let! entries := relay_do SnapRead in
    match entries !! m with
    | None => ret_err UnknownMachine
    | Some e => validate_and_install (snd <$> btree_entries (<[m := with_disabled disabled e]> entries))
    end).

Definition machine_limit (m : string) : relay nat :=
  let! limit := relay_do (LimitGet m) in
  match limit with Some sem => Ret sem | None => relay_do (LimitOrInsert m) end.
(** The permit is the semaphore of the machine; the global one comes with it. *)
Definition acquire_forward_permit (m : string) : relay (result nat PublicRelayError) :=
  let! global := relay_do TryGlobal in
  if negb global then ret_err Overloaded
  else
    let! sem := machine_limit m in
    let! machine := relay_do (TrySem sem) in
    if machine then ret_ok sem
    else let! _ := relay_do DropGlobal in ret_err Overloaded.
Definition drop_permit (sem : nat) : relay unit :=
  let! _ := relay_do DropGlobal in relay_do (DropSem sem).

(** ** Forwarding *)

Record ForwardRequest := mkForwardRequest {
  fr_method : string; fr_target : RelayTarget; fr_suffix_path : string; fr_query : option string;
  fr_headers : HeaderMap; fr_body : string }.
Record ForwardResponse := mkForwardResponse { fs_status : Z; fs_headers : HeaderMap; fs_body : string }.

Definition path_is_under_base (path base : string) : bool :=
  String.eqb path base
  || match Str.strip_prefix base path with Some rest => Str.starts_with "/" rest | None => false end.
Definition map_forward_error (is_timeout : bool) : PublicRelayError := if is_timeout then UpstreamTimeout else UpstreamError.

(** The loop over the chunks of a response, up to the end or an error. *)
Fixpoint read_chunks (out : string) (chunks : list string) (failed : option bool) : result string PublicRelayError :=
  match chunks with
  | [] => match failed with Some is_timeout => Err (map_forward_error is_timeout) | None => Ok out end
  | chunk :: rest =>
      if bool_decide (PUBLIC_RESPONSE_LIMIT_BYTES < Str.len out + Str.len chunk)%Z then Err ResponseTooLarge
      else read_chunks (out +:+ chunk) rest failed
  end.

(** The URL a request goes to. *)
Definition forward_url (target : Url) (suffix_path : string) (query : option string) : result Url PublicRelayError :=
  let base_path := Str.trim_end_matches "/" (url_path target) in
  let url := if Str.is_empty suffix_path then target
             else url_set_path target
                    ((if Str.ends_with "/" base_path then base_path else base_path +:+ "/") +:+ trim_slashes suffix_path) in
  if negb (path_is_under_base (url_path url) base_path)
  then Err (InvalidSuffix "normalized path escapes machine callback route")
  else Ok (url_set_query url (match query with Some EmptyString => None | q => q end)).

Definition forward (r : ForwardRequest) : relay (result ForwardResponse PublicRelayError) :=
  match forward_url (rt_url (fr_target r)) (fr_suffix_path r) (fr_query r) with
  | Err e => ret_err e
  | Ok url =>
      let! sent := relay_do (Send (fr_method r) url (filter_public_request_headers (fr_headers r)) (fr_body r)) in
      match sent with
      | Err is_timeout => ret_err (map_forward_error is_timeout)
      | Ok (status, headers) =>
          let! body := relay_do ReadChunks in
          Ret match read_chunks "" body.1 body.2 with
              | Ok out => Ok (mkForwardResponse status (filter_public_response_headers headers) out)
              | Err e => Err e
              end
      end
  end.

(** ** Handlers *)

(** [AppState], as far as the relay goes. *)
Record RelayApp := mkRelayApp { ra_loaded : bool; ra_default_path : string }.

Definition security_headers : HeaderMap :=
  [("cache-control", "no-store"); ("pragma", "no-cache"); ("expires", "0"); ("x-content-type-options", "nosniff");
   ("content-security-policy",
    "default-src 'none'; base-uri 'none'; form-action 'none'; frame-ancestors 'none'; worker-src 'none'")].
Definition apply_public_callback_security_headers (h : HeaderMap) : HeaderMap :=
  foldl (fun h kv => header_insert kv.1 kv.2 h) h security_headers.

Definition public_error_status (e : PublicRelayError) : Z :=
  match e with
  | BodyTooLarge | ResponseTooLarge => 413
  | InvalidRequestBody _ => 400
  | Overloaded => 429
  | UpstreamTimeout => 504
  | InvalidMachineId _ | InvalidSuffix _ | UnknownMachine | DisabledMachine => 404
  | InvalidRegistryInput _ => 422
  | InvalidTarget _ | RegistryUnavailable _ | ForwarderInitFailed _ | UpstreamError => 502
  end.
Definition json_quote (s : string) : string := String "034" (s +:+ String "034" "").
Definition public_error_response (e : PublicRelayError) : ForwardResponse :=
  mkForwardResponse (public_error_status e)
    (apply_public_callback_security_headers [("content-type", "application/json")])
    ("{" +:+ json_quote "detail" +:+ ":" +:+ json_quote (public_message e) +:+ "}").
Definition build_forward_response (r : ForwardResponse) : ForwardResponse :=
  mkForwardResponse (fs_status r) (apply_public_callback_security_headers (fs_headers r)) (fs_body r).

Definition content_length_exceeds_limit (h : HeaderMap) (limit : Z) : bool :=
  match header_get "content-length" h ≫= header_to_str with
  | None => false
  | Some v => match parse_uint usize_max v with Some n => bool_decide (limit < n)%Z | None => false end
  end.
Definition body_read_error_to_public (length_limit : bool) (text : string) : PublicRelayError :=
  if length_limit then BodyTooLarge else InvalidRequestBody text.

Record CallbackRequest := mkCallbackRequest {
  cr_machine_id : option string; cr_method : string; cr_path : string; cr_query : option string; cr_headers : HeaderMap }.

(** The part of [callback] that holds a permit. *)
Definition forward_body (request : CallbackRequest) (target : RelayTarget) (suffix_path : string) : relay (result ForwardResponse PublicRelayError) :=
  let! body := relay_do (ToBytes PUBLIC_REQUEST_BODY_LIMIT_BYTES) in
  match body with
  | Err (length_limit, text) => ret_err (body_read_error_to_public length_limit text)
  | Ok body => forward (mkForwardRequest (cr_method request) target suffix_path (cr_query request) (cr_headers request) body)
  end.
Definition try_callback (app : RelayApp) (request : CallbackRequest) : relay (result ForwardResponse PublicRelayError) :=
  match machine_id_parse (default "" (cr_machine_id request)) with
  | Err e => ret_err e
  | Ok machine_id =>
      if match cr_query request with Some query => bool_decide (PUBLIC_QUERY_LIMIT_BYTES < Str.len query)%Z | None => false end
      then ret_err BodyTooLarge
      else if content_length_exceeds_limit (cr_headers request) PUBLIC_REQUEST_BODY_LIMIT_BYTES then ret_err BodyTooLarge
      else
        match suffix_after_machine (cr_path request) machine_id with
        | Err e => ret_err e
        | Ok suffix_path =>
            if negb (ra_loaded app) then ret_err (RegistryUnavailable "public relay registry manager is not loaded")
            else
              let!? target := resolve_machine machine_id in
              let!? permit := acquire_forward_permit machine_id in
              let! result := forward_body request target suffix_path in
              let! _ := drop_permit permit in
              Ret result
        end
  end.
Definition relay_callback (app : RelayApp) (request : CallbackRequest) : relay ForwardResponse :=
  let! result := try_callback app request in
  Ret match result with Ok forwarded => build_forward_response forwarded | Err e => public_error_response e end.

(** [healthz]: the status, and the number of machines. *)
Definition healthz (app : RelayApp) : relay (Z * nat) :=
  if ra_loaded app then let! machines := count_machines in Ret (200%Z, machines) else Ret (503%Z, 0).

Record UpsertMachineRequest := mkUpsertRequest {
  um_machine_id : option string; um_target_url : string; um_description : option string; um_disabled : option bool }.
Inductive AdminRequest :=
| ListMachines
| GetMachine (machine_id : string)
| UpsertMachine (body : UpsertMachineRequest)
| UpsertMachineAt (machine_id : string) (body : UpsertMachineRequest)
| RemoveMachine (machine_id : string)
| DisableMachine (machine_id : string)
| EnableMachine (machine_id : string)
| ImportRegistry (body : Value).
Inductive AdminReply :=
| Machines (l : list PublicRelayMachineView)
| Machine (v : PublicRelayMachineView)
| Mutated (o : RegistryWriteOutcome)
| Imported (accepted : list string) (quarantined : list QuarantinedEntry) (o : RegistryWriteOutcome).

Definition require_lab_admin (auth : option AuthContext) : result unit ToolError :=
  match auth with
  | None => Err (Sdk "auth_failed" "oauth relay admin API requires authentication")
  | Some ctx =>
      if existsb (String.eqb "lab:admin") (ctx_scopes ctx) then Ok ()
      else Err (Sdk "forbidden" "oauth relay admin API requires `lab:admin` scope")
  end.
Definition require_manager (app : RelayApp) : result unit ToolError :=
  if ra_loaded app then Ok ()
  else Err (Sdk "relay_registry_unavailable" ("public relay registry manager is not loaded at " +:+ ra_default_path app)).
Definition parse_machine (machine_id : string) : result string ToolError := map_err to_tool_error (machine_id_parse machine_id).

(** A mutation of the manager with its errors as the API reports them. *)
Definition mutate (p : relay (result RegistryWriteOutcome PublicRelayError)) : relay (result AdminReply ToolError) :=
  let! r := p in Ret match r with Ok outcome => Ok (Mutated outcome) | Err e => Err (to_tool_error e) end.
Definition upsert_machine (app : RelayApp) (machine_id : string) (body : UpsertMachineRequest) : relay (result AdminReply ToolError) :=
  match require_manager app, parse_machine machine_id with
  | Err e, _ | Ok _, Err e => ret_err e
  | Ok _, Ok m => mutate (upsert (mkRelayEntry m (um_target_url body) (um_description body) (default false (um_disabled body))))
  end.
(** A handler on the machine of its path. *)
Definition on_machine (app : RelayApp) (machine_id : string) (p : string → relay (result AdminReply ToolError)) : relay (result AdminReply ToolError) :=
  match require_manager app, parse_machine machine_id with
  | Err e, _ | Ok _, Err e => ret_err e
  | Ok _, Ok m => p m
  end.
Definition admin_list_machines (app : RelayApp) : relay (result AdminReply ToolError) :=
  match require_manager app with
  | Err e => ret_err e
  | Ok _ => let! l := list_relay_machines in ret_ok (Machines l)
  end.
Definition admin_get_machine (app : RelayApp) (machine_id : string) : relay (result AdminReply ToolError) :=
  on_machine app machine_id (fun m =>
    let! entry := relay_entry m in
    Ret match entry with
        | Some e => Ok (Machine (machine_view e))
        | None => Err (Sdk "not_found" "relay machine is not registered")
        end).
Definition upsert_machine_without_path (app : RelayApp) (body : UpsertMachineRequest) : relay (result AdminReply ToolError) :=
  match um_machine_id body with
  | None => ret_err (MissingParam "missing required parameter `machine_id`" "machine_id")
  | Some id => upsert_machine app id body
  end.
Definition remove_machine (app : RelayApp) (machine_id : string) : relay (result AdminReply ToolError) :=
  on_machine app machine_id (fun m => mutate (remove_entry m)).
Definition set_machine_disabled (app : RelayApp) (machine_id : string) (disabled : bool) : relay (result AdminReply ToolError) :=
  on_machine app machine_id (fun m => mutate (set_disabled m disabled)).
Definition import_registry (app : RelayApp) (body : Value) : relay (result AdminReply ToolError) :=
  match require_manager app, parse_registry_value body with
  | Err e, _ => ret_err e
  | Ok _, Err e => ret_err (to_tool_error e)
  | Ok _, Ok report =>
      let! r := import_report report in
      Ret match r with
          | Ok outcome => Ok (Imported (ir_accepted report) (ir_quarantined report) outcome)
          | Err e => Err (to_tool_error e)
          end
  end.

(** The admin routes. *)
Definition admin_operation (app : RelayApp) (request : AdminRequest) : relay (result AdminReply ToolError) :=
  match request with
  | ListMachines => admin_list_machines app
  | GetMachine id => admin_get_machine app id
  | UpsertMachine body => upsert_machine_without_path app body
  | UpsertMachineAt id body => upsert_machine app id body
  | RemoveMachine id => remove_machine app id
  | DisableMachine id => set_machine_disabled app id true
  | EnableMachine id => set_machine_disabled app id false
  | ImportRegistry body => import_registry app body
  end.
Definition admin_call (app : RelayApp) (auth : option AuthContext) (request : AdminRequest) : relay (result AdminReply ToolError) :=
  match require_lab_admin auth with Err e => ret_err e | Ok _ => admin_operation app request end.

End Registry.
Notation fileM := (prog file_resp).
Notation relay := (prog relay_resp).
