(* ===== verification/RelaySystem.v ===== *)
(** * RelaySystem: concurrent requests of the relay

    The manager of the relay is shared by every request of the server.  A
    request is a task that performs the effects of its handler one at a time; a
    save is a thread of its own, which goes on when the request that started it
    is dropped.  An action of the system is an arrival, one effect of a task or
    of a save, the cancellation of a task (the client disconnects, and the
    server drops the future of the handler), the panic of a save, or a save of
    another process: the [labby oauth relay-registry] commands write the same
    file and say that the server must be restarted. *)

From stdpp Require Import base list gmap strings.
From S2P Require Import Prelude RustStr BTree Prog AuthTypes WebPlatform GatewayConfig Paths Middleware Upstream Relay RelayRegistry.

(** ** State *)

(** [PublicRelayRegistryManager].  A guard or a permit is named by the task that
    holds it; a semaphore is its serial number. *)
Record Manager := mkManager {
  mg_snapshot : PublicRelaySnapshot;
  mg_mutation : option nat;
  mg_limits : gmap string nat;
  mg_next_sem : nat;
  mg_global : list nat;
  mg_machine : list (nat * nat);
}.
Definition set_snapshot (s : PublicRelaySnapshot) (m : Manager) : Manager :=
  mkManager s (mg_mutation m) (mg_limits m) (mg_next_sem m) (mg_global m) (mg_machine m).
Definition set_mutation (o : option nat) (m : Manager) : Manager :=
  mkManager (mg_snapshot m) o (mg_limits m) (mg_next_sem m) (mg_global m) (mg_machine m).
Definition set_limits (l : gmap string nat * nat) (m : Manager) : Manager :=
  mkManager (mg_snapshot m) (mg_mutation m) l.1 l.2 (mg_global m) (mg_machine m).
Definition set_global (l : list nat) (m : Manager) : Manager :=
  mkManager (mg_snapshot m) (mg_mutation m) (mg_limits m) (mg_next_sem m) l (mg_machine m).
Definition set_machine (l : list (nat * nat)) (m : Manager) : Manager :=
  mkManager (mg_snapshot m) (mg_mutation m) (mg_limits m) (mg_next_sem m) (mg_global m) l.

(** [entry(machine).or_insert_with(..)] on the limits and the next serial number. *)
Definition limit_or_insert (l : gmap string nat * nat) (machine : string) : gmap string nat * nat :=
  match l.1 !! machine with Some _ => l | None => (<[machine := l.2]> l.1, S l.2) end.
Definition rebuild_machine_limits (m : Manager) : gmap string nat * nat :=
  foldl limit_or_insert (filter (fun kv => is_Some (mg_snapshot m !! kv.1)) (mg_limits m), mg_next_sem m)
    (fst <$> btree_entries (mg_snapshot m)).

(** Requests, and what becomes of them. *)
Inductive RelayCall :=
| CallbackCall (r : CallbackRequest)
| HealthCall
| AdminCall (auth : option AuthContext) (r : AdminRequest).
Inductive RelayOutcome :=
| Responded (r : ForwardResponse)
| Health (h : Z * nat)
| Replied (r : result AdminReply ToolError).

(** A save on its blocking thread; a panic ends it with the message that the
    [JoinError] has. *)
Notation SaveThread := (fileM (result (result RegistryWriteOutcome PublicRelayError) string)).

Record RelayTask := mkRelayTask { tk_call : RelayCall; tk_prog : relay RelayOutcome }.

(** The running server and the registry file.  [sy_commits] records the
    mutations that have been installed, in their order; no code reads it. *)
Record RelaySys := mkSys {
  sy_manager : Manager;
  sy_file : option string;
  sy_tasks : gmap nat RelayTask;
  sy_next_task : nat;
  sy_saves : gmap nat SaveThread;
  sy_next_save : nat;
  sy_commits : list (nat * (option AuthContext * AdminRequest));
}.
Definition set_manager (m : Manager) (s : RelaySys) : RelaySys :=
  mkSys m (sy_file s) (sy_tasks s) (sy_next_task s) (sy_saves s) (sy_next_save s) (sy_commits s).
Definition set_task (i : nat) (t : RelayTask) (s : RelaySys) : RelaySys :=
  mkSys (sy_manager s) (sy_file s) (<[i := t]> (sy_tasks s)) (sy_next_task s) (sy_saves s) (sy_next_save s) (sy_commits s).

Fixpoint remove_one {A} (p : A → bool) (l : list A) : list A :=
  match l with [] => [] | x :: r => if p x then r else x :: remove_one p r end.
Definition held_of (sem : nat) (l : list (nat * nat)) : nat := length (filter (fun p => p.1 = sem) l).

Section System.
Context `{RelayPlatform} (app : RelayApp) (store : PublicRelayRegistryStore).

Definition call_program (c : RelayCall) : relay RelayOutcome :=
  match c with
  | CallbackCall r => let! x := relay_callback app r in Ret (Responded x)
  | HealthCall => let! x := healthz app in Ret (Health x)
  | AdminCall auth r => let! x := admin_call app auth r in Ret (Replied x)
  end.

Definition save_thread (entries : list PublicRelayEntry) : SaveThread :=
  let! r := save_entries_sync store entries in ret_ok r.

(** ** Effects *)

(** One effect of task [i].  What the environment decides (the body of the
    request, the upstream) comes from [env]; [None] says that the effect must
    wait.  A save is joined when it has ended. *)
Definition task_effect (i : nat) (e : RelayE) (env : ∀ e, relay_resp e) (s : RelaySys) : option (relay_resp e * RelaySys) :=
  let m := sy_manager s in
  match e return option (relay_resp e * RelaySys) with
  | SnapRead => Some (mg_snapshot m, s)
  | SnapWrite x =>
      Some ((), mkSys (set_snapshot x m) (sy_file s) (sy_tasks s) (sy_next_task s) (sy_saves s) (sy_next_save s)
                  (sy_commits s ++ match tk_call <$> sy_tasks s !! i with Some (AdminCall auth r) => [(i, (auth, r))] | _ => [] end))
  | MutLock => match mg_mutation m with None => Some ((), set_manager (set_mutation (Some i) m) s) | Some _ => None end
  | MutUnlock => Some ((), set_manager (set_mutation None m) s)
  | SpawnSave entries =>
      Some (sy_next_save s,
            mkSys m (sy_file s) (sy_tasks s) (sy_next_task s) (<[sy_next_save s := save_thread entries]> (sy_saves s))
              (S (sy_next_save s)) (sy_commits s))
  | JoinSave j => match sy_saves s !! j with Some (Ret r) => Some (r, s) | _ => None end
  | RebuildLimits => Some ((), set_manager (set_limits (rebuild_machine_limits m) m) s)
  | LimitGet machine => Some (mg_limits m !! machine, s)
  | LimitOrInsert machine =>
      let l := limit_or_insert (mg_limits m, mg_next_sem m) machine in
      (fun sem => (sem, set_manager (set_limits l m) s)) <$> l.1 !! machine
  | TryGlobal =>
      Some (if length (mg_global m) <? PUBLIC_GLOBAL_CONCURRENCY then (true, set_manager (set_global (i :: mg_global m) m) s)
            else (false, s))
  | DropGlobal => Some ((), set_manager (set_global (remove_one (Nat.eqb i) (mg_global m)) m) s)
  | TrySem sem =>
      Some (if held_of sem (mg_machine m) <? PUBLIC_PER_MACHINE_CONCURRENCY
            then (true, set_manager (set_machine ((sem, i) :: mg_machine m) m) s) else (false, s))
  | DropSem sem =>
      Some ((), set_manager (set_machine (remove_one (fun p => (p.1 =? sem) && (p.2 =? i)) (mg_machine m)) m) s)
  | ToBytes limit =>
      match env (ToBytes limit) with
      | Ok body => if bool_decide (Str.len body <= limit)%Z then Some (Ok body, s) else None
      | Err e => Some (Err e, s)
      end
  | Send method url headers body => Some (env (Send method url headers body), s)
  | ReadChunks => Some (env ReadChunks, s)
  end.

(** One call of a save.  Only the rename changes the file of the registry.
    [faults] allows a failing [sync_all] of the directory after the rename. *)
Definition file_effect (faults : bool) (e : FileE) (env : ∀ e, file_resp e) (file : option string) : file_resp e * option string :=
  match e return file_resp e * option string with
  | FExists => (is_some file, file)
  | FRead => (match file, env FRead with Some text, Ok _ => Ok text | _, Err x => Err x | None, Ok _ => Err "not found" end, file)
  | FPersist text => match env (FPersist text) with Ok _ => (Ok (), Some text) | Err x => (Err x, file) end
  | FSyncDir dir => (if faults then env (FSyncDir dir) else Ok (), file)
  | FCreateDirAll dir => (env (FCreateDirAll dir), file)
  | FNowMillis => (env FNowMillis, file)
  | FProcessId => (env FProcessId, file)
  | FOpenSource => (env FOpenSource, file)
  | FOpenBackup name => (env (FOpenBackup name), file)
  | FCopyBackup name => (env (FCopyBackup name), file)
  | FSyncBackup name => (env (FSyncBackup name), file)
  | FReadDir dir => (env (FReadDir dir), file)
  | FRemove path => (env (FRemove path), file)
  | FNewTemp dir => (env (FNewTemp dir), file)
  | FWriteTemp text => (env (FWriteTemp text), file)
  | FSyncTemp => (env FSyncTemp, file)
  end.

(** ** Actions *)

Inductive action :=
| Arrive (c : RelayCall)
| TaskStep (i : nat) (env : ∀ e, relay_resp e)
| SaveStep (j : nat) (env : ∀ e, file_resp e)
| Cancel (i : nat)
| SavePanic (j : nat) (message : string)
| OtherSave (entries : list PublicRelayEntry).

(** A [MachineId] has been parsed. *)
Definition parsed_id (e : PublicRelayEntry) : bool :=
  match machine_id_parse (re_machine_id e) with Ok id => String.eqb id (re_machine_id e) | Err _ => false end.

(** What a dropped future releases: its guard and its permits. *)
Definition release_held (i : nat) (m : Manager) : Manager :=
  mkManager (mg_snapshot m) (if bool_decide (mg_mutation m = Some i) then None else mg_mutation m) (mg_limits m) (mg_next_sem m)
    (filter (fun x => x ≠ i) (mg_global m)) (filter (fun p => p.2 ≠ i) (mg_machine m)).

(** [faults] also allows the cancellation of a task that holds the mutation
    lock, panics of saves, and saves of other processes. *)
Definition relay_act (faults : bool) (a : action) (s : RelaySys) : option RelaySys :=
  match a with
  | Arrive c =>
      Some (mkSys (sy_manager s) (sy_file s) (<[sy_next_task s := mkRelayTask c (call_program c)]> (sy_tasks s)) (S (sy_next_task s))
              (sy_saves s) (sy_next_save s) (sy_commits s))
  | TaskStep i env =>
      match sy_tasks s !! i with
      | Some (mkRelayTask c (Vis e k)) => '(r, s') ← task_effect i e env s; Some (set_task i (mkRelayTask c (k r)) s')
      | _ => None
      end
  | SaveStep j env =>
      match sy_saves s !! j with
      | Some (Vis e k) =>
          let '(r, file) := file_effect faults e env (sy_file s) in
          Some (mkSys (sy_manager s) file (sy_tasks s) (sy_next_task s) (<[j := k r]> (sy_saves s)) (sy_next_save s) (sy_commits s))
      | _ => None
      end
  | Cancel i =>
      match sy_tasks s !! i with
      | None => None
      | Some _ =>
          if negb faults && bool_decide (mg_mutation (sy_manager s) = Some i) then None
          else Some (mkSys (release_held i (sy_manager s)) (sy_file s) (delete i (sy_tasks s)) (sy_next_task s)
                       (sy_saves s) (sy_next_save s) (sy_commits s))
      end
  | SavePanic j message =>
      match sy_saves s !! j with
      | Some (Vis _ _) =>
          if faults
          then Some (mkSys (sy_manager s) (sy_file s) (sy_tasks s) (sy_next_task s) (<[j := ret_err message]> (sy_saves s))
                       (sy_next_save s) (sy_commits s))
          else None
      | _ => None
      end
  | OtherSave entries =>
      if faults && forallb parsed_id entries
      then Some (mkSys (sy_manager s) (sy_file s) (sy_tasks s) (sy_next_task s)
                   (<[sy_next_save s := save_thread entries]> (sy_saves s)) (S (sy_next_save s)) (sy_commits s))
      else None
  end.
Definition relay_step (faults : bool) (s s' : RelaySys) : Prop := ∃ a, relay_act faults a s = Some s'.
Fixpoint relay_acts (faults : bool) (l : list action) (s : RelaySys) : option RelaySys :=
  match l with [] => Some s | a :: r => s' ← relay_act faults a s; relay_acts faults r s' end.

(** ** Start *)

(** The registry that a server started on this file comes up with. *)
Definition reload (file : option string) : result PublicRelaySnapshot PublicRelayError :=
  (run (fun e _ => file_effect false e (fun e => match e with FRead => Ok EmptyString | FExists => true | FNowMillis => Ok 0%Z
                                                     | FProcessId => 0%Z | FReadDir _ => None | FRemove _ => true | _ => Ok () end) file)
     load_snapshot_sync file).1.
Definition loaded_manager (snapshot : PublicRelaySnapshot) : Manager :=
  let m := mkManager snapshot None ∅ 0 [] [] in set_limits (rebuild_machine_limits m) m.
Definition started (file : option string) : result RelaySys PublicRelayError :=
  let? snapshot := reload file in Ok (mkSys (loaded_manager snapshot) file ∅ 0 ∅ 0 []).

Definition relay_reachable (faults : bool) (file : option string) (s0 s : RelaySys) : Prop :=
  started file = Ok s0 ∧ rtc (relay_step faults) s0 s.

End System.
