(* ===== verification/RelayProps.v ===== *)
(** * RelayProps: the relay under concurrent requests

    The registry as an abstract map ([registry_spec]), the round trip of a
    registry through its text, the discipline that every handler follows under
    the lock and the permits ([rule], [follows]), what a save writes, and the
    invariant of the running server. *)

From Stdlib Require Import Sorted.
From stdpp Require Import base functions list gmap strings.
From S2P Require Import Prelude RustStr BTree Prog AuthTypes SamplePlatform WebPlatform GatewayConfig Middleware Upstream Paths Relay RelayRegistry RelaySystem.

(** ** Maps and their entries in key order *)

Definition values {V} (m : gmap string V) : list V := snd <$> btree_entries m.

Lemma fst_btree_entries {V} (m : gmap string V) : fst <$> btree_entries m = BTreeSet.from_iter (fst <$> map_to_list m).
Proof.
  unfold btree_entries. assert (Hk : ∀ k, k ∈ BTreeSet.from_iter (fst <$> map_to_list m) → is_Some (m !! k)).
  { intros k Hk. apply BTreeSet.elem_from_iter, list_elem_of_fmap in Hk as ([k' v] & -> & Hv%elem_of_map_to_list). by exists v. }
  revert Hk. generalize (BTreeSet.from_iter (fst <$> map_to_list m)). intros l Hk. induction l as [|k l IH]; [done|].
  destruct (Hk k ltac:(set_solver)) as [v Hv]. cbn. rewrite Hv. cbn. f_equal. apply IH. set_solver.
Qed.
Lemma ordered_NoDup l : BTreeSet.ordered l → NoDup l.
Proof.
  intros Hs. apply Sorted_StronglySorted in Hs; [|intros a b c; apply string_lt_trans].
  induction Hs as [|x l _ IH Hx]; constructor; [|done]. intros Hin. rewrite List.Forall_forall in Hx.
  specialize (Hx x (proj1 (list_elem_of_In _ _) Hin)). pose proof (String.compare_antisym x x) as Ha. by rewrite Hx in Ha.
Qed.
Lemma btree_NoDup {V} (m : gmap string V) : NoDup (fst <$> btree_entries m).
Proof. rewrite fst_btree_entries. apply ordered_NoDup, BTreeSet.ordered_from_iter. Qed.

Lemma elem_values {V} (m : gmap string V) v : v ∈ values m ↔ ∃ k, m !! k = Some v.
Proof.
  unfold values. rewrite list_elem_of_fmap. split.
  - intros ([k v'] & -> & Hv%elem_btree_entries). by exists k.
  - intros [k Hk]. exists (k, v). by rewrite elem_btree_entries.
Qed.

(** A map whose entries are stored under their own ids. *)
Definition own_keys (m : PublicRelaySnapshot) : Prop := map_Forall (fun k e => re_machine_id e = k) m.

Lemma keyed_fmap m : own_keys m → (fun e => (re_machine_id e, e)) <$> values m = btree_entries m.
Proof.
  intros Hk. unfold values. rewrite <- list_fmap_compose. rewrite <- (list_fmap_id (btree_entries m)) at 2.
  apply list_fmap_ext. intros i [k e] He. cbn. rewrite (Hk k e); [done|]. apply elem_btree_entries. by eapply list_elem_of_lookup_2.
Qed.
Lemma keyed_list_to_map m : own_keys m → list_to_map ((fun e => (re_machine_id e, e)) <$> values m) = m.
Proof.
  intros Hk. rewrite keyed_fmap by done. apply map_eq. intros k. apply option_eq. intros v.
  rewrite <- elem_of_list_to_map, elem_btree_entries; [done|apply btree_NoDup].
Qed.
Definition add_entry (m : PublicRelaySnapshot) (e : PublicRelayEntry) : PublicRelaySnapshot := <[re_machine_id e := e]> m.
Lemma foldl_add l m : NoDup (re_machine_id <$> l) → foldl add_entry m l = list_to_map ((fun e => (re_machine_id e, e)) <$> l) ∪ m.
Proof.
  revert m. induction l as [|e l IH]; intros m Hn; cbn; [by rewrite left_id_L by apply _|].
  apply NoDup_cons in Hn as [He Hn]. rewrite IH by done. unfold add_entry.
  rewrite <- insert_union_l, insert_union_r; [done|]. apply not_elem_of_list_to_map. by rewrite <- list_fmap_compose.
Qed.
Lemma values_ids m : own_keys m → re_machine_id <$> values m = fst <$> btree_entries m.
Proof. intros Hk. rewrite <- keyed_fmap by done. by rewrite <- list_fmap_compose. Qed.
Lemma values_NoDup m : own_keys m → NoDup (re_machine_id <$> values m).
Proof. intros Hk. rewrite values_ids by done. apply btree_NoDup. Qed.
Lemma foldl_values m : own_keys m → foldl add_entry ∅ (values m) = m.
Proof. intros Hk. rewrite foldl_add, keyed_list_to_map by auto using values_NoDup. apply (right_id_L ∅ (∪)). Qed.

Section Registry.
Context `{RelayPlatform}.

(** ** Valid registries *)

(** What the types of the source promise of an entry, and what its checks do. *)
Definition id_ok (e : PublicRelayEntry) : Prop := machine_id_parse (re_machine_id e) = Ok (re_machine_id e).
Definition valid_entry (e : PublicRelayEntry) : Prop := id_ok e ∧ ∃ t, entry_target e = Ok t.
Definition valid_snapshot (m : PublicRelaySnapshot) : Prop := own_keys m ∧ map_Forall (fun _ => valid_entry) m.

Lemma valid_insert m e : valid_snapshot m → valid_entry e → valid_snapshot (<[re_machine_id e := e]> m).
Proof. intros [Hk Hv] He. split; by apply map_Forall_insert_2. Qed.
Lemma valid_delete m k : valid_snapshot m → valid_snapshot (delete k m).
Proof. intros [Hk Hv]. split; by apply map_Forall_delete. Qed.
Lemma valid_empty : valid_snapshot ∅.
Proof. split; apply map_Forall_empty. Qed.
Lemma valid_values m : valid_snapshot m → Forall valid_entry (values m).
Proof. intros [_ Hv]. apply Forall_forall. intros e [k Hk]%elem_values. by eapply Hv. Qed.

(** The accepted entries of an import are valid. *)
Lemma import_entry_valid report m e :
  valid_snapshot m → id_ok e → valid_snapshot (import_entry (report, m) e).2.
Proof.
  intros Hm He. unfold import_entry. destruct (entry_target e) as [t|] eqn:Ht; [|done]. case_match; [done|]. cbn.
  apply valid_insert; [done|]. split; [done|]. by exists t.
Qed.
Lemma import_fold_valid es acc : valid_snapshot acc.2 → Forall id_ok es → valid_snapshot (foldl import_entry acc es).2.
Proof.
  intros Hm Hes. revert acc Hm. induction Hes as [|e es He _ IH]; intros acc Hm; cbn; [done|].
  apply IH. destruct acc. by apply import_entry_valid.
Qed.
Lemma import_entries_valid es : Forall id_ok es → ∃ m, valid_snapshot m ∧ ir_entries (import_entries es) = values m.
Proof.
  intros Hes. unfold import_entries. pose proof (import_fold_valid es (mkImportReport [] [] [], ∅) valid_empty Hes) as Hv.
  destruct (foldl import_entry _ es) as [report m]. exists m. by split.
Qed.

(** Entries under distinct ids with good targets are all accepted. *)
Lemma import_fold_all es report m :
  Forall (fun e => ∃ t, entry_target e = Ok t) es → NoDup (re_machine_id <$> es) → Forall (fun e => m !! re_machine_id e = None) es →
  foldl import_entry (report, m) es =
  (mkImportReport (ir_accepted report ++ (re_machine_id <$> es)) (ir_quarantined report) (ir_entries report), foldl add_entry m es).
Proof.
  intros Ht. revert report m. induction Ht as [|e es [t Ht] _ IH]; intros report m Hn Hm; cbn.
  { destruct report; cbn. by rewrite app_nil_r. }
  apply Forall_cons in Hm as [He Hm]. apply NoDup_cons in Hn as [Hin Hn]. rewrite Ht, He. rewrite IH; [|done|].
  - cbn. by rewrite <- app_assoc.
  - rewrite Forall_forall in Hm |- *. intros e' He'. unfold add_entry. rewrite lookup_insert_ne; [by apply Hm|].
    intros Heq. apply Hin. rewrite Heq. by apply list_elem_of_fmap_2.
Qed.
Lemma import_values m :
  valid_snapshot m → import_entries (values m) = mkImportReport (re_machine_id <$> values m) [] (values m).
Proof.
  intros Hv. destruct (Hv) as [Hk _]. unfold import_entries. rewrite import_fold_all; cbn.
  - by rewrite foldl_values.
  - eapply Forall_impl; [by apply valid_values|]. by intros e [_ ?].
  - by apply values_NoDup.
  - apply Forall_true. intros e. apply lookup_empty.
Qed.

(** ** Reading what was written *)

Lemma entry_round e : id_ok e → entry_of_value (value_of_entry e) = Ok e.
Proof. destruct e as [m t [d|] b]; unfold id_ok; cbn; intros Hm; unfold entry_of_value; cbn; rewrite Hm; done. Qed.
Lemma parse_items_round es :
  Forall id_ok es → parse_array_item <$> (value_of_entry <$> es) = inl <$> es.
Proof.
  intros Hes. rewrite <- list_fmap_compose. induction Hes as [|e es He _ IH]; [done|]. cbn. f_equal; [|done].
  unfold parse_array_item. cbn. by rewrite entry_round.
Qed.
Lemma omap_inl {A B} (l : list A) : omap (fun x : A + B => match x with inl a => Some a | inr _ => None end) (inl <$> l) = l.
Proof. induction l as [|a l IH]; cbn; by f_equal. Qed.
Lemma omap_inr {A B} (l : list A) : omap (fun x : A + B => match x with inr b => Some b | inl _ => None end) (inl <$> l) = [].
Proof. by induction l. Qed.
Lemma parse_registry_round m :
  valid_snapshot m → parse_registry_value (registry_value (values m)) = Ok (mkImportReport (re_machine_id <$> values m) [] (values m)).
Proof.
  intros Hv. unfold parse_registry_value, registry_value, parse_object_shape. cbn [get find_first fst String.eqb Ascii.eqb Bool.eqb snd].
  assert (Hes : Forall id_ok (values m)) by (eapply Forall_impl; [by apply valid_values|]; by intros e [? _]).
  change (get "version" _) with (Some (VNumber REGISTRY_FILE_VERSION)).
  change (get "entries" _) with (Some (VArray (value_of_entry <$> values m))). cbn.
  unfold parse_array_shape, import_items. rewrite parse_items_round by done. rewrite omap_inl, omap_inr, import_values by done. done.
Qed.
Lemma snapshot_round raw m :
  valid_snapshot m → json_read raw = Ok (registry_value (values m)) → snapshot_of_text raw = Ok m.
Proof.
  intros Hv Hr. unfold snapshot_of_text, parse_standalone_registry. rewrite Hr, parse_registry_round by done. cbn.
  f_equal. apply foldl_values, Hv.
Qed.

(** Whatever the shape of the input, the ids of the entries have been parsed. *)
Lemma entry_of_value_id v e : entry_of_value v = Ok e → id_ok e.
Proof.
  assert (Hf : ∀ m t d b, entry_fields m t d b = Some e → id_ok e).
  { intros m t d b Hf. unfold entry_fields in Hf. apply bind_Some in Hf as (text & _ & Hf).
    destruct (machine_id_parse text) as [id|] eqn:Hid; [|done]. apply bind_Some in Hf as (id' & [= <-] & Hf).
    apply bind_Some in Hf as (? & _ & Hf). apply bind_Some in Hf as (? & _ & Hf). apply bind_Some in Hf as (? & _ & [= <-]).
    unfold id_ok. cbn. pose proof (machine_id_parse_ok _ _ Hid) as [-> _]. done. }
  unfold entry_of_value, ok_or. intros Hv. case_match eqn:E; [|done]. injection Hv as <-. repeat case_match; try done; simplify_eq; try (by eapply Hf).
  apply bind_Some in E as (? & _ & E). apply bind_Some in E as (? & _ & E). by eapply Hf.
Qed.
Lemma import_items_valid {A} (f : A → PublicRelayEntry + QuarantinedEntry) items :
  (∀ x e, f x = inl e → id_ok e) → ∃ m, valid_snapshot m ∧ ir_entries (import_items f items) = values m.
Proof.
  intros Hf. unfold import_items, with_quarantined. cbn. apply import_entries_valid. apply Forall_forall.
  intros e (x & (a & -> & _)%list_elem_of_fmap & He)%list_elem_of_omap. destruct (f a) eqn:E; simplify_eq. by eapply Hf.
Qed.
Lemma parse_array_item_id x e : parse_array_item x = inl e → id_ok e.
Proof. unfold parse_array_item. destruct (entry_of_value x) eqn:E; [|done]. intros [= <-]. by eapply entry_of_value_id. Qed.
Lemma parse_object_item_id x e : parse_object_item x = inl e → id_ok e.
Proof.
  destruct x as [k v]. unfold parse_object_item. repeat case_match; intros; simplify_eq.
  - unfold id_ok. cbn. match goal with E : machine_id_parse _ = Ok _ |- _ => pose proof (machine_id_parse_ok _ _ E) as [-> _]; done end.
  - by eapply entry_of_value_id.
Qed.
Lemma parse_registry_valid v report :
  parse_registry_value v = Ok report → ∃ m, valid_snapshot m ∧ ir_entries report = values m.
Proof.
  unfold parse_registry_value, parse_object_shape, parse_array_shape. intros Hp.
  repeat case_match; simplify_eq; (apply import_items_valid, parse_array_item_id || apply import_items_valid, parse_object_item_id).
Qed.
Lemma snapshot_of_text_valid raw m : snapshot_of_text raw = Ok m → valid_snapshot m.
Proof.
  unfold snapshot_of_text, parse_standalone_registry. intros (report & Hr & Hm)%let_ok.
  destruct (json_read raw) as [v|]; [|done]. apply parse_registry_valid in Hr as (x & Hx & He). case_match; [done|].
  injection Hm as <-. rewrite He. change (valid_snapshot (foldl add_entry ∅ (values x))). by rewrite foldl_values by apply Hx.
Qed.

(** The check of a candidate set. *)
Lemma snapshot_from_ok es m x :
  snapshot_from m es = Ok x → Forall (fun e => ∃ t, entry_target e = Ok t) es ∧ x = foldl add_entry m es.
Proof.
  revert m. induction es as [|e es IH]; intros m; cbn; [intros [= <-]; by split|].
  intros (t & Ht & Hx)%let_ok. apply IH in Hx as [Hes ->]. split; [constructor; [by exists t|done]|done].
Qed.
Lemma snapshot_from_values m x :
  own_keys m → Forall id_ok (values m) → snapshot_from_entries (values m) = Ok x → x = m ∧ valid_snapshot m.
Proof.
  intros Hk Hid [Ht ->]%snapshot_from_ok. split; [by rewrite foldl_values|]. split; [done|].
  intros k e He. assert (Hin : e ∈ values m) by (apply elem_values; by exists k). rewrite Forall_forall in Hid, Ht. split; auto.
Qed.

(** ** The registry as an abstract map *)

Definition spec_put (e : PublicRelayEntry) (m : PublicRelaySnapshot) : option PublicRelaySnapshot :=
  match machine_id_parse (re_machine_id e), entry_target e with Ok _, Ok _ => Some (<[re_machine_id e := e]> m) | _, _ => None end.
Definition spec_upsert (id : string) (body : UpsertMachineRequest) : PublicRelaySnapshot → option PublicRelaySnapshot :=
  spec_put (mkRelayEntry id (um_target_url body) (um_description body) (default false (um_disabled body))).
Definition spec_disable (id : string) (disabled : bool) (m : PublicRelaySnapshot) : option PublicRelaySnapshot :=
  e ← m !! id; Some (<[id := with_disabled disabled e]> m).

(** What each request means for the registry; [None] changes nothing. *)
Definition registry_spec (r : AdminRequest) (m : PublicRelaySnapshot) : option PublicRelaySnapshot :=
  match r with
  | ListMachines | GetMachine _ => None
  | UpsertMachine body => id ← um_machine_id body; spec_upsert id body m
  | UpsertMachineAt id body => spec_upsert id body m
  | RemoveMachine id => _ ← m !! id; Some (delete id m)
  | DisableMachine id => spec_disable id true m
  | EnableMachine id => spec_disable id false m
  | ImportRegistry body =>
      match parse_registry_value body with
      | Ok report =>
          if bool_decide (ir_quarantined report = [] ∧ ir_entries report ≠ [])
          then Some (list_to_map ((fun e => (re_machine_id e, e)) <$> ir_entries report)) else None
      | Err _ => None
      end
  end.
(** The mutations of a history, one after the other. *)
Fixpoint replay (m : PublicRelaySnapshot) (l : list AdminRequest) : option PublicRelaySnapshot :=
  match l with [] => Some m | r :: rest => m' ← registry_spec r m; replay m' rest end.
Lemma replay_app m l r m' : replay m l = Some m' → replay m (l ++ [r]) = registry_spec r m'.
Proof.
  revert m. induction l as [|x l IH]; intros m; cbn.
  - intros [= <-]. by destruct (registry_spec r m).
  - intros (m1 & -> & Hr)%bind_Some. by apply IH.
Qed.

(** ** The discipline of a handler *)

(** Where a task stands: what it holds, and the registry it works on. *)
Inductive phase :=
| Free (committed : bool)
| WithGlobal
| WithPermit (sem : nat)
| HalfDropped (sem : nat)
| Locked (now : PublicRelaySnapshot)
| Saving (now new : PublicRelaySnapshot) (save : nat)
| Saved (now new : PublicRelaySnapshot)
| Installed (new : PublicRelaySnapshot).

Definition authorised (c : RelayCall) : Prop :=
  match c with AdminCall auth _ => require_lab_admin auth = Ok () | _ => False end.
Definition means (c : RelayCall) (m m' : PublicRelaySnapshot) : Prop :=
  match c with AdminCall _ r => registry_spec r m = Some m' | _ => False end.

Definition is_callback (c : RelayCall) : bool := match c with CallbackCall _ => true | _ => false end.

(** The effects that a task may perform in a phase, and where they lead. *)
Definition rule (c : RelayCall) (ph : phase) (e : RelayE) : (relay_resp e → phase → Prop) → Prop :=
  match e return (relay_resp e → phase → Prop) → Prop with
  | SnapRead => fun K => ∀ r, valid_snapshot r → (∀ m, ph = Locked m → r = m) → K r ph
  | SnapWrite x => fun K => ∃ m, ph = Saved m x ∧ K () (Installed x)
  | MutLock => fun K => ph = Free false ∧ authorised c ∧ ∀ m, valid_snapshot m → K () (Locked m)
  | MutUnlock => fun K =>
      match ph with Locked _ => K () (Free false) | Installed _ => K () (Free true) | _ => False end
  | SpawnSave es => fun K =>
      ∃ m m', ph = Locked m ∧ means c m m' ∧ valid_snapshot m' ∧ es = values m' ∧ ∀ j, K j (Saving m m' j)
  | JoinSave j => fun K =>
      ∃ m m', ph = Saving m m' j ∧ ∀ r, K r (match r with Ok (Ok _) => Saved m m' | _ => Locked m end)
  | RebuildLimits => fun K => ∃ m, ph = Installed m ∧ K () ph
  | LimitGet _ => fun K => ∀ r, K r ph
  | LimitOrInsert _ => fun K => ∀ r, K r ph
  | TryGlobal => fun K => ph = Free false ∧ ∀ r : bool, K r (if r then WithGlobal else Free false)
  | DropGlobal => fun K =>
      match ph with WithGlobal => K () (Free false) | WithPermit sem => K () (HalfDropped sem) | _ => False end
  | TrySem sem => fun K => ph = WithGlobal ∧ ∀ r : bool, K r (if r then WithPermit sem else WithGlobal)
  | DropSem sem => fun K => ph = HalfDropped sem ∧ K () (Free false)
  | ToBytes _ => fun K => ∃ sem, ph = WithPermit sem ∧ ∀ r, K r ph
  | Send _ _ _ _ => fun K => ∃ sem, ph = WithPermit sem ∧ is_callback c = true ∧ ∀ r, K r ph
  | ReadChunks => fun K => ∃ sem, ph = WithPermit sem ∧ ∀ r, K r ph
  end.
Fixpoint follows {A} (c : RelayCall) (ph : phase) (p : relay A) (Q : phase → A → Prop) : Prop :=
  match p with
  | Ret a => Q ph a
  | Vis e k => rule c ph e (fun r ph' => follows c ph' (k r) Q)
  end.

Lemma rule_mono c ph e (K K' : relay_resp e → phase → Prop) :
  (∀ r ph', K r ph' → K' r ph') → rule c ph e K → rule c ph e K'.
Proof. intros HK. destruct e; cbn; try naive_solver. all: destruct ph; naive_solver. Qed.
Lemma follows_bind {A B} c ph (p : relay A) (f : A → relay B) Q :
  follows c ph p (fun ph' a => follows c ph' (f a) Q) → follows c ph (pbind p f) Q.
Proof.
  revert ph. induction p as [a|e k IH]; intros ph; cbn [follows pbind]; [done|]. apply rule_mono. intros r ph'. apply IH.
Qed.
Lemma follows_mono {A} c ph (p : relay A) (Q R : phase → A → Prop) :
  (∀ ph a, Q ph a → R ph a) → follows c ph p Q → follows c ph p R.
Proof. intros HQ. revert ph. induction p as [a|e k IH]; intros ph; cbn [follows]; [auto|]. apply rule_mono. intros r ph'. apply IH. Qed.
Lemma follows_bind_spec {A B} c ph (p : relay A) (f : A → relay B) (P : phase → A → Prop) Q :
  follows c ph p P → (∀ ph' a, P ph' a → follows c ph' (f a) Q) → follows c ph (pbind p f) Q.
Proof. intros Hp Hf. apply follows_bind. eapply follows_mono; [|exact Hp]. done. Qed.

(** *** Mutations *)

(** The end of a locked section: installed when it succeeds, untouched when not. *)
Definition section_end {A Er} (m : PublicRelaySnapshot) (ph : phase) (r : result A Er) : Prop :=
  match r with Ok _ => ∃ m', ph = Installed m' | Err _ => ph = Locked m end.
Definition ended {A Er} (ph : phase) (r : result A Er) : Prop := ph = Free (match r with Ok _ => true | Err _ => false end).

Lemma validate_and_install_follows c m x :
  own_keys x → Forall id_ok (values x) → (valid_snapshot x → means c m x) →
  follows c (Locked m) (validate_and_install (values x)) (section_end m).
Proof.
  intros Hk Hid Hm. unfold validate_and_install. destruct (snapshot_from_entries (values x)) as [x'|] eqn:Hx; [|done].
  apply snapshot_from_values in Hx as [-> Hv]; [|done..]. cbn. exists m, x. split_and!; try done; [by apply Hm|].
  intros j. exists m, x. split; [done|]. intros [[o|]|]; cbn; [|done..]. exists m. split; [done|]. exists x. split; [done|]. by exists x.
Qed.
Lemma with_mutation_follows {A Er} c (p : relay (result A Er)) :
  authorised c → (∀ m, valid_snapshot m → follows c (Locked m) p (section_end m)) →
  follows c (Free false) (with_mutation p) ended.
Proof.
  intros Ha Hp. cbn. split_and!; [done..|]. intros m Hm. eapply follows_bind_spec; [by apply Hp|].
  intros ph [a|e]; cbn; [intros [x ->]|intros ->]; done.
Qed.

Lemma mutate_follows c (p : relay (result RegistryWriteOutcome PublicRelayError)) :
  follows c (Free false) p ended → follows c (Free false) (mutate p) ended.
Proof. intros Hp. eapply follows_bind_spec; [exact Hp|]. by intros ph [o|e] ->. Qed.

Section Operations.
Context (c : RelayCall) (Hauth : authorised c).

Lemma upsert_follows e :
  id_ok e → (∀ m, (∃ t, entry_target e = Ok t) → means c m (<[re_machine_id e := e]> m)) →
  follows c (Free false) (upsert e) ended.
Proof.
  intros Hid Hm. apply with_mutation_follows; [done|]. intros m Hv. cbn. intros ? _ Hr. rewrite (Hr m eq_refl). clear Hr.
  assert (Hk : own_keys (<[re_machine_id e := e]> m)) by (apply map_Forall_insert_2; [done|apply Hv]).
  apply validate_and_install_follows; [done| |].
  - apply Forall_forall. intros e' [k Hk']%elem_values. destruct (decide (k = re_machine_id e)) as [->|Hne].
    + rewrite lookup_insert_eq in Hk'. by injection Hk' as <-.
    + rewrite lookup_insert_ne in Hk' by done. by destruct (proj2 Hv k e' Hk').
  - intros [_ Hv']. apply Hm. by destruct (Hv' _ _ (lookup_insert_eq m (re_machine_id e) e)).
Qed.
Lemma remove_follows id :
  (∀ m, is_Some (m !! id) → means c m (delete id m)) → follows c (Free false) (remove_entry id) ended.
Proof.
  intros Hm. apply with_mutation_follows; [done|]. intros m Hv. cbn. intros ? _ Hr. rewrite (Hr m eq_refl). clear Hr.
  destruct (m !! id) eqn:E; [|done]. pose proof (valid_delete m id Hv) as Hd.
  apply validate_and_install_follows; [apply Hd| |intros _; by apply Hm].
  eapply Forall_impl; [by apply valid_values|]. by intros e' [? _].
Qed.
Lemma set_disabled_follows id disabled :
  (∀ m e, m !! id = Some e → means c m (<[id := with_disabled disabled e]> m)) →
  follows c (Free false) (set_disabled id disabled) ended.
Proof.
  intros Hm. apply with_mutation_follows; [done|]. intros m Hv. cbn. intros ? _ Hr. rewrite (Hr m eq_refl). clear Hr.
  destruct (m !! id) as [e|] eqn:E; [|done].
  assert (Hd : valid_snapshot (<[id := with_disabled disabled e]> m)).
  { pose proof (proj1 Hv id e E) as <-. change (re_machine_id e) with (re_machine_id (with_disabled disabled e)) at 1.
    apply valid_insert; [done|]. apply (proj2 Hv _ _ E). }
  apply validate_and_install_follows; [apply Hd| |intros _; by apply Hm].
  eapply Forall_impl; [by apply valid_values|]. by intros e' [? _].
Qed.
Lemma import_follows report x :
  valid_snapshot x → ir_entries report = values x →
  (∀ m, ir_quarantined report = [] → ir_entries report ≠ [] → means c m x) →
  follows c (Free false) (import_report report) ended.
Proof.
  intros Hv He Hm. unfold import_report, ensure_complete_import, quarantine_summary.
  destruct (ir_quarantined report) eqn:Hq; [|done]. case_bool_decide as Hn; [done|].
  apply with_mutation_follows; [done|]. intros m _. rewrite He. apply validate_and_install_follows; [apply Hv| |auto].
  eapply Forall_impl; [by apply valid_values|]. by intros e' [? _].
Qed.
End Operations.

(** *** Requests *)

(** A reply that reports a mutation. *)
Definition acknowledged (o : RelayOutcome) : bool :=
  match o with Replied (Ok (Mutated _)) | Replied (Ok (Imported _ _ _)) => true | _ => false end.
Definition reply_done (r : result AdminReply ToolError) : bool := acknowledged (Replied r).
Definition replied (ph : phase) (r : result AdminReply ToolError) : Prop := ph = Free (reply_done r).

Lemma mutate_replied c p : follows c (Free false) p ended → follows c (Free false) (mutate p) replied.
Proof. intros Hp. eapply follows_bind_spec; [exact Hp|]. by intros ph [o|e] ->. Qed.

Context (app : RelayApp).

Lemma on_machine_follows c id p :
  (∀ m, machine_id_parse id = Ok m → m = id → follows c (Free false) (p m) replied) →
  follows c (Free false) (on_machine app id p) replied.
Proof.
  intros Hp. unfold on_machine, parse_machine. destruct (require_manager app); [|done].
  destruct (machine_id_parse id) as [m|] eqn:Hid; [|done]. apply Hp; [done|]. by apply machine_id_parse_ok in Hid as [-> _].
Qed.
Lemma upsert_machine_follows c id body :
  authorised c → (∀ m x, spec_upsert id body m = Some x → means c m x) →
  follows c (Free false) (upsert_machine app id body) replied.
Proof.
  intros Ha Hm. unfold upsert_machine, parse_machine. destruct (require_manager app); [|done].
  destruct (machine_id_parse id) as [id'|] eqn:Hid; [|done]. pose proof (machine_id_parse_ok _ _ Hid) as [-> _].
  apply mutate_replied, upsert_follows; [done..|]. intros m [t Ht]. apply Hm. unfold spec_upsert, spec_put.
  cbn [re_machine_id]. by rewrite Hid, Ht.
Qed.
Lemma admin_operation_follows auth r :
  require_lab_admin auth = Ok () → follows (AdminCall auth r) (Free false) (admin_operation app r) replied.
Proof.
  intros Ha. destruct r as [|id|body|id body|id|id|id|body]; cbn [admin_operation];
    unfold admin_list_machines, admin_get_machine, upsert_machine_without_path, remove_machine, set_machine_disabled, import_registry.
  - destruct (require_manager app); cbn; done.
  - apply on_machine_follows. intros m _ ->. cbn. intros s _ _. by destruct (s !! id).
  - destruct (um_machine_id body) as [id|] eqn:E; [|done]. apply upsert_machine_follows; [done|]. cbn. by rewrite E.
  - by apply upsert_machine_follows.
  - apply on_machine_follows. intros m _ ->. apply mutate_replied, remove_follows; [done|]. intros m [e He]. cbn. by rewrite He.
  - apply on_machine_follows. intros m _ ->. apply mutate_replied, set_disabled_follows; [done|].
    intros m e He. cbn. unfold spec_disable. by rewrite He.
  - apply on_machine_follows. intros m _ ->. apply mutate_replied, set_disabled_follows; [done|].
    intros m e He. cbn. unfold spec_disable. by rewrite He.
  - destruct (require_manager app); [|done]. destruct (parse_registry_value body) as [report|] eqn:Hp; [|done].
    destruct (parse_registry_valid _ _ Hp) as (x & Hv & He). eapply (follows_bind_spec _ _ _ _ ended); [|by intros ph [o|e] ->].
    eapply import_follows; [done..|]. intros m Hq Hn. cbn. rewrite Hp. rewrite bool_decide_eq_true_2 by done.
    rewrite He. f_equal. apply keyed_list_to_map, Hv.
Qed.

Lemma forward_follows c sem request :
  is_callback c = true → follows c (WithPermit sem) (forward request) (fun ph _ => ph = WithPermit sem).
Proof.
  intros Hc. unfold forward. destruct (forward_url _ _ _); [|done]. cbn. exists sem. split_and!; [done..|]. intros [[status headers]|]; [|done].
  cbn. by exists sem.
Qed.
Lemma acquire_follows c m :
  follows c (Free false) (acquire_forward_permit m)
    (fun ph r => ph = match r with Ok sem => WithPermit sem | Err _ => Free false end).
Proof.
  unfold acquire_forward_permit. cbn. split; [done|]. intros [|]; cbn; [|done].
  assert (Hsem : ∀ sem, follows c WithGlobal (let! machine := relay_do (TrySem sem) in
     if machine then ret_ok sem else let! _ := relay_do DropGlobal in ret_err Overloaded)
     (fun ph r => ph = match r with Ok sem => WithPermit sem | Err _ => Free false end)).
  { intros sem. cbn. split; [done|]. by intros [|]. }
  intros [sem|]; [apply Hsem|]. cbn. intros sem. apply Hsem.
Qed.
Lemma forward_body_follows c sem request target suffix :
  is_callback c = true → follows c (WithPermit sem) (forward_body request target suffix) (fun ph _ => ph = WithPermit sem).
Proof. intros Hc. cbn. exists sem. split; [done|]. intros [body|[limit text]]; [by apply forward_follows|done]. Qed.
Lemma resolve_follows c ph m :
  follows c ph (resolve_machine m) (fun ph' _ => ph' = ph).
Proof. done. Qed.
Lemma try_callback_follows c request :
  is_callback c = true → follows c (Free false) (try_callback app request) (fun ph _ => ph = Free false).
Proof.
  intros Hc. unfold try_callback. destruct (machine_id_parse _) as [m|]; [|done]. do 2 match goal with |- follows _ _ (if ?b then _ else _) _ => destruct b; [done|] end.
  destruct (suffix_after_machine _ _) as [suffix|]; [|done]. destruct (ra_loaded app); [|done]. cbn [negb].
  eapply follows_bind_spec; [apply resolve_follows|]. intros ph [target|e] ->; [|done].
  eapply follows_bind_spec; [apply acquire_follows|]. intros ph [sem|e] ->; [|done].
  eapply follows_bind_spec; [by apply forward_body_follows|]. by intros ph r ->.
Qed.

(** Every request follows the discipline, and ends with nothing held. *)
Definition at_end (ph : phase) (o : RelayOutcome) : Prop := ph = Free (acknowledged o).
Lemma call_follows c : follows c (Free false) (call_program app c) at_end.
Proof.
  destruct c as [r| |auth r]; unfold call_program.
  - unfold relay_callback. eapply (follows_bind_spec _ _ _ _ (fun ph _ => ph = Free false)); [|by intros ph x ->].
    eapply follows_bind_spec; [by apply try_callback_follows|]. by intros ph [f|e] ->.
  - unfold healthz. by destruct (ra_loaded app).
  - eapply (follows_bind_spec _ _ _ _ replied); [|by intros ph x ->]. unfold admin_call.
    destruct (require_lab_admin auth) as [[]|] eqn:Ha; [by apply admin_operation_follows|done].
Qed.

(** ** What a save writes *)

(** A save of [x]: the only text it can put in place is the registry of [x];
    [b] says that it has. *)
Definition save_rule (faults : bool) (x : PublicRelaySnapshot) (b : bool) (e : FileE) : (file_resp e → bool → Prop) → Prop :=
  match e return (file_resp e → bool → Prop) → Prop with
  | FPersist text => fun K => b = false ∧ text = registry_text (values x) ∧ ∀ r, K r (is_ok r)
  | FSyncDir _ => fun K => ∀ r, (faults = false → r = Ok ()) → K r b
  | FExists => fun K => ∀ r, K r b
  | FRead => fun K => ∀ r, K r b
  | FCreateDirAll _ => fun K => ∀ r, K r b
  | FNowMillis => fun K => ∀ r, K r b
  | FProcessId => fun K => ∀ r, K r b
  | FOpenSource => fun K => ∀ r, K r b
  | FOpenBackup _ => fun K => ∀ r, K r b
  | FCopyBackup _ => fun K => ∀ r, K r b
  | FSyncBackup _ => fun K => ∀ r, K r b
  | FReadDir _ => fun K => ∀ r, K r b
  | FRemove _ => fun K => ∀ r, K r b
  | FNewTemp _ => fun K => ∀ r, K r b
  | FWriteTemp _ => fun K => ∀ r, K r b
  | FSyncTemp => fun K => ∀ r, K r b
  end.
Fixpoint writes {A} (faults : bool) (x : PublicRelaySnapshot) (b : bool) (p : fileM A) (Q : bool → A → Prop) : Prop :=
  match p with
  | Ret a => Q b a
  | Vis e k => save_rule faults x b e (fun r b' => writes faults x b' (k r) Q)
  end.
Lemma save_rule_mono faults x b e (K K' : file_resp e → bool → Prop) :
  (∀ r b', K r b' → K' r b') → save_rule faults x b e K → save_rule faults x b e K'.
Proof. intros HK. destruct e; cbn; naive_solver. Qed.
Lemma writes_bind {A B} faults x b (p : fileM A) (f : A → fileM B) (P : bool → A → Prop) Q :
  writes faults x b p P → (∀ b' a, P b' a → writes faults x b' (f a) Q) → writes faults x b (pbind p f) Q.
Proof.
  intros Hp Hf. revert b Hp. induction p as [a|e k IH]; intros b; cbn [writes pbind]; [apply Hf|].
  apply save_rule_mono. intros r b'. apply IH.
Qed.

(** A save says that it succeeded when it has put its text in place. *)
Definition save_ended {A Er} (faults : bool) (b : bool) (r : result A Er) : Prop := faults = false → b = is_ok r.

Lemma remove_each_quiet faults x b l : writes faults x b (remove_each l) (fun b' _ => b' = b).
Proof. induction l as [|p l IH]; cbn; [done|]. intros _. apply IH. Qed.
Lemma prune_quiet store parent keep faults x b : writes faults x b (prune_old_backups store parent keep) (fun b' _ => b' = b).
Proof. cbn. intros [l|]; [apply remove_each_quiet|done]. Qed.
Lemma create_backup_quiet store faults x b : writes faults x b (create_backup store) (fun b' _ => b' = b).
Proof. unfold create_backup. cbn. intros [now|]; [|done]. cbn. intros pid [[]|]; [|done]. cbn. do 3 (intros [[]|]; [|done]; cbn). done. Qed.
Lemma write_atomic_writes store parent faults x :
  writes faults x false (write_bytes_atomic store parent (json_pretty (registry_value (values x)))) (save_ended faults).
Proof.
  cbn. do 4 (intros [[]|]; [|done]; cbn). split_and!; [done..|]. intros [[]|]; [|done]. cbn. intros [[]|] Hr; [done|]. cbn.
  intros ->. by specialize (Hr eq_refl).
Qed.
(** What the join of its thread says. *)
Definition thread_ended {A Er} (faults : bool) (b : bool) (r : result (result A Er) string) : Prop :=
  faults = false → b = match r with Ok (Ok _) => true | _ => false end.

Lemma save_entries_writes store faults x entries :
  ir_entries (import_entries entries) = values x →
  writes faults x false (save_entries_sync store entries) (save_ended faults).
Proof.
  intros Hv. unfold save_entries_sync. rewrite Hv. destruct (quarantine_summary _); [done|].
  destruct (st_parent store) as [parent|]; [|done].
  eapply (writes_bind _ _ _ _ _ (fun b _ => b = false)); [by intros [[]|]|]. intros b [[]|e] ->; [|done].
  eapply (writes_bind _ _ _ _ _ (fun b _ => b = false)); [done|]. intros b exists_ ->.
  eapply (writes_bind _ _ _ _ _ (fun b _ => b = false)).
  - destruct exists_; [|done]. eapply writes_bind; [apply create_backup_quiet|]. intros b [backup|e] ->; [|done].
    eapply writes_bind; [apply prune_quiet|]. by intros b r ->.
  - intros b [backup|e] ->; [|done]. eapply writes_bind; [apply write_atomic_writes|]. intros b [[]|e] Hb; done.
Qed.
Lemma thread_writes store faults x entries :
  ir_entries (import_entries entries) = values x → writes faults x false (save_thread store entries) (thread_ended faults).
Proof. intros Hx. eapply writes_bind; [by apply save_entries_writes|]. by intros b [|] Hb. Qed.
Lemma save_writes store faults x :
  valid_snapshot x → writes faults x false (save_thread store (values x)) (thread_ended faults).
Proof. intros Hv. apply thread_writes. by rewrite import_values. Qed.

End Registry.

(** [serde_json] reads back the registries it writes. *)
Class RegistryJson `{RelayPlatform} : Prop :=
  registry_json entries : json_read (registry_text entries) = Ok (registry_value entries).

Section Invariant.
Context `{RelayPlatform} {J : RegistryJson} (app : RelayApp) (store : PublicRelayRegistryStore) (faults : bool).

Lemma reload_text text : reload (Some text) = snapshot_of_text text.
Proof. done. Qed.
Lemma reload_saved x : valid_snapshot x → reload (Some (registry_text (values x))) = Ok x.
Proof. intros Hv. rewrite reload_text. apply snapshot_round; [done|]. apply registry_json. Qed.
Lemma reload_valid file x : reload file = Ok x → valid_snapshot x.
Proof. destruct file; [rewrite reload_text; apply snapshot_of_text_valid|]. intros [= <-]. apply valid_empty. Qed.

(** ** Phases and the state *)

Definition locked_in (ph : phase) : bool :=
  match ph with Locked _ | Saving _ _ _ | Saved _ _ | Installed _ => true | _ => false end.
Definition global_of (ph : phase) (i : nat) : list nat := match ph with WithGlobal | WithPermit _ => [i] | _ => [] end.
Definition machine_of (ph : phase) (i : nat) : list (nat * nat) :=
  match ph with WithPermit sem | HalfDropped sem => [(sem, i)] | _ => [] end.
Definition committed (ph : phase) : bool := match ph with Free b => b | Installed _ => true | _ => false end.
Definition now_in (ph : phase) : option PublicRelaySnapshot :=
  match ph with Locked m | Saving m _ _ | Saved m _ | Installed m => Some m | _ => None end.
Definition new_in (ph : phase) : option (PublicRelaySnapshot * PublicRelaySnapshot) :=
  match ph with Saving m m' _ | Saved m m' => Some (m, m') | _ => None end.

Definition globals (i : nat) (s : RelaySys) : list nat := filter (fun x => x = i) (mg_global (sy_manager s)).
Definition machines (i : nat) (s : RelaySys) : list (nat * nat) := filter (fun p => p.2 = i) (mg_machine (sy_manager s)).

Record standing (s : RelaySys) (i : nat) (c : RelayCall) (ph : phase) : Prop := {
  sd_lock : mg_mutation (sy_manager s) = Some i ↔ locked_in ph = true;
  sd_auth : locked_in ph = true → authorised c;
  sd_now : ∀ m, now_in ph = Some m → mg_snapshot (sy_manager s) = m;
  sd_new : ∀ m m', new_in ph = Some (m, m') → means c m m' ∧ valid_snapshot m';
  sd_global : globals i s = global_of ph i;
  sd_machine : machines i s = machine_of ph i;
  sd_commit : i ∈ (sy_commits s).*1 ↔ committed ph = true;
  sd_call : ∀ x, (i, x) ∈ sy_commits s → c = AdminCall x.1 x.2;
}.

Record tasks_inv (s : RelaySys) (phs : nat → phase) : Prop := {
  ti_task : ∀ i c p, sy_tasks s !! i = Some (mkRelayTask c p) → follows c (phs i) p at_end ∧ standing s i c (phs i);
  ti_gone : ∀ i, sy_tasks s !! i = None → mg_mutation (sy_manager s) ≠ Some i ∧ globals i s = [] ∧ machines i s = [];
  ti_fresh : ∀ i, sy_next_task s ≤ i → sy_tasks s !! i = None ∧ i ∉ (sy_commits s).*1;
}.
Record commits_inv (m0 : PublicRelaySnapshot) (s : RelaySys) : Prop := {
  ci_valid : valid_snapshot (mg_snapshot (sy_manager s));
  ci_replay : replay m0 ((fun x => x.2.2) <$> sy_commits s) = Some (mg_snapshot (sy_manager s));
  ci_once : NoDup (sy_commits s).*1;
  ci_admin : ∀ i auth r, (i, (auth, r)) ∈ sy_commits s → require_lab_admin auth = Ok ();
}.
Definition bounds_inv (m : Manager) : Prop :=
  length (mg_global m) ≤ PUBLIC_GLOBAL_CONCURRENCY ∧ ∀ sem, held_of sem (mg_machine m) ≤ PUBLIC_PER_MACHINE_CONCURRENCY.

(** A save that is under way, and the file. *)
Definition saves_to (x : PublicRelaySnapshot) (b : bool) (p : SaveThread) : Prop :=
  valid_snapshot x ∧ writes faults x b p (thread_ended faults).
Definition saves_inv (s : RelaySys) : Prop :=
  (∀ j p, sy_saves s !! j = Some p → j < sy_next_save s ∧ ∃ x b, saves_to x b p) ∧
  ∃ x, reload (sy_file s) = Ok x ∧ valid_snapshot x.

(** What the file holds, by the phase of the task that holds the lock. *)
Definition file_at (s : RelaySys) (ph : phase) : Prop :=
  match ph with
  | Locked m => reload (sy_file s) = Ok m
  | Saving m m' j => ∃ p b, sy_saves s !! j = Some p ∧ saves_to m' b p ∧ reload (sy_file s) = Ok (if b then m' else m)
  | Saved _ m' => reload (sy_file s) = Ok m'
  | Installed m => reload (sy_file s) = Ok m
  | _ => False
  end.
Definition save_over (p : SaveThread) : Prop := ∃ r, p = Ret r.
Definition saving_in (ph : phase) : option nat := match ph with Saving _ _ j => Some j | _ => None end.
Definition durable_inv (s : RelaySys) (phs : nat → phase) : Prop :=
  (∀ j p, sy_saves s !! j = Some p → save_over p ∨ ∃ i, mg_mutation (sy_manager s) = Some i ∧ saving_in (phs i) = Some j) ∧
  match mg_mutation (sy_manager s) with
  | None => reload (sy_file s) = Ok (mg_snapshot (sy_manager s))
  | Some i => file_at s (phs i)
  end.

Record relay_inv (m0 : PublicRelaySnapshot) (s : RelaySys) (phs : nat → phase) : Prop := {
  in_tasks : tasks_inv s phs;
  in_commits : commits_inv m0 s;
  in_bounds : bounds_inv (sy_manager s);
  in_saves : saves_inv s;
  in_durable : faults = false → durable_inv s phs;
}.

(** ** Preservation *)

Lemma filter_remove_one_other {A} (P : A → Prop) `{∀ x, Decision (P x)} f l :
  (∀ x, f x = true → ¬ P x) → filter P (remove_one f l) = filter P l.
Proof.
  intros Hf. induction l as [|x l IH]; [done|]. cbn [remove_one]. destruct (f x) eqn:E.
  - rewrite filter_cons_False; [done|auto].
  - rewrite !filter_cons. by rewrite IH.
Qed.
Lemma filter_remove_one_self {A} (P : A → Prop) `{∀ x, Decision (P x)} f l a :
  filter P l = [a] → f a = true → (∀ x, f x = true → P x) → filter P (remove_one f l) = [].
Proof.
  intros Hl Ha Hf. induction l as [|x l IH]; [done|]. cbn [remove_one]. rewrite filter_cons in Hl. destruct (f x) eqn:E.
  - rewrite decide_True in Hl by auto. by injection Hl.
  - rewrite filter_cons. destruct (decide (P x)); [injection Hl as -> _; congruence|auto].
Qed.
Lemma filter_nil_all {A} (P : A → Prop) `{∀ x, Decision (P x)} l : (∀ x, x ∈ l → ¬ P x) → filter P l = [].
Proof. intros Hl. induction l as [|x l IH]; [done|]. rewrite filter_cons_False by (apply Hl; set_solver). apply IH. set_solver. Qed.
Lemma sublist_remove_one {A} (f : A → bool) l : remove_one f l `sublist_of` l.
Proof. induction l as [|x l IH]; cbn; [done|]. destruct (f x); by constructor. Qed.
Lemma sublist_filter {A} (P : A → Prop) `{∀ x, Decision (P x)} l : filter P l `sublist_of` l.
Proof. induction l as [|x l IH]; [done|]. rewrite filter_cons. destruct (decide (P x)); by constructor. Qed.
Lemma filter_mono_sublist {A} (P : A → Prop) `{∀ x, Decision (P x)} l k : l `sublist_of` k → filter P l `sublist_of` filter P k.
Proof. induction 1 as [|x l k Hs IH|x l k Hs IH]; [done| |]; rewrite ?filter_cons; destruct (decide (P x)); (done || by apply sublist_skip || by apply sublist_cons). Qed.
Lemma bounds_sublist m m' :
  bounds_inv m → mg_global m' `sublist_of` mg_global m → mg_machine m' `sublist_of` mg_machine m → bounds_inv m'.
Proof.
  intros [Hg Hm] Sg Sm. split.
  - apply sublist_length in Sg. lia.
  - intros sem. specialize (Hm sem). unfold held_of in *. apply (filter_mono_sublist (fun p => p.1 = sem)), sublist_length in Sm. lia.
Qed.

(** What an effect of task [i] leaves alone for the others. *)
Record frame (i : nat) (s s' : RelaySys) : Prop := {
  fr_lock : ∀ j, j ≠ i → mg_mutation (sy_manager s') = Some j ↔ mg_mutation (sy_manager s) = Some j;
  fr_now : mg_snapshot (sy_manager s') = mg_snapshot (sy_manager s) ∨ mg_mutation (sy_manager s) = Some i;
  fr_global : ∀ j, j ≠ i → globals j s' = globals j s;
  fr_machine : ∀ j, j ≠ i → machines j s' = machines j s;
  fr_commit : ∀ j x, j ≠ i → (j, x) ∈ sy_commits s' ↔ (j, x) ∈ sy_commits s;
  fr_tasks : sy_tasks s' = sy_tasks s;
  fr_next : sy_next_task s' = sy_next_task s;
}.
Lemma elem_fst {A B} (l : list (A * B)) a : a ∈ l.*1 ↔ ∃ b, (a, b) ∈ l.
Proof. rewrite list_elem_of_fmap. split; [intros ([a' b] & -> & ?); by exists b|intros [b ?]; by exists (a, b)]. Qed.
Lemma standing_frame i s s' j c ph : frame i s s' → j ≠ i → standing s j c ph → standing s' j c ph.
Proof.
  intros [Fl Fn Fg Fm Fc _ _] Hj [Sl Sa Sn Sw Sg Sm Sc Sx]. split.
  - by rewrite Fl.
  - done.
  - intros m Hm. destruct Fn as [->|Fn]; [by apply Sn|]. assert (Hh : locked_in ph = true) by (by destruct ph).
    apply Sl in Hh. congruence.
  - done.
  - by rewrite Fg.
  - by rewrite Fm.
  - rewrite <- Sc, !elem_fst. by setoid_rewrite Fc.
  - intros x Hx. apply Sx, Fc; done.
Qed.
Lemma tasks_step i s s' phs c p0 p ph :
  tasks_inv s phs → sy_tasks s !! i = Some (mkRelayTask c p0) → frame i s s' →
  follows c ph p at_end → standing s' i c ph → tasks_inv (set_task i (mkRelayTask c p) s') (<[i := ph]> phs).
Proof.
  intros [Tt Tg Tf] Hi HF Hp Hs. destruct (HF) as [Fl Fn Fg Fm Fc Ft Fx]. split; cbn [sy_tasks set_task sy_next_task sy_commits sy_manager].
  - intros j c' p' Hj. rewrite Ft in Hj. destruct (decide (j = i)) as [->|Hne].
    + rewrite lookup_insert_eq in Hj. injection Hj as <- <-. rewrite fn_lookup_insert. split; [done|].
      destruct Hs. by split.
    + rewrite lookup_insert_ne in Hj by done. rewrite fn_lookup_insert_ne by done. destruct (Tt j c' p' Hj) as [Hf Hst]. split; [done|].
      destruct (standing_frame i s s' j c' (phs j) HF Hne Hst). by split.
  - intros j Hj. rewrite Ft in Hj. destruct (decide (j = i)) as [->|Hne]; [by rewrite lookup_insert_eq in Hj|].
    rewrite lookup_insert_ne in Hj by done. destruct (Tg j Hj) as (H2 & H3 & H4). split_and!.
    + by rewrite Fl.
    + rewrite <- H3. by apply Fg.
    + rewrite <- H4. by apply Fm.
  - intros j Hj. rewrite Fx in Hj. destruct (Tf j Hj) as [H2 H3]. assert (j ≠ i) by (intros ->; congruence). split.
    + rewrite Ft, lookup_insert_ne by done. done.
    + rewrite elem_fst. setoid_rewrite Fc; [|done]. by rewrite <- elem_fst.
Qed.

Lemma inv_step i s s' m0 phs c p0 p ph :
  relay_inv m0 s phs → sy_tasks s !! i = Some (mkRelayTask c p0) → frame i s s' → follows c ph p at_end → standing s' i c ph →
  commits_inv m0 s' → bounds_inv (sy_manager s') → saves_inv s' → (faults = false → durable_inv s' (<[i := ph]> phs)) →
  ∃ phs', relay_inv m0 (set_task i (mkRelayTask c p) s') phs'.
Proof.
  intros I Hi HF Hp Hs Hc Hb Hv Hd. exists (<[i := ph]> phs). split; [by eapply tasks_step; [apply I|..]| |done|done|done].
  destruct Hc. by split.
Qed.
Lemma commits_same m0 s s' :
  commits_inv m0 s → mg_snapshot (sy_manager s') = mg_snapshot (sy_manager s) → sy_commits s' = sy_commits s → commits_inv m0 s'.
Proof. intros [? ? ? ?] Hs Hc. split; rewrite ?Hs, ?Hc; done. Qed.
Lemma durable_same i s s' phs ph :
  durable_inv s phs → sy_saves s' = sy_saves s → sy_file s' = sy_file s →
  mg_snapshot (sy_manager s') = mg_snapshot (sy_manager s) → mg_mutation (sy_manager s') = mg_mutation (sy_manager s) →
  (ph = phs i ∨ mg_mutation (sy_manager s) ≠ Some i) → durable_inv s' (<[i := ph]> phs).
Proof.
  intros [Ds Df] Es Ef En Em Hph. unfold durable_inv. rewrite Es, Ef, En, Em.
  assert (Hi : ∀ j, mg_mutation (sy_manager s) = Some j → (<[i := ph]> phs : nat → phase) j = phs j).
  { intros j Hj. destruct (decide (j = i)) as [->|]; [|by rewrite fn_lookup_insert_ne]. rewrite fn_lookup_insert.
    destruct Hph as [->|?]; [done|congruence]. }
  split.
  - intros j q Hq. destruct (Ds j q Hq) as [|(i' & Hm & Hp)]; [by left|]. right. exists i'. by rewrite Hi.
  - destruct (mg_mutation (sy_manager s)) as [j|] eqn:E; [|done]. rewrite Hi by done.
    revert Df. unfold file_at. rewrite Es, Ef. done.
Qed.

(** An effect that changes at most the limits and the permits. *)
Lemma inv_manager i s m' m0 phs c p0 p ph :
  relay_inv m0 s phs → sy_tasks s !! i = Some (mkRelayTask c p0) →
  mg_snapshot m' = mg_snapshot (sy_manager s) → mg_mutation m' = mg_mutation (sy_manager s) →
  (∀ j, j ≠ i → globals j (set_manager m' s) = globals j s ∧ machines j (set_manager m' s) = machines j s) →
  bounds_inv m' → (ph = phs i ∨ locked_in (phs i) = false ∧ locked_in ph = false ∧ committed ph = committed (phs i)) →
  globals i (set_manager m' s) = global_of ph i → machines i (set_manager m' s) = machine_of ph i →
  follows c ph p at_end → ∃ phs', relay_inv m0 (set_task i (mkRelayTask c p) (set_manager m' s)) phs'.
Proof.
  intros I Hi En Em Ho Hb Hph Hg Hm Hp. destruct (ti_task _ _ (in_tasks _ _ _ I) _ _ _ Hi) as [_ St].
  eapply inv_step; [done|done| |done| | |done|apply I|].
  - split; cbn; rewrite ?En, ?Em; auto; intros; by apply Ho.
  - destruct St as [Sl Sa Sn Sw Sg Sm Sc Sx]. destruct Hph as [->|(Hl & Hl' & Hcm)].
    + split; cbn; rewrite ?En, ?Em; done.
    + rewrite Hl in Sl. rewrite <- Hcm in Sc. split; cbn; rewrite ?En, ?Em, ?Hl'; try done.
      * by destruct ph.
      * by destruct ph.
  - by eapply commits_same; [apply I|..].
  - intros Hf. eapply durable_same; [by apply I|done..|]. destruct Hph as [|(Hl & _)]; [by left|right].
    rewrite (sd_lock _ _ _ _ St), Hl. done.
Qed.
Lemma inv_quiet i s m0 phs c p0 p :
  relay_inv m0 s phs → sy_tasks s !! i = Some (mkRelayTask c p0) → follows c (phs i) p at_end → ∃ phs', relay_inv m0 (set_task i (mkRelayTask c p) s) phs'.
Proof.
  intros I Hi Hp. destruct (ti_task _ _ (in_tasks _ _ _ I) _ _ _ Hi) as [_ St].
  assert (Hs : set_manager (sy_manager s) s = s) by (by destruct s). rewrite <- Hs.
  eapply inv_manager; [done|done|done|done|by rewrite Hs|apply I|by left| | |done]; rewrite Hs; apply St.
Qed.

(** *** Permits *)

Lemma try_global_inv i s m0 phs c p0 p :
  relay_inv m0 s phs → sy_tasks s !! i = Some (mkRelayTask c p0) → phs i = Free false →
  length (mg_global (sy_manager s)) < PUBLIC_GLOBAL_CONCURRENCY → follows c WithGlobal p at_end →
  ∃ phs', relay_inv m0 (set_task i (mkRelayTask c p) (set_manager (set_global (i :: mg_global (sy_manager s)) (sy_manager s)) s)) phs'.
Proof.
  intros I Hi Hph Hl Hp. destruct (ti_task _ _ (in_tasks _ _ _ I) _ _ _ Hi) as [_ St]. rewrite Hph in St.
  eapply (inv_manager i s _ m0 phs c p0 p WithGlobal); try done.
  - intros j Hj. split; [|done]. unfold globals. cbn [sy_manager set_manager mg_global set_global]. by rewrite filter_cons_False by congruence.
  - destruct (in_bounds _ _ _ I) as [_ Hm]. split; [cbn; lia|done].
  - rewrite Hph. by right.
  - unfold globals. cbn [sy_manager set_manager mg_global set_global]. rewrite filter_cons_True by done. cbn [global_of]; f_equal. apply (sd_global _ _ _ _ St).
  - apply (sd_machine _ _ _ _ St).
Qed.
Lemma try_sem_inv i sem s m0 phs c p0 p :
  relay_inv m0 s phs → sy_tasks s !! i = Some (mkRelayTask c p0) → phs i = WithGlobal →
  held_of sem (mg_machine (sy_manager s)) < PUBLIC_PER_MACHINE_CONCURRENCY → follows c (WithPermit sem) p at_end →
  ∃ phs', relay_inv m0 (set_task i (mkRelayTask c p) (set_manager (set_machine ((sem, i) :: mg_machine (sy_manager s)) (sy_manager s)) s)) phs'.
Proof.
  intros I Hi Hph Hl Hp. destruct (ti_task _ _ (in_tasks _ _ _ I) _ _ _ Hi) as [_ St]. rewrite Hph in St.
  eapply (inv_manager i s _ m0 phs c p0 p (WithPermit sem)); try done.
  - intros j Hj. split; [done|]. unfold machines. cbn [sy_manager set_manager mg_machine set_machine]. by rewrite filter_cons_False by (cbn; congruence).
  - destruct (in_bounds _ _ _ I) as [Hg Hm]. split; [done|]. intros sem'. specialize (Hm sem'). cbn [mg_machine set_machine]. unfold held_of in *.
    rewrite filter_cons. destruct (decide _) as [E|]; [|done]. cbn in E |- *. subst. lia.
  - rewrite Hph. by right.
  - apply (sd_global _ _ _ _ St).
  - unfold machines. cbn [sy_manager set_manager mg_machine set_machine]. rewrite filter_cons_True by done. cbn [machine_of]; f_equal. apply (sd_machine _ _ _ _ St).
Qed.
Lemma drop_global_inv i s m0 phs c p0 p ph :
  relay_inv m0 s phs → sy_tasks s !! i = Some (mkRelayTask c p0) → global_of (phs i) i = [i] → global_of ph i = [] →
  machine_of ph i = machine_of (phs i) i → locked_in ph = false → committed ph = false → follows c ph p at_end →
  ∃ phs', relay_inv m0 (set_task i (mkRelayTask c p) (set_manager (set_global (remove_one (Nat.eqb i) (mg_global (sy_manager s))) (sy_manager s)) s)) phs'.
Proof.
  intros I Hi Hph Hg Hm Hl Hcm Hp. destruct (ti_task _ _ (in_tasks _ _ _ I) _ _ _ Hi) as [_ St].
  eapply (inv_manager i s _ m0 phs c p0 p ph); try done.
  - intros j Hj. split; [|done]. unfold globals. cbn [sy_manager set_manager mg_global set_global]. apply filter_remove_one_other. intros x ->%Nat.eqb_eq. congruence.
  - eapply bounds_sublist; [apply I|apply sublist_remove_one|done].
  - right. by destruct (phs i).
  - unfold globals. cbn [sy_manager set_manager mg_global set_global]. rewrite Hg. eapply filter_remove_one_self; [rewrite <- Hph; apply (sd_global _ _ _ _ St)|apply Nat.eqb_refl|].
    by intros x ->%Nat.eqb_eq.
  - rewrite Hm. apply (sd_machine _ _ _ _ St).
Qed.
Lemma drop_sem_inv i sem s m0 phs c p0 p :
  relay_inv m0 s phs → sy_tasks s !! i = Some (mkRelayTask c p0) → phs i = HalfDropped sem → follows c (Free false) p at_end →
  ∃ phs', relay_inv m0 (set_task i (mkRelayTask c p) (set_manager (set_machine
    (remove_one (fun p => (p.1 =? sem) && (p.2 =? i)) (mg_machine (sy_manager s))) (sy_manager s)) s)) phs'.
Proof.
  intros I Hi Hph Hp. destruct (ti_task _ _ (in_tasks _ _ _ I) _ _ _ Hi) as [_ St]. rewrite Hph in St.
  eapply (inv_manager i s _ m0 phs c p0 p (Free false)); try done.
  - intros j Hj. split; [done|]. unfold machines. cbn [sy_manager set_manager mg_machine set_machine]. apply filter_remove_one_other. intros x [_ ->%Nat.eqb_eq]%andb_prop. congruence.
  - eapply bounds_sublist; [apply I|done|apply sublist_remove_one].
  - right. by rewrite Hph.
  - apply (sd_global _ _ _ _ St).
  - unfold machines. cbn [sy_manager set_manager mg_machine set_machine]. eapply filter_remove_one_self; [apply (sd_machine _ _ _ _ St)|by rewrite !Nat.eqb_refl|].
    by intros x [_ ->%Nat.eqb_eq]%andb_prop.
Qed.

(** *** The mutation lock *)

Lemma lock_inv i s m0 phs c p0 p :
  relay_inv m0 s phs → sy_tasks s !! i = Some (mkRelayTask c p0) → phs i = Free false → authorised c →
  mg_mutation (sy_manager s) = None → follows c (Locked (mg_snapshot (sy_manager s))) p at_end →
  ∃ phs', relay_inv m0 (set_task i (mkRelayTask c p) (set_manager (set_mutation (Some i) (sy_manager s)) s)) phs'.
Proof.
  intros I Hi Hph Ha Hl Hp. destruct (ti_task _ _ (in_tasks _ _ _ I) _ _ _ Hi) as [_ St]. rewrite Hph in St.
  eapply inv_step; [done|done| |done| | |apply I|apply I|].
  - split; cbn; auto. intros j Hj. rewrite Hl. split; congruence.
  - destruct St. split; cbn; try done. by intros m [= <-].
  - by eapply commits_same; [apply I|..].
  - intros Hf. destruct (in_durable _ _ _ I Hf) as [Ds Df]. rewrite Hl in Ds, Df. split; cbn.
    + intros j q Hq. destruct (Ds j q Hq) as [|(i' & [=] & _)]. by left.
    + rewrite fn_lookup_insert. cbn. done.
Qed.
Lemma unlock_inv i s m0 phs c p0 p ph :
  relay_inv m0 s phs → sy_tasks s !! i = Some (mkRelayTask c p0) →
  (∃ m, phs i = Locked m ∧ ph = Free false ∨ phs i = Installed m ∧ ph = Free true) → follows c ph p at_end →
  ∃ phs', relay_inv m0 (set_task i (mkRelayTask c p) (set_manager (set_mutation None (sy_manager s)) s)) phs'.
Proof.
  intros I Hi (m & Hph) Hp. destruct (ti_task _ _ (in_tasks _ _ _ I) _ _ _ Hi) as [_ St].
  assert (Hl : mg_mutation (sy_manager s) = Some i) by (apply (sd_lock _ _ _ _ St); by destruct Hph as [[-> _]|[-> _]]).
  assert (Hn : mg_snapshot (sy_manager s) = m) by (apply (sd_now _ _ _ _ St); by destruct Hph as [[-> _]|[-> _]]).
  eapply inv_step; [done|done| |done| | |apply I|apply I|].
  - split; cbn; auto. intros j Hj. rewrite Hl. split; congruence.
  - destruct St as [Sl Sa Sn Sw Sg Sm Sc Sx]. destruct Hph as [[Hph ->]|[Hph ->]]; rewrite Hph in *; by split.
  - by eapply commits_same; [apply I|..].
  - intros Hf. destruct (in_durable _ _ _ I Hf) as [Ds Df]. rewrite Hl in Ds, Df. split; cbn.
    + intros j q Hq. destruct (Ds j q Hq) as [|(i' & [= <-] & Hs)]; [by left|]. by destruct Hph as [[Hph _]|[Hph _]]; rewrite Hph in Hs.
    + rewrite Hn. by destruct Hph as [[Hph _]|[Hph _]]; rewrite Hph in Df.
Qed.

(** *** Saves *)

Definition spawned (x : PublicRelaySnapshot) (s : RelaySys) : RelaySys :=
  mkSys (sy_manager s) (sy_file s) (sy_tasks s) (sy_next_task s)
    (<[sy_next_save s := save_thread store (values x)]> (sy_saves s)) (S (sy_next_save s)) (sy_commits s).
Lemma spawn_inv i s m0 phs c p0 p m m' :
  relay_inv m0 s phs → sy_tasks s !! i = Some (mkRelayTask c p0) → phs i = Locked m → means c m m' → valid_snapshot m' →
  follows c (Saving m m' (sy_next_save s)) p at_end → ∃ phs', relay_inv m0 (set_task i (mkRelayTask c p) (spawned m' s)) phs'.
Proof.
  intros I Hi Hph Hm Hv Hp. destruct (ti_task _ _ (in_tasks _ _ _ I) _ _ _ Hi) as [_ St]. rewrite Hph in St.
  destruct (in_saves _ _ _ I) as [Hsv Hfile].
  assert (Hnew : saves_to m' false (save_thread store (values m'))) by (split; [done|by apply save_writes]).
  eapply inv_step; [done|done| |done| | |apply I| |].
  - split; cbn; auto.
  - destruct St as [Sl Sa Sn Sw Sg Sm Sc Sx]. split; cbn; try done. by intros ? ? [= <- <-].
  - by eapply commits_same; [apply I|..].
  - split; [|done]. cbn. intros j q Hj. destruct (decide (j = sy_next_save s)) as [->|Hne].
    + rewrite lookup_insert_eq in Hj. injection Hj as <-. split; [lia|eauto].
    + rewrite lookup_insert_ne in Hj by done. destruct (Hsv j q Hj) as [Hlt Hq]. split; [lia|done].
  - intros Hf. destruct (in_durable _ _ _ I Hf) as [Ds Df].
    assert (Hl : mg_mutation (sy_manager s) = Some i) by (by apply (sd_lock _ _ _ _ St)). rewrite Hl in Ds, Df. rewrite Hph in Df.
    split; cbn; rewrite Hl.
    + intros j q Hj. destruct (decide (j = sy_next_save s)) as [->|Hne].
      { right. exists i. by rewrite fn_lookup_insert. }
      rewrite lookup_insert_ne in Hj by done. destruct (Ds j q Hj) as [|(i' & [= <-] & Hs)]; [by left|]. by rewrite Hph in Hs.
    + rewrite fn_lookup_insert. cbn. exists (save_thread store (values m')), false. rewrite lookup_insert_eq. done.
Qed.
Lemma join_inv i s m0 phs c p0 p m m' j r ph :
  relay_inv m0 s phs → sy_tasks s !! i = Some (mkRelayTask c p0) → phs i = Saving m m' j → sy_saves s !! j = Some (Ret r) →
  ph = match r with Ok (Ok _) => Saved m m' | _ => Locked m end → follows c ph p at_end → ∃ phs', relay_inv m0 (set_task i (mkRelayTask c p) s) phs'.
Proof.
  intros I Hi Hph Hj Hr Hp. destruct (ti_task _ _ (in_tasks _ _ _ I) _ _ _ Hi) as [_ St]. rewrite Hph in St.
  assert (Hl : mg_mutation (sy_manager s) = Some i) by (by apply (sd_lock _ _ _ _ St)).
  eapply (inv_step i s s m0 phs c p0 p ph); [done|done| |done| |apply I|apply I|apply I|].
  - split; auto.
  - destruct St as [Sl Sa Sn Sw Sg Sm Sc Sx]. destruct r as [[]|]; subst ph; by split.
  - intros Hf. destruct (in_durable _ _ _ I Hf) as [Ds Df]. rewrite Hl in Ds, Df. rewrite Hph in Df.
    destruct Df as (q & b & Hq & Hs & Hfile). rewrite Hj in Hq. injection Hq as <-. destruct Hs as [_ Hb]. rewrite (Hb Hf) in Hfile.
    split; rewrite Hl.
    + intros j' q' Hq'. destruct (Ds j' q' Hq') as [|(i' & [= <-] & Hs)]; [by left|]. rewrite Hph in Hs. injection Hs as <-.
      left. rewrite Hj in Hq'. injection Hq' as <-. by exists r.
    + rewrite fn_lookup_insert, Hr. by destruct r as [[]|].
Qed.
Definition installed (i : nat) (auth : option AuthContext) (r : AdminRequest) (x : PublicRelaySnapshot) (s : RelaySys) : RelaySys :=
  mkSys (set_snapshot x (sy_manager s)) (sy_file s) (sy_tasks s) (sy_next_task s) (sy_saves s) (sy_next_save s)
    (sy_commits s ++ [(i, (auth, r))]).
Lemma install_inv i s m0 phs auth r p0 p m x :
  relay_inv m0 s phs → sy_tasks s !! i = Some (mkRelayTask (AdminCall auth r) p0) → phs i = Saved m x →
  follows (AdminCall auth r) (Installed x) p at_end →
  ∃ phs', relay_inv m0 (set_task i (mkRelayTask (AdminCall auth r) p) (installed i auth r x s)) phs'.
Proof.
  intros I Hi Hph Hp. destruct (ti_task _ _ (in_tasks _ _ _ I) _ _ _ Hi) as [_ St]. rewrite Hph in St.
  destruct St as [Sl Sa Sn Sw Sg Sm Sc Sx]. destruct (Sw m x eq_refl) as [Hmeans Hv]. specialize (Sn m eq_refl).
  assert (Hl : mg_mutation (sy_manager s) = Some i) by (by apply Sl).
  assert (Hni : i ∉ (sy_commits s).*1) by (rewrite Sc; done).
  eapply inv_step; [done|done| |done| | |apply I|apply I|].
  - split; cbn; auto. intros j y Hj. rewrite elem_of_app, list_elem_of_singleton. naive_solver.
  - split; cbn; try done.
    + by intros ? [= <-].
    + rewrite fmap_app, elem_of_app. set_solver.
    + intros y. rewrite elem_of_app, list_elem_of_singleton. intros [Hy|[= ->]]; [by apply Sx|done].
  - destruct (in_commits _ _ _ I) as [Cv Cr Co Ca]. split; cbn; [done| | |].
    + rewrite fmap_app. etransitivity; [exact (replay_app _ _ r _ Cr)|]. rewrite Sn. done.
    + rewrite fmap_app. apply list.NoDup_app. split_and!; [done|set_solver|apply NoDup_singleton].
    + intros j auth' r'. rewrite elem_of_app, list_elem_of_singleton. intros [Hy|[= -> -> ->]]; [by eapply Ca|]. by apply Sa.
  - intros Hf. destruct (in_durable _ _ _ I Hf) as [Ds Df]. rewrite Hl in Ds, Df. rewrite Hph in Df. split; cbn; rewrite Hl.
    + intros j q Hq. destruct (Ds j q Hq) as [|(i' & [= <-] & Hs)]; [by left|]. by rewrite Hph in Hs.
    + by rewrite fn_lookup_insert.
Qed.

Lemma task_inv i s m0 phs c e k env r s' :
  relay_inv m0 s phs → sy_tasks s !! i = Some (mkRelayTask c (Vis e k)) → task_effect store i e env s = Some (r, s') →
  ∃ phs', relay_inv m0 (set_task i (mkRelayTask c (k r)) s') phs'.
Proof.
  intros I Hi He. destruct (ti_task _ _ (in_tasks _ _ _ I) _ _ _ Hi) as [Hp St]. cbn [follows] in Hp.
  destruct e; cbn [task_effect rule] in He, Hp.
  - injection He as <- <-. eapply inv_quiet; [done..|]. apply Hp; [apply (in_commits _ _ _ I)|].
    intros m Hm. apply (sd_now _ _ _ _ St). by rewrite Hm.
  - destruct Hp as (m & Hph & Hp). assert (Hc : authorised c) by (apply (sd_auth _ _ _ _ St); by rewrite Hph).
    destruct c as [| |auth req]; [done..|]. rewrite Hi in He. cbn in He. injection He as <- <-. by eapply install_inv.
  - destruct Hp as (Hph & Ha & Hp). destruct (mg_mutation (sy_manager s)) eqn:Hl; [done|]. injection He as <- <-.
    eapply lock_inv; [done..|]. apply Hp. apply (in_commits _ _ _ I).
  - injection He as <- <-. destruct (phs i) eqn:Hph; try done; eapply unlock_inv; try done; rewrite Hph; eauto.
  - destruct Hp as (m & m' & Hph & Hm & Hv & -> & Hp). injection He as <- <-. by eapply spawn_inv.
  - destruct Hp as (m & m' & Hph & Hp). destruct (sy_saves s !! thread) as [[r'|]|] eqn:Hj; [|done..]. injection He as <- <-.
    by eapply join_inv; try done.
  - destruct Hp as (m & Hph & Hp). injection He as <- <-. eapply inv_manager; try done; [apply I|by left|apply St|apply St].
  - injection He as <- <-. by eapply inv_quiet.
  - apply fmap_Some in He as (sem & _ & [= -> ->]). eapply inv_manager; try done; [apply I|by left|apply St|apply St].
  - destruct Hp as [Hph Hp]. destruct (Nat.ltb_spec (length (mg_global (sy_manager s))) PUBLIC_GLOBAL_CONCURRENCY).
    + injection He as <- <-. eapply try_global_inv; try done. by apply (Hp true).
    + injection He as <- <-. eapply inv_quiet; [done..|]. rewrite Hph. by apply (Hp false).
  - injection He as <- <-. destruct (phs i) as [| |sem| | | | |] eqn:Hph; try done.
    + eapply (drop_global_inv _ _ _ _ _ _ _ (Free false)); rewrite ?Hph; done.
    + eapply (drop_global_inv _ _ _ _ _ _ _ (HalfDropped sem)); rewrite ?Hph; done.
  - destruct Hp as [Hph Hp]. destruct (Nat.ltb_spec (held_of sem (mg_machine (sy_manager s))) PUBLIC_PER_MACHINE_CONCURRENCY).
    + injection He as <- <-. eapply try_sem_inv; try done. by apply (Hp true).
    + injection He as <- <-. eapply inv_quiet; [done..|]. rewrite Hph. by apply (Hp false).
  - destruct Hp as [Hph Hp]. injection He as <- <-. by eapply drop_sem_inv.
  - destruct Hp as (sem & Hph & Hp). destruct (env _); [case_bool_decide; [|done]|]; injection He as <- <-; by eapply inv_quiet.
  - destruct Hp as (sem & Hph & _ & Hp). injection He as <- <-. by eapply inv_quiet.
  - destruct Hp as (sem & Hph & Hp). injection He as <- <-. by eapply inv_quiet.
Qed.

Lemma save_effect x b e env file r file' K :
  save_rule faults x b e K → file_effect faults e env file = (r, file') →
  ∃ b', K r b' ∧ (b' = b ∧ file' = file ∨ b = false ∧ b' = true ∧ file' = Some (registry_text (values x))).
Proof.
  destruct e; cbn; intros HK He;
    try (injection He as <- <-; exists b; split; [solve [apply HK]|by left]).
  - destruct HK as (-> & -> & HK). destruct (env _) as [[]|err].
    + injection He as <- <-. exists true. split; [exact (HK (Ok ()))|right; done].
    + injection He as <- <-. exists false. split; [exact (HK (Err err))|by left].
  - injection He as <- <-. exists b. split; [apply HK; by intros ->|by left].
Qed.
Lemma saves_step x b e k env file r file' :
  saves_to x b (Vis e k) → file_effect faults e env file = (r, file') →
  ∃ b', saves_to x b' (k r) ∧ (b' = b ∧ file' = file ∨ b = false ∧ b' = true ∧ reload file' = Ok x).
Proof.
  intros [Hv Hw] He. destruct (save_effect _ _ _ _ _ _ _ _ Hw He) as (b' & Hk & Hcase). exists b'. split; [done|].
  destruct Hcase as [|(-> & -> & ->)]; [by left|right]. split_and!; [done..|]. by apply reload_saved.
Qed.
Lemma save_inv j s m0 phs e k env r file' :
  relay_inv m0 s phs → sy_saves s !! j = Some (Vis e k) → file_effect faults e env (sy_file s) = (r, file') →
  relay_inv m0 (mkSys (sy_manager s) file' (sy_tasks s) (sy_next_task s) (<[j := k r]> (sy_saves s)) (sy_next_save s) (sy_commits s)) phs.
Proof.
  intros I Hj He. destruct (I) as [It Ic Ib [Hs Hfile] Id]. destruct (Hs j _ Hj) as (Hlt & x & b & Hx).
  destruct (saves_step _ _ _ _ _ _ _ _ Hx He) as (b' & Hx' & Hcase). split.
  - destruct It as [Tt Tg Tf]. split; [|exact Tg|exact Tf]. intros i c p Hi. destruct (Tt i c p Hi) as [Hp []]. split; [done|by split].
  - by eapply commits_same.
  - done.
  - split; cbn.
    + intros j' q Hq. destruct (decide (j' = j)) as [->|]; [|rewrite lookup_insert_ne in Hq by done; by apply Hs].
      rewrite lookup_insert_eq in Hq. injection Hq as <-. eauto.
    + destruct Hcase as [[_ ->]|(_ & _ & Hr)]; [done|]. exists x. split; [done|apply Hx].
  - intros Hf. destruct (Id Hf) as [Ds Df]. destruct (Ds j _ Hj) as [[r' [=]]|(i & Hl & Hph)]. rewrite Hl in Df.
    destruct (phs i) as [| | | | |m m' j0| |] eqn:Hi; try done. injection Hph as ->.
    destruct Df as (q & c & Hq & Hc & Hr). rewrite Hj in Hq. injection Hq as <-.
    destruct (saves_step _ _ _ _ _ _ _ _ Hc He) as (c' & Hc' & Hcase'). split; cbn [sy_saves sy_manager sy_file].
    + intros j' q Hq. destruct (decide (j' = j)) as [->|Hne]; [right; exists i; by rewrite Hi|].
      rewrite lookup_insert_ne in Hq by done. apply Ds, Hq.
    + rewrite Hl, Hi. exists (k r), c'. cbn [sy_saves sy_file]. rewrite lookup_insert_eq. split_and!; [done..|].
      destruct Hcase' as [[-> ->]|(-> & -> & ->)]; done.
Qed.

(** *** Arrival and cancellation *)

Lemma arrive_inv s m0 phs c :
  relay_inv m0 s phs →
  relay_inv m0 (mkSys (sy_manager s) (sy_file s) (<[sy_next_task s := mkRelayTask c (call_program app c)]> (sy_tasks s)) (S (sy_next_task s))
            (sy_saves s) (sy_next_save s) (sy_commits s)) (<[sy_next_task s := Free false]> phs).
Proof.
  intros [It Ic Ib Is Id]. destruct (It) as [Tt Tg Tf]. destruct (Tf (sy_next_task s) ltac:(lia)) as [Hn Hnc].
  destruct (Tg _ Hn) as (Hl & Hg & Hm). split; [split|by eapply commits_same|done|done|]; cbn.
  - intros i c' p Hi. destruct (decide (i = sy_next_task s)) as [->|Hne].
    + rewrite lookup_insert_eq in Hi. injection Hi as <- <-. rewrite fn_lookup_insert. split; [apply call_follows|].
      split; cbn; try done. intros x Hx. destruct Hnc. apply elem_fst. by exists x.
    + rewrite lookup_insert_ne in Hi by done. rewrite fn_lookup_insert_ne by done. destruct (Tt i c' p Hi) as [Hp []]. split; [done|by split].
  - intros i [Hi ?]%lookup_insert_None. by apply Tg.
  - intros i Hi. rewrite lookup_insert_ne by lia. apply Tf. lia.
  - intros Hf. by eapply durable_same; [apply Id|..|right].
Qed.

Lemma cancelled_inv i s m0 phs :
  relay_inv m0 s phs → negb faults && bool_decide (mg_mutation (sy_manager s) = Some i) = false →
  relay_inv m0 (mkSys (release_held i (sy_manager s)) (sy_file s) (delete i (sy_tasks s)) (sy_next_task s) (sy_saves s) (sy_next_save s)
            (sy_commits s)) phs.
Proof.
  intros [It Ic Ib Is Id] Hc. destruct (It) as [Tt Tg Tf].
  assert (HF : frame i s (set_manager (release_held i (sy_manager s)) s)).
  { split; cbn; auto.
    - intros j Hj. case_bool_decide as Hm; [rewrite Hm; split; congruence|done].
    - intros j Hj. unfold globals. cbn [sy_manager set_manager mg_global release_held]. rewrite list_filter_filter_l; [done|]. by intros x ->.
    - intros j Hj. unfold machines. cbn [sy_manager set_manager mg_machine release_held]. rewrite list_filter_filter_l; [done|]. by intros x ->. }
  split; [split|by eapply commits_same| |done|]; cbn.
  - intros j c p [Hne Hj]%lookup_delete_Some. destruct (Tt j c p Hj) as [Hp Hst]. split; [done|].
    destruct (standing_frame _ _ _ j c (phs j) HF (not_eq_sym Hne) Hst). by split.
  - intros j Hj. destruct (decide (j = i)) as [->|Hne].
    + split_and!; [case_bool_decide; congruence|..].
      * apply filter_nil_all. intros x [? _]%list_elem_of_filter. done.
      * apply filter_nil_all. intros x [? _]%list_elem_of_filter. done.
    + rewrite lookup_delete_ne in Hj by done. destruct (Tg j Hj) as (Hl & Hg & Hm). destruct HF as [Fl _ Fg Fm _ _ _]. split_and!.
      * by rewrite (Fl j).
      * rewrite <- Hg. by apply Fg.
      * rewrite <- Hm. by apply Fm.
  - intros j Hj. destruct (Tf j Hj) as [H2 H3]. split; [|done]. rewrite lookup_delete_None. by right.
  - eapply bounds_sublist; [done|apply sublist_filter..].
  - intros Hf. rewrite Hf in Hc. cbn in Hc. apply bool_decide_eq_false in Hc. specialize (Id Hf). unfold durable_inv in *. cbn.
    rewrite bool_decide_eq_false_2 by done. done.
Qed.

(** *** Panics and other processes *)

Lemma faulty_saves_inv s m0 phs saves next :
  relay_inv m0 s phs → faults = true → (∀ j p, saves !! j = Some p → j < next ∧ ∃ x b, saves_to x b p) →
  relay_inv m0 (mkSys (sy_manager s) (sy_file s) (sy_tasks s) (sy_next_task s) saves next (sy_commits s)) phs.
Proof.
  intros [[Tt Tg Tf] Ic Ib [Hs Hfile] Id] Hf Hn. split; [split; [|exact Tg|exact Tf]|by eapply commits_same|done|by split|by rewrite Hf].
  intros i c p Hi. destruct (Tt i c p Hi) as [Hp []]. split; [done|by split].
Qed.
Lemma panic_inv j s m0 phs p message :
  relay_inv m0 s phs → faults = true → sy_saves s !! j = Some p →
  relay_inv m0 (mkSys (sy_manager s) (sy_file s) (sy_tasks s) (sy_next_task s) (<[j := ret_err message]> (sy_saves s)) (sy_next_save s)
            (sy_commits s)) phs.
Proof.
  intros I Hf Hj. destruct (in_saves _ _ _ I) as [Hs _]. apply faulty_saves_inv; [done..|]. intros j' q.
  rewrite lookup_insert_Some. intros [[<- <-]|[_ Hq]]; [|by apply Hs]. destruct (Hs j p Hj) as (Hlt & x & b & Hv & _).
  split; [done|]. exists x, b. split; [done|]. cbn. intros Hff. congruence.
Qed.
Lemma other_save_inv s m0 phs entries :
  relay_inv m0 s phs → faults = true → Forall id_ok entries →
  relay_inv m0 (mkSys (sy_manager s) (sy_file s) (sy_tasks s) (sy_next_task s)
            (<[sy_next_save s := save_thread store entries]> (sy_saves s)) (S (sy_next_save s)) (sy_commits s)) phs.
Proof.
  intros I Hf He. destruct (in_saves _ _ _ I) as [Hs _]. apply faulty_saves_inv; [done..|]. intros j' q.
  rewrite lookup_insert_Some. intros [[<- <-]|[_ Hq]].
  - split; [lia|]. destruct (import_entries_valid entries He) as (x & Hv & Hx). exists x, false. split; [done|by apply thread_writes].
  - destruct (Hs j' q Hq). split; [lia|done].
Qed.
Lemma parsed_id_ok entries : forallb parsed_id entries = true → Forall id_ok entries.
Proof.
  rewrite forallb_elem, Forall_forall. intros He e Hin. specialize (He e Hin). unfold parsed_id in He. unfold id_ok.
  destruct (machine_id_parse _); [|done]. by apply String.eqb_eq in He as ->.
Qed.

(** ** Reachable states *)

Lemma step_inv s s' m0 phs : relay_inv m0 s phs → relay_step app store faults s s' → ∃ phs', relay_inv m0 s' phs'.
Proof.
  intros I [a Ha]. destruct a as [c|i env|j env|i|j message|entries]; cbn in Ha.
  - injection Ha as <-. eexists. by apply arrive_inv.
  - destruct (sy_tasks s !! i) as [[c [|e k]]|] eqn:Hi; [done| |done].
    apply bind_Some in Ha as ([r s1] & He & [= <-]). by eapply task_inv.
  - destruct (sy_saves s !! j) as [[|e k]|] eqn:Hj; [done| |done].
    destruct (file_effect faults e env (sy_file s)) as [r file'] eqn:He. injection Ha as <-. exists phs. by eapply save_inv.
  - destruct (sy_tasks s !! i); [|done]. destruct (negb faults && _) eqn:Hc; [done|]. injection Ha as <-. exists phs. by apply cancelled_inv.
  - destruct (sy_saves s !! j) as [[|e k]|] eqn:Hj; [done| |done]. assert (Hf : faults = true) by (by destruct faults).
    rewrite Hf in Ha. injection Ha as <-. exists phs. by eapply panic_inv.
  - destruct (faults && forallb parsed_id entries) eqn:Hc; [|done]. apply andb_true_iff in Hc as [Hf He]. injection Ha as <-. exists phs.
    by apply other_save_inv; [..|apply parsed_id_ok].
Qed.
Lemma started_inv file s0 : started file = Ok s0 → relay_inv (mg_snapshot (sy_manager s0)) s0 (fun _ => Free false).
Proof.
  intros (x & Hx & [= <-])%let_ok. pose proof (reload_valid _ _ Hx) as Hv. split; cbn.
  - split; cbn; [intros i c p; by rewrite lookup_empty|done|]. intros i _. split; [apply lookup_empty|set_solver].
  - split; cbn; [done|done|constructor|set_solver].
  - split; cbn; lia.
  - split; [intros j p; cbn; by rewrite lookup_empty|]. by exists x.
  - intros _. split; [intros j p; cbn; by rewrite lookup_empty|done].
Qed.
Lemma relay_reachable_inv file s0 s :
  relay_reachable app store faults file s0 s → ∃ phs, relay_inv (mg_snapshot (sy_manager s0)) s phs.
Proof.
  intros [Hstart Hs]. eapply (rtc_ind_r (fun s => ∃ phs, relay_inv (mg_snapshot (sy_manager s0)) s phs)); [| |exact Hs].
  - eexists. by eapply started_inv.
  - intros s1 s2 _ Hstep [phs I]. by eapply step_inv.
Qed.
End Invariant.
