(* ===== verification/RelayTheorems.v ===== *)
(** * RelayTheorems: the guarantees of the relay, and where they end

    The endpoint of the relay is public and unauthenticated, and its requests go
    on to machines of a private network.  On every path of the handler, whatever
    the registry, the client and the upstream answer, a request that leaves the
    server is bound to the callback route of a registered machine.  Then the
    theorems on the relay, a concrete platform on which their hypotheses hold,
    and runs of the server that show what is not guaranteed. *)

From Stdlib Require Import Ascii.
From stdpp Require Import base functions list gmap strings.
From S2P Require Import Prelude RustStr BTree Prog AuthTypes SamplePlatform WebPlatform GatewayConfig Ssrf Middleware Upstream Paths RustNet Relay RelayRegistry RelaySystem RelayProps.

(** What [Url::set_path] and [Url::set_query] keep of an [http] URL. *)
Definition same_authority (u v : Url) : Prop :=
  url_scheme u = url_scheme v ∧ url_username u = url_username v ∧ url_password u = url_password v ∧
  url_host_str u = url_host_str v ∧ url_port_or_known_default u = url_port_or_known_default v.
Class UrlSetters `{RelayPlatform} : Prop := {
  set_path_authority u path : url_scheme u = "http" → same_authority (url_set_path u path) u;
  set_query_authority u query : url_scheme u = "http" → same_authority (url_set_query u query) u;
  set_query_path u query : url_scheme u = "http" → url_path (url_set_query u query) = url_path u;
}.

(** ** Paths *)

Lemma trim_end_machine m : Str.all_bytes is_machine_char m = true → Str.trim_end_matches "/" m = m.
Proof.
  induction m as [|a m IH]; [done|]. cbn. intros [Ha Hm]%andb_prop. rewrite IH by done.
  destruct (Ascii.eqb_spec a "/") as [->|]; [done|]. by rewrite andb_false_r.
Qed.
Lemma trim_end_after p m :
  m ≠ "" → Str.all_bytes is_machine_char m = true → Str.trim_end_matches "/" (p +:+ m) = p +:+ m.
Proof.
  intros Hm Hb. induction p as [|a p IH]; [by apply trim_end_machine|]. rewrite Str.app_cons. cbn. rewrite IH.
  destruct (p +:+ m) eqn:E; [|done]. destruct p; [by destruct m|done].
Qed.
Lemma path_under path base :
  path_is_under_base path base = true → path = base ∨ ∃ rest, path = base +:+ "/" +:+ rest.
Proof.
  unfold path_is_under_base. intros [->%String.eqb_eq|Hp]%orb_prop; [by left|right].
  destruct (Str.strip_prefix base path) as [rest|] eqn:E; [|done]. apply Str.strip_prefix_spec in E as ->.
  apply Str.starts_with_spec in Hp as [r ->]. by exists r.
Qed.

(** ** Where a request goes *)

(** An address of the private network at the callback route of a machine. *)
Definition callback_url (m : string) (u : Url) : Prop :=
  url_scheme u = "http" ∧ url_username u = "" ∧ url_password u = None ∧ url_port_or_known_default u = Some 38935%Z ∧
  (∃ host ip, url_host_str u = Some host ∧ ip_from_str host = Some ip ∧ is_tailscale_cgnat ip = true) ∧
  (url_path u = "/callback/" +:+ m ∨ ∃ rest, url_path u = "/callback/" +:+ m +:+ "/" +:+ rest).

Section Callback.
Context `{RelayPlatform} {L : UrlSetters}.

Lemma forward_url_ok m text t suffix query u :
  machine_id_parse m = Ok m → relay_target_parse m text = Ok t → forward_url (rt_url t) suffix query = Ok u → callback_url m u.
Proof.
  intros Hm Ht Hu. destruct (machine_id_parse_ok _ _ Hm) as (_ & Hne & _ & Hb).
  destruct (relay_target_ok _ _ _ Ht) as (_ & _ & Hs & Hun & Hpw & Hp & Hpath & Hh).
  unfold forward_url in Hu. rewrite Hpath, trim_end_after in Hu by done.
  set (v := if Str.is_empty suffix then _ else _) in Hu. destruct (path_is_under_base (url_path v) _) eqn:Hv; [|done].
  cbn in Hu. injection Hu as <-.
  assert (Hauth : same_authority v (rt_url t)).
  { subst v. destruct (Str.is_empty suffix); [done|]. by apply set_path_authority. }
  destruct Hauth as (A1 & A2 & A3 & A4 & A5). rewrite Hs in A1.
  destruct (set_query_authority v (match query with Some EmptyString => None | q => q end) A1) as (B1 & B2 & B3 & B4 & B5).
  unfold callback_url. rewrite B1, B2, B3, B4, B5, set_query_path, A1, A2, A3, A4, A5 by done. split_and!; try done.
  destruct (path_under _ _ Hv) as [->|[rest ->]]; [by left|right]. exists rest. by rewrite Str.app_assoc.
Qed.

(** ** Traces *)

(** [P] of every effect, with what came before it. *)
Fixpoint each (P : list (step_of relay_resp) → RelayE → Prop) (before tr : list (step_of relay_resp)) : Prop :=
  match tr with
  | [] => True
  | x :: rest => P before (projT1 x) ∧ each P (before ++ [x]) rest
  end.
Lemma each_app P before tr tr' : each P before (tr ++ tr') ↔ each P before tr ∧ each P (before ++ tr) tr'.
Proof.
  revert before. induction tr as [|x tr IH]; intros before; cbn; [rewrite app_nil_r; tauto|]. rewrite IH, <- app_assoc. tauto.
Qed.

Definition is_send (x : step_of relay_resp) : bool := match projT1 x with Send _ _ _ _ => true | _ => false end.

(** What the server answers: valid registries, and bodies within the limit. *)
Definition served (x : step_of relay_resp) : Prop :=
  match x with
  | existT SnapRead snapshot => valid_snapshot snapshot
  | existT (ToBytes limit) (Ok body) => (Str.len body <= limit)%Z
  | _ => True
  end.

(** A request that may leave the server. *)
Record safe_send (request : CallbackRequest) (before : list (step_of relay_resp))
    (method : string) (url : Url) (headers : HeaderMap) (body : string) : Prop := {
  ss_machine : ∃ m snapshot entry, cr_machine_id request = Some m ∧ existT SnapRead snapshot ∈ before ∧
    snapshot !! m = Some entry ∧ re_disabled entry = false ∧ callback_url m url;
  ss_first : Forall (fun x => is_send x = false) before;
  ss_permit : existT TryGlobal true ∈ before ∧ (∃ sem, existT (TrySem sem) true ∈ before) ∧ existT DropGlobal () ∉ before;
  ss_method : method = cr_method request;
  ss_body : (Str.len body <= PUBLIC_REQUEST_BODY_LIMIT_BYTES)%Z;
  ss_query : ∀ q, cr_query request = Some q → (Str.len q <= PUBLIC_QUERY_LIMIT_BYTES)%Z;
  ss_headers : ∀ name value, (name, value) ∈ headers →
    (name, value) ∈ cr_headers request ∧ name ∈ REQUEST_HEADER_ALLOWLIST ∧ name ∉ connection_header_names (cr_headers request);
}.
Definition sends_safe (request : CallbackRequest) (before : list (step_of relay_resp)) (e : RelayE) : Prop :=
  match e with Send method url headers body => safe_send request before method url headers body | _ => True end.

(** ** Responses *)

Lemma read_chunks_bound out chunks failed body :
  (Str.len out <= PUBLIC_RESPONSE_LIMIT_BYTES)%Z → read_chunks out chunks failed = Ok body → (Str.len body <= PUBLIC_RESPONSE_LIMIT_BYTES)%Z.
Proof.
  revert out. induction chunks as [|x chunks IH]; intros out Ho; cbn; [by destruct failed; intros [= <-]|].
  case_bool_decide as Hl; [done|]. apply IH. revert Hl. unfold Str.len. rewrite Str.length_app. lia.
Qed.

(** The headers that every response carries, and the ones it may. *)
Definition response_ok (r : ForwardResponse) : Prop :=
  (Str.len (fs_body r) <= PUBLIC_RESPONSE_LIMIT_BYTES)%Z ∧
  (∀ name value, (name, value) ∈ security_headers → header_get name (fs_headers r) = Some value) ∧
  ∀ name value, (name, value) ∈ fs_headers r → name ∈ RESPONSE_HEADER_ALLOWLIST ++ security_headers.*1.

Lemma header_insert_get name value h : header_get name (header_insert name value h) = Some value.
Proof.
  unfold header_get, get, header_insert. induction h as [|[k v] h IH]; cbn; [by rewrite String.eqb_refl|].
  destruct (String.eqb_spec k name) as [->|Hne]; cbn; [done|]. by destruct (String.eqb_spec k name).
Qed.
Lemma header_insert_other name name' value h : name ≠ name' → header_get name (header_insert name' value h) = header_get name h.
Proof.
  intros Hne. unfold header_get, get, header_insert. induction h as [|[k v] h IH]; cbn.
  - by destruct (String.eqb_spec name' name).
  - destruct (String.eqb_spec k name') as [->|Hk]; cbn; [by destruct (String.eqb_spec name' name)|by destruct (String.eqb_spec k name)].
Qed.
Lemma header_insert_elem name value h k v : (k, v) ∈ header_insert name value h → k = name ∨ (k, v) ∈ h.
Proof.
  unfold header_insert. rewrite elem_of_app, list_elem_of_singleton. intros [Hk|[= -> _]]; [right|by left].
  by apply list_elem_of_In, filter_In in Hk as [?%list_elem_of_In _].
Qed.
Lemma apply_headers_get name value h :
  (name, value) ∈ security_headers → header_get name (apply_public_callback_security_headers h) = Some value.
Proof.
  unfold apply_public_callback_security_headers, security_headers. cbn [foldl fst snd]. rewrite !elem_of_cons.
  intros [E|[E|[E|[E|[E|E]]]]]; [injection E as -> ->..|by apply elem_of_nil in E];
    repeat (rewrite header_insert_get || rewrite header_insert_other by done); done.
Qed.
Lemma foldl_insert_elem l h k v :
  (k, v) ∈ foldl (fun h kv => header_insert kv.1 kv.2 h) h l → k ∈ l.*1 ∨ (k, v) ∈ h.
Proof.
  revert h. induction l as [|[n x] l IH]; intros h; cbn; [by right|]. intros [Hk|Hk]%IH; [set_solver|].
  apply header_insert_elem in Hk as [->|]; set_solver.
Qed.
Lemma apply_headers_ok h status body :
  (∀ name value, (name, value) ∈ h → name ∈ RESPONSE_HEADER_ALLOWLIST) → (Str.len body <= PUBLIC_RESPONSE_LIMIT_BYTES)%Z →
  response_ok (mkForwardResponse status (apply_public_callback_security_headers h) body).
Proof.
  intros Hh Hb. split_and!; [done|intros name value; apply apply_headers_get|]. intros name value Hn.
  apply foldl_insert_elem in Hn as [Hn|Hn]; apply elem_of_app; [by right|left; by eapply Hh].
Qed.

(** ** The handler *)

Definition forwarded_ok (f : ForwardResponse) : Prop :=
  (Str.len (fs_body f) <= PUBLIC_RESPONSE_LIMIT_BYTES)%Z ∧
  ∀ name value, (name, value) ∈ fs_headers f → name ∈ RESPONSE_HEADER_ALLOWLIST.
Definition callback_ok (request : CallbackRequest) (before tr : list (step_of relay_resp))
    (r : result ForwardResponse PublicRelayError) : Prop :=
  Forall served tr → each (sends_safe request) before tr ∧ match r with Ok f => forwarded_ok f | Err _ => True end.

Lemma forward_ok request before f :
  (∀ u, forward_url (rt_url (fr_target f)) (fr_suffix_path f) (fr_query f) = Ok u →
     safe_send request before (fr_method f) u (filter_public_request_headers (fr_headers f)) (fr_body f)) →
  always (forward f) (callback_ok request before).
Proof.
  intros Hs. unfold forward. destruct (forward_url _ _ _) as [u|] eqn:Hu; [|done]. specialize (Hs u eq_refl).
  cbn. intros [[status headers]|t]; [|by cbn]. cbn. intros [chunks failed] _. split; [by split_and!|].
  destruct (read_chunks _ _ _) as [out|] eqn:Hr; [|done]. split.
  - eapply read_chunks_bound; [|exact Hr]. unfold Str.len, PUBLIC_RESPONSE_LIMIT_BYTES. cbn. lia.
  - intros name value Hn. by apply filter_headers_allowed in Hn as (_ & Hn & _).
Qed.

Definition no_send (tr : list (step_of relay_resp)) : Prop := Forall (fun x => is_send x = false) tr.
Lemma no_send_each request before tr : no_send tr → each (sends_safe request) before tr.
Proof.
  intros Ht. revert before. induction Ht as [|[e r] tr Hx _ IH]; intros before; cbn; [done|]. split; [|apply IH]. by destruct e.
Qed.
Definition has_permits (tr : list (step_of relay_resp)) : Prop :=
  existT TryGlobal true ∈ tr ∧ (∃ sem, existT (TrySem sem) true ∈ tr) ∧ existT DropGlobal () ∉ tr.
Lemma acquire_ok m :
  always (acquire_forward_permit m) (fun tr r => no_send tr ∧ match r with Ok _ => has_permits tr | Err _ => True end).
Proof.
  unfold acquire_forward_permit, machine_limit. cbn. intros [|]; cbn; [|by repeat constructor].
  intros [sem|]; cbn; [intros [|]|intros sem [|]]; cbn; try (by intros []; repeat constructor); try (by repeat constructor).
  - split; [by repeat constructor|]. split_and!; [set_solver|exists sem; set_solver|].
    rewrite !not_elem_of_cons. split_and!; try done; try apply not_elem_of_nil.
  - split; [by repeat constructor|]. split_and!; [set_solver|exists sem; set_solver|].
    rewrite !not_elem_of_cons. split_and!; try done; try apply not_elem_of_nil.
Qed.

(** The part of the handler that follows the lookup. *)
Section Permitted.
Context (request : CallbackRequest) (m suffix : string) (snapshot : PublicRelaySnapshot) (entry : PublicRelayEntry) (t : RelayTarget).
Context (Hreq : cr_machine_id request = Some m) (Hv : valid_snapshot snapshot) (Hs : snapshot !! m = Some entry)
  (Hd : re_disabled entry = false) (Ht : entry_target entry = Ok t)
  (Hq : ∀ q, cr_query request = Some q → (Str.len q <= PUBLIC_QUERY_LIMIT_BYTES)%Z).
Let read : step_of relay_resp := existT SnapRead snapshot.

Lemma permitted_send before body u :
  no_send before → has_permits before → (Str.len body <= PUBLIC_REQUEST_BODY_LIMIT_BYTES)%Z →
  forward_url (rt_url t) suffix (cr_query request) = Ok u →
  safe_send request (read :: before ++ [existT (ToBytes PUBLIC_REQUEST_BODY_LIMIT_BYTES) (Ok body)]) (cr_method request) u
    (filter_public_request_headers (cr_headers request)) body.
Proof.
  intros Hn (Hg & [sem Hsem] & Hdrop) Hb Hu. destruct Hv as [Hk He]. pose proof (Hk m entry Hs) as Hid. destruct (He m entry Hs) as [Hp _].
  split; try done.
  - exists m, snapshot, entry. split_and!; try done; [set_solver|]. unfold id_ok in Hp. unfold entry_target in Ht. rewrite Hid in Hp, Ht.
    by eapply forward_url_ok.
  - constructor; [done|]. apply Forall_app. split; [done|]. by constructor.
  - split_and!; [set_solver|exists sem; set_solver|]. rewrite not_elem_of_cons, not_elem_of_app, not_elem_of_cons.
    split_and!; try done. apply not_elem_of_nil.
  - intros name value Hin. by apply filter_headers_allowed in Hin as (? & ? & _ & ?).
Qed.
Lemma forward_body_ok before :
  no_send before → has_permits before → always (forward_body request t suffix) (callback_ok request (read :: before)).
Proof.
  intros Hn Hp. unfold forward_body. cbn [relay_do trigger pbind always]. intros [body|[limit text]]; [|by cbn].
  destruct (decide (Str.len body <= PUBLIC_REQUEST_BODY_LIMIT_BYTES)%Z) as [Hb|Hb].
  - eapply always_mono; [apply forward_ok; intros u Hu; by apply (permitted_send before body u)|].
    intros tr r Hok [_ Hg]%Forall_cons. destruct (Hok Hg) as [He Hr]. split; [|done]. by split.
  - eapply always_mono; [apply always_trivial|]. by intros tr r _ [? _]%Forall_cons.
Qed.
Lemma permitted_ok :
  always (let!? permit := acquire_forward_permit m in
          let! result := forward_body request t suffix in let! _ := drop_permit permit in Ret result)
    (callback_ok request [read]).
Proof.
  eapply always_try_spec; [apply acquire_ok| |].
  - intros tr permit [Hn Hp]. eapply always_bind_spec; [by apply (forward_body_ok tr)|].
    intros tr' r Hr. cbn. intros [] []. intros Hg. rewrite !Forall_app in Hg. destruct Hg as (Hg1 & Hg2 & _).
    destruct (Hr Hg2) as [He Hf]. split; [|done]. rewrite !each_app. split_and!; [by apply no_send_each|done|by apply no_send_each; repeat constructor].
  - intros tr e [Hn _] _. split; [by apply no_send_each|done].
Qed.
End Permitted.

Lemma try_callback_ok app request : always (try_callback app request) (callback_ok request []).
Proof.
  assert (Hok : ∀ before tr e, each (sends_safe request) before tr → callback_ok request before tr (Err e)) by by split.
  unfold try_callback. destruct (machine_id_parse (default "" (cr_machine_id request))) as [m|] eqn:Hm; [|by apply Hok].
  destruct (match cr_query request with Some q => _ | None => _ end) eqn:Hq; [by apply Hok|].
  destruct (content_length_exceeds_limit _ _); [by apply Hok|].
  destruct (suffix_after_machine _ _) as [suffix|]; [|by apply Hok]. destruct (ra_loaded app); [|by apply Hok]. cbn [negb].
  destruct (machine_id_parse_ok _ _ Hm) as (Hid & Hne & _ & _).
  assert (Hreq : cr_machine_id request = Some m) by (destruct (cr_machine_id request); cbn in Hid; congruence).
  assert (Hquery : ∀ q, cr_query request = Some q → (Str.len q <= PUBLIC_QUERY_LIMIT_BYTES)%Z).
  { intros q Hcq. rewrite Hcq in Hq. apply bool_decide_eq_false in Hq. lia. }
  unfold resolve_machine. cbn [pbind try_bind relay_do trigger always]. intros snapshot.
  destruct (snapshot !! m) as [entry|] eqn:Hs; [|by apply Hok]. destruct (re_disabled entry) eqn:Hd; [by apply Hok|].
  destruct (entry_target entry) as [t|] eqn:Ht; [|by apply Hok]. apply always_paths. intros tr r Hp Hg.
  apply Forall_cons in Hg as [Hv Hg]. destruct (proj1 (always_paths _ _) (permitted_ok request m suffix snapshot entry t Hreq Hv Hs Hd Ht Hquery) tr r Hp Hg).
  split; [by split|done].
Qed.
Lemma callback_always app request :
  always (relay_callback app request) (fun tr o => Forall served tr → each (sends_safe request) [] tr ∧ response_ok o).
Proof.
  eapply always_bind_spec; [apply try_callback_ok|]. intros tr r Hr. cbn. rewrite app_nil_r. intros Hg. destruct (Hr Hg) as [He Hf].
  split; [done|]. destruct r as [f|e].
  - destruct Hf as [Hb Hh]. by apply apply_headers_ok.
  - apply apply_headers_ok; [set_solver|]. by destruct e.
Qed.

(** ** In the running server *)

(** [q] is what is left of [p] after the effects of [tr]. *)
Inductive leads {A} : relay A → list (step_of relay_resp) → relay A → Prop :=
| leads_here p : leads p [] p
| leads_step e k r tr q : leads (k r) tr q → leads (Vis e k) (existT e r :: tr) q.
Lemma leads_snoc {A} (p : relay A) tr e k r : leads p tr (Vis e k) → leads p (tr ++ [existT e r]) (k r).
Proof.
  remember (Vis e k) as q eqn:Hq. induction 1 as [p|e' k' r' tr q _ IH]; [subst|]; cbn; constructor; [constructor|by apply IH].
Qed.
Lemma leads_paths {A} (p q : relay A) tr tr' a : leads p tr q → paths q tr' a → paths p (tr ++ tr') a.
Proof. induction 1; cbn; [done|]. intros Hp. constructor. auto. Qed.
Lemma completes {A} (p : relay A) : ∃ tr a, paths p tr a ∧ Forall served tr.
Proof.
  induction p as [a|e k IH]; [exists [], a; split; [constructor|done]|].
  assert (Hr : ∃ r, served (existT e r)).
  { destruct e; cbn; try by (exists () || exists 0 || exists None || exists true || exists (Ok (Err UnknownMachine)) || exists (Err true) || exists ([], None)).
    - exists ∅. apply valid_empty.
    - by exists (Err (false, "")). }
  destruct Hr as [r Hr]. destruct (IH r) as (tr & a & Hp & Hg). exists (existT e r :: tr), a. split; by constructor.
Qed.
Lemma leads_send app request tr method url headers body k :
  leads (call_program app (CallbackCall request)) tr (Vis (Send method url headers body) k) → Forall served tr →
  safe_send request tr method url headers body.
Proof.
  intros Hl Hg. destruct (completes (Vis (Send method url headers body) k)) as (tr' & a & Hp & Hg').
  pose proof (leads_paths _ _ _ _ _ Hl Hp) as Hall. apply paths_inv in Hp as (r & tr2 & -> & _).
  assert (Hcall : always (call_program app (CallbackCall request)) (fun tr _ => Forall served tr → each (sends_safe request) [] tr)).
  { eapply always_bind_spec; [apply callback_always|]. intros tr0 o Ho. cbn. rewrite app_nil_r. intros Hx. by destruct (Ho Hx). }
  pose proof (proj1 (always_paths _ _) Hcall _ _ Hall ltac:(apply Forall_app; by split)) as He. apply each_app in He as [_ [He _]]. done.
Qed.
Lemma leads_response app request tr o :
  leads (call_program app (CallbackCall request)) tr (Ret o) → Forall served tr → ∃ r, o = Responded r ∧ response_ok r.
Proof.
  intros Hl Hg. pose proof (leads_paths _ _ _ _ _ Hl (paths_ret o)) as Hall. rewrite app_nil_r in Hall.
  assert (Hcall : always (call_program app (CallbackCall request))
                    (fun tr o => Forall served tr → ∃ r, o = Responded r ∧ response_ok r)).
  { eapply always_bind_spec; [apply callback_always|]. intros tr0 r Ho. cbn. rewrite app_nil_r. intros Hx. destruct (Ho Hx). by exists r. }
  exact (proj1 (always_paths _ _) Hcall _ _ Hall Hg).
Qed.

Context {J : RegistryJson} (app : RelayApp) (store : PublicRelayRegistryStore) (faults : bool).

Definition traced (s : RelaySys) : Prop :=
  ∀ i c p, sy_tasks s !! i = Some (mkRelayTask c p) → ∃ tr, leads (call_program app c) tr p ∧ Forall served tr.

Lemma effect_tasks i e env s r s' : task_effect store i e env s = Some (r, s') → sy_tasks s' = sy_tasks s.
Proof.
  destruct e; cbn; intros He; try (by injection He as _ <-); try (by repeat case_match; simplify_eq).
  by apply fmap_Some in He as (? & _ & [= _ ->]).
Qed.
Lemma effect_good i e env s r s' :
  valid_snapshot (mg_snapshot (sy_manager s)) → task_effect store i e env s = Some (r, s') → served (existT e r).
Proof.
  intros Hv. destruct e; cbn; intros He; try done; [by injection He as <- _|]. destruct (env _); [|by injection He as <- _].
  case_bool_decide; [|done]. by injection He as <- _.
Qed.
Lemma traced_step s s' :
  valid_snapshot (mg_snapshot (sy_manager s)) → traced s → relay_step app store faults s s' → traced s'.
Proof.
  intros Hv Ht [a Ha]. destruct a as [c|i env|j env|i|j message|entries]; cbn in Ha.
  - injection Ha as <-. intros i c' p. cbn [sy_tasks]. intros [[_ [= <- <-]]|[_ Hi]]%lookup_insert_Some; [|by apply Ht in Hi].
    exists []. split; [constructor|done].
  - destruct (sy_tasks s !! i) as [[c [|e k]]|] eqn:Hi; [done| |done]. apply bind_Some in Ha as ([r s1] & He & [= <-]).
    intros j c' p. cbn [sy_tasks set_task]. rewrite (effect_tasks _ _ _ _ _ _ He).
    intros [[-> [= <- <-]]|[_ Hj]]%lookup_insert_Some; [|by apply Ht in Hj]. destruct (Ht _ _ _ Hi) as (tr & Hl & Hg).
    exists (tr ++ [existT e r]). split; [by apply leads_snoc|]. apply Forall_app. split; [done|]. constructor; [|done].
    by eapply effect_good.
  - destruct (sy_saves s !! j) as [[|e k]|]; [done| |done]. destruct (file_effect _ _ _ _). injection Ha as <-. exact Ht.
  - destruct (sy_tasks s !! i); [|done]. destruct (negb faults && _); [done|]. injection Ha as <-. intros j c p.
    cbn [sy_tasks]. intros [_ Hj]%lookup_delete_Some. by apply Ht in Hj.
  - destruct (sy_saves s !! j) as [[|e k]|]; [done| |done]. destruct faults; [|done]. injection Ha as <-. exact Ht.
  - destruct (faults && _); [|done]. injection Ha as <-. exact Ht.
Qed.
Lemma reachable_traced file s0 s : relay_reachable app store faults file s0 s → traced s.
Proof.
  intros [Hs0 Hs]. revert Hs. eapply (rtc_ind_r (fun s => traced s)).
  - intros i c p. apply let_ok in Hs0 as (x & _ & [= <-]). cbn. by rewrite lookup_empty.
  - intros s1 s2 Hr Hstep Ht. eapply traced_step; [|done..].
    destruct (relay_reachable_inv app store faults file s0 s1) as [phs I]; [by split|]. apply (in_commits _ _ _ _ I).
Qed.
End Callback.

(** ** A concrete platform *)

Section Sample.
#[local] Existing Instances sample_platform sample_web.

Definition with_query (u : Url) (query : option string) : Url :=
  mkUrl (url_str u) (url_scheme u) (url_username u) (url_password u) (url_host u) (url_host_str u) (url_port_or_known_default u)
    (url_path u) query (url_fragment u).

(** A registry as the texts of its fields. *)
Definition value_texts (v : Value) : list string :=
  match v with
  | VObject [(_, VString m); (_, VString t); (_, d); (_, VBool b)] =>
      [m; t; match d with VString d => String "s" d | _ => "n" end; if b : bool then "t" else "f"]
  | _ => []
  end.
Fixpoint entries_of_texts (l : list string) : list PublicRelayEntry :=
  match l with
  | m :: t :: d :: b :: rest =>
      mkRelayEntry m t (match d with String "s" d => Some d | _ => None end) (String.eqb b "t") :: entries_of_texts rest
  | _ => []
  end.
Definition sample_pretty (v : Value) : string :=
  match v with VObject [_; (_, VArray l)] => put_list (l ≫= value_texts) "" | _ => "" end.
Definition sample_read (s : string) : result Value string :=
  match get_list (S (String.length s)) s with Some (l, _) => Ok (registry_value (entries_of_texts l)) | None => Err "json" end.
Definition sample_relay : RelayPlatform := {|
  url_set_query := with_query; json_read := sample_read; json_pretty := sample_pretty; entry_error := fun _ => "invalid entry" |}.
End Sample.

Lemma put_list_app l rest : put_list l rest = put_list l "" +:+ rest.
Proof.
  induction l as [|x l IH]; cbn; [done|]. rewrite IH. clear IH. rewrite Str.app_cons. f_equal.
  induction x as [|a x IH]; cbn; rewrite !Str.app_cons; [done|]. by rewrite IH.
Qed.
Lemma texts_round es : entries_of_texts ((value_of_entry <$> es) ≫= value_texts) = es.
Proof.
  induction es as [|[m t [d|] b] es IH]; [done|..]; cbn; (f_equal; [by destruct b|exact IH]).
Qed.
#[global] Instance sample_registry_json : @RegistryJson _ _ sample_relay.
Proof.
  intros es. cbn. unfold sample_read, registry_text. cbn [json_pretty sample_relay sample_pretty registry_value].
  rewrite <- put_list_app, get_put_list; [by rewrite texts_round|].
  pose proof (put_list_length ((value_of_entry <$> es) ≫= value_texts) line_feed). lia.
Qed.
#[global] Instance sample_url_setters : @UrlSetters _ _ sample_relay.
Proof. by split. Qed.

(** ** Runs *)

Section Runs.
Context `{RelayPlatform} (app : RelayApp) (store : PublicRelayRegistryStore).
Lemma relay_acts_rtc faults l s s' : relay_acts app store faults l s = Some s' → rtc (relay_step app store faults) s s'.
Proof.
  revert s. induction l as [|a l IH]; intros s; cbn; [intros [= <-]; constructor|].
  intros (s1 & Ha & Hl)%bind_Some. eapply rtc_l; [by exists a|by apply IH].
Qed.
End Runs.

(** ** Theorems *)

(** (C17) The registry is linearizable.  In every state that a server can reach
    from a registry file, whatever the interleaving of requests, saves, failures
    and disconnects: the registry in memory is valid, and it is what the installed
    mutations, applied one after the other to the registry at start, make of it;
    each of them is one request of a caller with [lab:admin], installed once; and
    a request that has ended reports success exactly when its mutation is among
    them. *)
Theorem registry_linearizable `{RelayPlatform} {J : RegistryJson} app store faults file s0 s :
  relay_reachable app store faults file s0 s →
  valid_snapshot (mg_snapshot (sy_manager s)) ∧
  replay (mg_snapshot (sy_manager s0)) ((fun x => x.2.2) <$> sy_commits s) = Some (mg_snapshot (sy_manager s)) ∧
  NoDup (sy_commits s).*1 ∧
  (∀ i auth r, (i, (auth, r)) ∈ sy_commits s → require_lab_admin auth = Ok ()) ∧
  ∀ i c o, sy_tasks s !! i = Some (mkRelayTask c (Ret o)) →
    acknowledged o = true ↔ ∃ auth r, c = AdminCall auth r ∧ (i, (auth, r)) ∈ sy_commits s.
Proof.
  intros Hr. destruct (relay_reachable_inv _ _ _ _ _ _ Hr) as [phs [[Tt _ _] [Cv Cr Co Ca] _ _ _]]. split_and!; [done..|].
  intros i c o Hi. destruct (Tt i c _ Hi) as [Hend St]. cbn in Hend. unfold at_end in Hend. rewrite Hend in St. clear Hend.
  pose proof (sd_commit _ _ _ _ St) as Hc. cbn in Hc. rewrite <- Hc, elem_fst. split.
  - intros [[auth r] Hx]. exists auth, r. split; [|done]. by apply (sd_call _ _ _ _ St) in Hx.
  - intros (auth & r & _ & Hx). by exists (auth, r).
Qed.

(** (C21) The registry survives a restart.  The file can always be loaded and
    holds a valid registry, also when saves overlap, are abandoned or panic, and
    when the [relay-registry] commands of other processes save to the same file.
    As long as there is none of this and no directory sync fails ([faults] is
    false: the server is the only writer and no mutation is abandoned), the
    file holds the registry in memory whenever the mutation lock is free: a
    server started on the file comes up with the same registry. *)
Theorem registry_durable `{RelayPlatform} {J : RegistryJson} app store faults file s0 s :
  relay_reachable app store faults file s0 s →
  (∃ x, reload (sy_file s) = Ok x ∧ valid_snapshot x) ∧
  (faults = false → mg_mutation (sy_manager s) = None → reload (sy_file s) = Ok (mg_snapshot (sy_manager s))).
Proof.
  intros Hr. destruct (relay_reachable_inv _ _ _ _ _ _ Hr) as [phs I]. split; [apply (in_saves _ _ _ _ I)|].
  intros Hf Hm. destruct (in_durable _ _ _ _ I Hf) as [_ Hd]. by rewrite Hm in Hd.
Qed.

(** A task that reads a public body or talks to an upstream. *)
Definition forwarding (t : RelayTask) : bool :=
  match tk_prog t with Vis (ToBytes _) _ | Vis (Send _ _ _ _) _ | Vis ReadChunks _ => true | _ => false end.

(** (C22) The public endpoint cannot take more than its share.  A task buffers a
    public request or waits for an upstream only with a global permit and a permit
    of a machine; a permit is held by a task that is still running, at most one of
    each kind; there are at most 32 global permits, at most 2 per semaphore, and
    so at most 32 such tasks. *)
Theorem forward_permits `{RelayPlatform} {J : RegistryJson} app store faults file s0 s :
  relay_reachable app store faults file s0 s →
  (∀ i t, sy_tasks s !! i = Some t → forwarding t = true → globals i s = [i] ∧ ∃ sem, machines i s = [(sem, i)]) ∧
  (∀ i, i ∈ mg_global (sy_manager s) ∨ i ∈ (mg_machine (sy_manager s)).*2 →
     ∃ c e k, sy_tasks s !! i = Some (mkRelayTask c (Vis e k)) ∧ length (globals i s) ≤ 1 ∧ length (machines i s) ≤ 1) ∧
  length (mg_global (sy_manager s)) ≤ 32 ∧
  (∀ sem, held_of sem (mg_machine (sy_manager s)) ≤ 2) ∧
  size (filter (fun it => forwarding it.2 = true) (sy_tasks s)) ≤ 32.
Proof.
  intros Hr. destruct (relay_reachable_inv _ _ _ _ _ _ Hr) as [phs [[Tt Tg _] _ [Hg Hm] _ _]].
  assert (Hfw : ∀ i t, sy_tasks s !! i = Some t → forwarding t = true → globals i s = [i] ∧ ∃ sem, machines i s = [(sem, i)]).
  { intros i [c p] Hi Hf. destruct (Tt i c p Hi) as [Hp St]. destruct p as [o|e k]; [done|]. cbn [follows] in Hp.
    assert (Hph : ∃ sem, phs i = WithPermit sem) by (destruct e; try done; destruct Hp as (sem & Hph & _); by exists sem).
    destruct Hph as [sem Hph]. rewrite Hph in St. split; [apply St|]. exists sem. apply St. }
  split_and!; [done| |done|done|].
  - intros i Hi. assert (Hh : globals i s ≠ [] ∨ machines i s ≠ []).
    { destruct Hi as [Hi|Hi]; [left|right].
      - intros Hn. apply (not_elem_of_nil i). rewrite <- Hn. by apply list_elem_of_filter.
      - apply list_elem_of_fmap in Hi as (x & -> & Hx). intros Hn. apply (not_elem_of_nil x). rewrite <- Hn. by apply list_elem_of_filter. }
    destruct (sy_tasks s !! i) as [[c p]|] eqn:Et; [|destruct (Tg i Et) as (_ & -> & ->); naive_solver].
    destruct (Tt i c p Et) as [Hp St]. rewrite (sd_global _ _ _ _ St), (sd_machine _ _ _ _ St) in *. destruct p as [o|e k].
    + cbn in Hp. unfold at_end in Hp. rewrite Hp in Hh. naive_solver.
    + exists c, e, k. split; [done|]. destruct (phs i); cbn; lia.
  - etrans; [|exact Hg]. rewrite <- (size_dom (D := gset nat)). apply submseteq_length, NoDup_submseteq; [apply NoDup_elements|].
    intros i [t [Hi Hf]%map_lookup_filter_Some]%elem_of_elements%elem_of_dom.
    destruct (Hfw i t Hi Hf) as [Hgl _]. assert (Hin : i ∈ globals i s) by (rewrite Hgl; set_solver).
    by apply list_elem_of_filter in Hin as [_ ?].
Qed.

(** (C16) A public callback reaches nothing but the callback route of a
    registered machine.  In every state that the server can reach, a request about
    to leave it belongs to a callback; it goes by [http] to port 38935 of an
    address in 100.64.0.0/10, at or under [/callback/<machine>] for the machine
    the client named, which was registered and enabled when the callback looked;
    it is the first of its callback, sent after both permits were taken; it has
    the method of the client, a body and a query within their limits, and only
    allowlisted headers of the client that [Connection] does not name.  And every
    response to a callback has a body within the limit, the security headers, and
    no header outside the allowlist. *)
Theorem callback_confined `{RelayPlatform} {L : UrlSetters} {J : RegistryJson} app store faults file s0 s i c p :
  relay_reachable app store faults file s0 s → sy_tasks s !! i = Some (mkRelayTask c p) →
  match p with
  | Vis (Send method url headers body) _ =>
      ∃ request before, c = CallbackCall request ∧ leads (call_program app c) before p ∧
                        safe_send request before method url headers body
  | Ret o => ∀ request, c = CallbackCall request → ∃ r, o = Responded r ∧ response_ok r
  | _ => True
  end.
Proof.
  intros Hr Hi. destruct (reachable_traced _ _ _ _ _ _ Hr _ _ _ Hi) as (tr & Hl & Hg).
  destruct (relay_reachable_inv _ _ _ _ _ _ Hr) as [phs [[Tt _ _] _ _ _ _]]. destruct (Tt i c p Hi) as [Hp _]. destruct p as [o|e k].
  - intros request ->. by eapply leads_response.
  - destruct e; try done. destruct Hp as (sem & _ & Hc & _). destruct c as [request| |]; [|done..].
    exists request, tr. split_and!; [done..|]. by eapply leads_send.
Qed.

(** ** Concrete runs *)

#[local] Existing Instances sample_platform sample_web sample_relay.

Definition demo_app : RelayApp := mkRelayApp true "/home/labby/.labby/oauth-public-relay/registry.json".
Definition demo_store : PublicRelayRegistryStore :=
  mkRelayStore "/home/labby/.labby/oauth-public-relay/registry.json" (Some "/home/labby/.labby/oauth-public-relay") "registry.json".
Definition demo_admin : AuthContext := mkAuthContext "admin" None ["lab:admin"] "local" false None None.
Definition demo_start : RelaySys := mkSys (loaded_manager ∅) None ∅ 0 ∅ 0 [].

(** An environment in which every call succeeds. *)
Definition calm (e : RelayE) : relay_resp e :=
  match e with
  | SnapRead => ∅ | SpawnSave _ => 0 | LimitOrInsert _ => 0 | JoinSave _ => Err "join"
  | LimitGet _ => None | TryGlobal => true | TrySem _ => true | ToBytes _ => Ok "code=1"
  | Send _ _ _ _ => Ok (200%Z, [("content-type", "text/plain"); ("set-cookie", "a=b")]) | ReadChunks => (["do"; "ne"], None)
  | _ => ()
  end.
Definition calm_file (e : FileE) : file_resp e :=
  match e with
  | FExists => true | FRead => Ok "" | FNowMillis => Ok 1000%Z | FProcessId => 7%Z | FReadDir _ => None | FRemove _ => true | _ => Ok ()
  end.
(** The same, with a directory that cannot be synced. *)
Definition failing_sync (e : FileE) : file_resp e := match e with FSyncDir _ => Err "io error" | e => calm_file e end.

Definition demo_put (machine host : string) : RelayCall :=
  AdminCall (Some demo_admin) (UpsertMachineAt machine (mkUpsertRequest None ("http://" +:+ host +:+ ":38935/callback/" +:+ machine) None None)).
Definition demo_remove (machine : string) : RelayCall := AdminCall (Some demo_admin) (RemoveMachine machine).
Definition demo_callback (machine : string) : RelayCall :=
  CallbackCall (mkCallbackRequest (Some machine) "GET" ("/callback/" +:+ machine +:+ "/done") (Some "code=1")
    [("cookie", "secret"); ("accept", "*/*"); ("user-agent", "curl")]).

(** A mutation by task [i] with save [j]: up to the save, the save, the rest. *)
Definition to_save (i : nat) : list action := replicate 3 (TaskStep i calm).
Definition saved_by (j n : nat) : list action := replicate n (SaveStep j calm_file).
Definition to_end (i : nat) : list action := replicate 4 (TaskStep i calm).
(** A callback up to its request, and from there to its response. *)
Definition to_send (i : nat) : list action := replicate 5 (TaskStep i calm).
Definition to_response (i : nat) : list action := replicate 4 (TaskStep i calm).

Definition outcome_of (i : nat) (s : RelaySys) : option RelayOutcome :=
  match tk_prog <$> sy_tasks s !! i with Some (Ret o) => Some o | _ => None end.
Definition sends_to (i : nat) (s : RelaySys) : option string :=
  match tk_prog <$> sy_tasks s !! i with Some (Vis (Send _ url _ _) _) => Some (url_path url) | _ => None end.
Definition stored_ids (s : RelaySys) : option (list string) :=
  match reload (sy_file s) with Ok m => Some (fst <$> btree_entries m) | Err _ => None end.
Definition live_ids (s : RelaySys) : list string := fst <$> btree_entries (mg_snapshot (sy_manager s)).

(** One machine registered, and one callback for it. *)
Definition demo_run : list action :=
  [Arrive (demo_put "dookie" "100.88.16.79")] ++ to_save 0 ++ saved_by 0 8 ++ to_end 0 ++
  [Arrive (demo_callback "dookie")] ++ to_send 1.
Example demo_run_ok :
  (fun s => (live_ids s, stored_ids s, acknowledged <$> outcome_of 0 s, sends_to 1 s, fst <$> sy_commits s)) <$>
  relay_acts demo_app demo_store false demo_run demo_start
  = Some (["dookie"], Some ["dookie"], Some true, Some "/callback/dookie/done", [0]).
Proof. vm_compute. reflexivity. Qed.
Definition demo_response : list action := demo_run ++ to_response 1.
Example demo_response_ok :
  (fun s => outcome_of 1 s) <$> relay_acts demo_app demo_store false demo_response demo_start
  = Some (Some (Responded (mkForwardResponse 200 ([("content-type", "text/plain")] ++ security_headers) "done"))).
Proof. vm_compute. reflexivity. Qed.

(** *** What is not guaranteed *)

(** A client that disconnects during its save releases the mutation lock, and the
    save goes on: it replaces the file after a later mutation has been installed
    and acknowledged, which a restart then loses. *)
Definition abandoned_run : list action :=
  [Arrive (demo_put "one" "100.64.0.1")] ++ to_save 0 ++ saved_by 0 2 ++ [Cancel 0; Arrive (demo_put "two" "100.64.0.2")] ++
  to_save 1 ++ saved_by 1 8 ++ to_end 1 ++ saved_by 0 6.
Theorem abandoned_save_wins :
  (fun s => (acknowledged <$> outcome_of 1 s, live_ids s, stored_ids s, mg_mutation (sy_manager s))) <$>
  relay_acts demo_app demo_store true abandoned_run demo_start
  = Some (Some true, ["two"], Some ["one"], None).
Proof. vm_compute. reflexivity. Qed.

(** When the directory cannot be synced after the rename, the request is refused
    and the registry in memory unchanged, but the file holds the new registry. *)
Definition unsynced_run : list action :=
  [Arrive (demo_put "one" "100.64.0.1")] ++ to_save 0 ++ replicate 8 (SaveStep 0 failing_sync) ++ replicate 2 (TaskStep 0 calm).
Theorem refused_but_stored :
  (fun s => (acknowledged <$> outcome_of 0 s, live_ids s, stored_ids s)) <$>
  relay_acts demo_app demo_store true unsynced_run demo_start
  = Some (Some false, [], Some ["one"]).
Proof. vm_compute. reflexivity. Qed.

(** A [relay-registry import] of another process replaces the file: until the
    server is restarted its registry is another one than the file's. *)
Definition demo_entry (machine host : string) : PublicRelayEntry :=
  mkRelayEntry machine ("http://" +:+ host +:+ ":38935/callback/" +:+ machine) None false.
Definition other_process_run : list action :=
  [Arrive (demo_put "one" "100.64.0.1")] ++ to_save 0 ++ saved_by 0 8 ++ to_end 0 ++
  [OtherSave [demo_entry "two" "100.64.0.2"]] ++ saved_by 1 15.
Theorem other_process_stale :
  (fun s => (live_ids s, stored_ids s, mg_mutation (sy_manager s))) <$>
  relay_acts demo_app demo_store true other_process_run demo_start
  = Some (["one"], Some ["two"], None).
Proof. vm_compute. reflexivity. Qed.

(** A save that panics after the rename is refused, but stored. *)
Definition panicked_run : list action :=
  [Arrive (demo_put "one" "100.64.0.1")] ++ to_save 0 ++ saved_by 0 7 ++ [SavePanic 0 "panicked"] ++ replicate 2 (TaskStep 0 calm).
Theorem panicked_but_stored :
  (fun s => (acknowledged <$> outcome_of 0 s, live_ids s, stored_ids s)) <$>
  relay_acts demo_app demo_store true panicked_run demo_start
  = Some (Some false, [], Some ["one"]).
Proof. vm_compute. reflexivity. Qed.

(** A machine that is removed and registered again gets a fresh semaphore while
    requests hold permits of the old one: four requests go to it at once. *)
Definition readded_run : list action :=
  [Arrive (demo_put "dookie" "100.88.16.79")] ++ to_save 0 ++ saved_by 0 8 ++ to_end 0 ++
  [Arrive (demo_callback "dookie"); Arrive (demo_callback "dookie")] ++ to_send 1 ++ to_send 2 ++
  [Arrive (demo_remove "dookie")] ++ to_save 3 ++ saved_by 1 15 ++ to_end 3 ++
  [Arrive (demo_put "dookie" "100.88.16.79")] ++ to_save 4 ++ saved_by 2 15 ++ to_end 4 ++
  [Arrive (demo_callback "dookie"); Arrive (demo_callback "dookie")] ++ to_send 5 ++ to_send 6.
Theorem readded_machine_over_limit :
  (fun s => (fun i => sends_to i s) <$> [1; 2; 5; 6]) <$> relay_acts demo_app demo_store false readded_run demo_start
  = Some (replicate 4 (Some "/callback/dookie/done")).
Proof. vm_compute. reflexivity. Qed.

(** *** Witnesses *)

Lemma demo_reachable faults l s :
  relay_acts demo_app demo_store faults l demo_start = Some s → relay_reachable demo_app demo_store faults None demo_start s.
Proof. intros Hs. split; [done|]. by eapply relay_acts_rtc. Qed.

Lemma registry_linearizable_witness :
  ∃ s, (fst <$> sy_commits s, live_ids s) = ([1], ["two"]) ∧
       replay ∅ ((fun x => x.2.2) <$> sy_commits s) = Some (mg_snapshot (sy_manager s)).
Proof.
  assert (Hrun : (fun s => (fst <$> sy_commits s, live_ids s)) <$> relay_acts demo_app demo_store true abandoned_run demo_start
                 = Some ([1], ["two"])) by (vm_compute; reflexivity).
  apply fmap_Some in Hrun as (s & Hs & Hc). exists s. split; [done|].
  exact (proj1 (proj2 (registry_linearizable demo_app demo_store true None demo_start s (demo_reachable _ _ _ Hs)))).
Defined.

Lemma registry_durable_witness :
  ∃ s, live_ids s = ["dookie"] ∧ reload (sy_file s) = Ok (mg_snapshot (sy_manager s)).
Proof.
  assert (Hrun : (fun s => (live_ids s, mg_mutation (sy_manager s))) <$> relay_acts demo_app demo_store false demo_run demo_start
                 = Some (["dookie"], None)) by (vm_compute; reflexivity).
  apply fmap_Some in Hrun as (s & Hs & [= Hl Hm]). exists s. split; [done|].
  exact (proj2 (registry_durable demo_app demo_store false None demo_start s (demo_reachable _ _ _ Hs)) eq_refl (eq_sym Hm)).
Defined.

Lemma forward_permits_witness :
  ∃ s, mg_global (sy_manager s) = [6; 5; 2; 1] ∧ size (filter (fun it => forwarding it.2 = true) (sy_tasks s)) ≤ 32.
Proof.
  assert (Hrun : (fun s => mg_global (sy_manager s)) <$> relay_acts demo_app demo_store false readded_run demo_start
                 = Some [6; 5; 2; 1]) by (vm_compute; reflexivity).
  apply fmap_Some in Hrun as (s & Hs & Hg). exists s. split; [done|].
  exact (proj2 (proj2 (proj2 (proj2 (forward_permits demo_app demo_store false None demo_start s (demo_reachable _ _ _ Hs)))))).
Defined.

Lemma callback_confined_witness :
  ∃ s url headers request before,
    sends_to 1 s = Some "/callback/dookie/done" ∧ safe_send request before "GET" url headers "code=1".
Proof.
  assert (Hrun : (fun s => (sends_to 1 s, match sy_tasks s !! 1 with
                                          | Some (mkRelayTask _ (Vis (Send method _ _ body) _)) => Some (method, body)
                                          | _ => None
                                          end)) <$> relay_acts demo_app demo_store false demo_run demo_start
                 = Some (Some "/callback/dookie/done", Some ("GET", "code=1"))) by (vm_compute; reflexivity).
  apply fmap_Some in Hrun as (s & Hs & [= Hto Ht]). destruct (sy_tasks s !! 1) as [[c p]|] eqn:Hi; [|done].
  destruct p as [|e k]; [done|]. destruct e as [| | | | | | | | | | | | | |method url headers body|]; try discriminate Ht. injection Ht as <- <-.
  pose proof (callback_confined demo_app demo_store false None demo_start s 1 c _ (demo_reachable _ _ _ Hs) Hi) as (request & before & _ & _ & Hsafe).
  exists s, url, headers, request, before. split; [exact (eq_sym Hto)|exact Hsafe].
Defined.
