(* ===== verification/EnvMerge.v ===== *)
(** * EnvMerge: changes to the environment file

    [labby/src/config/env_merge.rs], and the readers and writers built on it
    ([config/env_writer.rs], [dispatch/setup/draft.rs]).  Settings and secrets are
    kept in [~/.labby/.env]; every change goes through [merge], which rewrites the
    lines it must and keeps the others. *)

From Stdlib Require Import Ascii.
From stdpp Require Import base list gmap strings pretty.
From S2P Require Import Prelude RustStr Prog.

(** ** Data *)

Record EnvEntry := mkEnvEntry { ee_key : string; ee_value : string }.
Record MergeRequest := mkMergeRequest { mr_entries : list EnvEntry; mr_force : bool; mr_expected_mtime : option Z }.
Record PruneStats := mkPruneStats { ps_kept : nat; ps_removed : nat }.
Record MergeOutcome := mkMergeOutcome {
  mo_written : nat; mo_skipped : list string; mo_backup_path : option string; mo_pruned : PruneStats }.

(** [std::io::Error], as far as the module looks into it. *)
Inductive IoKind := NotFoundKind | StorageFullKind | PermissionDeniedKind | OtherKind.
Record EnvIoError := mkEnvIoError { io_kind : IoKind; io_raw_os_error : option Z; io_text : string }.

Inductive WriteFailReason := StorageFull | PermissionDenied | OtherReason (text : string).
Inductive MergeError :=
| TempCreate (parent : string) (source : EnvIoError)
| SyncFailed (source : EnvIoError)
| PersistCrossFs (source : EnvIoError)
| WriteConflict (path : string)
| WriteFailed (path : string) (reason : WriteFailReason)
| CommitRollbackFailed (backup_path : string) (source : EnvIoError).

Definition from_io (e : EnvIoError) : WriteFailReason :=
  match io_kind e with
  | StorageFullKind => StorageFull
  | PermissionDeniedKind => PermissionDenied
  | _ => OtherReason (io_text e)
  end.
Definition merge_kind (e : MergeError) : string :=
  match e with
  | TempCreate _ _ => "merge_temp_create"
  | SyncFailed _ => "merge_sync_failed"
  | PersistCrossFs _ => "merge_persist_cross_fs"
  | WriteConflict _ => "merge_write_conflict"
  | WriteFailed _ _ => "write_failed"
  | CommitRollbackFailed _ _ => "commit_rollback_failed"
  end.
Definition BACKUP_RETENTION : nat := 10.

(** ** Values *)

Definition double_quote : ascii := "034".
Definition backslash : ascii := "092".
Definition is_special (a : ascii) : bool :=
  Ascii.eqb a "#" || Ascii.eqb a double_quote || Ascii.eqb a backslash || Ascii.eqb a "$" || Ascii.eqb a "`" || Ascii.eqb a "'".
Definition needs_quote (value : string) : bool :=
  Str.is_empty value || negb (Str.no_ws value) || negb (Str.all_bytes (fun a => negb (is_special a)) value).
Fixpoint escape_value (value : string) : string :=
  match value with
  | EmptyString => EmptyString
  | String a r =>
      if Ascii.eqb a double_quote then String backslash (String double_quote (escape_value r))
      else if Ascii.eqb a backslash then String backslash (String backslash (escape_value r))
      else String a (escape_value r)
  end.
Definition quote_value (value : string) : string :=
  if needs_quote value then String double_quote (escape_value value +:+ String double_quote "") else value.

(** [str::replace] of the pair [x y] by [z]. *)
Fixpoint replace_pair (x y z : ascii) (s : string) : string :=
  match s with
  | String a ((String b r) as t) =>
      if Ascii.eqb a x && Ascii.eqb b y then String z (replace_pair x y z r) else String a (replace_pair x y z t)
  | _ => s
  end.
Definition strip_quotes (value : string) : string :=
  if (2 <=? String.length value) && Str.starts_with (String double_quote "") value && Str.ends_with (String double_quote "") value
  then replace_pair backslash backslash backslash
         (replace_pair backslash double_quote double_quote (Str.take (String.length value - 2) (Str.drop 1 value)))
  else value.

(** ** Lines *)

(** The assignment on a line: the key, and the value as it is written. *)
Definition assignment (line : string) : option (string * string) :=
  let trimmed := Str.trim line in
  if Str.is_empty trimmed || Str.starts_with "#" trimmed then None
  else (fun kv => (Str.trim kv.1, kv.2)) <$> Str.split_once "=" trimmed.
(** [read_entries] of [draft.rs], on the text of the file. *)
Definition read_entries (raw : string) : list (string * string) :=
  omap (fun line => (fun kv => (kv.1, strip_quotes (Str.trim kv.2))) <$> assignment line) (Str.lines raw).
Definition existing_map (raw : string) : gmap string string :=
  foldl (fun m kv => <[kv.1 := kv.2]> m) ∅ (read_entries raw).

(** Last value wins, in the place of the first occurrence. *)
Fixpoint put_entry (e : EnvEntry) (l : list EnvEntry) : list EnvEntry :=
  match l with
  | [] => [e]
  | x :: r => if String.eqb (ee_key x) (ee_key e) then mkEnvEntry (ee_key x) (ee_value e) :: r else x :: put_entry e r
  end.
Definition collapse (entries : list EnvEntry) : list EnvEntry := foldl (fun l e => put_entry e l) [] entries.

Definition conflict_warning (key : string) : string :=
  "CONFLICT: " +:+ key +:+ " already set; skipping (set force=true to overwrite)".

Record MergePlan := mkPlan {
  pl_skipped : list string; pl_overrides : gmap string string; pl_new_keys : list (string * string); pl_written : nat }.
Definition classify (existing : gmap string string) (force : bool) (p : MergePlan) (e : EnvEntry) : MergePlan :=
  match existing !! ee_key e with
  | None => mkPlan (pl_skipped p) (pl_overrides p) (pl_new_keys p ++ [(ee_key e, ee_value e)]) (S (pl_written p))
  | Some v =>
      if String.eqb v (ee_value e) then p
      else if force then mkPlan (pl_skipped p) (<[ee_key e := ee_value e]> (pl_overrides p)) (pl_new_keys p) (S (pl_written p))
      else mkPlan (pl_skipped p ++ [conflict_warning (ee_key e)]) (pl_overrides p) (pl_new_keys p) (pl_written p)
  end.
Definition merge_plan (raw : string) (req : MergeRequest) : MergePlan :=
  foldl (classify (existing_map raw) (mr_force req)) (mkPlan [] ∅ [] 0) (collapse (mr_entries req)).
Definition no_change (p : MergePlan) : bool := bool_decide (pl_overrides p = ∅) && bool_decide (pl_new_keys p = []).

Definition entry_line (key value : string) : string := key +:+ "=" +:+ quote_value value.
Definition rewrite_line (overrides : gmap string string) (line : string) : string :=
  match assignment line with
  | Some (key, _) => match overrides !! key with Some value => entry_line key value | None => line end
  | None => line
  end.
Definition ends_blank (out : list string) : bool :=
  match last out with None => true | Some line => Str.is_empty (Str.trim line) end.
Definition out_lines (raw : string) (p : MergePlan) : list string :=
  let out := rewrite_line (pl_overrides p) <$> Str.lines raw in
  if bool_decide (pl_new_keys p = []) then out
  else out ++ (if ends_blank out then [] else [""]) ++ ((fun kv => entry_line kv.1 kv.2) <$> pl_new_keys p).
Definition unlines (l : list string) : string := foldr (fun line rest => line +:+ String "010" rest) "" l.

(** ** Effects *)

Record EnvFile := mkEnvFile { ef_path : string; ef_parent : string; ef_file_name : string }.

(** A directory entry: its name when it is UTF-8, its path, its modification time. *)
Definition DirItem : Type := result (option string * string * result Z EnvIoError) EnvIoError.
Inductive EnvE :=
| ParentExists
| CreateDirAll
| ReadTarget
| SnapshotMtime
| TargetExists
| NowMs
| NextCounter
| ProcessId
| CopyFile (src dest : string)
| SetPerms (path : string)
| NewTemp
| WriteTemp (text : string)
| SyncTemp
| Persist (text : string)
| SyncParent
| ListParent
| RemoveFile (path : string).
Definition env_resp (e : EnvE) : Type :=
  match e with
  | ParentExists | TargetExists => bool
  | ReadTarget => result string EnvIoError
  | SnapshotMtime => option Z
  | NowMs | NextCounter | ProcessId => Z
  | SyncParent => unit
  | ListParent => result (list DirItem) EnvIoError
  | _ => result unit EnvIoError
  end.
Notation envM := (prog env_resp).
Definition env_do (e : EnvE) : envM (env_resp e) := trigger e.

Definition write_failed {A} (path : string) (p : envM (result A EnvIoError)) : envM (result A MergeError) :=
  let! r := p in Ret (map_err (fun e => WriteFailed path (from_io e)) r).
Definition set_secure_perms (path : string) : envM (result unit MergeError) := write_failed path (env_do (SetPerms path)).

Definition create_env_backup (f : EnvFile) : envM (result string MergeError) :=
  let! ms := env_do NowMs in
  let! counter := env_do NextCounter in
  let! pid := env_do ProcessId in
  let backup := ef_path f +:+ ".bak." +:+ pretty ms +:+ "." +:+ pretty pid +:+ "." +:+ pretty counter in
  let!? _ := write_failed backup (env_do (CopyFile (ef_path f) backup)) in
  let!? _ := set_secure_perms backup in
  ret_ok backup.

Definition persist_error (f : EnvFile) (e : EnvIoError) : MergeError :=
  if bool_decide (io_raw_os_error e = Some 18%Z) then PersistCrossFs e else WriteFailed (ef_path f) (from_io e).
Fixpoint write_lines (f : EnvFile) (lines : list string) : envM (result unit MergeError) :=
  match lines with
  | [] => ret_ok ()
  | line :: rest =>
      let!? _ := write_failed (ef_path f) (env_do (WriteTemp (line +:+ String "010" ""))) in write_lines f rest
  end.
Definition write_atomically (f : EnvFile) (lines : list string) : envM (result unit MergeError) :=
  let!? _ := (let! r := env_do NewTemp in Ret (map_err (TempCreate (ef_parent f)) r)) in
  let!? _ := write_lines f lines in
  let!? _ := (let! r := env_do SyncTemp in Ret (map_err SyncFailed r)) in
  let!? _ := (let! r := env_do (Persist (unlines lines)) in Ret (map_err (persist_error f) r)) in
  let! _ := env_do SyncParent in
  set_secure_perms (ef_path f).

(** The backups of a listing; any error ends the pruning. *)
Fixpoint backups_in (prefix : string) (items : list DirItem) : result (list (string * Z)) EnvIoError :=
  match items with
  | [] => Ok []
  | Err e :: _ => Err e
  | Ok (name, path, mtime) :: rest =>
      match name with
      | Some name =>
          if Str.starts_with prefix name
          then let? t := mtime in let? l := backups_in prefix rest in Ok ((path, t) :: l)
          else backups_in prefix rest
      | None => backups_in prefix rest
      end
  end.
Fixpoint insert_oldest (x : string * Z) (l : list (string * Z)) : list (string * Z) :=
  match l with [] => [x] | y :: r => if bool_decide (x.2 <= y.2)%Z then x :: l else y :: insert_oldest x r end.
Definition oldest_first (l : list (string * Z)) : list (string * Z) := foldr insert_oldest [] l.
Fixpoint remove_backups (paths : list string) (removed : nat) : envM nat :=
  match paths with
  | [] => Ret removed
  | p :: rest => let! r := env_do (RemoveFile p) in remove_backups rest (if is_ok r then S removed else removed)
  end.
Definition prune_backups (f : EnvFile) : envM (result PruneStats EnvIoError) :=
  if Str.is_empty (ef_file_name f) then ret_ok (mkPruneStats 0 0)
  else
    let!? items := env_do ListParent in
    match backups_in (ef_file_name f +:+ ".bak.") items with
    | Err e => ret_err e
    | Ok backups =>
        if length backups <=? BACKUP_RETENTION then ret_ok (mkPruneStats (length backups) 0)
        else
          let! removed := remove_backups (take (length backups - BACKUP_RETENTION) (fst <$> oldest_first backups)) 0 in
          ret_ok (mkPruneStats BACKUP_RETENTION removed)
    end.

(** ** The merge *)

Definition mtime_skewed (req : MergeRequest) (current : option Z) : bool :=
  match mr_expected_mtime req, current with Some expected, Some current => negb (bool_decide (current = expected)) | _, _ => false end.
Definition merge (f : EnvFile) (req : MergeRequest) : envM (result MergeOutcome MergeError) :=
  let! parent_exists := env_do ParentExists in
  let!? _ := (if parent_exists then ret_ok () else write_failed (ef_parent f) (env_do CreateDirAll)) in
  let! read := env_do ReadTarget in
  match match read with
        | Ok s => Ok s
        | Err e => match io_kind e with NotFoundKind => Ok "" | _ => Err (WriteFailed (ef_path f) (from_io e)) end
        end with
  | Err e => ret_err e
  | Ok existing_raw =>
      let! current := (match mr_expected_mtime req with Some _ => env_do SnapshotMtime | None => Ret None end) in
      if mtime_skewed req current then ret_err (WriteConflict (ef_path f))
      else
        let p := merge_plan existing_raw req in
        if no_change p then ret_ok (mkMergeOutcome 0 (pl_skipped p) None (mkPruneStats 0 0))
        else
          let! target_exists := env_do TargetExists in
          let!? backup_path := (if target_exists then (let!? b := create_env_backup f in ret_ok (Some b)) else ret_ok None) in
          let!? _ := write_atomically f (out_lines existing_raw p) in
          let! pruned := prune_backups f in
          ret_ok (mkMergeOutcome (pl_written p) (pl_skipped p) backup_path
                    (match pruned with Ok s => s | Err _ => mkPruneStats 0 0 end))
  end.

Definition restore_backup (f : EnvFile) (backup : string) : envM (result unit MergeError) :=
  let!? _ := (let! r := env_do (CopyFile backup (ef_path f)) in Ret (map_err (CommitRollbackFailed backup) r)) in
  set_secure_perms (ef_path f).

(** ** Callers *)

(** [merge_entries] of [draft.rs]. *)
Definition merge_entries (f : EnvFile) (entries : list EnvEntry) (force : bool) : envM (result MergeOutcome MergeError) :=
  merge f (mkMergeRequest entries force None).

Record EnvCredential := mkEnvCredential {
  ec_service : string; ec_url : option string; ec_secret : option string; ec_env_field : string }.
(** [write_service_creds]; [to_uppercase] is a parameter. *)
Definition credential_entries (to_uppercase : string → string) (c : EnvCredential) : list EnvEntry :=
  match ec_url c with Some url => [mkEnvEntry (to_uppercase (ec_service c) +:+ "_URL") url] | None => [] end ++
  match ec_secret c with Some secret => [mkEnvEntry (ec_env_field c) secret] | None => [] end.
Definition write_service_creds (to_uppercase : string → string) (f : EnvFile) (creds : list EnvCredential) (force : bool) :
  envM (result MergeOutcome MergeError) :=
  merge f (mkMergeRequest (creds ≫= credential_entries to_uppercase) force None).

(** *** Raw pairs *)

Definition quote_env_value (value : string) : string :=
  if Str.all_bytes (fun a => negb (Ascii.eqb a " " || Ascii.eqb a "009" || is_special a)) value then value
  else String double_quote (escape_value value +:+ String double_quote "").
(** The values of [write_env_pairs] are compared as they are written. *)
Definition raw_map (raw : string) : gmap string string :=
  foldl (fun m kv => <[kv.1 := Str.trim kv.2]> m) ∅ (omap assignment (Str.lines raw)).
Record PairsPlan := mkPairsPlan { pp_conflicts : list string; pp_overrides : gmap string string; pp_additions : list (string * string) }.
Definition classify_pair (str_debug : string → string) (existing : gmap string string) (force : bool) (p : PairsPlan)
    (kv : string * string) : PairsPlan :=
  match existing !! kv.1 with
  | None => mkPairsPlan (pp_conflicts p) (pp_overrides p) (pp_additions p ++ [kv])
  | Some current =>
      if String.eqb current kv.2 then p
      else if force then mkPairsPlan (pp_conflicts p) (<[kv.1 := kv.2]> (pp_overrides p)) (pp_additions p)
      else mkPairsPlan (pp_conflicts p ++ ["CONFLICT: " +:+ kv.1 +:+ " already set to " +:+ str_debug current
                                           +:+ "; skipping (use --force to overwrite)"]) (pp_overrides p) (pp_additions p)
  end.
Definition pairs_plan (str_debug : string → string) (raw : string) (pairs : list (string * string)) (force : bool) : PairsPlan :=
  foldl (classify_pair str_debug (raw_map raw) force) (mkPairsPlan [] ∅ []) pairs.
Definition pair_line (kv : string * string) : string := kv.1 +:+ "=" +:+ quote_env_value kv.2.
Definition pairs_output (raw : string) (p : PairsPlan) : list string :=
  let out := (fun line =>
                match assignment line with
                | Some (key, _) => match pp_overrides p !! key with Some value => pair_line (key, value) | None => line end
                | None => line
                end) <$> Str.lines raw in
  if bool_decide (pp_additions p = []) then out
  else out ++ (if ends_blank out then [] else [""]) ++ (pair_line <$> pp_additions p).

Definition with_context {A} (context : string) (p : envM (result A EnvIoError)) : envM (result A string) :=
  let! r := p in Ret (map_err (fun _ => context) r).
Fixpoint write_pair_lines (context : string) (lines : list string) : envM (result unit string) :=
  match lines with
  | [] => ret_ok ()
  | line :: rest =>
      let!? _ := with_context context (env_do (WriteTemp (line +:+ String "010" ""))) in write_pair_lines context rest
  end.
(** The path has a parent directory. *)
Definition write_env_pairs (str_debug : string → string) (f : EnvFile) (pairs : list (string * string)) (force : bool) :
  envM (result (list string) string) :=
  let! target_exists := env_do TargetExists in
  let!? raw := (if target_exists then with_context ("read " +:+ ef_path f) (env_do ReadTarget) else ret_ok "") in
  let p := pairs_plan str_debug raw pairs force in
  let output := pairs_output raw p in
  let temporary := ef_path f +:+ ".tmp" in
  let!? _ := with_context ("create dir " +:+ ef_parent f) (env_do CreateDirAll) in
  let!? _ := with_context ("create " +:+ temporary) (env_do NewTemp) in
  let!? _ := write_pair_lines ("write " +:+ temporary) output in
  let!? _ := with_context ("sync " +:+ temporary) (env_do SyncTemp) in
  let!? _ := with_context ("rename " +:+ temporary +:+ " -> " +:+ ef_path f) (env_do (Persist (unlines output))) in
  let!? _ := with_context ("harden " +:+ ef_path f) (env_do (SetPerms (ef_path f))) in
  ret_ok (pp_conflicts p).
