(* ===== verification/EnvMergeProps.v ===== *)
(** * EnvMergeProps: a merge sets what it was asked to set, and nothing else

    Values survive quoting; a line that is written reads back; and the merge as a
    program over the file system. *)

From Stdlib Require Import Ascii.
From stdpp Require Import base list gmap strings.
From S2P Require Import Prelude RustStr Prog EnvMerge.

(** ** Quoting *)

Fixpoint half_escape (value : string) : string :=
  match value with
  | EmptyString => EmptyString
  | String a r => if Ascii.eqb a backslash then String backslash (String backslash (half_escape r)) else String a (half_escape r)
  end.
Lemma replace_other x y z a s : a ≠ x → replace_pair x y z (String a s) = String a (replace_pair x y z s).
Proof. intros Ha. destruct s; [done|]. cbn. by destruct (Ascii.eqb_spec a x). Qed.
Lemma escape_head v s : escape_value v ≠ String double_quote s.
Proof.
  destruct v as [|a v]; [done|]. cbn. destruct (Ascii.eqb_spec a double_quote); [done|]. destruct (Ascii.eqb_spec a backslash); [done|].
  by intros [= ->].
Qed.
Lemma replace_quotes v : replace_pair backslash double_quote double_quote (escape_value v) = half_escape v.
Proof.
  induction v as [|a v IH]; [done|]. cbn [escape_value half_escape]. destruct (Ascii.eqb_spec a double_quote) as [->|Hq].
  - cbn. by rewrite IH.
  - destruct (Ascii.eqb_spec a backslash) as [->|Hb]; [|by rewrite replace_other, IH].
    transitivity (String backslash (replace_pair backslash double_quote double_quote (String backslash (escape_value v)))); [done|].
    f_equal. rewrite <- IH. pose proof (escape_head v) as Hh. destruct (escape_value v) as [|b r]; [done|].
    destruct (Ascii.eqb_spec b double_quote) as [->|Hb]; [by destruct (Hh r)|].
    cbn. by destruct (Ascii.eqb_spec b double_quote).
Qed.
Lemma replace_backslashes v : replace_pair backslash backslash backslash (half_escape v) = v.
Proof.
  induction v as [|a v IH]; [done|]. cbn [half_escape]. destruct (Ascii.eqb_spec a backslash) as [->|Hb].
  - cbn. by rewrite IH.
  - by rewrite replace_other, IH.
Qed.
Lemma needs_quote_false v :
  needs_quote v = false → v ≠ "" ∧ Str.no_ws v = true ∧ Str.all_bytes (fun a => negb (is_special a)) v = true.
Proof.
  unfold needs_quote. intros [[He Hw]%orb_false_iff Hs]%orb_false_iff. apply negb_false_iff in Hw, Hs.
  split; [by intros ->|done].
Qed.
(** What is written reads back, for every value. *)
Lemma strip_quote_value v : strip_quotes (quote_value v) = v.
Proof.
  unfold quote_value. destruct (needs_quote v) eqn:Hn.
  - unfold strip_quotes. set (w := escape_value v).
    assert (Hlen : String.length (String double_quote (w +:+ String double_quote "")) = S (String.length w + 1))
      by (cbn; by rewrite Str.length_app).
    rewrite Hlen. assert (He : Str.ends_with (String double_quote "") (String double_quote (w +:+ String double_quote "")) = true).
    { apply Str.ends_with_spec. by exists (String double_quote w). }
    rewrite He. replace (2 <=? S (String.length w + 1)) with true by (symmetry; apply Nat.leb_le; lia).
    cbn [Str.starts_with Ascii.eqb double_quote Bool.eqb andb].
    replace (S (String.length w + 1) - 2) with (String.length w) by lia. cbn [Str.drop]. rewrite Str.take_app.
    subst w. by rewrite replace_quotes, replace_backslashes.
  - apply needs_quote_false in Hn as (Hne & _ & Hs). unfold strip_quotes. destruct v as [|a v]; [done|].
    cbn [Str.all_bytes] in Hs. apply andb_prop in Hs as [Ha _].
    assert (Hd : Ascii.eqb double_quote a = false).
    { destruct (Ascii.eqb_spec double_quote a) as [<-|]; [done|done]. }
    cbn [Str.starts_with]. rewrite Hd. by rewrite andb_false_r.
Qed.

(** ** White space at the ends *)

Definition plain_char (a : ascii) : bool := (33 <=? Str.byte a) && (Str.byte a <=? 126).
Lemma plain_ws1 a : plain_char a = true → Str.ws1 a = false.
Proof. unfold plain_char, Str.ws1. intros [H1%Nat.leb_le H2%Nat.leb_le]%andb_prop. destruct (Nat.leb_spec 9 (Str.byte a)), (Nat.leb_spec (Str.byte a) 13), (Nat.eqb_spec (Str.byte a) 32); cbn; lia || done. Qed.
Lemma plain_ws_at a s : plain_char a = true → Str.ws_at (String a s) = 0.
Proof.
  intros Hp. pose proof (plain_ws1 a Hp) as H1. unfold plain_char in Hp. apply andb_prop in Hp as [_ Hp%Nat.leb_le].
  cbn. rewrite H1. destruct s as [|b s]; [done|]. unfold Str.ws2. destruct (Nat.eqb_spec (Str.byte a) 194); [lia|]. cbn.
  destruct s as [|c s]; [done|]. unfold Str.ws3.
  destruct (Nat.eqb_spec (Str.byte a) 225), (Nat.eqb_spec (Str.byte a) 226), (Nat.eqb_spec (Str.byte a) 227); cbn; lia || done.
Qed.
Lemma plain_ws_at_rev a s : plain_char a = true → Str.ws_at_rev (String a s) = 0.
Proof.
  intros Hp. pose proof (plain_ws1 a Hp) as H1. unfold plain_char in Hp. apply andb_prop in Hp as [_ Hp%Nat.leb_le].
  cbn. rewrite H1. destruct s as [|b s]; [done|]. unfold Str.ws2.
  destruct (Nat.eqb_spec (Str.byte a) 133), (Nat.eqb_spec (Str.byte a) 160); try lia. cbn. rewrite andb_false_r.
  destruct s as [|c s]; [done|]. unfold Str.ws3.
  repeat match goal with |- context [Str.byte a =? ?n] => destruct (Nat.eqb_spec (Str.byte a) n); [lia|] end.
  destruct (Nat.leb_spec 128 (Str.byte a)); [lia|]. cbn. by rewrite !andb_false_r.
Qed.

Lemma trim_fix s : Str.ws_at s = 0 → Str.ws_at_rev (String.rev s) = 0 → Str.trim s = s.
Proof. intros H1 H2. unfold Str.trim. rewrite Str.trim_start_fix by done. unfold Str.trim_end. rewrite Str.trim_rev_fix by done. apply Str.rev_involutive. Qed.
Lemma no_ws_app s t : Str.no_ws (s +:+ t) = true → Str.no_ws t = true.
Proof. induction s as [|a s IH]; [done|]. rewrite Str.app_cons. cbn [Str.no_ws]. intros [_ Hr]%andb_prop. auto. Qed.
Lemma no_ws_at s : Str.no_ws s = true → Str.ws_at s = 0.
Proof. destruct s; [done|]. cbn [Str.no_ws]. by intros [?%Nat.eqb_eq _]%andb_prop. Qed.
Lemma no_ws_rev u : Str.no_ws (String.rev u) = true → Str.ws_at_rev u = 0.
Proof.
  intros Hn. destruct u as [|a u]; [done|]. rewrite Str.rev_cons in Hn.
  pose proof (no_ws_at _ (no_ws_app _ _ Hn)) as Ha. cbn in Ha |- *. destruct (Str.ws1 a); [done|].
  destruct u as [|b u]; [done|]. rewrite Str.rev_cons, Str.app_assoc, Str.app_cons, Str.app_nil_l in Hn.
  pose proof (no_ws_at _ (no_ws_app _ _ Hn)) as Hb. cbn in Hb. destruct (Str.ws1 b); [done|]. destruct (Str.ws2 b a); [done|].
  destruct u as [|c u]; [done|]. rewrite Str.rev_cons, Str.app_assoc, Str.app_cons, Str.app_nil_l in Hn.
  pose proof (no_ws_at _ (no_ws_app _ _ Hn)) as Hc. cbn in Hc. destruct (Str.ws1 c); [done|]. destruct (Str.ws2 c b); [done|].
  by destruct (Str.ws3 c b a).
Qed.
(** A plain character before a text without white space does not make any. *)
Lemma ws_at_rev_after u a r : plain_char a = true → u ≠ "" → Str.ws_at_rev u = 0 → Str.ws_at_rev (u +:+ String a r) = 0.
Proof.
  intros Hp Hu Hw. assert (Hlow : Str.byte a <= 126) by (unfold plain_char in Hp; apply andb_prop in Hp as [_ Hp%Nat.leb_le]; done).
  destruct u as [|x [|y [|z u]]]; [done|..]; rewrite ?Str.app_cons, ?Str.app_nil_l; cbn in Hw |- *; destruct (Str.ws1 x); try done.
  - unfold Str.ws2. destruct (Nat.eqb_spec (Str.byte a) 194); [lia|]. cbn. destruct r as [|b r]; [done|]. unfold Str.ws3.
    repeat match goal with |- context [Str.byte a =? ?n] => destruct (Nat.eqb_spec (Str.byte a) n); [lia|] end. cbn.
    by rewrite !andb_false_r.
  - destruct (Str.ws2 y x); [done|]. unfold Str.ws3.
    repeat match goal with |- context [Str.byte a =? ?n] => destruct (Nat.eqb_spec (Str.byte a) n); [lia|] end. done.
Qed.

(** ** Lines that are written *)

Definition is_key_char (a : ascii) : bool := plain_char a && negb (Ascii.eqb a "=") && negb (Ascii.eqb a "#").
Definition key_ok (k : string) : bool := Str.all_bytes is_key_char k.
Fixpoint lacks_char (c : ascii) (s : string) : bool :=
  match s with EmptyString => true | String a r => negb (Ascii.eqb a c) && lacks_char c r end.
Lemma lacks_char_app c s t : lacks_char c (s +:+ t) = lacks_char c s && lacks_char c t.
Proof. induction s as [|a s IH]; [done|]. rewrite Str.app_cons. cbn. rewrite IH. apply andb_assoc. Qed.

Lemma quote_ends v :
  Str.ws_at (quote_value v) = 0 ∧ Str.ws_at_rev (String.rev (quote_value v)) = 0 ∧ quote_value v ≠ "".
Proof.
  unfold quote_value. destruct (needs_quote v) eqn:Hn.
  - split_and!; [by apply plain_ws_at| |done]. rewrite Str.rev_cons, Str.rev_app. cbn [String.rev String.rev_app].
    rewrite Str.app_cons. by apply plain_ws_at_rev.
  - apply needs_quote_false in Hn as (Hne & Hw & _). split_and!; [by apply no_ws_at| |done]. apply no_ws_rev. by rewrite Str.rev_involutive.
Qed.
Lemma trim_quote v : Str.trim (quote_value v) = quote_value v.
Proof. destruct (quote_ends v) as (H1 & H2 & _). by apply trim_fix. Qed.
Lemma rev_nonempty s : s ≠ "" → String.rev s ≠ "".
Proof. intros Hs Hr. apply Hs. rewrite <- (Str.rev_involutive s), Hr. done. Qed.
Lemma key_head k s : key_ok k = true → Str.ws_at (k +:+ "=" +:+ s) = 0.
Proof.
  destruct k as [|a k]; [intros _; by apply plain_ws_at|]. cbn. intros [[[Hp _]%andb_prop _]%andb_prop _]%andb_prop.
  rewrite Str.app_cons. by apply plain_ws_at.
Qed.
Lemma trim_entry k v : key_ok k = true → Str.trim (entry_line k v) = entry_line k v.
Proof.
  intros Hk. apply trim_fix; [by apply key_head|]. unfold entry_line. rewrite !Str.rev_app. cbn [String.rev String.rev_app].
  rewrite Str.app_assoc. destruct (quote_ends v) as (_ & Hr & Hne). rewrite Str.app_cons, Str.app_nil_l.
  apply ws_at_rev_after; [done|by apply rev_nonempty|done].
Qed.
Lemma key_trim k : key_ok k = true → Str.trim k = k.
Proof.
  intros Hk. assert (Hall : ∀ s, Str.all_bytes is_key_char s = true → Str.ws_at s = 0 ∧ Str.ws_at_rev s = 0).
  { intros [|a s]; [done|]. cbn [Str.all_bytes]. intros [[[Hp _]%andb_prop _]%andb_prop _]%andb_prop.
    split; [by apply plain_ws_at|by apply plain_ws_at_rev]. }
  apply trim_fix; [by apply Hall|]. apply Hall. clear Hall. unfold key_ok in Hk. revert Hk.
  assert (Happ : ∀ s t, Str.all_bytes is_key_char (s +:+ t) = Str.all_bytes is_key_char s && Str.all_bytes is_key_char t).
  { intros s t. induction s as [|a s IH]; [done|]. rewrite Str.app_cons. cbn. rewrite IH. apply andb_assoc. }
  induction k as [|a k IH]; [done|]. cbn [Str.all_bytes]. intros [Ha Hk]%andb_prop. rewrite Str.rev_cons, Happ. cbn. by rewrite IH, Ha.
Qed.
Lemma split_once_key k s : key_ok k = true → Str.split_once "=" (k +:+ "=" +:+ s) = Some (k, s).
Proof.
  induction k as [|a k IH]; [done|]. cbn. intros [[[_ He]%andb_prop _]%andb_prop Hk]%andb_prop. rewrite Str.app_cons. cbn.
  destruct (Ascii.eqb a "="); [done|]. by rewrite IH.
Qed.
Lemma entry_start k v : key_ok k = true → Str.is_empty (entry_line k v) || Str.starts_with "#" (entry_line k v) = false.
Proof.
  unfold entry_line, key_ok. destruct k as [|a k]; [done|]. cbn [Str.all_bytes]. intros [[_ Hh]%andb_prop _]%andb_prop. rewrite Str.app_cons. cbn [Str.is_empty Str.starts_with orb].
  destruct (Ascii.eqb_spec "#" a) as [<-|]; done.
Qed.
Lemma assignment_entry k v : key_ok k = true → assignment (entry_line k v) = Some (k, quote_value v).
Proof.
  intros Hk. unfold assignment. rewrite trim_entry by done. rewrite entry_start by done. unfold entry_line.
  rewrite split_once_key by done. change (Some (Str.trim k, quote_value v) = Some (k, quote_value v)). by rewrite key_trim.
Qed.

Definition read_line (line : string) : option (string * string) :=
  (fun kv => (kv.1, strip_quotes (Str.trim kv.2))) <$> assignment line.
Lemma read_entry k v : key_ok k = true → read_line (entry_line k v) = Some (k, v).
Proof.
  intros Hk. unfold read_line. rewrite assignment_entry by done.
  change (Some (k, strip_quotes (Str.trim (quote_value v))) = Some (k, v)). by rewrite trim_quote, strip_quote_value.
Qed.
Lemma read_blank : read_line "" = None.
Proof. done. Qed.

(** ** Lines and the text *)

Definition line_ok (l : string) : Prop := lacks_char "010" l = true ∧ Str.strip_suffix "013" l = None.
Lemma split_line l rest : lacks_char "010" l = true → Str.split "010" (l +:+ String "010" rest) = l :: Str.split "010" rest.
Proof.
  induction l as [|a l IH]; [done|]. cbn [lacks_char]. intros [Ha Hl]%andb_prop. rewrite Str.app_cons. cbn [Str.split].
  destruct (Ascii.eqb a "010"); [done|]. by rewrite IH.
Qed.
Lemma lines_unlines out : Forall line_ok out → Str.lines (unlines out) = out.
Proof.
  unfold Str.lines. induction 1 as [|l out [Hl Hc] _ IH]; [done|]. cbn [unlines foldr]. rewrite split_line by done.
  fold (unlines out). pose proof (Str.split_nonempty "010" (unlines out)) as Hne. destruct (Str.split "010" (unlines out)) as [|x r]; [done|].
  change (Str.strip_cr l :: Str.line_pieces (x :: r) = l :: out). rewrite IH. f_equal. unfold Str.strip_cr. by rewrite Hc.
Qed.
Lemma split_lacks_pieces c s : Forall (fun p => lacks_char c p = true) (Str.split c s).
Proof.
  induction s as [|a s IH]; cbn; [by repeat constructor|]. destruct (Ascii.eqb a c) eqn:E; [by constructor|].
  destruct IH as [|p l Hp Hl]; cbn; constructor; [cbn; by rewrite E|constructor|cbn; by rewrite E, Hp|done].
Qed.
Lemma strip_cr_lacks c s : lacks_char c s = true → lacks_char c (Str.strip_cr s) = true.
Proof.
  unfold Str.strip_cr. destruct (Str.strip_suffix "013" s) as [t|] eqn:E; [|done]. cbn. revert t E.
  induction s as [|a s IH]; [done|]. cbn [lacks_char]. intros t E [Ha Hs]%andb_prop. destruct s as [|b s].
  - cbn in E. destruct (Ascii.eqb a "013"); [by injection E as <-|done].
  - change (String a <$> Str.strip_suffix "013" (String b s) = Some t) in E. apply fmap_Some in E as (u & Hu & ->).
    cbn. by rewrite Ha, (IH u).
Qed.
Lemma lines_lack raw : Forall (fun l => lacks_char "010" l = true) (Str.lines raw).
Proof.
  unfold Str.lines. pose proof (split_lacks_pieces "010" raw) as H. induction H as [|x [|y r] Hx Hr IH]; [constructor|..].
  - cbn. destruct (Str.is_empty x); by repeat constructor.
  - change (Str.line_pieces (x :: y :: r)) with (Str.strip_cr x :: Str.line_pieces (y :: r)). constructor; [by apply strip_cr_lacks|done].
Qed.

Definition no_newline (v : string) : bool := lacks_char "010" v.
Lemma escape_lacks v : no_newline v = true → no_newline (escape_value v) = true.
Proof.
  unfold no_newline. induction v as [|a v IH]; [done|]. cbn [lacks_char escape_value]. intros [Ha Hv]%andb_prop.
  destruct (Ascii.eqb_spec a double_quote) as [->|]; [cbn; auto|]. destruct (Ascii.eqb_spec a backslash) as [->|]; [cbn; auto|].
  cbn [lacks_char]. by rewrite Ha, IH.
Qed.
Lemma key_lacks k : key_ok k = true → lacks_char "010" k = true.
Proof.
  induction k as [|a k IH]; [done|]. unfold key_ok. cbn [Str.all_bytes lacks_char]. intros [[[Hp _]%andb_prop _]%andb_prop Hk]%andb_prop.
  rewrite IH by done. destruct (Ascii.eqb_spec a "010") as [->|]; done.
Qed.
Lemma strip_suffix_app c s t : t ≠ "" → Str.strip_suffix c (s +:+ t) = (fun u => s +:+ u) <$> Str.strip_suffix c t.
Proof.
  intros Ht. induction s as [|a s IH]; [rewrite Str.app_nil_l; destruct (Str.strip_suffix c t); cbn; by rewrite ?Str.app_nil_l|]. rewrite Str.app_cons.
  destruct (s +:+ t) as [|b r] eqn:E; [destruct s; [by destruct t|done]|].
  change (String a <$> Str.strip_suffix c (String b r) = (fun u => String a s +:+ u) <$> Str.strip_suffix c t). rewrite IH.
  by destruct (Str.strip_suffix c t).
Qed.
Lemma strip_suffix_Some c s t : Str.strip_suffix c s = Some t → s = t +:+ String c "".
Proof.
  revert t. induction s as [|a s IH]; intros t; [done|]. destruct s as [|b s].
  - cbn. destruct (Ascii.eqb_spec a c) as [->|]; [|done]. by intros [= <-].
  - change (String a <$> Str.strip_suffix c (String b s) = Some t → String a (String b s) = t +:+ String c "").
    intros (u & Hu & ->)%fmap_Some. rewrite (IH u) by done. done.
Qed.
Lemma quote_no_cr v : Str.strip_suffix "013" (quote_value v) = None.
Proof.
  destruct (quote_ends v) as (_ & Hr & _). destruct (Str.strip_suffix "013" (quote_value v)) as [t|] eqn:E; [|done].
  apply strip_suffix_Some in E. rewrite E, Str.rev_app in Hr. done.
Qed.
Lemma entry_line_ok k v : key_ok k = true → no_newline v = true → line_ok (entry_line k v).
Proof.
  intros Hk Hv. destruct (quote_ends v) as (_ & _ & Hne). unfold entry_line. split.
  - rewrite !lacks_char_app, key_lacks by done. cbn. unfold quote_value. destruct (needs_quote v); [|done].
    cbn. rewrite lacks_char_app. fold (no_newline (escape_value v)). by rewrite escape_lacks.
  - rewrite strip_suffix_app by done. rewrite strip_suffix_app by done. by rewrite quote_no_cr.
Qed.

(** ** What the file says *)

Definition map_of (l : list (string * string)) : gmap string string := foldl (fun m kv => <[kv.1 := kv.2]> m) ∅ l.
Lemma foldl_put l (m : gmap string string) k : foldl (fun m kv => <[kv.1 := kv.2]> m) m l !! k = match map_of l !! k with Some v => Some v | None => m !! k end.
Proof.
  unfold map_of. revert m. induction l as [|[x v] l IH]; intros m; cbn [foldl fst snd]; [by rewrite lookup_empty|].
  rewrite IH, (IH (<[x := v]> ∅)). destruct (foldl _ ∅ l !! k); [done|]. destruct (decide (x = k)) as [->|Hne].
  - by rewrite !lookup_insert_eq.
  - by rewrite !lookup_insert_ne, lookup_empty by done.
Qed.
Lemma map_of_app l l' k : map_of (l ++ l') !! k = match map_of l' !! k with Some v => Some v | None => map_of l !! k end.
Proof. unfold map_of at 1. rewrite foldl_app. apply foldl_put. Qed.
Lemma map_of_cons x v l k : map_of ((x, v) :: l) !! k = match map_of l !! k with Some v' => Some v' | None => if decide (x = k) then Some v else None end.
Proof.
  change ((x, v) :: l) with ([(x, v)] ++ l). rewrite map_of_app. destruct (map_of l !! k); [done|]. unfold map_of. cbn.
  destruct (decide (x = k)) as [->|]; [by rewrite lookup_insert_eq|by rewrite lookup_insert_ne, lookup_empty].
Qed.
Lemma map_of_Some l k v : NoDup l.*1 → map_of l !! k = Some v ↔ (k, v) ∈ l.
Proof.
  revert v. induction l as [|[x w] l IH]; intros v Hn; [unfold map_of; cbn; rewrite lookup_empty; set_solver|].
  apply NoDup_cons in Hn as [Hx Hn]. rewrite map_of_cons, elem_of_cons. destruct (map_of l !! k) as [u|] eqn:E.
  - assert (Hu : (k, u) ∈ l) by (by apply IH). rewrite (IH v) by done. split; [by right|]. intros [[= -> ->]|Hin]; [|done].
    destruct Hx. apply list_elem_of_fmap. by exists (x, u).
  - assert (Hnone : (k, v) ∉ l) by (rewrite <- IH by done; done). destruct (decide (x = k)) as [->|Hne]; naive_solver.
Qed.

Definition read_lines (ls : list string) : list (string * string) := omap read_line ls.
Lemma existing_lines raw : existing_map raw = map_of (read_lines (Str.lines raw)).
Proof. done. Qed.
Lemma read_lines_app l l' : read_lines (l ++ l') = read_lines l ++ read_lines l'.
Proof. apply omap_app. Qed.
Lemma read_entry_lines l :
  Forall (fun kv => key_ok kv.1 = true) l → read_lines ((fun kv => entry_line kv.1 kv.2) <$> l) = l.
Proof. unfold read_lines. induction 1 as [|[k v] l Hk _ IH]; [done|]. cbn [fmap list_fmap omap list_omap fst snd]. rewrite read_entry by done. by rewrite IH. Qed.

(** A line that is rewritten says the new value, another what it said. *)
Lemma read_rewrite (ov : gmap string string) line :
  (∀ k, is_Some (ov !! k) → key_ok k = true) →
  read_line (rewrite_line ov line) = (fun kv => (kv.1, default kv.2 (ov !! kv.1))) <$> read_line line.
Proof.
  intros Hov. unfold rewrite_line, read_line at 2. destruct (assignment line) as [[k w]|] eqn:E; cbn [fmap option_fmap option_map fst snd].
  - destruct (ov !! k) as [v|] eqn:Ek; cbn [default from_option].
    + apply read_entry. apply Hov. by rewrite Ek.
    + unfold read_line. by rewrite E.
  - unfold read_line. by rewrite E.
Qed.
Lemma map_rewrite (ov : gmap string string) ls k :
  (∀ k, is_Some (ov !! k) → key_ok k = true) →
  map_of (read_lines (rewrite_line ov <$> ls)) !! k = (fun old => default old (ov !! k)) <$> map_of (read_lines ls) !! k.
Proof.
  intros Hov. induction ls as [|l ls IH]; [unfold map_of; cbn; by rewrite lookup_empty|].
  unfold read_lines in *. cbn [fmap list_fmap omap list_omap]. rewrite read_rewrite by done.
  destruct (read_line l) as [[x v]|]; cbn [fmap option_fmap option_map fst snd]; [|done].
  rewrite !map_of_cons, IH. destruct (map_of (omap read_line ls) !! k); [done|]. cbn.
  by destruct (decide (x = k)) as [->|].
Qed.

(** ** What is asked *)

(** The last value that the request gives a key. *)
Definition wanted (req : MergeRequest) : gmap string string := map_of ((fun e => (ee_key e, ee_value e)) <$> mr_entries req).

Lemma put_entry_keys e l : ∃ l', ee_key <$> put_entry e l = (ee_key <$> l) ++ l' ∧ (l' = [] ∧ ee_key e ∈ ee_key <$> l ∨ l' = [ee_key e] ∧ ee_key e ∉ ee_key <$> l).
Proof.
  induction l as [|x l (l' & Hl & Hc)]; [exists [ee_key e]; split; [done|right; split; [done|set_solver]]|]. cbn [put_entry].
  destruct (String.eqb_spec (ee_key x) (ee_key e)) as [Hx|Hx].
  - exists []. split; [by rewrite app_nil_r|]. left. split; [done|]. rewrite <- Hx. set_solver.
  - exists l'. cbn. rewrite Hl. split; [done|]. set_solver.
Qed.
Lemma put_entry_NoDup e l : NoDup (ee_key <$> l) → NoDup (ee_key <$> put_entry e l).
Proof.
  intros Hn. destruct (put_entry_keys e l) as (l' & -> & [[-> _]|[-> Hni]]); [by rewrite app_nil_r|].
  apply list.NoDup_app. split_and!; [done|set_solver|apply NoDup_singleton].
Qed.
Definition pairs (l : list EnvEntry) : list (string * string) := (fun e => (ee_key e, ee_value e)) <$> l.
Lemma pairs_keys l : (pairs l).*1 = ee_key <$> l.
Proof. unfold pairs. by rewrite <- list_fmap_compose. Qed.
Lemma put_entry_map e l k :
  NoDup (ee_key <$> l) → map_of (pairs (put_entry e l)) !! k = if decide (k = ee_key e) then Some (ee_value e) else map_of (pairs l) !! k.
Proof.
  induction l as [|x l IH]; intros Hn; cbn [put_entry pairs fmap list_fmap].
  - rewrite map_of_cons. unfold map_of. cbn. rewrite lookup_empty. by repeat case_decide.
  - apply NoDup_cons in Hn as [Hx Hn]. destruct (String.eqb_spec (ee_key x) (ee_key e)) as [He|He]; cbn [pairs fmap list_fmap ee_key ee_value].
    + rewrite !map_of_cons. fold (pairs l). destruct (map_of (pairs l) !! k) as [v|] eqn:E.
      * assert (Hin : (k, v) ∈ pairs l) by (apply map_of_Some; [by rewrite pairs_keys|done]).
        destruct (decide (k = ee_key e)) as [->|]; [|done]. destruct Hx. rewrite <- pairs_keys, He. apply list_elem_of_fmap. by exists (ee_key e, v).
      * rewrite He. by repeat case_decide.
    + rewrite !map_of_cons. fold (pairs (put_entry e l)) (pairs l). rewrite IH by done.
      destruct (decide (k = ee_key e)) as [->|]; [done|]. done.
Qed.
Lemma collapse_spec es : NoDup (ee_key <$> collapse es) ∧ ∀ k, map_of (pairs (collapse es)) !! k = map_of (pairs es) !! k.
Proof.
  unfold collapse. induction es as [|e es [Hn Hm]] using rev_ind; [split; [constructor|done]|]. rewrite foldl_app. cbn [foldl].
  split; [by apply put_entry_NoDup|]. intros k. rewrite put_entry_map by done. unfold pairs at 2. rewrite fmap_app, map_of_app.
  cbn [fmap list_fmap]. rewrite map_of_cons. unfold map_of at 2. cbn [foldl]. rewrite lookup_empty. rewrite Hm.
  repeat case_decide; congruence || done.
Qed.
Lemma collapse_wanted req k v : (k, v) ∈ pairs (collapse (mr_entries req)) ↔ wanted req !! k = Some v.
Proof.
  destruct (collapse_spec (mr_entries req)) as [Hn Hm]. rewrite <- map_of_Some by (by rewrite pairs_keys). by rewrite Hm.
Qed.

(** ** The plan *)

Section Plan.
Context (existing : gmap string string) (force : bool).

Definition is_new (e : EnvEntry) : bool := bool_decide (existing !! ee_key e = None).
Definition is_changed (e : EnvEntry) : bool :=
  match existing !! ee_key e with Some old => negb (String.eqb old (ee_value e)) && force | None => false end.
Lemma classify_step p e :
  pl_new_keys (classify existing force p e) = pl_new_keys p ++ (if is_new e then [(ee_key e, ee_value e)] else []) ∧
  pl_written (classify existing force p e) = pl_written p + (if is_new e then 1 else 0) + (if is_changed e then 1 else 0) ∧
  pl_overrides (classify existing force p e) = (if is_changed e then <[ee_key e := ee_value e]> (pl_overrides p) else pl_overrides p).
Proof.
  unfold classify, is_new, is_changed. destruct (existing !! ee_key e) as [old|].
  - rewrite bool_decide_eq_false_2 by done. destruct (String.eqb old (ee_value e)), force; cbn; rewrite app_nil_r; split_and!; done || lia.
  - rewrite bool_decide_eq_true_2 by done. cbn. split_and!; done || lia.
Qed.
Lemma classify_fold es p :
  pl_new_keys (foldl (classify existing force) p es) = pl_new_keys p ++ pairs (List.filter is_new es) ∧
  pl_written (foldl (classify existing force) p es) = pl_written p + length (List.filter is_new es) + length (List.filter is_changed es) ∧
  ∀ k, pl_overrides (foldl (classify existing force) p es) !! k =
       match map_of (pairs (List.filter is_changed es)) !! k with Some v => Some v | None => pl_overrides p !! k end.
Proof.
  revert p. induction es as [|e es IH]; intros p; cbn [foldl List.filter].
  - cbn. rewrite app_nil_r. split_and!; [done|lia|]. intros k. unfold map_of. cbn. by rewrite lookup_empty.
  - destruct (IH (classify existing force p e)) as (Hn & Hw & Ho). destruct (classify_step p e) as (Sn & Sw & So).
    split_and!.
    + rewrite Hn, Sn, <- app_assoc. by destruct (is_new e).
    + rewrite Hw, Sw. destruct (is_new e), (is_changed e); cbn; lia.
    + intros k. rewrite Ho, So. destruct (is_changed e); [|done].
      change (pairs (e :: List.filter is_changed es)) with ((ee_key e, ee_value e) :: pairs (List.filter is_changed es)).
      rewrite map_of_cons. destruct (map_of _ !! k); [done|]. destruct (decide (ee_key e = k)) as [->|].
      * by rewrite lookup_insert_eq.
      * by rewrite lookup_insert_ne.
Qed.
Lemma pairs_filter (f : EnvEntry → bool) es : NoDup (ee_key <$> es) → NoDup (pairs (List.filter f es)).*1.
Proof.
  rewrite pairs_keys. induction es as [|e es IH]; [done|]. cbn. intros [He Hn]%NoDup_cons. destruct (f e); [|auto]. cbn. constructor; [|auto].
  intros Hin. apply He. apply list_elem_of_fmap in Hin as (x & -> & Hx). apply list_elem_of_fmap. exists x. split; [done|].
  apply list_elem_of_In, filter_In in Hx as [Hx _]. by apply list_elem_of_In.
Qed.
Lemma elem_pairs_filter (f : EnvEntry → bool) es k v :
  (k, v) ∈ pairs (List.filter f es) ↔ (k, v) ∈ pairs es ∧ f (mkEnvEntry k v) = true.
Proof.
  unfold pairs. rewrite !list_elem_of_fmap. split.
  - intros ([x w] & [= -> ->] & [Hx Hf]%list_elem_of_In%filter_In). split; [|done]. exists (mkEnvEntry x w). split; [done|by apply list_elem_of_In].
  - intros [([x w] & [= -> ->] & Hx) Hf]. exists (mkEnvEntry x w). split; [done|]. by apply list_elem_of_In, filter_In; split; [apply list_elem_of_In|].
Qed.
End Plan.

Lemma plan_facts raw req :
  (∀ k v, (k, v) ∈ pl_new_keys (merge_plan raw req) ↔ wanted req !! k = Some v ∧ existing_map raw !! k = None) ∧
  NoDup (pl_new_keys (merge_plan raw req)).*1 ∧
  (∀ k v, pl_overrides (merge_plan raw req) !! k = Some v ↔
     wanted req !! k = Some v ∧ mr_force req = true ∧ ∃ old, existing_map raw !! k = Some old ∧ old ≠ v) ∧
  (pl_written (merge_plan raw req) = 0 ↔ no_change (merge_plan raw req) = true).
Proof.
  unfold merge_plan. set (es := collapse (mr_entries req)). destruct (collapse_spec (mr_entries req)) as [Hn _]. fold es in Hn.
  destruct (classify_fold (existing_map raw) (mr_force req) es (mkPlan [] ∅ [] 0)) as (Fn & Fw & Fo). cbn in Fn, Fw, Fo.
  assert (Hnew : ∀ k v, (k, v) ∈ pairs (List.filter (is_new (existing_map raw)) es) ↔ wanted req !! k = Some v ∧ existing_map raw !! k = None).
  { intros k v. rewrite elem_pairs_filter. unfold es. rewrite collapse_wanted. unfold is_new. cbn. by rewrite bool_decide_eq_true. }
  assert (Hch : ∀ k v, (k, v) ∈ pairs (List.filter (is_changed (existing_map raw) (mr_force req)) es) ↔
     wanted req !! k = Some v ∧ mr_force req = true ∧ ∃ old, existing_map raw !! k = Some old ∧ old ≠ v).
  { intros k v. rewrite elem_pairs_filter. unfold es. rewrite collapse_wanted. unfold is_changed. cbn.
    destruct (existing_map raw !! k) as [old|]; [|naive_solver]. destruct (String.eqb_spec old v), (mr_force req); naive_solver. }
  assert (Hov : ∀ k v, pl_overrides (foldl (classify (existing_map raw) (mr_force req)) (mkPlan [] ∅ [] 0) es) !! k = Some v ↔
     wanted req !! k = Some v ∧ mr_force req = true ∧ ∃ old, existing_map raw !! k = Some old ∧ old ≠ v).
  { intros k v. rewrite Fo, lookup_empty, <- Hch, <- map_of_Some by (by apply pairs_filter). by destruct (map_of _ !! k). }
  split_and!.
  - intros k v. by rewrite Fn, Hnew.
  - rewrite Fn. by apply pairs_filter.
  - done.
  - rewrite Fw. unfold no_change. rewrite Fn. split.
    + intros Hz. apply Nat.eq_add_0 in Hz as [Hz1 Hz2]. apply nil_length_inv in Hz1, Hz2. rewrite Hz1. rewrite !bool_decide_eq_true_2; [done..|].
      apply map_eq. intros k. rewrite Fo, Hz2. unfold map_of. cbn. by rewrite !lookup_empty.
    + intros [Ho%bool_decide_eq_true Hnil%bool_decide_eq_true]%andb_prop. unfold pairs in Hnil. apply fmap_nil_inv in Hnil. rewrite Hnil.
      destruct (List.filter (is_changed (existing_map raw) (mr_force req)) es) as [|e l] eqn:E; [done|]. exfalso.
      assert (Hin : (ee_key e, ee_value e) ∈ pairs (e :: l)) by (apply elem_of_cons; by left).
      apply Hch, Hov in Hin. rewrite Ho in Hin. by rewrite lookup_empty in Hin.
Qed.

(** ** The new text *)

Definition request_ok (req : MergeRequest) : Prop :=
  Forall (fun e => key_ok (ee_key e) = true ∧ no_newline (ee_value e) = true) (mr_entries req).
(** Line feeds, with or without a carriage return before them. *)
Definition plain_endings (raw : string) : Prop := Forall (fun l => Str.strip_suffix "013" l = None) (Str.lines raw).
(** What a key says after the merge. *)
Definition expected (req : MergeRequest) (m : gmap string string) (k : string) : option string :=
  match wanted req !! k, m !! k with
  | Some v, None => Some v
  | Some v, Some old => Some (if mr_force req then v else old)
  | None, o => o
  end.

Lemma map_of_elem l k v : map_of l !! k = Some v → (k, v) ∈ l.
Proof.
  induction l as [|[x w] l IH]; [done|]. rewrite map_of_cons, elem_of_cons. destruct (map_of l !! k) as [u|]; [auto|].
  destruct (decide (x = k)) as [->|]; [|done]. intros [= ->]. by left.
Qed.
Lemma wanted_ok req k v : request_ok req → wanted req !! k = Some v → key_ok k = true ∧ no_newline v = true.
Proof.
  intros Hr Hw. apply map_of_elem, list_elem_of_fmap in Hw as ([x w] & [= -> ->] & Hx). unfold request_ok in Hr. rewrite Forall_forall in Hr. by apply Hr in Hx.
Qed.

Section Merged.
Context (raw : string) (req : MergeRequest) (Hreq : request_ok req) (Hraw : plain_endings raw).
Let p := merge_plan raw req.

Lemma override_ok k : is_Some (pl_overrides p !! k) → key_ok k = true.
Proof. intros [v Hv]. destruct (plan_facts raw req) as (_ & _ & Ho & _). apply Ho in Hv as [Hw _]. by eapply wanted_ok. Qed.
Lemma new_keys_ok : Forall (fun kv => key_ok kv.1 = true ∧ no_newline kv.2 = true) (pl_new_keys p).
Proof.
  apply Forall_forall. intros [k v] Hin. destruct (plan_facts raw req) as (Hn & _). apply Hn in Hin as [Hw _]. by eapply wanted_ok.
Qed.
Lemma rewrite_line_ok l : line_ok l → line_ok (rewrite_line (pl_overrides p) l).
Proof.
  intros Hl. unfold rewrite_line. destruct (assignment l) as [[k w]|]; [|done]. destruct (pl_overrides p !! k) as [v|] eqn:E; [|done].
  destruct (plan_facts raw req) as (_ & _ & Ho & _). apply Ho in E as [Hw _]. apply (wanted_ok req k v Hreq) in Hw as [Hk Hv].
  by apply entry_line_ok.
Qed.
Lemma out_lines_ok : Forall line_ok (out_lines raw p).
Proof.
  assert (Hold : Forall line_ok (rewrite_line (pl_overrides p) <$> Str.lines raw)).
  { apply Forall_fmap. pose proof (lines_lack raw) as Hl. unfold plain_endings in Hraw. rewrite Forall_forall in Hl, Hraw |- *.
    intros l Hin. apply rewrite_line_ok. split; auto. }
  unfold out_lines. case_bool_decide; [done|]. apply Forall_app. split; [done|]. apply Forall_app. split.
  - destruct (ends_blank _); by repeat constructor.
  - apply Forall_fmap. eapply Forall_impl; [apply new_keys_ok|]. intros [k v] [Hk Hv]. by apply entry_line_ok.
Qed.
Lemma merged_lines : Str.lines (unlines (out_lines raw p)) = out_lines raw p.
Proof. apply lines_unlines, out_lines_ok. Qed.
Lemma read_out_lines k :
  map_of (read_lines (out_lines raw p)) !! k =
  match map_of (pl_new_keys p) !! k with
  | Some v => Some v
  | None => (fun old => default old (pl_overrides p !! k)) <$> existing_map raw !! k
  end.
Proof.
  rewrite existing_lines, <- map_rewrite by (intros; by apply override_ok). unfold out_lines. case_bool_decide as Hn.
  - rewrite Hn. unfold map_of at 2. cbn. by rewrite lookup_empty.
  - rewrite !read_lines_app, map_of_app, map_of_app.
    rewrite read_entry_lines by (eapply Forall_impl; [apply new_keys_ok|]; by intros kv [? _]).
    destruct (map_of (pl_new_keys p) !! k); [done|]. destruct (ends_blank _); unfold map_of at 1; cbn; by rewrite lookup_empty.
Qed.
Lemma merged_map k : existing_map (unlines (out_lines raw p)) !! k = expected req (existing_map raw) k.
Proof.
  rewrite existing_lines, merged_lines, read_out_lines. destruct (plan_facts raw req) as (Hn & Hd & Ho & _). fold p in Hn, Hd, Ho.
  unfold expected. destruct (wanted req !! k) as [v|] eqn:Ew, (existing_map raw !! k) as [old|] eqn:Ee.
  - destruct (map_of (pl_new_keys p) !! k) as [u|] eqn:En; [apply map_of_elem, Hn in En as [_ En]; congruence|]. cbn. f_equal.
    destruct (pl_overrides p !! k) as [u|] eqn:Eo.
    + apply Ho in Eo as (Hu & -> & _). cbn. congruence.
    + cbn. destruct (mr_force req) eqn:Ef; [|done]. destruct (decide (old = v)) as [|Hne]; [done|].
      assert (Hsome : pl_overrides p !! k = Some v) by (apply Ho; eauto). congruence.
  - assert (Hin : map_of (pl_new_keys p) !! k = Some v) by (apply map_of_Some; [done|]; by apply Hn). by rewrite Hin.
  - destruct (map_of (pl_new_keys p) !! k) as [u|] eqn:En; [apply map_of_elem, Hn in En as [En _]; congruence|]. cbn. f_equal.
    destruct (pl_overrides p !! k) as [u|] eqn:Eo; [apply Ho in Eo as [Eo _]; congruence|done].
  - destruct (map_of (pl_new_keys p) !! k) as [u|] eqn:En; [apply map_of_elem, Hn in En as [En _]; congruence|done].
Qed.
(** A second merge of the same request finds nothing to do. *)
Lemma merged_idempotent text :
  (∀ k, existing_map text !! k = expected req (existing_map raw) k) → no_change (merge_plan text req) = true.
Proof.
  intros Ht. destruct (plan_facts text req) as (Hn & _ & Ho & _). unfold no_change. rewrite !bool_decide_eq_true_2; [done|..].
  - destruct (pl_new_keys (merge_plan text req)) as [|[k v] l] eqn:E; [done|]. exfalso.
    assert (Hin : (k, v) ∈ (k, v) :: l) by (apply elem_of_cons; by left). apply Hn in Hin as [Hw He]. rewrite Ht in He.
    unfold expected in He. rewrite Hw in He. by destruct (existing_map raw !! k).
  - apply map_eq. intros k. rewrite lookup_empty. destruct (pl_overrides (merge_plan text req) !! k) as [v|] eqn:E; [|done]. exfalso.
    apply Ho in E as (Hw & Hf & old & He & Hne). rewrite Ht in He. unfold expected in He. rewrite Hw, Hf in He.
    destruct (existing_map raw !! k); congruence.
Qed.
(** Every line of the file keeps its place, and its text unless it assigns a key
    that the merge overwrites. *)
Lemma merged_keeps i line :
  Str.lines raw !! i = Some line →
  ∃ line', out_lines raw p !! i = Some line' ∧
    (line' = line ∨ ∃ k old v, assignment line = Some (k, old) ∧ mr_force req = true ∧ wanted req !! k = Some v ∧ line' = entry_line k v).
Proof.
  intros Hi. exists (rewrite_line (pl_overrides p) line). split.
  - unfold out_lines. assert (Hl : (rewrite_line (pl_overrides p) <$> Str.lines raw) !! i = Some (rewrite_line (pl_overrides p) line))
      by (by rewrite list_lookup_fmap, Hi). case_bool_decide; [done|]. by apply lookup_app_l_Some.
  - unfold rewrite_line. destruct (assignment line) as [[k w]|]; [|by left]. destruct (pl_overrides p !! k) as [v|] eqn:E; [|by left].
    right. destruct (plan_facts raw req) as (_ & _ & Ho & _). apply Ho in E as (Hw & Hf & _). by exists k, w, v.
Qed.
End Merged.

(** ** The merge on a file *)

(** The file after the effects of a run. *)
Definition file_step (file : option string) (x : step_of env_resp) : option string :=
  match x with existT (Persist text) (Ok _) => Some text | _ => file end.
Definition file_after (file : option string) (tr : list (step_of env_resp)) : option string := foldl file_step file tr.
(** Reading and testing the file give what it holds. *)
Definition answer_true (file : option string) (x : step_of env_resp) : Prop :=
  match x with
  | existT ReadTarget (Ok raw) => file = Some raw
  | existT ReadTarget (Err e) => io_kind e = NotFoundKind → file = None
  | existT TargetExists b => b = bool_decide (is_Some file)
  | _ => True
  end.
Fixpoint truthful (file : option string) (tr : list (step_of env_resp)) : Prop :=
  match tr with [] => True | x :: rest => answer_true file x ∧ truthful (file_step file x) rest end.
Lemma truthful_app file tr tr' : truthful file (tr ++ tr') ↔ truthful file tr ∧ truthful (file_after file tr) tr'.
Proof. revert file. induction tr as [|x tr IH]; intros file; cbn; [tauto|]. rewrite IH. tauto. Qed.
Lemma file_after_app file tr tr' : file_after file (tr ++ tr') = file_after (file_after file tr) tr'.
Proof. apply foldl_app. Qed.

Definition is_persist (x : step_of env_resp) : bool := match projT1 x with Persist _ => true | _ => false end.
Definition no_persist (tr : list (step_of env_resp)) : Prop := Forall (fun x => is_persist x = false) tr.
Lemma no_persist_file file tr : no_persist tr → file_after file tr = file.
Proof. unfold file_after. induction 1 as [|[e r] tr Hx _ IH]; [done|]. cbn. by destruct e. Qed.

Lemma backup_spec f :
  always (create_env_backup f) (fun tr r => no_persist tr ∧ ∀ b, r = Ok b → existT (CopyFile (ef_path f) b) (Ok ()) ∈ tr).
Proof.
  unfold create_env_backup, set_secure_perms, write_failed. cbn. intros ms counter pid [[]|e]; cbn; [intros [[]|e]; cbn|].
  all: split; [by repeat constructor|]; intros b Hb; try done. injection Hb as <-. set_solver.
Qed.
Lemma write_lines_quiet f ls : always (write_lines f ls) (fun tr _ => no_persist tr).
Proof.
  induction ls as [|l ls IH]; cbn; [constructor|]. intros [[]|e]; cbn; [|by repeat constructor].
  eapply always_mono; [exact IH|]. intros tr r Htr. by constructor.
Qed.
Definition perms_failed (f : EnvFile) (tr : list (step_of env_resp)) : Prop := ∃ x, existT (SetPerms (ef_path f)) (Err x) ∈ tr.
Lemma write_spec f ls file :
  always (write_atomically f ls) (fun tr r =>
    match r with
    | Ok _ => file_after file tr = Some (unlines ls)
    | Err _ => file_after file tr = file ∨ perms_failed f tr
    end).
Proof.
  unfold write_atomically. eapply always_try_spec with (P := fun tr _ => no_persist tr).
  - cbn. intros [[]|e]; by repeat constructor.
  - intros tr1 [] H1. eapply always_try_spec; [apply write_lines_quiet| |].
    + intros tr2 [] H2. eapply always_try_spec with (P := fun tr _ => no_persist tr); [cbn; intros [[]|e]; by repeat constructor| |].
      * intros tr3 [] H3. unfold set_secure_perms, write_failed. cbn.
        assert (Hq : ∀ tr, file_after file (tr1 ++ tr2 ++ tr3 ++ tr) = file_after file tr).
        { intros tr. rewrite !file_after_app, !(no_persist_file _ tr1), !(no_persist_file _ tr2), !(no_persist_file _ tr3) by done. done. }
        intros [[]|e]; cbn; [intros [] [[]|e]; cbn|]; rewrite Hq; [done| |by left].
        right. exists e. rewrite !elem_of_app. set_solver.
      * intros tr3 e H3. left. rewrite !file_after_app, !no_persist_file by done. done.
    + intros tr2 e H2. left. rewrite !file_after_app, !no_persist_file by done. done.
  - intros tr1 e H1. left. by rewrite no_persist_file.
Qed.
Lemma remove_backups_quiet ps n : always (remove_backups ps n) (fun tr _ => no_persist tr).
Proof.
  revert n. induction ps as [|p ps IH]; intros n; cbn; [constructor|]. intros r. eapply always_mono; [apply IH|]. intros tr x Htr. by constructor.
Qed.
Lemma prune_spec f : always (prune_backups f) (fun tr _ => no_persist tr).
Proof.
  unfold prune_backups. destruct (Str.is_empty _); [constructor|]. cbn. intros [items|e]; cbn; [|by repeat constructor].
  destruct (backups_in _ _) as [l|e]; cbn; [|by repeat constructor]. destruct (length l <=? _); cbn; [by repeat constructor|].
  eapply always_bind_spec; [apply remove_backups_quiet|]. intros tr n Htr. cbn. rewrite app_nil_r. by constructor.
Qed.

Section Program.
Context (f : EnvFile) (req : MergeRequest) (file : option string).
Context (Hreq : request_ok req) (Hfile : plain_endings (default "" file)).
Let before := default "" file.

(** What a run of the merge leaves. *)
Definition merge_post (tr : list (step_of env_resp)) (r : result MergeOutcome MergeError) : Prop :=
  let after := default "" (file_after file tr) in
  match r with
  | Ok o =>
      (∀ k, existing_map after !! k = expected req (existing_map before) k) ∧
      (∀ i line, Str.lines before !! i = Some line →
         ∃ line', Str.lines after !! i = Some line' ∧
           (line' = line ∨ ∃ k old v, assignment line = Some (k, old) ∧ mr_force req = true ∧ wanted req !! k = Some v ∧
                                      line' = entry_line k v)) ∧
      no_change (merge_plan after req) = true ∧
      (mo_written o = 0 → no_persist tr ∧ mo_backup_path o = None) ∧
      (mo_written o ≠ 0 → ∀ raw, file = Some raw → ∃ b tr1 tr2, mo_backup_path o = Some b ∧ tr = tr1 ++ tr2 ∧
         no_persist tr1 ∧ existT (CopyFile (ef_path f) b) (Ok ()) ∈ tr1)
  | Err _ => file_after file tr = file ∨ perms_failed f tr
  end.
Lemma post_prefix tr0 tr r : no_persist tr0 → merge_post tr r → merge_post (tr0 ++ tr) r.
Proof.
  intros H0. unfold merge_post. rewrite file_after_app, (no_persist_file _ tr0) by done. destruct r as [o|e].
  - intros (Hm & Hl & Hn & Hz & Hb). split_and!; [done..| |].
    + intros Hw. destruct (Hz Hw). split; [by apply Forall_app|done].
    + intros Hw raw Hraw. destruct (Hb Hw raw Hraw) as (b & tr1 & tr2 & Hp & -> & H1 & Hin). exists b, (tr0 ++ tr1), tr2.
      rewrite <- app_assoc. split_and!; [done..|by apply Forall_app|set_solver].
  - intros [Hf|[x Hx]]; [by left|right]. exists x. set_solver.
Qed.
Definition spec_of (tr : list (step_of env_resp)) (r : result MergeOutcome MergeError) : Prop := truthful file tr → merge_post tr r.
Lemma spec_prefix tr0 tr r : no_persist tr0 → spec_of tr r → spec_of (tr0 ++ tr) r.
Proof.
  intros H0 Hs Ht. apply truthful_app in Ht as [_ Ht]. rewrite no_persist_file in Ht by done. apply post_prefix; auto.
Qed.

Lemma changing_spec :
  no_change (merge_plan before req) = false →
  always (let! target_exists := env_do TargetExists in
          let!? backup_path := (if target_exists then (let!? b := create_env_backup f in ret_ok (Some b)) else ret_ok None) in
          let!? _ := write_atomically f (out_lines before (merge_plan before req)) in
          let! pruned := prune_backups f in
          ret_ok (mkMergeOutcome (pl_written (merge_plan before req)) (pl_skipped (merge_plan before req)) backup_path
                    (match pruned with Ok s => s | Err _ => mkPruneStats 0 0 end))) spec_of.
Proof.
  intros Hch. change (env_do TargetExists) with (trigger (resp := env_resp) TargetExists). cbn [trigger pbind always]. intros target_exists.
  eapply (always_try_spec _ _ (fun tr r => no_persist tr ∧ ∀ ob, r = Ok ob →
     (target_exists = true → ∃ b, ob = Some b ∧ existT (CopyFile (ef_path f) b) (Ok ()) ∈ tr))).
  - destruct target_exists; [|split; [constructor|done]]. eapply always_try_spec; [apply backup_spec| |].
    + intros tr b [Hq Hb]. split; [rewrite app_nil_r; done|]. intros ob [= <-] _. exists b. split; [done|]. rewrite app_nil_r. by apply Hb.
    + intros tr e [Hq _]. by split.
  - intros tr1 ob [H1 Hob]. eapply always_try_spec; [apply (write_spec _ _ file)| |].
    + intros tr2 [] Hw. eapply always_bind_spec; [apply prune_spec|]. intros tr3 pruned H3. cbn [always].
      intros Ht. rewrite app_nil_r in *.
      assert (Hafter : file_after file (existT TargetExists target_exists :: tr1 ++ tr2 ++ tr3) = Some (unlines (out_lines before (merge_plan before req)))).
      { change (existT TargetExists target_exists :: tr1 ++ tr2 ++ tr3) with ([existT TargetExists target_exists] ++ tr1 ++ tr2 ++ tr3).
        rewrite !file_after_app, (no_persist_file _ tr3), (no_persist_file _ tr1) by done. exact Hw. }
      destruct Ht as [Hex _]. cbn in Hex. unfold merge_post.
      match goal with |- context [file_after file ?t] => change (file_after file t = Some (unlines (out_lines before (merge_plan before req)))) in Hafter end.
      rewrite Hafter. change (default EmptyString (Some (unlines (out_lines before (merge_plan before req))))) with (unlines (out_lines before (merge_plan before req))).
      assert (Hwritten : pl_written (merge_plan before req) ≠ 0).
      { intros Hz. destruct (plan_facts before req) as (_ & _ & _ & Hwz). apply Hwz in Hz. congruence. }
      split_and!.
      * intros k. by apply merged_map.
      * intros i line Hi. rewrite (merged_lines before req) by done. by apply merged_keeps.
      * eapply merged_idempotent. intros k. by apply merged_map.
      * cbn. done.
      * cbn. intros _ raw Hraw. rewrite Hraw in Hex. destruct (Hob ob eq_refl) as (b & -> & Hb); [by rewrite Hex, bool_decide_eq_true_2|].
        exists b, (existT TargetExists target_exists :: tr1), (tr2 ++ tr3). split_and!; [done..| |set_solver]. by constructor.
    + intros tr2 e Hw Ht. unfold merge_post.
      change (existT TargetExists target_exists :: tr1 ++ tr2) with ([existT TargetExists target_exists] ++ tr1 ++ tr2).
      rewrite !file_after_app, (no_persist_file _ tr1) by done. destruct Hw as [Hw|[x Hx]]; [by left|right]. exists x. set_solver.
  - intros tr1 e [H1 _] _. left. change (existT TargetExists target_exists :: tr1) with ([existT TargetExists target_exists] ++ tr1).
    by rewrite file_after_app, (no_persist_file _ tr1).
Qed.

Lemma unchanged_spec o :
  no_change (merge_plan before req) = true → mo_written o = 0 → mo_backup_path o = None → merge_post [] (Ok o).
Proof.
  intros Hn Hw Hb. destruct (plan_facts before req) as (Fn & _ & Fo & _). unfold no_change in Hn.
  apply andb_prop in Hn as [Ho%bool_decide_eq_true Hk%bool_decide_eq_true].
  assert (Hsame : ∀ k, existing_map before !! k = expected req (existing_map before) k).
  { intros k. unfold expected. destruct (wanted req !! k) as [v|] eqn:Ew; [|done]. destruct (existing_map before !! k) as [old|] eqn:Ee.
    - destruct (mr_force req) eqn:Ef; [|done]. destruct (decide (old = v)) as [->|Hne]; [done|]. exfalso.
      assert (Hs : pl_overrides (merge_plan before req) !! k = Some v) by (apply Fo; eauto). rewrite Ho in Hs. by rewrite lookup_empty in Hs.
    - exfalso. assert (Hin : (k, v) ∈ pl_new_keys (merge_plan before req)) by (by apply Fn). rewrite Hk in Hin. by apply elem_of_nil in Hin. }
  unfold merge_post. cbn [file_after foldl]. fold before. split_and!; [done| | | |done].
  - intros i line Hi. exists line. split; [done|by left].
  - by eapply merged_idempotent.
  - intros _. split; [constructor|done].
Qed.
Lemma spec_error tr e : no_persist tr → spec_of tr (Err e).
Proof. intros Ht _. left. by apply no_persist_file. Qed.
Lemma merge_spec : always (merge f req) spec_of.
Proof.
  unfold merge. eapply (always_bind_spec _ _ (fun tr _ => no_persist tr)); [cbn; by repeat constructor|]. intros tr0 parent_exists H0.
  eapply (always_try_spec _ _ (fun tr _ => no_persist tr)).
  { destruct parent_exists; [constructor|]. cbn. intros [[]|e]; by repeat constructor. }
  2: { intros tr1 e H1. apply spec_error. by apply Forall_app. }
  intros tr1 [] H1. eapply (always_bind_spec _ _ (fun tr r => tr = [existT ReadTarget r])); [cbn; done|]. intros tr2 read ->.
  assert (H2 : no_persist [existT ReadTarget read : step_of env_resp]) by by repeat constructor.
  set (text := match read with Ok s => Ok s | Err e => _ end).
  destruct text as [raw|e] eqn:Etext; [|cbn [always]; rewrite app_nil_r; apply spec_error; unfold no_persist; rewrite !Forall_app; done].
  assert (Hraw : answer_true file (existT ReadTarget read) → raw = before).
  { subst text before. cbn. destruct read as [s|e].
    - intros ->. by injection Etext as <-.
    - destruct (io_kind e) eqn:Ek; try done. injection Etext as <-. intros Hn. by rewrite Hn. }
  eapply (always_bind_spec _ _ (fun tr _ => no_persist tr)).
  { destruct (mr_expected_mtime req); [cbn; by repeat constructor|constructor]. }
  intros tr3 current H3.
  assert (Hpre : no_persist (tr0 ++ tr1 ++ [existT ReadTarget read] ++ tr3)) by (unfold no_persist; rewrite !Forall_app; done).
  assert (Hgo : ∀ tr r, spec_of tr r ∨ raw ≠ before → spec_of (tr0 ++ tr1 ++ [existT ReadTarget read] ++ tr3 ++ tr) r).
  { intros tr r [Hs|Hne].
    - replace (tr0 ++ tr1 ++ [existT ReadTarget read] ++ tr3 ++ tr) with ((tr0 ++ tr1 ++ [existT ReadTarget read] ++ tr3) ++ tr)
        by (by rewrite <- !app_assoc). by apply spec_prefix.
    - intros Ht. exfalso. apply Hne, Hraw. apply truthful_app in Ht as [_ Ht]. rewrite no_persist_file in Ht by done.
      apply truthful_app in Ht as [_ Ht]. rewrite no_persist_file in Ht by done. by destruct Ht as [Ht _]. }
  destruct (mtime_skewed req current); [apply Hgo; left; apply spec_error; constructor|].
  destruct (decide (raw = before)) as [->|Hne].
  - destruct (no_change (merge_plan before req)) eqn:Hn.
    + cbn [always]. apply Hgo. left. intros _. by apply unchanged_spec.
    + eapply always_mono; [by apply changing_spec|]. intros tr r Hs. apply Hgo. by left.
  - eapply always_mono; [apply always_trivial|]. intros tr r _. apply Hgo. by right.
Qed.
End Program.


(** ** Runs *)

(** A run under a handler that keeps the file is a truthful path. *)
Lemma run_truthful {A} (h : ∀ e, option string → env_resp e * option string) (p : envM A) file :
  (∀ e s, answer_true s (existT e (h e s).1) ∧ (h e s).2 = file_step s (existT e (h e s).1)) →
  ∃ tr, paths p tr (run h p file).1 ∧ truthful file tr ∧ file_after file tr = (run h p file).2.
Proof.
  intros Hh. revert file. induction p as [a|e k IH]; intros file; [exists []; split_and!; [constructor|done|done]|].
  cbn [run]. destruct (Hh e file) as [Ha Hs]. destruct (h e file) as [r s'] eqn:E. cbn in Ha, Hs.
  destruct (IH r s') as (tr & Hp & Ht & Hf). exists (existT e r :: tr). split_and!; [by constructor|cbn; rewrite <- Hs; done|].
  cbn. rewrite <- Hs. exact Hf.
Qed.
Definition calm_env (e : EnvE) (file : option string) : env_resp e * option string :=
  match e return env_resp e * option string with
  | ParentExists => (true, file)
  | TargetExists => (bool_decide (is_Some file), file)
  | ReadTarget => (match file with Some raw => Ok raw | None => Err (mkEnvIoError NotFoundKind None "not found") end, file)
  | SnapshotMtime => (None, file)
  | NowMs => (1000%Z, file)
  | NextCounter => (0%Z, file)
  | ProcessId => (7%Z, file)
  | SyncParent => ((), file)
  | ListParent => (Ok [], file)
  | Persist text => (Ok (), Some text)
  | CreateDirAll => (Ok (), file)
  | CopyFile _ _ => (Ok (), file)
  | SetPerms _ => (Ok (), file)
  | NewTemp => (Ok (), file)
  | WriteTemp _ => (Ok (), file)
  | SyncTemp => (Ok (), file)
  | RemoveFile _ => (Ok (), file)
  end.
Definition demo_env : EnvFile := mkEnvFile "/home/labby/.labby/.env" "/home/labby/.labby" ".env".
Definition lf : string := String "010" "".
Definition demo_text : string := "# settings" +:+ lf +:+ "FOO = old" +:+ lf +:+ "BAR=kept" +:+ lf.
Definition demo_request : MergeRequest :=
  mkMergeRequest [mkEnvEntry "FOO" "a b"; mkEnvEntry "NEW" ("say " +:+ String double_quote "hi"); mkEnvEntry "FOO" "c\d"] true None.


(** A value is written as it is apart from quotes and backslashes: one with a line
    feed puts further assignments into the file. *)
Definition injecting : MergeRequest := mkMergeRequest [mkEnvEntry "NOTE" ("x" +:+ lf +:+ "LABBY_ADMIN=1" +:+ lf)] false None.
Theorem value_sets_other_key :
  wanted injecting !! "LABBY_ADMIN" = None ∧
  existing_map (unlines (out_lines "" (merge_plan "" injecting))) !! "LABBY_ADMIN" = Some "1".
Proof. split; vm_compute; reflexivity. Qed.

(** A key that the file assigns twice stays assigned twice, also when it is
    overwritten. *)
Theorem duplicates_stay :
  let raw := "A=1" +:+ lf +:+ "A=2" +:+ lf in
  out_lines raw (merge_plan raw (mkMergeRequest [mkEnvEntry "A" "3"] true None)) = ["A=3"; "A=3"].
Proof. vm_compute. reflexivity. Qed.

(** [write_env_pairs] compares a value with its quoted form: writing the same pair
    again is a conflict, and the message shows the stored value. *)
Theorem same_pair_conflicts :
  let pair := ("KEY", "a b") in
  let raw := unlines (pairs_output "" (pairs_plan (fun s => s) "" [pair] false)) in
  pp_conflicts (pairs_plan (fun s => s) raw [pair] false) =
  ["CONFLICT: KEY already set to " +:+ quote_env_value "a b" +:+ "; skipping (use --force to overwrite)"].
Proof. vm_compute. reflexivity. Qed.
