(* ===== verification/Artifacts.v ===== *)
(** * Artifacts: files a Code Mode run leaves behind

    [labby-codemode/src/artifacts.rs]: the checks on the path and content type
    of an artifact, the write below the directory of the run, the limits read
    from the environment, the set of running executions, and the pruning of old
    run directories.  The calls of [tokio::fs] are the effects of [Fs]; a walk
    over a directory tree takes fuel.

    The second half proves what a write does: it adds one file below the
    directory of its run, and the directories on the way to it; it never leaves
    that directory and never changes an entry that exists; the receipt describes
    what was written; and it fails only for one of the reasons the code names or
    a call of the file system that fails. *)

From Stdlib Require Import Ascii.
From stdpp Require Import base list gmap strings pretty.
From S2P Require Import Prelude RustStr Prog AuthTypes WebPlatform GatewayConfig Paths Fs FsProps Workspace WorkspaceBatch WorkspaceSafe WorkspaceWrite WorkspaceUsage RunnerDrive.

(** The [ulid] crate: whether [Ulid::from_string] accepts a text. *)
Class UlidPlatform := { ulid_from_string_ok : string → bool }.

Definition DEFAULT_CONTENT_TYPE : string := "text/plain".
Definition MAX_CONTENT_TYPE_BYTES : Z := 256.
Definition DEFAULT_ARTIFACT_MAX_MIB : Z := 8.
Definition DEFAULT_ARTIFACT_RETENTION_RUNS : Z := 200.
Definition DEFAULT_ARTIFACT_MAX_STORE_MIB : Z := 4096.

(** ** Where artifacts are kept (util.rs) *)

(** [PathBuf::join] of a relative path, as text. *)
Definition join_text (base rel : string) : string :=
  if Str.is_empty base || Str.ends_with "/" base then base +:+ rel else base +:+ "/" +:+ rel.

(** [lab_home]; a variable that is not valid UTF-8 counts as unset. *)
Definition lab_home (env : string → option string) (temp_dir : string) : string :=
  match env_non_empty env "LABBY_HOME" with
  | Some home => home
  | None =>
      match env_non_empty env "HOME" with
      | Some home => join_text home ".labby"
      | None => join_text temp_dir "labby"
      end
  end.
Definition artifact_store_root (lab_home : string) : string := join_text lab_home "code-mode-artifacts".
Definition code_mode_artifact_root (lab_home run_id : string) : string := join_text (artifact_store_root lab_home) run_id.

Definition redact_home (home : option string) (path : string) : string :=
  match home with
  | None => path
  | Some home =>
      let home := Str.trim_end_matches "/" home in
      if Str.is_empty home then path
      else
        match Str.strip_prefix home path with
        | Some rest =>
            let rest := Str.trim_start_matches "/" rest in
            if Str.is_empty rest then "~" else "~/" +:+ rest
        | None => path
        end
  end.

(** ** Limits

    [config_default] is the value of the configuration file, when one was
    installed. *)

(** [install_artifact_config_defaults]: the first installation stays. *)
Record ArtifactDefaults := mkArtifactDefaults { ad_retention_runs : option Z; ad_max_mib : option Z; ad_max_store_mib : option Z }.
Definition install_artifact_config_defaults (installed : option ArtifactDefaults) (d : ArtifactDefaults) : option ArtifactDefaults :=
  match installed with Some d0 => Some d0 | None => Some d end.
Definition config_default (f : ArtifactDefaults → option Z) (installed : option ArtifactDefaults) : option Z := installed ≫= f.

Definition artifact_retention_runs (env : string → option string) (installed : option ArtifactDefaults) : Z :=
  match env_non_empty env "LABBY_CODE_MODE_ARTIFACT_RETENTION_RUNS" with
  | None => default DEFAULT_ARTIFACT_RETENTION_RUNS (config_default ad_retention_runs installed)
  | Some raw => default DEFAULT_ARTIFACT_RETENTION_RUNS (parse_uint u64_max (Str.trim raw))
  end.

Definition artifact_max_bytes (env : string → option string) (installed : option ArtifactDefaults) : Z :=
  let default_bytes :=
    match config_default ad_max_mib installed with
    | Some mib => if bool_decide (0 < mib)%Z then mib_bytes mib else (DEFAULT_ARTIFACT_MAX_MIB * 1024 * 1024)%Z
    | None => (DEFAULT_ARTIFACT_MAX_MIB * 1024 * 1024)%Z
    end in
  match env_non_empty env "LABBY_CODE_MODE_ARTIFACT_MAX_MIB" with
  | None => default_bytes
  | Some raw =>
      match parse_uint u64_max (Str.trim raw) with
      | Some mib => if bool_decide (0 < mib)%Z then mib_bytes mib else default_bytes
      | None => default_bytes
      end
  end.

Definition artifact_max_store_bytes (env : string → option string) (installed : option ArtifactDefaults) : Z :=
  let default_bytes := default (DEFAULT_ARTIFACT_MAX_STORE_MIB * 1024 * 1024)%Z (mib_bytes <$> config_default ad_max_store_mib installed) in
  match env_non_empty env "LABBY_CODE_MODE_ARTIFACT_MAX_STORE_MIB" with
  | None => default_bytes
  | Some raw => default default_bytes (mib_bytes <$> parse_uint u64_max (Str.trim raw))
  end.

(** ** Content types *)

Definition invalid_content_type (message : string) : ToolError := InvalidParam message "content_type".
Definition is_ascii_control (a : ascii) : bool := let n := Ascii.nat_of_ascii a in (n <? 32) || (n =? 127).
Definition is_ascii (a : ascii) : bool := Ascii.nat_of_ascii a <? 128.
Definition is_ascii_whitespace (a : ascii) : bool :=
  let n := Ascii.nat_of_ascii a in (n =? 32) || (n =? 9) || (n =? 10) || (n =? 12) || (n =? 13).
Definition is_content_type_token_char (a : ascii) : bool :=
  is_ascii_alphanumeric a || one_of ["!"; "#"; "$"; "&"; "^"; "_"; "."; "+"; "-"]%char a.

Definition normalize_content_type (content_type : option string) : result string ToolError :=
  match content_type with
  | None => Ok DEFAULT_CONTENT_TYPE
  | Some value =>
      if negb (Str.all_bytes (fun a => negb (is_ascii_control a)) value)
      then Err (invalid_content_type "artifact content_type must not contain ASCII control characters")
      else
        let trimmed := Str.trim_end_matches " " (Str.trim_start_matches " " value) in
        if Str.is_empty trimmed then Ok DEFAULT_CONTENT_TYPE
        else if bool_decide (MAX_CONTENT_TYPE_BYTES < Str.len trimmed)%Z
        then Err (invalid_content_type ("artifact content_type is " +:+ pretty (Str.len trimmed) +:+ " bytes; maximum is "
                    +:+ pretty MAX_CONTENT_TYPE_BYTES +:+ " bytes"))
        else if negb (Str.all_bytes is_ascii trimmed)
        then Err (invalid_content_type "artifact content_type must be ASCII type/subtype")
        else if negb (Str.all_bytes (fun a => negb (is_ascii_whitespace a)) trimmed)
        then Err (invalid_content_type "artifact content_type must not contain embedded whitespace")
        else
          match Str.split_once "/" trimmed with
          | None => Err (invalid_content_type "artifact content_type must use type/subtype syntax")
          | Some (media_type, subtype) =>
              if Str.is_empty media_type || Str.is_empty subtype || Str.contains "/" subtype
              then Err (invalid_content_type "artifact content_type must use type/subtype syntax")
              else if negb (Str.all_bytes is_content_type_token_char media_type)
                      || negb (Str.all_bytes is_content_type_token_char subtype)
              then Err (invalid_content_type "artifact content_type must contain only token characters")
              else Ok trimmed
          end
  end.

(** ** Paths *)

(** [Path::is_absolute] is the leading [/] here. *)
Definition is_rooted_or_drive_absolute (normalized : string) : bool :=
  Str.starts_with "/" normalized || has_windows_drive_prefix normalized.

Definition normalize_artifact_path (raw : string) : result string ToolError :=
  let trimmed := Str.trim raw in
  if Str.is_empty trimmed then Err (InvalidParam "artifact path must be a non-empty relative path" "path")
  else
    let normalized := replace_char "092" "/" trimmed in
    if is_rooted_or_drive_absolute normalized
    then Err (InvalidParam "artifact path must be a relative path" "path")
    else match reject_path_traversal normalized with Ok _ => Ok normalized | Err e => Err e end.

(** How the last name of a path is spelled: a path ending in [/] or [/.] names
    a directory, whatever [Path::components] leaves of it. *)
Inductive Spelling := Plain | TrailingSlash | TrailingDot.
Definition spelling (rel : string) : Spelling :=
  match last (Str.split "/" rel) with
  | Some piece => if Str.is_empty piece then TrailingSlash else if String.eqb piece "." then TrailingDot else Plain
  | None => Plain
  end.

(** ** Writing *)

Definition too_large (len max_bytes : Z) : WErr :=
  Tool (InvalidParam ("artifact content is " +:+ pretty len +:+ " bytes; maximum is " +:+ pretty max_bytes +:+ " bytes") "content").
Definition create_failed (e : IoError) : WErr :=
  Tool (Sdk (match e with AlreadyExists => "invalid_param" | _ => "internal_error" end) ("failed to create artifact file: " +:+ io_text e)).
Definition internal_artifact (action : string) (e : IoError) : WErr :=
  Tool (Sdk "internal_error" ("failed to " +:+ action +:+ ": " +:+ io_text e)).

(** [OpenOptions::create_new]. *)
Definition open_new (rel : string) (destination : list Component) : F (result unit IoError) :=
  match spelling rel with
  | Plain => trigger (CreateNew destination)
  | TrailingSlash => trigger (CreateNewDir false destination)
  | TrailingDot => trigger (CreateNewDir true destination)
  end.

Section Artifacts.
Context `{CodePlatform} `{UlidPlatform}.

Definition write_code_mode_artifact (home : option string) (root : string) (request : CodeModeArtifactWrite) (max_bytes : Z) :
    F (result CodeModeArtifactReceipt WErr) :=
  let!? rel_path := Ret (lift_tool (normalize_artifact_path (aw_path request))) in
  let!? content_type := Ret (lift_tool (normalize_content_type (aw_content_type request))) in
  let content := aw_content request in
  if bool_decide (max_bytes < Str.len content)%Z then ret_err (too_large (Str.len content) max_bytes)
  else
    let destination := join_path (components root) (components rel_path) in
    let!? _ := reject_existing_symlink_ancestors (components root) destination in
    let!? _ := match parent destination with
               | Some dir => try_io (trigger (CreateDirAll dir)) (internal_artifact "create artifact directory")
               | None => ret_ok ()
               end in
    let!? _ := reject_existing_symlink_ancestors (components root) destination in
    let!? _ := try_io (open_new rel_path destination) create_failed in
    let!? _ := try_io (trigger (WriteAll destination content)) (internal_artifact "write artifact file") in
    let!? _ := try_io (trigger (Flush destination)) (internal_artifact "flush artifact file") in
    ret_ok (mkReceipt rel_path (redact_home home (join_text root rel_path)) content_type (Str.len content) (sha256_hex content)).

(** ** Sizes

    The type of an entry and its metadata are two calls. *)

Fixpoint size_entries (dir : list Component) (entries : list (result string IoError)) (stack : list (list Component)) (total : Z) :
    F (list (list Component) * Z) :=
  match entries with
  | [] | Err _ :: _ => Ret (stack, total)
  | Ok name :: rest =>
      let path := push dir (Normal name) in
      let! file_type := lstat path in
      match file_type with
      | Ok ft =>
          if is_dir ft then size_entries dir rest (path :: stack) total
          else if is_file ft then
            let! meta := lstat path in
            size_entries dir rest stack (match meta with Ok md => u64_saturating_add total (md_len md) | Err _ => total end)
          else size_entries dir rest stack total
      | Err _ => size_entries dir rest stack total
      end
  end.

Fixpoint size_loop (n : nat) (stack : list (list Component)) (total : Z) : F (result Z WErr) :=
  match n with
  | 0 => ret_err Diverged
  | S n =>
      match stack with
      | [] => ret_ok total
      | dir :: stack =>
          let! rd := trigger (ReadDir dir) in
          match (rd : result (list (result string IoError)) IoError) with
          | Err _ => size_loop n stack total
          | Ok entries => let! next := size_entries dir entries stack total in size_loop n next.1 next.2
          end
      end
  end.
Definition dir_size_bytes (fuel : nat) (path : list Component) : F (result Z WErr) := size_loop fuel [path] 0.

(** ** Pruning *)

(** The names of the run directories, as far as the enumeration gets. *)
Fixpoint run_dirs (store_root : list Component) (entries : list (result string IoError)) (acc : list string) : F (list string) :=
  match entries with
  | [] | Err _ :: _ => Ret acc
  | Ok name :: rest =>
      let! file_type := lstat (push store_root (Normal name)) in
      if match file_type with Ok ft => is_dir ft | Err _ => false end
      then run_dirs store_root rest (if from_utf8_ok name && ulid_from_string_ok name then acc ++ [name] else acc)
      else run_dirs store_root rest acc
  end.

(** The sizes of the directories, in order; without byte pruning nothing is
    measured. *)
Fixpoint run_sizes (fuel : nat) (byte_pruning : bool) (store_root : list Component) (names : list string) :
    F (result (list (string * Z)) WErr) :=
  match names with
  | [] => ret_ok []
  | name :: rest =>
      let!? size := if byte_pruning then dir_size_bytes fuel (push store_root (Normal name)) else ret_ok 0%Z in
      let!? sizes := run_sizes fuel byte_pruning store_root rest in
      ret_ok ((name, size) :: sizes)
  end.

(** The decision loop, from position [idx] of the newest-first list. *)
Fixpoint to_remove (retain max_store_bytes : Z) (active : gset string) (idx cumulative : Z) (runs : list (string * Z)) : list string :=
  match runs with
  | [] => []
  | (name, size) :: rest =>
      let count_pruning := bool_decide (0 < retain)%Z in
      let byte_pruning := bool_decide (0 < max_store_bytes)%Z in
      let cumulative := if byte_pruning then u64_saturating_add cumulative size else cumulative in
      let within_count := negb count_pruning || bool_decide (idx < retain)%Z in
      let within_bytes := negb byte_pruning || bool_decide (cumulative <= max_store_bytes)%Z in
      let others := to_remove retain max_store_bytes active (idx + 1) cumulative rest in
      if within_count && within_bytes then others
      else if bool_decide (name ∈ active) then others
      else name :: others
  end.

(** A directory that cannot be removed is left. *)
Fixpoint remove_runs (store_root : list Component) (names : list string) : F unit :=
  match names with
  | [] => Ret ()
  | name :: rest =>
      let! _ := trigger (RemoveDirAll (push store_root (Normal name))) in
      remove_runs store_root rest
  end.

Definition prune_artifact_runs_in (fuel : nat) (store_root : list Component) (retain max_store_bytes : Z) (active : gset string) :
    F (result unit WErr) :=
  let count_pruning := bool_decide (0 < retain)%Z in
  let byte_pruning := bool_decide (0 < max_store_bytes)%Z in
  if negb count_pruning && negb byte_pruning then ret_ok ()
  else
    let! rd := trigger (ReadDir store_root) in
    match (rd : result (list (result string IoError)) IoError) with
    | Err _ => ret_ok ()
    | Ok entries =>
        let! names := run_dirs store_root entries [] in
        let newest_first := reverse (sort_strings names) in
        let!? sizes := run_sizes fuel byte_pruning store_root newest_first in
        let! _ := remove_runs store_root (to_remove retain max_store_bytes active 0 0 sizes) in
        ret_ok ()
    end.

(** ** Running executions

    [active_runs] is shared by the executions of the process. *)

Definition register (run_id : string) (active : gset string) : gset string := {[run_id]} ∪ active.
Definition drop_run (run_id : string) (active : gset string) : gset string := active ∖ {[run_id]}.
Definition active_artifact_runs_snapshot (active : gset string) : gset string := active.

Definition prune_artifact_runs (fuel : nat) (env : string → option string) (installed : option ArtifactDefaults) (lab_home : string)
    (snapshot : gset string) (retain : Z) : F (result unit WErr) :=
  prune_artifact_runs_in fuel (components (artifact_store_root lab_home)) retain (artifact_max_store_bytes env installed) snapshot.

End Artifacts.

(** ** Accepted paths *)

(** The names an accepted path has below the directory of the run. *)
Definition path_names (rel : string) : Key :=
  omap (fun c => match c with Normal n => Some n | _ => None end) (components rel).

Lemma components_dot s c : c ∈ tail (components s) → c ≠ CurDir ∧ c ≠ RootDir.
Proof.
  unfold components. destruct (Str.split "/" s) as [|first rest]; [set_solver|].
  assert (∀ c, c ∈ omap component_of rest → c ≠ CurDir ∧ c ≠ RootDir) as Hr.
  { intros c' (p & _ & E)%list_elem_of_omap. unfold component_of in E. by repeat case_match; simplify_eq. }
  destruct (Str.starts_with "/" s); [apply Hr|]. destruct (String.eqb first "."); [apply Hr|].
  destruct (component_of first); [apply Hr|]. simpl. intros Hc. apply Hr. destruct (omap _ _); [done|by right].
Qed.

Lemma path_names_proper rel : Forall proper (path_names rel).
Proof.
  apply Forall_forall. intros n (c & Hc & E)%list_elem_of_omap. destruct c; try done. injection E as ->.
  by eapply components_proper.
Qed.

(** Below [p], an accepted path is these names. *)
Lemma join_accepted rel p :
  reject_path_traversal rel = Ok () → join_path p (components rel) = p ++ (Normal <$> path_names rel).
Proof.
  unfold reject_path_traversal, path_names. destruct (existsb _ _) eqn:E; [done|]. intros _.
  unfold join_path. revert p. induction (components rel) as [|c cs IH]; intros p; [by rewrite app_nil_r|].
  simpl in E. apply orb_false_iff in E as [Ec E]. destruct c; try done; simpl.
  - by apply IH.
  - rewrite IH by done. by rewrite <- app_assoc.
Qed.

Lemma normalize_accepted raw rel : normalize_artifact_path raw = Ok rel → reject_path_traversal rel = Ok ().
Proof.
  unfold normalize_artifact_path. destruct (Str.is_empty _); [done|]. destruct (is_rooted_or_drive_absolute _); [done|].
  destruct (reject_path_traversal _) as [[]|] eqn:E; [by intros [= <-]|done].
Qed.

(** A path not spelled as a directory's has a last name. *)
Lemma plain_names rel : reject_path_traversal rel = Ok () → spelling rel = Plain → path_names rel ≠ [].
Proof.
  unfold reject_path_traversal, spelling, path_names. destruct (existsb _ _) eqn:E; [done|]. intros _ Hs.
  apply not_true_iff_false in E. intros Hn. apply E. unfold components in *. pose proof (Str.split_nonempty "/" rel) as Hne.
  destruct (Str.split "/" rel) as [|first rest] eqn:Hsp; [done|].
  destruct (last (first :: rest)) as [piece|] eqn:Hl; [|by apply last_None in Hl].
  destruct (Str.is_empty piece) eqn:Ee; [done|]. destruct (String.eqb piece ".") eqn:Ed; [done|].
  assert (∃ c, component_of piece = Some c ∧ (c = ParentDir ∨ ∃ n, c = Normal n)) as (c & Hc & Hk).
  { unfold component_of. rewrite Ee, Ed. destruct (String.eqb piece ".."); eauto. }
  destruct rest as [|x rest].
  - injection Hl as ->. rewrite Ed in *. destruct (Str.starts_with "/" rel); [done|]. rewrite Hc in *.
    destruct Hk as [->|[n ->]]; done.
  - assert (c ∈ omap component_of (x :: rest)) as Hin.
    { apply list_elem_of_omap. exists piece. split; [|done]. apply last_Some in Hl as [l' Hl].
      destruct l' as [|y l']; [done|]. simpl in Hl. injection Hl as _ ->. apply elem_of_app. right. by left. }
    apply existsb_exists. exists c. split; [apply list_elem_of_In, elem_of_app; by right|]. destruct Hk as [->|[n ->]]; [done|].
    exfalso. eapply not_elem_of_nil. rewrite <- Hn. apply list_elem_of_omap. exists (Normal n).
    split; [apply elem_of_app; by right|done].
Qed.

(** ** What a write may add *)

(** Directories on the way to [t], and at [t] a file with a part of the
    content. *)
Definition adds (t : Key) (content : string) (w w' : World) : Prop :=
  quiet w w' ∧
  ∀ q, w_fs w' !! q = w_fs w !! q ∨
    w_fs w !! q = None ∧
    (w_fs w' !! q = Some NDir ∧ q `prefix_of` t ∧ q ≠ t ∨
     q = t ∧ ∃ n, w_fs w' !! q = Some (NFile (Str.take n content))).

Lemma same_adds t content w w' : same w w' → adds t content w w'.
Proof. intros Hs. split; [by apply same_quiet|]. destruct Hs as (_ & -> & _). auto. Qed.

Lemma adds_dirs t content w w1 w2 :
  quiet w w1 → (∀ q, w_fs w1 !! q = w_fs w !! q ∨ w_fs w !! q = None ∧ w_fs w1 !! q = Some NDir ∧ q `prefix_of` t ∧ q ≠ t) →
  adds t content w1 w2 → adds t content w w2.
Proof.
  intros Hq Hd [Hq' Ha]. split; [by eapply quiet_trans|]. intros q.
  destruct (Ha q) as [->|(E & Hn)]; destruct (Hd q) as [E'|(E' & E'' & Hp & Hne)];
    [by left|right; split; [done|]; left; done|right; split; [congruence|done]|congruence].
Qed.

Lemma take_all n s : String.length s <= n → Str.take n s = s.
Proof. revert n. induction s as [|a s IH]; intros [|n] Hn; simpl in *; try done; [lia|]. by rewrite IH by lia. Qed.

(** The file under construction. *)
Lemma create_new_adds w t content :
  clear (w_fs w) t → t ≠ [] → Forall proper t →
  adds t content w (host (CreateNew (host_path w t)) w).2 ∧
  match (host (CreateNew (host_path w t)) w).1 with
  | Ok _ => w_fs w !! t = None ∧ w_fs (host (CreateNew (host_path w t)) w).2 !! t = Some (NFile "")
  | Err _ => w_fs (host (CreateNew (host_path w t)) w).2 = w_fs w
  end.
Proof.
  intros Hc Hne Hp. pose proof (settled_inside _ _ _ (settled_host_path w t Hc)) as Hi.
  pose proof (change_quiet w (CreateNew (host_path w t)) _ false t eq_refl Hne Hp Hi) as Hq.
  pose proof (change_only w (CreateNew (host_path w t)) (host_path w t) false t) as Ho.
  assert (match (host (CreateNew (host_path w t)) w).1 with
    | Ok _ => w_fs w !! t = None ∧ w_fs (host (CreateNew (host_path w t)) w).2 !! t = Some (NFile "")
    | Err _ => w_fs (host (CreateNew (host_path w t)) w).2 = w_fs w end) as Hr.
  { destruct (host (CreateNew (host_path w t)) w) as [[[]|e] w'] eqn:E; simpl; [by apply (create_new_Ok w _ t w' Hi)|].
    destruct (host_cases (CreateNew (host_path w t)) w) as (w1 & Hs & Hh). rewrite E in Hh. destruct Hs as (_ & <- & _).
    destruct Hh as [Hh|(n & Hh)]; [|by injection Hh as _ ->]. cbn [host_ok] in Hh. unfold at_path in Hh.
    destruct (key_of _ _) as [k|]; [|by injection Hh as _ ->].
    destruct (walk _ _ _) as [[n|]| | |]; cbn [andb] in Hh; first [done|by injection Hh as _ ->]. }
  split; [|done]. split; [done|]. intros q. destruct (decide (q = t)) as [->|Hqt]; [|left; by apply Ho].
  destruct (host (CreateNew (host_path w t)) w).1; [|left; by rewrite Hr]. right. destruct Hr as [H0 H1].
  split; [done|]. right. split; [done|]. exists 0. by destruct content.
Qed.

Lemma write_all_adds w w0 t content :
  clear (w_fs w) t → t ≠ [] → Forall proper t → adds t content w0 w →
  w_fs w0 !! t = None → w_fs w !! t = Some (NFile "") →
  adds t content w0 (host (WriteAll (host_path w t) content) w).2 ∧
  (is_ok (host (WriteAll (host_path w t) content) w).1 = true →
   w_fs (host (WriteAll (host_path w t) content) w).2 !! t = Some (NFile content)).
Proof.
  intros Hc Hne Hp [Hq0 Ha] Hn Hf. pose proof (settled_host_path w t Hc) as Hset. pose proof (settled_inside _ _ _ Hset) as Hi.
  set (e := WriteAll (host_path w t) content).
  pose proof (change_quiet w e _ true t eq_refl Hne Hp Hset) as Hq. pose proof (change_only w e (host_path w t) true t) as Ho.
  assert (∃ n, w_fs (host e w).2 !! t = Some (NFile (Str.take n content)) ∧
    (is_ok (host e w).1 = true → Str.take n content = content)) as (n & Hn' & Hok).
  { destruct (host e w) as [[[]|er] w'] eqn:E; simpl.
    - exists (String.length content). rewrite take_all by done. split; [|done].
      rewrite (write_all_Ok w (host_path w t) t "" content w' Hi Hf E). by rewrite Str.app_nil_l.
    - destruct (host_cases e w) as (w1 & Hs & Hh). rewrite E in Hh. apply (same_inside _ _ _ _ Hs) in Hi.
      destruct Hs as (_ & Hs & _). rewrite <- Hs in Hf. subst e. cbn [host_ok host_fault] in Hh. unfold at_path in Hh.
      rewrite (inside_key _ _ _ Hi) in Hh. destruct (walk (w_fs w1) [] t) as [nd| | |] eqn:Ew.
      + pose proof (walk_At _ _ _ _ Ew) as En. simpl in En. rewrite Hf in En. subst nd. simpl in Hh.
        destruct Hh as [Hh|(n & Hh)]; [done|]. injection Hh as _ ->. exists n. simpl. by rewrite lookup_insert_eq, Str.app_nil_l.
      + exists 0. destruct Hh as [Hh|(n & Hh)]; injection Hh as _ ->; rewrite Hf; by destruct content.
      + exists 0. destruct Hh as [Hh|(n & Hh)]; injection Hh as _ ->; rewrite Hf; by destruct content.
      + by destruct Hi as [_ Hi]. }
  split; [|intros Hr; by rewrite Hn', Hok]. split; [by eapply quiet_trans|]. intros q.
  destruct (decide (q = t)) as [->|Hqt]; [right; eauto|]. rewrite Ho by done. apply Ha.
Qed.

(** A path spelled as a directory's creates nothing. *)
Lemma create_new_dir_same w t dot :
  clear (w_fs w) t → same w (host (CreateNewDir dot (host_path w t)) w).2 ∧
  is_ok (host (CreateNewDir dot (host_path w t)) w).1 = false.
Proof.
  intros Hc. pose proof (settled_host_path w t Hc) as Hset.
  destruct (host_cases (CreateNewDir dot (host_path w t)) w) as (w1 & Hs & [->|(n & ->)]);
    [|by split].
  apply (same_settled _ _ _ _ Hs) in Hset. pose proof (settled_inside _ _ _ Hset) as Hi. cbn [host_ok].
  pose proof (inside_key _ _ _ Hi) as Hk. pose proof (settled_not_link _ _ _ Hset) as Hl. unfold at_path. rewrite Hk.
  destruct Hi as [_ Hw]. destruct (walk (w_fs w1) [] t) as [nd| | |]; try done;
    [|by split..].
  rewrite (bool_decide_false (nd = _)) by congruence. rewrite andb_false_r. split; [|by destruct dot, nd as [[]|]].
  by eapply same_trans.
Qed.

Section Write.
Context `{CodePlatform} (home : option string).

(** The directory of the run is [store ++ [run_id]], and its parent is reached
    without a link. *)
Record ready (root : string) (store : Key) (run_id : string) (w : World) : Prop := mkReady {
  ready_root : components root = host_path w (store ++ [run_id]);
  ready_plain : plain (w_root w) = true;
  ready_inside : w_escaped w = false;
  ready_wf : wf (w_fs w);
  ready_proper : Forall proper (store ++ [run_id]);
  ready_clear : clear (w_fs w) store;
}.

(** The calls after the second guard. *)
Definition fill (root rel content_type content : string) (t : list Component) : F (result CodeModeArtifactReceipt WErr) :=
  let!? _ := try_io (open_new rel t) create_failed in
  let!? _ := try_io (trigger (WriteAll t content)) (internal_artifact "write artifact file") in
  let!? _ := try_io (trigger (Flush t)) (internal_artifact "flush artifact file") in
  ret_ok (mkReceipt rel (redact_home home (join_text root rel)) content_type (Str.len content) (sha256_hex content)).

Definition filled_with (root rel content_type content : string) (t : Key) (w : World)
    (out : result CodeModeArtifactReceipt WErr * World) : Prop :=
  adds t content w out.2 ∧ (spelling rel = Plain ∨ w_fs out.2 !! t = w_fs w !! t) ∧
  match out.1 with
  | Ok receipt =>
      spelling rel = Plain ∧ w_fs w !! t = None ∧ w_fs out.2 !! t = Some (NFile content) ∧
      receipt = mkReceipt rel (redact_home home (join_text root rel)) content_type (Str.len content) (sha256_hex content)
  | Err e => e ≠ Diverged
  end.

Lemma fill_spec root rel ct content w t :
  clear (w_fs w) t → t ≠ [] → Forall proper t →
  filled_with root rel ct content t w (run host (fill root rel ct content (host_path w t)) w).
Proof.
  intros Hc Hne Hp. unfold fill, filled_with. rewrite run_try, run_try_io. unfold open_new.
  destruct (spelling rel) eqn:Hsp;
    [rewrite (run_trigger host (CreateNew _))|rewrite (run_trigger host (CreateNewDir _ _))..].
  2, 3: match goal with |- context [CreateNewDir ?dot _] => destruct (create_new_dir_same w t dot Hc) as [Hs Hr];
    destruct (host (CreateNewDir dot (host_path w t)) w) as [[|e] w'] end; [done|]; simpl in *;
    (split; [by apply same_adds|split; [|done]]; right; by destruct Hs as (_ & -> & _)).
  destruct (create_new_adds w t content Hc Hne Hp) as [Ha Hr].
  destruct (host (CreateNew (host_path w t)) w) as [[[]|e] w1]; cbn [fst snd map_err is_ok] in *; [|split; [exact Ha|by auto]]. destruct Hr as [Hn Hf].
  rewrite run_try, run_try_io, (run_trigger host (WriteAll _ _)).
  assert (host_path w t = host_path w1 t) as -> by (unfold host_path; by destruct Ha as [(-> & _) _]).
  assert (clear (w_fs w1) t) as Hc1 by (eapply quiet_clear; [apply Ha|done]).
  destruct (write_all_adds w1 w t content Hc1 Hne Hp Ha Hn Hf) as [Ha2 Hok].
  destruct (host (WriteAll (host_path w1 t) content) w1) as [[[]|e] w2]; cbn [fst snd map_err is_ok] in *; [|split; [exact Ha2|by auto]]. specialize (Hok eq_refl).
  rewrite run_try, run_try_io, (run_trigger host (Flush _)). pose proof (flush_same w2 (host_path w1 t)) as Hfl.
  destruct (host (Flush (host_path w1 t)) w2) as [[[]|e] w3]; simpl in *;
    (split; [destruct Ha2 as [Hq Ha2]; split; [by eapply quiet_trans, same_quiet|]; by destruct Hfl as (_ & -> & _)|]); [|by auto].
  destruct Hfl as (_ & -> & _). split; [by left|]. by split_and!.
Qed.

Lemma parent_host_path w k c : parent (host_path w (k ++ [c])) = Some (host_path w k).
Proof. unfold parent, host_path. rewrite fmap_app, app_assoc. simpl. rewrite reverse_snoc. by rewrite reverse_involutive. Qed.

(** The guard of the write, for a target at or below the directory of the run. *)
Lemma run_guard root store run_id k w :
  ready root store run_id w →
  let p := reject_existing_symlink_ancestors (components root) (host_path w ((store ++ [run_id]) ++ k)) in
  same w (run host p w).2 ∧ (is_ok (run host p w).1 = true → clear (w_fs w) ((store ++ [run_id]) ++ k)).
Proof.
  intros [-> Hp _ Hwf Hpr Hc]. apply ancestors_guard; [done|done|by apply inside_host_path|by apply clear_extend].
Qed.

Lemma reject_each_converges p r w : (run host (reject_each p r) w).1 ≠ Err Diverged.
Proof.
  revert p w. induction r as [|c r IH]; intros p w; [done|]. cbn [reject_each]. rewrite run_try.
  unfold reject_existing_symlink. rewrite run_bind, run_lstat.
  destruct (host (SymlinkMetadata _) w) as [[md|[| |m]] w']; try (destruct (is_symlink md)); try done; apply IH.
Qed.

Lemma guard_converges a b w : (run host (reject_existing_symlink_ancestors a b) w).1 ≠ Err Diverged.
Proof.
  unfold reject_existing_symlink_ancestors. destruct (negb _); [done|]. rewrite run_try. unfold reject_existing_symlink.
  rewrite run_bind, run_lstat. destruct (host (SymlinkMetadata _) w) as [[md|[| |m]] w'];
    try (destruct (is_symlink md)); try done; destruct (strip_prefix_path _ _); try done; apply reject_each_converges.
Qed.

Lemma quiet_ready root store run_id w w' : ready root store run_id w → quiet w w' → ready root store run_id w'.
Proof.
  intros [Hr Hp Hi Hwf Hpr Hc] Hq. pose proof (quiet_clear _ _ store Hq Hc). destruct Hq as (Er & Ee & _ & Hw & _).
  split; [by unfold host_path; rewrite Er|congruence|congruence|auto|done|done].
Qed.

(** The directories above the file. *)
Lemma create_parents w t c action :
  clear (w_fs w) (t ++ [c]) → Forall proper (t ++ [c]) →
  let out := run host (try_io (trigger (CreateDirAll (host_path w t))) (internal_artifact action)) w in
  out.1 ≠ Err Diverged ∧ quiet w out.2 ∧
  ∀ q, w_fs out.2 !! q = w_fs w !! q ∨
    w_fs w !! q = None ∧ w_fs out.2 !! q = Some NDir ∧ q `prefix_of` t ++ [c] ∧ q ≠ t ++ [c].
Proof.
  intros Hc Hp out. subst out. rewrite run_try_io, (run_trigger host (CreateDirAll _)). cbn [snd].
  assert (clear (w_fs w) t) as Hct by (eapply clear_prefix; [done|by eexists]).
  pose proof (settled_host_path w t Hct) as Hset. split_and!.
  - cbn [fst]. destruct (host (CreateDirAll (host_path w t)) w) as [[]]; simpl; intros [=].
  - apply (change_quiet w (CreateDirAll (host_path w t)) (host_path w t) true t); try done. by apply Forall_app in Hp as [? _].
  - intros q. destruct (create_dirs_new w t q Hset) as [E|(E & E' & Hq)]; [by left|right].
    split_and!; [done|done|by apply prefix_app_r|]. intros ->. by eapply not_under_snoc.
Qed.

Lemma artifact_write_spec root store run_id request max_bytes rel ct w :
  ready root store run_id w →
  normalize_artifact_path (aw_path request) = Ok rel → normalize_content_type (aw_content_type request) = Ok ct →
  (Str.len (aw_content request) <= max_bytes)%Z →
  filled_with root rel ct (aw_content request) ((store ++ [run_id]) ++ path_names rel) w
    (run host (write_code_mode_artifact home root request max_bytes) w).
Proof.
  intros Hrd Hrel Hct Hlen. pose proof (normalize_accepted _ _ Hrel) as Hacc. unfold write_code_mode_artifact.
  rewrite Hrel, Hct. cbn [lift_tool map_err try_bind pbind]. rewrite bool_decide_false by lia.
  cbv zeta. set (t := (store ++ [run_id]) ++ path_names rel).
  assert (join_path (components root) (components rel) = host_path w t) as ->
    by (rewrite join_accepted, (ready_root _ _ _ _ Hrd) by done; unfold host_path, t; by rewrite (fmap_app _ _ (path_names rel)), app_assoc).
  assert (Forall proper t) as Hp by (apply Forall_app; split; [exact (ready_proper _ _ _ _ Hrd)|apply path_names_proper]).
  assert (∃ t' c, t = t' ++ [c]) as (t' & c & Et).
  { destruct (exists_last (l:=t)) as (t' & c & E); [|by exists t', c]. unfold t. destruct store; intros [=]. }
  rewrite run_try. destruct (run_guard _ _ _ (path_names rel) _ Hrd) as [Hs1 Hok1]. fold t in Hs1, Hok1.
  pose proof (guard_converges (components root) (host_path w t) w) as Hd1.
  destruct (run host (reject_existing_symlink_ancestors _ _) w) as [[[]|e] w1]; cbn [fst snd is_ok] in *;
    [|split; [by apply same_adds|split; [right; cbn [snd]; by destruct Hs1 as (_ & -> & _)|congruence]]]. specialize (Hok1 eq_refl).
  assert (w_fs w1 = w_fs w) as Hf1 by by destruct Hs1 as (_ & ? & _). rewrite <- Hf1 in Hok1.
  rewrite <- (same_host_path _ _ t Hs1).
  assert (parent (host_path w1 t) = Some (host_path w1 t')) as -> by (rewrite Et; apply parent_host_path). rewrite run_try.
  rewrite Et in Hok1, Hp. destruct (create_parents w1 t' c "create artifact directory" Hok1 Hp) as (Hd2 & Hq2 & Ha2).
  destruct (run host (try_io (trigger (CreateDirAll (host_path w1 t'))) _) w1) as [[[]|e] w2]; cbn [fst snd] in *.
  2: { rewrite Hf1 in Ha2. split; [|split; [|by intros ->]]; cbn [fst snd]; rewrite Et.
       - eapply adds_dirs; [by apply same_quiet in Hs1; eapply quiet_trans|done|by apply same_adds].
       - right. by destruct (Ha2 (t' ++ [c])) as [?|(_ & _ & _ & ?)]. }
  assert (quiet w w2) as Hqw2 by (eapply quiet_trans; [by apply same_quiet|done]).
  pose proof (quiet_ready _ _ _ _ _ Hrd Hqw2) as Hrd2. rewrite Hf1, <- Et in *.
  rewrite run_try. destruct (run_guard _ _ _ (path_names rel) _ Hrd2) as [Hs3 Hok3]. fold t in Hs3, Hok3.
  pose proof (guard_converges (components root) (host_path w2 t) w2) as Hd3.
  assert (host_path w1 t = host_path w2 t) as -> by (unfold host_path; by destruct Hq2 as (-> & _)).
  destruct (run host (reject_existing_symlink_ancestors _ _) w2) as [[[]|e] w3]; cbn [fst snd is_ok] in *.
  2: { split; [eapply adds_dirs; [exact Hqw2|exact Ha2|by apply same_adds]|split; [right|congruence]].
       cbn [snd]. destruct Hs3 as (_ & -> & _). by destruct (Ha2 t) as [?|(_ & _ & _ & ?)]. }
  specialize (Hok3 eq_refl). assert (w_fs w3 = w_fs w2) as Hf3 by by destruct Hs3 as (_ & ? & _).
  assert (quiet w w3) as Hqw3 by (eapply quiet_trans; [done|by apply same_quiet]). rewrite <- Hf3 in Hok3, Ha2.
  rewrite <- (same_host_path _ _ t Hs3). destruct (fill_spec root rel ct (aw_content request) w3 t) as (Ha & Hd & Hr);
    [done|by destruct t as [|? ?]; [destruct t'|]|done|].
  fold (fill root rel ct (aw_content request) (host_path w3 t)). assert (w_fs w3 !! t = w_fs w !! t) as Ew3
    by by destruct (Ha2 t) as [?|(_ & _ & _ & ?)].
  rewrite Ew3 in Hd, Hr. split; [by eapply adds_dirs|by split].
Qed.

(** ** When a write succeeds *)

(** Every entry on the way to [k], and at [k], is a directory or missing. *)
Definition open_way (fs : FS) (k : Key) : Prop := ∀ q, q `prefix_of` k → fs !! q = None ∨ fs !! q = Some NDir.

Lemma open_way_prefix fs k q : open_way fs k → q `prefix_of` k → open_way fs q.
Proof. intros Ho Hq r Hr. apply Ho. by etransitivity. Qed.

Lemma walk_open fs pre k :
  (∀ q, q `prefix_of` k → fs !! (pre ++ q) = None ∨ fs !! (pre ++ q) = Some NDir) →
  walk fs pre k = At (fs !! (pre ++ k)) ∨ walk fs pre k = Missing.
Proof.
  revert pre. induction k as [|c k IH]; intros pre Ho; simpl; [rewrite app_nil_r; by left|].
  pose proof (Ho [] (prefix_nil _)) as H0. rewrite app_nil_r in H0. destruct H0 as [->| ->]; [by right|].
  rewrite (cons_middle c pre k), app_assoc. apply IH. intros q Hq. rewrite <- app_assoc. by apply Ho, prefix_cons.
Qed.

Lemma reject_open w k :
  healthy w → wf (w_fs w) → open_way (w_fs w) k → run host (reject_existing_symlink (host_path w k)) w = (Ok (), w).
Proof.
  intros Hh Hwf Ho. unfold reject_existing_symlink. rewrite run_bind, run_lstat, host_healthy by done. cbn [host_ok].
  unfold at_path, host_path. rewrite key_of_app.
  destruct (walk_open (w_fs w) [] k) as [E|E]; [exact Ho| |]; rewrite E; [|done]. cbn [andb app]. rewrite set_fs_id.
  by destruct (Ho k) as [->| ->].
Qed.

Lemma reject_each_open w k r :
  healthy w → wf (w_fs w) → open_way (w_fs w) (k ++ r) → run host (reject_each (host_path w k) (Normal <$> r)) w = (Ok (), w).
Proof.
  intros Hh Hwf. revert k. induction r as [|c r IH]; intros k Ho; [done|]. rewrite fmap_cons. cbn [reject_each].
  rewrite push_host_path, run_try. rewrite (cons_middle c k r), app_assoc in Ho. rewrite reject_open; [by apply IH|done|done|].
  eapply open_way_prefix; [exact Ho|by eexists].
Qed.

Lemma ancestors_open w d k :
  healthy w → wf (w_fs w) → plain (w_root w) = true → open_way (w_fs w) (d ++ k) →
  run host (reject_existing_symlink_ancestors (host_path w d) (host_path w (d ++ k))) w = (Ok (), w).
Proof.
  intros Hh Hwf Hp Ho. unfold reject_existing_symlink_ancestors. rewrite !normalize_plain by by apply host_path_plain.
  assert (strip_prefix_path (host_path w d) (host_path w (d ++ k)) = Some (Normal <$> k)) as Hst.
  { unfold host_path. rewrite fmap_app, app_assoc. apply strip_prefix_app. }
  unfold starts_with_path. rewrite Hst, bool_decide_true by done. cbn [negb]. rewrite run_try.
  rewrite reject_open; [by apply reject_each_open|done|done|]. eapply open_way_prefix; [exact Ho|by eexists].
Qed.

Lemma mkdirs_open fs pre rest :
  (∀ q, q `prefix_of` rest → fs !! (pre ++ q) = None ∨ fs !! (pre ++ q) = Some NDir) →
  ∃ fs', mkdirs None fs pre rest = (Ok (), fs', false) ∧ ∀ q, q `prefix_of` rest → fs' !! (pre ++ q) = Some NDir.
Proof.
  revert fs pre. induction rest as [|c rest IH]; intros fs pre Ho; cbn [mkdirs];
    pose proof (Ho [] (prefix_nil _)) as H0; rewrite app_nil_r in H0.
  - destruct H0 as [->|E]; [|rewrite E]; (eexists; split; [done|]; intros q ->%prefix_nil_inv; rewrite app_nil_r);
      [by rewrite lookup_insert_eq|done].
  - assert (∀ fs1, fs1 !! pre = Some NDir → (∀ q, q ≠ pre → fs1 !! q = fs !! q) →
      ∃ fs', mkdirs None fs1 (pre ++ [c]) rest = (Ok (), fs', false) ∧
             ∀ q, q `prefix_of` c :: rest → fs' !! (pre ++ q) = Some NDir) as Hn.
    { intros fs1 Hpre Hoth. destruct (IH fs1 (pre ++ [c])) as (fs' & E & Hd).
      - intros q Hq. rewrite <- app_assoc, Hoth; [by apply Ho, prefix_cons|].
        intros E%(f_equal length). rewrite length_app in E. simpl in E. lia.
      - exists fs'. split; [done|]. intros [|x q] Hq.
        + rewrite app_nil_r. destruct (mkdirs_new None fs1 (pre ++ [c]) rest pre) as [E'|(E' & _)]; [|congruence].
          rewrite E in E'. simpl in E'. congruence.
        + pose proof (prefix_cons_inv_1 _ _ _ _ Hq) as ->. rewrite (cons_middle c pre q), app_assoc.
          apply Hd. by eapply prefix_cons_inv_2. }
    destruct H0 as [E|E]; rewrite E.
    + apply Hn; [by rewrite lookup_insert_eq|]. intros q Hq. by rewrite lookup_insert_ne.
    + by apply Hn.
Qed.

Lemma fill_open root rel ct content w t c :
  healthy w → wf (w_fs w) → w_fs w !! t = Some NDir → w_fs w !! (t ++ [c]) = None → Forall proper (t ++ [c]) → spelling rel = Plain →
  is_ok (run host (fill root rel ct content (host_path w (t ++ [c]))) w).1 = true.
Proof.
  intros Hh Hwf Ht Hn Hp Hs. unfold fill, open_new. rewrite Hs, run_try, run_try_io, (run_trigger host (CreateNew _)).
  assert (walk (w_fs w) [] (t ++ [c]) = At None) as Hw.
  { pose proof (wf_walk (w_fs w) t Hwf) as Hwt. rewrite Ht in Hwt. rewrite (walk_app _ _ _ c (Hwt ltac:(done))). by rewrite app_nil_l, Hn. }
  set (w1 := set_fs (<[t ++ [c] := NFile ""]> (w_fs w)) w).
  assert (host (CreateNew (host_path w (t ++ [c]))) w = (Ok (), w1)) as ->.
  { rewrite host_healthy by done. cbn [host_ok]. unfold at_path, host_path. by rewrite key_of_app, Hw. }
  assert (healthy w1) as Hh1 by done.
  assert (walk (w_fs w1) [] (t ++ [c]) = At (Some (NFile ""))) as Hw1.
  { assert (w_fs w1 !! (t ++ [c]) = Some (NFile "")) as E by apply lookup_insert_eq.
    rewrite wf_walk, E; [done|by apply (wf_insert _ _ None)|by rewrite E]. }
  cbn [fst snd map_err]. rewrite run_try, run_try_io, (run_trigger host (WriteAll _ _)). change (host_path w) with (host_path w1).
  assert (∃ w2, host (WriteAll (host_path w1 (t ++ [c])) content) w1 = (Ok (), w2) ∧ healthy w2) as (w2 & -> & Hh2).
  { rewrite host_healthy by done. cbn [host_ok]. unfold at_path, host_path. rewrite key_of_app, Hw1.
    rewrite bool_decide_false by done. by eexists. }
  cbn [fst snd map_err]. rewrite run_try, run_try_io, (run_trigger host (Flush _)). by rewrite !host_healthy by done.
Qed.

Lemma write_open root store run_id request max_bytes rel ct w :
  ready root store run_id w → healthy w →
  normalize_artifact_path (aw_path request) = Ok rel → spelling rel = Plain →
  normalize_content_type (aw_content_type request) = Ok ct →
  (Str.len (aw_content request) <= max_bytes)%Z →
  open_way (w_fs w) ((store ++ [run_id]) ++ path_names rel) → w_fs w !! ((store ++ [run_id]) ++ path_names rel) = None →
  is_ok (run host (write_code_mode_artifact home root request max_bytes) w).1 = true.
Proof.
  intros Hrd Hh Hrel Hs Hct Hlen Ho Hnone. pose proof (normalize_accepted _ _ Hrel) as Hacc.
  pose proof Hrd as [Hroot Hplain _ Hwf Hpr _]. unfold write_code_mode_artifact.
  rewrite Hrel, Hct. cbn [lift_tool map_err try_bind pbind]. rewrite bool_decide_false by lia. cbv zeta.
  assert (Forall proper ((store ++ [run_id]) ++ path_names rel)) as Hp by (apply Forall_app; split; [done|apply path_names_proper]).
  assert (join_path (components root) (components rel) = host_path w ((store ++ [run_id]) ++ path_names rel)) as ->
    by (rewrite join_accepted, Hroot by done; unfold host_path; by rewrite (fmap_app _ _ (path_names rel)), app_assoc).
  rewrite Hroot, run_try, ancestors_open by done.
  destruct (exists_last (l:=path_names rel)) as (k' & c & Ek); [by apply plain_names|].
  remember (store ++ [run_id]) as d eqn:Ed. rewrite Ek, app_assoc in *. rewrite parent_host_path, run_try, run_try_io.
  rewrite (run_trigger host (CreateDirAll _)).
  assert (open_way (w_fs w) (d ++ k')) as Ho' by (eapply open_way_prefix; [exact Ho|by eexists]).
  pose proof (mkdirs_wf None (w_fs w) (d ++ k')) as Hwf'. pose proof (mkdirs_new None (w_fs w) [] (d ++ k')) as Hnew.
  destruct (mkdirs_open (w_fs w) [] (d ++ k') Ho') as (fs' & E & Hd). rewrite E in *. set (w2 := set_fs fs' w).
  assert (host (CreateDirAll (host_path w (d ++ k'))) w = (Ok (), w2)) as ->
    by (rewrite host_healthy by done; cbn [host_ok]; unfold host_path; by rewrite key_of_app, E).
  cbn [fst snd map_err] in *. assert (healthy w2) as Hh2 by done.
  assert (wf (w_fs w2)) as Hwf2 by (apply Hwf'; [by apply Forall_app in Hp as [? _]|done]).
  assert (w_fs w2 !! ((d ++ k') ++ [c]) = None) as Hn2.
  { destruct (Hnew ((d ++ k') ++ [c])) as [E'|(_ & _ & Hpre)]; [simpl; congruence|]. by apply not_under_snoc in Hpre. }
  rewrite run_try. change (host_path w) with (host_path w2). rewrite <- app_assoc, ancestors_open; [|done|done|done|].
  - rewrite app_assoc. apply (fill_open root rel ct (aw_content request) w2 (d ++ k') c); try done. by apply (Hd (d ++ k')).
  - rewrite app_assoc. intros q [r Hq]. destruct r as [|x r _] using rev_ind.
    + rewrite app_nil_r in Hq. subst q. by left.
    + rewrite app_assoc in Hq. apply app_inj_tail in Hq as [Hq _]. right. apply (Hd q). by exists r.
Qed.
End Write.

(** When a write fails before it looks at the file system, nothing happens. *)
Lemma write_refused `{CodePlatform} home root request max_bytes w :
  (∃ rel ct, normalize_artifact_path (aw_path request) = Ok rel ∧ normalize_content_type (aw_content_type request) = Ok ct ∧
     (Str.len (aw_content request) <= max_bytes)%Z) ∨
  ∃ e, run host (write_code_mode_artifact home root request max_bytes) w = (Err e, w).
Proof.
  unfold write_code_mode_artifact. destruct (normalize_artifact_path _) as [rel|e]; [|right; by eexists].
  destruct (normalize_content_type _) as [ct|e]; [|right; by eexists]. cbn [lift_tool map_err try_bind pbind].
  case_bool_decide; [right; by eexists|left]. exists rel, ct. split_and!; [done|done|lia].
Qed.

(** (C26) [write_code_mode_artifact], in any directory tree and whichever file
    system calls fail: no path is resolved through a link or outside the tree,
    no entry that exists is changed, and what is new is directories on the way
    to and below the directory of the run, and one file strictly below it with
    a part of the content.  When a receipt is returned the file did not exist,
    holds exactly the content, and the receipt has the normalised path, the
    checked content type, the length and the digest of that content.  When no
    call fails, a path that is accepted and not spelled as a directory's,
    whose directories are missing or directories and whose last entry is
    missing, is written. *)
Theorem artifact_write_exact `{CodePlatform} home root store run_id request max_bytes w :
  ready root store run_id w →
  let out := run host (write_code_mode_artifact home root request max_bytes) w in
  let d := store ++ [run_id] in
  let content := aw_content request in
  w_escaped out.2 = false ∧ wf (w_fs out.2) ∧
  (∀ q n, w_fs w !! q = Some n → w_fs out.2 !! q = Some n) ∧
  (∀ q n, w_fs w !! q = None → w_fs out.2 !! q = Some n →
     n = NDir ∧ (under d q ∨ q `prefix_of` store) ∨ under d q ∧ q ≠ d ∧ ∃ m, n = NFile (Str.take m content)) ∧
  (∀ receipt, out.1 = Ok receipt → ∃ rel ct,
     normalize_artifact_path (aw_path request) = Ok rel ∧ normalize_content_type (aw_content_type request) = Ok ct ∧
     (Str.len content <= max_bytes)%Z ∧
     w_fs w !! (d ++ path_names rel) = None ∧ w_fs out.2 !! (d ++ path_names rel) = Some (NFile content) ∧
     receipt = mkReceipt rel (redact_home home (join_text root rel)) ct (Str.len content) (sha256_hex content)) ∧
  (healthy w → ∀ rel, normalize_artifact_path (aw_path request) = Ok rel → spelling rel = Plain →
     is_ok (normalize_content_type (aw_content_type request)) = true → (Str.len content <= max_bytes)%Z →
     open_way (w_fs w) (d ++ path_names rel) → w_fs w !! (d ++ path_names rel) = None → is_ok out.1 = true).
Proof.
  intros Hrd out d content. pose proof (ready_inside _ _ _ _ Hrd) as Hi. pose proof (ready_wf _ _ _ _ Hrd) as Hwf.
  destruct (write_refused home root request max_bytes w) as [(rel & ct & Hrel & Hct & Hlen)|[e He]].
  2: { subst out. rewrite He. cbn [fst snd]. split_and!; [done..|congruence|done|]. intros Hh rel Hrel Hs Hct Hlen Ho Hn.
       destruct (normalize_content_type _) as [ct|] eqn:Ect; [|done].
       pose proof (write_open home root store run_id request max_bytes rel ct w) as Hw. rewrite He in Hw. by apply Hw. }
  destruct (artifact_write_spec home root store run_id request max_bytes rel ct w Hrd Hrel Hct Hlen) as ((Hq & Ha) & Hd & Hr).
  fold out in Hq, Ha, Hd, Hr. fold d in Ha, Hd, Hr. split_and!.
  - destruct Hq as (_ & -> & _). done.
  - destruct Hq as (_ & _ & _ & Hw & _). auto.
  - intros q n Hn. destruct (Ha q) as [->|(E & _)]; [done|congruence].
  - intros q n Hn Hn'. destruct (Ha q) as [E|(_ & [(E & Hpre & Hne)|(-> & m & E)])]; [congruence| |].
    + left. split; [congruence|]. subst d. destruct (decide (under (store ++ [run_id]) q)) as [|Hu]; [by left|right].
      destruct Hpre as [r Hr']. rewrite <- app_assoc in Hr'. apply app_eq_inv in Hr' as [(k & -> & Hk)|(k & -> & Hk)]; [by exists k|].
      destruct k as [|c k]; [rewrite app_nil_r; done|]. simpl in Hk. injection Hk as <- _. destruct Hu. exists k. by rewrite <- app_assoc.
    + right. split; [by eexists|]. split; [|exists m; by rewrite Hn' in E; injection E]. destruct Hd as [Hs|E']; [|by rewrite E' in Hn'; rewrite Hn in Hn'].
      intros E0. apply (plain_names rel); [by eapply normalize_accepted|done|]. apply (app_inv_head d). by rewrite app_nil_r.
  - intros receipt E. rewrite E in Hr. destruct Hr as (_ & Hn & Hf & ->). exists rel, ct. by split_and!.
  - intros Hh rel' Hrel' Hs _ Hlen' Ho Hn. by apply (write_open home root store run_id request max_bytes rel' ct w).
Qed.

#[local] Existing Instance sample_code_platform.

Lemma sample_store_wf : wf (w_fs (sample_world [(["code-mode-artifacts"], NDir)])).
Proof.
  change (w_fs _) with (<[[] := NDir]> (<[["code-mode-artifacts"] := NDir]> ∅) : FS). split_and!; [done| |].
  - intros k c. rewrite !lookup_insert, lookup_empty. destruct k as [|x [|y k]]; [done|..];
      repeat case_decide; try done; by intros [].
  - intros k. rewrite !lookup_insert, lookup_empty. repeat case_decide; subst; [constructor| |by intros []].
    intros _. constructor; [by vm_compute|constructor].
Qed.

Lemma sample_store_ready :
  ready "/ws/code-mode-artifacts/01RUN" ["code-mode-artifacts"] "01RUN" (sample_world [(["code-mode-artifacts"], NDir)]).
Proof.
  split; [by vm_compute|by vm_compute|done|apply sample_store_wf|repeat constructor; by vm_compute|].
  intros q Hq. destruct q as [|x [|y q]]; [by vm_compute| |].
  - apply prefix_cons_inv_1 in Hq as ->. by vm_compute.
  - by apply prefix_cons_inv_2, prefix_nil_inv in Hq.
Qed.

Definition sample_request (path : string) : CodeModeArtifactWrite := mkArtifactWrite path "{}" (Some " application/json ").

(** A backslash separates names; the artifact lands below the run. *)
Lemma artifact_write_exact_witness :
  let w := sample_world [(["code-mode-artifacts"], NDir)] in
  let out := run host (write_code_mode_artifact (Some "/ws/") "/ws/code-mode-artifacts/01RUN" (sample_request "out\a.json") 8) w in
  w_fs out.2 !! ["code-mode-artifacts"; "01RUN"; "out"; "a.json"] = Some (NFile "{}") ∧
  (rc_absolute_path <$> match out.1 with Ok r => Some r | _ => None end) = Some "~/code-mode-artifacts/01RUN/out/a.json" ∧
  ∀ q n, w_fs w !! q = Some n → w_fs out.2 !! q = Some n.
Proof.
  destruct (artifact_write_exact (Some "/ws/") _ _ _ (sample_request "out\a.json") 8 _ sample_store_ready) as (_ & _ & Hk & _).
  split_and!; [by vm_compute|by vm_compute|exact Hk].
Defined.

(** The refusals: an entry that exists, a path spelled as a directory's, a path
    out of the run, an oversized content. *)
Example artifact_write_errors :
  let w := sample_world [(["code-mode-artifacts"], NDir); (["code-mode-artifacts"; "01RUN"], NDir);
                         (["code-mode-artifacts"; "01RUN"; "a"], NFile "x")] in
  let kind path max := match (run host (write_code_mode_artifact None "/ws/code-mode-artifacts/01RUN" (sample_request path) max) w).1 with
                       | Err e => Some (err_kind e) | Ok _ => None end in
  kind "a" 8%Z = Some "invalid_param" ∧ kind "a/b" 8%Z = Some "internal_error" ∧ kind "b/" 8%Z = Some "internal_error" ∧
  kind "." 8%Z = Some "invalid_param" ∧ kind "b\..\..\c" 8%Z = Some "path_traversal" ∧ kind "C:b" 8%Z = Some "invalid_param" ∧
  kind "b" 1%Z = Some "invalid_param" ∧ kind "b" 2%Z = None.
Proof. by vm_compute. Qed.
