(* ===== verification/ArtifactPrune.v ===== *)
(** * ArtifactPrune: the store of artifacts and the executions that share it

    The reference definition says of a run, from the tree alone, whether it is
    overdue: too many newer runs, or too many bytes in it and the newer ones.
    [prune_artifact_runs_in] removes overdue runs that are not active and
    nothing else, whichever calls fail; when none fails it removes all of them,
    and what is left is within the limits.  The executions of one process share
    the store: each registers itself, writes artifacts, and prunes the store
    with a snapshot of the running executions taken beforehand. *)

From Stdlib Require Import Ascii.
From stdpp Require Import base list gmap strings pretty sorting.
From S2P Require Import Prelude RustStr BTree Prog AuthTypes WebPlatform Paths Fs FsProps Workspace WorkspaceBatch WorkspaceSafe WorkspaceWrite WorkspaceUsage RunnerDrive Artifacts.

(** ** Totals over lists with the same elements *)

#[global] Instance tot_Permutation {A} (f : A → Z) : Proper ((≡ₚ) ==> (=)) (tot f).
Proof. induction 1; rewrite ?tot_cons; lia. Qed.

Lemma tot_subset {A} `{EqDecision A} (f : A → Z) l l' :
  (∀ x, 0 <= f x)%Z → NoDup l → l ⊆ l' → (tot f l <= tot f l')%Z.
Proof.
  intros Hf Hn Hs. apply NoDup_submseteq in Hs; [|done]. apply submseteq_Permutation in Hs as [k ->].
  rewrite tot_app. pose proof (tot_nonneg f k Hf). lia.
Qed.

Lemma tot_le {A} (f g : A → Z) l : (∀ x, x ∈ l → f x <= g x)%Z → (tot f l <= tot g l)%Z.
Proof.
  induction l as [|x l IH]; intros Hf; rewrite ?tot_cons; [done|]. specialize (Hf x ltac:(by left)) as Hx.
  assert (tot f l <= tot g l)%Z; [apply IH; intros y Hy; apply Hf; by right|lia].
Qed.

(** ** The order of run names *)

Definition newer (a b : string) : Prop := String.compare b a = Lt.
#[global] Instance newer_dec a b : Decision (newer a b).
Proof. unfold newer. apply _. Defined.

Lemma newer_trans a b c : newer a b → newer b c → newer a c.
Proof. unfold newer. intros H1 H2. by eapply string_lt_trans. Qed.
Lemma newer_irrefl a : ¬ newer a a.
Proof. unfold newer. intros E. pose proof (String.compare_antisym a a) as Ha. by rewrite E in Ha. Qed.
Lemma newer_total a b : a = b ∨ newer a b ∨ newer b a.
Proof.
  unfold newer. destruct (String.compare b a) eqn:E; [left; symmetry; by apply String.compare_eq_iff|auto|].
  right. right. by apply BTreeSet.compare_Gt.
Qed.

(** The sort of the sources. *)
Lemma insert_by_Permutation {A} (key : A → string) x l : insert_by key x l ≡ₚ x :: l.
Proof.
  induction l as [|y l IH]; simpl; [done|]. destruct (String.compare _ _); [done..|]. rewrite IH. by constructor.
Qed.
Lemma sort_by_Permutation {A} (key : A → string) l : sort_by key l ≡ₚ l.
Proof. induction l as [|x l IH]; simpl; [done|]. by rewrite insert_by_Permutation, IH. Qed.

Lemma insert_ordered x l : StronglySorted (flip newer) l → x ∉ l → StronglySorted (flip newer) (insert_by id x l).
Proof.
  induction 1 as [|y l Hl IH Hy]; intros Hx; simpl; [repeat constructor|].
  destruct (String.compare x y) eqn:E.
  - apply String.compare_eq_iff in E as ->. set_solver.
  - constructor; [by constructor|]. constructor; [done|]. eapply Forall_impl; [exact Hy|]. intros z Hz. by eapply newer_trans.
  - constructor; [apply IH; set_solver|]. rewrite insert_by_Permutation. constructor; [|done]. by apply BTreeSet.compare_Gt.
Qed.
Lemma sort_ordered l : NoDup l → StronglySorted (flip newer) (sort_strings l).
Proof.
  induction 1 as [|x l Hx Hl IH]; [constructor|]. unfold sort_strings in *.
  change (sort_by id (x :: l)) with (insert_by id x (sort_by id l)). apply insert_ordered; [done|]. by rewrite sort_by_Permutation.
Qed.

Lemma StronglySorted_reverse {A} (R : A → A → Prop) l : StronglySorted R l → StronglySorted (flip R) (reverse l).
Proof.
  induction 1 as [|x l Hl IH Hx]; [constructor|]. rewrite reverse_cons.
  assert (Forall (fun y => R x y) (reverse l)) as Hr by by rewrite reverse_Permutation.
  clear Hx Hl. induction IH as [|y k Hk IH' Hy]; simpl; [repeat constructor|].
  apply Forall_cons in Hr as [Hxy Hr]. constructor; [by apply IH'|]. apply Forall_app. split; [done|]. by constructor.
Qed.

Lemma newest_first_ordered l : NoDup l → StronglySorted newer (reverse (sort_strings l)).
Proof. intros Hl. by apply (StronglySorted_reverse (flip newer)), sort_ordered. Qed.

(** ** The decision loop *)

Lemma sat_sat_add a b : (0 <= a)%Z → (0 <= b)%Z → u64_saturating_add (sat a) (sat b) = sat (a + b).
Proof. unfold u64_saturating_add, sat, u64_max. lia. Qed.
Lemma sat_mono a b : (a <= b)%Z → (sat a <= sat b)%Z.
Proof. unfold sat. lia. Qed.
Lemma sat_nonneg a : (0 <= a)%Z → (0 <= sat a)%Z.
Proof. unfold sat, u64_max. lia. Qed.
Lemma sat_add_sat a b : (0 <= a)%Z → (0 <= b)%Z → sat (a + sat b) = sat (a + b).
Proof. unfold sat, u64_max. lia. Qed.

Lemma to_remove_spec retain max active n L : ∀ idx c cum,
  Forall (fun p => 0 <= p.2)%Z L → (0 <= c)%Z → ((0 < max)%Z → cum = sat c) →
  n ∈ to_remove retain max active idx cum L ↔
  ∃ pre s post, L = pre ++ (n, s) :: post ∧ n ∉ active ∧
    ((0 < retain)%Z ∧ (retain <= idx + Z.of_nat (length pre))%Z ∨ (0 < max)%Z ∧ (max < sat (c + tot snd pre + s))%Z).
Proof.
  induction L as [|[m s] L IH]; intros idx c cum HL Hc Hcum; cbn [to_remove].
  { split; [by intros ?%elem_of_nil|]. intros (pre & ? & ? & E & _). by destruct pre. }
  apply Forall_cons in HL as [Hs HL]. cbn [snd] in Hs. cbv zeta.
  set (cum' := if bool_decide (0 < max)%Z then u64_saturating_add cum s else cum).
  assert ((0 < max)%Z → cum' = sat (c + s)) as Hcum'.
  { intros Hm. subst cum'. rewrite bool_decide_true by done. rewrite (Hcum Hm). by apply sat_add. }
  specialize (IH (idx + 1)%Z (c + s)%Z cum' HL ltac:(lia) Hcum').
  set (others := to_remove retain max active (idx + 1) cum' L) in *.
  set (out := (0 < retain)%Z ∧ (retain <= idx)%Z ∨ (0 < max)%Z ∧ (max < sat (c + s))%Z).
  assert ((negb (bool_decide (0 < retain)%Z) || bool_decide (idx < retain)%Z) &&
          (negb (bool_decide (0 < max)%Z) || bool_decide (cum' <= max)%Z) = true ↔ ¬ out) as Hw.
  { rewrite andb_true_iff, !orb_true_iff, !negb_true_iff, !bool_decide_eq_true, !bool_decide_eq_false. subst out.
    destruct (decide (0 < max)%Z) as [Hm|Hm]; [rewrite (Hcum' Hm)|]; lia. }
  assert (n ∈ others ↔ ∃ pre s' post, (m, s) :: L = ((m, s) :: pre) ++ (n, s') :: post ∧ n ∉ active ∧
    ((0 < retain)%Z ∧ (retain <= idx + Z.of_nat (length ((m, s) :: pre)))%Z ∨
     (0 < max)%Z ∧ (max < sat (c + tot snd ((m, s) :: pre) + s'))%Z)) as Ho.
  { rewrite IH. split; intros (pre & s' & post & E & Ha & Hout); exists pre, s', post;
      (split; [by first [rewrite E|injection E]|split; [done|]]); cbn [length] in *; rewrite ?tot_cons in *; cbn [snd] in *;
      (destruct Hout as [[? ?]|[? ?]]; [left|right]; (split; [done|])); try lia;
      match goal with H : (max < sat ?x)%Z |- (max < sat ?y)%Z => replace y with x by lia end; done. }
  assert (n ∈ (if (negb (bool_decide (0 < retain)%Z) || bool_decide (idx < retain)%Z) &&
          (negb (bool_decide (0 < max)%Z) || bool_decide (cum' <= max)%Z) then others
        else if bool_decide (m ∈ active) then others else m :: others) ↔ n ∈ others ∨ (n = m ∧ n ∉ active ∧ out)) as ->.
  { destruct (_ && _); [assert (¬ out) by (by apply Hw); tauto|].
    assert (Decision out) as Hdec by (subst out; apply _). destruct (decide out) as [Hout|Hn]; [|apply Hw in Hn; done].
    case_bool_decide; [split; [tauto|intros [|(-> & ? & _)]; done]|]. rewrite elem_of_cons. split; [intros [->|?]; tauto|tauto]. }
  rewrite Ho. split.
  - intros [(pre & s' & post & H)|(-> & Ha & Hout)]; [by exists ((m, s) :: pre), s', post|].
    exists [], s, L. split; [done|split; [done|]]. cbn. rewrite !Z.add_0_r. exact Hout.
  - intros (pre & s' & post & E & Ha & Hout). destruct pre as [|p pre].
    + injection E as -> -> ->. right. cbn in Hout. rewrite !Z.add_0_r in Hout. done.
    + left. injection E as <- E. exists pre, s', post. by rewrite E.
Qed.

(** ** The reference: overdue runs *)

Section Prune.
Context `{UlidPlatform}.

(** Directories of the store with the name of a run. *)
Definition is_run (fs : FS) (store : Key) (n : string) : bool :=
  bool_decide (fs !! (store ++ [n]) = Some NDir) && (from_utf8_ok n && ulid_from_string_ok n).
Definition runs (fs : FS) (store : Key) : list string := filter (fun n => is_run fs store n = true) (children fs store).
Definition run_bytes (fs : FS) (store : Key) (n : string) : Z := below node_bytes fs (store ++ [n]).

Definition count_newer (l : list string) (n : string) : Z := tot (fun m => if decide (newer m n) then 1 else 0)%Z l.
Definition bytes_from (size : string → Z) (l : list string) (n : string) : Z :=
  tot (fun m => if decide (m = n ∨ newer m n) then size m else 0%Z) l.

Definition overdue (retain max_store_bytes : Z) (fs : FS) (store : Key) (n : string) : Prop :=
  n ∈ runs fs store ∧
  ((0 < retain)%Z ∧ (retain <= count_newer (runs fs store) n)%Z ∨
   (0 < max_store_bytes)%Z ∧ (max_store_bytes < sat (bytes_from (run_bytes fs store) (runs fs store) n))%Z).

Lemma runs_NoDup fs store : NoDup (runs fs store).
Proof. apply NoDup_filter, NoDup_children. Qed.
Lemma elem_runs fs store n : n ∈ runs fs store ↔ is_run fs store n = true.
Proof.
  unfold runs. rewrite list_elem_of_filter, elem_children. split; [by intros []|]. intros Hr. split; [done|].
  unfold is_run in Hr. apply andb_true_iff in Hr as [Hr%bool_decide_eq_true _]. by rewrite Hr.
Qed.
Lemma run_bytes_nonneg fs store n : (0 <= run_bytes fs store n)%Z.
Proof. apply tot_nonneg. intros [k nd]. case_decide; [apply node_bytes_nonneg|lia]. Qed.

(** In a newest-first list the runs before [n] are the newer ones. *)
Lemma count_newer_split pre n post :
  StronglySorted newer (pre ++ n :: post) → count_newer (pre ++ n :: post) n = Z.of_nat (length pre).
Proof.
  unfold count_newer. intros Hs. induction pre as [|m pre IH]; simpl app in *.
  - rewrite tot_cons, decide_False by apply newer_irrefl. apply StronglySorted_inv in Hs as [_ Hp].
    rewrite tot_none; [done|]. intros m Hm. rewrite Forall_forall in Hp. specialize (Hp m Hm).
    rewrite decide_False; [done|]. intros Hmn. by eapply newer_irrefl, newer_trans.
  - apply StronglySorted_inv in Hs as [Hs Hm]. rewrite tot_cons, IH by done. rewrite Forall_forall in Hm.
    rewrite decide_True by (apply Hm; set_solver). cbn [length]. lia.
Qed.
Lemma bytes_from_split size pre n post :
  StronglySorted newer (pre ++ n :: post) → bytes_from size (pre ++ n :: post) n = (tot size pre + size n)%Z.
Proof.
  unfold bytes_from. intros Hs. induction pre as [|m pre IH]; simpl app in *.
  - rewrite tot_cons, decide_True by by left. apply StronglySorted_inv in Hs as [_ Hp].
    rewrite tot_none; [cbn; lia|]. intros m Hm. rewrite Forall_forall in Hp. specialize (Hp m Hm).
    rewrite decide_False; [done|]. intros [->|Hmn]; [by eapply newer_irrefl|by eapply newer_irrefl, newer_trans].
  - apply StronglySorted_inv in Hs as [Hs Hm]. rewrite tot_cons, IH by done. rewrite Forall_forall in Hm.
    rewrite decide_True by (right; apply Hm; set_solver). rewrite tot_cons. lia.
Qed.

(** A measure that is exact, or at most the true value. *)
Definition upto (exact : bool) (a b : Z) : Prop := (a <= b)%Z ∧ (exact = true → a = b).

Lemma tot_upto {A} exact (f g : A → Z) l : (∀ x, x ∈ l → upto exact (f x) (g x)) → upto exact (tot f l) (tot g l).
Proof.
  intros Hf. split; [apply tot_le; intros x Hx; by apply Hf|]. intros He. apply tot_ext. intros x Hx. by apply (Hf x Hx).
Qed.

Lemma sat_tot_sat {A} (f : A → Z) l c : (0 <= c)%Z → (∀ x, 0 <= f x)%Z → sat (c + tot (fun x => sat (f x)) l) = sat (c + tot f l).
Proof.
  intros Hc Hf. revert c Hc. induction l as [|x l IH]; intros c Hc; [done|]. rewrite !tot_cons.
  pose proof (sat_nonneg _ (Hf x)). pose proof (tot_nonneg f l Hf). pose proof (Hf x).
  rewrite Z.add_assoc, IH by lia. replace (c + sat (f x) + tot f l)%Z with (c + tot f l + sat (f x))%Z by lia.
  rewrite sat_add_sat by lia. f_equal. lia.
Qed.

Lemma tot_fmap {A B} (f : B → Z) (g : A → B) l : tot f (g <$> l) = tot (fun x => f (g x)) l.
Proof. induction l as [|x l IH]; [done|]. rewrite fmap_cons, !tot_cons. by rewrite IH. Qed.

(** The position of a run in the list, and the measured bytes up to it. *)
Lemma measured_position exact fs store pre (n : string) s post :
  StronglySorted newer (pre ++ (n, s) :: post).*1 →
  (∀ m s', (m, s') ∈ pre ++ [(n, s)] → upto exact s' (sat (run_bytes fs store m))) →
  upto exact (sat (0 + tot snd pre + s)) (sat (bytes_from (run_bytes fs store) (pre ++ (n, s) :: post).*1 n)).
Proof.
  intros Hs Hsz. rewrite fmap_app, fmap_cons in *. cbn [fst] in *. rewrite bytes_from_split by done.
  assert (upto exact (tot snd (pre ++ [(n, s)])) (tot (fun p => sat (run_bytes fs store p.1)) (pre ++ [(n, s)]))) as [Hle Heq].
  { apply tot_upto. intros [m s'] Hin. by apply Hsz. }
  assert (sat (0 + tot (fun p => sat (run_bytes fs store p.1)) (pre ++ [(n, s)]))
    = sat (tot (run_bytes fs store) pre.*1 + run_bytes fs store n)) as <-.
  { rewrite (sat_tot_sat (fun p => run_bytes fs store p.1)) by (try lia; intros; apply run_bytes_nonneg).
    f_equal. rewrite tot_app, tot_fmap. cbn. lia. }
  rewrite !tot_app in *. cbn in *. split; [apply sat_mono; lia|]. intros He. f_equal. specialize (Heq He). lia.
Qed.

Lemma sorted_NoDup l : StronglySorted newer l → NoDup l.
Proof.
  induction 1 as [|x l _ IH Hx]; constructor; [|done]. intros Hin. rewrite Forall_forall in Hx. by eapply newer_irrefl, Hx.
Qed.

(** What the loop removes is overdue; with everything enumerated and measured,
    it is everything overdue that is not active. *)
Lemma to_remove_overdue exact retain max active fs store L n :
  StronglySorted newer L.*1 → L.*1 ⊆ runs fs store → (exact = true → L.*1 ≡ₚ runs fs store) →
  (∀ m s, (m, s) ∈ L → (0 <= s)%Z ∧ ((0 < max)%Z → upto exact s (sat (run_bytes fs store m)))) →
  (n ∈ to_remove retain max active 0 0 L → overdue retain max fs store n ∧ n ∉ active) ∧
  (exact = true → overdue retain max fs store n → n ∉ active → n ∈ to_remove retain max active 0 0 L).
Proof.
  intros Hs Hsub Hex Hsz. pose proof (sorted_NoDup _ Hs) as Hnd.
  assert (Forall (fun p : string * Z => 0 <= p.2)%Z L) as Hnn by (apply Forall_forall; intros [m s] Hm; by apply (Hsz m s)).
  rewrite (to_remove_spec retain max active n L 0 0 0 Hnn) by done.
  assert (∀ pre s post, L = pre ++ (n, s) :: post → Z.of_nat (length pre) = count_newer L.*1 n ∧
    ((0 < max)%Z → upto exact (sat (0 + tot snd pre + s)) (sat (bytes_from (run_bytes fs store) L.*1 n)))) as Hval.
  { intros pre s post ->. split; [|intros Hm; apply measured_position; [done|]; intros m s' Hin; apply Hsz; [set_solver|done]].
    rewrite fmap_app, fmap_cons in *. by rewrite count_newer_split, length_fmap by done. }
  split.
  - intros (pre & s & post & E & Ha & Hout). destruct (Hval pre s post E) as [Hc Hb].
    split; [|done]. split; [apply Hsub; rewrite E, fmap_app; set_solver|].
    assert (count_newer L.*1 n <= count_newer (runs fs store) n)%Z as Hcn by (apply tot_subset; [intros; case_decide; lia|done..]).
    assert (bytes_from (run_bytes fs store) L.*1 n <= bytes_from (run_bytes fs store) (runs fs store) n)%Z as Hbf%sat_mono.
    { apply tot_subset; [|done|done]. intros. case_decide; [apply run_bytes_nonneg|lia]. }
    destruct Hout as [[? ?]|[Hm ?]]; [left; split; [done|lia]|right; split; [done|]]. destruct (Hb Hm) as [? _]. lia.
  - intros He [Hin Hout] Ha. specialize (Hex He).
    assert (n ∈ L.*1) as Hin' by by rewrite Hex. apply list_elem_of_fmap in Hin' as ([n' s] & -> & HinL).
    apply list_elem_of_split in HinL as (pre & post & E). exists pre, s, post. split; [done|split; [done|]]. cbn [fst] in *.
    destruct (Hval pre s post E) as [Hc Hb]. unfold count_newer, bytes_from in *. rewrite Hex in Hc, Hb.
    destruct Hout as [[? ?]|[Hm ?]]; [left; split; [done|lia]|right; split; [done|]]. destruct (Hb Hm) as [_ Hb']. rewrite (Hb' He). lia.
Qed.

(** ** Looking at the tree *)

Definition flag (exact : bool) (w : World) : Prop := exact = true → healthy w.

Lemma flag_host exact e w : flag exact w → flag exact (host e w).2.
Proof. intros Hf He. specialize (Hf He). rewrite host_healthy by done. unfold healthy. by rewrite host_ok_faults. Qed.

Lemma metadata_same w w' n : same w w' → metadata_of w' n = metadata_of w n.
Proof. intros (_ & _ & _ & Hd & _). unfold metadata_of. by rewrite Hd. Qed.

Lemma lstat_answer exact w k c n :
  flag exact w → wf (w_fs w) → clear (w_fs w) k → w_fs w !! (k ++ [c]) = Some n →
  ∃ r w', host (SymlinkMetadata (host_path w (k ++ [c]))) w = (r, w') ∧ same w w' ∧ flag exact w' ∧
    (r = Ok (metadata_of w n) ∨ exact = false ∧ ∃ e, r = Err e).
Proof.
  intros Hf Hwf Hk Hn. pose proof (flag_host exact (SymlinkMetadata (host_path w (k ++ [c]))) w Hf) as Hf'.
  pose proof (inside_host_path w k c Hk) as Hi. destruct (lstat_reads w _ _ Hwf Hi) as [Hs _].
  destruct (host (SymlinkMetadata (host_path w (k ++ [c]))) w) as [r w'] eqn:E. exists r, w'. split_and!; try done.
  assert (∀ w1, same w w1 → host_ok (SymlinkMetadata (host_path w (k ++ [c]))) w1 = (Ok (metadata_of w n), w1)) as Hok.
  { intros w1 Hs1. cbn [host_ok]. unfold at_path. apply (same_inside _ _ _ _ Hs1) in Hi. rewrite (inside_key _ _ _ Hi).
    pose proof Hs1 as (_ & Hfs & _). rewrite Hfs, wf_walk, Hn by (done || by rewrite Hn). cbn [andb lookup_metadata].
    rewrite (metadata_same w w1) by done. by rewrite <- Hfs, set_fs_id. }
  destruct exact.
  - left. rewrite host_healthy, Hok in E by auto using same_refl. congruence.
  - destruct (host_cases (SymlinkMetadata (host_path w (k ++ [c]))) w) as (w1 & Hs1 & [Hh|(m & Hh)]); rewrite E in Hh.
    + rewrite Hok in Hh by done. left. congruence.
    + right. split; [done|]. eexists. by injection Hh as -> _.
Qed.

Lemma read_dir_answer exact w k :
  flag exact w → wf (w_fs w) → clear (w_fs w) k → w_fs w !! k = Some NDir →
  ∃ r w', host (ReadDir (host_path w k)) w = (r, w') ∧ same w w' ∧ flag exact w' ∧
    (r = Ok (Ok <$> children (w_fs w) k) ∨
     exact = false ∧ ((∃ e, r = Err e) ∨ ∃ n e, r = Ok ((Ok <$> take n (children (w_fs w) k)) ++ [Err e]))).
Proof.
  intros Hf Hwf Hk Hn. pose proof (flag_host exact (ReadDir (host_path w k)) w Hf) as Hf'.
  pose proof (settled_host_path w k Hk) as Hset. pose proof (follow_reads w (ReadDir (host_path w k)) _ k eq_refl Hset) as Hs.
  destruct (host (ReadDir (host_path w k)) w) as [r w'] eqn:E. exists r, w'. split_and!; try done.
  assert (∀ w1 X (f : Key → option Node → result X IoError * FS), same w w1 →
    at_path w1 true (host_path w k) f = (let '(r, fs) := f k (Some NDir) in (r, set_fs fs w1))) as Hat.
  { intros w1 X f Hs1. unfold at_path. apply (same_settled _ _ _ _ Hs1) in Hset.
    rewrite (inside_key _ _ _ (settled_inside _ _ _ Hset)). destruct Hs1 as (_ & -> & _).
    by rewrite wf_walk, Hn by (done || by rewrite Hn). }
  destruct exact.
  - left. rewrite host_healthy in E by auto. cbn [host_ok] in E. rewrite Hat in E by apply same_refl. congruence.
  - destruct (host_cases (ReadDir (host_path w k)) w) as (w1 & Hs1 & [Hh|(m & Hh)]); rewrite E in Hh; cbn [host_ok host_fault] in Hh;
      rewrite Hat in Hh by done; destruct Hs1 as (_ & Hfs & _); rewrite Hfs in Hh; injection Hh as -> _; [by left|].
    right. split; [done|]. right. by eexists _, _.
Qed.

(** ** Sizes *)

Definition stacked (fs : FS) (ks : list Key) : Prop := Forall (fun q => clear fs q ∧ fs !! q = Some NDir) ks.

Lemma below_nonneg f fs k : (∀ n, 0 <= f n)%Z → (0 <= below f fs k)%Z.
Proof. intros Hf. apply tot_nonneg. intros [q n]. case_decide; [apply Hf|lia]. Qed.
Lemma node_dir_nonneg n : (0 <= node_dir n)%Z.
Proof. destruct n; simpl; lia. Qed.

Lemma upto_sat_add exact v b x : upto exact v (sat b) → (0 <= x)%Z → upto exact (u64_saturating_add v x) (sat (b + x)).
Proof.
  intros [Hle He] Hx. split; [unfold u64_saturating_add, sat in *; lia|]. intros E. rewrite (He E). by apply sat_add.
Qed.
Lemma upto_le v b x : upto false v (sat b) → (0 <= x)%Z → upto false v (sat (b + x)).
Proof. intros [Hle _] Hx. split; [|done]. pose proof (sat_mono b (b + x)). lia. Qed.

(** What a scan leaves: the remaining stack and the total, within bounds. *)
Definition scanned (exact : bool) (w : World) (out : (list (list Component) * Z) * World) (bytes dirs rest : Z) : Prop :=
  ∃ ks' v' w', out = ((host_path w <$> ks', v'), w') ∧
    same w w' ∧ flag exact w' ∧ stacked (w_fs w) ks' ∧ (0 <= v')%Z ∧ upto exact v' (sat bytes) ∧
    (Z.of_nat (length ks') + ahead node_dir (w_fs w) ks' <= dirs)%Z ∧ upto exact (ahead node_bytes (w_fs w) ks') rest.

Lemma scanned_mono exact w w1 out bytes dirs rest bytes' dirs' rest' :
  scanned exact w1 out bytes dirs rest → same w w1 → bytes = bytes' → (dirs <= dirs')%Z → upto exact rest rest' →
  scanned exact w out bytes' dirs' rest'.
Proof.
  intros (ks & v & w' & -> & Hs & Hf & Hk & Hv & Hb & Hd & Hr) Hs1 <- Hle [Hr1 Hr2].
  assert (w_fs w1 = w_fs w) as E by by destruct Hs1 as (_ & ? & _). rewrite E in *. exists ks, v, w'.
  split_and!; [|by eapply same_trans|done|done|done|done|lia|].
  - do 2 f_equal. apply list_fmap_ext. intros _ q _. by apply same_host_path.
  - destruct Hr as [? Hr]. split; [lia|]. intros He. rewrite Hr, Hr2 by done. done.
Qed.

(** One directory: the subdirectories put on the stack, and the bytes of the
    files. *)
Lemma size_entries_spec exact k (cs : list string) tl : ∀ w ks b v,
  flag exact w → wf (w_fs w) → clear (w_fs w) k → (∀ c, c ∈ cs → is_Some (w_fs w !! (k ++ [c]))) →
  tl = [] ∨ (∃ e tl', tl = Err e :: tl') → stacked (w_fs w) ks → (0 <= v)%Z → upto exact v (sat b) →
  scanned exact w (run host (size_entries (host_path w k) ((Ok <$> cs) ++ tl) (host_path w <$> ks) v) w)
    (b + tot (fun c => weight_at node_bytes (w_fs w) (k ++ [c])) cs)%Z
    (Z.of_nat (length ks) + ahead node_dir (w_fs w) ks
      + tot (fun c => weight_at node_dir (w_fs w) (k ++ [c]) + below node_dir (w_fs w) (k ++ [c])) cs)%Z
    (ahead node_bytes (w_fs w) ks + tot (fun c => below node_bytes (w_fs w) (k ++ [c])) cs)%Z.
Proof.
  induction cs as [|c cs IH]; intros w ks b v Hf Hwf Hk Hcs Htl Hks Hv Hvb.
  { exists ks, v, w. cbn [tot foldr fmap list_fmap app]. rewrite !Z.add_0_r.
    split_and!; try done. by destruct Htl as [->|(e & tl' & ->)]. }
  destruct (Hcs c) as [n Hn]; [by left|]. assert (∀ c, c ∈ cs → is_Some (w_fs w !! (k ++ [c]))) as Hcs' by (intros; apply Hcs; by right).
  assert (∀ f, weight_at f (w_fs w) (k ++ [c]) = f n) as Hwt by (intros f; unfold weight_at; by rewrite Hn).
  pose proof (below_nonneg node_dir (w_fs w) (k ++ [c]) node_dir_nonneg) as Hbd.
  pose proof (below_nonneg node_bytes (w_fs w) (k ++ [c]) node_bytes_nonneg) as Hbb.
  pose proof (node_bytes_nonneg n) as Hnb. pose proof (node_dir_nonneg n) as Hnd.
  (* the rest of the scan, from a world where this entry has been dealt with *)
  assert (∀ w1 ks1 v1, same w w1 → flag exact w1 → (0 <= v1)%Z → upto exact v1 (sat (b + node_bytes n)) →
    (ks1 = ks ∧ upto exact 0 (below node_bytes (w_fs w) (k ++ [c])) ∨ ks1 = (k ++ [c]) :: ks ∧ n = NDir) →
    scanned exact w (run host (size_entries (host_path w k) ((Ok <$> cs) ++ tl) (host_path w <$> ks1) v1) w1)
      (b + tot (fun c => weight_at node_bytes (w_fs w) (k ++ [c])) (c :: cs))%Z
      (Z.of_nat (length ks) + ahead node_dir (w_fs w) ks
        + tot (fun c => weight_at node_dir (w_fs w) (k ++ [c]) + below node_dir (w_fs w) (k ++ [c])) (c :: cs))%Z
      (ahead node_bytes (w_fs w) ks + tot (fun c => below node_bytes (w_fs w) (k ++ [c])) (c :: cs))%Z) as Hgo.
  { intros w1 ks1 v1 Hs1 Hf1 Hv1 Hvb1 Hks1. assert (w_fs w1 = w_fs w) as E by by destruct Hs1 as (_ & ? & _).
    specialize (IH w1 ks1 (b + node_bytes n)%Z v1 Hf1). rewrite E in IH. specialize (IH Hwf Hk Hcs' Htl).
    assert (∀ l, host_path w1 <$> l = host_path w <$> l) as Ehp
      by (intros l; apply list_fmap_ext; intros _ q _; by apply same_host_path).
    rewrite Ehp, (same_host_path _ _ k Hs1) in IH. eapply scanned_mono; [apply IH|done|..]; try done.
    - destruct Hks1 as [[-> _]|[-> ->]]; [done|]. constructor; [|done]. split; [by eapply clear_snoc|done].
    - rewrite tot_cons, Hwt. lia.
    - rewrite tot_cons, Hwt. destruct Hks1 as [[-> _]|[-> ->]]; [lia|]. unfold ahead. rewrite tot_cons. cbn [length node_dir]. lia.
    - rewrite tot_cons. destruct Hks1 as [[-> [_ H0]]|[-> ->]]; [split; [lia|]; intros He; specialize (H0 He); lia|].
      unfold ahead. rewrite tot_cons. split; [lia|]. intros _. lia. }
  cbn [fmap list_fmap app size_entries]. change (list_fmap _ _ Ok cs) with (Ok (E:=IoError) <$> cs). rewrite push_host_path, run_bind, run_lstat.
  destruct (lstat_answer exact w k c n Hf Hwf Hk Hn) as (r & w1 & -> & Hs1 & Hf1 & Hr).
  assert (n ≠ NDir → upto exact 0 (below node_bytes (w_fs w) (k ++ [c]))) as Hleaf
    by (intros Hne; rewrite below_leaf; [done|done|congruence]).
  destruct Hr as [->|(-> & e & ->)].
  2: { apply Hgo; [done|done|done|by apply upto_le|left; by split]. }
  destruct n; cbn [is_dir is_file metadata_of md_node].
  2: { apply (Hgo w1 ((k ++ [c]) :: ks)); [done|done|done|cbn [node_bytes]; by rewrite Z.add_0_r|by right]. }
  2, 3: by apply (Hgo w1 ks); [done|done|done|cbn [node_bytes]; by rewrite Z.add_0_r|left; split; [done|by apply Hleaf]].
  rewrite run_bind, run_lstat. rewrite <- (same_host_path w w1 (k ++ [c])) by done.
  assert (w_fs w1 = w_fs w) as E by by destruct Hs1 as (_ & ? & _).
  destruct (lstat_answer exact w1 k c (NFile content) Hf1) as (r & w2 & -> & Hs2 & Hf2 & Hr); [by rewrite E..|].
  assert (same w w2) as Hs by by eapply same_trans.
  destruct Hr as [->|(-> & e & ->)]; cbn [node_bytes metadata_of md_len] in *.
  - apply Hgo; [done|done|unfold u64_saturating_add, u64_max; lia|by apply upto_sat_add|left; split; [done|by apply Hleaf]].
  - apply Hgo; [done|done|done|by apply upto_le|left; split; [done|by apply Hleaf]].
Qed.

Lemma ahead_nonneg f fs ks : (∀ n, 0 <= f n)%Z → (0 <= ahead f fs ks)%Z.
Proof. intros Hf. apply tot_nonneg. intros k. by apply below_nonneg. Qed.

Lemma tot_take {A} (f : A → Z) n l : (∀ x, 0 <= f x)%Z → (tot f (take n l) <= tot f l)%Z.
Proof. intros Hf. rewrite <- (take_drop n l) at 2. rewrite tot_app. pose proof (tot_nonneg f (drop n l) Hf). lia. Qed.

Lemma scanned_more w out bytes dirs rest bytes' dirs' rest' :
  scanned false w out bytes dirs rest → (bytes <= bytes')%Z → (dirs <= dirs')%Z → (rest <= rest')%Z → scanned false w out bytes' dirs' rest'.
Proof.
  intros (ks & v & w' & -> & Hs & Hf & Hk & Hv & [Hb _] & Hd & [Hr _]) Hb' Hd' Hr'. exists ks, v, w'.
  pose proof (sat_mono _ _ Hb'). split_and!; try done; [split; [lia|done]|lia|split; [lia|done]].
Qed.

Lemma weight_nonneg f fs k : (∀ n, 0 <= f n)%Z → (0 <= weight_at f fs k)%Z.
Proof. intros Hf. unfold weight_at. destruct (fs !! k); [done|lia]. Qed.

(** One turn of the walk, on a directory that could be opened: all of its
    entries, or those before a failure. *)
Lemma dir_scan exact w k ks b v r :
  flag exact w → wf (w_fs w) → clear (w_fs w) k → stacked (w_fs w) ks → (0 <= v)%Z → upto exact v (sat b) →
  r = Ok <$> children (w_fs w) k ∨ exact = false ∧ (∃ n e, r = (Ok <$> take n (children (w_fs w) k)) ++ [Err e]) →
  scanned exact w (run host (size_entries (host_path w k) r (host_path w <$> ks) v) w)
    (b + tot (fun c => weight_at node_bytes (w_fs w) (k ++ [c])) (children (w_fs w) k))%Z
    (Z.of_nat (length ks) + ahead node_dir (w_fs w) ks + below node_dir (w_fs w) k)%Z
    (ahead node_bytes (w_fs w) ks + tot (fun c => below node_bytes (w_fs w) (k ++ [c])) (children (w_fs w) k))%Z.
Proof.
  intros Hf Hwf Hk Hks Hv Hvb Hr. rewrite (below_children node_dir) by done. destruct Hr as [->|(-> & n & e & ->)].
  - rewrite <- (app_nil_r (Ok <$> _)). apply size_entries_spec; try done; [|by left]. intros c Hc. by apply elem_children.
  - eapply scanned_more; [apply size_entries_spec; try done|..].
    + intros c Hc%subseteq_take. by apply elem_children.
    + right. by eexists _, _.
    + pose proof (tot_take (fun c => weight_at node_bytes (w_fs w) (k ++ [c])) n (children (w_fs w) k)
        (fun x => weight_nonneg _ _ _ node_bytes_nonneg)). lia.
    + pose proof (tot_take (fun c => weight_at node_dir (w_fs w) (k ++ [c]) + below node_dir (w_fs w) (k ++ [c]))%Z n (children (w_fs w) k)
        (fun x => Z.add_nonneg_nonneg _ _ (weight_nonneg _ _ _ node_dir_nonneg) (below_nonneg _ _ _ node_dir_nonneg))). lia.
    + pose proof (tot_take (fun c => below node_bytes (w_fs w) (k ++ [c])) n (children (w_fs w) k)
        (fun x => below_nonneg _ _ _ node_bytes_nonneg)). lia.
Qed.

(** The walk ends, and finds the bytes below the directories of the stack. *)
Lemma size_loop_spec exact n : ∀ w ks b v,
  flag exact w → wf (w_fs w) → stacked (w_fs w) ks → (0 <= v)%Z → upto exact v (sat b) →
  (Z.of_nat (length ks) + ahead node_dir (w_fs w) ks < Z.of_nat n)%Z →
  ∃ z w', run host (size_loop n (host_path w <$> ks) v) w = (Ok z, w') ∧ same w w' ∧ flag exact w' ∧
    (0 <= z)%Z ∧ upto exact z (sat (b + ahead node_bytes (w_fs w) ks)).
Proof.
  induction n as [|n IH]; intros w ks b v Hf Hwf Hks Hv Hvb Hn; pose proof (ahead_nonneg node_dir (w_fs w) ks node_dir_nonneg) as H0; [lia|].
  cbn [size_loop]. destruct Hks as [|k ks [Hk Hd] Hks]; [exists v, w; rewrite Z.add_0_r; by split_and!|].
  rewrite fmap_cons, run_bind, (run_trigger host (ReadDir _)).
  destruct (read_dir_answer exact w k Hf Hwf Hk Hd) as (r & w1 & -> & Hs1 & Hf1 & Hr).
  pose proof (below_nonneg node_dir (w_fs w) k node_dir_nonneg) as Hbd. pose proof (below_nonneg node_bytes (w_fs w) k node_bytes_nonneg) as Hbb.
  assert (∀ f, ahead f (w_fs w) (k :: ks) = (below f (w_fs w) k + ahead f (w_fs w) ks)%Z) as Hcons by done. rewrite !Hcons in *.
  cbn [length] in Hn. assert (∀ w' l, same w w' → host_path w <$> l = host_path w' <$> l) as Ehp
    by (intros w' l Hs; apply list_fmap_ext; intros _ q _; symmetry; by apply same_host_path).
  assert (∀ w', same w w' → w_fs w' = w_fs w) as Efs by by intros w' (_ & ? & _).
  (* the rest of the walk, whatever this directory left *)
  assert (∀ w2 ks2 b2 v2, same w w2 → flag exact w2 → stacked (w_fs w) ks2 → (0 <= v2)%Z → upto exact v2 (sat b2) →
    (Z.of_nat (length ks2) + ahead node_dir (w_fs w) ks2 < Z.of_nat n)%Z →
    upto exact (sat (b2 + ahead node_bytes (w_fs w) ks2)) (sat (b + (below node_bytes (w_fs w) k + ahead node_bytes (w_fs w) ks))) →
    ∃ z w', run host (size_loop n (host_path w <$> ks2) v2) w2 = (Ok z, w') ∧ same w w' ∧ flag exact w' ∧
      (0 <= z)%Z ∧ upto exact z (sat (b + (below node_bytes (w_fs w) k + ahead node_bytes (w_fs w) ks)))) as Hgo.
  { intros w2 ks2 b2 v2 Hs2 Hf2 Hk2 Hv2 Hb2 Hn2 [Hle Heq]. destruct (IH w2 ks2 b2 v2 Hf2) as (z & w' & E & Hs & Hf' & Hz & Hzu & Hze);
      rewrite ?(Efs w2 Hs2) in *; try done. exists z, w'. rewrite (Ehp w2) by done.
    split_and!; [done|by eapply same_trans|done|done|]. split; [lia|]. intros He. rewrite Hze, Heq by done. done. }
  assert (∀ entries, entries = (Ok <$> children (w_fs w) k) ∨
      exact = false ∧ (∃ m e, entries = (Ok <$> take m (children (w_fs w) k)) ++ [Err e]) →
    ∃ z w', run host (let! next := size_entries (host_path w k) entries (host_path w <$> ks) v in size_loop n next.1 next.2) w1 = (Ok z, w')
      ∧ same w w' ∧ flag exact w' ∧ (0 <= z)%Z ∧ upto exact z (sat (b + (below node_bytes (w_fs w) k + ahead node_bytes (w_fs w) ks)))) as Hdir.
  { intros entries He. rewrite run_bind. pose proof (dir_scan exact w1 k ks b v entries Hf1) as Hsc.
    rewrite (Efs w1 Hs1), <- (Ehp w1), (same_host_path w w1) in Hsc by done.
    destruct (Hsc Hwf Hk Hks Hv Hvb He) as (ks2 & v2 & w2 & -> & Hs2 & Hf2 & Hk2 & Hv2 & Hb2 & Hd2 & Hr2 & Hr2').
    rewrite <- (Ehp w1) by done. rewrite (Efs w1 Hs1) in *. cbn [fst snd].
    eapply Hgo; [by eapply same_trans|done|done|done|exact Hb2|lia|]. rewrite (below_children node_bytes), tot_plus by done.
    split; [apply sat_mono; lia|]. intros Hex. f_equal. rewrite Hr2' by done. lia. }
  destruct Hr as [->|(-> & [[e ->]|(m & e & ->)])]; [apply Hdir; by left| |apply Hdir; right; by eauto].
  apply (Hgo w1 ks b v); try done; [lia|]. split; [apply sat_mono; lia|done].
Qed.

Lemma dir_size_spec exact fuel w k :
  flag exact w → wf (w_fs w) → clear (w_fs w) k → w_fs w !! k = Some NDir → size (w_fs w) < fuel →
  ∃ z w', run host (dir_size_bytes fuel (host_path w k)) w = (Ok z, w') ∧ same w w' ∧ flag exact w' ∧
    (0 <= z)%Z ∧ upto exact z (sat (below node_bytes (w_fs w) k)).
Proof.
  intros Hf Hwf Hk Hd Hfuel. destruct (size_loop_spec exact fuel w [k] 0 0) as (z & w' & E & Hs & Hf' & Hz & Hu); try done.
  - by constructor.
  - unfold ahead. cbn [tot foldr length]. pose proof (below_dirs_size (w_fs w) k). rewrite Hd in *. specialize (H0 ltac:(done)). lia.
  - exists z, w'. split_and!; try done. unfold ahead in Hu. cbn [tot foldr] in Hu. by rewrite Z.add_0_l, Z.add_0_r in Hu.
Qed.

(** ** Enumerating and measuring *)

Lemma run_dirs_spec exact store cs tl : ∀ w acc,
  flag exact w → wf (w_fs w) → clear (w_fs w) store → (∀ c, c ∈ cs → is_Some (w_fs w !! (store ++ [c]))) →
  tl = [] ∨ (∃ e tl', tl = Err e :: tl') →
  ∃ l w', run host (run_dirs (host_path w store) ((Ok <$> cs) ++ tl) acc) w = (acc ++ l, w') ∧ same w w' ∧ flag exact w' ∧
    l `sublist_of` filter (fun n => is_run (w_fs w) store n = true) cs ∧
    (exact = true → l = filter (fun n => is_run (w_fs w) store n = true) cs).
Proof.
  induction cs as [|c cs IH]; intros w acc Hf Hwf Hk Hcs Htl.
  { exists [], w. rewrite app_nil_r. split_and!; try done. by destruct Htl as [->|(e & tl' & ->)]. }
  destruct (Hcs c) as [n Hn]; [by left|]. cbn [fmap list_fmap app run_dirs].
  change (list_fmap _ _ Ok cs) with (Ok (E:=IoError) <$> cs). rewrite push_host_path, run_bind, run_lstat.
  destruct (lstat_answer exact w store c n Hf Hwf Hk Hn) as (r & w1 & -> & Hs1 & Hf1 & Hr).
  assert (w_fs w1 = w_fs w) as E1 by by destruct Hs1 as (_ & ? & _).
  assert (∀ acc', ∃ l w', run host (run_dirs (host_path w store) ((Ok <$> cs) ++ tl) acc') w1 = (acc' ++ l, w') ∧ same w w' ∧ flag exact w' ∧
    l `sublist_of` filter (fun n => is_run (w_fs w) store n = true) cs ∧
    (exact = true → l = filter (fun n => is_run (w_fs w) store n = true) cs)) as Hgo.
  { intros acc'. specialize (IH w1 acc' Hf1). rewrite E1, (same_host_path w w1) in IH by done.
    destruct IH as (l & w' & E & Hs & Hf' & Hl & He); [done|done|intros; apply Hcs; by right|done|].
    exists l, w'. split_and!; try done. by eapply same_trans. }
  assert (filter (fun n => is_run (w_fs w) store n = true) (c :: cs)
    = (if is_run (w_fs w) store c then [c] else []) ++ filter (fun n => is_run (w_fs w) store n = true) cs) as ->
    by (rewrite filter_cons; by destruct (is_run (w_fs w) store c)).
  assert (is_run (w_fs w) store c = is_dir (metadata_of w n) && (from_utf8_ok c && ulid_from_string_ok c)) as Hrun.
  { unfold is_run. rewrite Hn. f_equal. unfold is_dir. cbn. destruct n; try done; apply bool_decide_false; congruence. }
  destruct Hr as [->|(-> & e & ->)].
  - rewrite Hrun. destruct (is_dir (metadata_of w n)); cbn [andb]; [|by apply Hgo].
    destruct (from_utf8_ok c && ulid_from_string_ok c); [|by apply Hgo].
    destruct (Hgo (acc ++ [c])) as (l & w' & E & Hs & Hf' & Hl & He). exists (c :: l), w'. rewrite E, <- app_assoc.
    split_and!; try done; [by apply sublist_skip|]. intros Hex. by rewrite (He Hex).
  - destruct (Hgo acc) as (l & w' & E & Hs & Hf' & Hl & He). exists l, w'. split_and!; try done.
    destruct (is_run _ _ _); [by apply sublist_cons|done].
Qed.

Lemma run_sizes_spec exact fuel byte_pruning store ns : ∀ w,
  flag exact w → wf (w_fs w) → clear (w_fs w) store → size (w_fs w) < fuel → ns ⊆ runs (w_fs w) store →
  ∃ L w', run host (run_sizes fuel byte_pruning (host_path w store) ns) w = (Ok L, w') ∧ same w w' ∧ flag exact w' ∧
    L.*1 = ns ∧ ∀ m s, (m, s) ∈ L → (0 <= s)%Z ∧ (byte_pruning = true → upto exact s (sat (run_bytes (w_fs w) store m))).
Proof.
  induction ns as [|n ns IH]; intros w Hf Hwf Hk Hfuel Hns.
  { exists [], w. split_and!; try done. by intros m s ?%elem_of_nil. }
  cbn [run_sizes]. rewrite run_try, push_host_path.
  assert (w_fs w !! (store ++ [n]) = Some NDir) as Hd.
  { assert (n ∈ runs (w_fs w) store) as Hn by (apply Hns; by left). apply elem_runs in Hn. unfold is_run in Hn.
    apply andb_true_iff in Hn as [Hn _]. by apply bool_decide_eq_true in Hn. }
  assert (∃ z w1, run host (if byte_pruning then dir_size_bytes fuel (host_path w (store ++ [n])) else ret_ok 0%Z) w = (Ok z, w1) ∧
    same w w1 ∧ flag exact w1 ∧ (0 <= z)%Z ∧ (byte_pruning = true → upto exact z (sat (run_bytes (w_fs w) store n))))
    as (z & w1 & -> & Hs1 & Hf1 & Hz & Hu).
  { destruct byte_pruning; [|exists 0%Z, w; by split_and!].
    destruct (dir_size_spec exact fuel w (store ++ [n]) Hf Hwf) as (z & w1 & E & Hs1 & Hf1 & Hz & Hu);
      [apply clear_extend; [done|by rewrite Hd]|done|done|]. exists z, w1. by split_and!. }
  rewrite run_try. assert (w_fs w1 = w_fs w) as E1 by by destruct Hs1 as (_ & ? & _).
  specialize (IH w1 Hf1). rewrite E1, (same_host_path w w1) in IH by done.
  destruct IH as (L & w' & -> & Hs & Hf' & HL & Hsz); [done|done|done|set_solver|].
  exists ((n, z) :: L), w'. split_and!; [done|by eapply same_trans|done|by rewrite fmap_cons, HL|].
  intros m s [E|Hin]%elem_of_cons; [|by apply Hsz]. injection E as -> ->. by split.
Qed.

(** ** Removing *)

Definition pruned (store : Key) (ns : list string) (w w' : World) : Prop :=
  quiet w w' ∧ ∀ q, w_fs w' !! q = w_fs w !! q ∨ w_fs w' !! q = None ∧ ∃ n, n ∈ ns ∧ under (store ++ [n]) q.

Lemma remove_trees_lookup fs key cs q :
  foldr (fun c fs => remove_tree (key ++ [c]) fs) fs cs !! q = fs !! q ∨
  foldr (fun c fs => remove_tree (key ++ [c]) fs) fs cs !! q = None ∧ under key q.
Proof.
  induction cs as [|c cs IH]; simpl; [by left|]. rewrite lookup_remove_tree. case_decide as Hu; [|done].
  right. split; [done|]. by eapply under_app_l.
Qed.

Lemma remove_dir_pruned w store n :
  clear (w_fs w) store → Forall proper (store ++ [n]) →
  pruned store [n] w (host (RemoveDirAll (host_path w (store ++ [n]))) w).2 ∧
  (healthy w → wf (w_fs w) → w_fs w !! (store ++ [n]) = None ∨ w_fs w !! (store ++ [n]) = Some NDir →
   ∀ q, under (store ++ [n]) q → w_fs (host (RemoveDirAll (host_path w (store ++ [n]))) w).2 !! q = None).
Proof.
  intros Hk Hp. pose proof (inside_host_path w store n Hk) as Hi. split.
  - split; [apply (change_quiet w (RemoveDirAll (host_path w (store ++ [n]))) (host_path w (store ++ [n])) false (store ++ [n]));
      [done|by destruct store|done|done]|].
    intros q. destruct (host_cases (RemoveDirAll (host_path w (store ++ [n]))) w) as (w1 & Hs & Hh).
    apply (same_inside _ _ _ _ Hs) in Hi. pose proof (inside_key _ _ _ Hi) as Hkey. destruct Hs as (_ & <- & _).
    destruct Hh as [->|(m & ->)]; cbn [host_ok host_fault]; unfold at_path; rewrite Hkey;
      (destruct (walk (w_fs w1) [] (store ++ [n])) as [nd| | |]; try by left); cbn [andb snd].
    + destruct nd as [[]|]; try by left. simpl. rewrite lookup_remove_tree. case_decide; [right; set_solver|by left].
    + simpl. destruct (remove_trees_lookup (w_fs w1) (store ++ [n]) (take m (children (w_fs w1) (store ++ [n]))) q) as [?|[? ?]];
        [by left|right; set_solver].
  - intros Hh Hwf Hn q Hq. rewrite host_healthy by done. cbn [host_ok]. unfold at_path. rewrite (inside_key _ _ _ Hi).
    destruct Hn as [Hn|Hn].
    + assert (w_fs w !! q = None) as Hq'.
      { destruct (w_fs w !! q) eqn:E; [|done]. destruct Hq as [r ->]. destruct r as [|c r]; [rewrite app_nil_r in E; congruence|].
        rewrite (wf_above _ (store ++ [n]) (c :: r)) in Hn; done. }
      destruct (walk (w_fs w) [] (store ++ [n])) as [nd| | |] eqn:E; try done.
      apply walk_At in E. simpl in E. rewrite Hn in E. by subst nd.
    + rewrite wf_walk, Hn by (done || by rewrite Hn). simpl. rewrite lookup_remove_tree. by rewrite decide_True.
Qed.

Lemma remove_runs_spec exact store ns : ∀ w,
  flag exact w → wf (w_fs w) → clear (w_fs w) store → (∀ n, n ∈ ns → Forall proper (store ++ [n])) →
  (∀ n, n ∈ ns → w_fs w !! (store ++ [n]) = None ∨ w_fs w !! (store ++ [n]) = Some NDir) →
  let out := (run host (remove_runs (host_path w store) ns) w).2 in
  pruned store ns w out ∧ (exact = true → ∀ n q, n ∈ ns → under (store ++ [n]) q → w_fs out !! q = None).
Proof.
  induction ns as [|n ns IH]; intros w Hf Hwf Hk Hp Hd.
  { split; [split; [apply quiet_refl|by left]|]. by intros _ n q ?%elem_of_nil. }
  cbn [remove_runs]. rewrite run_bind, push_host_path, (run_trigger host (RemoveDirAll _)).
  destruct (remove_dir_pruned w store n Hk) as [[Hq1 Hp1] Hex1]; [apply Hp; by left|].
  pose proof (flag_host exact (RemoveDirAll (host_path w (store ++ [n]))) w Hf) as Hf1.
  destruct (host (RemoveDirAll (host_path w (store ++ [n]))) w) as [r w1]. cbn [fst snd] in *.
  assert (host_path w store = host_path w1 store) as -> by (unfold host_path; by destruct Hq1 as (-> & _)).
  pose proof (quiet_clear _ _ store Hq1 Hk) as Hk1. assert (wf (w_fs w1)) as Hwf1 by (by destruct Hq1 as (_ & _ & _ & Hw & _); auto).
  destruct (IH w1 Hf1 Hwf1 Hk1) as [[Hq2 Hp2] Hex2]; [intros; apply Hp; by right| |].
  { intros m Hm. destruct (Hp1 (store ++ [m])) as [->|[-> _]]; [apply Hd; by right|by left]. }
  split; [split; [by eapply quiet_trans|]|].
  - intros q. destruct (Hp2 q) as [->|(-> & m & Hm & Hu)]; [|right; set_solver].
    destruct (Hp1 q) as [->|(-> & m & Hm & Hu)]; [by left|right; set_solver].
  - intros He m q [->|Hm]%elem_of_cons Hu; [|by eapply Hex2].
    destruct (Hp2 q) as [->|[-> _]]; [|done]. apply Hex1; [by apply Hf|done|apply Hd; by left|done].
Qed.

(** ** A prune *)

Lemma read_dir_none w k :
  clear (w_fs w) k → w_fs w !! k ≠ Some NDir → ∃ e, (host (ReadDir (host_path w k)) w).1 = Err e.
Proof.
  intros Hk Hn. pose proof (settled_host_path w k Hk) as Hset.
  destruct (host_cases (ReadDir (host_path w k)) w) as (w1 & Hs & Hh). apply (same_settled _ _ _ _ Hs) in Hset.
  pose proof (settled_not_link _ _ _ Hset) as Hl. pose proof (inside_key _ _ _ (settled_inside _ _ _ Hset)) as Hkey.
  destruct Hs as (_ & Hf & _). rewrite <- Hf in Hn. destruct Hh as [->|(n & ->)]; cbn [host_ok host_fault]; unfold at_path; rewrite Hkey;
    (destruct (walk (w_fs w1) [] k) as [nd| | |] eqn:E; [|by eexists..]); rewrite bool_decide_false by congruence;
    apply walk_At in E; simpl in E; subst nd; cbn [andb]; destruct (w_fs w1 !! k) as [[]|]; try done; by eexists.
Qed.

Lemma no_runs fs store : wf fs → fs !! store ≠ Some NDir → runs fs store = [].
Proof.
  intros (_ & Hwf & _) Hn. destruct (runs fs store) as [|n l] eqn:E; [done|]. exfalso. apply Hn, (Hwf store n).
  assert (n ∈ runs fs store) as Hr by (rewrite E; by left). apply elem_runs in Hr. unfold is_run in Hr.
  apply andb_true_iff in Hr as [Hr%bool_decide_eq_true _]. by rewrite Hr.
Qed.

Lemma run_entry fs store n : n ∈ runs fs store → fs !! (store ++ [n]) = Some NDir.
Proof. rewrite elem_runs. unfold is_run. by intros [?%bool_decide_eq_true _]%andb_true_iff. Qed.

(** What [ReadDir] lists of a directory that could be opened. *)
Definition listing (exact : bool) (fs : FS) (k : Key) (entries : list (result string IoError)) : Prop :=
  entries = (Ok <$> children fs k) ∨ exact = false ∧ ∃ m e, entries = (Ok <$> take m (children fs k)) ++ [Err e].

Lemma enumerated exact store w entries :
  flag exact w → wf (w_fs w) → clear (w_fs w) store → listing exact (w_fs w) store entries →
  ∃ l w', run host (run_dirs (host_path w store) entries []) w = (l, w') ∧ same w w' ∧ flag exact w' ∧
    NoDup l ∧ l ⊆ runs (w_fs w) store ∧ (exact = true → l = runs (w_fs w) store).
Proof.
  intros Hf Hwf Hk He.
  assert (∃ cs tl, entries = (Ok <$> cs) ++ tl ∧ (tl = [] ∨ (∃ e tl', tl = Err e :: tl')) ∧ cs `sublist_of` children (w_fs w) store ∧
    (exact = true → cs = children (w_fs w) store)) as (cs & tl & -> & Htl & Hcs & Hex).
  { destruct He as [->|(-> & m & e & ->)].
    - exists (children (w_fs w) store), []. rewrite app_nil_r. split_and!; [done|by left|done|done].
    - exists (take m (children (w_fs w) store)), [Err e]. split_and!; [done|right; by eexists _, _|apply sublist_take|done]. }
  destruct (run_dirs_spec exact store cs tl w []) as (l & w1 & E & Hs1 & Hf1 & Hl & Hx); try done.
  { intros c Hc. apply elem_children. by eapply elem_of_sublist. }
  exists l, w1. split_and!; try done.
  - eapply sublist_NoDup; [|exact Hl]. apply NoDup_filter. eapply sublist_NoDup; [apply NoDup_children|done].
  - intros n Hn. eapply elem_of_sublist in Hn; [|exact Hl]. unfold runs. apply list_elem_of_filter in Hn as [? Hn].
    apply list_elem_of_filter. split; [done|]. by eapply elem_of_sublist.
  - intros He'. rewrite (Hx He'), (Hex He'). done.
Qed.

(** The part of a prune after the store has been opened. *)
Lemma prune_rest exact fuel store retain max active w entries :
  flag exact w → wf (w_fs w) → clear (w_fs w) store → size (w_fs w) < fuel → listing exact (w_fs w) store entries →
  let due n := overdue retain max (w_fs w) store n ∧ n ∉ active in
  let out := run host (let! names := run_dirs (host_path w store) entries [] in
                       let newest_first := reverse (sort_strings names) in
                       let!? sizes := run_sizes fuel (bool_decide (0 < max)%Z) (host_path w store) newest_first in
                       let! _ := remove_runs (host_path w store) (to_remove retain max active 0 0 sizes) in
                       ret_ok ()) w in
  out.1 = (Ok () : result unit WErr) ∧ quiet w out.2 ∧
  (∀ q, w_fs out.2 !! q = w_fs w !! q ∨ w_fs out.2 !! q = None ∧ ∃ n, due n ∧ under (store ++ [n]) q) ∧
  (exact = true → ∀ n q, due n → under (store ++ [n]) q → w_fs out.2 !! q = None).
Proof.
  intros Hf Hwf Hk Hfuel He due out. subst out. rewrite run_bind.
  destruct (enumerated exact store w entries Hf Hwf Hk He) as (l & w1 & -> & Hs1 & Hf1 & Hnd & Hsub & Heq).
  assert (∀ w', same w w' → w_fs w' = w_fs w) as Efs by by intros w' (_ & ? & _).
  cbv zeta. rewrite run_try. set (ns := reverse (sort_strings l)).
  assert (ns ≡ₚ l) as Hns by (unfold ns, sort_strings; by rewrite reverse_Permutation, sort_by_Permutation).
  pose proof (run_sizes_spec exact fuel (bool_decide (0 < max)%Z) store ns w1 Hf1) as Hrs.
  rewrite (Efs w1 Hs1), (same_host_path w w1) in Hrs by done.
  destruct Hrs as (L & w2 & -> & Hs2 & Hf2 & HL & Hsz); [done|done|done|intros n Hn; apply Hsub; by rewrite <- Hns|].
  assert (same w w2) as Hs12 by by eapply same_trans. rewrite run_bind.
  assert (∀ n, (n ∈ to_remove retain max active 0 0 L → due n) ∧ (exact = true → due n → n ∈ to_remove retain max active 0 0 L)) as Hdue.
  { intros n. destruct (to_remove_overdue exact retain max active (w_fs w) store L n) as [H1 H2].
    - rewrite HL. by apply newest_first_ordered.
    - rewrite HL. intros m Hm. apply Hsub. by rewrite <- Hns.
    - intros Hex. by rewrite HL, Hns, (Heq Hex).
    - intros m s Hin. destruct (Hsz m s Hin) as [? Hu]. split; [done|]. intros Hm. apply Hu. by apply bool_decide_eq_true.
    - split; [done|]. intros Hex [? ?]. by apply H2. }
  assert (∀ n, due n → w_fs w !! (store ++ [n]) = Some NDir) as Hdir by (intros n [[? _] _]; by apply run_entry).
  pose proof (remove_runs_spec exact store (to_remove retain max active 0 0 L) w2 Hf2) as Hrm.
  rewrite (Efs w2 Hs12), (same_host_path w w2) in Hrm by done. destruct Hrm as [[Hq Hp] Hex]; [done|done|..].
  - intros n Hn. destruct Hwf as (_ & _ & Hpr). apply Hpr. rewrite Hdir; [done|by apply Hdue].
  - intros n Hn. right. by apply Hdir, Hdue.
  - destruct (run host (remove_runs _ _) w2) as [u w3]. cbn [fst snd] in *.
    split_and!; [done|eapply quiet_trans; [by apply same_quiet|done]| |].
    + intros q. simpl. destruct (Hp q) as [->|(-> & n & Hn & Hu)]; [rewrite (Efs w2 Hs12); by left|right].
      split; [done|]. exists n. split; [by apply Hdue|done].
    + intros He' n q Hn. apply Hex; [done|by apply Hdue].
Qed.

Lemma prune_runs_spec fuel store retain max active w :
  wf (w_fs w) → clear (w_fs w) store → size (w_fs w) < fuel →
  let due n := overdue retain max (w_fs w) store n ∧ n ∉ active in
  let out := run host (prune_artifact_runs_in fuel (host_path w store) retain max active) w in
  out.1 = Ok () ∧ quiet w out.2 ∧
  (∀ q, w_fs out.2 !! q = w_fs w !! q ∨ w_fs out.2 !! q = None ∧ ∃ n, due n ∧ under (store ++ [n]) q) ∧
  (healthy w → ∀ n q, due n → under (store ++ [n]) q → w_fs out.2 !! q = None).
Proof.
  intros Hwf Hk Hfuel due out. subst out. unfold prune_artifact_runs_in.
  assert (∀ w', same w w' → (∀ n, ¬ due n) → quiet w w' ∧
    (∀ q, w_fs w' !! q = w_fs w !! q ∨ w_fs w' !! q = None ∧ ∃ n, due n ∧ under (store ++ [n]) q) ∧
    (healthy w → ∀ n q, due n → under (store ++ [n]) q → w_fs w' !! q = None)) as Hnone.
  { intros w' Hs Hd. split_and!; [by apply same_quiet|destruct Hs as (_ & -> & _); by left|]. intros _ n q Hn. by destruct (Hd n). }
  destruct (negb _ && negb _) eqn:Eoff.
  { apply andb_true_iff in Eoff as [H1%negb_true_iff%bool_decide_eq_false H2%negb_true_iff%bool_decide_eq_false].
    split; [done|]. apply Hnone; [apply same_refl|]. intros n [[_ [[? _]|[? _]]] _]; lia. }
  rewrite run_bind, (run_trigger host (ReadDir _)). destruct (decide (w_fs w !! store = Some NDir)) as [Hd|Hd].
  2: { destruct (read_dir_none w store Hk Hd) as [e Er].
       pose proof (follow_reads w (ReadDir (host_path w store)) _ store eq_refl (settled_host_path w store Hk)) as Hs.
       destruct (host (ReadDir (host_path w store)) w) as [r w1]. cbn [fst snd] in *. subst r. split; [done|].
       apply Hnone; [done|]. intros n [[Hr _] _]. rewrite (no_runs (w_fs w) store Hwf Hd) in Hr. by apply elem_of_nil in Hr. }
  set (exact := match w_faults w with [] => true | _ => false end).
  assert (flag exact w) as Hf by (unfold exact, flag, healthy; by destruct (w_faults w)).
  assert (healthy w → exact = true) as Hexact by (unfold exact, healthy; by intros ->).
  destruct (read_dir_answer exact w store Hf Hwf Hk Hd) as (r & w1 & -> & Hs1 & Hf1 & Hr).
  assert (w_fs w1 = w_fs w) as E1 by by destruct Hs1 as (_ & ? & _).
  assert ((∃ e, r = Err e) ∧ exact = false ∨ ∃ entries, r = Ok entries ∧ listing exact (w_fs w) store entries) as [[[e ->] Hx]|(entries & -> & Hl)].
  { unfold listing. destruct Hr as [->|(Hx & [[e ->]|(m & e & ->)])]; [right|left; by eauto|right];
      (eexists; split; [reflexivity|]); [by left|right; by eauto]. }
  - split; [done|]. split_and!; [by apply same_quiet|simpl; rewrite E1; by left|]. intros Hh. rewrite (Hexact Hh) in Hx. done.
  - pose proof (prune_rest exact fuel store retain max active w1 entries Hf1) as Hpr.
    rewrite E1, (same_host_path w w1) in Hpr by done. destruct (Hpr Hwf Hk Hfuel Hl) as (Hok & Hq & Hp & Hx).
    split_and!; [exact Hok|eapply quiet_trans; [by apply same_quiet|exact Hq]|exact Hp|]. intros Hh. exact (Hx (Hexact Hh)).
Qed.
End Prune.

(** (C24) [prune_artifact_runs_in], in any directory tree and whichever calls
    fail, ends with [Ok]; nothing outside the directories of overdue, inactive
    runs changes (stray files, links and directories without the name of a run,
    active runs and everything outside the store included), and no path is
    resolved through a link or outside the tree.  When no call fails, every
    overdue, inactive run is removed with all its entries.  Overdue is the
    reference definition: at least [retain] newer runs, or more than
    [max_store_bytes] bytes in the run and the newer ones. *)
Theorem prune_exact `{UlidPlatform} fuel store retain max_store_bytes active w :
  wf (w_fs w) → w_escaped w = false → clear (w_fs w) store → size (w_fs w) < fuel →
  let out := run host (prune_artifact_runs_in fuel (host_path w store) retain max_store_bytes active) w in
  let due n := overdue retain max_store_bytes (w_fs w) store n ∧ n ∉ active in
  out.1 = Ok () ∧ w_escaped out.2 = false ∧ wf (w_fs out.2) ∧
  (∀ q, (∀ n, due n → ¬ under (store ++ [n]) q) → w_fs out.2 !! q = w_fs w !! q) ∧
  (∀ q node, w_fs out.2 !! q = Some node → w_fs w !! q = Some node) ∧
  (healthy w → ∀ n q, due n → under (store ++ [n]) q → w_fs out.2 !! q = None).
Proof.
  intros Hwf He Hk Hfuel out due. destruct (prune_runs_spec fuel store retain max_store_bytes active w Hwf Hk Hfuel) as (Hok & Hq & Hp & Hex).
  fold out in Hok, Hq, Hp, Hex. destruct Hq as (_ & Ee & _ & Hw & _). split_and!; [done|congruence|by auto| | |done].
  - intros q Hn. destruct (Hp q) as [?|(_ & n & Hd & Hu)]; [done|]. by destruct (Hn n Hd).
  - intros q node E. destruct (Hp q) as [<-|[E' _]]; [done|congruence].
Qed.

(** ** What is left after a prune *)

Section Bounds.
Context `{UlidPlatform}.

Lemma oldest l : l ≠ [] → ∃ n, n ∈ l ∧ ∀ m, m ∈ l → m = n ∨ newer m n.
Proof.
  induction l as [|x l IH]; [done|]. intros _. destruct l as [|y l]; [exists x; set_solver|].
  destruct IH as (n & Hn & Hmin); [done|]. destruct (newer_total x n) as [->|[Hx|Hx]].
  - exists n. set_solver.
  - exists n. split; [set_solver|]. intros m [->|Hm]%elem_of_cons; auto.
  - exists x. split; [set_solver|]. intros m [->|Hm]%elem_of_cons; [by left|].
    destruct (Hmin m Hm) as [->|Hmn]; right; [done|by eapply newer_trans].
Qed.

Lemma count_from l n : NoDup l → n ∈ l → bytes_from (fun _ => 1%Z) l n = (count_newer l n + 1)%Z.
Proof.
  intros Hnd Hn. unfold bytes_from, count_newer. rewrite (tot_ext _ (fun m => (if decide (newer m n) then 1 else 0) + (if decide (m = n) then 1 else 0))%Z).
  - rewrite tot_plus. f_equal. rewrite (tot_one _ _ n) by (try done; intros; by rewrite decide_False). by rewrite decide_True.
  - intros m _. destruct (decide (newer m n)) as [Hm|Hm], (decide (m = n)) as [->|Hne];
      [by apply newer_irrefl in Hm|by rewrite decide_True by auto..|rewrite decide_False; [done|]]. intros [?|?]; done.
Qed.

(** The runs of a list that are not overdue weigh no more than the oldest of
    them allows. *)
Lemma kept_weight (size : string → Z) l all n :
  (∀ x, 0 <= size x)%Z → NoDup l → l ⊆ all → (∀ m, m ∈ l → m = n ∨ newer m n) → (tot size l <= bytes_from size all n)%Z.
Proof.
  intros Hs Hnd Hsub Hmin. transitivity (bytes_from size l n).
  - apply tot_le. intros m Hm. rewrite decide_True by by apply Hmin. done.
  - apply tot_subset; [|done|done]. intros. case_decide; [done|lia].
Qed.
End Bounds.

(** After a prune in which no call fails, the runs that are not active are
    within the limits: at most [retain] of them are left, and they hold at most
    [max_store_bytes] bytes, unless the limit is switched off with 0. *)
Theorem prune_bounds `{UlidPlatform} fuel store retain max_store_bytes active w :
  wf (w_fs w) → clear (w_fs w) store → size (w_fs w) < fuel → healthy w →
  let out := run host (prune_artifact_runs_in fuel (host_path w store) retain max_store_bytes active) w in
  let left := filter (fun n => n ∉ active) (runs (w_fs out.2) store) in
  ((0 < retain)%Z → (Z.of_nat (length left) <= retain)%Z) ∧
  ((0 < max_store_bytes)%Z → (sat (tot (run_bytes (w_fs w) store) left) <= max_store_bytes)%Z).
Proof.
  intros Hwf Hk Hfuel Hh out left. destruct (prune_runs_spec fuel store retain max_store_bytes active w Hwf Hk Hfuel) as (_ & _ & Hp & Hex).
  fold out in Hp, Hex. specialize (Hex Hh).
  assert (∀ n, n ∈ left → n ∈ runs (w_fs w) store ∧ n ∉ active ∧ ¬ overdue retain max_store_bytes (w_fs w) store n) as Hl.
  { intros n [Ha Hr]%list_elem_of_filter. pose proof (run_entry _ _ _ Hr) as Hd. split_and!; [|done|].
    - apply elem_runs in Hr. apply elem_runs. unfold is_run in *. destruct (Hp (store ++ [n])) as [<-|[E _]]; [done|congruence].
    - intros Ho. rewrite (Hex n (store ++ [n])) in Hd; [done|by split|done]. }
  assert (NoDup left) as Hnd by apply NoDup_filter, runs_NoDup.
  destruct (decide (left = [])) as [->|Hne]; [split; intros; cbn; unfold sat, u64_max; lia|].
  destruct (oldest left Hne) as (n & Hn & Hmin). destruct (Hl n Hn) as (Hr & _ & Ho).
  assert (left ⊆ runs (w_fs w) store) as Hsub by (intros m Hm; by apply Hl).
  split; intros Hpos.
  - pose proof (kept_weight (fun _ => 1%Z) left _ n ltac:(lia) Hnd Hsub Hmin) as Hc.
    rewrite count_from in Hc by (done || apply runs_NoDup).
    assert (tot (fun _ => 1%Z) left = Z.of_nat (length left)) as Hlen
      by (clear; generalize left; intros l; induction l; rewrite ?tot_cons; cbn [length]; [done|lia]).
    destruct (decide (retain <= count_newer (runs (w_fs w) store) n)%Z); [|lia]. destruct Ho. split; [done|]. by left.
  - pose proof (kept_weight (run_bytes (w_fs w) store) left _ n (run_bytes_nonneg _ _) Hnd Hsub Hmin) as Hc%sat_mono.
    destruct (decide (max_store_bytes < sat (bytes_from (run_bytes (w_fs w) store) (runs (w_fs w) store) n))%Z); [|lia].
    destruct Ho. split; [done|]. by right.
Qed.

(** ** The executions of one process *)

Lemma split_at_sep c s t : Str.split c (s +:+ String c t) = Str.split c s ++ Str.split c t.
Proof.
  induction s as [|a s IH]; rewrite ?Str.app_nil_l, ?Str.app_cons; cbn [Str.split]; [by rewrite Ascii.eqb_refl|].
  rewrite IH. destruct (Ascii.eqb a c); [done|]. pose proof (Str.split_nonempty c s). by destruct (Str.split c s).
Qed.

Lemma components_snoc s n : proper n → components (s +:+ "/" +:+ n) = (if Str.is_empty s then [RootDir] else components s) ++ [Normal n].
Proof.
  intros [Hc Hl]. unfold components. rewrite (Str.app_cons "/" ""), Str.app_nil_l, split_at_sep, (split_lacks "/" n Hl).
  destruct s as [|a s]; [simpl; by rewrite Hc|]. cbn [Str.is_empty]. rewrite Str.app_cons.
  pose proof (Str.split_nonempty "/" (String a s)). destruct (Str.split "/" (String a s)) as [|first rest]; [done|].
  change (Str.starts_with "/" (String a (s +:+ String "/" n))) with (Str.starts_with "/" (String a s)).
  cbn [app]. rewrite omap_app. cbn [omap list_omap]. rewrite Hc. by rewrite app_assoc.
Qed.

Lemma components_slash s : components (s +:+ "/") = if Str.is_empty s then [RootDir] else components s.
Proof.
  unfold components. change (s +:+ "/") with (s +:+ String "/" ""). rewrite split_at_sep.
  destruct s as [|a s]; [done|]. cbn [Str.is_empty]. rewrite Str.app_cons.
  pose proof (Str.split_nonempty "/" (String a s)). destruct (Str.split "/" (String a s)) as [|first rest]; [done|].
  change (Str.starts_with "/" (String a (s +:+ String "/" ""))) with (Str.starts_with "/" (String a s)).
  cbn [app]. rewrite omap_app. cbn. by rewrite app_nil_r.
Qed.

(** [join] of one name adds one component. *)
Lemma components_join_text s n : proper n → components (join_text s n) = components s ++ [Normal n].
Proof.
  intros Hn. unfold join_text. destruct (Str.is_empty s) eqn:E; cbn [orb].
  - destruct s; [|done]. pose proof (components_join [n] ltac:(done) ltac:(constructor; [exact Hn|constructor])) as Hj. exact Hj.
  - destruct (Str.ends_with "/" s) eqn:Es; [|by rewrite components_snoc, E].
    apply Str.ends_with_spec in Es as [s' ->]. rewrite Str.app_assoc, components_snoc by done. by rewrite components_slash.
Qed.

(** ** One call at a time

    Executions also interleave between the calls of a prune or of a write.  What
    these programs ask the file system to change is bounded whatever it answers,
    so also when other executions change the tree between two calls: a prune
    only removes directories of runs outside its snapshot, and a write only
    creates its own destination, with the directories above it, and fills a file
    that it has created itself. *)

Definition changes (e : FsEff) : bool :=
  match e with
  | SymlinkMetadata _ | FollowMetadata _ | Flush _ | ReadDir _ | OpenFile _ | ReadTake _ _ | NewUlid => false
  | _ => true
  end.
Definition calls_only (P : FsEff → Prop) {A} (p : F A) : Prop :=
  always p (fun tr _ => Forall (fun s => changes (projT1 s) = true → P (projT1 s)) tr).

Lemma calls_bind P {A B} (p : F A) (f : A → F B) : calls_only P p → (∀ a, calls_only P (f a)) → calls_only P (pbind p f).
Proof.
  intros Hp Hf. eapply always_bind_spec; [exact Hp|]. intros tr a Htr. eapply always_mono; [apply Hf|].
  intros tr' b Htr'. by apply Forall_app_2.
Qed.
Lemma calls_try P {A B Er} (p : F (result A Er)) (f : A → F (result B Er)) :
  calls_only P p → (∀ a, calls_only P (f a)) → calls_only P (try_bind p f).
Proof. intros Hp Hf. apply calls_bind; [done|]. intros [a|e]; [apply Hf|by constructor]. Qed.
Lemma calls_trigger (P : FsEff → Prop) e : (changes e = true → P e) → calls_only P (trigger e).
Proof. intros He r. by repeat constructor. Qed.
Lemma calls_ret P {A} (a : A) : calls_only P (Ret a).
Proof. by constructor. Qed.

Lemma size_entries_calls P dir entries stack total : calls_only P (size_entries dir entries stack total).
Proof.
  revert stack total. induction entries as [|[name|e] rest IH]; intros stack total; cbn [size_entries]; [apply calls_ret| |apply calls_ret].
  apply calls_bind; [by apply calls_trigger|]. intros [ft|]; [|apply IH]. destruct (is_dir ft); [apply IH|].
  destruct (is_file ft); [|apply IH]. apply calls_bind; [by apply calls_trigger|]. intros meta. apply IH.
Qed.
Lemma size_loop_calls P n stack total : calls_only P (size_loop n stack total).
Proof.
  revert stack total. induction n as [|n IH]; intros [|dir stack] total; cbn [size_loop]; try apply calls_ret.
  apply calls_bind; [by apply calls_trigger|]. intros [entries|]; [|apply IH].
  apply calls_bind; [apply size_entries_calls|]. intros next. apply IH.
Qed.

Section Calls.
Context `{CodePlatform} `{UlidPlatform}.

Lemma run_dirs_calls P root entries acc : calls_only P (run_dirs root entries acc).
Proof.
  revert acc. induction entries as [|[name|e] rest IH]; intros acc; cbn [run_dirs]; [apply calls_ret| |apply calls_ret].
  apply calls_bind; [by apply calls_trigger|]. intros ft. destruct (match ft with Ok _ => _ | Err _ => _ end); apply IH.
Qed.
Lemma run_sizes_calls P fuel b root names : calls_only P (run_sizes fuel b root names).
Proof.
  induction names as [|name rest IH]; cbn [run_sizes]; [apply calls_ret|].
  apply calls_try; [destruct b; [apply size_loop_calls|apply calls_ret]|]. intros size.
  apply calls_try; [apply IH|]. intros sizes. apply calls_ret.
Qed.
Lemma to_remove_inactive retain max active idx cum L n : n ∈ to_remove retain max active idx cum L → n ∉ active.
Proof.
  revert idx cum. induction L as [|[m s] L IH]; intros idx cum; cbn [to_remove]; [by intros ?%elem_of_nil|].
  destruct (_ && _); [apply IH|]. case_bool_decide; [apply IH|]. rewrite elem_of_cons. intros [->|Hn]; [done|by eapply IH].
Qed.
Lemma remove_runs_calls P root names :
  (∀ n, n ∈ names → P (RemoveDirAll (push root (Normal n)))) → calls_only P (remove_runs root names).
Proof.
  induction names as [|n names IH]; intros HP; cbn [remove_runs]; [apply calls_ret|].
  apply calls_bind; [apply calls_trigger; intros _; apply HP; by left|]. intros _. apply IH. intros n' Hn'. apply HP. by right.
Qed.

Theorem prune_calls fuel root retain max active :
  calls_only (fun e => ∃ n, e = RemoveDirAll (push root (Normal n)) ∧ n ∉ active) (prune_artifact_runs_in fuel root retain max active).
Proof.
  unfold prune_artifact_runs_in. destruct (_ && _); [apply calls_ret|].
  apply calls_bind; [by apply calls_trigger|]. intros [entries|]; [|apply calls_ret].
  apply calls_bind; [apply run_dirs_calls|]. intros names. apply calls_try; [apply run_sizes_calls|]. intros sizes.
  apply calls_bind; [|intros; apply calls_ret]. apply remove_runs_calls. intros n Hn. exists n. split; [done|].
  by eapply to_remove_inactive.
Qed.

Lemma reject_ancestors_calls P root target : calls_only P (reject_existing_symlink_ancestors root target).
Proof.
  assert (Hone : ∀ p, calls_only P (reject_existing_symlink p)).
  { intros p. apply calls_bind; [by apply calls_trigger|]. intros [md|[| |e]]; try apply calls_ret. destruct (is_symlink md); apply calls_ret. }
  unfold reject_existing_symlink_ancestors. destruct (negb _); [apply calls_ret|]. apply calls_try; [apply Hone|]. intros _.
  destruct (strip_prefix_path _ _) as [relative|]; [|apply calls_ret]. generalize (normalize_lexical root).
  induction relative as [|c rest IH]; intros current; cbn [reject_each]; [apply calls_ret|]. apply calls_try; [apply Hone|]. intros _. apply IH.
Qed.

Definition creates (destination : list Component) (s : step_of fresp) : Prop :=
  s = existT (CreateNew destination) (Ok ()) ∨ ∃ dot, s = existT (CreateNewDir dot destination) (Ok ()).

Lemma open_new_calls rel destination :
  always (try_io (open_new rel destination) create_failed) (fun tr r =>
    Forall (fun s => projT1 s ∈ [CreateNew destination; CreateNewDir false destination; CreateNewDir true destination]) tr ∧
    (is_ok r = true → Exists (creates destination) tr)).
Proof.
  unfold try_io, open_new, creates. destruct (spelling rel); cbn; (intros [[]|e]; split; [repeat constructor; set_solver| |repeat constructor; set_solver|done]);
    intros _; constructor; eauto.
Qed.

Theorem write_calls home root request max rel :
  normalize_artifact_path (aw_path request) = Ok rel →
  let destination := join_path (components root) (components rel) in
  always (write_code_mode_artifact home root request max) (fun tr _ =>
    Forall (fun s => changes (projT1 s) = true →
      projT1 s ∈ [CreateNew destination; CreateNewDir false destination; CreateNewDir true destination] ∨
      (∃ dir, parent destination = Some dir ∧ projT1 s = CreateDirAll dir) ∨
      projT1 s = WriteAll destination (aw_content request) ∧ Exists (creates destination) tr) tr).
Proof.
  intros Hrel destination. set (early e := ∃ dir, parent destination = Some dir ∧ e = CreateDirAll dir).
  assert (Hlift : ∀ tr tr' : list (step_of fresp), Forall (fun s => changes (projT1 s) = true → early (projT1 s)) tr →
    Forall (fun s => changes (projT1 s) = true →
      projT1 s ∈ [CreateNew destination; CreateNewDir false destination; CreateNewDir true destination] ∨ early (projT1 s) ∨
      projT1 s = WriteAll destination (aw_content request) ∧ Exists (creates destination) tr') tr).
  { intros tr tr' Ht. eapply Forall_impl; [exact Ht|]. auto. }
  unfold write_code_mode_artifact. rewrite Hrel. cbn [lift_tool].
  eapply (always_try_spec _ _ (fun tr r => tr = [] ∧ r = Ok rel)); [done| |by intros ? ? [-> _]]. intros ? ? [-> [= ->]].
  eapply (always_try_spec _ _ (fun tr _ => tr = [])); [done| |by intros ? ? ->]. intros ? ct ->. cbn [app].
  destruct (bool_decide _); [by constructor|]. cbv zeta. fold destination.
  eapply always_try_spec; [apply (reject_ancestors_calls early)| |intros; by apply Hlift]. intros tr1 u1 H1.
  assert (Hdir : calls_only early (match parent destination with
    | Some dir => try_io (trigger (CreateDirAll dir)) (internal_artifact "create artifact directory") | None => ret_ok () end)).
  { destruct (parent destination) as [dir|] eqn:Hd; [|apply calls_ret]. apply calls_bind; [|intros; apply calls_ret].
    apply calls_trigger. intros _. by exists dir. }
  eapply always_try_spec; [exact Hdir| |intros; by apply Hlift, Forall_app_2]. intros tr2 u2 H2.
  eapply always_try_spec; [apply (reject_ancestors_calls early)| |intros; apply Hlift; by repeat apply Forall_app_2]. intros tr3 u3 H3.
  assert (H123 : Forall (fun s => changes (projT1 s) = true → early (projT1 s)) (tr1 ++ tr2 ++ tr3)) by by repeat apply Forall_app_2.
  assert (Hend : ∀ tr4 tl : list (step_of fresp),
    Forall (fun s => projT1 s ∈ [CreateNew destination; CreateNewDir false destination; CreateNewDir true destination]) tr4 →
    Forall (fun s => projT1 s = WriteAll destination (aw_content request) ∧ Exists (creates destination) tr4 ∨ changes (projT1 s) = false) tl →
    Forall (fun s => changes (projT1 s) = true →
      projT1 s ∈ [CreateNew destination; CreateNewDir false destination; CreateNewDir true destination] ∨ early (projT1 s) ∨
      projT1 s = WriteAll destination (aw_content request) ∧ Exists (creates destination) (tr1 ++ tr2 ++ tr3 ++ tr4 ++ tl))
      (tr1 ++ tr2 ++ tr3 ++ tr4 ++ tl)).
  { intros tr4 tl H4 Htl. rewrite (app_assoc tr2), (app_assoc tr1). apply Forall_app_2; [by apply Hlift|]. apply Forall_app_2.
    - eapply Forall_impl; [exact H4|]. auto.
    - eapply Forall_impl; [exact Htl|]. intros s [[-> Hex]|Hs] Hc; [|congruence]. right. right. split; [done|].
      rewrite !Exists_app. auto. }
  eapply always_try_spec; [apply open_new_calls| |].
  - intros tr4 u4 [H4 Hex]. specialize (Hex eq_refl). cbn. intros [[]|e]; cbn.
    + intros [[]|e]; (apply Hend; [done|]; constructor; [by left|constructor; [by right|constructor]]).
    + apply Hend; [done|]. constructor; [by left|constructor].
  - intros tr4 e [H4 _]. specialize (Hend tr4 [] H4 (Forall_nil_2 _)). by rewrite !app_nil_r in Hend.
Qed.
End Calls.

Record RunHost := mkRunHost {
  rh_world : World;
  rh_active : gset string;
  rh_snapshots : gmap string (gset string);
}.

(** The steps of the executions that touch the shared state, in any order: the
    registration and its end, the two halves of [prune_artifact_runs] (the
    snapshot, and the prune that uses it), and a write.  A prune and a write are
    one step each here; for what they do between their calls see [prune_calls]
    and [write_calls].  The walk of a prune has a turn for every entry of the
    tree. *)
Inductive RunEvent :=
| RunStart (run_id : string)
| RunEnd (run_id : string)
| TakeSnapshot (run_id : string)
| PruneWith (run_id : string)
| RunWrite (run_id : string) (request : CodeModeArtifactWrite).

Section Runs.
Context `{CodePlatform} `{UlidPlatform}.
Context (env : string → option string) (installed : option ArtifactDefaults) (lab_home : string).

Definition run_event (h : RunHost) (e : RunEvent) : RunHost :=
  match e with
  | RunStart id => mkRunHost (rh_world h) (register id (rh_active h)) (rh_snapshots h)
  | RunEnd id => mkRunHost (rh_world h) (drop_run id (rh_active h)) (rh_snapshots h)
  | TakeSnapshot id => mkRunHost (rh_world h) (rh_active h) (<[id := active_artifact_runs_snapshot (rh_active h)]> (rh_snapshots h))
  | PruneWith id =>
      match rh_snapshots h !! id with
      | None => h
      | Some snapshot =>
          let p := prune_artifact_runs (S (size (w_fs (rh_world h)))) env installed lab_home snapshot (artifact_retention_runs env installed) in
          mkRunHost (run host p (rh_world h)).2 (rh_active h) (delete id (rh_snapshots h))
      end
  | RunWrite id request =>
      let p := write_code_mode_artifact (env "HOME") (code_mode_artifact_root lab_home id) request (artifact_max_bytes env installed) in
      mkRunHost (run host p (rh_world h)).2 (rh_active h) (rh_snapshots h)
  end.
Definition run_events (events : list RunEvent) (h : RunHost) : RunHost := foldl run_event h events.

(** The store is at [store], reached without a link. *)
Record store_ready (store : Key) (w : World) : Prop := mkStoreReady {
  sr_root : components (artifact_store_root lab_home) = host_path w store;
  sr_plain : plain (w_root w) = true;
  sr_inside : w_escaped w = false;
  sr_wf : wf (w_fs w);
  sr_proper : Forall proper store;
  sr_clear : clear (w_fs w) store;
}.

Lemma quiet_store store w w' : store_ready store w → quiet w w' → store_ready store w'.
Proof.
  intros [Hr Hp Hi Hwf Hpr Hc] Hq. pose proof (quiet_clear _ _ store Hq Hc). destruct Hq as (Er & Ee & _ & Hw & _).
  split; [by unfold host_path; rewrite Er|congruence|congruence|auto|done|done].
Qed.

Lemma store_run_ready store w id : store_ready store w → proper id → ready (code_mode_artifact_root lab_home id) store id w.
Proof.
  intros [Hr Hp Hi Hwf Hpr Hc] Hid. split; [|done..| |done].
  - unfold code_mode_artifact_root. rewrite components_join_text, Hr by done. unfold host_path. by rewrite fmap_app, <- app_assoc.
  - apply Forall_app. split; [done|by constructor; [|constructor]].
Qed.

(** A write only adds. *)
Lemma write_adds store w id request max_bytes :
  store_ready store w → proper id →
  let out := (run host (write_code_mode_artifact (env "HOME") (code_mode_artifact_root lab_home id) request max_bytes) w).2 in
  quiet w out ∧ ∀ q n, w_fs w !! q = Some n → w_fs out !! q = Some n.
Proof.
  intros Hst Hid. cbv zeta. destruct (write_refused (env "HOME") (code_mode_artifact_root lab_home id) request max_bytes w)
    as [(rel & ct & Hrel & Hct & Hlen)|[e ->]]; [|split; [apply quiet_refl|done]].
  destruct (artifact_write_spec (env "HOME") _ _ _ request max_bytes rel ct w (store_run_ready store w id Hst Hid) Hrel Hct Hlen) as ((Hq & Ha) & _).
  split; [exact Hq|]. intros q n Hn. destruct (Ha q) as [->|(E & _)]; [done|congruence].
Qed.

Definition event_run (e : RunEvent) : string :=
  match e with RunStart id | RunEnd id | TakeSnapshot id | PruneWith id => id | RunWrite id _ => id end.

(** A run that is registered, and in every snapshot that is still to be used. *)
Definition protected (id : string) (h : RunHost) : Prop :=
  id ∈ rh_active h ∧ ∀ p s, rh_snapshots h !! p = Some s → id ∈ s.

Lemma event_protected id h e : protected id h → e ≠ RunEnd id → protected id (run_event h e).
Proof.
  intros [Ha Hs] He. destruct e as [i|i|i|i|i request]; simpl.
  - split; [unfold register; set_solver|done].
  - split; [unfold drop_run; simpl; set_solver|done].
  - split; [done|]. intros p s. simpl. rewrite lookup_insert. case_decide; [by intros [= <-]|apply Hs].
  - destruct (rh_snapshots h !! i); [|by split]. split; [done|]. intros p s'. simpl. rewrite lookup_delete. case_decide; [done|apply Hs].
  - by split.
Qed.

Lemma event_keeps store id h e :
  store_ready store (rh_world h) → proper (event_run e) → protected id h →
  store_ready store (rh_world (run_event h e)) ∧
  ∀ q n, under (store ++ [id]) q → w_fs (rh_world h) !! q = Some n → w_fs (rh_world (run_event h e)) !! q = Some n.
Proof.
  intros Hst Hid [_ Hs]. destruct e as [i|i|i|i|i request]; simpl; try by split.
  - destruct (rh_snapshots h !! i) as [s|] eqn:E; [|by split]. cbn [rh_world]. unfold prune_artifact_runs. rewrite (sr_root _ _ Hst).
    destruct (prune_runs_spec (S (size (w_fs (rh_world h)))) store (artifact_retention_runs env installed) (artifact_max_store_bytes env installed)
      s (rh_world h) (sr_wf _ _ Hst) (sr_clear _ _ Hst)) as (_ & Hq & Hp & _); [lia|].
    split; [by eapply quiet_store|]. intros q n Hu Hn. destruct (Hp q) as [->|(_ & m & [_ Hm] & Hu')]; [done|].
    destruct Hm. rewrite (under_child_eq _ _ _ _ Hu' Hu). by eapply Hs.
  - cbn [rh_world]. destruct (write_adds store (rh_world h) i request (artifact_max_bytes env installed) Hst Hid) as [Hq Ha].
    split; [by eapply quiet_store|]. intros q n _. apply Ha.
Qed.

Lemma events_keep store id events : ∀ h,
  store_ready store (rh_world h) → Forall (fun e => proper (event_run e)) events → protected id h → RunEnd id ∉ events →
  store_ready store (rh_world (run_events events h)) ∧
  ∀ q n, under (store ++ [id]) q → w_fs (rh_world h) !! q = Some n → w_fs (rh_world (run_events events h)) !! q = Some n.
Proof.
  induction events as [|e events IH]; intros h Hst Hev Hpr Hend; [by split|]. apply Forall_cons in Hev as [He Hev].
  apply not_elem_of_cons in Hend as [Hne Hend]. destruct (event_keeps store id h e Hst He Hpr) as [Hst1 Hk1].
  destruct (IH (run_event h e)) as [Hst2 Hk2]; [done|done|by apply event_protected|done|]. split; [exact Hst2|].
  intros q n Hu Hn. apply Hk2; auto.
Qed.
End Runs.

(** (C25) In every interleaving of executions that start, end, take snapshots,
    prune and write, and whichever file system calls fail: as long as a run is
    registered, and was so before every snapshot still in use, no entry of its
    directory is removed or changed, and no path leaves the tree. *)
Theorem running_artifacts_kept `{CodePlatform} `{UlidPlatform} env installed lab_home store id events h :
  store_ready lab_home store (rh_world h) → Forall (fun e => proper (event_run e)) events → protected id h → RunEnd id ∉ events →
  let h' := run_events env installed lab_home events h in
  w_escaped (rh_world h') = false ∧
  ∀ q n, under (store ++ [id]) q → w_fs (rh_world h) !! q = Some n → w_fs (rh_world h') !! q = Some n.
Proof.
  intros Hst Hev Hpr Hend. destruct (events_keep env installed lab_home store id events h Hst Hev Hpr Hend) as [Hst' Hk].
  split; [apply (sr_inside _ _ _ Hst')|exact Hk].
Qed.

(** ** A concrete store *)

#[local] Existing Instance sample_code_platform.
Definition sample_ulid : UlidPlatform := {| ulid_from_string_ok := fun s => (String.length s =? 26)%nat |}.
#[local] Existing Instance sample_ulid.

(** A run of 2024, numbered. *)
Definition sample_run (c : ascii) : string := "01J000000000000000000000" +:+ String "0" (String c "").

Definition is_proper (s : string) : bool := bool_decide (component_of s = Some (Normal s)) && lacks "/" s.
Definition wf_check (fs : FS) : bool :=
  bool_decide (fs !! [] = Some NDir) &&
  forallb (fun kn => forallb is_proper kn.1 &&
    match reverse kn.1 with [] => true | _ :: r => bool_decide (fs !! reverse r = Some NDir) end) (map_to_list fs).

Lemma wf_check_spec fs : wf_check fs = true → wf fs.
Proof.
  unfold wf_check. intros [H0%bool_decide_eq_true Hall]%andb_true_iff. rewrite forallb_forall in Hall.
  assert (∀ k n, fs !! k = Some n → forallb is_proper k = true ∧
    match reverse k with [] => True | _ :: r => fs !! reverse r = Some NDir end) as Hk.
  { intros k n Hn. specialize (Hall (k, n)). destruct (proj1 (andb_true_iff _ _) (Hall (proj1 (list_elem_of_In _ _) (proj2 (elem_of_map_to_list _ _ _) Hn)))) as [? Hr].
    cbn [fst] in *. split; [done|]. destruct (reverse k); [done|]. by apply bool_decide_eq_true in Hr. }
  split_and!; [done| |].
  - intros k c [n Hn]. destruct (Hk _ _ Hn) as [_ Hr]. rewrite reverse_snoc in Hr. by rewrite reverse_involutive in Hr.
  - intros k [n Hn]. destruct (Hk _ _ Hn) as [Hp _]. rewrite forallb_forall in Hp. apply Forall_forall. intros x Hx.
    apply list_elem_of_In, Hp, andb_true_iff in Hx as [Hx%bool_decide_eq_true ?]. by split.
Qed.

Definition sample_store : Key := ["code-mode-artifacts"].
(** Three runs, a stray directory, a link and a file beside them. *)
Definition sample_tree : World := sample_world
  [(sample_store, NDir); (sample_store ++ [sample_run "1"], NDir); (sample_store ++ [sample_run "1"; "a"], NFile "12345");
   (sample_store ++ [sample_run "2"], NDir); (sample_store ++ [sample_run "2"; "d"], NDir); (sample_store ++ [sample_run "2"; "d"; "b"], NFile "123");
   (sample_store ++ [sample_run "3"], NDir); (sample_store ++ [sample_run "3"; "c"], NFile "1");
   (sample_store ++ ["keep"], NDir); (sample_store ++ [sample_run "0"], NSymlink); (["other"], NFile "x")].

Lemma sample_tree_wf : wf (w_fs sample_tree).
Proof. apply wf_check_spec. by vm_compute. Qed.
Lemma sample_tree_clear : clear (w_fs sample_tree) sample_store.
Proof. intros q [r Hr]. destruct q as [|x [|y q]]; [by vm_compute| |done]. injection Hr as <- _. by vm_compute. Qed.

(** The two newer runs hold 4 bytes and stay; the oldest goes, unless it is
    active. *)
Lemma prune_exact_witness :
  let out active := run host (prune_artifact_runs_in 20 (host_path sample_tree sample_store) 2 4 active) sample_tree in
  w_fs (out ∅).2 !! (sample_store ++ [sample_run "1"; "a"]) = None ∧
  w_fs (out ∅).2 !! (sample_store ++ [sample_run "2"; "d"; "b"]) = Some (NFile "123") ∧
  w_fs (out {[sample_run "1"]}).2 !! (sample_store ++ [sample_run "1"; "a"]) = Some (NFile "12345") ∧
  ∀ q node, w_fs (out ∅).2 !! q = Some node → w_fs sample_tree !! q = Some node.
Proof.
  destruct (prune_exact 20 sample_store 2 4 ∅ sample_tree sample_tree_wf eq_refl sample_tree_clear) as (_ & _ & _ & _ & Hk & _); [by vm_compute; lia|].
  split_and!; [by vm_compute|by vm_compute|by vm_compute|exact Hk].
Defined.

Lemma prune_bounds_witness :
  let out := run host (prune_artifact_runs_in 20 (host_path sample_tree sample_store) 2 4 ∅) sample_tree in
  (Z.of_nat (length (filter (fun n => n ∉ (∅ : gset string)) (runs (w_fs out.2) sample_store))) <= 2)%Z.
Proof.
  destruct (prune_bounds 20 sample_store 2 4 ∅ sample_tree sample_tree_wf sample_tree_clear) as [Hc _]; [by vm_compute; lia|done|].
  exact (Hc eq_refl).
Defined.

(** ** The window between the snapshot and the prune *)

Definition sample_env (retain : string) (name : string) : option string :=
  if String.eqb name "LABBY_CODE_MODE_ARTIFACT_RETENTION_RUNS" then Some retain else None.
Definition empty_host : RunHost := mkRunHost (sample_world []) ∅ ∅.
Definition sample_events (snapshot_first : bool) : list RunEvent :=
  let a := sample_run "A" in let b := sample_run "B" in let c := sample_run "C" in
  RunStart a :: (if snapshot_first then [TakeSnapshot a] else []) ++
  [RunStart b; RunWrite b (sample_request "out.json"); RunStart c; RunWrite c (sample_request "out.json")] ++
  (if snapshot_first then [] else [TakeSnapshot a]) ++ [PruneWith a].

Definition one_run : RunHost :=
  run_events (sample_env "1") None "/ws" [RunStart (sample_run "B"); RunWrite (sample_run "B") (sample_request "out.json")] empty_host.

Lemma one_run_ready : store_ready "/ws" sample_store (rh_world one_run).
Proof.
  split; [by vm_compute|by vm_compute|by vm_compute|apply wf_check_spec; by vm_compute|constructor; [by vm_compute|constructor]|].
  intros q [r Hr]. destruct q as [|x [|y q]]; [by vm_compute| |done]. injection Hr as <- _. by vm_compute.
Qed.

Lemma running_artifacts_kept_witness :
  let h' := run_events (sample_env "1") None "/ws"
              [RunStart (sample_run "C"); RunWrite (sample_run "C") (sample_request "out.json");
               RunStart (sample_run "A"); TakeSnapshot (sample_run "A"); PruneWith (sample_run "A")] one_run in
  w_fs (rh_world h') !! (sample_store ++ [sample_run "B"; "out.json"]) = Some (NFile "{}").
Proof.
  intros h'. eapply (running_artifacts_kept (sample_env "1") None "/ws" sample_store (sample_run "B")).
  - apply one_run_ready.
  - repeat constructor; by vm_compute.
  - split; [by vm_compute|]. intros p s. by vm_compute.
  - intros Hin. repeat (apply elem_of_cons in Hin as [Hin|Hin]; [discriminate|]). by apply elem_of_nil in Hin.
  - by exists ["out.json"].
  - by vm_compute.
Defined.

(** A run that starts and writes between the snapshot and the prune is not in
    the snapshot: with two such runs and one to retain, the older one's artifacts
    are removed while it is running.  With the snapshot taken last they stay. *)
Theorem late_run_pruned :
  let h first := run_events (sample_env "1") None "/ws" (sample_events first) empty_host in
  let file := sample_store ++ [sample_run "B"; "out.json"] in
  sample_run "B" ∈ rh_active (h true) ∧ w_fs (rh_world (h true)) !! file = None ∧
  sample_run "B" ∈ rh_active (h false) ∧ w_fs (rh_world (h false)) !! file = Some (NFile "{}").
Proof. split_and!; by vm_compute. Qed.

(** ** Settings *)

(** An unreadable retention value falls back to the built-in number of runs,
    whatever the configuration file says; the two byte limits fall back to the
    configuration file. *)
Theorem unparsed_retention_skips_config retain max_mib max_store :
  let installed := Some (mkArtifactDefaults (Some retain) (Some max_mib) (Some max_store)) in
  let bad _ := Some "5O" in
  artifact_retention_runs bad installed = 200%Z ∧
  artifact_max_bytes bad installed = artifact_max_bytes (fun _ => None) installed ∧
  artifact_max_store_bytes bad installed = artifact_max_store_bytes (fun _ => None) installed.
Proof. done. Qed.
