(* ===== verification/Truncate.v ===== *)
(** * Truncate: fitting an execution's response into its budget

    [labby-codemode/src/shape.rs] and [truncate.rs], and the part of
    [execute_with_raw_response] of [execute.rs] that turns the runner's response
    into the one that is returned: the widget link, the shaping of the final
    result, the soft warning, and the truncation of the result and the logs.
    The text serde_json gives a value or a response is a parameter.

    The binary search finds the least number of log lines to drop; nothing but
    the result, its metadata and the logs is touched; and the metadata never
    describes another result than the one displayed. *)

From Stdlib Require Import Ascii.
From stdpp Require Import base list gmap strings pretty.
From S2P Require Import Prelude RustStr Prog AuthTypes WebPlatform GatewayConfig Upstream Paths Workspace Redact CodeModeCalls RunnerDrive.

(** serde_json: compact and pretty text of a value, its [Display], equality,
    and the length of a response's compact text. *)
Class ResponseJson := {
  value_json : Value → option string;
  value_pretty : Value → option string;
  value_display : Value → string;
  value_eqb : Value → Value → bool;
  response_len : CodeModeExecutionResponse → option Z;
}.

(** ** Updates of a response *)

Definition set_result (v : option Value) (r : CodeModeExecutionResponse) : CodeModeExecutionResponse :=
  mkResponse (er_execution_id r) v (er_result_shaping r) (er_ui r) (er_calls r) (er_logs r) (er_artifacts r).
Definition set_shaping (m : option CodeModeResultShapeMetadata) (r : CodeModeExecutionResponse) : CodeModeExecutionResponse :=
  mkResponse (er_execution_id r) (er_result r) m (er_ui r) (er_calls r) (er_logs r) (er_artifacts r).
Definition set_ui (ui : option Value) (r : CodeModeExecutionResponse) : CodeModeExecutionResponse :=
  mkResponse (er_execution_id r) (er_result r) (er_result_shaping r) ui (er_calls r) (er_logs r) (er_artifacts r).
Definition set_logs (logs : list string) (r : CodeModeExecutionResponse) : CodeModeExecutionResponse :=
  mkResponse (er_execution_id r) (er_result r) (er_result_shaping r) (er_ui r) (er_calls r) logs (er_artifacts r).

(** ** shape.rs *)

Definition MIN_SHAPED_RESULT_BYTES : Z := 256.
Definition SOFT_WARNING_DIVISOR : Z := 3.
Definition MIN_SOFT_WARNING_BYTES : Z := 1024.

Definition utf8_prefix_by_bytes (value : string) (max_bytes : Z) : string :=
  if bool_decide (Str.len value <= max_bytes)%Z then value
  else Str.take (floor_boundary (Z.to_nat max_bytes) value) value.

Definition effective_result_budget (max_response_bytes max_response_tokens token_estimate_divisor : Z) : Z :=
  let token_budget_bytes := Z.min u64_max (Z.max 1 max_response_tokens * Z.max 1 token_estimate_divisor) in
  Z.max MIN_SHAPED_RESULT_BYTES (Z.min max_response_bytes token_budget_bytes).

Definition large_result_warning (original_size_bytes budget : Z) : option string :=
  let threshold := Z.max MIN_SOFT_WARNING_BYTES (budget / SOFT_WARNING_DIVISOR) in
  if bool_decide (budget <= threshold)%Z || bool_decide (original_size_bytes < threshold)%Z || bool_decide (budget < original_size_bytes)%Z
  then None
  else Some ("large result: " +:+ pretty original_size_bytes +:+ " bytes (soft threshold " +:+ pretty threshold +:+ ", hard budget "
             +:+ pretty budget +:+ "); project fields, filter rows, or slice arrays before returning").

Definition ShapedResult : Type := option Value * CodeModeResultShapeMetadata.

Definition unchanged (result : option Value) (policy : CodeModeResultShapePolicy) (original_size_bytes : Z) (warning : option string) : ShapedResult :=
  (result, mkShapeMetadata policy false false original_size_bytes original_size_bytes warning).

Section Response.
Context `{ResponseJson}.

Definition json_size (v : Value) : option Z := Str.len <$> value_json v.

Definition shape_truncate (value : Value) (policy : CodeModeResultShapePolicy) (original_size_bytes budget : Z) (warning : option string) :
    ShapedResult :=
  if bool_decide (original_size_bytes <= budget)%Z then unchanged (Some value) policy original_size_bytes warning
  else
    let serialized := match value with VString text => text | _ => default (value_display value) (value_pretty value) end in
    let marker_prefix := "[code mode result truncated]" +:+ String "010" ("original_size_bytes=" +:+ pretty original_size_bytes
                           +:+ ", max_size_bytes=" +:+ pretty budget +:+ String "010" "") in
    let room := Z.max 0 (budget - Str.len marker_prefix) in
    let marker := marker_prefix +:+ utf8_prefix_by_bytes serialized room in
    (Some (VString marker),
     mkShapeMetadata policy true true original_size_bytes (default (Str.len marker) (json_size (VString marker))) None).

Definition shape_final_result (result : option Value) (policy : CodeModeResultShapePolicy)
    (max_response_bytes max_response_tokens token_estimate_divisor : Z) : ShapedResult :=
  let original_size := default 0%Z (result ≫= json_size) in
  let budget := effective_result_budget max_response_bytes max_response_tokens token_estimate_divisor in
  let warning := large_result_warning original_size budget in
  match policy, result with
  | GatewayConfig.Off, _ => unchanged result policy original_size warning
  | GatewayConfig.Truncate, None => unchanged None policy original_size None
  | GatewayConfig.Truncate, Some value => shape_truncate value policy original_size budget warning
  end.

(** ** truncate.rs *)

Definition estimated_tokens (byte_len divisor : Z) : Z :=
  let d := Z.max 1 divisor in Z.max 1 ((byte_len + d - 1) / d).

Section Budget.
Context (max_response_bytes max_response_tokens token_estimate_divisor : Z).

Definition response_within_budget (r : CodeModeExecutionResponse) : bool :=
  match response_len r with
  | Some len =>
      bool_decide (len <= max_response_bytes)%Z &&
      bool_decide (estimated_tokens len token_estimate_divisor <= Z.max 1 max_response_tokens)%Z
  | None => false
  end.

Definition truncation_marker (value : Value) (artifacts : list CodeModeArtifactReceipt) : Value :=
  let serialized := default "null" (value_json value) in
  VObject [("truncated", VBool true);
           ("original_size", VNumber (Str.len serialized));
           ("original_tokens", VNumber (estimated_tokens (Str.len serialized) token_estimate_divisor));
           ("preview", VString (utf8_prefix_by_bytes serialized 1024));
           ("artifacts", VArray (receipt_value <$> artifacts));
           ("next_action", VString "Use a narrower query, request fewer fields, or split the work across multiple codemode calls.")].

(** The loop of the binary search, with a turn in hand for every line; [fits]
    is the probe at a drop count. *)
Fixpoint search_loop (n : nat) (fits : nat → bool) (lo hi : nat) : option nat :=
  match n with
  | 0 => None
  | S n =>
      if lo <? hi then
        let mid := lo + (hi - lo) / 2 in
        if fits mid then search_loop n fits lo mid else search_loop n fits (S mid) hi
      else Some lo
  end.

Definition binary_search_drop_count (original : list string) (r : CodeModeExecutionResponse) (total : nat) : option nat :=
  if negb (response_within_budget (set_logs [] r)) then Some total
  else search_loop (S total) (fun mid => response_within_budget (set_logs (drop mid original) r)) 0 total.

(** The result, when the marker is shorter than it. *)
Definition cap_result (r : CodeModeExecutionResponse) : CodeModeExecutionResponse :=
  match er_result r with
  | None => r
  | Some result =>
      let original_len := default 0%Z (json_size result) in
      let marker := truncation_marker result (er_artifacts r) in
      let marker_len := default 0%Z (json_size marker) in
      if bool_decide (marker_len < original_len)%Z then set_shaping None (set_result (Some marker) r) else r
  end.

Definition sentinel (drop_count : nat) : string :=
  "[logs truncated to fit response budget — " +:+ pretty drop_count +:+ " line(s) dropped]".

Definition truncate_execution_response (r : CodeModeExecutionResponse) : option CodeModeExecutionResponse :=
  if response_within_budget r then Some r
  else
    let r := cap_result r in
    match er_logs r with
    | [] => Some r
    | original =>
        if response_within_budget r then Some r
        else
          match binary_search_drop_count original (set_logs [] r) (length original) with
          | None => None
          | Some drop_count =>
              Some (set_logs ((if 0 <? drop_count then [sentinel drop_count] else []) ++ drop drop_count original) r)
          end
    end.
End Budget.

(** ** execute.rs *)

Definition UI_OPT_IN_KEY : string := "__ui".
(** [ui_capture] is [None] when its lock is poisoned. *)
Definition apply_ui_opt_in (ui_capture : option (option Value)) (r : CodeModeExecutionResponse) : CodeModeExecutionResponse :=
  let inner := match er_result r with Some (VObject map) => get UI_OPT_IN_KEY map | _ => None end in
  let r := match inner with Some inner => set_result (Some inner) r | None => r end in
  match ui_capture with Some sink => set_ui sink r | None => r end.

Definition within (c : CodeModeConfig) : CodeModeExecutionResponse → bool :=
  response_within_budget (cm_max_response_bytes c) (cm_max_response_tokens c) (cm_token_estimate_divisor c).

Definition remove_soft_warning_if_it_breaks_budget (c : CodeModeConfig) (r : CodeModeExecutionResponse) : CodeModeExecutionResponse :=
  match er_result_shaping r with
  | Some m =>
      match sm_warning m with
      | None => r
      | Some _ =>
          if within c r then r
          else match cm_result_shape_policy c with
               | GatewayConfig.Off => set_shaping None r
               | GatewayConfig.Truncate =>
                   set_shaping (Some (mkShapeMetadata (sm_policy m) (sm_changed m) (sm_truncated m) (sm_original_size_bytes m)
                                        (sm_shaped_size_bytes m) None)) r
               end
      end
  | None => r
  end.

Definition same_result (a b : option Value) : bool :=
  match a, b with Some a, Some b => value_eqb a b | None, None => true | _, _ => false end.

(** [execute_with_raw_response] after the sandbox has answered: the raw and the
    displayed response. *)
Definition present_response (c : CodeModeConfig) (ui_capture : option (option Value)) (response : CodeModeExecutionResponse) :
    option (CodeModeExecutionResponse * CodeModeExecutionResponse) :=
  let raw := apply_ui_opt_in ui_capture response in
  let '(result, metadata) := shape_final_result (er_result raw) (cm_result_shape_policy c) (cm_max_response_bytes c)
                               (cm_max_response_tokens c) (cm_token_estimate_divisor c) in
  let r := set_result result raw in
  let r := match cm_result_shape_policy c, sm_warning metadata with
           | GatewayConfig.Off, None => r
           | _, _ => set_shaping (Some metadata) r
           end in
  let r := remove_soft_warning_if_it_breaks_budget c r in
  let shaped_result := er_result r in
  match truncate_execution_response (cm_max_response_bytes c) (cm_max_response_tokens c) (cm_token_estimate_divisor c) r with
  | None => None
  | Some display => Some (raw, if same_result (er_result display) shaped_result then display else set_shaping None display)
  end.
End Response.

(** ** The search *)

(** [p] holds from some point on. *)
Definition monotone (p : nat → bool) (hi : nat) : Prop := ∀ i j, i ≤ j → j ≤ hi → p i = true → p j = true.
Definition least (p : nat → bool) (k : nat) : Prop := p k = true ∧ ∀ j, j < k → p j = false.

Lemma search_least p total n : ∀ lo hi,
  monotone p total → hi ≤ total → lo ≤ hi → hi - lo < n → p hi = true → (∀ j, j < lo → p j = false) →
  ∃ k, search_loop n p lo hi = Some k ∧ least p k ∧ k ≤ hi.
Proof.
  induction n as [|n IH]; intros lo hi Hm Ht Hle Hn Hhi Hlo; [lia|]. cbn [search_loop]. destruct (Nat.ltb_spec lo hi) as [Hlt|Hge].
  - assert ((hi - lo) / 2 < hi - lo) as Hd by (apply Nat.div_lt; lia). set (d := (hi - lo) / 2) in *.
    destruct (p (lo + d)) eqn:E.
    + destruct (IH lo (lo + d)) as (k & -> & ? & ?); [done|lia|lia|lia|done|done|]. exists k. split_and!; [done|done|lia].
    + destruct (IH (S (lo + d)) hi) as (k & -> & ? & ?); [done|lia|lia|lia|done| |by exists k].
      intros j Hj. destruct (p j) eqn:Ej; [|done]. rewrite (Hm j (lo + d)) in E; [done|lia|lia|done].
  - assert (lo = hi) as -> by lia. by exists hi.
Qed.

(** ** The length of a response

    The compact text of a response is that of its other fields and the array of
    its log lines: each a string of two quotes and its escaped bytes, separated
    by commas. *)
Class ResponseJsonSpec `{ResponseJson} := {
  base_len : CodeModeExecutionResponse → option Z;
  line_len : string → Z;
  line_len_quotes line : (2 <= line_len line)%Z;
  base_len_logs logs r : base_len (set_logs logs r) = base_len r;
  response_len_logs r :
    response_len r = (fun b => b + 2 + foldr (fun line acc => line_len line + acc) 0 (er_logs r) + Z.max 0 (Z.of_nat (length (er_logs r)) - 1))%Z
                     <$> base_len r;
}.

Section Props.
Context `{ResponseJsonSpec}.
Context (max_response_bytes max_response_tokens token_estimate_divisor : Z).
Notation fits := (response_within_budget max_response_bytes max_response_tokens token_estimate_divisor).

Lemma tokens_mono a b : (a <= b)%Z → (estimated_tokens a token_estimate_divisor <= estimated_tokens b token_estimate_divisor)%Z.
Proof.
  intros Hab. unfold estimated_tokens. assert (∀ d, 1 <= d → (a + d - 1) / d <= (b + d - 1) / d)%Z as Hd by (intros d Hd; apply Z.div_le_mono; lia).
  specialize (Hd (Z.max 1 token_estimate_divisor) ltac:(lia)). lia.
Qed.

Lemma fits_mono r r' n n' : response_len r = Some n → response_len r' = Some n' → (n' <= n)%Z → fits r = true → fits r' = true.
Proof.
  unfold response_within_budget. intros -> -> Hle [H1%bool_decide_eq_true H2%bool_decide_eq_true]%andb_true_iff.
  pose proof (tokens_mono n' n Hle). apply andb_true_iff. split; apply bool_decide_eq_true; lia.
Qed.

Lemma lines_nonneg l : (0 <= foldr (fun line acc => line_len line + acc) 0 l)%Z.
Proof. induction l as [|x l IH]; simpl; [done|]. pose proof (line_len_quotes x). lia. Qed.

(** Dropping older lines never makes a response longer. *)
Lemma drop_shorter r l i j n :
  i ≤ j → response_len (set_logs (drop i l) r) = Some n → ∃ n', response_len (set_logs (drop j l) r) = Some n' ∧ (n' <= n)%Z.
Proof.
  intros Hij. rewrite !response_len_logs, !base_len_logs. destruct (base_len r) as [b|]; [|done]. intros [= <-]. eexists. split; [done|].
  cbn [er_logs set_logs]. replace j with (i + (j - i)) by lia. rewrite <- drop_drop. generalize (drop i l). clear. intros l.
  rewrite length_drop. generalize (j - i). clear. intros d.
  assert (∀ l d, foldr (fun line acc => line_len line + acc) 0 (drop d l) <= foldr (fun line acc => line_len line + acc) 0 l)%Z as Hs.
  { clear. induction l as [|x l IH]; intros [|d]; simpl; try done. specialize (IH d). pose proof (line_len_quotes x). lia. }
  specialize (Hs l d). lia.
Qed.

Lemma drop_monotone r l : monotone (fun i => fits (set_logs (drop i l) r)) (length l).
Proof.
  intros i j Hij _ Hf. destruct (response_len (set_logs (drop i l) r)) as [n|] eqn:E.
  - destruct (drop_shorter r l i j n Hij E) as (n' & E' & Hle). exact (fits_mono _ _ n n' E E' Hle Hf).
  - unfold response_within_budget in Hf. by rewrite E in Hf.
Qed.

Lemma drop_count_spec l r :
  ∃ k, binary_search_drop_count max_response_bytes max_response_tokens token_estimate_divisor l r (length l) = Some k ∧ k ≤ length l ∧
    (∀ j, j < k → fits (set_logs (drop j l) r) = false) ∧ (fits (set_logs (drop k l) r) = true ∨ k = length l ∧ fits (set_logs [] r) = false).
Proof.
  unfold binary_search_drop_count. destruct (fits (set_logs [] r)) eqn:E; cbn [negb].
  - destruct (search_least (fun i => fits (set_logs (drop i l) r)) (length l) (S (length l)) 0 (length l)) as (k & Hs & [Hk Hj] & Hle);
      [apply drop_monotone|done|lia|lia|by rewrite drop_all|lia|]. exists k. split_and!; auto.
  - exists (length l). split_and!; [done|done| |by right]. intros j Hj. destruct (fits (set_logs (drop j l) r)) eqn:Ej; [|done].
    rewrite <- (drop_all l) in E. rewrite <- E. symmetry. by apply (drop_monotone r l j (length l)); [lia|done|].
Qed.

Notation capped := (cap_result token_estimate_divisor).
Notation truncated := (truncate_execution_response max_response_bytes max_response_tokens token_estimate_divisor).

Lemma cap_logs r : er_logs (capped r) = er_logs r.
Proof. unfold cap_result. destruct (er_result r); [|done]. by case_bool_decide. Qed.

(** The logs of a truncated response: the sentinel and the newest lines, as many
    as fit without it. *)
Definition trimmed (r r' : CodeModeExecutionResponse) : Prop :=
  ∃ k, 0 < k ≤ length (er_logs r) ∧ r' = set_logs (sentinel k :: drop k (er_logs r)) r ∧
    (∀ j, j < k → fits (set_logs (drop j (er_logs r)) r) = false) ∧
    (fits (set_logs (drop k (er_logs r)) r) = true ∨ k = length (er_logs r) ∧ fits (set_logs [] r) = false).

Lemma truncate_spec r :
  ∃ r', truncated r = Some r' ∧
    (r' = r ∧ fits r = true ∨
     fits r = false ∧ r' = capped r ∧ (fits (capped r) = true ∨ er_logs r = []) ∨
     fits r = false ∧ fits (capped r) = false ∧ trimmed (capped r) r').
Proof.
  unfold truncate_execution_response. destruct (fits r) eqn:E; [by eauto|]. destruct (er_logs (capped r)) as [|line logs] eqn:El.
  { rewrite cap_logs in El. by eauto 8. }
  destruct (fits (capped r)) eqn:Ec; [by eauto 8|]. rewrite <- El.
  destruct (drop_count_spec (er_logs (capped r)) (set_logs [] (capped r))) as (k & -> & Hk & Hj & Hf).
  assert (∀ l, set_logs l (set_logs [] (capped r)) = set_logs l (capped r)) as Es by done. setoid_rewrite Es in Hj. rewrite !Es in Hf.
  assert (0 < k) as Hpos.
  { destruct k; [|lia]. destruct Hf as [Hf|[Hl _]]; [|by rewrite El in Hl].
    rewrite drop_0 in Hf. assert (set_logs (er_logs (capped r)) (capped r) = capped r) as Er by by destruct (capped r). by rewrite Er, Ec in Hf. }
  eexists. split; [done|]. right. right. split_and!; [done|done|]. exists k. destruct (Nat.ltb_spec 0 k); [|lia]. by split_and!.
Qed.
End Props.

(** (C27) [truncate_execution_response] answers, for every response and budget,
    and a response within its budget is returned as it is.  Otherwise only the
    result, its metadata and the logs can differ: the result is replaced by the
    marker exactly when the marker's text is shorter, and its metadata is then
    dropped; and when that is not enough, the oldest log lines go, the least
    number [k > 0] of them without which the response fits (all of them when it
    does not fit even without logs), with one line in their place that states
    [k].  If [k] lines were enough, the response exceeds the budget by at most
    that line and its comma. *)
Theorem truncation_exact `{ResponseJsonSpec} max_bytes max_tokens divisor r :
  let fits := response_within_budget max_bytes max_tokens divisor in
  let capped := cap_result divisor r in
  ∃ r', truncate_execution_response max_bytes max_tokens divisor r = Some r' ∧
    (fits r = true → r' = r) ∧
    (fits r = false →
      er_execution_id r' = er_execution_id r ∧ er_ui r' = er_ui r ∧ er_calls r' = er_calls r ∧ er_artifacts r' = er_artifacts r ∧
      (er_result r = None → er_result r' = None ∧ er_result_shaping r' = er_result_shaping r) ∧
      (∀ v, er_result r = Some v →
         let marker := truncation_marker divisor v (er_artifacts r) in
         let shorter := (default 0 (json_size marker) < default 0 (json_size v))%Z in
         (shorter → er_result r' = Some marker ∧ er_result_shaping r' = None) ∧
         (¬ shorter → er_result r' = Some v ∧ er_result_shaping r' = er_result_shaping r)) ∧
      (fits capped = true ∨ er_logs r = [] → er_logs r' = er_logs r) ∧
      (fits capped = false → er_logs r ≠ [] → ∃ k, 0 < k ≤ length (er_logs r) ∧
         er_logs r' = sentinel k :: drop k (er_logs r) ∧
         (∀ j, j < k → fits (set_logs (drop j (er_logs r)) capped) = false) ∧
         (fits (set_logs (drop k (er_logs r)) capped) = true →
           ∃ n, response_len r' = Some n ∧ (n <= max_bytes + line_len (sentinel k) + 1)%Z) ∧
         (fits (set_logs (drop k (er_logs r)) capped) = false → k = length (er_logs r)))).
Proof.
  intros fits capped. destruct (truncate_spec max_bytes max_tokens divisor r) as (r' & E & Hr). exists r'. split; [done|].
  fold fits in Hr. fold capped in Hr. split; [intros Hf; destruct Hr as [[? _]|[(? & _)|(? & _)]]; [done|congruence..]|]. intros Hf.
  assert (∃ l, r' = set_logs l capped) as [l ->].
  { destruct Hr as [(_ & ?)|[(_ & -> & _)|(_ & _ & k & _ & -> & _)]]; [congruence| |by eexists]. exists (er_logs capped). by destruct capped. }
  cbn [er_execution_id er_ui er_calls er_artifacts er_result er_result_shaping er_logs set_logs].
  split_and!; try by (subst capped; unfold cap_result; destruct (er_result r); [case_bool_decide|]; done).
  - subst capped. unfold cap_result. intros Hn. by rewrite Hn.
  - subst capped. unfold cap_result. intros v Ev. rewrite Ev. split; intros Hs; [by rewrite bool_decide_true by exact Hs|].
    rewrite bool_decide_false by exact Hs. by rewrite Ev.
  - intros Hc. destruct Hr as [(_ & ?)|[(_ & Hr & _)|(_ & Hc' & k & Hk & _)]]; [congruence| |].
    + apply (f_equal er_logs) in Hr. cbn in Hr. rewrite Hr. apply cap_logs.
    + destruct Hc as [Hc|Hc]; [congruence|]. unfold capped in Hk. rewrite cap_logs, Hc in Hk. cbn in Hk. lia.
  - intros Hc Hl. destruct Hr as [(_ & ?)|[(_ & _ & [?|?])|(_ & _ & k & Hk & Hr & Hj & Hfk)]]; [congruence..|].
    apply (f_equal er_logs) in Hr. cbn in Hr. unfold capped in Hk, Hr, Hj, Hfk. rewrite cap_logs in Hk, Hr, Hj, Hfk. fold capped in Hj, Hfk.
    exists k. split_and!; [lia|lia|done|done| |].
    + intros Hft. unfold fits, response_within_budget in Hft. rewrite response_len_logs, base_len_logs in Hft.
      rewrite response_len_logs, base_len_logs. destruct (base_len capped) as [b|]; [|done]. cbn in Hft.
      apply andb_true_iff in Hft as [Hft%bool_decide_eq_true _]. eexists. split; [done|]. cbn [er_logs set_logs]. rewrite Hr. cbn [foldr length]. lia.
    + intros Hft. destruct Hfk as [Hx|[? _]]; [|done]. exfalso. exact (diff_true_false (eq_trans (eq_sym Hx) Hft)).
Qed.

(** ** The displayed response *)

(** Metadata about a result: the policy, and the length of its text. *)
Definition describes `{ResponseJson} (policy : CodeModeResultShapePolicy) (result : option Value) (m : CodeModeResultShapeMetadata) : Prop :=
  sm_policy m = policy ∧ sm_shaped_size_bytes m = default 0%Z (result ≫= json_size).

Lemma shape_describes `{ResponseJson} result policy max_bytes max_tokens divisor :
  (∀ s, is_Some (value_json (VString s))) →
  let shaped := shape_final_result result policy max_bytes max_tokens divisor in describes policy shaped.1 shaped.2.
Proof.
  intros Hstr. cbv zeta. unfold shape_final_result. destruct policy; [done|]. destruct result as [v|]; [|done].
  unfold shape_truncate. case_bool_decide; [done|]. cbv zeta. split; [done|]. cbn [fst snd sm_shaped_size_bytes mbind option_bind].
  unfold json_size. match goal with |- context [value_json (VString ?s)] => destruct (Hstr s) as [t ->] end. done.
Qed.

Lemma warning_describes `{ResponseJson} c r :
  (∀ m, er_result_shaping r = Some m → describes (cm_result_shape_policy c) (er_result r) m) →
  let r' := remove_soft_warning_if_it_breaks_budget c r in
  (∃ m, r' = set_shaping m r) ∧ ∀ m, er_result_shaping r' = Some m → describes (cm_result_shape_policy c) (er_result r) m.
Proof.
  intros Hd. cbv zeta. assert (∃ m, r = set_shaping m r) as Hr by (exists (er_result_shaping r); by destruct r).
  unfold remove_soft_warning_if_it_breaks_budget. destruct (er_result_shaping r) as [m|] eqn:E; [|by split; [|rewrite E]].
  assert (∀ m', er_result_shaping r = Some m' → describes (cm_result_shape_policy c) (er_result r) m') as Hd' by (intros m'; rewrite E; apply Hd).
  destruct (sm_warning m); [|done]. destruct (within c r); [done|]. destruct (cm_result_shape_policy c).
  - split; [by eexists|done].
  - split; [by eexists|]. cbn. intros m' [= <-]. by apply (Hd m).
Qed.

(** A displayed response keeps everything of [raw] but the result, and its
    metadata describes the result it has. *)
Definition displays `{ResponseJson} (c : CodeModeConfig) (raw display : CodeModeExecutionResponse) : Prop :=
  er_execution_id display = er_execution_id raw ∧ er_ui display = er_ui raw ∧
  er_calls display = er_calls raw ∧ er_artifacts display = er_artifacts raw ∧
  ∀ m, er_result_shaping display = Some m → describes (cm_result_shape_policy c) (er_result display) m.

Lemma cap_displays `{ResponseJson} c raw r : displays c raw r → displays c raw (cap_result (cm_token_estimate_divisor c) r).
Proof. intros (? & ? & ? & ? & ?). unfold cap_result. case (er_result r); [intros v; case_bool_decide|]; unfold displays; split_and!; try done; by intros m [=]. Qed.

Lemma truncate_displays `{ResponseJsonSpec} c raw r :
  displays c raw r →
  ∃ r', truncate_execution_response (cm_max_response_bytes c) (cm_max_response_tokens c) (cm_token_estimate_divisor c) r = Some r' ∧
    displays c raw r'.
Proof.
  intros Hd. destruct (truncate_spec (cm_max_response_bytes c) (cm_max_response_tokens c) (cm_token_estimate_divisor c) r) as (r' & E & Hr').
  exists r'. split; [done|]. destruct Hr' as [[-> _]|[(_ & -> & _)|(_ & _ & k & _ & -> & _)]]; [done|by apply cap_displays|].
  by destruct (cap_displays c raw r Hd) as (? & ? & ? & ? & ?).
Qed.

Lemma warning_displays `{ResponseJson} c raw r : displays c raw r → displays c raw (remove_soft_warning_if_it_breaks_budget c r).
Proof.
  intros (? & ? & ? & ? & Hd). destruct (warning_describes c r Hd) as [[m E] Hd']. rewrite E in *. unfold displays. by split_and!.
Qed.

(** What an execution returns ([execute_with_raw_response] after the
    sandbox): the raw response is the runner's with the captured widget and the
    [__ui] wrapper removed; the displayed one has the same calls, artifacts,
    widget and execution id, and it carries metadata only about the result it
    displays: the policy of the configuration, and the exact length of that
    result's text. *)
Theorem display_consistent `{ResponseJsonSpec} c ui_capture response :
  (∀ s, is_Some (value_json (VString s))) → er_result_shaping response = None →
  ∃ display, present_response c ui_capture response = Some (apply_ui_opt_in ui_capture response, display) ∧
    er_calls display = er_calls response ∧ er_artifacts display = er_artifacts response ∧
    displays c (apply_ui_opt_in ui_capture response) display.
Proof.
  intros Hstr Hnone. unfold present_response. set (raw := apply_ui_opt_in ui_capture response).
  assert (er_calls raw = er_calls response ∧ er_artifacts raw = er_artifacts response ∧ er_result_shaping raw = None) as (Hc & Ha & Hn).
  { subst raw. unfold apply_ui_opt_in. destruct (match er_result response with Some (VObject _) => _ | _ => _ end), ui_capture; done. }
  pose proof (shape_describes (er_result raw) (cm_result_shape_policy c) (cm_max_response_bytes c) (cm_max_response_tokens c)
    (cm_token_estimate_divisor c) Hstr) as Hsh. destruct (shape_final_result _ _ _ _ _) as [result metadata]. cbn [fst snd] in Hsh.
  set (r1 := match cm_result_shape_policy c with Off => _ | _ => _ end).
  assert (displays c raw r1) as H1.
  { assert (displays c raw (set_shaping (Some metadata) (set_result result raw))) as Hs by (unfold displays; split_and!; try done; by intros m [= <-]).
    subst r1. destruct (cm_result_shape_policy c); [destruct (sm_warning metadata); [done|]|done]. unfold displays. split_and!; try done.
    cbn. intros m. by rewrite Hn. }
  destruct (truncate_displays c raw _ (warning_displays c raw r1 H1)) as (r' & -> & Hd). cbv zeta.
  eexists. split; [done|]. rewrite <- Hc, <- Ha. destruct Hd as (? & ? & ? & ? & ?). unfold displays. destruct (same_result _ _); split_and!; try done; by intros m [=].
Qed.

(** ** A concrete serializer *)

Definition sample_text (v : Value) : string := match v with VString s => in_quotes s | _ => "{the fields of an object}" end.
Definition sample_base (r : CodeModeExecutionResponse) : option Z := Some (60 + default 0%Z (er_result r ≫= fun v => Some (Str.len (sample_text v))))%Z.
Definition sample_response_json : ResponseJson := {|
  value_json := fun v => Some (sample_text v);
  value_pretty := fun v => Some (sample_text v);
  value_display := sample_text;
  value_eqb := fun a b => String.eqb (sample_text a) (sample_text b);
  response_len := fun r =>
    (fun b => b + 2 + foldr (fun line acc => Str.len line + 2 + acc) 0 (er_logs r) + Z.max 0 (Z.of_nat (length (er_logs r)) - 1))%Z <$> sample_base r;
|}.
#[local] Existing Instance sample_response_json.
#[local] Program Instance sample_response_spec : ResponseJsonSpec := {|
  base_len := sample_base;
  line_len := fun line => (Str.len line + 2)%Z;
|}.
Next Obligation. intros line. cbn. unfold Str.len. lia. Qed.
Next Obligation. done. Qed.
Next Obligation. done. Qed.

Definition sample_response : CodeModeExecutionResponse :=
  mkResponse None (Some (VString "ok")) None None [] ["the first line"; "the second line"; "b"] [].

(** The last line fits in 69 bytes. *)
Lemma truncation_exact_witness :
  ∃ r', truncate_execution_response 69 1000 4 sample_response = Some r' ∧ er_result r' = Some (VString "ok") ∧
    er_logs r' = [sentinel 2; "b"].
Proof.
  destruct (truncation_exact 69 1000 4 sample_response) as (r' & E & _ & _). exists r'. split; [exact E|].
  vm_compute in E. injection E as <-. split; by vm_compute.
Defined.

Definition sample_config (policy : CodeModeResultShapePolicy) : CodeModeConfig :=
  mkCodeModeConfig true true false policy 1000 1024 256 4 100 1000 default_semantic_search None None None None None None.

Lemma display_consistent_witness :
  ∃ display, present_response (sample_config GatewayConfig.Truncate) (Some (Some VNull))
      (set_result (Some (VObject [("__ui", VString "ok")])) sample_response)
    = Some (set_ui (Some VNull) sample_response, display) ∧ er_ui display = Some VNull ∧
    sm_shaped_size_bytes <$> er_result_shaping display = Some 4%Z.
Proof.
  destruct (display_consistent (sample_config GatewayConfig.Truncate) (Some (Some VNull))
    (set_result (Some (VObject [("__ui", VString "ok")])) sample_response)) as (display & E & _ & _ & _ & Hui & _);
    [by intros; eexists|done|]. exists display. split; [exact E|]. split; [exact Hui|]. vm_compute in E. by injection E as <-.
Defined.

(** The line that replaces the dropped ones is not counted: a response that
    fits without logs is returned over its budget. *)
Theorem sentinel_over_budget :
  response_within_budget 66 1000 4 (set_logs [] sample_response) = true ∧
  ∃ r', truncate_execution_response 66 1000 4 sample_response = Some r' ∧ er_logs r' = [sentinel 3] ∧
    response_within_budget 66 1000 4 r' = false.
Proof. split; [by vm_compute|]. eexists. split; [by vm_compute|]. split; by vm_compute. Qed.
